(* ===== verification/_CoqProject ===== *)
-Q . S2P
Prelude.v
JsNum.v
Js.v
Int32.v
Base64.v
YamlBinary.v
Regex.v
YamlCommon.v
YamlInt.v
YamlFloat.v
YamlTimestamp.v
YamlImplicit.v
YamlTypes.v
YamlSchema.v
YamlScanner.v
YamlLoader.v
YamlSafety.v
YamlWriter.v
YamlDumper.v
YamlDumpSafety.v
YamlRoundTrip.v
YamlTreeLoad.v
YamlTreeDump.v
SchemaModel.v
ClientYaml.v
SchemaForm.v
PagedCollection.v
Json.v
UserModel.v
SessionTabs.v
ListEditor.v
TableView.v
Validators.v
SchemaTree.v
Router.v
Underscore.v
BackboneEvents.v
BackboneModel.v
BackboneCollection.v
ResourceModel.v
FormEditors.v
FormValidation.v
FormRoundTrip.v
FormPipeline.v
FormErrors.v
TokenTimers.v
Buffers.v
BufferInts.v
Utf8.v
BufferText.v
BufferSystem.v
UnderscoreTime.v
UnderscoreArrays.v
CustomActions.v
