(* ===== verification/Prelude.v ===== *)
(** * Verification of the Gohan web client

    Gohan is a server of resources that JSON schemas describe.  Its web client,
    [src/public/webui/bundle.b8f2a39a475c1e3bc35c.js], shows every schema as a table
    of resources and as forms to edit them.  This development models the logic of
    the client, module by module of the bundle (the numbers below are those of
    its webpack modules), and proves what makes it correct.

    ** The program

    The client fetches the schemas once.  [AppView] (116) registers two routes
    for each of them: the table of its resources ([TableView], 161) and the detail
    of one ([DetailView], 184).  A table reads pages of a collection
    ([makeCollection] of [SchemaModel], 119), which may poll the server.  To edit
    a resource, [toLocalSchema], [filterSchema] and [toFormJSON] make a form of the
    schema, [toLocal] turns the data into the form's, and [toServer] back again;
    data without a fixed structure is edited as YAML text, so both directions go
    through js-yaml (121 to 155).  [UserModel] (117) keeps the tokens of the user
    in the session storage and shares them between tabs.

    ** Files, and what each models

    Foundations.
    - [Prelude] (this file): results of fallible code ([res], with its bind),
      lists indexed by integers, tactics and the hint database [js].
    - [JsNum]: strings as lists of UTF-16 code units, numbers, their texts.
    - [Js]: JavaScript values, objects with the order of their properties,
      settled promises.  [Int32]: 32-bit integer operations with wrap-around.
    - [Json]: [JSON.stringify] and [JSON.parse] of the language.
    - [Regex]: regular expressions, matched by derivatives, and their language.

    Data of the forms (119).
    - [SchemaModel]: [toLocal], [toServer], [defaultValue]; what they write into the
      data of the model is a second result, [toLocal_after].  The YAML functions
      are reached through the class [YamlCodec]; [ClientYaml] is its instance, the
      js-yaml of this development.
    - [SchemaForm]: [toLocalSchema] (a promise: the value it settles to), [filterSchema],
      [filterByAction], [toFormJSON].
    - [ListEditor]: the editor of lists (168), an array and the elements that show it.
    - [Validators]: the validators of form fields (178).
    - [FormEditors]: backbone-forms (165) with the client's editors (168 to 171, 179,
      180).  An [editor] holds its validators and what it shows; [editor_of] makes
      one for a field of [toFormJSON] and a value, [getValue] and [setValue] read and
      write it, [dialog_form] is the form of a dialog (162).  What the browser does
      to texts and markup is the class [Browser]; [plain_browser] is an instance.
    - [FormValidation]: validators by their names, [validate] and the button that
      submits.  [FormRoundTrip]: what untouched forms give back.  [FormPipeline]: an
      edit from the data of the server to what is sent, over all of these; [hides]
      relates the schema of the form to that of the model, [project] takes from the
      data what the form shows.  [FormErrors]: forms that cannot be submitted, lists
      that gain an item.
    - [CustomActions]: the actions of a schema (156, 185): the address and body of
      their requests, and the view as the steps of clicks, of the button of the
      dialog and of answers; the host in the configuration (207).

    Pages.
    - [PagedCollection]: the collections of 119.  Its state holds the fields of the
      collection, the requests on their way, the promises that are fulfilled, and
      the timers; [exec] is one step (a call, an answer, a continuation, a timer),
      [run] a sequence of them, [reachable] what any sequence can lead to.
    - [TableView]: the pagination, sorting, selection and texts of tables and details
      (161, 182 to 184), with [_.escape] of Underscore (114).
    - [SchemaTree]: parents, routes, ancestors of a resource, and the bread crumb.
    - [Router]: patterns of routes and the choice of a handler (113), the routes that
      [buildUi] registers (116), and the query parameters (206).

    Backbone and Underscore (113, 114), and the resources over them (119).
    - [Underscore]: deep equality and the functions on objects that Backbone uses.
      [UnderscoreTime]: throttle and debounce, whose closures are records that calls
      and timers step.  [UnderscoreArrays]: searching, sets, tables, sorting.
    - [BackboneEvents]: a world of objects with their handlers, the objects they
      listen to, and callbacks as data ([Events.on], [off], [once], [listenTo],
      [trigger], ...); [exec] runs a list of actions, those of the callbacks
      included.
    - [BackboneModel]: [Model.set] and what is made of it, on a record of the fields
      of a model; the listeners are a function of the event, and may set again.
    - [BackboneCollection]: a heap of models, and a collection as its list, its index
      by ids and its log of events; [set], [add], [remove], [reset], [fetch], [create].
    - [ResourceModel]: the methods of the class that [makeModel] builds, in the
      steps in which they happen: the call, the request once the schema is filtered,
      and the answer.

    Session (117).
    - [UserModel]: one tab; the storage is an association list of texts.
    - [SessionTabs]: the tabs of a browser, the local storage, the storage events on
      their way to each tab, and the timers; [step] delivers one of them.
    - [TokenTimers]: the view of each tab (116), with the timers that warn of the end
      of a token and end the session; a [world] is the time, the tabs and their
      views, [move_step] lets time pass, a timer fire, an event or an answer arrive.

    Buffer (143), on which the binary data of js-yaml rests.
    - [Buffers]: objects over memories that slices share; a [buffer] is an identity,
      a memory, an offset and a length, the [store] holds the memories.
    - [BufferInts]: the methods for integers; the class [Lawful] is what a pair of
      methods promises for its format, and each pair is an instance.
    - [Utf8]: the encoder and the decoder.  [BufferText]: strings in all encodings.
    - [BufferSystem]: programs that use Buffers, as lists of operations.

    js-yaml (121 to 155), and base64-js (144) which it uses.
    - [Base64]; [YamlCommon] (124 to 126); the types [YamlBinary], [YamlInt] (with null
      and bool), [YamlFloat] (with str and merge), [YamlTimestamp], [YamlTypes] (the
      collections, undefined and regular expressions); [YamlImplicit] compares the
      implicit types; [YamlSchema] (127 to 132).
    - [YamlScanner] and [YamlLoader] (123): the state of the loader is a record passed
      along, an exception a value of [res].  [YamlSafety]: it terminates.
    - [YamlWriter] and [YamlDumper] (155): scalars, and nodes over a heap of objects
      that may be cyclic.  [YamlDumpSafety]: it terminates.
    - [YamlRoundTrip]: a string that is dumped is loaded again.  [YamlTreeLoad]: the
      loader reads a document in the block style as its tree.  [YamlTreeDump]: the
      dumper writes such documents, so that whole trees are read back.

    ** What the theorems show

    Round trips: data that fits its schema survives the form
    ([toServerData_toLocalData]); an edit, through the schema that the action sees, the
    editors, the validators and the schema that the model keeps, sends what the form
    shows with the changes of the user ([edit_sends], for schemas that are [regular]
    and data that is [editable]); trees of data survive YAML
    ([safeDump_tree_roundtrip]), strings, integers, dates, binary data, query
    parameters and the filters of a collection are read back.  Termination: [load]
    on every text, [dump] on every graph, [getNextPage] over all pages, polling after
    [stopLongPolling].  Invariants: paging and polling under every interleaving of
    calls and answers ([paging_invariant] for any calls, for pages and limits that are
    sound, and for a limit that is kept; [polling_invariant] counts the chains that
    are started and ended), the list editor ([list_editor_invariant], with what a
    move beyond the ends does), the pagination.  What an action may not see is in no
    form ([filterSchema_visible]).  A logout reaches every tab in every order of
    messages, timers and other logouts, unless a tab is opened meanwhile
    ([logout_reaches_all]).  Refinement: the session
    storage implements an abstract account.  Functional behaviour of the forms,
    of the session between tabs, of the bread crumb.  Of Backbone: setting attributes
    settles and announces every change ([set_settles], [set_announces]), an event
    calls the handlers of the moment it was triggered ([trigger_calls_snapshot]), [once] binds
    a wrapper that runs the callback once whatever the callbacks do ([once_runs_once]), the index
    of a collection agrees with its models ([collection_invariant]), and fetching
    makes the collection the list of the server ([fetch_reconciles]).  Resources: saving,
    creating and being refused, from the form to the collection ([update_cycle],
    [create_cycle], [refused_create_stays]).  Forms are submitted exactly when their
    validators accept ([submit_answer]), and what two of these accept
    ([ipv4_accepts], [cidr_accepts]).  Equivalence with reference
    definitions: the binary search and the faster [uniq] of sorted arrays with the slow
    ones ([indexOf_sorted], [uniq_is_sorted]), base64 with RFC 4648, the list of types
    of a schema, deep equality with equality of data ([isEqual_same]).  Of time:
    throttled and debounced functions run in their windows and lose no call
    ([throttle_window], [debounce_window]).  Of arrays: [sortBy] is stable on every engine ([sortBy_stable]),
    [shuffle] reaches exactly the permutations ([shuffle_permutations]).  Errors: where
    the code departs from what it means to do, a theorem states what happens (the
    double chain of polling, the storm of logout messages, the session that crosses a
    logout ([session_crosses_logout]), the list editor beyond its
    ends, the second edit of free-form data, unescaped text in tables, formats without a
    validator, empty lists of objects, free-form inputs of custom actions, tokens that
    end at once or end other sessions).  Custom actions: where a request goes
    ([action_request]), and that its answer closes its own dialog
    ([answer_closes_its_dialog]).
    The timers of a token: one of each kind in every view whatever the tabs do
    ([timers_invariant]), and when they fire ([expiry_schedule]).  Of Buffer: the type
    of its states under every program ([buffers_typed]), copies, slices, comparison and
    search ([copy_moves], [slice_shares], [compare_lexicographic], [indexOf_first]),
    integers in every format ([write_then_read], [one_format]), strings
    ([utf8_roundtrip], and [two_leads_lost] for those it leaves out, [text_roundtrip], [write_whole_points], [hex_decoding]).

    ** Bounds and fuel

    Functions that are not structural take a number of steps and return
    [Err OutOfFuel] when it is used up.
    - The loader: [load] computes its fuel from the length of the text;
      [YamlSafety.load_terminates] shows that it is enough.
    - The dumper: two more than the number of objects; [YamlDumpSafety.dump_terminates].
    - [SchemaTree.url] and [getAncestors]: more than the number of parents, where the
      parents end at a root ([ranked]); [url_route], [getAncestors_ends].  With a
      cycle of parents the code itself does not return.
    - [PagedCollection.all_pages]: more than the number of resources.
    - [Json.json_value]: more than the length of the text; [parse_stringify].
    - [BackboneModel.set]: how deeply the listeners set again; two levels are enough
      for listeners that do not ([set_announces]).
    - [BackboneEvents.exec]: how deeply callbacks trigger events.
    - [Buffers.search_up]: the remaining length times that of the value, and one;
      [indexOf_first] shows that it is enough.  The other loops of Buffer run over
      lengths that are known.
    Integers of base64 and binary data are 32-bit ([Int32]); positions, lengths and
    page numbers stay below 2^53, where numbers of JavaScript are exact.

    ** What is left to arguments

    The server: its answers are events of [PagedCollection], arguments of [UserModel]
    and of [SchemaForm] (related resources) and of [ResourceModel], and the function [fetch] of
    [SchemaTree.getAncestors].  The listeners of a model and the [validate] of
    its class are arguments of [BackboneModel].  The browser is the class [Browser] of
    [FormEditors], with the laws the editors rely on.  Properties that need it to answer with pages of one
    list ([serves_pages]) or to give plain names to its schemas ([names_ok]) say so.

    ** What is not modelled

    Rendering over the DOM, Bootstrap, jQuery, the code editor ace and other
    third-party interface code; the headers and requests of the collection of schemas
    (118) and of the configuration; of forms, templates, focus, events, and editors the
    client does not use; the rest of Underscore; of Backbone, its
    views, the order of collections by a comparator, the events request, sync and error,
    and the older copy of it in 166; of Buffer, floating-point numbers (145), the
    search of strings in two-byte encodings, and the implementation without typed
    arrays; integers of more than six bytes; js/function of js-yaml (150), which
    needs esprima and the Function constructor; optional parts
    and splats in routes, and percent-encoding.  An alias inside the collection it
    names, a key [__proto__], and the text of dates or buffers as strings are answered
    with [Err Unsupported].  The Go server is another program. *)

From Stdlib Require Import ZArith Lia List String Ascii Bool.
From stdpp Require Import base list sets list_numbers tactics.

#[global] Open Scope Z_scope.

(** ** Results of fallible code

    A JavaScript function that may throw returns a [res]: the value, or the
    error it threw. *)

Inductive error :=
| TypeError                          (* engine errors: property of undefined, not iterable, ... *)
| SyntaxErr                          (* JSON.parse on malformed text *)
| RangeError
| PlainError (msg : list Z)          (* new Error(msg) *)
| YamlException (reason : list Z) (at_ : option (Z * Z * Z))  (* position, line and column of the mark *)
| Rejected (msg : list Z)            (* a promise rejected with a string *)
| Unsupported                        (* a use of the language the model does not follow *)
| OutOfFuel.                         (* the bound on the steps of a loop is reached *)

Inductive res (A : Type) :=
| Ok (a : A)
| Err (e : error).
Arguments Ok {A} _.
Arguments Err {A} _.

Definition res_bind {A B} (m : res A) (f : A -> res B) : res B :=
  match m with Ok a => f a | Err e => Err e end.

Declare Scope res_scope.
Delimit Scope res_scope with res.
Notation "x <-? m ; k" := (res_bind m (fun x => k))
  (at level 100, m at next level, k at level 200, right associativity) : res_scope.
Notation "' x <-? m ; k" := (res_bind m (fun x => k))
  (at level 100, x strict pattern, m at next level, k at level 200, right associativity) : res_scope.
#[global] Open Scope res_scope.

Fixpoint res_map {A B} (f : A -> res B) (l : list A) : res (list B) :=
  match l with
  | [] => Ok []
  | x :: l => y <-? f x; ys <-? res_map f l; Ok (y :: ys)
  end.

Definition is_ok {A} (m : res A) : bool := match m with Ok _ => true | Err _ => false end.

Lemma res_bind_ok {A B} (m : res A) (f : A -> res B) b :
  res_bind m f = Ok b <-> exists a, m = Ok a /\ f a = Ok b.
Proof. destruct m; simpl; naive_solver. Qed.

Lemma res_map_ok {A B} (f : A -> res B) l l' :
  res_map f l = Ok l' <-> Forall2 (fun x y => f x = Ok y) l l'.
Proof.
  revert l'; induction l as [|x l IH]; intros l'; simpl.
  - split; [intros [= <-]; constructor | intros H; inversion H; reflexivity].
  - split.
    + intros (y & Hy & (ys & Hys & [= <-])%res_bind_ok)%res_bind_ok.
      constructor; [done | by apply IH].
    + intros H; inversion H as [|? y ? ys Hy Hys]; subst.
      rewrite Hy; simpl. apply IH in Hys. by rewrite Hys.
Qed.

Lemma res_map_pure {A B} (f : A -> res B) (g : A -> B) l :
  (forall x, x ∈ l -> f x = Ok (g x)) -> res_map f l = Ok (map g l).
Proof.
  induction l as [|x l IH]; intros H; simpl; [done|].
  rewrite (H x) by set_solver. simpl. rewrite IH by set_solver. done.
Qed.

(** ** Tactics *)

(** Case analysis on an innermost scrutinee of a [match] or [if] of the goal. *)
Ltac case_goal :=
  match goal with
  | |- context [match ?x with _ => _ end] =>
      lazymatch x with
      | context [match _ with _ => _ end] => fail
      | _ => let E := fresh "E" in destruct x eqn:E
      end
  end.

(** The same on a hypothesis. *)
Ltac case_hyp H :=
  match type of H with
  | context [match ?x with _ => _ end] =>
      lazymatch x with
      | context [match _ with _ => _ end] => fail
      | _ => let E := fresh "E" in destruct x eqn:E
      end
  end.

(** Turn boolean comparisons in the context into propositions. *)
Ltac breflect :=
  repeat match goal with
  | H : (_ && _)%bool = true |- _ => apply andb_true_iff in H; destruct H
  | H : (_ || _)%bool = false |- _ => apply orb_false_iff in H; destruct H
  | H : negb _ = true |- _ => apply negb_true_iff in H
  | H : negb _ = false |- _ => apply negb_false_iff in H
  | H : (_ <=? _) = true |- _ => apply Z.leb_le in H
  | H : (_ <=? _) = false |- _ => apply Z.leb_gt in H
  | H : (_ <? _) = true |- _ => apply Z.ltb_lt in H
  | H : (_ <? _) = false |- _ => apply Z.ltb_ge in H
  | H : (_ =? _) = true |- _ => apply Z.eqb_eq in H
  | H : (_ =? _) = false |- _ => apply Z.eqb_neq in H
  | H : bool_decide _ = true |- _ => apply bool_decide_eq_true in H
  | H : bool_decide _ = false |- _ => apply bool_decide_eq_false in H
  end.

(** ** Lists indexed by integers

    JavaScript indexes arrays and strings with numbers; [zget l i] is
    [l[i]], [None] standing for [undefined]. *)

Definition zlen {A} (l : list A) : Z := Z.of_nat (length l).

Definition zget {A} (l : list A) (i : Z) : option A :=
  if i <? 0 then None else l !! Z.to_nat i.

(** [Array.prototype.slice] and [String.prototype.slice] for a start and an end
    that are already resolved to [0 <= a], [0 <= b]. *)
Definition zslice {A} (a b : Z) (l : list A) : list A :=
  take (Z.to_nat (b - a)) (drop (Z.to_nat a) l).

Lemma zlen_nonneg {A} (l : list A) : 0 <= zlen l.
Proof. unfold zlen; lia. Qed.

Lemma zlen_nil {A} : zlen (@nil A) = 0.
Proof. reflexivity. Qed.

Lemma zlen_cons {A} (x : A) l : zlen (x :: l) = zlen l + 1.
Proof. unfold zlen; simpl; lia. Qed.

Lemma zlen_app {A} (l k : list A) : zlen (l ++ k) = zlen l + zlen k.
Proof. unfold zlen; rewrite length_app; lia. Qed.

Lemma zlen_map {A B} (f : A -> B) l : zlen (map f l) = zlen l.
Proof. unfold zlen; by rewrite length_map. Qed.

Lemma zget_Some {A} (l : list A) i x : zget l i = Some x -> 0 <= i < zlen l.
Proof.
  unfold zget, zlen. destruct (i <? 0) eqn:E; [done|]; breflect.
  intros H%lookup_lt_Some. lia.
Qed.

Lemma zget_None {A} (l : list A) i : zlen l <= i -> zget l i = None.
Proof.
  unfold zget, zlen. intros. destruct (i <? 0) eqn:E; [done|].
  apply lookup_ge_None. lia.
Qed.

Lemma zget_cons_0 {A} (x : A) l : zget (x :: l) 0 = Some x.
Proof. reflexivity. Qed.

Lemma zget_cons {A} (x : A) l i : 0 < i -> zget (x :: l) i = zget l (i - 1).
Proof.
  intros. unfold zget. destruct (i <? 0) eqn:?, (i - 1 <? 0) eqn:?; breflect; try lia.
  replace (Z.to_nat i) with (S (Z.to_nat (i - 1))) by lia. done.
Qed.

Lemma zget_app_l {A} (l k : list A) i : i < zlen l -> zget (l ++ k) i = zget l i.
Proof.
  unfold zget, zlen; intros. destruct (i <? 0) eqn:?; breflect; [done|].
  apply lookup_app_l. lia.
Qed.

Lemma zget_app_r {A} (l k : list A) i : zlen l <= i -> zget (l ++ k) i = zget k (i - zlen l).
Proof.
  unfold zget, zlen; intros. pose proof (Nat2Z.is_nonneg (length l)).
  destruct (i <? 0) eqn:?, (i - Z.of_nat (length l) <? 0) eqn:?; breflect; try lia.
  rewrite lookup_app_r by lia. f_equal. lia.
Qed.

Lemma zslice_full {A} (l : list A) : zslice 0 (zlen l) l = l.
Proof. unfold zslice, zlen. rewrite drop_0. apply take_ge. lia. Qed.

Lemma zslice_cons {A} (l : list A) a b x :
  0 <= a < b -> zget l a = Some x -> zslice a b l = x :: zslice (a + 1) b l.
Proof.
  unfold zslice, zget. intros Hab Hx. destruct (a <? 0) eqn:E; [done|].
  replace (Z.to_nat (b - a)) with (S (Z.to_nat (b - (a + 1)))) by lia.
  replace (Z.to_nat (a + 1)) with (S (Z.to_nat a)) by lia.
  rewrite (drop_S l x) by done. done.
Qed.

Lemma zslice_empty {A} (l : list A) a b : b <= a -> zslice a b l = [].
Proof. intros. unfold zslice. by replace (Z.to_nat (b - a)) with O by lia. Qed.

Lemma zslice_app {A} (l : list A) a b c :
  0 <= a <= b -> b <= c -> zslice a b l ++ zslice b c l = zslice a c l.
Proof.
  intros Hab Hbc. unfold zslice.
  replace (Z.to_nat (c - a)) with (Z.to_nat (b - a) + Z.to_nat (c - b))%nat by lia.
  replace (Z.to_nat b) with (Z.to_nat a + Z.to_nat (b - a))%nat by lia.
  rewrite <- drop_drop. by rewrite take_take_drop.
Qed.

Lemma zlen_zslice {A} (l : list A) a b : 0 <= a <= b -> b <= zlen l -> zlen (zslice a b l) = b - a.
Proof. unfold zlen, zslice. intros. rewrite length_take, length_drop. lia. Qed.

Lemma zget_lt {A} (l : list A) i : 0 <= i < zlen l -> exists x, zget l i = Some x.
Proof.
  unfold zlen, zget. intros. destruct (i <? 0) eqn:E; breflect; [lia|].
  apply lookup_lt_is_Some_2. lia.
Qed.

Lemma zget_elem {A} (l : list A) i x : zget l i = Some x -> x ∈ l.
Proof. unfold zget. destruct (i <? 0); [done|]. apply list_elem_of_lookup_2. Qed.

Lemma zslice_app_l {A} (l k : list A) : zslice 0 (zlen l) (l ++ k) = l.
Proof. unfold zslice, zlen. rewrite drop_0. apply take_app_length'. lia. Qed.

(** [Forall] in terms of membership. *)
Lemma Forall_elem {A} (P : A -> Prop) l : Forall P l <-> forall x, x ∈ l -> P x.
Proof. apply list.Forall_forall. Qed.

Lemma foldr_Forall {A} (P : A -> Prop) l : foldr (fun x Q => P x /\ Q) True l <-> Forall P l.
Proof. induction l as [|x l IH]; cbn; [by rewrite Forall_nil_iff | by rewrite IH, Forall_cons_iff]. Qed.

(** Induction by groups of two and of three. *)
Lemma list_ind2 {A} (P : list A -> Prop) :
  P [] -> (forall a, P [a]) -> (forall a b l, P l -> P (a :: b :: l)) -> forall l, P l.
Proof.
  intros H0 H1 H2. fix go 1. intros [|a [|b l]]; [done..|].
  apply H2, go.
Qed.

Lemma list_ind3 {A} (P : list A -> Prop) :
  P [] -> (forall a, P [a]) -> (forall a b, P [a; b]) ->
  (forall a b c l, P l -> P (a :: b :: c :: l)) -> forall l, P l.
Proof.
  intros H0 H1 H2 H3. fix go 1. intros [|a [|b [|c l]]]; [done..|].
  apply H3, go.
Qed.

Create HintDb js discriminated.
#[export] Hint Resolve zlen_nonneg zget_None zget_app_l zget_app_r : js.
Create Rewrite HintDb zlen.
#[export] Hint Rewrite @zlen_nil @zlen_cons @zlen_app @zlen_map : zlen.
