(* ===== verification/JsNum.v ===== *)
(** Strings and numbers of JavaScript as the client uses them: strings as
    sequences of UTF-16 code units, and the Number type as the doubles, with
    their rounding, [parseInt], [parseFloat] and [toString]. *)

From Stdlib Require Import ZArith Lia List String Ascii Bool.
From stdpp Require Import base list sets list_numbers tactics.
From S2P Require Import Prelude.

(** ** Strings *)

(** A string is the list of its code units. *)
Abbreviation jstr := (list Z).

(** The code units of an ASCII literal. *)
Definition u (s : string) : jstr :=
  map (fun a => Z.of_N (N_of_ascii a)) (list_ascii_of_string s).
Arguments u s%_string : simpl never.

(** [s1 === s2] on strings. *)
Definition streq (s1 s2 : jstr) : bool := bool_decide (s1 = s2).

Lemma streq_eq s1 s2 : streq s1 s2 = true <-> s1 = s2.
Proof. apply bool_decide_eq_true. Qed.

Lemma streq_neq s1 s2 : streq s1 s2 = false <-> s1 <> s2.
Proof. apply bool_decide_eq_false. Qed.

Lemma streq_refl s : streq s s = true.
Proof. by apply streq_eq. Qed.

(** Decide the comparisons of literals in the goal. *)
Ltac streq_simpl :=
  repeat match goal with
  | |- context [streq (u ?a) (u ?b)] =>
      let v := eval vm_compute in (streq (u a) (u b)) in change (streq (u a) (u b)) with v
  end; rewrite ?streq_refl.

(** [s.indexOf(c)] for a one-unit string [c], relative to the start of [s]. *)
Fixpoint index_of (c : Z) (s : jstr) : Z :=
  match s with
  | [] => -1
  | x :: s => if x =? c then 0 else
                let i := index_of c s in if i <? 0 then -1 else i + 1
  end.

(** [p] is a prefix of [s]. *)
Fixpoint starts_with (p s : jstr) : bool :=
  match p, s with
  | [], _ => true
  | a :: p, b :: s => (a =? b) && starts_with p s
  | _ :: _, [] => false
  end.

(** [s.includes(p)], i.e. [s.indexOf(p) !== -1]. *)
Fixpoint str_includes (p s : jstr) : bool :=
  starts_with p s || match s with [] => false | _ :: s => str_includes p s end.

(** [s.replace(p, r)] for a string pattern: the first occurrence only. *)
Fixpoint replace_first (p r s : jstr) : jstr :=
  if starts_with p s then r ++ drop (length p) s
  else match s with [] => [] | x :: s => x :: replace_first p r s end.

(** [s.split(c)] for a one-unit separator. *)
Fixpoint split_on (c : Z) (s : jstr) : list jstr :=
  match s with
  | [] => [[]]
  | x :: s =>
      if x =? c then [] :: split_on c s
      else match split_on c s with
           | [] => [[x]]
           | w :: ws => (x :: w) :: ws
           end
  end.

(** [l.join(sep)] on strings. *)
Fixpoint join (sep : jstr) (l : list jstr) : jstr :=
  match l with
  | [] => []
  | [w] => w
  | w :: l => w ++ sep ++ join sep l
  end.

Lemma join_nil l : join [] l = concat l.
Proof.
  induction l as [|w [|w' l] IH]; [done|by rewrite concat_cons, app_nil_r|].
  change (join [] (w :: w' :: l)) with (w ++ join [] (w' :: l)). by rewrite IH.
Qed.

(** [s.toUpperCase()] and [s.toLowerCase()] on ASCII letters. *)
Definition upper_char (c : Z) : Z := if (97 <=? c) && (c <=? 122) then c - 32 else c.
Definition lower_char (c : Z) : Z := if (65 <=? c) && (c <=? 90) then c + 32 else c.

Lemma split_on_not_nil c s : split_on c s <> [].
Proof. destruct s; simpl; repeat case_goal; done. Qed.

(** Splitting a word free of the separator followed by the separator. *)
Lemma split_on_word c w s :
  c ∉ w -> split_on c (w ++ c :: s) = w :: split_on c s.
Proof.
  induction w as [|x w IH]; intros Hc; simpl.
  - by rewrite Z.eqb_refl.
  - destruct (x =? c) eqn:E; breflect; [set_solver|].
    rewrite IH by set_solver. done.
Qed.

Lemma split_on_single c w : c ∉ w -> split_on c w = [w].
Proof.
  induction w as [|x w IH]; intros Hc; simpl; [done|].
  destruct (x =? c) eqn:E; breflect; [set_solver|].
  by rewrite IH by set_solver.
Qed.

(** [split] undoes [join] when no part holds the separator. *)
Lemma split_on_join c l :
  l <> [] -> Forall (fun w => c ∉ w) l -> split_on c (join [c] l) = l.
Proof.
  induction l as [|w l IH]; intros Hl Hw; [done|].
  inversion Hw as [|? ? Hc Hws]; subst.
  destruct l as [|w' l].
  - by apply split_on_single.
  - change (join [c] (w :: w' :: l)) with (w ++ c :: join [c] (w' :: l)).
    rewrite split_on_word by done. by rewrite IH.
Qed.

Lemma index_of_range c s : -1 <= index_of c s < zlen s \/ (index_of c s = -1 /\ s = []).
Proof.
  induction s as [|x s IH]; simpl; [by right|left].
  rewrite zlen_cons. pose proof (zlen_nonneg s).
  destruct (x =? c); [lia|]. cbv zeta. destruct (index_of c s <? 0) eqn:E; breflect; [lia|].
  destruct IH as [|[]]; lia.
Qed.

Lemma index_of_not_in c s : c ∉ s -> index_of c s = -1.
Proof.
  induction s as [|x s IH]; simpl; intros Hc; [done|].
  destruct (x =? c) eqn:E; breflect; [set_solver|]. by rewrite IH by set_solver.
Qed.

Lemma index_of_zget c s i :
  NoDup s -> zget s i = Some c -> index_of c s = i.
Proof.
  revert i; induction s as [|x s IH]; intros i Hnd Hi.
  - apply zget_Some in Hi. unfold zlen in Hi. simpl in Hi. lia.
  - inversion Hnd as [|? ? Hx Hnd']; subst. pose proof (zget_Some _ _ _ Hi). simpl.
    destruct (decide (i = 0)) as [->|].
    + rewrite zget_cons_0 in Hi. injection Hi as ->. by rewrite Z.eqb_refl.
    + rewrite zget_cons in Hi by lia.
      destruct (x =? c) eqn:E; breflect.
      * subst. exfalso. apply Hx. unfold zget in Hi.
        destruct (i - 1 <? 0); [done|]. by eapply list_elem_of_lookup_2.
      * rewrite (IH (i - 1)) by done. destruct (i - 1 <? 0) eqn:E2; breflect; lia.
Qed.

(** ** Numbers

    The doubles: an integral value is a sign and a magnitude (so that [-0] is
    [NFin true 0]); any other finite value is [NFrac neg m e], the fraction
    [m / 2 ^ e] in lowest terms; and the infinities and NaN.  [round_mag] is
    the rounding of an integral magnitude to the nearest double, ties to even;
    [None] is overflow to infinity. *)

Inductive num :=
| NFin (neg : bool) (mag : N)
| NFrac (neg : bool) (m e : N)
| NInf (neg : bool)
| NNaN.

#[export] Instance num_eq_dec : EqDecision num.
Proof. solve_decision. Defined.

Definition max_safe : Z := 2 ^ 53.

Definition round_mag (m : Z) : option Z :=
  if m <=? max_safe then Some m
  else
    let e := Z.log2 m - 52 in
    let q := m / 2 ^ e in
    let r := m mod 2 ^ e in
    let half := 2 ^ (e - 1) in
    let q := if r <? half then q
             else if half <? r then q + 1
             else if Z.even q then q else q + 1 in
    let m' := q * 2 ^ e in
    if m' <? 2 ^ 1024 then Some m' else None.

(** The double nearest to the sign and magnitude. *)
Definition num_make (neg : bool) (m : Z) : num :=
  match round_mag m with
  | Some m => NFin neg (Z.to_N m)
  | None => NInf neg
  end.

(** The double nearest to an integer. *)
Definition num_of_Z (z : Z) : num := num_make (z <? 0) (Z.abs z).

(** Cancel powers of two between [m] and [2 ^ e]. *)
Fixpoint cancel2 (e : nat) (m : Z) : Z * nat :=
  match e with
  | O => (m, O)
  | S e' => if Z.even m then cancel2 e' (m / 2) else (m, e)
  end.

(** The nearest double to a positive rational [p / q] that is not an integer,
    as [m * 2 ^ t]: 53 significant bits, fewer below [2 ^ -1022]. *)
Definition round_frac (p q : Z) : Z * Z :=
  let k := Z.log2 p - Z.log2 q in
  let k := if (if 0 <=? k then p <? q * 2 ^ k else p * 2 ^ (- k) <? q) then k - 1 else k in
  let t := Z.max (k - 52) (-1074) in
  let '(a, b) := if 0 <=? t then (p, q * 2 ^ t) else (p * 2 ^ (- t), q) in
  let m := a / b in
  let r := a mod b in
  let m := if 2 * r <? b then m else if b <? 2 * r then m + 1 else if Z.even m then m else m + 1 in
  (m, t).

(** The nearest double to a sign and a rational magnitude [p / q]. *)
Definition num_of_rat (neg : bool) (p q : Z) : num :=
  if p mod q =? 0 then num_make neg (p / q)
  else
    let '(m, t) := round_frac p q in
    if 0 <=? t then num_make neg (m * 2 ^ t)
    else
      let '(m, e) := cancel2 (Z.to_nat (- t)) m in
      match e with
      | O => num_make neg m
      | _ => if m =? 0 then NFin neg 0 else NFrac neg (Z.to_N m) (N.of_nat e)
      end.

(** The signed numerator and the denominator of a finite number. *)
Definition num_rat (n : num) : option (Z * Z) :=
  match n with
  | NFin neg m => Some (if neg then - Z.of_N m else Z.of_N m, 1)
  | NFrac neg m e => Some (if neg then - Z.of_N m else Z.of_N m, 2 ^ Z.of_N e)
  | _ => None
  end.

Definition num_to_Z (n : num) : option Z :=
  match n with
  | NFin neg m => Some (if neg then - Z.of_N m else Z.of_N m)
  | _ => None
  end.

(** The sum of two finite numbers, at least one of them not integral. *)
Definition rat_add (a b : Z * Z) : num :=
  let p := a.1 * b.2 + b.1 * a.2 in num_of_rat (p <? 0) (Z.abs p) (a.2 * b.2).

Definition num_mul (a b : num) : num :=
  match a, b with
  | NNaN, _ | _, NNaN => NNaN
  | NInf s, NInf t => NInf (xorb s t)
  | NInf s, NFin t m | NFin t m, NInf s => if (m =? 0)%N then NNaN else NInf (xorb s t)
  | NInf s, NFrac t _ _ | NFrac t _ _, NInf s => NInf (xorb s t)
  | NFin s m, NFin t k => num_make (xorb s t) (Z.of_N m * Z.of_N k)
  | NFin s m, NFrac t k e | NFrac t k e, NFin s m => num_of_rat (xorb s t) (Z.of_N m * Z.of_N k) (2 ^ Z.of_N e)
  | NFrac s m d, NFrac t k e => num_of_rat (xorb s t) (Z.of_N m * Z.of_N k) (2 ^ Z.of_N (d + e))
  end.

Definition num_add (a b : num) : num :=
  match a, b with
  | NNaN, _ | _, NNaN => NNaN
  | NInf s, NInf t => if Bool.eqb s t then NInf s else NNaN
  | NInf s, _ | _, NInf s => NInf s
  | NFin s m, NFin t k =>
      let z := (if s then - Z.of_N m else Z.of_N m) + (if t then - Z.of_N k else Z.of_N k) in
      if z =? 0 then NFin (s && t) 0 else num_of_Z z
  | _, _ => match num_rat a, num_rat b with Some x, Some y => rat_add x y | _, _ => NNaN end
  end.

Lemma round_mag_safe m : m <= max_safe -> round_mag m = Some m.
Proof. intros H. unfold round_mag. apply Z.leb_le in H. by rewrite H. Qed.

Lemma num_make_safe neg m : m <= max_safe -> num_make neg m = NFin neg (Z.to_N m).
Proof. intros H. unfold num_make. by rewrite round_mag_safe. Qed.

Lemma num_of_Z_safe z :
  Z.abs z <= max_safe -> num_of_Z z = NFin (z <? 0) (Z.to_N (Z.abs z)).
Proof. intros. unfold num_of_Z. by apply num_make_safe. Qed.

Lemma num_to_of_Z z : Z.abs z <= max_safe -> num_to_Z (num_of_Z z) = Some z.
Proof.
  intros H. rewrite num_of_Z_safe by done. simpl.
  destruct (z <? 0) eqn:E; breflect; f_equal; lia.
Qed.

Lemma num_make_not_nan neg m : num_make neg m <> NNaN.
Proof. unfold num_make. by destruct (round_mag m). Qed.

Lemma num_of_rat_not_nan neg p q : num_of_rat neg p q <> NNaN.
Proof.
  unfold num_of_rat. repeat case_goal; subst; try done; apply num_make_not_nan.
Qed.

(** On safe integers the arithmetic is that of the integers. *)
Lemma num_add_safe a b :
  Z.abs a <= max_safe -> Z.abs b <= max_safe ->
  num_add (num_of_Z a) (num_of_Z b) = num_of_Z (a + b).
Proof.
  intros Ha Hb. rewrite (num_of_Z_safe a), (num_of_Z_safe b) by done. simpl.
  assert (forall z, (if z <? 0 then - Z.of_N (Z.to_N (Z.abs z)) else Z.of_N (Z.to_N (Z.abs z))) = z)
    as Hz by (intros z; destruct (z <? 0) eqn:E; breflect; lia).
  rewrite !Hz. destruct (a + b =? 0) eqn:E; breflect; [|done].
  rewrite E. unfold num_of_Z. rewrite num_make_safe by (unfold max_safe; lia). simpl.
  f_equal. destruct (a <? 0) eqn:?, (b <? 0) eqn:?; breflect; simpl; lia.
Qed.

Lemma num_mul_safe a b :
  0 <= a <= max_safe -> 0 <= b <= max_safe ->
  num_mul (num_of_Z a) (num_of_Z b) = num_of_Z (a * b).
Proof.
  intros Ha Hb. rewrite (num_of_Z_safe a), (num_of_Z_safe b) by lia. simpl.
  replace (a <? 0) with false by (symmetry; apply Z.ltb_ge; lia).
  replace (b <? 0) with false by (symmetry; apply Z.ltb_ge; lia). simpl.
  unfold num_of_Z. replace (a * b <? 0) with false by (symmetry; apply Z.ltb_ge; nia).
  f_equal. rewrite !Z2N.id by lia. rewrite !Z.abs_eq by nia. done.
Qed.

(** ** Digits, [parseInt] and [toString] *)

Definition digit_char (d : Z) : Z := if d <? 10 then 48 + d else 87 + d.

(** The value of a digit in the largest radix, 36. *)
Definition digit_of (c : Z) : option Z :=
  if (48 <=? c) && (c <=? 57) then Some (c - 48)
  else if (97 <=? c) && (c <=? 122) then Some (c - 87)
  else if (65 <=? c) && (c <=? 90) then Some (c - 55)
  else None.

Definition is_digit_in (r c : Z) : bool :=
  match digit_of c with Some d => d <? r | None => false end.

Definition digit_val (c : Z) : Z := default 0 (digit_of c).

Definition digits_val (r : Z) (s : jstr) : Z :=
  fold_left (fun acc c => acc * r + digit_val c) s 0.

Fixpoint digits_fuel (fuel : nat) (r n : Z) : jstr :=
  match fuel with
  | O => []
  | S f => (if n <? r then [] else digits_fuel f r (n / r)) ++ [digit_char (n mod r)]
  end.

(** [n.toString(r)] for an integer [n >= 0]; the fuel is more than the number
    of binary digits of [n]. *)
Definition to_radix (r n : Z) : jstr := digits_fuel (S (Z.to_nat (Z.log2 n))) r n.

(** The longest prefix of digits of the radix. *)
Fixpoint digit_prefix (r : Z) (s : jstr) : jstr :=
  match s with
  | c :: s => if is_digit_in r c then c :: digit_prefix r s else []
  | [] => []
  end.

(** StrWhiteSpaceChar: the white space and line terminators that [parseInt]
    and [trim] skip. *)
Definition is_js_space (c : Z) : bool :=
  ((9 <=? c) && (c <=? 13)) || (c =? 32) || (c =? 160) || (c =? 5760)
  || ((8192 <=? c) && (c <=? 8202)) || (c =? 8232) || (c =? 8233) || (c =? 8239)
  || (c =? 8287) || (c =? 12288) || (c =? 65279).

Fixpoint trim_start (s : jstr) : jstr :=
  match s with
  | c :: s' => if is_js_space c then trim_start s' else s
  | [] => []
  end.

(** The leading sign of a text: whether it is a minus, and the rest. *)
Definition strip_sign (s : jstr) : bool * jstr :=
  match s with
  | c :: s' => if c =? 45 then (true, s') else if c =? 43 then (false, s') else (false, s)
  | [] => (false, s)
  end.

(** The [0x] or [0X] that [parseInt] skips in radix 16. *)
Definition strip_hex (r : Z) (s : jstr) : jstr :=
  match s with
  | c :: x :: s' => if (r =? 16) && (c =? 48) && ((x =? 120) || (x =? 88)) then s' else s
  | _ => s
  end.

(** The global [parseInt(s, r)] for [2 <= r <= 36]. *)
Definition parseInt (s : jstr) (r : Z) : num :=
  let '(neg, s) := strip_sign (trim_start s) in
  match digit_prefix r (strip_hex r s) with
  | [] => NNaN
  | ds => num_make neg (digits_val r ds)
  end.

Lemma digit_val_char d : 0 <= d < 36 -> digit_val (digit_char d) = d.
Proof.
  intros. unfold digit_val, digit_of, digit_char.
  destruct (d <? 10) eqn:E; breflect.
  - replace ((48 <=? 48 + d) && (48 + d <=? 57)) with true by (symmetry; apply andb_true_iff; lia).
    simpl. lia.
  - replace ((48 <=? 87 + d) && (87 + d <=? 57)) with false by (symmetry; apply andb_false_iff; lia).
    replace ((97 <=? 87 + d) && (87 + d <=? 122)) with true by (symmetry; apply andb_true_iff; lia).
    simpl. lia.
Qed.

Lemma is_digit_char r d : 0 <= d < r -> r <= 36 -> is_digit_in r (digit_char d) = true.
Proof.
  intros. unfold is_digit_in.
  assert (digit_of (digit_char d) = Some d) as ->; [|apply Z.ltb_lt; lia].
  pose proof (digit_val_char d ltac:(lia)) as Hv. unfold digit_val in Hv.
  destruct (digit_of (digit_char d)) eqn:E; simpl in Hv; [by subst|].
  exfalso. revert E. unfold digit_of, digit_char.
  repeat case_goal; breflect; intros; try done.
  all: rewrite ?andb_false_iff, ?Z.leb_gt in *; lia.
Qed.

Lemma digits_fuel_enough r n f g :
  2 <= r -> 0 <= n < 2 ^ Z.of_nat (S f) -> (f <= g)%nat ->
  digits_fuel (S f) r n = digits_fuel (S g) r n.
Proof.
  intros Hr. revert n g; induction f as [|f IH]; intros n g Hn Hg.
  - simpl in Hn. cbn [digits_fuel].
    replace (n <? r) with true by (symmetry; apply Z.ltb_lt; lia). done.
  - destruct g as [|g]; [lia|].
    cbn [digits_fuel]. destruct (n <? r) eqn:E; [done|]. f_equal; breflect.
    apply IH; [|lia]. split; [apply Z.div_pos; lia|].
    rewrite (Nat2Z.inj_succ (S f)), Z.pow_succ_r in Hn by lia.
    apply Z.div_lt_upper_bound; nia.
Qed.

Lemma log2_div_lt r n : 2 <= r -> r <= n -> Z.log2 (n / r) < Z.log2 n.
Proof.
  intros Hr Hn.
  assert (0 < n / r) by (apply Z.div_str_pos; lia).
  pose proof (Z.log2_spec (n / r) ltac:(lia)) as [Hl _].
  pose proof (Z.log2_spec n ltac:(lia)) as [_ Hu].
  pose proof (Z.mul_div_le n r ltac:(lia)).
  pose proof (Z.log2_nonneg n). pose proof (Z.log2_nonneg (n / r)).
  apply Z.succ_lt_mono. apply (Z.pow_lt_mono_r_iff 2); [lia..|].
  rewrite Z.pow_succ_r by lia. nia.
Qed.

Lemma to_radix_step r n :
  2 <= r -> 0 <= n ->
  to_radix r n = (if n <? r then [] else to_radix r (n / r)) ++ [digit_char (n mod r)].
Proof.
  intros Hr Hn. unfold to_radix at 1. cbn [digits_fuel].
  destruct (n <? r) eqn:E; [done|]; breflect. f_equal. unfold to_radix.
  assert (0 < n / r) by (apply Z.div_str_pos; lia).
  pose proof (log2_div_lt r n Hr E). pose proof (Z.log2_nonneg (n / r)).
  destruct (Z.to_nat (Z.log2 n)) as [|k] eqn:Hk; [lia|].
  symmetry. apply digits_fuel_enough; [done| |lia].
  pose proof (Z.log2_spec (n / r) ltac:(lia)).
  rewrite Nat2Z.inj_succ, Z2Nat.id by lia. lia.
Qed.

(** Induction on the number of digits. *)
Lemma radix_ind r (P : Z -> Prop) :
  2 <= r ->
  (forall n, 0 <= n < r -> P n) ->
  (forall n, r <= n -> P (n / r) -> P n) ->
  forall n, 0 <= n -> P n.
Proof.
  intros Hr Hs Hb. cut (forall n, 0 <= n -> 0 <= n -> P n); [intros H n Hn; exact (H n Hn Hn)|].
  apply (Z_lt_induction (fun n => 0 <= n -> P n)). intros n IH Hn.
  destruct (decide (n < r)); [apply Hs; lia|].
  apply Hb; [lia|]. assert (0 <= n / r) by (apply Z.div_pos; lia).
  apply IH; [|done]. split; [done|]. apply Z.div_lt; lia.
Qed.

Lemma to_radix_val r n : 2 <= r <= 36 -> 0 <= n -> digits_val r (to_radix r n) = n.
Proof.
  intros Hr. revert n. apply (radix_ind r); [lia|..]; intros n Hn.
  - rewrite to_radix_step by lia. replace (n <? r) with true by (symmetry; apply Z.ltb_lt; lia).
    unfold digits_val; simpl. rewrite digit_val_char; rewrite Z.mod_small; lia.
  - intros IH. rewrite to_radix_step by lia.
    replace (n <? r) with false by (symmetry; apply Z.ltb_ge; lia).
    unfold digits_val in *. rewrite fold_left_app, IH. simpl.
    pose proof (Z.mod_pos_bound n r ltac:(lia)).
    rewrite digit_val_char by lia. pose proof (Z.div_mod n r ltac:(lia)). lia.
Qed.

Lemma to_radix_digits r n :
  2 <= r <= 36 -> 0 <= n -> Forall (fun c => is_digit_in r c = true) (to_radix r n).
Proof.
  intros Hr. revert n. apply (radix_ind r); [lia|..]; intros n Hn.
  - rewrite to_radix_step by lia. replace (n <? r) with true by (symmetry; apply Z.ltb_lt; lia). simpl.
    repeat constructor. apply is_digit_char; rewrite ?Z.mod_small; lia.
  - intros IH. rewrite to_radix_step by lia.
    replace (n <? r) with false by (symmetry; apply Z.ltb_ge; lia).
    apply Forall_app; split; [done|]. repeat constructor.
    pose proof (Z.mod_pos_bound n r ltac:(lia)). apply is_digit_char; lia.
Qed.

(** The text of a number has no leading zero, except the text of 0. *)
Lemma to_radix_head r n :
  2 <= r <= 36 -> 0 < n -> exists d s, to_radix r n = digit_char d :: s /\ 0 < d < r.
Proof.
  intros Hr Hn. assert (0 <= n) as Hn0 by lia. revert n Hn0 Hn.
  apply (radix_ind r (fun n => 0 < n -> _)); [lia|..]; intros n Hb.
  - intros Hn. rewrite to_radix_step by lia.
    replace (n <? r) with true by (symmetry; apply Z.ltb_lt; lia).
    exists (n mod r), []. rewrite Z.mod_small by lia. split; [done|lia].
  - intros IH _. rewrite to_radix_step by lia.
    replace (n <? r) with false by (symmetry; apply Z.ltb_ge; lia).
    destruct IH as (d & s & -> & Hd); [apply Z.div_str_pos; lia|].
    by exists d, (s ++ [digit_char (n mod r)]).
Qed.

Lemma to_radix_0 r : 2 <= r -> to_radix r 0 = [48].
Proof.
  intros. rewrite to_radix_step by lia.
  replace (0 <? r) with true by (symmetry; apply Z.ltb_lt; lia).
  rewrite Z.mod_0_l by lia. done.
Qed.

Lemma digit_prefix_all r s : Forall (fun c => is_digit_in r c = true) s -> digit_prefix r s = s.
Proof. induction 1 as [|c s Hc _ IH]; simpl; [done|]. by rewrite Hc, IH. Qed.

(** A digit is neither white space nor a sign. *)
Lemma digit_plain r c : is_digit_in r c = true -> is_js_space c = false /\ c <> 45 /\ c <> 43.
Proof.
  unfold is_digit_in, digit_of, is_js_space. intros Hc.
  repeat case_hyp Hc; breflect; try done;
    rewrite ?orb_false_iff, ?andb_false_iff, ?Z.leb_gt, ?Z.eqb_neq; lia.
Qed.

Lemma strip_sign_digit r c s : is_digit_in r c = true -> strip_sign (c :: s) = (false, c :: s).
Proof.
  intros (_ & ? & ?)%digit_plain. simpl.
  by rewrite !(proj2 (Z.eqb_neq _ _)) by done.
Qed.

Lemma strip_hex_digits r s : Forall (fun c => is_digit_in r c = true) s -> strip_hex r s = s.
Proof.
  intros Hs. destruct s as [|c [|x s]]; try done. simpl.
  destruct (r =? 16) eqn:E; [|done]; breflect; subst.
  pose proof (Forall_inv (Forall_inv_tail Hs)) as Hx; simpl in Hx.
  destruct (x =? 120) eqn:E1; breflect; [subst; by vm_compute in Hx|].
  destruct (x =? 88) eqn:E2; breflect; [subst; by vm_compute in Hx|].
  by rewrite andb_false_r.
Qed.

(** [parseInt] of a text made of digits only. *)
Lemma parseInt_digits r s :
  s <> [] -> Forall (fun c => is_digit_in r c = true) s ->
  parseInt s r = num_make false (digits_val r s).
Proof.
  intros Hne Hs. destruct s as [|c s]; [done|].
  pose proof (Forall_inv Hs) as Hc. simpl in Hc.
  unfold parseInt. cbn [trim_start].
  rewrite (proj1 (digit_plain r c Hc)), (strip_sign_digit r), strip_hex_digits by done.
  by rewrite digit_prefix_all.
Qed.

Lemma to_radix_not_nil r n : to_radix r n <> [].
Proof. unfold to_radix. cbn [digits_fuel]. by intros [_ ?]%app_nil. Qed.

(** [parseInt] reads back what [toString] wrote. *)
Lemma parseInt_to_radix r n :
  2 <= r <= 36 -> 0 <= n <= max_safe -> parseInt (to_radix r n) r = num_of_Z n.
Proof.
  intros Hr Hn. rewrite parseInt_digits;
    [|apply to_radix_not_nil | apply to_radix_digits; lia].
  rewrite to_radix_val by lia. unfold num_of_Z.
  replace (n <? 0) with false by (symmetry; apply Z.ltb_ge; lia). by rewrite Z.abs_eq by lia.
Qed.

(** The shortest decimal of a magnitude above [max_safe] that rounds back to
    it, as Number::toString chooses it: the digits [s] and how many zeros
    follow; [k] digits are tried, from 1 up. *)
Fixpoint shortest_from (tries : nat) (k n m : Z) : Z * Z :=
  match tries with
  | O => (m, 0)
  | S t =>
      let p := 10 ^ (n - k) in
      let lo := m / p in
      let ok s := match round_mag (s * p) with Some m' => m' =? m | None => false end in
      match ok lo, ok (lo + 1) with
      | true, true => ((if m - lo * p <=? (lo + 1) * p - m then lo else lo + 1), n - k)
      | true, false => (lo, n - k)
      | false, true => (lo + 1, n - k)
      | false, false => shortest_from t (k + 1) n m
      end
  end.

Definition mag_to_string (m : Z) : jstr :=
  if m <=? max_safe then to_radix 10 m
  else
    let n := zlen (to_radix 10 m) in
    let '(s, zeros) := shortest_from (Z.to_nat (n - 1)) 1 n m in
    let n := zlen (to_radix 10 s) + zeros in
    let ds := to_radix 10 s in
    let ds := if s =? 10 ^ (zlen ds - 1) then [49] else ds in
    let zeros := n - zlen ds in
    if n <=? 21 then ds ++ repeat 48 (Z.to_nat zeros)
    else match ds with
         | [d] => d :: u "e+" ++ to_radix 10 (n - 1)
         | d :: ds => d :: u "." ++ ds ++ u "e+" ++ to_radix 10 (n - 1)
         | [] => []
         end.

(** The decimal exponent [n] of a fraction [p / q]: [10 ^ (n - 1) <= p / q <
    10 ^ n]. *)
Fixpoint small_exponent (fuel : nat) (p q n : Z) : Z :=
  match fuel with
  | O => n
  | S fuel => if q <=? p * 10 then n else small_exponent fuel (p * 10) q (n - 1)
  end.

Definition decimal_exponent (p q : Z) : Z :=
  if q <=? p then zlen (to_radix 10 (p / q)) else small_exponent 400 p q 0.

(** [s * 10 ^ x], rounded. *)
Definition num_of_decimal (neg : bool) (s x : Z) : num :=
  if 0 <=? x then num_make neg (s * 10 ^ x) else num_of_rat neg s (10 ^ (- x)).

(** The shortest digits [s] (of [k] digits) that round to [p / q]; there are
    some at the latest when [s] is exact. *)
Fixpoint shortest_frac (tries : nat) (k n p q : Z) (v : num) : Z * Z :=
  let x := n - k in
  let '(a, b) := if 0 <=? x then (p, q * 10 ^ x) else (p * 10 ^ (- x), q) in
  let lo := a / b in
  match tries with
  | O => (lo, k)
  | S t =>
      match bool_decide (num_of_decimal false lo x = v), bool_decide (num_of_decimal false (lo + 1) x = v) with
      | true, true => ((if 2 * (a - lo * b) <=? b then lo else lo + 1), k)
      | true, false => (lo, k)
      | false, true => (lo + 1, k)
      | false, false => shortest_frac t (k + 1) n p q v
      end
  end.

(** Number::toString of the fraction [m / 2 ^ e]. *)
Definition frac_to_string (m e : N) : jstr :=
  let p := Z.of_N m in
  let q := 2 ^ Z.of_N e in
  let n := decimal_exponent p q in
  let '(s, k) := shortest_frac (Z.to_nat (Z.of_N e + Z.max 0 n)) 1 n p q (NFrac false m e) in
  let '(s, k, n) := if s =? 10 ^ k then (1, 1, n + 1) else (s, k, n) in
  let ds := to_radix 10 s in
  if (k <=? n) && (n <=? 21) then ds ++ repeat 48 (Z.to_nat (n - k))
  else if (0 <? n) && (n <=? 21) then take (Z.to_nat n) ds ++ u "." ++ drop (Z.to_nat n) ds
  else if (-6 <? n) && (n <=? 0) then u "0." ++ repeat 48 (Z.to_nat (- n)) ++ ds
  else
    let exponent := (if n - 1 <? 0 then u "e-" else u "e+") ++ to_radix 10 (Z.abs (n - 1)) in
    match ds with
    | [d] => d :: exponent
    | d :: ds => d :: u "." ++ ds ++ exponent
    | [] => []
    end.

(** [String(n)] and [n.toString(r)] for the radixes the code uses; a fraction
    is written in radix 10 only. *)
Definition num_to_radix (r : Z) (n : num) : jstr :=
  match n with
  | NNaN => u "NaN"
  | NInf neg => (if neg : bool then u "-" else []) ++ u "Infinity"
  | NFin neg m =>
      (if neg && negb (m =? 0)%N then u "-" else [])
      ++ (if r =? 10 then mag_to_string (Z.of_N m) else to_radix r (Z.of_N m))
  | NFrac neg m e => (if neg : bool then u "-" else []) ++ frac_to_string m e
  end.

Definition num_to_string : num -> jstr := num_to_radix 10.

(** ** [parseFloat] *)

(** The longest prefix of decimal digits, and the rest. *)
Definition take_digits (s : jstr) : jstr * jstr :=
  let ds := digit_prefix 10 s in (ds, drop (length ds) s).

(** The digits end at the first other character. *)
Lemma take_digits_app ds r :
  Forall (fun c => is_digit_in 10 c = true) ds ->
  match r with [] => True | c :: _ => is_digit_in 10 c = false end ->
  take_digits (ds ++ r) = (ds, r).
Proof.
  intros Hds Hr. assert (E : digit_prefix 10 (ds ++ r) = ds).
  { induction Hds as [|c ds Hc _ IH]; cbn [app digit_prefix]; [|by rewrite Hc, IH].
    destruct r; cbn [digit_prefix]; [done | by rewrite Hr]. }
  unfold take_digits. rewrite E. by rewrite drop_app_length.
Qed.

(** An exponent part: its value, 0 when there is none. *)
Definition exponent_part (s : jstr) : Z :=
  match s with
  | c :: s =>
      if (c =? 101) || (c =? 69) then
        let '(neg, s) := strip_sign s in
        let v := digits_val 10 (digit_prefix 10 s) in if neg : bool then - v else v
      else 0
  | [] => 0
  end.

(** The global [parseFloat]. *)
Definition parseFloat (s : jstr) : num :=
  let '(neg, s) := strip_sign (trim_start s) in
  if starts_with (u "Infinity") s then NInf neg
  else
    let '(int, s) := take_digits s in
    let '(frac, s) := match s with
                      | c :: s' => if c =? 46 then take_digits s' else ([], s)
                      | [] => ([], s)
                      end in
    match int ++ frac with
    | [] => NNaN
    | ds => num_of_decimal neg (digits_val 10 ds) (exponent_part s - zlen frac)
    end.

Example float_examples :
  map (fun s => num_to_string (parseFloat s))
      [u "0.1"; u "-1.50e3x"; u "1e21"; u "123456789.125"; u ".5.5"; u "4.35"; u "x";
       u "0.000001"; u "1.5e-7"; u "9007199254740993"; u "1e23"; u "1e-7"; u "123e18"]
  = [u "0.1"; u "-1500"; u "1e+21"; u "123456789.125"; u "0.5"; u "4.35"; u "NaN";
     u "0.000001"; u "1.5e-7"; u "9007199254740992"; u "1e+23"; u "1e-7"; u "123000000000000000000"].
Proof. vm_compute. reflexivity. Qed.
