(* ===== verification/Js.v ===== *)
(** The JavaScript values as the client uses them: objects with their property
    order, property access, the final state of promises, and the equality of
    values as data. *)

From Stdlib Require Import ZArith Lia List String Ascii Bool.
From stdpp Require Import base list sets list_numbers tactics.
From S2P Require Import Prelude JsNum.

(** ** Values and objects *)

(** A value.  An object lists its own enumerable properties in the order in
    which [for ... in] and [Object.keys] visit them. *)
Inductive value :=
| VUndef
| VNull
| VBool (b : bool)
| VNum (n : num)
| VStr (s : jstr)
| VArr (l : list value)
| VObj (o : list (jstr * value))
| VDate (t : option Z)                 (* a Date: its time value in milliseconds, None when invalid *)
| VBuf (l : list Z)                    (* a Uint8Array or Buffer *)
| VRegExp (source flags : jstr).

Abbreviation object := (list (jstr * value)).

(** Induction with the hypotheses for the elements of arrays and objects. *)
Section value_ind'.
  Context (P : value -> Prop).
  Context (HUndef : P VUndef) (HNull : P VNull) (HBool : forall b, P (VBool b)).
  Context (HNum : forall n, P (VNum n)) (HStr : forall s, P (VStr s)).
  Context (HArr : forall l, Forall P l -> P (VArr l)).
  Context (HObj : forall o, Forall (fun kv => P kv.2) o -> P (VObj o)).
  Context (HDate : forall t, P (VDate t)) (HBuf : forall l, P (VBuf l)) (HRegExp : forall s f, P (VRegExp s f)).

Fixpoint value_ind' (v : value) : P v :=
  match v with
  | VUndef => HUndef
  | VNull => HNull
  | VBool b => HBool b
  | VNum n => HNum n
  | VStr s => HStr s
  | VArr l =>
      HArr l ((fix go l : Forall P l :=
                 match l with
                 | [] => Forall_nil_2 _
                 | x :: l => Forall_cons_2 _ _ _ (value_ind' x) (go l)
                 end) l)
  | VObj o =>
      HObj o ((fix go o : Forall (fun kv => P kv.2) o :=
                 match o with
                 | [] => Forall_nil_2 _
                 | kv :: o => Forall_cons_2 _ _ _ (value_ind' kv.2) (go o)
                 end) o)
  | VDate t => HDate t
  | VBuf l => HBuf l
  | VRegExp s f => HRegExp s f
  end.
End value_ind'.

#[export] Instance value_eq_dec : EqDecision value.
Proof.
  refine (fix go (x y : value) {struct x} : Decision (x = y) :=
    let _ : EqDecision value := @go in
    match x, y with
    | VUndef, VUndef | VNull, VNull => left _
    | VBool a, VBool b => cast_if (decide (a = b))
    | VNum a, VNum b => cast_if (decide (a = b))
    | VStr a, VStr b => cast_if (decide (a = b))
    | VArr a, VArr b => cast_if (decide (a = b))
    | VObj a, VObj b => cast_if (decide (a = b))
    | VDate a, VDate b => cast_if (decide (a = b))
    | VBuf a, VBuf b => cast_if (decide (a = b))
    | VRegExp a f, VRegExp b g => cast_if_and (decide (a = b)) (decide (f = g))
    | _, _ => right _
    end); abstract congruence.
Defined.

(** [typeof v]. *)
Definition typeof (v : value) : jstr :=
  match v with
  | VUndef => u "undefined"
  | VNull | VArr _ | VObj _ | VDate _ | VBuf _ | VRegExp _ _ => u "object"
  | VBool _ => u "boolean"
  | VNum _ => u "number"
  | VStr _ => u "string"
  end.

(** ToBoolean. *)
Definition truthy (v : value) : bool :=
  match v with
  | VUndef | VNull => false
  | VBool b => b
  | VNum (NFin _ m) => negb (m =? 0)%N
  | VNum (NInf _) | VNum (NFrac _ _ _) => true
  | VNum NNaN => false
  | VStr s => match s with [] => false | _ => true end
  | VArr _ | VObj _ | VDate _ | VBuf _ | VRegExp _ _ => true
  end.

(** ToString, as [String(v)], [+] with a string and templates apply it.  The
    text of a date depends on the locale, and that of a Buffer on its bytes
    being UTF-8: neither is followed. *)
Fixpoint to_string (v : value) : res jstr :=
  match v with
  | VUndef => Ok (u "undefined")
  | VNull => Ok (u "null")
  | VBool b => Ok (if b then u "true" else u "false")
  | VNum n => Ok (num_to_string n)
  | VStr s => Ok s
  | VArr l => l <-? res_map (fun x => match x with VUndef | VNull => Ok [] | _ => to_string x end) l;
              Ok (join [44] l)
  | VObj _ => Ok (u "[object Object]")
  | VRegExp s f => Ok ([47] ++ s ++ [47] ++ f)
  | VDate _ | VBuf _ => Err Unsupported
  end.

(** An array index: the canonical decimal of an integer below [2^32 - 1]. *)
Definition index_key (k : jstr) : option Z :=
  match k with
  | [] => None
  | c :: _ =>
      if forallb (is_digit_in 10) k && ((zlen k =? 1) || negb (c =? 48))
         && (digits_val 10 k <? 4294967295)
      then Some (digits_val 10 k) else None
  end.

(** Read a property: [o[k]], [VUndef] when it is absent. *)
Fixpoint obj_lookup {A} (k : jstr) (o : list (jstr * A)) : option A :=
  match o with
  | [] => None
  | (k', v) :: o => if streq k k' then Some v else obj_lookup k o
  end.

Definition obj_get (k : jstr) (o : object) : value := default VUndef (obj_lookup k o).

Definition obj_has {A} (k : jstr) (o : list (jstr * A)) : bool :=
  match obj_lookup k o with Some _ => true | None => false end.

Definition obj_keys {A} (o : list (jstr * A)) : list jstr := map fst o.

(** A new property is visited after the others, except that array indices
    come first, in ascending order. *)
Fixpoint obj_add {A} (k : jstr) (v : A) (o : list (jstr * A)) : list (jstr * A) :=
  match o with
  | [] => [(k, v)]
  | (k', v') :: o' =>
      match index_key k, index_key k' with
      | Some i, Some j => if i <? j then (k, v) :: o else (k', v') :: obj_add k v o'
      | Some _, None => (k, v) :: o
      | None, _ => (k', v') :: obj_add k v o'
      end
  end.

(** Write a property: [o[k] = v]. *)
Fixpoint obj_update {A} (k : jstr) (v : A) (o : list (jstr * A)) : list (jstr * A) :=
  match o with
  | [] => []
  | (k', v') :: o => if streq k k' then (k', v) :: o else (k', v') :: obj_update k v o
  end.

Definition obj_set {A} (k : jstr) (v : A) (o : list (jstr * A)) : list (jstr * A) :=
  if obj_has k o then obj_update k v o else obj_add k v o.

(** [delete o[k]]. *)
Definition obj_delete {A} (k : jstr) (o : list (jstr * A)) : list (jstr * A) :=
  List.filter (fun kv => negb (streq k kv.1)) o.

(** [Object.assign(o, src)]. *)
Definition obj_assign {A} (o src : list (jstr * A)) : list (jstr * A) :=
  fold_left (fun o kv => obj_set kv.1 kv.2 o) src o.

Lemma obj_lookup_update {A} k k' (v : A) o :
  obj_lookup k' (obj_update k v o)
  = if streq k' k then (if obj_has k o then Some v else None) else obj_lookup k' o.
Proof.
  unfold obj_has. induction o as [|[k1 v1] o IH]; simpl.
  - by destruct (streq k' k).
  - destruct (streq k k1) eqn:E; simpl.
    + apply streq_eq in E as ->. by destruct (streq k' k1).
    + rewrite IH. destruct (streq k' k) eqn:E'; [|done].
      apply streq_eq in E' as ->. by rewrite E.
Qed.

Lemma obj_lookup_add {A} k k' (v : A) o :
  obj_lookup k o = None ->
  obj_lookup k' (obj_add k v o) = if streq k' k then Some v else obj_lookup k' o.
Proof.
  induction o as [|[k1 v1] o IH]; simpl; [done|].
  destruct (streq k k1) eqn:E; [done|]. intros Hk. specialize (IH Hk).
  assert (obj_lookup k' ((k1, v1) :: obj_add k v o)
          = if streq k' k then Some v else if streq k' k1 then Some v1 else obj_lookup k' o) as Hr.
  { simpl. rewrite IH. destruct (streq k' k1) eqn:E1, (streq k' k) eqn:E2; try done.
    apply streq_eq in E1, E2. apply streq_neq in E. congruence. }
  destruct (index_key k), (index_key k1); try exact Hr.
  - destruct (z <? z0); [done|exact Hr].
  - done.
Qed.

Lemma obj_lookup_set {A} k k' (v : A) o :
  obj_lookup k' (obj_set k v o) = if streq k' k then Some v else obj_lookup k' o.
Proof.
  unfold obj_set. destruct (obj_has k o) eqn:E.
  - rewrite obj_lookup_update, E. done.
  - apply obj_lookup_add. unfold obj_has in E. by destruct (obj_lookup k o).
Qed.

Lemma obj_lookup_set_eq {A} k (v : A) o : obj_lookup k (obj_set k v o) = Some v.
Proof. by rewrite obj_lookup_set, streq_refl. Qed.

Lemma obj_lookup_set_ne {A} k k' (v : A) o :
  k' <> k -> obj_lookup k' (obj_set k v o) = obj_lookup k' o.
Proof. intros H. rewrite obj_lookup_set. apply streq_neq in H. by rewrite H. Qed.

Lemma obj_get_set k k' v o :
  obj_get k' (obj_set k v o) = if streq k' k then v else obj_get k' o.
Proof. unfold obj_get. rewrite obj_lookup_set. by destruct (streq k' k). Qed.

Lemma obj_lookup_delete {A} k k' (o : list (jstr * A)) :
  obj_lookup k' (obj_delete k o) = if streq k' k then None else obj_lookup k' o.
Proof.
  unfold obj_delete. induction o as [|[k1 v1] o IH]; simpl; [by destruct (streq k' k)|].
  destruct (streq k k1) eqn:E; simpl; rewrite IH.
  - apply streq_eq in E as ->. by destruct (streq k' k1).
  - destruct (streq k' k1) eqn:E1, (streq k' k) eqn:E2; try done.
    apply streq_eq in E1, E2. apply streq_neq in E. congruence.
Qed.

Lemma obj_lookup_In {A} k (v : A) o : obj_lookup k o = Some v -> (k, v) ∈ o.
Proof.
  induction o as [|[k1 v1] o IH]; simpl; [done|].
  destruct (streq k k1) eqn:E; [|set_solver].
  apply streq_eq in E as ->. intros [= ->]. set_solver.
Qed.

Lemma obj_lookup_NoDup {A} k (v : A) o :
  NoDup (obj_keys o) -> (k, v) ∈ o -> obj_lookup k o = Some v.
Proof.
  induction o as [|[k1 v1] o IH]; simpl; intros Hnd Hin; [set_solver|].
  inversion Hnd as [|? ? Hk Hnd']; subst.
  apply elem_of_cons in Hin as [[= -> ->]|Hin]; [by rewrite streq_refl|].
  destruct (streq k k1) eqn:E; [|by apply IH].
  apply streq_eq in E as ->. exfalso. apply Hk.
  unfold obj_keys. apply list_elem_of_fmap. by exists (k1, v).
Qed.

Lemma obj_has_keys {A} k (o : list (jstr * A)) : obj_has k o = true <-> k ∈ obj_keys o.
Proof.
  unfold obj_has, obj_keys. induction o as [|[k1 v1] o IH]; simpl; [set_solver|].
  destruct (streq k k1) eqn:E.
  - apply streq_eq in E as ->. set_solver.
  - apply streq_neq in E. rewrite IH. set_solver.
Qed.

Lemma obj_lookup_None {A} k (o : list (jstr * A)) : obj_lookup k o = None <-> k ∉ obj_keys o.
Proof. rewrite <- obj_has_keys. unfold obj_has. by destruct (obj_lookup k o). Qed.

Create Rewrite HintDb obj.
(** A new property that is no array index comes last. *)
Lemma obj_keys_set {A} k k' (v : A) o : k' ∈ obj_keys (obj_set k v o) -> k' = k \/ k' ∈ obj_keys o.
Proof.
  unfold obj_set. destruct (obj_has k o); [intros H; right | intros H].
  - induction o as [|[k1 v1] o IH]; [done|]. cbn [obj_update] in H. unfold obj_keys in *. cbn [map fst] in *.
    destruct (streq k k1); cbn [map fst] in H; [exact H|]. apply elem_of_cons in H as [-> | H]; [by left | right; auto].
  - induction o as [|[k1 v1] o IH]; cbn [obj_add] in H; unfold obj_keys in *; cbn [map fst] in *; [set_solver|].
    destruct (index_key k), (index_key k1); repeat case_hyp H; cbn [map fst] in H; set_solver.
Qed.

Lemma obj_set_new {A} k (v : A) o : index_key k = None -> k ∉ obj_keys o -> obj_set k v o = o ++ [(k, v)].
Proof.
  intros Hk Hn. unfold obj_set, obj_has. replace (obj_lookup k o) with (@None A).
  - clear Hn. induction o as [|[k' v'] o IH]; cbn [obj_add app]; [done|]. by rewrite Hk, IH.
  - symmetry. by apply obj_lookup_None.
Qed.

(** An object whose properties are in the order in which it would be built:
    that in which they are visited. *)
Definition insertion_order (o : object) : Prop :=
  fold_left (fun acc kv => obj_set kv.1 kv.2 acc) o [] = o.

Lemma obj_update_map {A} k (v : A) o : obj_keys (obj_update k v o) = obj_keys o.
Proof. induction o as [|[k' v'] o IH]; cbn; [done|]. case_goal; cbn; [done | by f_equal]. Qed.

Lemma obj_add_NoDup {A} k (v : A) o : k ∉ obj_keys o -> NoDup (obj_keys o) -> NoDup (obj_keys (obj_add k v o)).
Proof.
  intros Hk Hnd. assert (Hin : forall o k', k' ∈ obj_keys (obj_add k v o) -> k' = k \/ k' ∈ obj_keys o).
  { clear. intros o. induction o as [|[k1 v1] o IH]; intros k' H; cbn [obj_add] in H; unfold obj_keys in *; cbn [map fst] in *; [set_solver|].
    destruct (index_key k), (index_key k1); repeat case_hyp H; cbn [map fst] in H; set_solver. }
  induction o as [|[k1 v1] o IH]; cbn [obj_add]; [by repeat constructor; apply not_elem_of_nil|].
  unfold obj_keys in *. cbn [map fst] in *. apply list.NoDup_cons in Hnd as [H1 Hnd].
  assert (Hrest : NoDup (map fst ((k1, v1) :: obj_add k v o))).
  { cbn [map fst]. apply list.NoDup_cons. split; [|apply IH; [set_solver | done]]. intros H. apply Hin in H as [-> | H]; [set_solver | done]. }
  assert (Hfirst : NoDup (map fst ((k, v) :: (k1, v1) :: o))) by (cbn [map fst]; repeat (apply list.NoDup_cons; split; [set_solver|]); done).
  destruct (index_key k), (index_key k1); repeat case_goal; assumption.
Qed.

Lemma obj_set_NoDup {A} k (v : A) o : NoDup (obj_keys o) -> NoDup (obj_keys (obj_set k v o)).
Proof.
  intros H. unfold obj_set. destruct (obj_has k o) eqn:E; [by rewrite obj_update_map|]. apply obj_add_NoDup; [|done].
  intros Hin. apply obj_has_keys in Hin. congruence.
Qed.

Lemma insertion_order_NoDup o : insertion_order o -> NoDup (obj_keys o).
Proof.
  unfold insertion_order. intros <-. assert (H : NoDup (obj_keys (@nil (jstr * value)))) by constructor. revert H.
  generalize (@nil (jstr * value)) as acc. generalize o as src. clear o.
  induction src as [|[k v] o IH]; intros acc H; [done|]. cbn [fold_left fst snd]. apply IH. unfold obj_set.
  destruct (obj_has k acc) eqn:E; [by rewrite obj_update_map|]. apply obj_add_NoDup; [|done].
  intros Hk. by rewrite (proj2 (obj_has_keys k acc) Hk) in E.
Qed.

Lemma insertion_order_plain o :
  NoDup (obj_keys o) -> Forall (fun kv => index_key kv.1 = None) o -> insertion_order o.
Proof.
  unfold insertion_order. intros Hnd Hi.
  assert (H : forall acc, NoDup (obj_keys acc ++ obj_keys o) ->
            fold_left (fun acc kv => obj_set kv.1 kv.2 acc) o acc = acc ++ o).
  { clear Hnd. induction Hi as [|[k v] o Hk _ IH]; intros acc Hnd; cbn; [by rewrite app_nil_r|].
    cbn in Hk, Hnd. rewrite obj_set_new; [|done|].
    - rewrite IH; [by rewrite <- app_assoc|]. unfold obj_keys in *. by rewrite map_app, <- app_assoc.
    - apply list.NoDup_app in Hnd as (_ & Hd & _). intros Hin. apply (Hd _ Hin). by left. }
  by apply (H []).
Qed.

#[export] Hint Rewrite @obj_lookup_set_eq @obj_lookup_delete : obj.

(** ** Property access on any value *)

(** [v[k]]; reading a property of [undefined] or [null] throws. *)
Definition get_prop (v : value) (k : jstr) : res value :=
  match v with
  | VUndef | VNull => Err TypeError
  | VObj o => Ok (obj_get k o)
  | VArr l =>
      if streq k (u "length") then Ok (VNum (num_of_Z (zlen l)))
      else Ok (match index_key k with Some i => default VUndef (zget l i) | None => VUndef end)
  | VStr s =>
      if streq k (u "length") then Ok (VNum (num_of_Z (zlen s)))
      else Ok (match index_key k with
               | Some i => match zget s i with Some c => VStr [c] | None => VUndef end
               | None => VUndef
               end)
  | VBuf l =>
      if streq k (u "length") then Ok (VNum (num_of_Z (zlen l)))
      else Ok (match index_key k with
               | Some i => match zget l i with Some b => VNum (num_of_Z b) | None => VUndef end
               | None => VUndef
               end)
  | VBool _ | VNum _ | VDate _ | VRegExp _ _ => Ok VUndef
  end.

(** [v[k] = w] in strict code: a primitive throws.  Adding a property to an
    array, a date, a buffer or a regular expression is not followed. *)
Definition set_prop (v : value) (k : jstr) (w : value) : res value :=
  match v with
  | VObj o => Ok (VObj (obj_set k w o))
  | VArr l =>
      match index_key k with
      | Some i => if i <? zlen l then Ok (VArr (<[Z.to_nat i := w]> l)) else Err Unsupported
      | None => Err Unsupported
      end
  | VDate _ | VBuf _ | VRegExp _ _ => Err Unsupported
  | _ => Err TypeError
  end.

(** The elements of a list under their indices. *)
Fixpoint indexed {A} (i : Z) (l : list A) : list (jstr * A) :=
  match l with
  | [] => []
  | x :: l => (to_radix 10 i, x) :: indexed (i + 1) l
  end.

(** The own enumerable properties that [for ... in] and [Object.assign] see. *)
Definition own_props (v : value) : object :=
  match v with
  | VObj o => o
  | VArr l => indexed 0 l
  | VStr s => indexed 0 (map (fun c => VStr [c]) s)
  | VBuf l => indexed 0 (map (fun b => VNum (num_of_Z b)) l)
  | _ => []
  end.

(** What [for ... of] visits. *)
Definition iterate (v : value) : res (list value) :=
  match v with
  | VArr l => Ok l
  | VStr s => Ok (map (fun c => VStr [c]) s)
  | VBuf l => Ok (map (fun b => VNum (num_of_Z b)) l)
  | _ => Err TypeError
  end.

(** ** Promises, as far as their final state goes *)

Inductive promise (A : Type) :=
| Fulfilled (a : A)
| RejectedWith (e : error)
| Pending.                           (* never settled *)
Arguments Fulfilled {A} _.
Arguments RejectedWith {A} _.
Arguments Pending {A}.

(** [p.then(f)] chained with the rejection passed on. *)
Definition promise_bind {A B} (p : promise A) (f : A -> promise B) : promise B :=
  match p with
  | Fulfilled a => f a
  | RejectedWith e => RejectedWith e
  | Pending => Pending
  end.

(** [Promise.all]: rejected as soon as one element is, whatever the others. *)
Fixpoint promise_all {A} (l : list (promise A)) : promise (list A) :=
  match l with
  | [] => Fulfilled []
  | p :: l =>
      match p, promise_all l with
      | RejectedWith e, _ => RejectedWith e
      | _, RejectedWith e => RejectedWith e
      | Pending, _ | _, Pending => Pending
      | Fulfilled a, Fulfilled l => Fulfilled (a :: l)
      end
  end.

(** A promise settled by synchronous code. *)
Definition promise_of {A} (m : res A) : promise A :=
  match m with Ok a => Fulfilled a | Err e => RejectedWith e end.

Lemma promise_bind_fulfilled {A B} (p : promise A) (f : A -> promise B) b :
  promise_bind p f = Fulfilled b <-> exists a, p = Fulfilled a /\ f a = Fulfilled b.
Proof. destruct p; simpl; naive_solver. Qed.

Lemma promise_all_fulfilled {A} (ps : list (promise A)) l :
  promise_all ps = Fulfilled l <-> Forall2 (fun p x => p = Fulfilled x) ps l.
Proof.
  revert l; induction ps as [|p ps IH]; intros l; simpl.
  - split; [intros [= <-]; constructor | intros H; by inversion H].
  - split.
    + destruct p as [x| |]; destruct (promise_all ps) as [xs| |]; try done.
      intros [= <-]. constructor; [done|]. by apply IH.
    + intros H. inversion H as [|? x ? xs -> Hxs]; subst. apply IH in Hxs. by rewrite Hxs.
Qed.

(** ** Values as data

    Two values are the same data when they differ in the order of the
    properties of objects only, an absent property counting as [undefined]. *)

Inductive veq : value -> value -> Prop :=
| veq_Undef : veq VUndef VUndef
| veq_Null : veq VNull VNull
| veq_Bool b : veq (VBool b) (VBool b)
| veq_Num n : veq (VNum n) (VNum n)
| veq_Str s : veq (VStr s) (VStr s)
| veq_Arr l l' : Forall2 veq l l' -> veq (VArr l) (VArr l')
| veq_Date t : veq (VDate t) (VDate t)
| veq_Buf l : veq (VBuf l) (VBuf l)
| veq_RegExp s f : veq (VRegExp s f) (VRegExp s f)
| veq_Obj o o' : (forall k, veq (obj_get k o) (obj_get k o')) -> veq (VObj o) (VObj o').

Infix "≈" := veq (at level 70) : res_scope.

(** A property of an object satisfies what [undefined] and its values do. *)
Lemma obj_get_ind (P : value -> Prop) o k :
  P VUndef -> Forall (fun kv => P kv.2) o -> P (obj_get k o).
Proof.
  intros Hu Ho. unfold obj_get. destruct (obj_lookup k o) as [v|] eqn:E; simpl; [|done].
  apply obj_lookup_In in E. rewrite Forall_elem in Ho. by apply (Ho (k, v)).
Qed.

Lemma Forall_Forall2_diag' {A} (R : A -> A -> Prop) l :
  Forall (fun x => R x x) l -> Forall2 R l l.
Proof. induction 1; constructor; done. Qed.

#[export] Instance veq_refl : Reflexive veq.
Proof.
  intros v. induction v as [| | | | |l IH|o IH| | |] using value_ind'; constructor.
  - by apply Forall_Forall2_diag'.
  - intros k. by apply (obj_get_ind (fun v => v ≈ v)); [constructor|].
Qed.

#[export] Instance veq_sym : Symmetric veq.
Proof.
  intros v. induction v as [| | | | |l IH|o IH| | |] using value_ind'; intros w H;
    inversion H as [| | | | |? l' Hl| | | |? o' Ho]; subst; constructor.
  - clear H. induction Hl as [|x y l l' Hxy _ IHl]; [constructor|].
    inversion IH; subst. constructor; auto.
  - intros k. specialize (Ho k). revert Ho.
    apply (obj_get_ind (fun v => v ≈ obj_get k o' -> obj_get k o' ≈ v)).
    + intros Hu. inversion Hu as [He| | | | | | | | |]; by constructor.
    + eapply Forall_impl; [|exact IH]. simpl. auto.
Qed.

#[export] Instance veq_trans : Transitive veq.
Proof.
  intros x y. revert x. induction y as [| | | | |l IH|o IH| | |] using value_ind'; intros x z Hx Hz;
    inversion Hx as [| | | | |l1 ? Hl1| | | |o1 ? Ho1]; subst;
    inversion Hz as [| | | | |? l2 Hl2| | | |? o2 Ho2]; subst; constructor.
  - clear Hx Hz. revert l1 l2 Hl1 Hl2.
    induction IH as [|y l Hy _ IHl]; intros l1 l2 H1 H2; inversion H1; subst;
      inversion H2; subst; constructor; eauto.
  - intros k. specialize (Ho1 k). specialize (Ho2 k). revert Ho1 Ho2.
    apply (obj_get_ind (fun v => obj_get k o1 ≈ v -> v ≈ obj_get k o2 -> obj_get k o1 ≈ obj_get k o2)).
    + intros H1 H2. inversion H2 as [He| | | | | | | | |]; by rewrite <- ?He in *.
    + eapply Forall_impl; [|exact IH]. simpl. eauto.
Qed.

#[export] Instance veq_equiv : Equivalence veq.
Proof. split; apply _. Qed.

(** Reading a property respects the equivalence. *)
#[export] Instance VObj_get_proper k : Proper (veq ==> veq) (fun v => obj_get k (own_props v)).
Proof.
  intros v w H. destruct H as [| | | | |l l' Hl| | | |o o' Ho]; try reflexivity; simpl; [|apply Ho].
  generalize 0 at 1 2. intros i. revert i.
  unfold obj_get. induction Hl as [|x y l l' Hxy _ IH]; intros i; simpl; [reflexivity|].
  destruct (streq k (to_radix 10 i)); simpl; [done|apply IH].
Qed.
