(* ===== verification/Int32.v ===== *)
(** The 32-bit integer operators of JavaScript: the operands go through
    ToInt32 and the results wrap around. *)

From Stdlib Require Import ZArith Lia List Bool.
From stdpp Require Import base list list_numbers tactics.
From S2P Require Import Prelude.

(** ToInt32 of an integral number. *)
Definition to_int32 (z : Z) : Z :=
  let m := z mod 2 ^ 32 in if m <? 2 ^ 31 then m else m - 2 ^ 32.

Definition shl (a n : Z) : Z := to_int32 (Z.shiftl (to_int32 a) (n mod 32)).
Definition shr (a n : Z) : Z := Z.shiftr (to_int32 a) (n mod 32).
Definition band (a b : Z) : Z := Z.land (to_int32 a) (to_int32 b).
Definition bor (a b : Z) : Z := Z.lor (to_int32 a) (to_int32 b).
Definition bxor (a b : Z) : Z := Z.lxor (to_int32 a) (to_int32 b).
Definition bnot (a : Z) : Z := Z.lnot (to_int32 a).

(** ToUint32: [a >>> 0]. *)
Definition to_uint32 (z : Z) : Z := z mod 2 ^ 32.

Declare Scope js32_scope.
Delimit Scope js32_scope with js32.
Infix "<<" := shl (at level 35, no associativity) : js32_scope.
Infix ">>" := shr (at level 35, no associativity) : js32_scope.

(** A byte. *)
Definition is_byte (b : Z) : Prop := 0 <= b < 256.

#[export] Instance is_byte_dec b : Decision (is_byte b).
Proof. unfold is_byte. apply _. Defined.

Lemma to_int32_small z : - 2 ^ 31 <= z < 2 ^ 31 -> to_int32 z = z.
Proof.
  intros H. unfold to_int32. cbv zeta.
  destruct (decide (0 <= z)).
  - rewrite Z.mod_small by lia. destruct (z <? 2 ^ 31) eqn:E; breflect; lia.
  - assert (z mod 2 ^ 32 = z + 2 ^ 32) as ->.
    { symmetry. apply Z.mod_unique with (-1); lia. }
    destruct (z + 2 ^ 32 <? 2 ^ 31) eqn:E; breflect; lia.
Qed.

Lemma to_int32_range z : - 2 ^ 31 <= to_int32 z < 2 ^ 31.
Proof.
  unfold to_int32. cbv zeta. pose proof (Z.mod_pos_bound z (2 ^ 32) ltac:(lia)).
  destruct (z mod 2 ^ 32 <? 2 ^ 31) eqn:E; breflect; lia.
Qed.

(** ToInt32 keeps the low bits. *)
Lemma to_int32_mod z n : 0 <= n <= 32 -> to_int32 z mod 2 ^ n = z mod 2 ^ n.
Proof.
  intros Hn. assert (to_int32 z mod 2 ^ 32 = z mod 2 ^ 32) as H32.
  { unfold to_int32. cbv zeta. destruct (z mod 2 ^ 32 <? 2 ^ 31).
    - by rewrite Z.mod_mod by lia.
    - rewrite <- Zminus_mod_idemp_r, Z_mod_same_full, Z.sub_0_r. by rewrite Z.mod_mod by lia. }
  assert (forall y, y mod 2 ^ n = (y mod 2 ^ 32) mod 2 ^ n) as Hm.
  { intros y. symmetry. apply Z.mod_mod_divide.
    exists (2 ^ (32 - n)). rewrite <- Z.pow_add_r by lia. f_equal. lia. }
  by rewrite (Hm (to_int32 z)), H32, <- Hm.
Qed.

Lemma land_mask a n : 0 <= n -> Z.land a (Z.ones n) = a mod 2 ^ n.
Proof. apply Z.land_ones. Qed.

(** The masks the codecs use. *)
Lemma band_63 a : band a 63 = a mod 64.
Proof.
  unfold band. rewrite (to_int32_small 63) by lia.
  change 63 with (Z.ones 6). rewrite land_mask by lia. by rewrite to_int32_mod by lia.
Qed.

Lemma band_255 a : band a 255 = a mod 256.
Proof.
  unfold band. rewrite (to_int32_small 255) by lia.
  change 255 with (Z.ones 8). rewrite land_mask by lia. by rewrite to_int32_mod by lia.
Qed.

Lemma shl_small a n :
  0 <= n < 32 -> 0 <= a -> a * 2 ^ n < 2 ^ 31 -> shl a n = a * 2 ^ n.
Proof.
  intros Hn Ha Hb. assert (0 < 2 ^ n) by lia. unfold shl. rewrite (Z.mod_small n) by lia.
  rewrite (to_int32_small a) by nia. rewrite Z.shiftl_mul_pow2 by lia.
  by rewrite to_int32_small by nia.
Qed.

Lemma shr_small a n :
  0 <= n < 32 -> - 2 ^ 31 <= a < 2 ^ 31 -> shr a n = a / 2 ^ n.
Proof.
  intros Hn Ha. unfold shr. rewrite (Z.mod_small n) by lia.
  rewrite to_int32_small by lia. by rewrite Z.shiftr_div_pow2 by lia.
Qed.

(** [or] of numbers with disjoint bits is their sum. *)
Lemma lor_disjoint x y n : 0 <= n -> 0 <= y < 2 ^ n -> Z.lor (x * 2 ^ n) y = x * 2 ^ n + y.
Proof.
  intros Hn Hy.
  assert (Z.land (x * 2 ^ n) y = 0) as H0;
    [|by rewrite Z.add_nocarry_lxor, Z.lxor_lor].
  apply Z.bits_inj'. intros i Hi. rewrite Z.land_spec, Z.bits_0.
  rewrite <- Z.shiftl_mul_pow2, Z.shiftl_spec by lia.
  destruct (decide (i < n)); [by rewrite Z.testbit_neg_r by lia|].
  rewrite andb_comm. destruct (decide (y = 0)) as [->|]; [by rewrite Z.bits_0|].
  rewrite (Z.bits_above_log2 y); [done|lia|].
  assert (Z.log2 y < n); [apply Z.log2_lt_pow2; lia|lia].
Qed.

Lemma bor_disjoint x y n :
  0 <= n -> 0 <= y < 2 ^ n -> 0 <= x -> x * 2 ^ n + y < 2 ^ 31 ->
  bor (x * 2 ^ n) y = x * 2 ^ n + y.
Proof.
  intros Hn Hy Hx Hb. unfold bor. rewrite !to_int32_small by nia. by apply lor_disjoint.
Qed.

Lemma bor_comm a b : bor a b = bor b a.
Proof. apply Z.lor_comm. Qed.

(** Solve goals made of divisions and remainders by constants. *)
Ltac divmod := Z.to_euclidean_division_equations; lia.

Lemma div_mod_pow x n k : 0 <= n -> 0 <= k -> (x / 2 ^ n) mod 2 ^ k = (x mod 2 ^ (n + k)) / 2 ^ n.
Proof.
  intros Hn Hk. rewrite Z.pow_add_r, Z.rem_mul_r by lia.
  rewrite Z.add_comm, Z.mul_comm, Z.div_add_l by lia.
  rewrite (Z.div_small (x mod 2 ^ n)) by (apply Z.mod_pos_bound; lia). lia.
Qed.

(** The bits that survive a shift are those of the unbounded integer. *)
Lemma shr_mod a n k : 0 <= n < 32 -> 0 <= k -> n + k <= 32 -> shr a n mod 2 ^ k = (a / 2 ^ n) mod 2 ^ k.
Proof.
  intros Hn Hk Hnk. unfold shr. rewrite (Z.mod_small n), Z.shiftr_div_pow2 by lia.
  rewrite !div_mod_pow by lia. by rewrite to_int32_mod by lia.
Qed.

Lemma shl_mod a n k : 0 <= n < 32 -> 0 <= k <= 32 -> shl a n mod 2 ^ k = (a * 2 ^ n) mod 2 ^ k.
Proof.
  intros Hn Hk. unfold shl. rewrite (Z.mod_small n) by lia.
  rewrite to_int32_mod, Z.shiftl_mul_pow2 by lia.
  rewrite Z.mul_mod, to_int32_mod, <- Z.mul_mod by lia. done.
Qed.

(** A window of bits depends only on the bits below its top. *)
Lemma bits_window x t m n k :
  0 <= n -> 0 <= k -> n + k <= m -> x mod 2 ^ m = t -> (x / 2 ^ n) mod 2 ^ k = (t / 2 ^ n) mod 2 ^ k.
Proof.
  intros Hn Hk Hm <-. rewrite !div_mod_pow by lia. f_equal. symmetry.
  apply Z.mod_mod_divide. exists (2 ^ (m - (n + k))). rewrite <- Z.pow_add_r by lia. f_equal. lia.
Qed.

(** Appending [n] bits to the accumulator of a codec. *)
Lemma bor_shl a n v : 0 <= n < 31 -> 0 <= v < 2 ^ n -> bor (shl a n) v = shl a n + v.
Proof.
  intros Hn Hv. assert (2 ^ n <= 2 ^ 30) by (apply Z.pow_le_mono_r; lia).
  assert (shl a n mod 2 ^ n = 0) as H0 by (rewrite shl_mod by lia; apply Z.mod_mul; lia).
  apply Z.mod_divide in H0 as [y Hy]; [|lia].
  assert (- 2 ^ 31 <= shl a n < 2 ^ 31) by apply to_int32_range.
  unfold bor. rewrite (to_int32_small (shl a n)), (to_int32_small v) by lia.
  rewrite Hy. by rewrite lor_disjoint by lia.
Qed.

Lemma shl_add_mod a n v k :
  0 <= n < 32 -> 0 <= k <= 32 -> (shl a n + v) mod 2 ^ k = (a * 2 ^ n + v) mod 2 ^ k.
Proof.
  intros. rewrite <- Zplus_mod_idemp_l, shl_mod by lia. by rewrite Zplus_mod_idemp_l.
Qed.

(** One step of an accumulator whose low [j] bits are [y]. *)
Lemma acc_step x y n b j :
  0 <= n < 32 -> 0 <= j -> j + n <= 32 -> x mod 2 ^ j = y -> 0 <= b < 2 ^ n ->
  (shl x n + b) mod 2 ^ (j + n) = y * 2 ^ n + b.
Proof.
  intros Hn Hj Hjn Hy Hb. pose proof (Z.mod_pos_bound x (2 ^ j) ltac:(lia)).
  rewrite shl_add_mod by lia. rewrite Z.pow_add_r by lia.
  rewrite <- Zplus_mod_idemp_l, Z.mul_mod_distr_r, Hy by lia.
  apply Z.mod_small. nia.
Qed.
