(* ===== verification/Base64.v ===== *)
(** The base64-js module of the bundle: the byte codec behind the [base64]
    encoding of buffers. *)

From Stdlib Require Import ZArith Lia List String Bool.
From stdpp Require Import base list list_numbers tactics.
From S2P Require Import Prelude JsNum Js Int32.

#[local] Open Scope js32_scope.

(** ** Tables *)

Definition code : jstr :=
  u "ABCDEFGHIJKLMNOPQRSTUVWXYZabcdefghijklmnopqrstuvwxyz0123456789+/".

(** [lookup[i]]; reading past the table appends nothing here, since every
    index the module uses is masked to 6 bits. *)
Definition lookup64 (i : Z) : jstr := match zget code i with Some c => [c] | None => u "undefined" end.

(** [revLookup[c]]: [undefined], which the shifts read as 0, for a code unit
    that was not stored. *)
Definition revLookup (c : option Z) : Z :=
  match c with
  | None => 0
  | Some c =>
      if c =? 45 then 62 else if c =? 95 then 63
      else let i := index_of c code in if i <? 0 then 0 else i
  end.

(** ** Decoding *)

Definition placeHoldersCount (b64 : jstr) : res Z :=
  let len := zlen b64 in
  if len mod 4 >? 0 then Err (PlainError (u "Invalid string. Length must be a multiple of 4"))
  else Ok (if bool_decide (zget b64 (len - 2) = Some 61) then 2
           else if bool_decide (zget b64 (len - 1) = Some 61) then 1 else 0).

Definition byteLength (b64 : jstr) : res Z :=
  p <-? placeHoldersCount b64; Ok (zlen b64 * 3 / 4 - p).

(** [arr[L++] = v] on a Uint8Array: the value wraps to a byte and a write past
    the end is ignored. *)
Definition put (st : list Z * Z) (v : Z) : list Z * Z :=
  (<[Z.to_nat st.2 := v mod 256]> st.1, st.2 + 1).

Definition rev_at (b64 : jstr) (i : Z) : Z := revLookup (zget b64 i).

(** The loop over complete groups of four characters, from index [i]. *)
Fixpoint decode_loop (fuel : nat) (b64 : jstr) (i l : Z) (st : list Z * Z) : Z * (list Z * Z) :=
  match fuel with
  | O => (i, st)
  | S fuel =>
      if i <? l then
        let tmp := bor (bor (bor (rev_at b64 i << 18) (rev_at b64 (i + 1) << 12))
                            (rev_at b64 (i + 2) << 6)) (rev_at b64 (i + 3)) in
        let st := put st (band (tmp >> 16) 255) in
        let st := put st (band (tmp >> 8) 255) in
        let st := put st (band tmp 255) in
        decode_loop fuel b64 (i + 4) l st
      else (i, st)
  end.

Definition toByteArray (b64 : jstr) : res (list Z) :=
  placeHolders <-? placeHoldersCount b64;
  let len := zlen b64 in
  let arr := repeat 0 (Z.to_nat (len * 3 / 4 - placeHolders)) in
  let l := if placeHolders >? 0 then len - 4 else len in
  let '(i, st) := decode_loop (length b64) b64 0 l (arr, 0) in
  let st :=
    if placeHolders =? 2 then
      let tmp := bor (rev_at b64 i << 2) (rev_at b64 (i + 1) >> 4) in
      put st (band tmp 255)
    else if placeHolders =? 1 then
      let tmp := bor (bor (rev_at b64 i << 10) (rev_at b64 (i + 1) << 4))
                     (rev_at b64 (i + 2) >> 2) in
      let st := put st (band (tmp >> 8) 255) in
      put st (band tmp 255)
    else st in
  Ok st.1.

(** ** Encoding *)

Definition tripletToBase64 (num : Z) : jstr :=
  lookup64 (band (num >> 18) 63) ++ lookup64 (band (num >> 12) 63)
  ++ lookup64 (band (num >> 6) 63) ++ lookup64 (band num 63).

(** [uint8[i]]; 0 stands for the [undefined] of an index out of range, which
    [<<] reads as 0. *)
Definition byte_at (uint8 : list Z) (i : Z) : Z := default 0 (zget uint8 i).

Fixpoint encodeChunk_loop (fuel : nat) (uint8 : list Z) (i e : Z) : list jstr :=
  match fuel with
  | O => []
  | S fuel =>
      if i <? e then
        let tmp := (byte_at uint8 i << 16) + (byte_at uint8 (i + 1) << 8) + byte_at uint8 (i + 2) in
        tripletToBase64 tmp :: encodeChunk_loop fuel uint8 (i + 3) e
      else []
  end.

Definition encodeChunk (uint8 : list Z) (start e : Z) : jstr :=
  join [] (encodeChunk_loop (Z.to_nat (e - start)) uint8 start e).

Definition maxChunkLength : Z := 16383.

Fixpoint chunk_loop (fuel : nat) (uint8 : list Z) (i len2 : Z) : list jstr :=
  match fuel with
  | O => []
  | S fuel =>
      if i <? len2 then
        encodeChunk uint8 i (if i + maxChunkLength >? len2 then len2 else i + maxChunkLength)
        :: chunk_loop fuel uint8 (i + maxChunkLength) len2
      else []
  end.

Definition fromByteArray (uint8 : list Z) : jstr :=
  let len := zlen uint8 in
  let extraBytes := len mod 3 in
  let parts := chunk_loop (length uint8) uint8 0 (len - extraBytes) in
  let output :=
    if extraBytes =? 1 then
      let tmp := byte_at uint8 (len - 1) in
      lookup64 (tmp >> 2) ++ lookup64 (band (tmp << 4) 63) ++ u "=="
    else if extraBytes =? 2 then
      let tmp := (byte_at uint8 (len - 2) << 8) + byte_at uint8 (len - 1) in
      lookup64 (tmp >> 10) ++ lookup64 (band (tmp >> 4) 63) ++ lookup64 (band (tmp << 2) 63) ++ u "="
    else [] in
  join [] (parts ++ [output]).

(** ** The encoding of RFC 4648, group by group *)

Definition char64 (i : Z) : Z := default 0 (zget code i).

Fixpoint rfc4648 (bs : list Z) : jstr :=
  match bs with
  | a :: b :: c :: bs =>
      let t := a * 65536 + b * 256 + c in
      char64 (t / 262144) :: char64 (t / 4096 mod 64) :: char64 (t / 64 mod 64) :: char64 (t mod 64)
      :: rfc4648 bs
  | [a; b] =>
      let t := a * 256 + b in
      [char64 (t / 1024); char64 (t / 16 mod 64); char64 (t * 4 mod 64); 61]
  | [a] => [char64 (a / 4); char64 (a * 16 mod 64); 61; 61]
  | [] => []
  end.

Lemma code_NoDup : NoDup code.
Proof. apply (bool_decide_unpack _). by vm_compute. Qed.

Lemma zlen_code : zlen code = 64.
Proof. reflexivity. Qed.

Lemma lookup64_char i : 0 <= i < 64 -> lookup64 i = [char64 i].
Proof.
  intros Hi. unfold lookup64, char64.
  destruct (zget_lt code i) as [x ->]; [by rewrite zlen_code|done].
Qed.

Lemma char64_in i : 0 <= i < 64 -> char64 i ∈ code.
Proof.
  intros Hi. unfold char64.
  destruct (zget_lt code i) as [x Hx]; [by rewrite zlen_code|].
  rewrite Hx. by eapply zget_elem.
Qed.

Lemma code_plain c : c ∈ code -> c <> 61 /\ c <> 45 /\ c <> 95 /\ c <> 13 /\ c <> 10.
Proof.
  intros Hc. assert (Forall (fun c => c <> 61 /\ c <> 45 /\ c <> 95 /\ c <> 13 /\ c <> 10) code) as H.
  { unfold code, u. simpl. repeat (apply Forall_cons_2; [lia|]). apply Forall_nil_2. }
  rewrite Forall_elem in H. exact (H c Hc).
Qed.

Lemma char64_not_pad i : 0 <= i < 64 -> char64 i <> 61.
Proof. intros Hi. apply (code_plain _ (char64_in i Hi)). Qed.

Lemma revLookup_char64 i : 0 <= i < 64 -> revLookup (Some (char64 i)) = i.
Proof.
  intros Hi. destruct (code_plain _ (char64_in i Hi)) as (_ & H1 & H2 & _).
  unfold revLookup. rewrite !(proj2 (Z.eqb_neq _ _)) by done.
  assert (index_of (char64 i) code = i) as ->.
  { apply index_of_zget; [apply code_NoDup|]. unfold char64.
    by destruct (zget_lt code i) as [x ->]; [rewrite zlen_code|]. }
  destruct (i <? 0) eqn:E; breflect; [lia|done].
Qed.

Lemma rfc4648_app x y : zlen x mod 3 = 0 -> rfc4648 (x ++ y) = rfc4648 x ++ rfc4648 y.
Proof.
  induction x as [|a|a b|a b c x IH] using list_ind3; intros H; try done.
  rewrite !zlen_cons in H. cbn [rfc4648 app]. rewrite IH; [done|].
  pose proof (zlen_nonneg x). divmod.
Qed.

Lemma tripletToBase64_char t :
  0 <= t < 2 ^ 24 ->
  tripletToBase64 t
  = [char64 (t / 262144); char64 (t / 4096 mod 64); char64 (t / 64 mod 64); char64 (t mod 64)].
Proof.
  intros Ht. unfold tripletToBase64. rewrite !band_63, !shr_small by lia.
  change (2 ^ 18) with 262144. change (2 ^ 12) with 4096. change (2 ^ 6) with 64.
  rewrite !lookup64_char by (apply Z.mod_pos_bound; lia).
  rewrite (Z.mod_small (t / 262144)) by divmod. done.
Qed.

(** The bytes the code reads with [uint8[i]]. *)
Definition bytes (bs : list Z) : Prop := Forall is_byte bs.

Lemma bytes_cons b bs : bytes (b :: bs) <-> is_byte b /\ bytes bs.
Proof. apply Forall_cons_iff. Qed.

Lemma byte_at_range bs i : bytes bs -> 0 <= byte_at bs i < 256.
Proof.
  intros Hb. unfold byte_at. destruct (zget bs i) as [x|] eqn:E; simpl; [|lia].
  apply zget_elem in E. unfold bytes in Hb. rewrite Forall_elem in Hb. exact (Hb x E).
Qed.

Lemma zslice_byte_at bs a b :
  0 <= a < b -> a < zlen bs -> zslice a b bs = byte_at bs a :: zslice (a + 1) b bs.
Proof.
  intros Hab Ha. destruct (zget_lt bs a) as [x Hx]; [lia|].
  rewrite (zslice_cons bs a b x) by done. unfold byte_at. by rewrite Hx.
Qed.

Lemma encodeChunk_loop_spec bs e :
  bytes bs -> e <= zlen bs -> forall fuel i,
  0 <= i <= e -> (e - i) mod 3 = 0 -> (Z.to_nat (e - i) <= fuel)%nat ->
  concat (encodeChunk_loop fuel bs i e) = rfc4648 (zslice i e bs).
Proof.
  intros Hb He fuel. induction fuel as [|fuel IH]; intros i Hi Hm Hf; simpl.
  - by rewrite zslice_empty by lia.
  - destruct (i <? e) eqn:E; breflect; [|by rewrite zslice_empty by lia].
    assert (i + 3 <= e) by divmod.
    rewrite (zslice_byte_at bs i e), (zslice_byte_at bs (i + 1) e),
      (zslice_byte_at bs (i + 1 + 1) e) by lia.
    pose proof (byte_at_range bs i Hb). pose proof (byte_at_range bs (i + 1) Hb).
    pose proof (byte_at_range bs (i + 2) Hb).
    replace (i + 1 + 1) with (i + 2) by lia. replace (i + 2 + 1) with (i + 3) by lia.
    cbn [rfc4648 concat]. rewrite !shl_small by lia.
    change (2 ^ 16) with 65536. change (2 ^ 8) with 256.
    rewrite tripletToBase64_char by lia. rewrite IH; [done|lia|divmod|lia].
Qed.

Lemma chunk_loop_spec bs len2 :
  bytes bs -> len2 <= zlen bs -> forall fuel i,
  0 <= i -> (i <= len2 -> (len2 - i) mod 3 = 0) -> (Z.to_nat (len2 - i) <= fuel)%nat ->
  concat (chunk_loop fuel bs i len2) = rfc4648 (zslice i len2 bs).
Proof.
  intros Hb Hl fuel. induction fuel as [|fuel IH]; intros i Hi Hm Hf; simpl.
  - by rewrite zslice_empty by lia.
  - destruct (i <? len2) eqn:E; breflect; [|by rewrite zslice_empty by lia].
    rewrite concat_cons. unfold encodeChunk. rewrite join_nil.
    specialize (Hm ltac:(lia)). unfold maxChunkLength in *.
    destruct (i + 16383 >? len2) eqn:E2.
    + apply Z.gtb_lt in E2. rewrite encodeChunk_loop_spec by (done || lia).
      replace (concat (chunk_loop fuel bs (i + 16383) len2)) with (@nil Z); [by rewrite app_nil_r|].
      destruct fuel; simpl; [done|].
      by replace (i + 16383 <? len2) with false by (symmetry; apply Z.ltb_ge; lia).
    + assert (i + 16383 <= len2) by (apply Z.ltb_ge; by rewrite <- Z.gtb_ltb).
      rewrite encodeChunk_loop_spec by (done || lia || divmod).
      rewrite IH by (lia || (intros; divmod)).
      rewrite <- rfc4648_app by (rewrite zlen_zslice by lia; divmod).
      by rewrite zslice_app by lia.
Qed.

(** Splitting a byte string before its last incomplete group. *)
Lemma split_tail (bs : list Z) :
  bs = zslice 0 (zlen bs - zlen bs mod 3) bs
       ++ zslice (zlen bs - zlen bs mod 3) (zlen bs) bs.
Proof.
  pose proof (zlen_nonneg bs). rewrite zslice_app by divmod. by rewrite zslice_full.
Qed.

Lemma rfc4648_tail1 a : is_byte a ->
  lookup64 (a >> 2) ++ lookup64 (band (a << 4) 63) ++ u "==" = rfc4648 [a].
Proof.
  unfold is_byte. intros Ha. rewrite band_63, shr_small, shl_small by lia.
  change (2 ^ 2) with 4. change (2 ^ 4) with 16.
  rewrite !lookup64_char by divmod. done.
Qed.

Lemma rfc4648_tail2 a b : is_byte a -> is_byte b ->
  let tmp := (a << 8) + b in
  lookup64 (tmp >> 10) ++ lookup64 (band (tmp >> 4) 63) ++ lookup64 (band (tmp << 2) 63) ++ u "="
  = rfc4648 [a; b].
Proof.
  unfold is_byte. intros Ha Hb. cbv zeta. rewrite (shl_small a) by lia.
  change (2 ^ 8) with 256. rewrite !band_63, !shr_small, shl_small by lia.
  change (2 ^ 10) with 1024. change (2 ^ 4) with 16. change (2 ^ 2) with 4.
  rewrite !lookup64_char by divmod. done.
Qed.

(** ** Decoding group by group *)

Definition b64_value (c : Z) : Z := revLookup (Some c).

Fixpoint decode_groups (s : jstr) : list Z :=
  match s with
  | a :: b :: c :: d :: s =>
      let t := b64_value a * 262144 + b64_value b * 4096 + b64_value c * 64 + b64_value d in
      t / 65536 :: t / 256 mod 256 :: t mod 256 :: decode_groups s
  | _ => []
  end.

Lemma revLookup_range c : 0 <= revLookup c < 64.
Proof.
  unfold revLookup. destruct c as [c|]; [|lia].
  destruct (c =? 45); [lia|]. destruct (c =? 95); [lia|]. cbv zeta.
  destruct (index_of c code <? 0) eqn:E; breflect; [lia|].
  destruct (index_of_range c code) as [?|[? ?]]; [rewrite zlen_code in *; lia|lia].
Qed.

Lemma rev_at_get s i c : zget s i = Some c -> rev_at s i = b64_value c.
Proof. intros H. unfold rev_at. by rewrite H. Qed.

(** The four sextets of a group joined with shifts and ors. *)
Lemma join_sextets a b c d :
  0 <= a < 64 -> 0 <= b < 64 -> 0 <= c < 64 -> 0 <= d < 64 ->
  bor (bor (bor (a << 18) (b << 12)) (c << 6)) d = a * 262144 + b * 4096 + c * 64 + d.
Proof.
  intros. rewrite !shl_small by lia. change (2 ^ 18) with 262144. change (2 ^ 12) with 4096.
  change (2 ^ 6) with 64.
  replace (a * 262144) with (a * 2 ^ 18) by lia. rewrite bor_disjoint by lia.
  replace (a * 2 ^ 18 + b * 4096) with ((a * 64 + b) * 2 ^ 12) by lia. rewrite bor_disjoint by lia.
  replace ((a * 64 + b) * 2 ^ 12 + c * 64) with ((a * 4096 + b * 64 + c) * 2 ^ 6) by lia.
  rewrite bor_disjoint by lia. lia.
Qed.

Lemma zslice_groups (s : jstr) i l :
  0 <= i -> i + 4 <= l -> l <= zlen s -> exists a b c d,
  zget s i = Some a /\ zget s (i + 1) = Some b /\ zget s (i + 2) = Some c /\ zget s (i + 3) = Some d
  /\ zslice i l s = a :: b :: c :: d :: zslice (i + 4) l s.
Proof.
  intros Hi Hl Hs.
  destruct (zget_lt s i) as [a Ha]; [lia|]. destruct (zget_lt s (i + 1)) as [b Hb]; [lia|].
  destruct (zget_lt s (i + 2)) as [c Hc]; [lia|]. destruct (zget_lt s (i + 3)) as [d Hd]; [lia|].
  exists a, b, c, d. do 4 (split; [done|]).
  rewrite (zslice_cons s i l a), (zslice_cons s (i + 1) l b) by (done || lia).
  replace (i + 1 + 1) with (i + 2) by lia. rewrite (zslice_cons s (i + 2) l c) by (done || lia).
  replace (i + 2 + 1) with (i + 3) by lia. rewrite (zslice_cons s (i + 3) l d) by (done || lia).
  by replace (i + 3 + 1) with (i + 4) by lia.
Qed.

Lemma decode_loop_spec s l : l <= zlen s -> forall fuel i st,
  0 <= i <= l -> (l - i) mod 4 = 0 -> (Z.to_nat (l - i) <= fuel)%nat ->
  decode_loop fuel s i l st = (l, fold_left put (decode_groups (zslice i l s)) st).
Proof.
  intros Hl fuel. induction fuel as [|fuel IH]; intros i st Hi Hm Hf; cbn [decode_loop].
  - rewrite zslice_empty by lia. simpl. f_equal. lia.
  - destruct (i <? l) eqn:E; breflect.
    2: { rewrite zslice_empty by lia. simpl. f_equal. lia. }
    destruct (zslice_groups s i l) as (a & b & c & d & Ha & Hb & Hc & Hd & ->); [lia|divmod|lia|].
    rewrite (rev_at_get s i a), (rev_at_get s (i + 1) b), (rev_at_get s (i + 2) c),
      (rev_at_get s (i + 3) d) by done.
    pose proof (revLookup_range (Some a)). pose proof (revLookup_range (Some b)).
    pose proof (revLookup_range (Some c)). pose proof (revLookup_range (Some d)).
    rewrite join_sextets by done. cbn [decode_groups fold_left]. unfold b64_value.
    rewrite !band_255, !shr_small by lia.
    change (2 ^ 16) with 65536. change (2 ^ 8) with 256.
    rewrite (Z.mod_small (_ / 65536)) by divmod.
    apply IH; [divmod..|lia].
Qed.

(** Sequential writes into a fresh array that is long enough. *)
Lemma fold_put bs : forall pre m,
  bytes bs -> (length bs <= m)%nat ->
  fold_left put bs (pre ++ repeat 0 m, zlen pre)
  = (pre ++ bs ++ repeat 0 (m - length bs), zlen pre + zlen bs).
Proof.
  induction bs as [|b bs IH]; intros pre m Hb Hm; simpl.
  - replace (m - 0)%nat with m by lia. unfold zlen. simpl. by rewrite Z.add_0_r.
  - rewrite bytes_cons in Hb. destruct Hb as [Hb Hbs]. destruct m as [|m]; simpl in Hm; [lia|].
    unfold put at 2. simpl fst; simpl snd. rewrite Z.mod_small by done.
    unfold zlen at 1. rewrite Nat2Z.id, insert_app_r_alt, Nat.sub_diag by lia. simpl repeat.
    cbn [insert list_insert].
    replace (pre ++ b :: repeat 0 m) with ((pre ++ [b]) ++ repeat 0 m) by by rewrite <- app_assoc.
    replace (zlen pre + 1) with (zlen (pre ++ [b])) by by rewrite zlen_app.
    rewrite IH by (done || lia). rewrite <- app_assoc. simpl. f_equal.
    rewrite zlen_app, !zlen_cons, zlen_nil. lia.
Qed.

Lemma decode_groups_rfc4648 bs : bytes bs -> zlen bs mod 3 = 0 -> decode_groups (rfc4648 bs) = bs.
Proof.
  induction bs as [|a|a b|a b c bs IH] using list_ind3; intros Hb Hm; try done.
  rewrite !bytes_cons in Hb. destruct Hb as (Ha & Hb & Hc & Hbs). unfold is_byte in *.
  rewrite !zlen_cons in Hm. pose proof (zlen_nonneg bs).
  cbn [rfc4648 decode_groups]. unfold b64_value.
  rewrite !revLookup_char64 by divmod. rewrite IH by (done || divmod).
  repeat f_equal; divmod.
Qed.

(** ** Correctness of the module *)

Lemma bytes_zslice bs a b : bytes bs -> bytes (zslice a b bs).
Proof. intros. unfold bytes, zslice. by apply Forall_take, Forall_drop. Qed.

(** The chunked encoder computes the RFC 4648 encoding. *)
Lemma fromByteArray_spec bs : bytes bs -> fromByteArray bs = rfc4648 bs.
Proof.
  intros Hb. pose proof (zlen_nonneg bs). unfold fromByteArray.
  rewrite join_nil, concat_app. cbn [concat]. rewrite app_nil_r.
  rewrite chunk_loop_spec by (done || (intros; divmod) || (unfold zlen; divmod)).
  transitivity (rfc4648 (zslice 0 (zlen bs - zlen bs mod 3) bs
                         ++ zslice (zlen bs - zlen bs mod 3) (zlen bs) bs));
    [|by rewrite <- split_tail].
  rewrite rfc4648_app by (rewrite zlen_zslice by divmod; divmod).
  f_equal. pose proof (Z.mod_pos_bound (zlen bs) 3 ltac:(lia)).
  assert (zlen bs mod 3 = 0 \/ zlen bs mod 3 = 1 \/ zlen bs mod 3 = 2) as [E|[E|E]] by lia;
    rewrite E; cbn [Z.eqb Pos.eqb].
  - by rewrite zslice_empty by lia.
  - assert (1 <= zlen bs) by divmod.
    rewrite zslice_byte_at, zslice_empty by lia. apply rfc4648_tail1, byte_at_range, Hb.
  - assert (2 <= zlen bs) by divmod.
    rewrite !zslice_byte_at, zslice_empty by lia.
    replace (zlen bs - 2 + 1) with (zlen bs - 1) by lia.
    apply rfc4648_tail2; by apply byte_at_range.
Qed.

(** Every byte string is complete groups and a rest of at most two bytes. *)
Lemma groups_and_rest (bs : list Z) :
  exists g t, bs = g ++ t /\ zlen g mod 3 = 0 /\ (t = [] \/ (exists a, t = [a]) \/ exists a b, t = [a; b]).
Proof.
  induction bs as [|a|a b|a b c bs (g & t & -> & Hg & Ht)] using list_ind3.
  - exists [], []. by auto.
  - exists [], [a]. split; [done|]. split; [done|]. eauto.
  - exists [], [a; b]. split; [done|]. split; [done|]. eauto 6.
  - exists (a :: b :: c :: g), t. split; [done|]. split; [|done].
    rewrite !zlen_cons. pose proof (zlen_nonneg g). divmod.
Qed.

Lemma zlen_rfc4648_groups g : zlen g mod 3 = 0 -> zlen (rfc4648 g) = zlen g / 3 * 4.
Proof.
  induction g as [|a|a b|a b c g IH] using list_ind3; intros Hm; try done.
  rewrite !zlen_cons in Hm. cbn [rfc4648]. rewrite !zlen_cons.
  pose proof (zlen_nonneg g). rewrite IH by divmod. divmod.
Qed.

(** The last two characters of complete groups are not padding. *)
Lemma rfc4648_groups_last g k :
  bytes g -> zlen g mod 3 = 0 -> 1 <= k <= 2 ->
  zget (rfc4648 g) (zlen (rfc4648 g) - k) <> Some 61.
Proof.
  induction g as [|a|a b|a b c g IH] using list_ind3; intros Hb Hm Hk; try done.
  - unfold zget. replace (zlen (rfc4648 []) - k <? 0) with true; [done|].
    symmetry. apply Z.ltb_lt. unfold zlen. simpl. lia.
  - rewrite !bytes_cons in Hb. destruct Hb as (Ha & Hb & Hc & Hg). unfold is_byte in *.
    rewrite !zlen_cons in Hm. pose proof (zlen_nonneg g). specialize (IH Hg ltac:(divmod) Hk).
    cbn [rfc4648]. rewrite !zlen_cons. destruct g as [|x g'] eqn:Eg.
    + unfold zlen. cbn [length]. assert (k = 1 \/ k = 2) as [->| ->] by lia;
        (intros [= E]; apply char64_not_pad in E; [done|divmod]).
    + rewrite <- Eg in *. assert (4 <= zlen (rfc4648 g)).
      { rewrite zlen_rfc4648_groups by divmod. assert (1 <= zlen g) by (subst; rewrite zlen_cons; pose proof (zlen_nonneg g'); lia). divmod. }
      rewrite !zget_cons by lia. intros E. apply IH. rewrite <- E. f_equal. lia.
Qed.

Lemma placeHoldersCount_ok s :
  zlen s mod 4 = 0 ->
  placeHoldersCount s = Ok (if bool_decide (zget s (zlen s - 2) = Some 61) then 2
                            else if bool_decide (zget s (zlen s - 1) = Some 61) then 1 else 0).
Proof. intros E. unfold placeHoldersCount. by rewrite E. Qed.

Lemma zget_last2 {A} (l : list A) a b c d :
  zget (l ++ [a; b; c; d]) (zlen (l ++ [a; b; c; d]) - 2) = Some c
  /\ zget (l ++ [a; b; c; d]) (zlen (l ++ [a; b; c; d]) - 1) = Some d.
Proof.
  rewrite zlen_app. change (zlen [a; b; c; d]) with 4. pose proof (zlen_nonneg l).
  split; rewrite zget_app_r by lia.
  - by replace (zlen l + 4 - 2 - zlen l) with 2 by lia.
  - by replace (zlen l + 4 - 1 - zlen l) with 3 by lia.
Qed.

(** Decoding complete groups followed by one padded group, up to the tail. *)
Lemma decode_loop_prefix g x n :
  bytes g -> zlen g mod 3 = 0 -> zlen g <= n ->
  decode_loop (length (rfc4648 g ++ x)) (rfc4648 g ++ x) 0 (zlen (rfc4648 g)) (repeat 0 (Z.to_nat n), 0)
  = (zlen (rfc4648 g), (g ++ repeat 0 (Z.to_nat (n - zlen g)), zlen g)).
Proof.
  intros Hg Hm Hn. pose proof (zlen_nonneg g). pose proof (zlen_rfc4648_groups g Hm).
  rewrite decode_loop_spec; [|rewrite zlen_app; pose proof (zlen_nonneg x); lia|divmod|divmod|].
  2: { rewrite length_app. unfold zlen. lia. }
  rewrite zslice_app_l, decode_groups_rfc4648 by done.
  pose proof (fold_put g [] (Z.to_nat n) Hg) as H'. cbn [app] in H'. change (zlen []) with 0 in H'.
  rewrite Z.add_0_l in H'. rewrite H' by (unfold zlen in *; lia).
  by replace (Z.to_nat (n - zlen g)) with (Z.to_nat n - length g)%nat by (unfold zlen; lia).
Qed.

Lemma rev_at_app s x i : 0 <= i -> rev_at (s ++ x) (zlen s + i) = rev_at x i.
Proof.
  intros. unfold rev_at. rewrite zget_app_r by (pose proof (zlen_nonneg s); lia).
  do 2 f_equal. lia.
Qed.

Lemma rev_at_app_0 s x : rev_at (s ++ x) (zlen s) = rev_at x 0.
Proof. rewrite <- (rev_at_app s x 0) by lia. by rewrite Z.add_0_r. Qed.

Lemma put_next g m v :
  put (g ++ repeat 0 (S m), zlen g) v = ((g ++ [v mod 256]) ++ repeat 0 m, zlen (g ++ [v mod 256])).
Proof.
  unfold put. simpl fst; simpl snd. unfold zlen. rewrite Nat2Z.id, insert_app_r_alt, Nat.sub_diag by lia.
  cbn. rewrite <- app_assoc, length_app. simpl. f_equal. lia.
Qed.


(** The bits of a group padded with one [=]. *)
Lemma tail2_bits t : 0 <= t < 65536 ->
  bor (bor ((t / 1024) << 10) ((t / 16 mod 64) << 4)) ((t * 4 mod 64) >> 2) = t.
Proof.
  intros Ht. rewrite !shl_small, shr_small by divmod.
  replace ((t / 1024) * 2 ^ 10) with ((t / 1024 * 64) * 2 ^ 4) by lia.
  unfold bor. rewrite (to_int32_small (_ * 2 ^ 4)), (to_int32_small (t / 16 mod 64 * 2 ^ 4)) by divmod.
  assert (Z.lor (t / 1024 * 64 * 2 ^ 4) (t / 16 mod 64 * 2 ^ 4) = t / 16 * 2 ^ 4) as ->.
  { replace (t / 1024 * 64 * 2 ^ 4) with (t / 1024 * 2 ^ 10) by lia.
    rewrite lor_disjoint by divmod. divmod. }
  rewrite !to_int32_small by divmod. rewrite lor_disjoint by divmod. divmod.
Qed.

(** Decoding inverts encoding, for every length of the input. *)
Lemma toByteArray_rfc4648 bs : bytes bs -> toByteArray (rfc4648 bs) = Ok bs.
Proof.
  intros Hb. destruct (groups_and_rest bs) as (g & t & -> & Hm & Ht).
  apply Forall_app in Hb as [Hg Ht'].
  rewrite rfc4648_app by done. pose proof (zlen_rfc4648_groups g Hm) as Hl.
  pose proof (zlen_nonneg g).
  destruct Ht as [->|[[a ->]|(a & b & ->)]]; unfold toByteArray.
  - rewrite app_nil_r, placeHoldersCount_ok by divmod.
    rewrite !bool_decide_false by (apply rfc4648_groups_last; done || lia).
    cbn [res_bind Z.gtb Z.compare Z.eqb].
    pose proof (decode_loop_prefix g [] (zlen g)) as Hd. rewrite !app_nil_r in Hd.
    replace (zlen (rfc4648 g) * 3 / 4 - 0) with (zlen g) by divmod.
    rewrite Hd by (done || lia). by rewrite Z.sub_diag.
  - apply bytes_cons in Ht' as [Ha _]. unfold is_byte in Ha.
    destruct (zget_last2 (rfc4648 g) (char64 (a / 4)) (char64 (a * 16 mod 64)) 61 61) as [E2 E1].
    assert (zlen (rfc4648 g ++ rfc4648 [a]) = zlen g / 3 * 4 + 4) as HL
      by (rewrite zlen_app, Hl; done).
    rewrite placeHoldersCount_ok by divmod. cbn [rfc4648] in *. rewrite E2.
    rewrite bool_decide_true by done. cbn [res_bind Z.gtb Z.compare Z.eqb Pos.compare Pos.compare_cont Pos.eqb].
    rewrite HL. replace ((zlen g / 3 * 4 + 4) * 3 / 4 - 2) with (zlen g + 1) by divmod.
    replace (zlen g / 3 * 4 + 4 - 4) with (zlen (rfc4648 g)) by lia.
    rewrite decode_loop_prefix by (done || lia).
    rewrite rev_at_app_0, !rev_at_app by lia. unfold rev_at.
    change (zget _ 0) with (Some (char64 (a / 4))).
    change (zget _ 1) with (Some (char64 (a * 16 mod 64))).
    rewrite !revLookup_char64 by divmod. rewrite shl_small, shr_small by divmod.
    replace (Z.to_nat (zlen g + 1 - zlen g)) with 1%nat by lia. rewrite put_next.
    cbn [fst repeat]. rewrite app_nil_r. do 3 f_equal.
    change (2 ^ 2) with 4. rewrite bor_disjoint with (n := 2) by divmod.
    rewrite band_255. rewrite Z.mod_mod by lia. change (2 ^ 4) with 16. divmod.
  - apply bytes_cons in Ht' as [Ha Ht']. apply bytes_cons in Ht' as [Hb _]. unfold is_byte in *.
    set (t := a * 256 + b).
    destruct (zget_last2 (rfc4648 g) (char64 (t / 1024)) (char64 (t / 16 mod 64)) (char64 (t * 4 mod 64)) 61)
      as [E2 E1].
    assert (zlen (rfc4648 g ++ rfc4648 [a; b]) = zlen g / 3 * 4 + 4) as HL
      by (rewrite zlen_app, Hl; done).
    rewrite placeHoldersCount_ok by divmod. cbn [rfc4648] in *. fold t in HL |- *. rewrite E2, E1.
    rewrite bool_decide_false by (intros [= E]; apply char64_not_pad in E; [done|subst t; divmod]).
    rewrite bool_decide_true by done. cbn [res_bind Z.gtb Z.compare Z.eqb Pos.compare Pos.compare_cont Pos.eqb].
    rewrite HL. replace ((zlen g / 3 * 4 + 4) * 3 / 4 - 1) with (zlen g + 2) by divmod.
    replace (zlen g / 3 * 4 + 4 - 4) with (zlen (rfc4648 g)) by lia.
    rewrite decode_loop_prefix by (done || lia).
    rewrite rev_at_app_0, !rev_at_app by lia. unfold rev_at.
    change (zget _ 0) with (Some (char64 (t / 1024))).
    change (zget _ 1) with (Some (char64 (t / 16 mod 64))).
    change (zget _ 2) with (Some (char64 (t * 4 mod 64))).
    rewrite !revLookup_char64 by (subst t; divmod).
    replace (Z.to_nat (zlen g + 2 - zlen g)) with 2%nat by lia.
    rewrite tail2_bits by (subst t; lia).
    rewrite !put_next. cbn [fst repeat]. rewrite app_nil_r, <- app_assoc.
    rewrite !band_255, shr_small by (subst t; lia). change (2 ^ 8) with 256.
    rewrite !Z.mod_mod by lia.
    replace (t / 256 mod 256) with a by (subst t; divmod).
    by replace (t mod 256) with b by (subst t; divmod).
Qed.

(** *** Shape of the decoder's result *)

(** A Uint8Array of a fixed length under construction. *)
Definition u8 (n : Z) (st : list Z * Z) : Prop := zlen st.1 = n /\ bytes st.1.

Lemma put_u8 n st v : u8 n st -> u8 n (put st v).
Proof.
  intros [Hl Hb]. split; unfold put; simpl.
  - unfold zlen. by rewrite length_insert.
  - apply Forall_elem. intros x Hx. apply list_elem_of_lookup in Hx as [j Hj].
    apply list_lookup_insert_Some in Hj as [(<- & <- & ?)|[? Hj]].
    + unfold is_byte. apply Z.mod_pos_bound. lia.
    + unfold bytes in Hb. rewrite Forall_elem in Hb. eapply Hb, list_elem_of_lookup_2, Hj.
Qed.
#[export] Hint Resolve put_u8 : js.

Lemma decode_loop_u8 n fuel s i l st : u8 n st -> u8 n (decode_loop fuel s i l st).2.
Proof.
  revert i st. induction fuel as [|fuel IH]; intros i st Hst; simpl; [done|].
  destruct (i <? l); [|done]. apply IH. auto with js.
Qed.

Lemma repeat_u8 n : 0 <= n -> u8 n (repeat 0 (Z.to_nat n), 0).
Proof.
  intros Hn. split; simpl.
  - unfold zlen. rewrite repeat_length. lia.
  - apply Forall_elem. intros x Hx. apply list_elem_of_In, repeat_spec in Hx as ->.
    unfold is_byte. lia.
Qed.

Lemma placeHoldersCount_range s p : placeHoldersCount s = Ok p -> 0 <= p /\ p <= zlen s * 3 / 4.
Proof.
  unfold placeHoldersCount. destruct (zlen s mod 4 >? 0) eqn:E; [done|].
  rewrite Z.gtb_ltb in E. apply Z.ltb_ge in E. pose proof (zlen_nonneg s).
  case_bool_decide as E2; [|case_bool_decide as E1]; intros [= <-].
  - apply zget_Some in E2. divmod.
  - apply zget_Some in E1. divmod.
  - divmod.
Qed.

(** For every byte string, decoding the base64 text that
    [fromByteArray] produces gives the byte string back. *)
Theorem toByteArray_fromByteArray bs :
  bytes bs -> toByteArray (fromByteArray bs) = Ok bs.
Proof. intros Hb. rewrite fromByteArray_spec by done. by apply toByteArray_rfc4648. Qed.

Lemma toByteArray_fromByteArray_witness :
  bytes [77; 97; 110; 255] /\ toByteArray (fromByteArray [77; 97; 110; 255]) = Ok [77; 97; 110; 255].
Proof.
  assert (bytes [77; 97; 110; 255]) as H by (repeat constructor; unfold is_byte; lia).
  split; [exact H|]. apply (toByteArray_fromByteArray _ H).
Defined.

(** (equivalence): the encoder, which works in chunks of 16383 bytes and
    treats the last incomplete group apart, computes the RFC 4648 encoding
    defined group by group. *)
Theorem fromByteArray_rfc4648 bs : bytes bs -> fromByteArray bs = rfc4648 bs.
Proof. apply fromByteArray_spec. Qed.

Lemma fromByteArray_rfc4648_witness :
  bytes [0; 255; 16; 1] /\ fromByteArray [0; 255; 16; 1] = rfc4648 [0; 255; 16; 1].
Proof.
  assert (bytes [0; 255; 16; 1]) as H by (repeat constructor; unfold is_byte; lia).
  split; [exact H|]. apply (fromByteArray_rfc4648 _ H).
Defined.

(** (errors and bounds): [toByteArray] throws exactly on a text whose length
    is not a multiple of 4, with the module's message, and otherwise returns
    an array of bytes of the length that [byteLength] announces. *)
Theorem toByteArray_result s :
  match toByteArray s with
  | Ok arr => zlen s mod 4 = 0 /\ byteLength s = Ok (zlen arr) /\ bytes arr
  | Err e => zlen s mod 4 <> 0
             /\ e = PlainError (u "Invalid string. Length must be a multiple of 4")
             /\ byteLength s = Err e
  end.
Proof.
  unfold toByteArray, byteLength. pose proof (Z.mod_pos_bound (zlen s) 4 ltac:(lia)).
  destruct (placeHoldersCount s) as [p|e] eqn:Ep; cbn [res_bind].
  - pose proof (placeHoldersCount_range s p Ep).
    pose proof (repeat_u8 (zlen s * 3 / 4 - p) ltac:(lia)) as Hu.
    apply (decode_loop_u8 _ (length s) s 0 (if p >? 0 then zlen s - 4 else zlen s)) in Hu.
    destruct (decode_loop _ _ _ _ _) as [i st]; simpl in Hu.
    split.
    { unfold placeHoldersCount in Ep. destruct (zlen s mod 4 >? 0) eqn:E; [done|].
      rewrite Z.gtb_ltb in E. apply Z.ltb_ge in E. lia. }
    set (st' := if p =? 2 then _ else _).
    assert (u8 (zlen s * 3 / 4 - p) st') as [-> Hb]; [|done].
    subst st'. destruct (p =? 2); [auto with js|]. destruct (p =? 1); auto with js.
  - unfold placeHoldersCount in Ep. destruct (zlen s mod 4 >? 0) eqn:E; [|done].
    injection Ep as <-. apply Z.gtb_lt in E. split; [lia|done].
Qed.
