(* ===== verification/YamlBinary.v ===== *)
(** The [tag:yaml.org,2002:binary] type of js-yaml: its own base64 reader and
    writer over 32-bit shifts. *)

From Stdlib Require Import ZArith Lia List String Bool.
From stdpp Require Import base list list_numbers tactics.
From S2P Require Import Prelude JsNum Js Int32 Base64.

#[local] Open Scope js32_scope.

(** [64, 65, 66] -> [padding, CR, LF] *)
Definition BASE64_MAP : jstr := code ++ [61; 10; 13].

(** The loop of [resolveYamlBinary] from one index to the end: [None] on an
    illegal character, otherwise the accumulated [bitlen]. *)
Fixpoint resolve_binary_loop (data : jstr) (bitlen : Z) : option Z :=
  match data with
  | [] => Some bitlen
  | c :: data =>
      let cd := index_of c BASE64_MAP in
      if cd >? 64 then resolve_binary_loop data bitlen
      else if cd <? 0 then None
      else resolve_binary_loop data (bitlen + 6)
  end.

Definition resolveYamlBinary (data : option jstr) : bool :=
  match data with
  | None => false
  | Some data =>
      match resolve_binary_loop data 0 with
      | Some bitlen => bitlen mod 8 =? 0
      | None => false
      end
  end.

(** The three bytes of a complete group. *)
Definition push3 (bits : Z) : list Z :=
  [band (bits >> 16) 255; band (bits >> 8) 255; band bits 255].

(** The scan of [constructYamlBinary] over the input, from index [idx]:
    [result] and [bits] after the loop. *)
Fixpoint construct_binary_loop (input : jstr) (idx bits : Z) (result : list Z) : list Z * Z :=
  match input with
  | [] => (result, bits)
  | c :: input =>
      let result := if (idx mod 4 =? 0) && negb (idx =? 0) then result ++ push3 bits else result in
      let bits := bor (bits << 6) (index_of c BASE64_MAP) in
      construct_binary_loop input (idx + 1) bits result
  end.

Definition constructYamlBinary (data : jstr) : list Z :=
  let input := List.filter (fun c => negb ((c =? 13) || (c =? 10) || (c =? 61))) data in
  let '(result, bits) := construct_binary_loop input 0 0 [] in
  let tailbits := zlen input mod 4 * 6 in
  if tailbits =? 0 then result ++ push3 bits
  else if tailbits =? 18 then
    result ++ [band (bits >> 10) 255; band (bits >> 2) 255]
  else if tailbits =? 12 then
    result ++ [band (bits >> 4) 255]
  else result.

(** [map[i]] for a masked index. *)
Definition map64 (i : Z) : jstr := match zget BASE64_MAP i with Some c => [c] | None => u "undefined" end.

(** The four characters of a complete group. *)
Definition emit4 (bits : Z) : jstr :=
  map64 (band (bits >> 18) 63) ++ map64 (band (bits >> 12) 63)
  ++ map64 (band (bits >> 6) 63) ++ map64 (band bits 63).

Fixpoint represent_binary_loop (object : list Z) (idx bits : Z) (result : jstr) : jstr * Z :=
  match object with
  | [] => (result, bits)
  | b :: object =>
      let result := if (idx mod 3 =? 0) && negb (idx =? 0) then result ++ emit4 bits else result in
      let bits := (bits << 8) + b in
      represent_binary_loop object (idx + 1) bits result
  end.

Definition representYamlBinary (object : list Z) : jstr :=
  let '(result, bits) := represent_binary_loop object 0 0 [] in
  let tail := zlen object mod 3 in
  if tail =? 0 then result ++ emit4 bits
  else if tail =? 2 then
    result ++ map64 (band (bits >> 10) 63) ++ map64 (band (bits >> 4) 63)
    ++ map64 (band (bits << 2) 63) ++ map64 64
  else if tail =? 1 then
    result ++ map64 (band (bits >> 2) 63) ++ map64 (band (bits << 4) 63) ++ map64 64 ++ map64 64
  else result.

(** ** The characters of the map *)

Lemma map64_char i : 0 <= i < 64 -> map64 i = [char64 i].
Proof.
  intros Hi. unfold map64, BASE64_MAP, char64. rewrite zget_app_l by (rewrite zlen_code; lia).
  by destruct (zget_lt code i) as [x ->]; [rewrite zlen_code|].
Qed.

Lemma index_map_char i : 0 <= i < 64 -> index_of (char64 i) BASE64_MAP = i.
Proof.
  intros Hi. apply index_of_zget.
  - apply (bool_decide_unpack _). by vm_compute.
  - unfold BASE64_MAP, char64. rewrite zget_app_l by (rewrite zlen_code; lia).
    by destruct (zget_lt code i) as [x ->]; [rewrite zlen_code|].
Qed.

(** Which bits of the accumulator reach the output. *)
Lemma emit4_bits bits t :
  bits mod 2 ^ 24 = t ->
  emit4 bits = [char64 (t / 262144); char64 (t / 4096 mod 64); char64 (t / 64 mod 64); char64 (t mod 64)].
Proof.
  intros Ht. assert (0 <= t < 2 ^ 24) by (subst; apply Z.mod_pos_bound; lia).
  unfold emit4. rewrite !band_63. change 64 with (2 ^ 6).
  rewrite !shr_mod, !(bits_window bits t 24) by (done || lia).
  replace (bits mod 2 ^ 6) with (t mod 2 ^ 6).
  2: { subst. apply Z.mod_mod_divide. by exists (2 ^ 18). }
  change (2 ^ 18) with 262144. change (2 ^ 12) with 4096. change (2 ^ 6) with 64.
  rewrite (Z.mod_small (t / 262144)) by divmod.
  by rewrite !map64_char by divmod.
Qed.

Lemma push3_bits bits t :
  bits mod 2 ^ 24 = t -> push3 bits = [t / 65536; t / 256 mod 256; t mod 256].
Proof.
  intros Ht. assert (0 <= t < 2 ^ 24) by (subst; apply Z.mod_pos_bound; lia).
  unfold push3. rewrite !band_255. change 256 with (2 ^ 8).
  rewrite !shr_mod, !(bits_window bits t 24) by (done || lia).
  replace (bits mod 2 ^ 8) with (t mod 2 ^ 8).
  2: { subst. apply Z.mod_mod_divide. by exists (2 ^ 16). }
  change (2 ^ 16) with 65536. change (2 ^ 8) with 256.
  by rewrite (Z.mod_small (t / 65536)) by divmod.
Qed.

(** The tail of [representYamlBinary], after the loop. *)
Definition represent_tail (st : jstr * Z) (max : Z) : jstr :=
  let '(result, bits) := st in
  let tail := max mod 3 in
  if tail =? 0 then result ++ emit4 bits
  else if tail =? 2 then
    result ++ map64 (band (bits >> 10) 63) ++ map64 (band (bits >> 4) 63)
    ++ map64 (band (bits << 2) 63) ++ map64 64
  else if tail =? 1 then
    result ++ map64 (band (bits >> 2) 63) ++ map64 (band (bits << 4) 63) ++ map64 64 ++ map64 64
  else result.

(** The text already written when a new group starts. *)
Definition flushed (idx bits : Z) (result : jstr) : jstr :=
  if idx =? 0 then result else result ++ emit4 bits.

Lemma flush_if idx bits result :
  idx mod 3 = 0 ->
  (if (idx mod 3 =? 0) && negb (idx =? 0) then result ++ emit4 bits else result) = flushed idx bits result.
Proof. intros ->. unfold flushed. by destruct (idx =? 0). Qed.

Lemma no_flush idx bits result :
  idx mod 3 <> 0 ->
  (if (idx mod 3 =? 0) && negb (idx =? 0) then result ++ emit4 bits else result) = result.
Proof. intros H. apply Z.eqb_neq in H. by rewrite H. Qed.

Lemma tail2_chars bits t :
  0 <= t < 65536 -> bits mod 2 ^ 16 = t ->
  map64 (band (bits >> 10) 63) ++ map64 (band (bits >> 4) 63) ++ map64 (band (bits << 2) 63) ++ map64 64
  = [char64 (t / 1024); char64 (t / 16 mod 64); char64 (t * 4 mod 64); 61].
Proof.
  intros Hr Ht. rewrite !band_63. change 64 with (2 ^ 6) at 1 2 3.
  rewrite !shr_mod, shl_mod, !(bits_window bits t 16) by (done || lia).
  replace ((bits * 2 ^ 2) mod 2 ^ 6) with (t * 4 mod 64) by (subst; change (2 ^ 16) with 65536; divmod).
  change (2 ^ 10) with 1024. change (2 ^ 4) with 16. change (2 ^ 6) with 64.
  rewrite (Z.mod_small (t / 1024)) by divmod. by rewrite !map64_char by divmod.
Qed.

Lemma tail1_chars bits a :
  is_byte a -> bits mod 2 ^ 8 = a ->
  map64 (band (bits >> 2) 63) ++ map64 (band (bits << 4) 63) ++ map64 64 ++ map64 64
  = [char64 (a / 4); char64 (a * 16 mod 64); 61; 61].
Proof.
  unfold is_byte. intros Hr Ht. rewrite !band_63. change 64 with (2 ^ 6) at 1 2.
  rewrite !shr_mod, shl_mod, !(bits_window bits a 8) by (done || lia).
  replace ((bits * 2 ^ 4) mod 2 ^ 6) with (a * 16 mod 64) by (subst; change (2 ^ 8) with 256; divmod).
  change (2 ^ 2) with 4. change (2 ^ 6) with 64.
  rewrite (Z.mod_small (a / 4)) by divmod. by rewrite !map64_char by divmod.
Qed.

(** The accumulator after two and after three bytes. *)
Lemma group_bits c bits a b :
  0 <= a < 256 -> 0 <= b < 256 -> 0 <= c < 256 ->
  ((((bits << 8) + a) << 8) + b) mod 2 ^ 16 = a * 256 + b
  /\ ((((((bits << 8) + a) << 8) + b) << 8) + c) mod 2 ^ 24 = a * 65536 + b * 256 + c.
Proof.
  intros Ha Hb Hc.
  assert (((bits << 8) + a) mod 2 ^ 8 = a) as H1
    by (apply (acc_step bits 0 8 a 0); [lia..|apply Z.mod_1_r|done]).
  pose proof (acc_step _ _ 8 b 8 ltac:(lia) ltac:(lia) ltac:(lia) H1 Hb) as H2.
  split; [done|]. change (2 ^ 24) with (2 ^ (16 + 8)). rewrite (acc_step _ _ 8 c 16 ltac:(lia) ltac:(lia) ltac:(lia) H2 Hc). lia.
Qed.

Lemma represent_loop_spec l idx bits result :
  l <> [] -> bytes l -> 0 <= idx -> idx mod 3 = 0 ->
  represent_tail (represent_binary_loop l idx bits result) (idx + zlen l)
  = flushed idx bits result ++ rfc4648 l.
Proof.
  revert idx bits result.
  induction l as [|a|a b|a b c l IH] using list_ind3; intros idx bits result Hl Hb Hi Hm; [done|..];
    cbn [represent_binary_loop]; rewrite (flush_if idx) by done.
  - apply bytes_cons in Hb as [Ha _]. unfold represent_tail.
    replace ((idx + zlen [a]) mod 3) with 1 by (unfold zlen; cbn [length]; divmod).
    cbn [Z.eqb Pos.eqb]. f_equal. rewrite (tail1_chars _ a); [done..|].
    apply (acc_step bits 0 8 a 0); [lia..|apply Z.mod_1_r|done].
  - rewrite !bytes_cons in Hb. destruct Hb as (Ha & Hb & _). unfold is_byte in *.
    rewrite no_flush by divmod. unfold represent_tail.
    replace ((idx + zlen [a; b]) mod 3) with 2 by (unfold zlen; cbn [length]; divmod).
    cbn [Z.eqb Pos.eqb]. f_equal. rewrite (tail2_chars _ (a * 256 + b)); [done|lia|].
    by apply (group_bits 0 bits a b).
  - rewrite !bytes_cons in Hb. destruct Hb as (Ha & Hb & Hc & Hbs). unfold is_byte in *.
    rewrite !no_flush by divmod.
    set (bits' := _ + c). assert (bits' mod 2 ^ 24 = a * 65536 + b * 256 + c) as Hbits
      by by apply (group_bits c bits a b).
    destruct l as [|x l'] eqn:El.
    + unfold represent_tail. cbn [represent_binary_loop rfc4648].
      replace ((idx + zlen [a; b; c]) mod 3) with 0 by (unfold zlen; cbn [length]; divmod).
      cbn [Z.eqb]. f_equal. by apply emit4_bits.
    + rewrite <- El in *. replace (idx + zlen (a :: b :: c :: l)) with (idx + 1 + 1 + 1 + zlen l)
        by (rewrite !zlen_cons; lia).
      rewrite IH by (subst; done || lia || divmod). unfold flushed at 1.
      replace (idx + 1 + 1 + 1 =? 0) with false by (symmetry; apply Z.eqb_neq; lia).
      rewrite (emit4_bits _ _ Hbits). cbn [rfc4648]. by rewrite <- app_assoc.
Qed.

(** ** Reading back *)

(** [data.replace(/[\r\n=]/g, '')]. *)
Definition strip (data : jstr) : jstr :=
  List.filter (fun c => negb ((c =? 13) || (c =? 10) || (c =? 61))) data.

Lemma strip_char i s : 0 <= i < 64 -> strip (char64 i :: s) = char64 i :: strip s.
Proof.
  intros Hi. destruct (code_plain _ (char64_in i Hi)) as (H1 & _ & _ & H2 & H3).
  unfold strip. cbn [List.filter]. by rewrite !(proj2 (Z.eqb_neq _ _)) by done.
Qed.

Lemma strip_pad s : strip (61 :: s) = strip s.
Proof. done. Qed.

(** The tail of [constructYamlBinary], after the loop. *)
Definition construct_tail (st : list Z * Z) (max : Z) : list Z :=
  let '(result, bits) := st in
  let tailbits := max mod 4 * 6 in
  if tailbits =? 0 then result ++ push3 bits
  else if tailbits =? 18 then result ++ [band (bits >> 10) 255; band (bits >> 2) 255]
  else if tailbits =? 12 then result ++ [band (bits >> 4) 255]
  else result.

Lemma constructYamlBinary_tail data :
  constructYamlBinary data
  = construct_tail (construct_binary_loop (strip data) 0 0 []) (zlen (strip data)).
Proof. done. Qed.

Definition flushed3 (idx bits : Z) (result : list Z) : list Z :=
  if idx =? 0 then result else result ++ push3 bits.

Lemma flush3_if idx bits result :
  idx mod 4 = 0 ->
  (if (idx mod 4 =? 0) && negb (idx =? 0) then result ++ push3 bits else result) = flushed3 idx bits result.
Proof. intros ->. unfold flushed3. by destruct (idx =? 0). Qed.

Lemma no_flush3 idx bits result :
  idx mod 4 <> 0 ->
  (if (idx mod 4 =? 0) && negb (idx =? 0) then result ++ push3 bits else result) = result.
Proof. intros H. apply Z.eqb_neq in H. by rewrite H. Qed.

(** The accumulator after two, three and four sextets. *)
Lemma sextet_bits bits a b c d :
  0 <= a < 64 -> 0 <= b < 64 -> 0 <= c < 64 -> 0 <= d < 64 ->
  let b1 := bor (bits << 6) a in let b2 := bor (b1 << 6) b in
  let b3 := bor (b2 << 6) c in let b4 := bor (b3 << 6) d in
  b2 mod 2 ^ 12 = a * 64 + b /\ b3 mod 2 ^ 18 = a * 4096 + b * 64 + c
  /\ b4 mod 2 ^ 24 = a * 262144 + b * 4096 + c * 64 + d.
Proof.
  intros Ha Hb Hc Hd b1 b2 b3 b4.
  subst b1 b2 b3 b4. rewrite !bor_shl by lia.
  assert (((bits << 6) + a) mod 2 ^ 6 = a) as H1
    by (apply (acc_step bits 0 6 a 0); [lia..|apply Z.mod_1_r|done]).
  pose proof (acc_step _ _ 6 b 6 ltac:(lia) ltac:(lia) ltac:(lia) H1 Hb) as H2.
  pose proof (acc_step _ _ 6 c 12 ltac:(lia) ltac:(lia) ltac:(lia) H2 Hc) as H3.
  pose proof (acc_step _ _ 6 d 18 ltac:(lia) ltac:(lia) ltac:(lia) H3 Hd) as H4.
  split; [done|]. split.
  - change (2 ^ 18) with (2 ^ (12 + 6)). rewrite H3. lia.
  - change (2 ^ 24) with (2 ^ (18 + 6)). rewrite H4. lia.
Qed.

Lemma window_255 bits t m n :
  0 <= n < 32 -> n + 8 <= m <= 32 -> bits mod 2 ^ m = t -> band (bits >> n) 255 = t / 2 ^ n mod 256.
Proof.
  intros Hn Hm Ht. rewrite band_255. change 256 with (2 ^ 8).
  by rewrite shr_mod, (bits_window bits t m) by (done || lia).
Qed.

Lemma construct_loop_spec l idx bits result :
  l <> [] -> bytes l -> 0 <= idx -> idx mod 4 = 0 ->
  construct_tail (construct_binary_loop (strip (rfc4648 l)) idx bits result)
    (idx + zlen (strip (rfc4648 l)))
  = flushed3 idx bits result ++ l.
Proof.
  revert idx bits result.
  induction l as [|a|a b|a b c l IH] using list_ind3; intros idx bits result Hl Hb Hi Hm; [done|..];
    rewrite !bytes_cons in Hb; unfold is_byte in Hb; cbn [rfc4648].
  - rewrite !strip_char, !strip_pad by divmod. cbn [strip List.filter construct_binary_loop].
    rewrite (flush3_if idx), no_flush3, !index_map_char by divmod.
    destruct (sextet_bits bits (a / 4) (a * 16 mod 64) 0 0) as [H2 _]; [divmod..|].
    unfold construct_tail. replace ((idx + zlen _) mod 4) with 2 by (unfold zlen; cbn [length]; divmod).
    cbn [Z.mul Pos.mul Z.eqb Pos.eqb]. f_equal. rewrite (window_255 _ _ 12 4 ltac:(lia) ltac:(lia) H2).
    f_equal. change (2 ^ 4) with 16. divmod.
  - assert (0 <= a * 256 + b < 65536) by lia. set (t := a * 256 + b) in *.
    rewrite !strip_char, !strip_pad by divmod. cbn [strip List.filter construct_binary_loop].
    rewrite (flush3_if idx), !no_flush3, !index_map_char by divmod.
    destruct (sextet_bits bits (t / 1024) (t / 16 mod 64) (t * 4 mod 64) 0) as (_ & H3 & _); [divmod..|].
    unfold construct_tail. replace ((idx + zlen _) mod 4) with 3 by (unfold zlen; cbn [length]; divmod).
    cbn [Z.mul Pos.mul Z.eqb Pos.eqb]. f_equal.
    rewrite (window_255 _ _ 18 10 ltac:(lia) ltac:(lia) H3), (window_255 _ _ 18 2 ltac:(lia) ltac:(lia) H3).
    change (2 ^ 10) with 1024. change (2 ^ 2) with 4.
    replace (t / 1024 * 4096 + t / 16 mod 64 * 64 + t * 4 mod 64) with (t * 4) by divmod.
    subst t. repeat f_equal; divmod.
  - assert (0 <= a * 65536 + b * 256 + c < 2 ^ 24) by lia. set (t := a * 65536 + b * 256 + c) in *.
    rewrite !strip_char by divmod. cbn [construct_binary_loop].
    rewrite (flush3_if idx), !no_flush3, !index_map_char by divmod.
    destruct (sextet_bits bits (t / 262144) (t / 4096 mod 64) (t / 64 mod 64) (t mod 64))
      as (_ & _ & H4); [divmod..|].
    set (bits' := bor _ (t mod 64)) in *.
    replace (t / 262144 * 262144 + t / 4096 mod 64 * 4096 + t / 64 mod 64 * 64 + t mod 64)
      with t in H4 by divmod.
    destruct l as [|x l'] eqn:El.
    + cbn [rfc4648 strip List.filter construct_binary_loop]. unfold construct_tail.
      replace ((idx + zlen _) mod 4) with 0 by (unfold zlen; cbn [length]; divmod).
      cbn [Z.mul Z.eqb]. f_equal. rewrite (push3_bits _ _ H4). subst t. repeat f_equal; divmod.
    + rewrite <- El in *. rewrite !zlen_cons.
      replace (idx + (zlen (strip (rfc4648 l)) + 1 + 1 + 1 + 1))
        with (idx + 1 + 1 + 1 + 1 + zlen (strip (rfc4648 l))) by lia.
      rewrite IH; [|by rewrite El|tauto|lia|divmod]. unfold flushed3 at 1.
      replace (idx + 1 + 1 + 1 + 1 =? 0) with false by (symmetry; apply Z.eqb_neq; lia).
      rewrite (push3_bits _ _ H4), <- app_assoc. f_equal. simpl. subst t. repeat f_equal; divmod.
Qed.

Lemma resolve_binary_loop_rfc4648 l n :
  bytes l -> resolve_binary_loop (rfc4648 l) n = Some (n + 6 * zlen (rfc4648 l)).
Proof.
  revert n. assert (forall i, 0 <= i < 64 -> forall s n,
    resolve_binary_loop (char64 i :: s) n = resolve_binary_loop s (n + 6)) as Hc.
  { intros i Hi s n. cbn [resolve_binary_loop]. rewrite index_map_char by done. cbv zeta.
    rewrite Z.gtb_ltb, !(proj2 (Z.ltb_ge _ _)) by lia. done. }
  assert (forall s n, resolve_binary_loop (61 :: s) n = resolve_binary_loop s (n + 6)) as Hp by done.
  induction l as [|a|a b|a b c l IH] using list_ind3; intros n Hb;
    rewrite ?bytes_cons in Hb; unfold is_byte in Hb; cbn [rfc4648].
  - unfold zlen. simpl. f_equal. lia.
  - rewrite !Hc, !Hp by divmod. unfold zlen. simpl. f_equal. lia.
  - rewrite !Hc, !Hp by divmod. unfold zlen. simpl. f_equal. lia.
  - rewrite !Hc by divmod. rewrite IH by tauto. rewrite !zlen_cons. f_equal. lia.
Qed.

Lemma zlen_rfc4648 l : zlen (rfc4648 l) mod 4 = 0.
Proof.
  induction l as [|a|a b|a b c l IH] using list_ind3; try done.
  cbn [rfc4648]. rewrite !zlen_cons. divmod.
Qed.

(** ** Properties *)

(** On a non-empty byte string [representYamlBinary] writes
    the same text as the base64 codec of the buffer module. *)
Theorem representYamlBinary_base64 bs :
  bytes bs -> bs <> [] -> representYamlBinary bs = fromByteArray bs.
Proof.
  intros Hb Hne. rewrite fromByteArray_spec by done.
  apply (represent_loop_spec bs 0 0 []); done.
Qed.

Lemma representYamlBinary_base64_witness :
  bytes [255; 254] /\ [255; 254] <> [] /\ representYamlBinary [255; 254] = fromByteArray [255; 254].
Proof.
  assert (bytes [255; 254]) as H by (repeat constructor; unfold is_byte; lia).
  split; [exact H|]. split; [discriminate|]. apply (representYamlBinary_base64 _ H). discriminate.
Defined.

(** (round trip, with its exception): what [representYamlBinary] writes is
    accepted by [resolveYamlBinary], and [constructYamlBinary] reads the byte
    string back, except that the empty byte string comes back as three zero
    bytes. *)
Theorem constructYamlBinary_represent bs :
  bytes bs ->
  resolveYamlBinary (Some (representYamlBinary bs)) = true
  /\ constructYamlBinary (representYamlBinary bs) = (match bs with [] => [0; 0; 0] | _ => bs end).
Proof.
  intros Hb. destruct (decide (bs = [])) as [->|Hne]; [done|].
  assert (representYamlBinary bs = rfc4648 bs) as ->
    by (apply (represent_loop_spec bs 0 0 []); done).
  split.
  - simpl. rewrite resolve_binary_loop_rfc4648 by done. apply Z.eqb_eq.
    pose proof (zlen_rfc4648 bs). divmod.
  - rewrite constructYamlBinary_tail.
    change (zlen (strip (rfc4648 bs))) with (0 + zlen (strip (rfc4648 bs))).
    rewrite construct_loop_spec by done. by destruct bs.
Qed.

Lemma constructYamlBinary_represent_witness :
  bytes [1; 2; 3; 4]
  /\ resolveYamlBinary (Some (representYamlBinary [1; 2; 3; 4])) = true
  /\ constructYamlBinary (representYamlBinary [1; 2; 3; 4]) = [1; 2; 3; 4].
Proof.
  assert (bytes [1; 2; 3; 4]) as H by (repeat constructor; unfold is_byte; lia).
  split; [exact H|]. apply (constructYamlBinary_represent _ H).
Defined.
