(* ===== verification/Regex.v ===== *)
(** Regular expressions: the patterns that the code tests texts with, matched by
    derivatives, and their language. *)

From Stdlib Require Import ZArith Lia List String Bool.
From stdpp Require Import base list sets list_numbers tactics.
From S2P Require Import Prelude JsNum Js.

(** A set of characters is a list of ranges. *)
Inductive re :=
| RNone
| REmpty
| RSet (ranges : list (Z * Z))
| RCat (a b : re)
| RAlt (a b : re)
| RStar (a : re).

#[export] Instance re_eq_dec : EqDecision re.
Proof. solve_decision. Defined.

Definition in_ranges (l : list (Z * Z)) (c : Z) : bool :=
  existsb (fun r => (r.1 <=? c) && (c <=? r.2)) l.

(** [c], [[a-b]], [r?], [r+] and a literal. *)
Definition rc (c : Z) : re := RSet [(c, c)].
Definition ropt (r : re) : re := RAlt r REmpty.
Definition rplus (r : re) : re := RCat r (RStar r).
Fixpoint rcat (l : list re) : re := match l with [] => REmpty | r :: l => RCat r (rcat l) end.
Fixpoint ralt (l : list re) : re := match l with [] => RNone | [r] => r | r :: l => RAlt r (ralt l) end.
Definition rlit (s : jstr) : re := rcat (map rc s).

Fixpoint nullable (r : re) : bool :=
  match r with
  | RNone | RSet _ => false
  | REmpty => true
  | RCat a b => nullable a && nullable b
  | RAlt a b => nullable a || nullable b
  | RStar _ => true
  end.

Fixpoint deriv (c : Z) (r : re) : re :=
  match r with
  | RNone | REmpty => RNone
  | RSet l => if in_ranges l c then REmpty else RNone
  | RCat a b => if nullable a then RAlt (RCat (deriv c a) b) (deriv c b) else RCat (deriv c a) b
  | RAlt a b => RAlt (deriv c a) (deriv c b)
  | RStar a => RCat (deriv c a) (RStar a)
  end.

(** [/^r$/.test(s)]. *)
Fixpoint rmatch (r : re) (s : jstr) : bool :=
  match s with [] => nullable r | c :: s => rmatch (deriv c r) s end.

(** [/^r/.test(s)]: some prefix matches. *)
Fixpoint rprefix (r : re) (s : jstr) : bool :=
  nullable r || match s with [] => false | c :: s => rprefix (deriv c r) s end.

(** The texts that a pattern describes. *)
Inductive lang : re -> jstr -> Prop :=
| lang_empty : lang REmpty []
| lang_set l c : in_ranges l c = true -> lang (RSet l) [c]
| lang_cat a b s t : lang a s -> lang b t -> lang (RCat a b) (s ++ t)
| lang_alt_l a b s : lang a s -> lang (RAlt a b) s
| lang_alt_r a b s : lang b s -> lang (RAlt a b) s
| lang_star_nil a : lang (RStar a) []
| lang_star_cons a s t : lang a s -> lang (RStar a) t -> lang (RStar a) (s ++ t).
#[export] Hint Constructors lang : js.

Lemma lang_cat_inv a b s : lang (RCat a b) s -> exists s1 s2, s = s1 ++ s2 /\ lang a s1 /\ lang b s2.
Proof. intros H; inversion H; subst; eauto. Qed.

Lemma nullable_lang r : nullable r = true <-> lang r [].
Proof.
  induction r as [| |l|a IHa b IHb|a IHa b IHb|a IHa]; simpl.
  - split; [done|intros H; inversion H].
  - split; auto with js.
  - split; [done|intros H; inversion H].
  - rewrite andb_true_iff, IHa, IHb. split.
    + intros [Ha Hb]. exact (lang_cat a b [] [] Ha Hb).
    + intros (s & t & Hst & Ha & Hb)%lang_cat_inv. symmetry in Hst.
      apply app_eq_nil in Hst as [-> ->]. done.
  - rewrite orb_true_iff, IHa, IHb. split; [intros [?|?]; auto with js|intros H; inversion H; auto].
  - split; auto with js.
Qed.

(** A non-empty text of [a*] starts with a non-empty text of [a]. *)
Lemma lang_star_inv a c s :
  lang (RStar a) (c :: s) -> exists s1 s2, s = s1 ++ s2 /\ lang a (c :: s1) /\ lang (RStar a) s2.
Proof.
  remember (RStar a) as r eqn:Er. remember (c :: s) as cs eqn:Es. intros H.
  induction H as [| | | | | |a' s1 t H1 _ H2 IH2]; try discriminate.
  injection Er as ->. destruct s1 as [|x s1]; [by apply IH2|].
  injection Es as -> <-. by exists s1, t.
Qed.

Lemma deriv_lang c r s : lang (deriv c r) s <-> lang r (c :: s).
Proof.
  revert s; induction r as [| |l|a IHa b IHb|a IHa b IHb|a IHa]; intros s; simpl.
  - split; intros H; inversion H.
  - split; intros H; inversion H.
  - destruct (in_ranges l c) eqn:E; (split; intros H; inversion H; subst; auto with js; congruence).
  - assert (lang (RCat (deriv c a) b) s <-> exists s1 s2, s = s1 ++ s2 /\ lang a (c :: s1) /\ lang b s2) as Hcat.
    { split; [intros (s1 & s2 & -> & H1 & H2)%lang_cat_inv; apply IHa in H1; eauto|].
      intros (s1 & s2 & -> & H1%IHa & H2). by constructor. }
    assert (lang (RCat a b) (c :: s)
            <-> (exists s1 s2, s = s1 ++ s2 /\ lang a (c :: s1) /\ lang b s2) \/ (nullable a = true /\ lang b (c :: s)))
      as Hsplit.
    { split.
      - intros (s1 & s2 & Hs & H1 & H2)%lang_cat_inv. destruct s1 as [|x s1]; simpl in Hs.
        + right. rewrite nullable_lang. by rewrite Hs.
        + injection Hs as <- ->. left. eauto.
      - intros [(s1 & s2 & -> & H1 & H2)|[H1%nullable_lang H2]].
        + exact (lang_cat a b (c :: s1) s2 H1 H2).
        + exact (lang_cat a b [] (c :: s) H1 H2). }
    rewrite Hsplit, <- Hcat. destruct (nullable a); [|naive_solver].
    split.
    + intros H; inversion H; subst; [by left|right; split; [done|by apply IHb]].
    + intros [H|[_ H]]; [by apply lang_alt_l|apply lang_alt_r; by apply IHb].
  - split; intros H; inversion H; subst; first [apply lang_alt_l; by apply IHa|apply lang_alt_r; by apply IHb].
  - split.
    + intros (s1 & s2 & -> & H1%IHa & H2)%lang_cat_inv. exact (lang_star_cons a (c :: s1) s2 H1 H2).
    + intros (s1 & s2 & -> & H1%IHa & H2)%lang_star_inv. by constructor.
Qed.

(** Matching decides the language. *)
Lemma rmatch_lang r s : rmatch r s = true <-> lang r s.
Proof.
  revert r; induction s as [|c s IH]; intros r; simpl; [apply nullable_lang|].
  by rewrite IH, deriv_lang.
Qed.

Lemma rprefix_lang r s : rprefix r s = true <-> exists p t, s = p ++ t /\ lang r p.
Proof.
  revert r; induction s as [|c s IH]; intros r; simpl; rewrite orb_true_iff, nullable_lang.
  - split; [intros [H|]; [by exists [], []|done]|].
    intros (p & t & Hpt & H). symmetry in Hpt. apply app_eq_nil in Hpt as [-> ->]. by left.
  - rewrite IH. split.
    + intros [H|(p & t & -> & H%deriv_lang)]; [by exists [], (c :: s)|by exists (c :: p), t].
    + intros (p & t & Hpt & H). destruct p as [|x p]; [by left|].
      injection Hpt as <- ->. right. exists p, t. split; [done|by apply deriv_lang].
Qed.

(** Inversion of the language of the derived forms. *)
Lemma lang_rset l s : lang (RSet l) s <-> exists c, s = [c] /\ in_ranges l c = true.
Proof. split; [intros H; inversion H; eauto|intros (c & -> & H); by constructor]. Qed.

Lemma lang_rcat_cons r l s : lang (rcat (r :: l)) s <-> exists s1 s2, s = s1 ++ s2 /\ lang r s1 /\ lang (rcat l) s2.
Proof. split; [apply lang_cat_inv|intros (s1 & s2 & -> & H1 & H2); by constructor]. Qed.

Lemma lang_rcat_nil s : lang (rcat []) s <-> s = [].
Proof. split; [intros H; by inversion H|intros ->; constructor]. Qed.

Lemma lang_ralt a b s : lang (RAlt a b) s <-> lang a s \/ lang b s.
Proof. split; [intros H; inversion H; auto|intros [?|?]; auto with js]. Qed.

Lemma lang_ropt r s : lang (ropt r) s <-> lang r s \/ s = [].
Proof.
  unfold ropt. rewrite lang_ralt. split; (intros [H|H]; [by left|right]); [by inversion H|subst; constructor].
Qed.

Lemma lang_rplus r s : lang (rplus r) s <-> exists l, l <> [] /\ s = concat l /\ Forall (lang r) l.
Proof.
  assert (forall t, lang (RStar r) t <-> exists l, t = concat l /\ Forall (lang r) l) as Hstar.
  { intros t. split.
    - remember (RStar r) as r' eqn:E. induction 1 as [| | | | | |a s1 t H1 _ _ IH]; try discriminate.
      + by exists [].
      + injection E as ->. destruct IH as (l & -> & Hl); [done|]. exists (s1 :: l). split; [done|by constructor].
    - intros (l & -> & Hl). induction Hl; simpl; auto with js. }
  unfold rplus. split.
  - intros (s1 & s2 & -> & H1 & (l & -> & Hl)%Hstar)%lang_cat_inv. exists (s1 :: l). by split; [|split; [|constructor]].
  - intros (l & Hne & -> & Hl). destruct Hl as [|s1 l H1 Hl]; [done|]. constructor; [done|apply Hstar; eauto].
Qed.
