(* ===== verification/YamlCommon.v ===== *)
(** js-yaml's helpers, its exception and its mark (modules 124 to 126): the
    excerpt of the text that an error message shows. *)

From Stdlib Require Import ZArith Lia List String Bool.
From stdpp Require Import base list sets list_numbers tactics.
From S2P Require Import Prelude JsNum Js.

(** ** [common] *)

Definition isNothing (subject : value) : bool :=
  match subject with VUndef | VNull => true | _ => false end.

Definition isObject (subject : value) : bool :=
  match subject with VArr _ | VObj _ | VDate _ | VBuf _ | VRegExp _ _ => true | _ => false end.

Definition toArray (sequence : value) : list value :=
  match sequence with VArr l => l | VUndef | VNull => [] | _ => [sequence] end.

Definition extend (target : object) (source : option object) : object :=
  match source with
  | Some source => fold_left (fun t kv => obj_set kv.1 kv.2 t) source target
  | None => target
  end.

(** [repeat(string, count)]. *)
Definition repeat_string (s : jstr) (count : Z) : jstr := concat (repeat s (Z.to_nat count)).

Definition isNegativeZero (n : num) : bool :=
  match n with NFin true 0%N => true | _ => false end.

Lemma repeat_string_one c count : repeat_string [c] count = repeat c (Z.to_nat count).
Proof. unfold repeat_string. induction (Z.to_nat count) as [|n IH]; simpl; [done|by rewrite IH]. Qed.

(** ** Marks *)

Record mark := Mark {
  mark_name : option jstr;
  mark_buffer : jstr;
  mark_position : Z;
  mark_line : Z;
  mark_column : Z
}.

(** A character of ['\x00\r\n\x85\u2028\u2029']. *)
Definition is_break (c : Z) : bool :=
  (c =? 0) || (c =? 13) || (c =? 10) || (c =? 133) || (c =? 8232) || (c =? 8233).

(** [' ... '] *)
Definition ellipsis : jstr := u " ... ".

(** The loop that looks for the start of the excerpt; the fuel is the number of
    characters before [start]. *)
Fixpoint snippet_start (fuel : nat) (buffer : jstr) (position maxLength start : Z) : jstr * Z :=
  match fuel with
  | O => ([], start)
  | S fuel =>
      match zget buffer (start - 1) with
      | Some c =>
          if is_break c then ([], start)
          else
            let start := start - 1 in
            if maxLength - 2 <? 2 * (position - start) then (ellipsis, start + 5)
            else snippet_start fuel buffer position maxLength start
      | None => ([], start)
      end
  end.

(** The loop that looks for its end; the fuel is the number of characters from
    [end] on. *)
Fixpoint snippet_end (fuel : nat) (buffer : jstr) (position maxLength end_ : Z) : jstr * Z :=
  match fuel with
  | O => ([], end_)
  | S fuel =>
      match zget buffer end_ with
      | Some c =>
          if is_break c then ([], end_)
          else
            let end_ := end_ + 1 in
            if maxLength - 2 <? 2 * (end_ - position) then (ellipsis, end_ - 5)
            else snippet_end fuel buffer position maxLength end_
      | None => ([], end_)
      end
  end.

(** [Mark.prototype.getSnippet]. *)
Definition getSnippet (m : mark) (indent maxLength : Z) : option jstr :=
  match mark_buffer m with
  | [] => None
  | buffer =>
      let indent := if indent =? 0 then 4 else indent in
      let maxLength := if maxLength =? 0 then 75 else maxLength in
      let position := mark_position m in
      let '(head, start) := snippet_start (Z.to_nat position) buffer position maxLength position in
      let '(tail, end_) := snippet_end (Z.to_nat (zlen buffer - position)) buffer position maxLength position in
      let snippet := zslice start end_ buffer in
      Some (repeat_string [32] indent ++ head ++ snippet ++ tail ++ [10]
            ++ repeat_string [32] (indent + position - start + zlen head) ++ [94])
  end.

(** [Mark.prototype.toString]. *)
Definition mark_toString (m : mark) (compact : bool) : jstr :=
  (match mark_name m with Some (x :: n) => u "in " ++ [34] ++ (x :: n) ++ [34] ++ u " " | _ => [] end)
  ++ u "at line " ++ num_to_string (num_of_Z (mark_line m + 1))
  ++ u ", column " ++ num_to_string (num_of_Z (mark_column m + 1))
  ++ (if compact then [] else
        match getSnippet m 0 0 with
        | Some (x :: s) => [58; 10] ++ (x :: s)
        | _ => []
        end).

(** ** [YAMLException] *)

Record yaml_exception := { reason : jstr; exception_mark : option mark }.

Definition reason_text (e : yaml_exception) : jstr :=
  match reason e with [] => u "(unknown reason)" | r => r end.

(** The property [message]. *)
Definition exception_message (e : yaml_exception) : jstr :=
  reason_text e ++ match exception_mark e with Some m => [32] ++ mark_toString m false | None => [] end.

(** [YAMLException.prototype.toString]. *)
Definition exception_toString (e : yaml_exception) (compact : bool) : jstr :=
  u "YAMLException" ++ u ": " ++ reason_text e
  ++ (if compact then [] else match exception_mark e with Some m => [32] ++ mark_toString m false | None => [] end).

(** ** The excerpt *)

(** No line break between two positions. *)
Definition one_line (buffer : jstr) (a b : Z) : Prop :=
  forall i c, a <= i < b -> zget buffer i = Some c -> is_break c = false.

Lemma snippet_start_spec fuel buffer position maxLength start head s :
  10 <= maxLength -> start <= position -> Z.of_nat fuel = start -> position <= zlen buffer ->
  2 * (position - start) <= maxLength - 2 -> one_line buffer start position ->
  snippet_start fuel buffer position maxLength start = (head, s) ->
  0 <= s <= position /\ one_line buffer s position /\ 2 * (position - s) <= maxLength - 2
  /\ (head = [] /\ (s = 0 \/ exists c, zget buffer (s - 1) = Some c /\ is_break c = true)
      \/ head = ellipsis /\ 5 <= s).
Proof.
  intros Hm. revert start. induction fuel as [|fuel IH]; intros start Hs Hf Hl Hd Hline H; simpl in H.
  - injection H as <- <-. assert (start = 0) as -> by lia. split; [lia|]. split; [done|split; [lia|left; auto]].
  - destruct (zget_lt buffer (start - 1)) as [c Hc]; [lia|]. rewrite Hc in H.
    destruct (is_break c) eqn:Eb.
    + injection H as <- <-. split; [lia|]. split; [done|split; [lia|]]. left. eauto.
    + assert (one_line buffer (start - 1) position) as Hline'.
      { intros i c' Hi Hc'. destruct (decide (i = start - 1)) as [->|]; [congruence|].
        apply (Hline i); [lia|done]. }
      destruct (maxLength - 2 <? 2 * (position - (start - 1))) eqn:E; breflect.
      * injection H as <- <-. split; [lia|]. split; [|split; [lia|right; split; [done|lia]]].
        intros i c' Hi. apply Hline'. lia.
      * apply (IH (start - 1)); [lia..|done|done].
Qed.

Lemma snippet_end_spec fuel buffer position maxLength end_ tail e :
  10 <= maxLength -> 0 <= position <= end_ -> end_ + Z.of_nat fuel = zlen buffer ->
  2 * (end_ - position) <= maxLength - 2 -> one_line buffer position end_ ->
  snippet_end fuel buffer position maxLength end_ = (tail, e) ->
  position <= e <= zlen buffer /\ one_line buffer position e /\ 2 * (e - position) <= maxLength - 2
  /\ (tail = [] /\ (e = zlen buffer \/ exists c, zget buffer e = Some c /\ is_break c = true)
      \/ tail = ellipsis /\ e + 5 <= zlen buffer).
Proof.
  intros Hm. revert end_. induction fuel as [|fuel IH]; intros end_ Hs Hf Hd Hline H; simpl in H.
  - injection H as <- <-. assert (end_ = zlen buffer) by lia. split; [lia|]. split; [done|split; [lia|left; auto]].
  - destruct (zget_lt buffer end_) as [c Hc]; [lia|]. rewrite Hc in H.
    destruct (is_break c) eqn:Eb.
    + injection H as <- <-. split; [lia|]. split; [done|split; [lia|]]. left. eauto.
    + assert (one_line buffer position (end_ + 1)) as Hline'.
      { intros i c' Hi Hc'. destruct (decide (i = end_)) as [->|]; [congruence|].
        apply (Hline i); [lia|done]. }
      destruct (maxLength - 2 <? 2 * (end_ + 1 - position)) eqn:E; breflect.
      * injection H as <- <-. split; [lia|]. split; [|split; [lia|right; split; [done|lia]]].
        intros i c' Hi. apply Hline'. lia.
      * apply (IH (end_ + 1)); [lia..|done|done].
Qed.

(** The excerpt of an error message is a part of one line of the text that
    is at most [maxLength - 2] long, with an ellipsis on the sides where the
    line goes on, and the caret of the second line stands under the character
    at the position of the mark. *)
Theorem getSnippet_caret m indent maxLength s :
  0 < indent -> 10 <= maxLength -> 0 <= mark_position m <= zlen (mark_buffer m) ->
  getSnippet m indent maxLength = Some s ->
  exists head start end_ tail,
    let line := repeat 32 (Z.to_nat indent) ++ head ++ zslice start end_ (mark_buffer m) ++ tail in
    let caret := indent + mark_position m - start + zlen head in
    s = line ++ [10] ++ repeat 32 (Z.to_nat caret) ++ [94]
    /\ 0 <= start <= mark_position m /\ mark_position m <= end_ <= zlen (mark_buffer m) /\ end_ - start <= maxLength - 2
    /\ one_line (mark_buffer m) start end_
    /\ (mark_position m < end_ -> zget line caret = zget (mark_buffer m) (mark_position m)).
Proof.
  intros Hi Hm Hp. unfold getSnippet.
  destruct (mark_buffer m) as [|b0 buf] eqn:Eb; [done|]. rewrite <- Eb. set (buffer := mark_buffer m) in *.
  replace (indent =? 0) with false by (symmetry; apply Z.eqb_neq; lia).
  replace (maxLength =? 0) with false by (symmetry; apply Z.eqb_neq; lia).
  rewrite <- Eb in Hp. set (position := mark_position m) in *.
  destruct (snippet_start _ _ _ _ _) as [head start] eqn:Es.
  destruct (snippet_end _ _ _ _ _) as [tail end_] eqn:Ee.
  assert (one_line buffer position position) as Hl by (intros i c ?; lia).
  apply snippet_start_spec in Es as (Hs & Hls & Hds & _); [|done || lia..].
  apply snippet_end_spec in Ee as (He & Hle & Hde & _); [|done || lia..].
  intros [= <-]. exists head, start, end_, tail. cbv zeta. rewrite !repeat_string_one, <- !app_assoc.
  split; [done|split; [lia|split; [lia|split; [lia|split]]]].
  - intros i c Hic. destruct (decide (i < position)); [apply Hls; lia|apply Hle; lia].
  - intros Hlt.
    assert (zlen (repeat 32 (Z.to_nat indent)) = indent) as Hr by (unfold zlen; rewrite repeat_length; lia).
    pose proof (zlen_nonneg head).
    rewrite zget_app_r by lia. rewrite zget_app_r by lia. rewrite zget_app_l by (rewrite zlen_zslice; lia).
    rewrite Hr. replace (indent + position - start + zlen head - indent - zlen head) with (position - start) by lia.
    unfold zslice, zget. destruct (_ <? 0) eqn:E1; breflect; [lia|]. destruct (position <? 0) eqn:E2; breflect; [lia|].
    rewrite lookup_take_lt by lia. rewrite lookup_drop. f_equal. lia.
Qed.

Lemma getSnippet_caret_witness :
  getSnippet (Mark None (u "a: [1" ++ [10] ++ u "b: }") 9 1 3) 4 75 = Some (u "    b: }" ++ [10] ++ u "       ^")
  /\ one_line (u "a: [1" ++ [10] ++ u "b: }") 6 10.
Proof.
  split; [reflexivity|].
  destruct (getSnippet_caret (Mark None (u "a: [1" ++ [10] ++ u "b: }") 9 1 3) 4 75
              (u "    b: }" ++ [10] ++ u "       ^") ltac:(lia) ltac:(lia) ltac:(by vm_compute) eq_refl)
    as (head & start & end_ & tail & H).
  intros i c Hi. assert (i = 6 \/ i = 7 \/ i = 8 \/ i = 9) as [->|[->|[->| ->]]] by lia; by intros [= <-].
Defined.
