(* ===== verification/YamlInt.v ===== *)
(** js-yaml's [null], [bool] and [int] types (modules 136 to 138): which texts
    they resolve, the values they construct, and the texts they write. *)

From Stdlib Require Import ZArith Lia List String Bool.
From stdpp Require Import base list sets list_numbers tactics.
From S2P Require Import Prelude JsNum Js Regex YamlCommon.

(** The data of a scalar node is a string, or [null] when the node is empty. *)

(** ** Null *)

Definition resolveYamlNull (data : option jstr) : bool :=
  match data with
  | None => true
  | Some data =>
      let max := zlen data in
      ((max =? 1) && streq data (u "~"))
      || ((max =? 4) && (streq data (u "null") || streq data (u "Null") || streq data (u "NULL")))
  end.

Definition constructYamlNull (data : option jstr) : value := VNull.

Definition isNull (object : value) : bool := match object with VNull => true | _ => false end.

Inductive null_style := null_canonical | null_lowercase | null_uppercase | null_camelcase.

Definition representYamlNull (style : null_style) : jstr :=
  match style with
  | null_canonical => u "~"
  | null_lowercase => u "null"
  | null_uppercase => u "NULL"
  | null_camelcase => u "Null"
  end.

(** ** Booleans *)

Definition resolveYamlBoolean (data : option jstr) : bool :=
  match data with
  | None => false
  | Some data =>
      let max := zlen data in
      ((max =? 4) && (streq data (u "true") || streq data (u "True") || streq data (u "TRUE")))
      || ((max =? 5) && (streq data (u "false") || streq data (u "False") || streq data (u "FALSE")))
  end.

Definition constructYamlBoolean (data : jstr) : bool :=
  streq data (u "true") || streq data (u "True") || streq data (u "TRUE").

Definition isBoolean (object : value) : bool := match object with VBool _ => true | _ => false end.

Inductive bool_style := bool_lowercase | bool_uppercase | bool_camelcase.

Definition representYamlBoolean (style : bool_style) (object : bool) : jstr :=
  match style with
  | bool_lowercase => if object then u "true" else u "false"
  | bool_uppercase => if object then u "TRUE" else u "FALSE"
  | bool_camelcase => if object then u "True" else u "False"
  end.

(** ** Integers *)

Definition isHexCode (c : Z) : bool :=
  ((48 <=? c) && (c <=? 57)) || ((65 <=? c) && (c <=? 70)) || ((97 <=? c) && (c <=? 102)).

Definition isOctCode (c : Z) : bool := (48 <=? c) && (c <=? 55).

Definition isDecCode (c : Z) : bool := (48 <=? c) && (c <=? 57).

Definition isBinCode (c : Z) : bool := (c =? 48) || (c =? 49).

(** The loops over the digits of a base, underscores being skipped. *)
Fixpoint resolve_digits (ok : Z -> bool) (s : jstr) (hasDigits : bool) : bool :=
  match s with
  | [] => hasDigits
  | c :: s => if c =? 95 then resolve_digits ok s hasDigits
              else if ok c then resolve_digits ok s true else false
  end.

(** The loop over decimal digits: whether there are any, and the rest of the
    text from the [:] on; [None] when another character is met. *)
Fixpoint resolve_decimal (s : jstr) (hasDigits : bool) : option (bool * jstr) :=
  match s with
  | [] => Some (hasDigits, [])
  | c :: s' => if c =? 95 then resolve_decimal s' hasDigits
               else if c =? 58 then Some (hasDigits, s)
               else if isDecCode c then resolve_decimal s' true else None
  end.

(** [/^(:[0-5]?[0-9])+$/] *)
Definition sexagesimal : re :=
  rplus (rcat [rc 58; ropt (RSet [(48, 53)]); RSet [(48, 57)]]).

Definition resolveYamlInteger (data : option jstr) : bool :=
  match data with
  | None | Some [] => false
  | Some data =>
      let '(_, s) := strip_sign data in
      let decimal s :=
        match resolve_decimal s false with
        | Some (true, []) => true
        | Some (true, rest) => rmatch sexagesimal rest
        | Some (false, _) | None => false
        end in
      match s with
      | ch :: s' =>
          if ch =? 48 then
            match s' with
            | [] => true
            | ch :: digits =>
                if ch =? 98 then resolve_digits isBinCode digits false
                else if ch =? 120 then resolve_digits isHexCode digits false
                else resolve_digits isOctCode s' false
            end
          else decimal s
      | [] => decimal []
      end
  end.

(** The sum of the digits of base 60, least significant first. *)
Fixpoint sum60 (digits : list num) (value base : num) : num :=
  match digits with
  | [] => value
  | d :: digits => sum60 digits (num_add value (num_mul d base)) (num_mul base (num_of_Z 60))
  end.

Definition constructYamlInteger (data : jstr) : num :=
  let value := List.filter (fun c => negb (c =? 95)) data in
  let '(negative, value) := strip_sign value in
  let sign := num_of_Z (if negative then -1 else 1) in
  if streq value (u "0") then num_of_Z 0
  else
    match value with
    | ch :: rest =>
        if ch =? 48 then
          match rest with
          | c :: digits =>
              if c =? 98 then num_mul sign (parseInt digits 2)
              else if c =? 120 then num_mul sign (parseInt value 16)
              else num_mul sign (parseInt value 8)
          | [] => num_mul sign (parseInt value 8)
          end
        else if bool_decide (58 ∈ value) then
          num_mul sign (sum60 (rev (map (fun v => parseInt v 10) (split_on 58 value))) (num_of_Z 0) (num_of_Z 1))
        else num_mul sign (parseInt value 10)
    | [] => num_mul sign (parseInt value 10)
    end.

(** [object % 1 === 0 && !isNegativeZero(object)]. *)
Definition isInteger (object : value) : bool :=
  match object with
  | VNum (NFin neg m) => negb (isNegativeZero (NFin neg m))
  | _ => false
  end.

Inductive int_style := int_binary | int_octal | int_decimal | int_hexadecimal.

Definition representYamlInteger (style : int_style) (object : num) : jstr :=
  match style with
  | int_binary => u "0b" ++ num_to_radix 2 object
  | int_octal => u "0" ++ num_to_radix 8 object
  | int_decimal => num_to_radix 10 object
  | int_hexadecimal => u "0x" ++ map upper_char (num_to_radix 16 object)
  end.

Example int_examples :
  map (fun s => (resolveYamlInteger (Some s), constructYamlInteger s))
      [u "0"; u "-1_000"; u "0b101"; u "0x_fF"; u "017"; u "1:30:00"; u "-0x10"]
  = [(true, num_of_Z 0); (true, num_of_Z (-1000)); (true, num_of_Z 5); (true, num_of_Z 255); (true, num_of_Z 15);
     (true, num_of_Z 5400); (true, num_of_Z (-16))].
Proof. reflexivity. Qed.

(** ** Digits *)

Lemma is_digit_small r c : r <= 10 -> is_digit_in r c = true <-> 48 <= c < 48 + r.
Proof.
  intros Hr. unfold is_digit_in, digit_of.
  repeat case_goal; breflect; rewrite ?Z.ltb_lt; (split; intros; try discriminate; try lia);
    rewrite ?andb_false_iff, ?Z.leb_gt in *; lia.
Qed.

Lemma is_digit_hex c : is_digit_in 16 c = isHexCode c.
Proof.
  apply eq_true_iff_eq. unfold is_digit_in, digit_of, isHexCode.
  rewrite !orb_true_iff, !andb_true_iff, !Z.leb_le.
  repeat case_goal; breflect; rewrite ?Z.ltb_lt; rewrite ?andb_false_iff, ?Z.leb_gt in *;
    (split; intros; try discriminate; lia).
Qed.

Lemma upper_digit c : digit_of (upper_char c) = digit_of c.
Proof.
  unfold upper_char. destruct ((97 <=? c) && (c <=? 122)) eqn:E; [|done]. unfold digit_of.
  rewrite E. breflect.
  replace ((48 <=? c - 32) && (c - 32 <=? 57)) with false by (symmetry; rewrite andb_false_iff, !Z.leb_gt; lia).
  replace ((97 <=? c - 32) && (c - 32 <=? 122)) with false by (symmetry; rewrite andb_false_iff, !Z.leb_gt; lia).
  replace ((65 <=? c - 32) && (c - 32 <=? 90)) with true by (symmetry; rewrite andb_true_iff, !Z.leb_le; lia).
  replace ((48 <=? c) && (c <=? 57)) with false by (symmetry; rewrite andb_false_iff, !Z.leb_gt; lia).
  f_equal. lia.
Qed.

Lemma digits_val_upper r s : digits_val r (map upper_char s) = digits_val r s.
Proof.
  unfold digits_val. generalize 0. induction s as [|c s IH]; intros a; simpl; [done|].
  unfold digit_val. rewrite upper_digit. apply IH.
Qed.

(** The digits of the radixes that the integers are written in. *)
Lemma digit_codes c :
  (is_digit_in 2 c = isBinCode c) /\ (is_digit_in 8 c = isOctCode c) /\ (is_digit_in 10 c = isDecCode c).
Proof.
  unfold isBinCode, isOctCode, isDecCode. repeat split; apply eq_true_iff_eq;
    rewrite is_digit_small, ?orb_true_iff, ?andb_true_iff, ?Z.leb_le, ?Z.eqb_eq by lia; lia.
Qed.

Lemma digit_not_mark r c : r <= 36 -> is_digit_in r c = true -> c <> 95 /\ c <> 58.
Proof. intros Hr H. split; intros ->; by vm_compute in H. Qed.

Lemma resolve_digits_all r ok s h :
  r <= 36 -> (forall c, is_digit_in r c = ok c) -> Forall (fun c => is_digit_in r c = true) s ->
  resolve_digits ok s h = h || negb (bool_decide (s = [])).
Proof.
  intros Hr Hok Hs. revert h. induction Hs as [|c s Hc _ IH]; intros h; simpl; [by rewrite orb_false_r|].
  destruct (digit_not_mark r c Hr Hc) as [H95 _]. apply Z.eqb_neq in H95. rewrite H95, <- Hok, Hc, IH.
  by rewrite orb_true_r.
Qed.

Lemma filter_digits r s :
  r <= 36 -> Forall (fun c => is_digit_in r c = true) s -> List.filter (fun c => negb (c =? 95)) s = s.
Proof.
  intros Hr. induction 1 as [|c s Hc _ IH]; simpl; [done|].
  destruct (digit_not_mark r c Hr Hc) as [H95 _]. apply Z.eqb_neq in H95. by rewrite H95, IH.
Qed.

Lemma num_mul_sign (neg : bool) n :
  0 <= n <= max_safe -> (neg = true -> 0 < n) ->
  num_mul (num_of_Z (if neg then -1 else 1)) (num_of_Z n) = num_of_Z (if neg then - n else n).
Proof.
  intros Hn Hneg. destruct neg.
  - specialize (Hneg eq_refl). rewrite !num_of_Z_safe by (unfold max_safe in *; lia). simpl.
    replace (n <? 0) with false by (symmetry; apply Z.ltb_ge; lia).
    replace (- n <? 0) with true by (symmetry; apply Z.ltb_lt; lia). simpl.
    rewrite num_make_safe by lia. f_equal. lia.
  - rewrite num_mul_safe by (unfold max_safe in *; lia). by rewrite Z.mul_1_l.
Qed.

Lemma parseInt_upper_hex n :
  0 <= n <= max_safe -> parseInt (48 :: 120 :: map upper_char (to_radix 16 n)) 16 = num_of_Z n.
Proof.
  intros Hn. set (s := map upper_char (to_radix 16 n)).
  assert (Forall (fun c => is_digit_in 16 c = true) s) as Hs.
  { subst s. apply Forall_map. eapply Forall_impl; [|apply to_radix_digits; lia].
    intros c Hc. cbn. unfold is_digit_in in *. by rewrite upper_digit. }
  change (parseInt (48 :: 120 :: s) 16) with
    (match digit_prefix 16 s with [] => NNaN | ds => num_make false (digits_val 16 ds) end).
  rewrite digit_prefix_all by done. subst s.
  destruct (map upper_char (to_radix 16 n)) as [|c s] eqn:E; [apply map_eq_nil, to_radix_not_nil in E; done|].
  rewrite <- E, digits_val_upper, to_radix_val by lia.
  unfold num_of_Z. replace (n <? 0) with false by (symmetry; apply Z.ltb_ge; lia). by rewrite Z.abs_eq by lia.
Qed.

(** The text that [representYamlInteger] writes. *)
Lemma num_to_radix_safe r n :
  2 <= r -> Z.abs n <= max_safe ->
  num_to_radix r (num_of_Z n) = (if n <? 0 then [45] else []) ++ to_radix r (Z.abs n).
Proof.
  intros Hr Hn. rewrite num_of_Z_safe by done. cbn [num_to_radix]. rewrite Z2N.id by lia.
  replace ((n <? 0) && negb (Z.to_N (Z.abs n) =? 0)%N) with (n <? 0)
    by (destruct (n <? 0) eqn:E; breflect; [|done]; symmetry; apply negb_true_iff, N.eqb_neq; lia).
  f_equal. destruct (r =? 10) eqn:E; [|done]. breflect. subst. unfold mag_to_string.
  apply Z.leb_le in Hn. by rewrite Hn.
Qed.

(** Reading the digits of a text that starts neither with [0] nor a sign. *)
Lemma int_decimal_text (neg : bool) n :
  0 < n <= max_safe ->
  let s := (if neg then [45] else []) ++ to_radix 10 n in
  resolveYamlInteger (Some s) = true /\ constructYamlInteger s = num_of_Z (if neg then - n else n).
Proof.
  intros Hn s. subst s.
  pose proof (to_radix_digits 10 n ltac:(lia) ltac:(lia)) as Hd.
  pose proof (parseInt_to_radix 10 n ltac:(lia) ltac:(lia)) as Hp.
  destruct (to_radix_head 10 n ltac:(lia) ltac:(lia)) as (d & ds & Hs & Hdd). rewrite Hs in *.
  set (c := digit_char d) in *.
  assert (c <> 48) as Hc by (unfold c, digit_char; case_goal; breflect; lia).
  pose proof (Forall_inv Hd) as Hcd. apply is_digit_small in Hcd; [|lia].
  assert (strip_sign ((if neg then [45] else []) ++ c :: ds) = (neg, c :: ds)) as Hss.
  { destruct neg; [done|]. cbn. by replace (c =? 45) with false by (symmetry; apply Z.eqb_neq; lia);
      replace (c =? 43) with false by (symmetry; apply Z.eqb_neq; lia). }
  assert (forall h s, Forall (fun c => is_digit_in 10 c = true) s ->
            resolve_decimal s h = Some (h || negb (bool_decide (s = [])), [])) as Hrd.
  { intros h t Ht. revert h. induction Ht as [|x t Hx _ IH]; intros h; simpl; [by rewrite orb_false_r|].
    destruct (digit_not_mark 10 x ltac:(lia) Hx) as [H95 H58]. apply Z.eqb_neq in H95, H58.
    rewrite H95, H58, <- (proj2 (proj2 (digit_codes x))), Hx, IH. by rewrite orb_true_r. }
  split.
  - unfold resolveYamlInteger. destruct ((if neg then [45] else []) ++ c :: ds) eqn:E; [by destruct neg|].
    rewrite Hss. apply Z.eqb_neq in Hc. rewrite Hc, Hrd by done. done.
  - unfold constructYamlInteger. rewrite List.filter_app, (filter_digits 10 (c :: ds)) by (done || lia).
    replace (List.filter _ (if neg then [45] else [])) with (if neg then [45] else []) by (by destruct neg).
    rewrite Hss. unfold streq. change (u "0") with [48]. rewrite bool_decide_eq_false_2 by congruence.
    apply Z.eqb_neq in Hc. rewrite Hc. rewrite bool_decide_eq_false_2.
    + rewrite Hp. apply num_mul_sign; lia.
    + intros Hin. rewrite Forall_elem in Hd. by destruct (digit_not_mark 10 58 ltac:(lia) (Hd _ Hin)).
Qed.

(** Texts that start with a [0]. *)
Lemma construct_prefixed c s :
  (c =? 95) = false -> List.filter (fun c => negb (c =? 95)) s = s ->
  constructYamlInteger (48 :: c :: s)
  = num_mul (num_of_Z 1)
      (if c =? 98 then parseInt s 2 else if c =? 120 then parseInt (48 :: c :: s) 16 else parseInt (48 :: c :: s) 8).
Proof.
  intros Hc Hs. unfold constructYamlInteger.
  replace (List.filter _ (48 :: c :: s)) with (48 :: c :: s) by (cbn [List.filter]; by rewrite Hc, Hs).
  change (strip_sign (48 :: c :: s)) with (false, 48 :: c :: s). cbv iota.
  unfold streq. rewrite bool_decide_eq_false_2 by done. change (48 =? 48) with true. cbv iota.
  by destruct (c =? 98), (c =? 120).
Qed.

(** Reading octal digits after a [0]. *)
Lemma int_octal_text n :
  0 <= n <= max_safe ->
  resolveYamlInteger (Some (u "0" ++ to_radix 8 n)) = true
  /\ constructYamlInteger (u "0" ++ to_radix 8 n) = num_of_Z n.
Proof.
  intros Hn. pose proof (to_radix_digits 8 n ltac:(lia) ltac:(lia)) as Hd.
  pose proof (to_radix_val 8 n ltac:(lia) ltac:(lia)) as Hv.
  destruct (to_radix 8 n) as [|c s] eqn:E; [by apply to_radix_not_nil in E|].
  pose proof (Forall_inv Hd) as Hc. apply is_digit_small in Hc; [|lia].
  assert ((c =? 98) = false /\ (c =? 120) = false) as [H98 H120] by (rewrite !Z.eqb_neq; lia).
  change (u "0") with [48]. cbn [app]. split.
  - unfold resolveYamlInteger. cbn [strip_sign]. cbn -[resolve_digits]. rewrite H98, H120.
    rewrite (resolve_digits_all 8) by (done || lia || (intros c'; apply digit_codes)). done.
  - rewrite construct_prefixed by (apply (filter_digits 8); [lia|by inversion Hd] || (apply Z.eqb_neq; lia)).
    rewrite H98, H120.
    rewrite parseInt_digits by (done || by constructor).
    change (digits_val 8 (48 :: c :: s)) with (digits_val 8 (c :: s)). rewrite Hv.
    replace (num_make false n) with (num_of_Z n)
      by (unfold num_of_Z; replace (n <? 0) with false by (symmetry; apply Z.ltb_ge; lia); by rewrite Z.abs_eq by lia).
    apply (num_mul_sign false); [lia|done].
Qed.

(** The text of a safe integer is resolved as an integer and read back, in
    the decimal style for all, and in the other styles when it is not
    negative. *)
Theorem representYamlInteger_roundtrip style n :
  Z.abs n <= max_safe -> style = int_decimal \/ 0 <= n ->
  let s := representYamlInteger style (num_of_Z n) in
  resolveYamlInteger (Some s) = true /\ constructYamlInteger s = num_of_Z n.
Proof.
  intros Hn Hs s. subst s. destruct style; cbn [representYamlInteger]; rewrite num_to_radix_safe by lia.
  3: { destruct (decide (n = 0)) as [->|H0].
       - by rewrite to_radix_0.
       - destruct (int_decimal_text (n <? 0) (Z.abs n) ltac:(lia)) as [-> ->]. split; [done|].
         f_equal. destruct (n <? 0) eqn:E; breflect; lia. }
  all: destruct Hs as [|Hs]; [done|].
  all: replace (n <? 0) with false by (symmetry; apply Z.ltb_ge; lia); rewrite Z.abs_eq in * by lia.
  - pose proof (to_radix_digits 2 n ltac:(lia) ltac:(lia)) as Hd. split.
    + change (resolve_digits isBinCode (to_radix 2 n) false = true).
      rewrite (resolve_digits_all 2) by (done || lia || (intros c; apply digit_codes)).
      rewrite bool_decide_eq_false_2 by apply to_radix_not_nil. done.
    + change (u "0b") with [48; 98]. cbn [app]. rewrite construct_prefixed by (done || apply (filter_digits 2); done || lia).
      change (98 =? 98) with true. cbv iota.
      rewrite parseInt_to_radix by lia. apply (num_mul_sign false); [lia|done].
  - apply (int_octal_text n). lia.
  - pose proof (to_radix_digits 16 n ltac:(lia) ltac:(lia)) as Hd. rewrite app_nil_l.
    assert (Forall (fun c => is_digit_in 16 c = true) (map upper_char (to_radix 16 n))) as Hu.
    { apply Forall_map. eapply Forall_impl; [|exact Hd]. intros c Hc. cbn. unfold is_digit_in in *. by rewrite upper_digit. }
    split.
    + change (resolve_digits isHexCode (map upper_char (to_radix 16 n)) false = true).
      rewrite (resolve_digits_all 16) by (done || lia || (intros c; apply is_digit_hex)).
      rewrite bool_decide_eq_false_2; [done|]. intros H%map_eq_nil. by apply to_radix_not_nil in H.
    + change (u "0x") with [48; 120]. cbn [app]. rewrite construct_prefixed by (done || apply (filter_digits 16); done || lia).
      change (120 =? 98) with false. change (120 =? 120) with true. cbv iota.
      rewrite parseInt_upper_hex by lia. apply (num_mul_sign false); [lia|done].
Qed.

(** A negative integer written in the binary, octal or hexadecimal style
    is not read back: the sign is written after the prefix ([0b-101]), and no
    such text is resolved as an integer. *)
Theorem representYamlInteger_negative style n :
  style <> int_decimal -> n < 0 -> Z.abs n <= max_safe ->
  resolveYamlInteger (Some (representYamlInteger style (num_of_Z n))) = false.
Proof.
  intros Hs Hn Ha. destruct style; [..|done|]; cbn [representYamlInteger]; rewrite num_to_radix_safe by lia;
    replace (n <? 0) with true by (symmetry; apply Z.ltb_lt; lia); reflexivity.
Qed.

(** ** Every resolved text is a number *)

Lemma filter_cons_keep c s :
  (c =? 95) = false -> List.filter (fun c => negb (c =? 95)) (c :: s) = c :: List.filter (fun c => negb (c =? 95)) s.
Proof. intros H. cbn. by rewrite H. Qed.

Lemma resolve_digits_filter ok s h :
  resolve_digits ok s h = true ->
  Forall (fun c => ok c = true) (List.filter (fun c => negb (c =? 95)) s)
  /\ (h = true \/ List.filter (fun c => negb (c =? 95)) s <> []).
Proof.
  revert h. induction s as [|c s IH]; intros h H; cbn in *; [by rewrite H; split; [constructor|left]|].
  destruct (c =? 95); cbn; [by apply IH|]. destruct (ok c) eqn:E; [|done].
  apply IH in H as [H _]. split; [by constructor|by right].
Qed.

Lemma resolve_decimal_filter s h h' :
  58 ∉ s -> resolve_decimal s h = Some (h', []) ->
  Forall (fun c => isDecCode c = true) (List.filter (fun c => negb (c =? 95)) s)
  /\ (h' = true -> h = true \/ List.filter (fun c => negb (c =? 95)) s <> []).
Proof.
  revert h. induction s as [|c s IH]; intros h Hc H; cbn in *; [by injection H as <-; split; [constructor|left]|].
  destruct (c =? 95); cbn; [by apply IH; set_solver|].
  destruct (c =? 58) eqn:E58; [breflect; set_solver|]. destruct (isDecCode c) eqn:E; [|done].
  apply IH in H as [H _]; [|set_solver]. split; [by constructor|by right].
Qed.

Lemma resolve_decimal_rest s h h' rest : 58 ∉ s -> resolve_decimal s h = Some (h', rest) -> rest = [].
Proof.
  revert h. induction s as [|c s IH]; intros h Hc H; cbn in *; [by injection H as _ <-|].
  destruct (c =? 95); [by eapply IH; [set_solver|]|].
  destruct (c =? 58) eqn:E58; [breflect; set_solver|]. destruct (isDecCode c); [|done].
  eapply IH; [set_solver|done].
Qed.

Lemma num_mul_unit_not_nan (neg : bool) n : n <> NNaN -> num_mul (num_of_Z (if neg then -1 else 1)) n <> NNaN.
Proof.
  intros Hn. assert (num_of_Z (if neg then -1 else 1) = NFin neg 1) as -> by (by destruct neg).
  destruct n as [s m|s m e|s|]; cbn [num_mul]; try done; [apply num_make_not_nan|apply num_of_rat_not_nan].
Qed.

(** A text that starts with a digit is a number for [parseInt]. *)
Lemma parseInt_not_nan r c s : is_digit_in r c = true -> strip_hex r (c :: s) = c :: s -> parseInt (c :: s) r <> NNaN.
Proof.
  intros Hc Hx. unfold parseInt. cbn [trim_start]. rewrite (proj1 (digit_plain r c Hc)), (strip_sign_digit r) by done.
  rewrite Hx. cbn [digit_prefix]. rewrite Hc. apply num_make_not_nan.
Qed.

(** [constructYamlInteger] after the underscores and the sign are removed. *)
Lemma construct_stripped data (neg : bool) value :
  strip_sign (List.filter (fun c => negb (c =? 95)) data) = (neg, value) ->
  Forall (fun c => isDecCode c = true) value \/
    (exists digits, value = 48 :: 98 :: digits /\ Forall (fun c => isBinCode c = true) digits /\ digits <> []) \/
    (exists digits, value = 48 :: 120 :: digits /\ Forall (fun c => isHexCode c = true) digits /\ digits <> []) ->
  value <> [] -> constructYamlInteger data <> NNaN.
Proof.
  intros Hs Hv Hne. unfold constructYamlInteger. rewrite Hs. cbv zeta.
  destruct (streq value (u "0")) eqn:E0; [by vm_compute|].
  destruct Hv as [Hd|[(ds & -> & Hd & Hn)|(ds & -> & Hd & Hn)]].
  - destruct value as [|c s]; [done|].
    assert (Forall (fun c => is_digit_in 10 c = true) (c :: s)) as Hd'.
    { eapply Forall_impl; [|exact Hd]. intros x Hx. by rewrite (proj2 (proj2 (digit_codes x))). }
    destruct (c =? 48) eqn:Ec.
    + breflect. subst. destruct s as [|x s]; [by vm_compute in E0|].
      pose proof (Forall_inv (Forall_inv_tail Hd')) as Hx. apply is_digit_small in Hx; [|lia].
      replace (x =? 98) with false by (symmetry; apply Z.eqb_neq; lia).
      replace (x =? 120) with false by (symmetry; apply Z.eqb_neq; lia).
      apply num_mul_unit_not_nan. by apply parseInt_not_nan.
    + rewrite bool_decide_eq_false_2.
      * apply num_mul_unit_not_nan. apply parseInt_not_nan; [by inversion Hd'|].
        by apply strip_hex_digits.
      * intros Hin. rewrite Forall_elem in Hd'. by destruct (digit_not_mark 10 58 ltac:(lia) (Hd' _ Hin)).
  - change (48 =? 48) with true. change (98 =? 98) with true. cbv iota. apply num_mul_unit_not_nan.
    destruct ds as [|c ds]; [done|]. apply parseInt_not_nan; [|by destruct ds].
    rewrite (proj1 (digit_codes c)). by inversion Hd.
  - change (48 =? 48) with true. change (120 =? 98) with false. change (120 =? 120) with true. cbv iota.
    apply num_mul_unit_not_nan.
    destruct ds as [|c ds]; [done|]. change (parseInt (48 :: 120 :: c :: ds) 16) with
      (match digit_prefix 16 (c :: ds) with [] => NNaN | ds => num_make false (digits_val 16 ds) end).
    cbn [digit_prefix]. rewrite is_digit_hex, (Forall_inv Hd). apply num_make_not_nan.
Qed.

(** What [resolveYamlInteger] accepts after the sign, without [:]. *)
Definition int_shape (s : jstr) : Prop :=
  let value := List.filter (fun c => negb (c =? 95)) s in
  value <> [] /\
  (Forall (fun c => isDecCode c = true) value \/
    (exists digits, value = 48 :: 98 :: digits /\ Forall (fun c => isBinCode c = true) digits /\ digits <> []) \/
    (exists digits, value = 48 :: 120 :: digits /\ Forall (fun c => isHexCode c = true) digits /\ digits <> [])).

Lemma decimal_shape s :
  58 ∉ s ->
  match resolve_decimal s false with
  | Some (true, []) => true
  | Some (true, rest) => rmatch sexagesimal rest
  | Some (false, _) | None => false
  end = true -> int_shape s.
Proof.
  intros Hc Hr. destruct (resolve_decimal s false) as [[[|] rest]|] eqn:E; [|done..].
  pose proof (resolve_decimal_rest _ _ _ _ Hc E) as ->.
  apply resolve_decimal_filter in E as [Hf Hne]; [|done]. destruct (Hne eq_refl) as [|Hne']; [done|]. by split; [|left].
Qed.

Lemma prefixed_shape ch digits :
  (if ch =? 98 then resolve_digits isBinCode digits false
   else if ch =? 120 then resolve_digits isHexCode digits false
   else resolve_digits isOctCode (ch :: digits) false) = true -> int_shape (48 :: ch :: digits).
Proof.
  intros Hr. unfold int_shape. rewrite filter_cons_keep by done. split; [done|].
  destruct (ch =? 98) eqn:E98; [|destruct (ch =? 120) eqn:E120]; breflect; subst.
  - rewrite filter_cons_keep by done. apply resolve_digits_filter in Hr as [Hf [|Hne]]; [done|].
    right; left. by eexists.
  - rewrite filter_cons_keep by done. apply resolve_digits_filter in Hr as [Hf [|Hne]]; [done|].
    right; right. by eexists.
  - apply resolve_digits_filter in Hr as [Hf _]. left. constructor; [done|].
    eapply Forall_impl; [|exact Hf]. intros c Hc. cbn in *. unfold isOctCode, isDecCode in *. breflect.
    apply andb_true_iff. rewrite !Z.leb_le. lia.
Qed.

(** The sign is the first character before and after the underscores are
    removed. *)
Lemma strip_sign_filter data neg s :
  strip_sign data = (neg, s) -> int_shape s ->
  strip_sign (List.filter (fun c => negb (c =? 95)) data) = (neg, List.filter (fun c => negb (c =? 95)) s).
Proof.
  intros Hs [Hne Hshape].
  assert (strip_sign (List.filter (fun c => negb (c =? 95)) s) = (false, List.filter (fun c => negb (c =? 95)) s)) as Hf.
  { destruct (List.filter _ s) as [|c v]; [done|]. assert (isDecCode c = true) as Hc.
    { destruct Hshape as [Hd|[(ds & [= -> ->] & _)|(ds & [= -> ->] & _)]]; [by inversion Hd|done..]. }
    rewrite <- (proj2 (proj2 (digit_codes c))) in Hc. by apply (strip_sign_digit 10). }
  destruct data as [|c data]; cbn in Hs; [by injection Hs as <- <-|].
  destruct (c =? 45) eqn:E45; [|destruct (c =? 43) eqn:E43]; injection Hs as <- <-.
  - breflect. subst. done.
  - breflect. subst. done.
  - done.
Qed.

(** A text without [:] that is resolved as an integer is constructed to a
    number, never to NaN (it may be infinite). *)
Theorem constructYamlInteger_number data :
  resolveYamlInteger (Some data) = true -> 58 ∉ data -> constructYamlInteger data <> NNaN.
Proof.
  intros Hr Hc. unfold resolveYamlInteger in Hr. destruct data as [|c0 data0] eqn:Ed; [done|]. rewrite <- Ed in *.
  destruct (strip_sign data) as [neg s] eqn:Es.
  assert (int_shape s) as Hshape.
  { assert (58 ∉ s) as Hcs.
    { subst data. cbn in Es. repeat case_hyp Es; injection Es as _ <-; set_solver. }
    destruct s as [|ch s']; [by apply decimal_shape|].
    destruct (ch =? 48) eqn:E48; [|by apply decimal_shape]. breflect. subst.
    destruct s' as [|ch digits]; [|by apply prefixed_shape].
    split; [done|]. left. by repeat constructor. }
  apply (construct_stripped data neg _ (strip_sign_filter _ _ _ Es Hshape)); apply Hshape.
Qed.

Lemma representYamlInteger_roundtrip_witness :
  representYamlInteger int_hexadecimal (num_of_Z 48879) = u "0xBEEF"
  /\ constructYamlInteger (u "0xBEEF") = num_of_Z 48879.
Proof.
  split; [reflexivity|].
  apply (representYamlInteger_roundtrip int_hexadecimal 48879); [by vm_compute|by right].
Defined.

Lemma representYamlInteger_negative_witness :
  representYamlInteger int_binary (num_of_Z (-5)) = u "0b-101" /\ resolveYamlInteger (Some (u "0b-101")) = false.
Proof. split; [reflexivity|]. by apply (representYamlInteger_negative int_binary (-5)). Defined.

Lemma constructYamlInteger_number_witness : constructYamlInteger (u "-0x_fF") <> NNaN.
Proof. apply constructYamlInteger_number; [reflexivity|by apply (bool_decide_unpack _)]. Defined.
