(* ===== verification/YamlFloat.v ===== *)
(** js-yaml's [float], [str] and [merge] types (modules 133, 139 and 141). *)

From Stdlib Require Import ZArith Lia List String Bool.
From stdpp Require Import base list sets list_numbers tactics.
From S2P Require Import Prelude JsNum Js Regex YamlCommon YamlInt.

(** ** Floats *)

Definition digit : re := RSet [(48, 57)].
Definition digit_ : re := RSet [(48, 57); (95, 95)].
Definition sign : re := RSet [(45, 45); (43, 43)].
Definition exponent : re := ropt (rcat [RSet [(101, 101); (69, 69)]; sign; rplus digit]).

Definition YAML_FLOAT_PATTERN : re :=
  ralt
    [rcat [ropt sign; RCat digit (RStar digit_); rc 46; RStar digit_; exponent];
     rcat [rc 46; rplus digit_; exponent];
     rcat [ropt sign; digit; RStar digit_; rplus (rcat [rc 58; ropt (RSet [(48, 53)]); digit]); rc 46; RStar digit_];
     rcat [ropt sign; rc 46; ralt [rlit (u "inf"); rlit (u "Inf"); rlit (u "INF")]];
     rcat [rc 46; ralt [rlit (u "nan"); rlit (u "NaN"); rlit (u "NAN")]]].

Definition resolveYamlFloat (data : option jstr) : bool :=
  match data with
  | None => false
  | Some data => rmatch YAML_FLOAT_PATTERN data
  end.

Definition constructYamlFloat (data : jstr) : num :=
  let value := map lower_char (List.filter (fun c => negb (c =? 95)) data) in
  let '(negative, value) := strip_sign value in
  let sign := num_of_Z (if negative then -1 else 1) in
  if streq value (u ".inf") then NInf negative
  else if streq value (u ".nan") then NNaN
  else if bool_decide (58 ∈ value) then
    num_mul sign (sum60 (rev (map parseFloat (split_on 58 value))) (num_of_Z 0) (num_of_Z 1))
  else num_mul sign (parseFloat value).

Inductive float_style := float_lowercase | float_uppercase | float_camelcase.

(** [/^[-+]?[0-9]+e/] *)
Definition SCIENTIFIC_WITHOUT_DOT : re := rcat [ropt sign; rplus digit; rc 101].

Definition representYamlFloat (object : num) (style : float_style) : jstr :=
  match object with
  | NNaN =>
      match style with
      | float_lowercase => u ".nan" | float_uppercase => u ".NAN" | float_camelcase => u ".NaN"
      end
  | NInf false =>
      match style with
      | float_lowercase => u ".inf" | float_uppercase => u ".INF" | float_camelcase => u ".Inf"
      end
  | NInf true =>
      match style with
      | float_lowercase => u "-.inf" | float_uppercase => u "-.INF" | float_camelcase => u "-.Inf"
      end
  | _ =>
      if isNegativeZero object then u "-0.0"
      else
        let res := num_to_radix 10 object in
        if rprefix SCIENTIFIC_WITHOUT_DOT res then replace_first (u "e") (u ".e") res else res
  end.

(** [representYamlFloat] for any style: for one it does not know, the number is
    written the way JavaScript does. *)
Definition representYamlFloat_style (object : num) (style : option jstr) : jstr :=
  let named s := match style with Some t => streq t s | None => false end in
  if named (u "lowercase") then representYamlFloat object float_lowercase
  else if named (u "uppercase") then representYamlFloat object float_uppercase
  else if named (u "camelcase") then representYamlFloat object float_camelcase
  else
    match object with
    | NNaN | NInf _ => num_to_radix 10 object
    | _ => representYamlFloat object float_lowercase
    end.

(** [object % 1 !== 0 || isNegativeZero(object)]. *)
Definition isFloat (object : value) : bool :=
  match object with
  | VNum (NFin neg m) => isNegativeZero (NFin neg m)
  | VNum _ => true
  | _ => false
  end.

(** ** Strings and merge keys *)

(** The [construct] of the type [str]. *)
Definition constructYamlStr (data : option jstr) : jstr := default [] data.

Definition resolveYamlMerge (data : option jstr) : bool :=
  match data with None => true | Some data => streq data (u "<<") end.

Example float_texts :
  map (fun s => (resolveYamlFloat (Some s), num_to_string (constructYamlFloat s)))
      [u "1."; u "-1_0.5e+2"; u ".5"; u "-.5"; u "1:30.5"; u "-.Inf"; u ".NaN"; u "1e3"]
  = [(true, u "1"); (true, u "-1050"); (true, u "0.5"); (false, u "-0.5"); (true, u "90.5"); (true, u "-Infinity");
     (true, u "NaN"); (false, u "1000")].
Proof. vm_compute. reflexivity. Qed.
