(* ===== verification/YamlTimestamp.v ===== *)
(** js-yaml's [timestamp] type (module 140), with the calendar of the Date
    object: [Date.UTC] and [toISOString]. *)

From Stdlib Require Import ZArith Lia List String Bool.
From stdpp Require Import base list sets list_numbers tactics.
From S2P Require Import Prelude JsNum Js YamlCommon.

(** ** The calendar *)

Definition msPerDay : Z := 86400000.

(** The number of days from the epoch to the first of January of a year. *)
Definition DayFromYear (y : Z) : Z :=
  365 * (y - 1970) + (y - 1969) / 4 - (y - 1901) / 100 + (y - 1601) / 400.

Definition leap (y : Z) : bool :=
  ((y mod 4 =? 0) && negb (y mod 100 =? 0)) || (y mod 400 =? 0).

Definition days_in_months (y : Z) : list Z :=
  [31; if leap y then 29 else 28; 31; 30; 31; 30; 31; 31; 30; 31; 30; 31].

Definition sum_days (l : list Z) : Z := fold_right Z.add 0 l.

(** The days before a month, 0 to 11, in its year. *)
Definition month_start (y m : Z) : Z := sum_days (take (Z.to_nat m) (days_in_months y)).

(** MakeDay and [Date.UTC]: two-digit years are in the twentieth century. *)
Definition MakeDay (y m d : Z) : Z :=
  let ym := y + m / 12 in DayFromYear ym + month_start ym (m mod 12) + d - 1.

Definition TimeClip (t : Z) : option Z := if Z.abs t <=? 8640000000000000 then Some t else None.

Definition Date_UTC (y m d h mi s ms : Z) : option Z :=
  let y := if (0 <=? y) && (y <=? 99) then 1900 + y else y in
  TimeClip (MakeDay y m d * msPerDay + h * 3600000 + mi * 60000 + s * 1000 + ms).

(** The year of a day: the estimate is one off at most. *)
Definition YearFromDay (d : Z) : Z :=
  let y := 1970 + (400 * d) / 146097 in
  if d <? DayFromYear y then y - 1 else if DayFromYear (y + 1) <=? d then y + 1 else y.

(** The month of a day of the year and the day of the month, from 1. *)
Fixpoint month_of (months : list Z) (m d : Z) : Z * Z :=
  match months with
  | [] => (m, d + 1)
  | n :: months => if d <? n then (m, d + 1) else month_of months (m + 1) (d - n)
  end.

(** [n] digits of a number. *)
Fixpoint digits_n (n : nat) (v : Z) : jstr :=
  match n with O => [] | S n => digits_n n (v / 10) ++ [48 + v mod 10] end.

(** [Date.prototype.toISOString]. *)
Definition toISOString (t : Z) : jstr :=
  let day := t / msPerDay in
  let ms := t mod msPerDay in
  let y := YearFromDay day in
  let '(m, d) := month_of (days_in_months y) 0 (day - DayFromYear y) in
  (if (0 <=? y) && (y <=? 9999) then digits_n 4 y
   else (if y <? 0 then u "-" else u "+") ++ digits_n 6 (Z.abs y))
  ++ u "-" ++ digits_n 2 (m + 1) ++ u "-" ++ digits_n 2 d
  ++ u "T" ++ digits_n 2 (ms / 3600000) ++ u ":" ++ digits_n 2 (ms / 60000 mod 60)
  ++ u ":" ++ digits_n 2 (ms / 1000 mod 60) ++ u "." ++ digits_n 3 (ms mod 1000) ++ u "Z".

(** ** The patterns and their groups *)

Definition is_dec (c : Z) : bool := (48 <=? c) && (c <=? 57).

(** [([0-9]...)] of exactly [n] digits: the digits and the rest. *)
Fixpoint exactly (n : nat) (s : jstr) : option (jstr * jstr) :=
  match n with
  | O => Some ([], s)
  | S n =>
      match s with
      | c :: s => if is_dec c then match exactly n s with Some (d, r) => Some (c :: d, r) | None => None end else None
      | [] => None
      end
  end.

(** [([0-9][0-9]?)] *)
Definition one_or_two (s : jstr) : option (jstr * jstr) :=
  match exactly 2 s with Some r => Some r | None => exactly 1 s end.

Definition expect (c : Z) (s : jstr) : option jstr :=
  match s with x :: s => if x =? c then Some s else None | [] => None end.

Fixpoint skip_blanks (s : jstr) : jstr :=
  match s with c :: s' => if (c =? 32) || (c =? 9) then skip_blanks s' else s | [] => [] end.

(** Sequencing of the parts of a pattern. *)
Definition opt_bind {A B} (m : option A) (f : A -> option B) : option B :=
  match m with Some a => f a | None => None end.
Notation "x <-! m ; k" := (opt_bind m (fun x => k)) (at level 100, m at next level, k at level 200, right associativity).

(** The groups of the two patterns: year, month and day; hour, minute, second
    and fraction; sign, hour and minute of the zone. *)
Record groups := Groups {
  g_date : jstr * jstr * jstr;
  g_time : option (jstr * jstr * jstr * jstr);
  g_zone : option (Z * jstr * jstr)
}.

(** [YAML_DATE_REGEXP.exec]. *)
Definition YAML_DATE_REGEXP (s : jstr) : option groups :=
  y <-! exactly 4 s; s <-! expect 45 y.2; m <-! exactly 2 s; s <-! expect 45 m.2; d <-! exactly 2 s;
  match d.2 with [] => Some (Groups (y.1, m.1, d.1) None None) | _ => None end.

(** [(?:[ \t]*(Z|([-+])([0-9][0-9]?)(?::([0-9][0-9]))?))?$] *)
Definition zone_part (s : jstr) : option (option (Z * jstr * jstr)) :=
  match s with
  | [] => Some None
  | _ =>
      match skip_blanks s with
      | c :: s =>
          if c =? 90 then match s with [] => Some None | _ => None end
          else if (c =? 45) || (c =? 43) then
            h <-! one_or_two s;
            match h.2 with
            | [] => Some (Some (c, h.1, []))
            | _ => s <-! expect 58 h.2; m <-! exactly 2 s;
                   match m.2 with [] => Some (Some (c, h.1, m.1)) | _ => None end
            end
          else None
      | [] => None
      end
  end.

(** [YAML_TIMESTAMP_REGEXP.exec]. *)
Definition YAML_TIMESTAMP_REGEXP (s : jstr) : option groups :=
  y <-! exactly 4 s; s <-! expect 45 y.2; m <-! one_or_two s; s <-! expect 45 m.2; d <-! one_or_two s;
  s <-! match d.2 with
        | c :: s => if (c =? 84) || (c =? 116) then Some s
                    else if (c =? 32) || (c =? 9) then Some (skip_blanks s) else None
        | [] => None
        end;
  h <-! one_or_two s; s <-! expect 58 h.2; mi <-! exactly 2 s; s <-! expect 58 mi.2; sec <-! exactly 2 s;
  let '(frac, s) := match sec.2 with
                    | c :: s => if c =? 46 then take_digits s else ([], sec.2)
                    | [] => ([], [])
                    end in
  z <-! zone_part s;
  Some (Groups (y.1, m.1, d.1) (Some (h.1, mi.1, sec.1, frac)) z).

(** ** The type *)

Definition resolveYamlTimestamp (data : option jstr) : bool :=
  match data with
  | None => false
  | Some data => match YAML_DATE_REGEXP data with
                 | Some _ => true
                 | None => match YAML_TIMESTAMP_REGEXP data with Some _ => true | None => false end
                 end
  end.

(** The milliseconds of a fraction: its first three digits, padded. *)
Definition fraction_ms (frac : jstr) : Z :=
  match frac with
  | [] => 0
  | _ => let f := take 3 frac in digits_val 10 (f ++ repeat 48 (3 - length f))
  end.

Definition zone_delta (z : option (Z * jstr * jstr)) : Z :=
  match z with
  | Some (sign, h, m) =>
      let delta := (digits_val 10 h * 60 + digits_val 10 m) * 60000 in
      if sign =? 45 then - delta else delta
  | None => 0
  end.

Definition constructYamlTimestamp (data : jstr) : res (option Z) :=
  match (match YAML_DATE_REGEXP data with Some g => Some g | None => YAML_TIMESTAMP_REGEXP data end) with
  | None => Err (PlainError (u "Date resolve error"))
  | Some g =>
      let '(y, m, d) := g_date g in
      let year := digits_val 10 y in
      let month := digits_val 10 m - 1 in
      let day := digits_val 10 d in
      Ok match g_time g with
         | None => Date_UTC year month day 0 0 0 0
         | Some (h, mi, s, frac) =>
             match Date_UTC year month day (digits_val 10 h) (digits_val 10 mi) (digits_val 10 s) (fraction_ms frac) with
             | Some t => TimeClip (t - zone_delta (g_zone g))
             | None => None
             end
         end
  end.

(** [object.toISOString()] throws on an invalid date. *)
Definition representYamlTimestamp (object : option Z) : res jstr :=
  match object with Some t => Ok (toISOString t) | None => Err RangeError end.

Example timestamp_examples :
  (match constructYamlTimestamp (u "2001-12-14t21:59:43.10-05:00") with Ok (Some t) => toISOString t | _ => [] end,
   match constructYamlTimestamp (u "2001-1-1   2:3:04") with Ok (Some t) => toISOString t | _ => [] end,
   match constructYamlTimestamp (u "2002-12-14") with Ok (Some t) => toISOString t | _ => [] end,
   match constructYamlTimestamp (u "2001-13-32") with Ok (Some t) => toISOString t | _ => [] end)
  = (u "2001-12-15T02:59:43.100Z", [], u "2002-12-14T00:00:00.000Z", u "2002-02-01T00:00:00.000Z").
Proof. vm_compute. reflexivity. Qed.

(** ** The calendar is consistent *)

Lemma DayFromYear_succ y : DayFromYear (y + 1) = DayFromYear y + 365 + (if leap y then 1 else 0).
Proof.
  unfold DayFromYear, leap.
  destruct (y mod 4 =? 0) eqn:E4, (y mod 100 =? 0) eqn:E100, (y mod 400 =? 0) eqn:E400; breflect; cbn [andb orb negb];
    Z.to_euclidean_division_equations; lia.
Qed.

Lemma YearFromDay_spec d :
  DayFromYear (YearFromDay d) <= d < DayFromYear (YearFromDay d + 1).
Proof.
  unfold YearFromDay. set (y := 1970 + 400 * d / 146097).
  assert (DayFromYear (y - 1) <= d < DayFromYear (y + 2)) as Hy.
  { subst y. unfold DayFromYear. Z.to_euclidean_division_equations; lia. }
  destruct (d <? DayFromYear y) eqn:E1; breflect; [replace (y - 1 + 1) with y by lia; lia|].
  destruct (DayFromYear (y + 1) <=? d) eqn:E2; breflect; [|lia].
  replace (y + 1 + 1) with (y + 2) by lia. lia.
Qed.

Lemma DayFromYear_mono y z : y <= z -> DayFromYear y <= DayFromYear z.
Proof. intros. unfold DayFromYear. Z.to_euclidean_division_equations; lia. Qed.

Lemma sum_months y : sum_days (days_in_months y) = DayFromYear (y + 1) - DayFromYear y.
Proof. rewrite DayFromYear_succ. cbn. destruct (leap y); lia. Qed.

Lemma month_of_spec months m d :
  0 <= d < sum_days months ->
  exists i, (i < length months)%nat
    /\ month_of months m d = (m + Z.of_nat i, d - sum_days (take i months) + 1)
    /\ 0 <= d - sum_days (take i months) < nth i months 0.
Proof.
  revert m d. induction months as [|n months IH]; intros m d Hd; cbn in *; [lia|].
  destruct (d <? n) eqn:E; breflect.
  - exists O. cbn. split; [lia|]. split; [f_equal; lia|lia].
  - destruct (IH (m + 1) (d - n)) as (i & Hi & Hm & Hr); [unfold sum_days in *; lia|].
    exists (S i). cbn. rewrite Hm. split; [lia|]. unfold sum_days in *. split; [f_equal; lia|lia].
Qed.

(** ** Digits *)

Lemma digits_n_length n v : length (digits_n n v) = n.
Proof. revert v; induction n as [|n IH]; intros v; cbn; [done|]. rewrite length_app, IH. cbn. lia. Qed.

Lemma digits_n_dec n v : Forall (fun c => is_dec c = true) (digits_n n v).
Proof.
  revert v; induction n as [|n IH]; intros v; cbn; [constructor|].
  apply Forall_app; split; [apply IH|]. repeat constructor. unfold is_dec.
  pose proof (Z.mod_pos_bound v 10 ltac:(lia)). apply andb_true_iff. rewrite !Z.leb_le. lia.
Qed.

Lemma digits_n_val n v : 0 <= v -> digits_val 10 (digits_n n v) = v mod 10 ^ Z.of_nat n.
Proof.
  revert v; induction n as [|n IH]; intros v Hv; [by rewrite Z.mod_1_r|]. cbn [digits_n].
  unfold digits_val in *. rewrite fold_left_app, IH by (apply Z.div_pos; lia). cbn [fold_left].
  pose proof (Z.mod_pos_bound v 10 ltac:(lia)).
  replace (48 + v mod 10) with (digit_char (v mod 10)) by (unfold digit_char; case_goal; breflect; lia).
  rewrite digit_val_char by lia. rewrite Nat2Z.inj_succ, Z.pow_succ_r by lia.
  rewrite (Z.rem_mul_r v 10) by lia. lia.
Qed.

Lemma exactly_app l s : Forall (fun c => is_dec c = true) l -> exactly (length l) (l ++ s) = Some (l, s).
Proof. induction 1 as [|c l Hc _ IH]; cbn; [done|]. by rewrite Hc, IH. Qed.

Lemma exactly_digits n v s : exactly n (digits_n n v ++ s) = Some (digits_n n v, s).
Proof. rewrite <- (digits_n_length n v) at 1. apply exactly_app, digits_n_dec. Qed.

Lemma expect_cons c s : expect c (c :: s) = Some s.
Proof. cbn. by rewrite Z.eqb_refl. Qed.

Lemma is_dec_digit x : is_digit_in 10 x = is_dec x.
Proof.
  apply eq_true_iff_eq. unfold is_digit_in, digit_of, is_dec. rewrite andb_true_iff, !Z.leb_le.
  repeat case_goal; breflect; rewrite ?Z.ltb_lt; rewrite ?andb_false_iff, ?Z.leb_gt in *;
    (split; intros; try discriminate; lia).
Qed.

Lemma take_digits_dec l c s :
  Forall (fun c => is_dec c = true) l -> is_dec c = false -> take_digits (l ++ c :: s) = (l, c :: s).
Proof.
  intros Hl Hc. apply take_digits_app; [|by rewrite is_dec_digit].
  eapply Forall_impl; [|exact Hl]. intros x Hx. by rewrite is_dec_digit.
Qed.

(** The text of a date in four-digit years and its groups. *)
Definition iso_text (y m d h mi s ms : Z) : jstr :=
  digits_n 4 y ++ 45 :: digits_n 2 m ++ 45 :: digits_n 2 d ++ 84 :: digits_n 2 h ++ 58 :: digits_n 2 mi
  ++ 58 :: digits_n 2 s ++ 46 :: digits_n 3 ms ++ [90].

Lemma one_or_two_digits v s : one_or_two (digits_n 2 v ++ s) = Some (digits_n 2 v, s).
Proof. unfold one_or_two. by rewrite exactly_digits. Qed.

Lemma iso_text_date y m d h mi s ms : YAML_DATE_REGEXP (iso_text y m d h mi s ms) = None.
Proof.
  unfold YAML_DATE_REGEXP, iso_text.
  do 3 (rewrite exactly_digits; cbn [opt_bind fst snd]; rewrite ?expect_cons; cbn [opt_bind]). done.
Qed.

Lemma iso_text_groups y m d h mi s ms :
  YAML_TIMESTAMP_REGEXP (iso_text y m d h mi s ms)
  = Some (Groups (digits_n 4 y, digits_n 2 m, digits_n 2 d)
            (Some (digits_n 2 h, digits_n 2 mi, digits_n 2 s, digits_n 3 ms)) None).
Proof.
  unfold YAML_TIMESTAMP_REGEXP, iso_text.
  rewrite exactly_digits; cbn [opt_bind fst snd]; rewrite expect_cons; cbn [opt_bind].
  rewrite one_or_two_digits; cbn [opt_bind fst snd]; rewrite expect_cons; cbn [opt_bind].
  rewrite one_or_two_digits; cbn [opt_bind fst snd].
  change (84 =? 84) with true. cbn [orb opt_bind].
  rewrite one_or_two_digits; cbn [opt_bind fst snd]; rewrite expect_cons; cbn [opt_bind].
  rewrite exactly_digits; cbn [opt_bind fst snd]; rewrite expect_cons; cbn [opt_bind].
  rewrite exactly_digits; cbn [opt_bind fst snd].
  change (46 =? 46) with true. cbv iota.
  by rewrite take_digits_dec by (apply digits_n_dec || done).
Qed.

Lemma iso_text_construct y m d h mi s ms :
  100 <= y <= 9999 -> 1 <= m <= 12 -> 0 <= d <= 31 -> 0 <= h < 24 -> 0 <= mi < 60 -> 0 <= s < 60 -> 0 <= ms < 1000 ->
  constructYamlTimestamp (iso_text y m d h mi s ms)
  = Ok (TimeClip (MakeDay y (m - 1) d * msPerDay + h * 3600000 + mi * 60000 + s * 1000 + ms)).
Proof.
  intros Hy Hm Hd Hh Hmi Hs Hms. unfold constructYamlTimestamp. rewrite iso_text_date, iso_text_groups.
  cbn [g_date g_time g_zone]. rewrite !digits_n_val by lia.
  rewrite !Z.mod_small by (cbn; lia).
  assert (fraction_ms (digits_n 3 ms) = ms) as ->.
  { unfold fraction_ms. destruct (digits_n 3 ms) eqn:E; [by apply (f_equal length) in E; rewrite digits_n_length in E|].
    rewrite <- E. rewrite take_ge by (rewrite digits_n_length; lia). rewrite digits_n_length. cbn [repeat Nat.sub].
    rewrite app_nil_r, digits_n_val, Z.mod_small by (cbn; lia). done. }
  unfold Date_UTC. replace ((0 <=? y) && (y <=? 99)) with false by (symmetry; rewrite andb_false_iff, !Z.leb_gt; lia).
  f_equal. unfold zone_delta. unfold TimeClip at 1. case_goal; [|unfold TimeClip; by rewrite E].
  f_equal. lia.
Qed.

Lemma time_parts ms :
  0 <= ms < 86400000 ->
  ms / 3600000 * 3600000 + ms / 60000 mod 60 * 60000 + ms / 1000 mod 60 * 1000 + ms mod 1000 = ms.
Proof. intros. Z.to_euclidean_division_equations; lia. Qed.

(** A date of the years 100 to 9999 is written so that it is resolved as a
    timestamp and read back to the millisecond. *)
Theorem representYamlTimestamp_roundtrip t :
  100 <= YearFromDay (t / msPerDay) <= 9999 ->
  exists s, representYamlTimestamp (Some t) = Ok s /\ resolveYamlTimestamp (Some s) = true
    /\ constructYamlTimestamp s = Ok (Some t).
Proof.
  intros Hy. exists (toISOString t). split; [done|].
  pose proof (YearFromDay_spec (t / msPerDay)) as Hday.
  unfold toISOString. set (day := t / msPerDay) in *. set (y := YearFromDay day) in *.
  destruct (month_of_spec (days_in_months y) 0 (day - DayFromYear y)) as (i & Hi & -> & Hd); [rewrite sum_months; lia|].
  set (d := day - DayFromYear y - sum_days (take i (days_in_months y)) + 1) in *.
  replace ((0 <=? y) && (y <=? 9999)) with true by (symmetry; rewrite andb_true_iff, !Z.leb_le; lia).
  cbn [length days_in_months] in Hi.
  assert (1 <= d <= 31) as Hdr.
  { subst d. assert (nth i (days_in_months y) 0 <= 31) by (do 12 (destruct i as [|i]; [cbn; destruct (leap y); lia|]); lia). lia. }
  set (ms := t mod msPerDay). assert (0 <= ms < 86400000) as Hms by (apply Z.mod_pos_bound; unfold msPerDay; lia).
  change (constructYamlTimestamp _) with
    (constructYamlTimestamp (iso_text y (0 + Z.of_nat i + 1) d (ms / 3600000) (ms / 60000 mod 60) (ms / 1000 mod 60) (ms mod 1000))).
  change (resolveYamlTimestamp _) with
    (resolveYamlTimestamp (Some (iso_text y (0 + Z.of_nat i + 1) d (ms / 3600000) (ms / 60000 mod 60) (ms / 1000 mod 60) (ms mod 1000)))).
  split; [unfold resolveYamlTimestamp; by rewrite iso_text_date, iso_text_groups|].
  assert (MakeDay y (0 + Z.of_nat i + 1 - 1) d = day) as Hmk.
  { unfold MakeDay. rewrite Z.div_small, Z.mod_small by lia. unfold month_start.
    replace (Z.to_nat (0 + Z.of_nat i + 1 - 1)) with i by lia. rewrite Z.add_0_r. lia. }
  rewrite iso_text_construct; [rewrite Hmk|lia|lia|lia|..]; try (Z.to_euclidean_division_equations; lia).
  pose proof (Z.div_mod t msPerDay ltac:(done)) as Ht. fold day ms in Ht.
  pose proof (time_parts ms Hms) as Hp.
  replace (day * msPerDay + ms / 3600000 * 3600000 + ms / 60000 mod 60 * 60000 + ms / 1000 mod 60 * 1000 + ms mod 1000)
    with t by lia.
  unfold TimeClip. replace (Z.abs t <=? 8640000000000000) with true; [done|]. symmetry. apply Z.leb_le.
  pose proof (DayFromYear_mono 100 y ltac:(lia)). pose proof (DayFromYear_mono (y + 1) 10000 ltac:(lia)).
  assert (DayFromYear 100 = -683003 /\ DayFromYear 10000 = 2932897) as [H1 H2] by done.
  unfold msPerDay in Ht. clearbody day y ms. lia.
Qed.

Lemma representYamlTimestamp_roundtrip_witness :
  toISOString 951782400123 = u "2000-02-29T00:00:00.123Z"
  /\ constructYamlTimestamp (u "2000-02-29T00:00:00.123Z") = Ok (Some 951782400123).
Proof.
  split; [reflexivity|].
  assert (100 <= YearFromDay (951782400123 / msPerDay) <= 9999) as Hy by (vm_compute; split; discriminate).
  pose proof (representYamlTimestamp_roundtrip 951782400123 Hy) as (s & H1 & _ & H2).
  assert (representYamlTimestamp (Some 951782400123) = Ok (u "2000-02-29T00:00:00.123Z")) as He by reflexivity.
  rewrite He in H1. injection H1 as ->. exact H2.
Defined.
