(* ===== verification/YamlImplicit.v ===== *)
(** The implicit types of js-yaml's default schema: no plain scalar belongs to
    two of them, so that the order in which they are tried does not matter. *)

From Stdlib Require Import ZArith Lia List String Bool.
From stdpp Require Import base list sets list_numbers tactics.
From S2P Require Import Prelude JsNum Js Regex YamlCommon YamlInt YamlFloat YamlTimestamp.

(** The implicit types of the default safe schema, in its order. *)
Definition implicit_resolvers (data : option jstr) : list bool :=
  [resolveYamlNull data; resolveYamlBoolean data; resolveYamlInteger data; resolveYamlFloat data;
   resolveYamlTimestamp data; resolveYamlMerge data].

Lemma null_texts data :
  resolveYamlNull (Some data) = true -> In data [u "~"; u "null"; u "Null"; u "NULL"].
Proof.
  unfold resolveYamlNull. rewrite orb_true_iff, !andb_true_iff, !orb_true_iff, !streq_eq. cbn. intuition auto.
Qed.

Lemma bool_texts data :
  resolveYamlBoolean (Some data) = true ->
  In data [u "true"; u "True"; u "TRUE"; u "false"; u "False"; u "FALSE"].
Proof.
  unfold resolveYamlBoolean. rewrite orb_true_iff, !andb_true_iff, !orb_true_iff, !streq_eq. cbn. intuition auto.
Qed.

(** ** The characters of integers *)

(** Neither a dot nor, after the first character, a minus. *)
Definition int_char (c : Z) : Prop := c <> 46 /\ c <> 45.

Lemma resolve_digits_chars ok s h :
  (forall c, ok c = true -> int_char c) -> resolve_digits ok s h = true -> Forall int_char s.
Proof.
  intros Hok. revert h. induction s as [|c s IH]; intros h H; cbn in H; [constructor|].
  destruct (c =? 95) eqn:E; breflect.
  - constructor; [unfold int_char; lia|by eapply IH].
  - destruct (ok c) eqn:Eo; [|done]. constructor; [by apply Hok|by eapply IH].
Qed.

Lemma sexagesimal_chars s : rmatch sexagesimal s = true -> Forall int_char s.
Proof.
  intros (l & _ & -> & Hl)%rmatch_lang%lang_rplus. apply Forall_concat. eapply Forall_impl; [|exact Hl].
  intros p (s1 & s2 & -> & (c & -> & Hc)%lang_rset &
            (s3 & s4 & -> & H3%lang_ropt & (s5 & s6 & -> & (d & -> & Hd)%lang_rset & ->%lang_rcat_nil)%lang_rcat_cons)%lang_rcat_cons)%lang_rcat_cons.
  assert (forall l c, forallb (fun r => 46 <? r.1) l = true -> in_ranges l c = true -> int_char c) as Hr.
  { intros l0 c0 Hl0 Hc0. unfold in_ranges in Hc0. apply existsb_exists in Hc0 as (r & Hr & Hc0).
    rewrite forallb_forall in Hl0. specialize (Hl0 _ Hr). unfold int_char. breflect. lia. }
  assert (forall l c, forallb (fun r => 46 <? r.1) l = true -> in_ranges l c = true -> Forall int_char [c]) as Hr1
    by (intros; constructor; [eapply Hr; [|eassumption]; done|constructor]).
  rewrite !Forall_app. split; [eapply Hr1; [|eassumption]; done|]. split; [|split; [eapply Hr1; [|eassumption]; done|constructor]].
  destruct H3 as [(e & -> & He)%lang_rset| ->]; [eapply Hr1; [|eassumption]; done|constructor].
Qed.

Lemma resolve_decimal_chars s h h' rest :
  resolve_decimal s h = Some (h', rest) -> exists p, s = p ++ rest /\ Forall int_char p.
Proof.
  revert h. induction s as [|c s IH]; intros h H; cbn in H; [injection H as _ <-; by exists []|].
  assert (forall h0, int_char c -> resolve_decimal s h0 = Some (h', rest) ->
            exists p, c :: s = p ++ rest /\ Forall int_char p) as Hc.
  { intros h0 Hc Hs. destruct (IH _ Hs) as (p & -> & Hp). exists (c :: p). by split; [|constructor]. }
  destruct (c =? 95) eqn:E; breflect; [apply (Hc h); [unfold int_char; lia|done]|].
  destruct (c =? 58) eqn:E58; [injection H as _ <-; by exists []|].
  destruct (isDecCode c) eqn:Ed; [|done]. apply (Hc true); [|done]. unfold isDecCode in Ed. breflect. unfold int_char. lia.
Qed.

Lemma int_chars data :
  resolveYamlInteger (Some data) = true -> exists c s, data = c :: s /\ c <> 46 /\ Forall int_char s.
Proof.
  unfold resolveYamlInteger. destruct data as [|c data]; [done|]. intros H.
  destruct (strip_sign (c :: data)) as [neg s] eqn:Es.
  assert (Forall int_char s) as Hs.
  { assert (forall s, match resolve_decimal s false with
                      | Some (true, []) => true | Some (true, rest) => rmatch sexagesimal rest
                      | Some (false, _) | None => false end = true -> Forall int_char s) as Hdec.
    { intros s0 H0. destruct (resolve_decimal s0 false) as [[[|] rest]|] eqn:E; try done.
      destruct (resolve_decimal_chars _ _ _ _ E) as (p & -> & Hp). apply Forall_app_2; [done|].
      destruct rest as [|x rest]; [constructor|]. by apply sexagesimal_chars. }
    destruct s as [|ch s]; [by apply Hdec|]. destruct (ch =? 48) eqn:E48; [|by apply Hdec]. breflect. subst.
    constructor; [done|]. destruct s as [|ch s]; [constructor|].
    destruct (ch =? 98) eqn:E98; [|destruct (ch =? 120) eqn:E120]; breflect.
    - constructor; [unfold int_char; lia|]. eapply resolve_digits_chars; [|done].
      intros x Hx. unfold isBinCode in Hx. apply orb_true_iff in Hx as [Hx|Hx]; breflect; unfold int_char; lia.
    - constructor; [unfold int_char; lia|]. eapply resolve_digits_chars; [|done].
      intros x Hx. unfold isHexCode in Hx. repeat (apply orb_true_iff in Hx as [Hx|Hx]); breflect; unfold int_char; lia.
    - eapply resolve_digits_chars; [|done]. intros x Hx. unfold isOctCode in Hx. breflect. unfold int_char. lia. }
  exists c, data. split; [done|]. cbn in Es.
  destruct (c =? 45) eqn:E45; [|destruct (c =? 43) eqn:E43]; injection Es as <- <-; breflect; subst; try done.
  inversion Hs as [|? ? [? ?] ?]; subst. done.
Qed.

(** ** The shapes of floats and timestamps *)

(** A pattern that matches nothing. *)
Fixpoint dead (r : re) : bool :=
  match r with
  | RNone => true
  | RCat a b => dead a || dead b
  | RAlt a b => dead a && dead b
  | REmpty | RSet _ | RStar _ => false
  end.

Lemma dead_lang r s : dead r = true -> ~ lang r s.
Proof.
  revert s. induction r as [| | |a IHa b IHb|a IHa b IHb|]; intros s Hd H; try discriminate; cbn in Hd.
  - inversion H.
  - apply lang_cat_inv in H as (s1 & s2 & -> & H1 & H2). apply orb_true_iff in Hd as [Hd|Hd]; [by eapply IHa|by eapply IHb].
  - apply andb_true_iff in Hd as [Ha Hb]. apply lang_ralt in H as [H|H]; [by eapply IHa|by eapply IHb].
Qed.

Lemma dead_match r s : dead r = true -> rmatch r s = false.
Proof. intros Hd. apply not_true_iff_false. rewrite rmatch_lang. by apply dead_lang. Qed.

(** A dot is in every text that a pattern of the float type matches. *)
Fixpoint needs (c : Z) (r : re) : bool :=
  match r with
  | RNone => true
  | RSet l => forallb (fun r => (r.1 =? c) && (r.2 =? c)) l
  | RCat a b => needs c a || needs c b
  | RAlt a b => needs c a && needs c b
  | REmpty | RStar _ => false
  end.

Lemma needs_lang c r s : needs c r = true -> lang r s -> c ∈ s.
Proof.
  intros Hn H. induction H as [|l x Hx|a b s t H1 IH1 H2 IH2|a b s H IH|a b s H IH| |]; try discriminate; cbn in Hn.
  - unfold in_ranges in Hx. apply existsb_exists in Hx as (r & Hr & Hx). rewrite forallb_forall in Hn.
    specialize (Hn r Hr). breflect. rewrite list_elem_of_singleton. lia.
  - apply elem_of_app. apply orb_true_iff in Hn as [Hn|Hn]; [left; by apply IH1|right; by apply IH2].
  - apply andb_true_iff in Hn as [Hn _]. by apply IH.
  - apply andb_true_iff in Hn as [_ Hn]. by apply IH.
Qed.

Lemma float_dot data : resolveYamlFloat (Some data) = true -> 46 ∈ data.
Proof. intros H%rmatch_lang. by apply (needs_lang 46 YAML_FLOAT_PATTERN). Qed.

Lemma is_dec_cases c : is_dec c = true -> In c [48; 49; 50; 51; 52; 53; 54; 55; 56; 57].
Proof. unfold is_dec. intros H. breflect. cbn. lia. Qed.

(** A derivative that is the same for all digits. *)
Lemma deriv_digit r x :
  is_dec x = true ->
  forallb (fun y => bool_decide (deriv y r = deriv 48 r)) [48; 49; 50; 51; 52; 53; 54; 55; 56; 57] = true ->
  deriv x r = deriv 48 r.
Proof.
  intros Hx Hr. rewrite forallb_forall in Hr. by apply is_dec_cases, Hr, bool_decide_eq_true_1 in Hx.
Qed.

(** The derivatives of the float pattern along digits. *)
Lemma float_digits a b c d s :
  is_dec a = true -> is_dec b = true -> is_dec c = true -> is_dec d = true ->
  resolveYamlFloat (Some (a :: b :: c :: d :: 45 :: s)) = false.
Proof.
  intros Ha Hb Hc Hd.
  unfold resolveYamlFloat. cbn [rmatch].
  rewrite (deriv_digit YAML_FLOAT_PATTERN a), (deriv_digit _ b), (deriv_digit _ c), (deriv_digit _ d)
    by (done || vm_compute; reflexivity).
  by apply dead_match.
Qed.

Lemma exactly_spec n s d r :
  exactly n s = Some (d, r) -> s = d ++ r /\ length d = n /\ Forall (fun c => is_dec c = true) d.
Proof.
  revert s d r; induction n as [|n IH]; intros s d r H; cbn in H; [by injection H as <- <-|].
  destruct s as [|c s]; [done|]. destruct (is_dec c) eqn:E; [|done].
  destruct (exactly n s) as [[d' r']|] eqn:Ex; [|done]. injection H as <- <-.
  destruct (IH _ _ _ Ex) as (-> & <- & Hd). by repeat split; [constructor|..].
Qed.

(** A timestamp starts with four digits and a minus. *)
Lemma timestamp_start data :
  resolveYamlTimestamp (Some data) = true ->
  exists a b c d s, data = a :: b :: c :: d :: 45 :: s
    /\ is_dec a = true /\ is_dec b = true /\ is_dec c = true /\ is_dec d = true.
Proof.
  intros H. assert (exists y s, exactly 4 data = Some y /\ expect 45 y.2 = Some s) as (y & s & Hy & Hs).
  { unfold resolveYamlTimestamp, YAML_DATE_REGEXP, YAML_TIMESTAMP_REGEXP in H.
    destruct (exactly 4 data) as [y|]; [|done]. cbn [opt_bind] in H.
    destruct (expect 45 y.2) as [s|] eqn:E; [|done]. by exists y, s. }
  destruct y as [d r]. apply exactly_spec in Hy as (-> & Hl & Hd).
  destruct d as [|a [|b [|c [|d [|]]]]]; try done. cbn in Hs.
  destruct r as [|x r]; [done|]. cbn in Hs. destruct (x =? 45) eqn:E; [|done]. breflect. subst.
  rewrite !Forall_cons_iff in Hd. exists a, b, c, d, r. by destruct Hd as (? & ? & ? & ? & _).
Qed.

(** No text is resolved by two of the implicit types: which one is tried
    first does not matter. *)
Theorem implicit_disjoint data :
  (length (List.filter (fun b => b) (implicit_resolvers (Some data))) <= 1)%nat.
Proof.
  destruct (resolveYamlNull (Some data)) eqn:En.
  { apply null_texts in En. repeat (destruct En as [<-|En]; [vm_compute; lia|]). destruct En. }
  destruct (resolveYamlBoolean (Some data)) eqn:Eb.
  { apply bool_texts in Eb. repeat (destruct Eb as [<-|Eb]; [vm_compute; lia|]). destruct Eb. }
  destruct (resolveYamlMerge (Some data)) eqn:Em.
  { apply streq_eq in Em as ->. vm_compute. lia. }
  unfold implicit_resolvers. rewrite En, Eb, Em. cbn [List.filter].
  destruct (resolveYamlInteger (Some data)) eqn:Ei.
  - destruct (int_chars _ Ei) as (c & s & -> & Hc & Hs). rewrite Forall_elem in Hs.
    destruct (resolveYamlFloat (Some (c :: s))) eqn:Ef.
    { apply float_dot, elem_of_cons in Ef as [?|Ef]; [done|]. by destruct (Hs _ Ef). }
    destruct (resolveYamlTimestamp (Some (c :: s))) eqn:Et; cbn; [|lia].
    destruct (timestamp_start _ Et) as (a & b & c' & d & s' & [= -> ->] & _).
    destruct (Hs 45) as [_ []]; [set_solver|done].
  - destruct (resolveYamlTimestamp (Some data)) eqn:Et; [|case_goal; cbn; lia].
    destruct (timestamp_start _ Et) as (a & b & c' & d & s' & -> & Ha & Hb & Hc & Hd).
    rewrite float_digits by done. cbn. lia.
Qed.
