(* ===== verification/YamlTypes.v ===== *)
(** js-yaml's collection types [seq], [map], [omap], [pairs] and [set] (modules
    134, 135, 147 to 149) and the types [js/undefined] and [js/regexp] (151 and
    152). *)

From Stdlib Require Import ZArith Lia List String Bool.
From stdpp Require Import base list sets list_numbers tactics.
From S2P Require Import Prelude JsNum Js Regex YamlCommon.

(** ** Sequences and mappings *)

Definition constructYamlSeq (data : option (list value)) : list value := default [] data.
Definition constructYamlMap (data : option object) : object := default [] data.

(** ** [omap] *)

(** The loop over the items: each is an object with one key, new to [objectKeys]. *)
Fixpoint resolve_omap_loop (l : list value) (objectKeys : list jstr) : bool :=
  match l with
  | [] => true
  | VObj [(pairKey, _)] :: l =>
      if bool_decide (pairKey ∈ objectKeys) then false else resolve_omap_loop l (objectKeys ++ [pairKey])
  | _ :: _ => false
  end.

Definition resolveYamlOmap (data : option (list value)) : bool :=
  match data with None => true | Some l => resolve_omap_loop l [] end.

Definition constructYamlOmap (data : option (list value)) : list value := default [] data.

(** ** [pairs] *)

Definition one_key (pair : value) : bool := match pair with VObj [_] => true | _ => false end.

Definition resolveYamlPairs (data : option (list value)) : bool :=
  match data with None => true | Some l => forallb one_key l end.

(** [[keys[0], pair[keys[0]]]]; [keys[0]] is [undefined] for an object with no
    key, whose property [undefined] is read. *)
Definition pair_entry (pair : value) : res value :=
  match own_props pair with
  | (k, v) :: _ => Ok (VArr [VStr k; v])
  | [] => v <-? get_prop pair (u "undefined"); Ok (VArr [VUndef; v])
  end.

Definition constructYamlPairs (data : option (list value)) : res (list value) :=
  match data with None => Ok [] | Some l => res_map pair_entry l end.

(** ** [set] *)

Definition resolveYamlSet (data : option object) : bool :=
  match data with
  | None => true
  | Some object => forallb (fun kv => match kv.2 with VNull => true | _ => false end) object
  end.

Definition constructYamlSet (data : option object) : object := default [] data.

(** ** [js/undefined] *)

Definition resolveJavascriptUndefined (data : value) : bool := true.
Definition constructJavascriptUndefined (data : value) : value := VUndef.
Definition representJavascriptUndefined (object : value) : jstr := [].
Definition isUndefined (object : value) : bool := match object with VUndef => true | _ => false end.

(** ** [js/regexp] *)

Definition is_gim (c : Z) : bool := (c =? 103) || (c =? 105) || (c =? 109).

(** The group of [tail]: the modifiers at the end of the text, after a slash. *)
Fixpoint regexp_tail (s : jstr) : option jstr :=
  match s with
  | [] => None
  | c :: s => if (c =? 47) && forallb is_gim s then Some s else regexp_tail s
  end.

Definition resolveJavascriptRegExp (data : option jstr) : bool :=
  match data with
  | None | Some [] => false
  | Some (c :: s) =>
      if c =? 47 then
        let modifiers := default [] (regexp_tail (c :: s)) in
        if 3 <? zlen modifiers then false
        else bool_decide (zget (c :: s) (zlen (c :: s) - zlen modifiers - 1) = Some 47)
      else true
  end.

(** The pattern and the modifiers given to [new RegExp]. *)
Definition constructJavascriptRegExp (data : jstr) : jstr * jstr :=
  match data with
  | c :: s =>
      if c =? 47 then
        let modifiers := default [] (regexp_tail data) in
        (zslice 1 (zlen data - zlen modifiers - 1) data, modifiers)
      else (data, [])
  | [] => (data, [])
  end.

(** The modifiers in the order [gmi]. *)
Definition representJavascriptRegExp (source flags : jstr) : jstr :=
  [47] ++ source ++ [47] ++ List.filter (fun c => bool_decide (c ∈ flags)) (u "gmi").

(** ** Properties *)

Lemma resolve_omap_loop_spec l ks :
  resolve_omap_loop l ks = true <->
  exists kvs, l = map (fun kv => VObj [kv]) kvs /\ NoDup (map fst kvs) /\ (forall k, k ∈ map fst kvs -> k ∉ ks).
Proof.
  revert ks; induction l as [|v l IH]; intros ks.
  - split; [intros _; exists []; by repeat split; [constructor|set_solver]|done].
  - split.
    + destruct v as [| | | | | |[|[k v] [|]]| | |]; try done. cbn.
      destruct (bool_decide (k ∈ ks)) eqn:E; [done|]. breflect.
      intros (kvs & -> & Hnd & Hks)%IH. exists ((k, v) :: kvs). cbn. split; [done|]. split.
      * constructor; [|done]. intros Hk. apply (Hks k Hk). set_solver.
      * intros k' [->|Hk']%elem_of_cons; [done|]. specialize (Hks _ Hk'). set_solver.
    + intros ([|[k w] kvs] & Hl & Hnd & Hks); [done|]. cbn in Hl. injection Hl as -> ->.
      cbn in *. inversion Hnd; subst. rewrite bool_decide_eq_false_2 by set_solver.
      apply IH. exists kvs. split; [done|split; [done|]]. intros k' Hk'. specialize (Hks k'). set_solver.
Qed.

(** The type [omap] accepts exactly the lists of objects with a single key
    and no key twice; [pairs] reads such lists, keys repeated or not, as the
    list of the pairs of key and value. *)
Theorem omap_pairs_spec l :
  (resolveYamlOmap (Some l) = true <-> exists kvs, l = map (fun kv => VObj [kv]) kvs /\ NoDup (map fst kvs))
  /\ (resolveYamlPairs (Some l) = true <->
      exists kvs, l = map (fun kv => VObj [kv]) kvs
                  /\ constructYamlPairs (Some l) = Ok (map (fun kv => VArr [VStr kv.1; kv.2]) kvs)).
Proof.
  split.
  - cbn. rewrite resolve_omap_loop_spec. split; [naive_solver|].
    intros (kvs & -> & Hnd). exists kvs. repeat split; [done|set_solver].
  - cbn. split.
    + intros H. rewrite forallb_forall in H. induction l as [|v l IH]; [by exists []|].
      destruct IH as (kvs & -> & Hc); [intros x Hx; by apply H; right|].
      specialize (H v (or_introl eq_refl)). destruct v as [| | | | | |[|kv [|]]| | |]; try done.
      exists (kv :: kvs). split; [done|]. cbn. destruct kv as [k v]. cbn. by rewrite Hc.
    + intros (kvs & -> & _). apply forallb_forall. by intros ? (? & <- & ?)%in_map_iff.
Qed.

(** ** Regular expressions *)

Lemma regexp_tail_last s f : 47 ∉ f -> forallb is_gim f = true -> regexp_tail (s ++ 47 :: f) = Some f.
Proof.
  intros Hf Hg. induction s as [|c s IH]; cbn; [by rewrite Hg|]. rewrite IH.
  destruct (c =? 47); [|done]. cbn.
  destruct (forallb is_gim (s ++ 47 :: f)) eqn:E; [|done].
  rewrite forallb_app in E. apply andb_true_iff in E as [_ E]. by vm_compute in E.
Qed.

(** The text of a regular expression is resolved and gives back its source
    and its flags among [g], [m] and [i]. *)
Theorem representJavascriptRegExp_roundtrip source flags :
  let s := representJavascriptRegExp source flags in
  resolveJavascriptRegExp (Some s) = true
  /\ constructJavascriptRegExp s = (source, List.filter (fun c => bool_decide (c ∈ flags)) (u "gmi")).
Proof.
  cbv zeta. unfold representJavascriptRegExp. set (f := List.filter _ _).
  assert (47 ∉ f /\ forallb is_gim f = true /\ zlen f <= 3) as (Hf & Hg & Hl).
  { subst f. change (u "gmi") with [103; 109; 105]. cbn.
    destruct (bool_decide _), (bool_decide _), (bool_decide _); cbn; (split; [|by split]); set_solver by lia. }
  clearbody f. cbn [app].
  pose proof (regexp_tail_last (47 :: source) f Hf Hg) as Ht. cbn [app] in Ht.
  pose proof (zlen_nonneg source). pose proof (zlen_nonneg f).
  unfold resolveJavascriptRegExp, constructJavascriptRegExp.
  change (47 =? 47) with true. cbv iota. rewrite Ht. cbn [default from_option id].
  replace (3 <? zlen f) with false by (symmetry; apply Z.ltb_ge; lia).
  assert (zlen (47 :: source ++ 47 :: f) - zlen f - 1 = zlen source + 1) as ->
    by (rewrite zlen_cons, zlen_app, zlen_cons; lia).
  split.
  - apply bool_decide_eq_true_2. rewrite zget_cons, zget_app_r by lia.
    replace (zlen source + 1 - 1 - zlen source) with 0 by lia. done.
  - f_equal. change (47 :: source ++ 47 :: f) with ([47] ++ source ++ 47 :: f). unfold zslice.
    replace (Z.to_nat 1) with 1%nat by done. cbn [app drop]. rewrite drop_0. apply take_app_length'. unfold zlen. lia.
Qed.
