(* ===== verification/YamlSchema.v ===== *)
(** js-yaml's types and schemas (modules 127 to 132 and 150): the record of a
    type, the compilation of a schema and of its type map, and the schemas that
    [safeLoad] uses. *)

From Stdlib Require Import ZArith Lia List String Bool.
From stdpp Require Import base list sets list_numbers tactics.
From S2P Require Import Prelude JsNum Js YamlCommon YamlBinary YamlInt YamlFloat YamlTimestamp YamlTypes.

(** ** Types *)

Inductive kind := scalar | sequence | mapping.

#[export] Instance kind_eq_dec : EqDecision kind.
Proof. solve_decision. Defined.

Definition kind_name (k : kind) : jstr :=
  match k with scalar => u "scalar" | sequence => u "sequence" | mapping => u "mapping" end.

(** [compileStyleAliases]: the style of each alias. *)
Definition compileStyleAliases (map_ : list (jstr * list jstr)) : list (jstr * jstr) :=
  fold_left (fun result sa => fold_left (fun result alias => obj_set alias sa.1 result) sa.2 result) map_ [].

(** How a type represents its objects: by a function for each style, or by one
    function that is given the style. *)
Inductive representer :=
| ByStyle (table : list (jstr * (value -> res jstr)))
| ByFunction (f : value -> option jstr -> res jstr).

(** A [Type].  [detects] stands for [instanceOf] and [predicate] together: it is
    [None] when the type has neither. *)
Record ytype := Type_ {
  tag : jstr;
  type_kind : kind;
  resolve : value -> bool;
  construct : value -> res value;
  detects : option (value -> bool);
  represent : option representer;
  defaultStyle : option jstr;
  styleAliases : list (jstr * jstr)
}.

(** A type that only the loader uses. *)
Definition read_only (t : jstr) (k : kind) (r : value -> bool) (c : value -> res value) : ytype :=
  Type_ t k r c None None None [].

(** The data of a scalar node is a string or [null], that of a sequence an
    array, that of a mapping an object; the loader compares the kinds first. *)
Definition scalar_data (f : option jstr -> bool) (v : value) : bool :=
  match v with VNull => f None | VStr s => f (Some s) | _ => false end.

Definition sequence_data (f : option (list value) -> bool) (v : value) : bool :=
  match v with VNull => f None | VArr l => f (Some l) | _ => false end.

Definition mapping_data (f : option object -> bool) (v : value) : bool :=
  match v with VNull => f None | VObj o => f (Some o) | _ => false end.

Definition of_scalar {A} (f : jstr -> A) (g : A -> res value) (v : value) : res value :=
  match v with VStr s => g (f s) | _ => Err Unsupported end.

Definition yaml_tag (name : string) : jstr := u "tag:yaml.org,2002:" ++ u name.
Arguments yaml_tag name%_string.

Definition yaml_str : ytype :=
  read_only (yaml_tag "str") scalar (fun _ => true)
    (fun v => match v with VNull => Ok (VStr []) | _ => Ok v end).
Definition yaml_seq : ytype :=
  read_only (yaml_tag "seq") sequence (fun _ => true) (fun v => match v with VNull => Ok (VArr []) | _ => Ok v end).
Definition yaml_map : ytype :=
  read_only (yaml_tag "map") mapping (fun _ => true) (fun v => match v with VNull => Ok (VObj []) | _ => Ok v end).

(** A representation of numbers, of booleans, of dates and of buffers. *)
Definition of_num (f : num -> jstr) (v : value) : res jstr := match v with VNum n => Ok (f n) | _ => Err Unsupported end.
Definition of_bool (f : bool -> jstr) (v : value) : res jstr := match v with VBool b => Ok (f b) | _ => Err Unsupported end.

Definition yaml_null : ytype :=
  Type_ (yaml_tag "null") scalar (scalar_data resolveYamlNull) (fun _ => Ok VNull) (Some isNull)
    (Some (ByStyle [(u "canonical", fun _ => Ok (representYamlNull null_canonical));
                    (u "lowercase", fun _ => Ok (representYamlNull null_lowercase));
                    (u "uppercase", fun _ => Ok (representYamlNull null_uppercase));
                    (u "camelcase", fun _ => Ok (representYamlNull null_camelcase))]))
    (Some (u "lowercase")) [].
Definition yaml_boolean : ytype :=
  Type_ (yaml_tag "bool") scalar (scalar_data resolveYamlBoolean) (of_scalar constructYamlBoolean (fun b => Ok (VBool b)))
    (Some isBoolean)
    (Some (ByStyle [(u "lowercase", of_bool (representYamlBoolean bool_lowercase));
                    (u "uppercase", of_bool (representYamlBoolean bool_uppercase));
                    (u "camelcase", of_bool (representYamlBoolean bool_camelcase))]))
    (Some (u "lowercase")) [].
Definition yaml_int : ytype :=
  Type_ (yaml_tag "int") scalar (scalar_data resolveYamlInteger) (of_scalar constructYamlInteger (fun n => Ok (VNum n)))
    (Some isInteger)
    (Some (ByStyle [(u "binary", of_num (representYamlInteger int_binary));
                    (u "octal", of_num (representYamlInteger int_octal));
                    (u "decimal", of_num (representYamlInteger int_decimal));
                    (u "hexadecimal", of_num (representYamlInteger int_hexadecimal))]))
    (Some (u "decimal"))
    (compileStyleAliases [(u "binary", [u "2"; u "bin"]); (u "octal", [u "8"; u "oct"]);
                          (u "decimal", [u "10"; u "dec"]); (u "hexadecimal", [u "16"; u "hex"])]).
Definition yaml_float : ytype :=
  Type_ (yaml_tag "float") scalar (scalar_data resolveYamlFloat) (of_scalar constructYamlFloat (fun n => Ok (VNum n)))
    (Some isFloat) (Some (ByFunction (fun v style => of_num (fun n => representYamlFloat_style n style) v)))
    (Some (u "lowercase")) [].
Definition yaml_timestamp : ytype :=
  Type_ (yaml_tag "timestamp") scalar (scalar_data resolveYamlTimestamp)
    (of_scalar constructYamlTimestamp (fun r => t <-? r; Ok (VDate t)))
    (Some (fun v => match v with VDate _ => true | _ => false end))
    (Some (ByFunction (fun v _ => match v with VDate t => representYamlTimestamp t | _ => Err Unsupported end))) None [].
(** The type [merge] has no [construct]: the data is kept. *)
Definition yaml_merge : ytype :=
  read_only (yaml_tag "merge") scalar (scalar_data resolveYamlMerge) (fun v => Ok v).
Definition yaml_binary : ytype :=
  Type_ (yaml_tag "binary") scalar (scalar_data resolveYamlBinary) (of_scalar constructYamlBinary (fun l => Ok (VBuf l)))
    (Some (fun v => match v with VBuf _ => true | _ => false end))
    (Some (ByFunction (fun v _ => match v with VBuf l => Ok (representYamlBinary l) | _ => Err Unsupported end))) None [].
Definition yaml_omap : ytype :=
  read_only (yaml_tag "omap") sequence (sequence_data resolveYamlOmap)
    (fun v => match v with VNull => Ok (VArr []) | _ => Ok v end).
Definition yaml_pairs : ytype :=
  read_only (yaml_tag "pairs") sequence (sequence_data resolveYamlPairs)
    (fun v => match v with
              | VNull => Ok (VArr [])
              | VArr l => l <-? constructYamlPairs (Some l); Ok (VArr l)
              | _ => Err Unsupported
              end).
Definition yaml_set : ytype :=
  read_only (yaml_tag "set") mapping (mapping_data resolveYamlSet)
    (fun v => match v with VNull => Ok (VObj []) | _ => Ok v end).

(** ** Schemas *)

Inductive yschema := YSchema (include : list yschema) (implicit explicit : list ytype).

(** The list of a schema that [compileList] is asked for. *)
Inductive which := Implicit | Explicit.

Definition types_of (name : which) (s : yschema) : list ytype :=
  match s, name with
  | YSchema _ i _, Implicit => i
  | YSchema _ _ e, Explicit => e
  end.

Definition same_type (a b : ytype) : bool := streq (tag a) (tag b) && bool_decide (type_kind a = type_kind b).

(** [schema[name].forEach(...)]: the types pushed on [result], and the indices
    of those that a later one replaces. *)
Fixpoint push_types (current result : list ytype) (exclude : list nat) : list ytype * list nat :=
  match current with
  | [] => (result, exclude)
  | t :: current =>
      let replaced := List.filter (fun i => match result !! i with Some p => same_type p t | None => false end)
                        (seq 0 (length result)) in
      push_types current (result ++ [t]) (exclude ++ replaced)
  end.

(** [result.filter((type, index) => exclude.indexOf(index) === -1)]. *)
Fixpoint filter_index {A} (exclude : list nat) (i : nat) (l : list A) : list A :=
  match l with
  | [] => []
  | x :: l => if bool_decide (i ∈ exclude) then filter_index exclude (S i) l else x :: filter_index exclude (S i) l
  end.

Fixpoint compileList (s : yschema) (name : which) (result : list ytype) {struct s} : list ytype :=
  let '(YSchema include _ _) := s in
  let result :=
    (fix each include result :=
       match include with [] => result | i :: include => each include (compileList i name result) end) include result in
  let '(result, exclude) := push_types (types_of name s) result [] in
  filter_index exclude 0 result.

(** The entries of a type map: a table per kind and one for all. *)
Record type_map := TypeMap {
  map_kind : kind -> list (jstr * ytype);
  fallback : list (jstr * ytype)
}.

Definition collectType (m : type_map) (t : ytype) : type_map :=
  TypeMap (fun k => if bool_decide (k = type_kind t) then obj_set (tag t) t (map_kind m k) else map_kind m k)
    (obj_set (tag t) t (fallback m)).

Definition compileMap (lists : list (list ytype)) : type_map :=
  fold_left (fun m l => fold_left collectType l m) lists (TypeMap (fun _ => []) []).

(** What the constructor [Schema] computes.  (It also refuses implicit types
    whose [loadKind] is not scalar; no [Type] has a [loadKind].) *)
Definition compiledImplicit (s : yschema) : list ytype := compileList s Implicit [].
Definition compiledExplicit (s : yschema) : list ytype := compileList s Explicit [].
Definition compiledTypeMap (s : yschema) : type_map := compileMap [compiledImplicit s; compiledExplicit s].

(** [Schema.create] for a list of schemas and a list of types. *)
Definition Schema_create (schemas : list yschema) (types : list ytype) : yschema := YSchema schemas [] types.

(** The schemas of the modules 132, 131, 130 and 127. *)
Definition failsafe : yschema := YSchema [] [] [yaml_str; yaml_seq; yaml_map].
Definition json_schema : yschema := YSchema [failsafe] [yaml_null; yaml_boolean; yaml_int; yaml_float] [].
Definition core_schema : yschema := YSchema [json_schema] [] [].
Definition DEFAULT_SAFE_SCHEMA : yschema :=
  YSchema [core_schema] [yaml_timestamp; yaml_merge] [yaml_binary; yaml_omap; yaml_pairs; yaml_set].

(** ** Compilation *)

(** The types of a schema and of those it includes, in the order of their
    declaration. *)
Fixpoint declared (name : which) (s : yschema) : list ytype :=
  let '(YSchema include _ _) := s in
  (fix each include := match include with [] => [] | i :: include => declared name i ++ each include end) include
  ++ types_of name s.

(** The last type of each tag and kind, where it is declared. *)
Fixpoint last_wins (l : list ytype) : list ytype :=
  match l with
  | [] => []
  | t :: l => if existsb (same_type t) l then last_wins l else t :: last_wins l
  end.

Lemma same_type_iff a b : same_type a b = true <-> tag a = tag b /\ type_kind a = type_kind b.
Proof. unfold same_type. by rewrite andb_true_iff, streq_eq, bool_decide_eq_true. Qed.

(** The types pushed, and the indices excluded: those of a type that is
    followed by a pushed type of its tag and kind. *)
Lemma push_types_spec current result exclude :
  fst (push_types current result exclude) = result ++ current
  /\ forall i, i ∈ snd (push_types current result exclude) <->
       i ∈ exclude \/ exists j p t, (i < j)%nat /\ (length result <= j)%nat
         /\ (result ++ current) !! i = Some p /\ (result ++ current) !! j = Some t /\ same_type p t = true.
Proof.
  revert result exclude. induction current as [|t current IH]; intros result exclude; cbn [push_types].
  - rewrite app_nil_r. split; [done|]. intros i. split; [by left|].
    intros [?|(j & p & t & _ & Hj & _ & Ht & _)]; [done|]. apply lookup_lt_Some in Ht. lia.
  - destruct (IH (result ++ [t]) (exclude ++ List.filter
      (fun i => match result !! i with Some p => same_type p t | None => false end) (seq 0 (length result)))) as [H1 H2].
    rewrite H1. split; [by rewrite <- app_assoc|]. intros i. rewrite H2, elem_of_app. clear H1 H2 IH.
    rewrite <- app_assoc, length_app. cbn [app length].
    assert (i ∈ List.filter (fun i => match result !! i with Some p => same_type p t | None => false end) (seq 0 (length result))
            <-> exists p, result !! i = Some p /\ same_type p t = true) as Hf.
    { rewrite list_elem_of_In, filter_In, in_seq. split.
      - intros [_ H]. destruct (result !! i) as [p|]; [by exists p|done].
      - intros (p & Hp & Hs). rewrite Hp. split; [|done]. apply lookup_lt_Some in Hp. lia. }
    rewrite Hf. split.
    + intros [[?|(p & Hp & Hs)]|(j & p & t' & Hij & Hj & Hp & Ht & Hs)]; [by left| |].
      * right. exists (length result), p, t. pose proof (lookup_lt_Some _ _ _ Hp).
        rewrite lookup_app_l by done. rewrite list_lookup_middle by done. repeat split; [lia|done..].
      * right. exists j, p, t'. repeat split; [done|lia|done..].
    + intros [?|(j & p & t' & Hij & Hj & Hp & Ht & Hs)]; [by left; left|].
      destruct (decide (j = length result)) as [->|].
      * rewrite list_lookup_middle in Ht by done. injection Ht as <-. left; right.
        rewrite lookup_app_l in Hp by done. by exists p.
      * right. exists j, p, t'. repeat split; [done|lia|done..].
Qed.

Lemma filter_index_nil {A} k (l : list A) : filter_index [] k l = l.
Proof. revert k; induction l as [|x l IH]; intros k; cbn; [done|]. by rewrite IH. Qed.

(** The list that is left when the types followed by one of their tag and kind
    are dropped. *)
Lemma last_wins_filter l ex k :
  (forall i, (i < length l)%nat -> (k + i)%nat ∈ ex <->
     exists j p t, (i < j)%nat /\ l !! i = Some p /\ l !! j = Some t /\ same_type p t = true) ->
  filter_index ex k l = last_wins l.
Proof.
  revert k. induction l as [|x l IH]; intros k H; cbn; [done|].
  rewrite (IH (S k)).
  - assert (bool_decide (k ∈ ex) = existsb (same_type x) l) as ->; [|done].
    apply eq_true_iff_eq. rewrite bool_decide_eq_true.
    specialize (H O). rewrite Nat.add_0_r in H. rewrite H by (cbn; lia). rewrite existsb_exists. split.
    + intros (j & p & t & Hj & [= <-] & Ht & Hs). destruct j as [|j]; [lia|].
      exists t. split; [|done]. by apply list_elem_of_In, (list_elem_of_lookup_2 _ j).
    + intros (t & Ht & Hs). apply list_elem_of_In, list_elem_of_lookup_1 in Ht as [j Hj].
      exists (S j), x, t. repeat split; [lia|done..].
  - intros i Hi. specialize (H (S i)). replace (k + S i)%nat with (S k + i)%nat in H by lia.
    rewrite H by (cbn; lia). split.
    + intros (j & p & t & Hj & Hp & Ht & Hs). destruct j as [|j]; [lia|]. exists j, p, t. repeat split; [lia|done..].
    + intros (j & p & t & Hj & Hp & Ht & Hs). exists (S j), p, t. repeat split; [lia|done..].
Qed.

Definition distinct (l : list ytype) : Prop :=
  forall i j p t, (i < j)%nat -> l !! i = Some p -> l !! j = Some t -> same_type p t = false.

Lemma last_wins_app l k : last_wins (last_wins l ++ k) = last_wins (l ++ k).
Proof.
  induction l as [|t l IH]; cbn; [done|]. rewrite existsb_app.
  destruct (existsb (same_type t) l) eqn:E; [by rewrite IH|]. cbn. rewrite IH, existsb_app.
  assert (existsb (same_type t) (last_wins l) = false) as ->; [|done].
  apply not_true_iff_false. intros (x & Hx & Hs)%existsb_exists.
  apply not_true_iff_false in E. apply E, existsb_exists. exists x. split; [|done].
  clear -Hx. induction l as [|y l IH]; cbn in *; [done|]. destruct (existsb _ _); [right; auto|].
  destruct Hx; [by left|right; auto].
Qed.

Lemma last_wins_distinct l : distinct (last_wins l).
Proof.
  induction l as [|t l IH]; cbn; [by intros i j p q _ Hp; rewrite lookup_nil in Hp|].
  destruct (existsb (same_type t) l) eqn:E; [done|]. intros i j p q Hij Hp Hq.
  destruct j as [|j]; [lia|]. cbn in Hq. destruct i as [|i]; [|by apply (IH i j); [lia|..]].
  injection Hp as <-. apply not_true_iff_false. intros Hs. apply not_true_iff_false in E. apply E.
  apply existsb_exists. exists q. split; [|done]. apply (list_elem_of_lookup_2 _ j), list_elem_of_In in Hq.
  clear -Hq. induction l as [|y l IH]; cbn in *; [done|]. destruct (existsb _ _); [right; auto|].
  destruct Hq; [by left|right; auto].
Qed.

Lemma push_types_last_wins current result :
  distinct result ->
  (let '(r, ex) := push_types current result [] in filter_index ex 0 r) = last_wins (result ++ current).
Proof.
  intros Hd. destruct (push_types_spec current result []) as [H1 H2].
  destruct (push_types current result []) as [r ex]. cbn in *. subst r. apply last_wins_filter.
  intros i Hi. rewrite Nat.add_0_l, H2. split.
  - intros [?%not_elem_of_nil|(j & p & t & Hij & _ & Hp & Ht & Hs)]; [done|]. by exists j, p, t.
  - intros (j & p & t & Hij & Hp & Ht & Hs). right. exists j, p, t. repeat split; try done.
    destruct (decide (length result <= j)%nat); [done|].
    rewrite lookup_app_l in Hp, Ht by lia. by rewrite (Hd i j p t) in Hs by done.
Qed.

(** Induction over the schemas that a schema includes. *)
Section yschema_ind'.
Context (P : yschema -> Prop) (H : forall include i e, Forall P include -> P (YSchema include i e)).
Fixpoint yschema_ind' (s : yschema) : P s :=
  match s with
  | YSchema include i e =>
      H include i e ((fix go l : Forall P l :=
                        match l with [] => Forall_nil_2 _ | x :: l => Forall_cons_2 _ _ _ (yschema_ind' x) (go l) end) include)
  end.
End yschema_ind'.

Lemma compileList_from s name result :
  distinct result -> compileList s name result = last_wins (result ++ declared name s).
Proof.
  revert result. induction s as [include i e IH] using yschema_ind'. intros result Hd.
  cbn [compileList declared]. rewrite app_assoc.
  match goal with |- context [push_types _ (?f include result) _] => set (each := f) end.
  match goal with |- context [(result ++ ?g include) ++ _] => set (decl := g) end.
  assert (forall r, distinct r -> distinct (each include r) /\ each include r = last_wins (r ++ decl include)) as Hinc.
  { induction IH as [|s include Hs _ IHi]; intros r Hr; cbn [each decl].
    - rewrite app_nil_r. split; [done|]. pose proof (push_types_last_wins [] r Hr) as Hp. cbn in Hp.
      by rewrite app_nil_r, filter_index_nil in Hp.
    - rewrite Hs by done. destruct (IHi (last_wins (r ++ declared name s)) (last_wins_distinct _)) as [H1 H2].
      split; [done|]. rewrite app_assoc, <- (last_wins_app (r ++ declared name s)). exact H2. }
  destruct (Hinc result Hd) as [H1 H2].
  rewrite push_types_last_wins by done. by rewrite H2, last_wins_app.
Qed.

(** Compiling a schema gives, of the types it declares and includes, the
    last one of each tag and kind, at the place of its last declaration. *)
Theorem compileList_last_wins s name : compileList s name [] = last_wins (declared name s).
Proof. apply compileList_from. intros i j p t _ Hp. by rewrite lookup_nil in Hp. Qed.

Lemma compileMap_find lists k t :
  obj_lookup t (map_kind (compileMap lists) k)
  = find (fun ty => streq (tag ty) t && bool_decide (type_kind ty = k)) (rev (concat lists))
  /\ obj_lookup t (fallback (compileMap lists)) = find (fun ty => streq (tag ty) t) (rev (concat lists)).
Proof.
  assert (compileMap lists = fold_left collectType (concat lists) (TypeMap (fun _ => []) [])) as ->.
  { unfold compileMap. generalize (TypeMap (fun _ => []) []). induction lists as [|l lists IH]; intros m; cbn; [done|].
    by rewrite fold_left_app, IH. }
  generalize (concat lists). intros l. induction l as [|ty l IH] using rev_ind; [done|].
  rewrite fold_left_app, rev_app_distr. cbn [fold_left rev app find]. destruct IH as [IH1 IH2].
  unfold collectType at 1 3. cbn [map_kind fallback]. split.
  - destruct (decide (k = type_kind ty)) as [->|Hk].
    + rewrite !bool_decide_eq_true_2 by done. rewrite obj_lookup_set, IH1, andb_true_r.
      unfold streq. rewrite (bool_decide_ext (t = tag ty) (tag ty = t)) by done. done.
    + rewrite !bool_decide_eq_false_2 by congruence. by rewrite andb_false_r.
  - rewrite obj_lookup_set, IH2. unfold streq. by rewrite (bool_decide_ext (t = tag ty) (tag ty = t)).
Qed.

(** The type map finds, for a kind and a tag, the last such type of the
    compiled lists. *)
Theorem compileMap_lookup lists k t :
  obj_lookup t (map_kind (compileMap lists) k)
  = find (fun ty => streq (tag ty) t && bool_decide (type_kind ty = k)) (rev (concat lists))
  /\ obj_lookup t (fallback (compileMap lists)) = find (fun ty => streq (tag ty) t) (rev (concat lists)).
Proof. apply compileMap_find. Qed.

Example safe_schema_types :
  (map tag (compiledImplicit DEFAULT_SAFE_SCHEMA), map tag (compiledExplicit DEFAULT_SAFE_SCHEMA))
  = ([yaml_tag "null"; yaml_tag "bool"; yaml_tag "int"; yaml_tag "float"; yaml_tag "timestamp"; yaml_tag "merge"],
     [yaml_tag "str"; yaml_tag "seq"; yaml_tag "map"; yaml_tag "binary"; yaml_tag "omap"; yaml_tag "pairs"; yaml_tag "set"]).
Proof. reflexivity. Qed.
