(* ===== verification/YamlScanner.v ===== *)
(** The scanner of js-yaml's loader (module 123): the characters, the position in
    the text, white space and comments, line breaks, and the scalars. *)

From Stdlib Require Import ZArith Lia List String Bool.
From stdpp Require Import base list sets list_numbers tactics.
From S2P Require Import Prelude JsNum Js Int32 Regex YamlCommon.

(** ** Characters *)

Definition is_EOL (c : Z) : bool := (c =? 10) || (c =? 13).
Definition is_WHITE_SPACE (c : Z) : bool := (c =? 9) || (c =? 32).
Definition is_WS_OR_EOL (c : Z) : bool := (c =? 9) || (c =? 32) || (c =? 10) || (c =? 13).
Definition is_FLOW_INDICATOR (c : Z) : bool :=
  (c =? 44) || (c =? 91) || (c =? 93) || (c =? 123) || (c =? 125).

Definition fromHexCode (c : Z) : Z :=
  if (48 <=? c) && (c <=? 57) then c - 48
  else let lc := bor c 32 in if (97 <=? lc) && (lc <=? 102) then lc - 97 + 10 else -1.

Definition escapedHexLen (c : Z) : Z :=
  if c =? 120 then 2 else if c =? 117 then 4 else if c =? 85 then 8 else 0.

Definition fromDecimalCode (c : Z) : Z := if (48 <=? c) && (c <=? 57) then c - 48 else -1.

Definition simpleEscapeSequence (c : Z) : jstr :=
  if c =? 48 then [0] else if c =? 97 then [7] else if c =? 98 then [8] else if c =? 116 then [9]
  else if c =? 9 then [9] else if c =? 110 then [10] else if c =? 118 then [11] else if c =? 102 then [12]
  else if c =? 114 then [13] else if c =? 101 then [27] else if c =? 32 then [32] else if c =? 34 then [34]
  else if c =? 47 then [47] else if c =? 92 then [92] else if c =? 78 then [133] else if c =? 95 then [160]
  else if c =? 76 then [8232] else if c =? 80 then [8233] else [].

(** [String.fromCharCode] keeps 16 bits of its arguments. *)
Definition charFromCodepoint (c : Z) : jstr :=
  if c <=? 65535 then [c mod 65536]
  else [(shr (c - 65536) 10 + 55296) mod 65536; (band (c - 65536) 1023 + 56320) mod 65536].

Definition is_high (c : Z) : bool := (55296 <=? c) && (c <=? 56319).
Definition is_low (c : Z) : bool := (56320 <=? c) && (c <=? 57343).

(** The control characters of [PATTERN_NON_PRINTABLE]. *)
Definition is_control (c : Z) : bool :=
  ((0 <=? c) && (c <=? 8)) || (c =? 11) || (c =? 12) || ((14 <=? c) && (c <=? 31)) || ((127 <=? c) && (c <=? 132))
  || ((134 <=? c) && (c <=? 159)) || (c =? 65534) || (c =? 65535).

(** [PATTERN_NON_PRINTABLE.test]: a control character, or a surrogate that is
    not in a pair; [high] tells whether the character before is a high one. *)
Fixpoint non_printable (high : bool) (s : jstr) : bool :=
  match s with
  | [] => false
  | c :: s =>
      is_control c
      || (is_high c && negb (match s with d :: _ => is_low d | [] => false end))
      || (is_low c && negb high)
      || non_printable (is_high c) s
  end.

Definition PATTERN_NON_PRINTABLE (s : jstr) : bool := non_printable false s.

Definition letters : list (Z * Z) := [(97, 122); (65, 90)].

(** [/^(?:!|!!|![a-z\-]+!)$/i] *)
Definition PATTERN_TAG_HANDLE : re :=
  ralt [rc 33; rlit (u "!!"); rcat [rc 33; rplus (RSet (letters ++ [(45, 45)])); rc 33]].

(** All characters but the flow indicators. *)
Definition not_flow : re := RSet [(0, 43); (45, 90); (92, 92); (94, 122); (124, 124); (126, 65535)].

(** The characters of a tag: [0-9a-z\-#;/?:@&=+$,_.!~*'()\[\]]. *)
Definition uri_char : re :=
  RSet (letters ++ [(48, 57); (45, 45); (35, 35); (59, 59); (47, 47); (63, 63); (58, 58); (64, 64); (38, 38); (61, 61);
                    (43, 43); (36, 36); (44, 44); (95, 95); (46, 46); (33, 33); (126, 126); (42, 42); (39, 41);
                    (91, 91); (93, 93)]).

Definition PATTERN_TAG_URI : re :=
  let hex := RSet [(48, 57); (97, 102); (65, 70)] in
  RCat (ralt [rc 33; not_flow]) (RStar (RAlt (rcat [rc 37; hex; hex]) uri_char)).

(** ** The position in the text *)

Record cursor := Cursor { position : Z; line : Z; lineStart : Z; lineIndent : Z }.

Section Input.
(** The text, with the NUL that ends it. *)
Variable input : jstr.

(** [state.input.charCodeAt(p)]; -1 stands for NaN, after the end of the text. *)
Definition char_at (p : Z) : Z := default (-1) (zget input p).

Definition ch (c : cursor) : Z := char_at (position c).

Definition move (n : Z) (c : cursor) : cursor :=
  Cursor (position c + n) (line c) (lineStart c) (lineIndent c).

Definition goto (p : Z) (c : cursor) : cursor := Cursor p (line c) (lineStart c) (lineIndent c).

Definition set_indent (n : Z) (c : cursor) : cursor := Cursor (position c) (line c) (lineStart c) n.

(** [throwError(state, message)]. *)
Definition throwError {A} (c : cursor) (message : jstr) : res A :=
  Err (YamlException message (Some (position c, line c, position c - lineStart c))).

(** The number of characters before the first one that satisfies [stop]. *)
Fixpoint count_until (stop : Z -> bool) (s : jstr) : Z :=
  match s with
  | [] => 0
  | x :: s => if stop x then 0 else 1 + count_until stop s
  end.

(** [while (!stop(ch)) ch = state.input.charCodeAt(++position)]. *)
Definition scan (stop : Z -> bool) (p : Z) : Z := p + count_until stop (drop (Z.to_nat p) input).

Definition scan_cursor (stop : Z -> bool) (c : cursor) : cursor := goto (scan stop (position c)) c.

(** The fuel of the loops that read a line or a character at a time. *)
Definition enough : nat := S (length input).

(** ** Captured text *)

Definition json_char (c : Z) : bool := (c =? 9) || ((32 <=? c) && (c <=? 1114111)).

(** [captureSegment]: the text between two positions is appended to the
    result. *)
Definition captureSegment (c : cursor) (result : jstr) (start end_ : Z) (checkJson : bool) : res jstr :=
  if start <? end_ then
    let segment := zslice start end_ input in
    if checkJson then
      if forallb json_char segment then Ok (result ++ segment) else throwError c (u "expected valid JSON character")
    else if PATTERN_NON_PRINTABLE segment
    then throwError c (u "the stream contains non-printable characters")
    else Ok (result ++ segment)
  else Ok result.

(** [writeFoldedLines]. *)
Definition writeFoldedLines (result : jstr) (count : Z) : jstr :=
  if count =? 1 then result ++ [32]
  else if 1 <? count then result ++ repeat_string [10] (count - 1)
  else result.

(** ** Lines *)

Definition readLineBreak (c : cursor) : res cursor :=
  let p := position c in
  if ch c =? 10 then Ok (Cursor (p + 1) (line c + 1) (p + 1) (lineIndent c))
  else if ch c =? 13 then
    let p := if char_at (p + 1) =? 10 then p + 2 else p + 1 in
    Ok (Cursor p (line c + 1) p (lineIndent c))
  else throwError c (u "a line break is expected").

Definition not_space (c : Z) : bool := negb (c =? 32).
Definition not_white (c : Z) : bool := negb (is_WHITE_SPACE c).
Definition line_end (c : Z) : bool := (c =? 10) || (c =? 13) || (c =? 0).

(** [skipSeparationSpace]: the line breaks skipped, and the cursor after them.
    (Its warning about a deficient indentation is of no consequence here: no
    caller of the client listens to warnings.) *)
Fixpoint skip_loop (fuel : nat) (allowComments : bool) (lineBreaks : Z) (c : cursor) : res (Z * cursor) :=
  match fuel with
  | O => Err OutOfFuel
  | S fuel =>
      if ch c =? 0 then Ok (lineBreaks, c)
      else
        let c := scan_cursor not_white c in
        let c := if allowComments && (ch c =? 35) then scan_cursor line_end (move 1 c) else c in
        if is_EOL (ch c) then
          c <-? readLineBreak c;
          let p := scan not_space (position c) in
          skip_loop fuel allowComments (lineBreaks + 1) (set_indent (p - position c) (goto p c))
        else Ok (lineBreaks, c)
  end.

Definition skipSeparationSpace (allowComments : bool) (c : cursor) : res (Z * cursor) :=
  skip_loop enough allowComments 0 c.

Definition testDocumentSeparator (c : cursor) : bool :=
  let p := position c in
  ((ch c =? 45) || (ch c =? 46)) && (ch c =? char_at (p + 1)) && (ch c =? char_at (p + 2))
  && ((char_at (p + 3) =? 0) || is_WS_OR_EOL (char_at (p + 3))).

Definition at_separator (c : cursor) : bool := (position c =? lineStart c) && testDocumentSeparator c.

(** ** Plain scalars *)

(** A character that no plain scalar starts with. *)
Definition plain_excluded (c : Z) : bool :=
  is_WS_OR_EOL c || is_FLOW_INDICATOR c
  || existsb (Z.eqb c) [35; 38; 42; 33; 124; 62; 39; 34; 37; 64; 96].

Definition ends_key (withinFlowCollection : bool) (following : Z) : bool :=
  is_WS_OR_EOL following || (withinFlowCollection && is_FLOW_INDICATOR following).

(** The loop of [readPlainScalar]; [pending] is the line at which the content
    to capture ends, when there are line breaks after it. *)
Fixpoint plain_loop (fuel : nat) (nodeIndent : Z) (within : bool) (result : jstr) (captureStart captureEnd : Z)
    (pending : option Z) (c : cursor) : res (jstr * cursor) :=
  let stop c := r <-? captureSegment c result captureStart captureEnd false; Ok (r, c) in
  match fuel with
  | O => Err OutOfFuel
  | S fuel =>
      let x := ch c in
      if x =? 0 then stop c
      else
        let next :=
          '(result, captureStart, captureEnd) <-?
             match pending with
             | Some l =>
                 r <-? captureSegment c result captureStart captureEnd false;
                 Ok (writeFoldedLines r (line c - l), position c, position c)
             | None => Ok (result, captureStart, captureEnd)
             end;
          let captureEnd := if is_WHITE_SPACE x then captureEnd else position c + 1 in
          plain_loop fuel nodeIndent within result captureStart captureEnd None (move 1 c) in
        if x =? 58 then
          if ends_key within (char_at (position c + 1)) then stop c else next
        else if x =? 35 then
          if is_WS_OR_EOL (char_at (position c - 1)) then stop c else next
        else if at_separator c || (within && is_FLOW_INDICATOR x) then stop c
        else if is_EOL x then
          '(_, c') <-? skipSeparationSpace false c;
          if nodeIndent <=? lineIndent c'
          then plain_loop fuel nodeIndent within result captureStart captureEnd (Some (line c)) c'
          else stop (goto captureEnd c)
        else next
  end.

(** [readPlainScalar]: the text, or [None] when there is none. *)
Definition readPlainScalar (nodeIndent : Z) (within : bool) (c : cursor) : res (option jstr * cursor) :=
  if plain_excluded (ch c) then Ok (None, c)
  else if ((ch c =? 63) || (ch c =? 45)) && ends_key within (char_at (position c + 1)) then Ok (None, c)
  else
    '(result, c) <-? plain_loop enough nodeIndent within [] (position c) (position c) None c;
    Ok (match result with [] => None | _ => Some result end, c).

(** ** Quoted scalars *)

Fixpoint single_loop (fuel : nat) (nodeIndent : Z) (result : jstr) (captureStart captureEnd : Z) (c : cursor) :
    res (jstr * cursor) :=
  match fuel with
  | O => Err OutOfFuel
  | S fuel =>
      let x := ch c in
      if x =? 0 then throwError c (u "unexpected end of the stream within a single quoted scalar")
      else if x =? 39 then
        result <-? captureSegment c result captureStart (position c) true;
        let c := move 1 c in
        if ch c =? 39 then single_loop fuel nodeIndent result (position c) (position c + 1) (move 1 c)
        else Ok (result, c)
      else if is_EOL x then
        result <-? captureSegment c result captureStart captureEnd true;
        '(n, c) <-? skipSeparationSpace false c;
        single_loop fuel nodeIndent (writeFoldedLines result n) (position c) (position c) c
      else if at_separator c then throwError c (u "unexpected end of the document within a single quoted scalar")
      else single_loop fuel nodeIndent result captureStart (position c + 1) (move 1 c)
  end.

Definition readSingleQuotedScalar (nodeIndent : Z) (c : cursor) : res (option jstr * cursor) :=
  if ch c =? 39 then
    let c := move 1 c in
    '(r, c) <-? single_loop enough nodeIndent [] (position c) (position c) c; Ok (Some r, c)
  else Ok (None, c).

(** The hexadecimal digits of an escape: the code and the cursor at the last
    digit. *)
Fixpoint read_hex (n : nat) (hexResult : Z) (c : cursor) : res (Z * cursor) :=
  match n with
  | O => Ok (hexResult, c)
  | S n =>
      let c := move 1 c in
      let tmp := fromHexCode (ch c) in
      if 0 <=? tmp then read_hex n (shl hexResult 4 + tmp) c
      else throwError c (u "expected hexadecimal character")
  end.

Fixpoint double_loop (fuel : nat) (nodeIndent : Z) (result : jstr) (captureStart captureEnd : Z) (c : cursor) :
    res (jstr * cursor) :=
  match fuel with
  | O => Err OutOfFuel
  | S fuel =>
      let x := ch c in
      if x =? 0 then throwError c (u "unexpected end of the stream within a double quoted scalar")
      else if x =? 34 then
        result <-? captureSegment c result captureStart (position c) true; Ok (result, move 1 c)
      else if x =? 92 then
        result <-? captureSegment c result captureStart (position c) true;
        let c := move 1 c in
        let x := ch c in
        let go result c := double_loop fuel nodeIndent result (position c) (position c) c in
        if is_EOL x then '(_, c) <-? skipSeparationSpace false c; go result c
        else if (x <? 256) && negb (bool_decide (simpleEscapeSequence x = [])) then
          go (result ++ simpleEscapeSequence x) (move 1 c)
        else if 0 <? escapedHexLen x then
          '(code, c) <-? read_hex (Z.to_nat (escapedHexLen x)) 0 c;
          go (result ++ charFromCodepoint code) (move 1 c)
        else throwError c (u "unknown escape sequence")
      else if is_EOL x then
        result <-? captureSegment c result captureStart captureEnd true;
        '(n, c) <-? skipSeparationSpace false c;
        double_loop fuel nodeIndent (writeFoldedLines result n) (position c) (position c) c
      else if at_separator c then throwError c (u "unexpected end of the document within a double quoted scalar")
      else double_loop fuel nodeIndent result captureStart (position c + 1) (move 1 c)
  end.

Definition readDoubleQuotedScalar (nodeIndent : Z) (c : cursor) : res (option jstr * cursor) :=
  if ch c =? 34 then
    let c := move 1 c in
    '(r, c) <-? double_loop enough nodeIndent [] (position c) (position c) c; Ok (Some r, c)
  else Ok (None, c).

(** ** Block scalars *)

Inductive chomping := CHOMPING_CLIP | CHOMPING_STRIP | CHOMPING_KEEP.

#[export] Instance chomping_eq_dec : EqDecision chomping.
Proof. solve_decision. Defined.

(** The header of a block scalar: the indicators after [|] or [>]. *)
Fixpoint block_header (fuel : nat) (nodeIndent : Z) (chomp : chomping) (detectedIndent : bool) (textIndent : Z)
    (c : cursor) : res (chomping * bool * Z * cursor) :=
  match fuel with
  | O => Err OutOfFuel
  | S fuel =>
      let c := move 1 c in
      let x := ch c in
      if (x =? 43) || (x =? 45) then
        if bool_decide (chomp = CHOMPING_CLIP) then
          block_header fuel nodeIndent (if x =? 43 then CHOMPING_KEEP else CHOMPING_STRIP) detectedIndent textIndent c
        else throwError c (u "repeat of a chomping mode identifier")
      else
        let tmp := fromDecimalCode x in
        if 0 <=? tmp then
          if tmp =? 0 then throwError c (u "bad explicit indentation width of a block scalar; it cannot be less than one")
          else if detectedIndent then throwError c (u "repeat of an indentation width identifier")
          else block_header fuel nodeIndent chomp true (nodeIndent + tmp - 1) c
        else Ok (chomp, detectedIndent, textIndent, c)
  end.

(** The state of the loop over the lines of a block scalar. *)
Record block := Block {
  textIndent : Z;
  detectedIndent : bool;
  didReadContent : bool;
  emptyLines : Z;
  atMoreIndented : bool;
  block_result : jstr
}.

(** The line breaks written before a line of content that starts with [x]. *)
Definition block_breaks (folding : bool) (x : Z) (b : block) : jstr * bool :=
  let all := repeat_string [10] (if didReadContent b then 1 + emptyLines b else emptyLines b) in
  if folding then
    if is_WHITE_SPACE x then (all, true)
    else if atMoreIndented b then (repeat_string [10] (emptyLines b + 1), false)
    else if emptyLines b =? 0 then ((if didReadContent b then [32] else []), false)
    else (repeat_string [10] (emptyLines b), false)
  else (all, atMoreIndented b).

(** The spaces of indentation before a line, up to the indentation of the text
    once it is known. *)
Definition count_indent (limit : option Z) (p : Z) : Z :=
  let n := scan not_space p - p in
  match limit with Some m => Z.min n (Z.max m 0) | None => n end.

Fixpoint block_loop (fuel : nat) (folding : bool) (chomp : chomping) (b : block) (c : cursor) : res (jstr * cursor) :=
  match fuel with
  | O => Err OutOfFuel
  | S fuel =>
      if ch c =? 0 then Ok (block_result b, c)
      else
        c <-? readLineBreak c;
        let n := count_indent (if detectedIndent b then Some (textIndent b) else None) (position c) in
        let c := set_indent n (move n c) in
        let textIndent_ := if negb (detectedIndent b) && (textIndent b <? n) then n else textIndent b in
        if is_EOL (ch c) then
          block_loop fuel folding chomp
            (Block textIndent_ (detectedIndent b) (didReadContent b) (emptyLines b + 1) (atMoreIndented b) (block_result b)) c
        else if n <? textIndent_ then
          Ok (block_result b ++
              match chomp with
              | CHOMPING_KEEP => repeat_string [10] (if didReadContent b then 1 + emptyLines b else emptyLines b)
              | CHOMPING_CLIP => if didReadContent b then [10] else []
              | CHOMPING_STRIP => []
              end, c)
        else
          let '(breaks, more) := block_breaks folding (ch c) b in
          let captureStart := position c in
          let c := scan_cursor line_end c in
          r <-? captureSegment c (block_result b ++ breaks) captureStart (position c) false;
          block_loop fuel folding chomp (Block textIndent_ true true 0 more r) c
  end.

Definition readBlockScalar (nodeIndent : Z) (c : cursor) : res (option jstr * cursor) :=
  if (ch c =? 124) || (ch c =? 62) then
    let folding := ch c =? 62 in
    '(chomp, detected, indent, c) <-? block_header enough nodeIndent CHOMPING_CLIP false nodeIndent c;
    let c :=
      if is_WHITE_SPACE (ch c) then
        let c := scan_cursor not_white c in
        if ch c =? 35 then scan_cursor line_end (move 1 c) else c
      else c in
    '(r, c) <-? block_loop enough folding chomp (Block indent detected false 0 false []) c;
    Ok (Some r, c)
  else Ok (None, c).
End Input.
