(* ===== verification/YamlLoader.v ===== *)
(** js-yaml's loader (module 123): collections, tags, anchors and aliases, the
    composition of nodes, documents, and the functions [load] and [safeLoad]. *)

From Stdlib Require Import ZArith Lia List String Bool.
From stdpp Require Import base list sets list_numbers tactics.
From S2P Require Import Prelude JsNum Js Int32 Regex YamlCommon YamlSchema YamlScanner.

(** ** The state *)

(** What an anchor names: a node, or a collection that is still being read,
    told by the position where it starts.  (In the program the collection is in
    the map from its start and is filled later; an alias inside it makes a
    cyclic value, which is not followed.) *)
Inductive anchored := Node (v : value) | Open (start : Z).

(** The part of the loader's state that changes; the text, the options and the
    types are parameters.  Warnings, and what is computed for them only, are left
    out: no caller in the client sets [onWarning]. *)
Record lstate := LState {
  cur : cursor;
  st_tag : option jstr;
  st_anchor : option jstr;
  st_kind : option kind;
  st_result : value;
  version : option jstr;
  tagMap : list (jstr * jstr);
  anchorMap : list (jstr * anchored);
  documents : list value
}.

Definition set_cur (c : cursor) (s : lstate) : lstate :=
  let '(LState _ t a k r v tm am d) := s in LState c t a k r v tm am d.
Definition set_tag (t : option jstr) (s : lstate) : lstate :=
  let '(LState c _ a k r v tm am d) := s in LState c t a k r v tm am d.
Definition set_anchor (a : option jstr) (s : lstate) : lstate :=
  let '(LState c t _ k r v tm am d) := s in LState c t a k r v tm am d.
Definition set_node (k : option kind) (r : value) (s : lstate) : lstate :=
  let '(LState c t a _ _ v tm am d) := s in LState c t a k r v tm am d.
Definition set_result (r : value) (s : lstate) : lstate :=
  let '(LState c t a k _ v tm am d) := s in LState c t a k r v tm am d.
Definition set_version (v : option jstr) (s : lstate) : lstate :=
  let '(LState c t a k r _ tm am d) := s in LState c t a k r v tm am d.
Definition set_tagMap (tm : list (jstr * jstr)) (s : lstate) : lstate :=
  let '(LState c t a k r v _ am d) := s in LState c t a k r v tm am d.
Definition set_anchorMap (am : list (jstr * anchored)) (s : lstate) : lstate :=
  let '(LState c t a k r v tm _ d) := s in LState c t a k r v tm am d.
Definition push_document (s : lstate) : lstate :=
  let '(LState c t a k r v tm am d) := s in LState c t a k r v tm am (d ++ [r]).

(** [state.anchorMap[name] = ...]; the name [__proto__] is not followed. *)
Definition set_named (name : jstr) (x : anchored) (s : lstate) : res lstate :=
  if streq name (u "__proto__") then Err Unsupported else Ok (set_anchorMap (obj_set name x (anchorMap s)) s).

(** The node of [state.anchor], when there is one. *)
Definition name_node (anchor : option jstr) (x : anchored) (s : lstate) : res lstate :=
  match anchor with Some a => set_named a x s | None => Ok s end.

(** A collection is complete: the name it was opened under is given its value,
    unless an inner node took the name. *)
Definition close_node (anchor : option jstr) (start : Z) (v : value) (s : lstate) : lstate :=
  match anchor with
  | Some a => match obj_lookup a (anchorMap s) with
              | Some (Open p) => if p =? start then set_anchorMap (obj_set a (Node v) (anchorMap s)) s else s
              | _ => s
              end
  | None => s
  end.

(** The contexts of a node. *)
Inductive context := CONTEXT_FLOW_IN | CONTEXT_FLOW_OUT | CONTEXT_BLOCK_IN | CONTEXT_BLOCK_OUT.

#[export] Instance context_eq_dec : EqDecision context.
Proof. solve_decision. Defined.

(** ** Mappings *)

(** The object under construction, and its keys that come from a merge. *)
Definition pairs_state : Type := object * list jstr.

(** [_result[key] = value]; writing [__proto__] is not followed. *)
Definition put_key (key : jstr) (v : value) (o : object) : res object :=
  if streq key (u "__proto__") then Err Unsupported else Ok (obj_set key v o).

Section Options.
Variable input : jstr.
(** [state.length], that does not count the NUL. *)
Variable length_ : Z.
Variable json : bool.
Variable implicitTypes : list ytype.
Variable typeMap : type_map.

(** [mergeMappings]. *)
Fixpoint merge_keys (source : object) (p : pairs_state) : res pairs_state :=
  match source with
  | [] => Ok p
  | (key, v) :: source =>
      if obj_has key p.1 then merge_keys source p
      else o <-? put_key key v p.1; merge_keys source (o, key :: p.2)
  end.

Definition mergeMappings (c : cursor) (source : value) (p : pairs_state) : res pairs_state :=
  if isObject source then merge_keys (own_props source) p
  else throwError c (u "cannot merge mappings; the provided source object is unacceptable").

Fixpoint merge_all (c : cursor) (sources : list value) (p : pairs_state) : res pairs_state :=
  match sources with
  | [] => Ok p
  | s :: sources => p <-? mergeMappings c s p; merge_all c sources p
  end.

(** [storeMappingPair]; [startLine] and [startPos] are 0 when they are not
    given. *)
Definition storeMappingPair (c : cursor) (p : pairs_state) (keyTag : option jstr) (keyNode valueNode : value)
    (startLine startPos : Z) : res pairs_state :=
  key <-? to_string keyNode;
  if bool_decide (keyTag = Some (yaml_tag "merge")) then
    match valueNode with
    | VArr l => merge_all c l p
    | _ => mergeMappings c valueNode p
    end
  else if negb json && negb (bool_decide (key ∈ p.2)) && obj_has key p.1 then
    throwError (Cursor (if startPos =? 0 then position c else startPos) (if startLine =? 0 then line c else startLine)
                  (lineStart c) (lineIndent c)) (u "duplicated mapping key")
  else
    o <-? put_key key valueNode p.1; Ok (o, List.filter (fun k => negb (streq k key)) p.2).

Local Abbreviation ch := (ch input).
Local Abbreviation char_at := (char_at input).
Local Abbreviation skip := (skipSeparationSpace input).

Definition skip_state (allowComments : bool) (s : lstate) : res (Z * lstate) :=
  '(n, c) <-? skip allowComments (cur s); Ok (n, set_cur c s).

(** ** Properties of a node *)

Definition name_end (c : Z) : bool := (c =? 0) || is_WS_OR_EOL c.
Definition anchor_end (c : Z) : bool := name_end c || is_FLOW_INDICATOR c.

(** The loop over the characters of a tag: the handle and where the suffix
    starts. *)
Fixpoint tag_loop (fuel : nat) (isNamed : bool) (tagHandle : jstr) (start : Z) (c : cursor) : res (jstr * Z * cursor) :=
  match fuel with
  | O => Err OutOfFuel
  | S fuel =>
      let x := ch c in
      if name_end x then Ok (tagHandle, start, c)
      else if x =? 33 then
        if isNamed then throwError c (u "tag suffix cannot contain exclamation marks")
        else
          let tagHandle := zslice (start - 1) (position c + 1) input in
          if rmatch PATTERN_TAG_HANDLE tagHandle then tag_loop fuel true tagHandle (position c + 1) (move 1 c)
          else throwError c (u "named tag handle cannot contain such characters")
      else tag_loop fuel isNamed tagHandle start (move 1 c)
  end.

(** The name of a tag: its handle ([None] for a verbatim tag), its suffix and
    the cursor after it. *)
Definition read_tag_name (c : cursor) : res (option jstr * jstr * cursor) :=
  let c := move 1 c in
  if ch c =? 60 then
    let c := move 1 c in
    let start := position c in
    let c := scan_cursor input (fun x => (x =? 0) || (x =? 62)) (move 1 c) in
    if position c <? length_ then Ok (None, zslice start (position c) input, move 1 c)
    else throwError c (u "unexpected end of the stream within a verbatim tag")
  else
    let '(isNamed, tagHandle, c) := if ch c =? 33 then (true, u "!!", move 1 c) else (false, u "!", c) in
    '(tagHandle, start, c) <-? tag_loop (enough input) isNamed tagHandle (position c) c;
    let tagName := zslice start (position c) input in
    if existsb is_FLOW_INDICATOR tagName
    then throwError c (u "tag suffix cannot contain flow indicator characters")
    else Ok (Some tagHandle, tagName, c).

(** [readTagProperty]. *)
Definition readTagProperty (s : lstate) : res (bool * lstate) :=
  if negb (ch (cur s) =? 33) then Ok (false, s)
  else if bool_decide (st_tag s <> None) then throwError (cur s) (u "duplication of a tag property")
  else
    '(tagHandle, tagName, c) <-? read_tag_name (cur s);
    let s := set_cur c s in
    if negb (bool_decide (tagName = [])) && negb (rmatch PATTERN_TAG_URI tagName)
    then throwError c (u "tag name cannot contain such characters: " ++ tagName)
    else
      match tagHandle with
      | None => Ok (true, set_tag (Some tagName) s)
      | Some h =>
          match obj_lookup h (tagMap s) with
          | Some prefix => Ok (true, set_tag (Some (prefix ++ tagName)) s)
          | None =>
              if streq h (u "!") then Ok (true, set_tag (Some (u "!" ++ tagName)) s)
              else if streq h (u "!!") then Ok (true, set_tag (Some (u "tag:yaml.org,2002:" ++ tagName)) s)
              else throwError c (u "undeclared tag handle " ++ [34] ++ h ++ [34])
          end
      end.

(** [readAnchorProperty]. *)
Definition readAnchorProperty (s : lstate) : res (bool * lstate) :=
  if negb (ch (cur s) =? 38) then Ok (false, s)
  else if bool_decide (st_anchor s <> None) then throwError (cur s) (u "duplication of an anchor property")
  else
    let c := move 1 (cur s) in
    let start := position c in
    let c := scan_cursor input anchor_end c in
    if position c =? start then throwError c (u "name of an anchor node must contain at least one character")
    else Ok (true, set_anchor (Some (zslice start (position c) input)) (set_cur c s)).

(** [readAlias].  [hasOwnProperty] is called as a property of the map, where an
    anchor of that name hides it. *)
Definition readAlias (s : lstate) : res (bool * lstate) :=
  if negb (ch (cur s) =? 42) then Ok (false, s)
  else
    let c := move 1 (cur s) in
    let start := position c in
    let c := scan_cursor input anchor_end c in
    if position c =? start then throwError c (u "name of an alias node must contain at least one character")
    else
      let alias := zslice start (position c) input in
      if obj_has (u "hasOwnProperty") (anchorMap s) then Err TypeError
      else
        match obj_lookup alias (anchorMap s) with
        | None => throwError c (u "unidentified alias " ++ [34] ++ alias ++ [34])
        | Some (Open _) => Err Unsupported
        | Some (Node v) =>
            '(_, s) <-? skip_state true (set_result v (set_cur c s)); Ok (true, s)
        end.

(** ** Collections *)

(** The recursive call: [composeNode]. *)
Variable compose : Z -> context -> bool -> bool -> lstate -> res (bool * lstate).

(** The collection that [readFlowCollection] fills. *)
Definition flow_value (isMapping : bool) (l : list value) (o : object) : value := if isMapping then VObj o else VArr l.

Fixpoint flow_loop (fuel : nat) (nodeIndent terminator : Z) (isMapping readNext : bool) (tag_ anchor_ : option jstr)
    (start : Z) (l : list value) (p : pairs_state) (s : lstate) : res lstate :=
  match fuel with
  | O => Err OutOfFuel
  | S fuel =>
      if ch (cur s) =? 0 then throwError (cur s) (u "unexpected end of the stream within a flow collection")
      else
        '(_, s) <-? skip_state true s;
        let x := ch (cur s) in
        if x =? terminator then
          let v := flow_value isMapping l p.1 in
          Ok (close_node anchor_ start v
                (set_node (Some (if isMapping then mapping else sequence)) v
                   (set_anchor anchor_ (set_tag tag_ (set_cur (move 1 (cur s)) s)))))
        else if negb readNext then throwError (cur s) (u "missed comma between flow collection entries")
        else
          let isExplicitPair := (x =? 63) && is_WS_OR_EOL (char_at (position (cur s) + 1)) in
          s <-? (if isExplicitPair then '(_, s) <-? skip_state true (set_cur (move 1 (cur s)) s); Ok s else Ok s);
          let line_ := line (cur s) in
          '(_, s) <-? compose nodeIndent CONTEXT_FLOW_IN false true s;
          let keyTag := st_tag s in
          let keyNode := st_result s in
          '(_, s) <-? skip_state true s;
          let x := ch (cur s) in
          '(isPair, valueNode, s) <-?
             (if (isExplicitPair || (line (cur s) =? line_)) && (x =? 58) then
                '(_, s) <-? skip_state true (set_cur (move 1 (cur s)) s);
                '(_, s) <-? compose nodeIndent CONTEXT_FLOW_IN false true s;
                Ok (true, st_result s, s)
              else Ok (isExplicitPair, VNull, s));
          '(l, p) <-?
             (if isMapping then p <-? storeMappingPair (cur s) p keyTag keyNode valueNode 0 0; Ok (l, p)
              else if isPair : bool then
                q <-? storeMappingPair (cur s) ([], p.2) keyTag keyNode valueNode 0 0;
                Ok (l ++ [VObj q.1], (p.1, q.2))
              else Ok (l ++ [keyNode], p));
          '(_, s) <-? skip_state true s;
          let readNext := ch (cur s) =? 44 in
          flow_loop fuel nodeIndent terminator isMapping readNext tag_ anchor_ start l p
            (if readNext then set_cur (move 1 (cur s)) s else s)
  end.

(** [readFlowCollection]. *)
Definition readFlowCollection (nodeIndent : Z) (s : lstate) : res (bool * lstate) :=
  let x := ch (cur s) in
  if (x =? 91) || (x =? 123) then
    let start := position (cur s) in
    s' <-? name_node (st_anchor s) (Open start) s;
    s' <-? flow_loop (enough input) nodeIndent (if x =? 91 then 93 else 125) (x =? 123) true (st_tag s) (st_anchor s)
             start [] ([], []) (set_cur (move 1 (cur s')) s');
    Ok (true, s')
  else Ok (false, s).

(** The loop of [readBlockSequence]: whether there is a sequence, and its
    items. *)
Fixpoint sequence_loop (fuel : nat) (nodeIndent : Z) (detected : bool) (l : list value) (s : lstate) :
    res (bool * list value * lstate) :=
  match fuel with
  | O => Err OutOfFuel
  | S fuel =>
      if negb (ch (cur s) =? 45) || negb (is_WS_OR_EOL (char_at (position (cur s) + 1))) then Ok (detected, l, s)
      else
        '(n, s) <-? skip_state true (set_cur (move 1 (cur s)) s);
        if negb (n =? 0) && (lineIndent (cur s) <=? nodeIndent) then
          sequence_loop fuel nodeIndent true (l ++ [VNull]) s
        else
          let line_ := line (cur s) in
          '(_, s) <-? compose nodeIndent CONTEXT_BLOCK_IN false true s;
          let l := l ++ [st_result s] in
          '(_, s) <-? skip_state true s;
          if ((line (cur s) =? line_) || (nodeIndent <? lineIndent (cur s))) && negb (ch (cur s) =? 0)
          then throwError (cur s) (u "bad indentation of a sequence entry")
          else if lineIndent (cur s) <? nodeIndent then Ok (true, l, s)
          else sequence_loop fuel nodeIndent true l s
  end.

(** [readBlockSequence]. *)
Definition readBlockSequence (nodeIndent : Z) (s : lstate) : res (bool * lstate) :=
  let tag_ := st_tag s in
  let anchor_ := st_anchor s in
  let start := position (cur s) in
  s <-? name_node anchor_ (Open start) s;
  '(detected, l, s) <-? sequence_loop (enough input) nodeIndent false [] s;
  let s := close_node anchor_ start (VArr l) s in
  if detected : bool
  then Ok (true, set_node (Some sequence) (VArr l) (set_anchor anchor_ (set_tag tag_ s)))
  else Ok (false, s).

(** How the loop of [readBlockMapping] ends: at its epilogue, or at once with
    the node that was read in the place of a key. *)
Inductive mapping_end := Epilogue | KeepNode.

(** The pair under construction: the tag and the node of its key. *)
Definition key_state : Type := option jstr * value.

(** The separator after an implicit key that has been read: whether there is
    one, and the state at the value. *)
Definition implicit_separator (detected : bool) (line_ : Z) (s : lstate) : res (bool * lstate) :=
  if line (cur s) =? line_ then
    let c := scan_cursor input not_white (cur s) in
    if ch c =? 58 then
      let c := move 1 c in
      if is_WS_OR_EOL (ch c) then Ok (true, set_cur c s)
      else throwError c (u "a whitespace character is expected after the key-value separator within a block mapping")
    else if detected then throwError c (u "can not read an implicit mapping pair; a colon is missed")
    else Ok (false, set_cur c s)
  else if detected
  then throwError (cur s) (u "can not read a block mapping entry; a multiline key may not be an implicit key")
  else Ok (false, s).

(** A key in the explicit notation is stored without a value when another key
    follows it. *)
Definition flush_key (atExplicitKey : bool) (k : key_state) (p : pairs_state) (s : lstate) : res (pairs_state * key_state) :=
  if atExplicitKey then p <-? storeMappingPair (cur s) p k.1 k.2 VNull 0 0; Ok (p, (None, VNull)) else Ok (p, k).

(** The value, or the explicit key, that follows an indicator. *)
Definition read_entry (nodeIndent line_ pos_ : Z) (atExplicitKey allowCompact : bool) (k : key_state) (p : pairs_state)
    (s : lstate) : res (key_state * pairs_state * lstate) :=
  if (line (cur s) =? line_) || (nodeIndent <? lineIndent (cur s)) then
    '(some, s) <-? compose nodeIndent CONTEXT_BLOCK_OUT true allowCompact s;
    let v := if some : bool then st_result s else VNull in
    '(k, p) <-?
       (if atExplicitKey then Ok ((k.1, if some : bool then v else k.2), p)
        else p <-? storeMappingPair (cur s) p k.1 k.2 v line_ pos_; Ok ((None, VNull), p));
    '(_, s) <-? skip_state true s; Ok (k, p, s)
  else Ok (k, p, s).

Fixpoint mapping_loop (fuel : nat) (nodeIndent flowIndent : Z) (detected atExplicitKey : bool) (k : key_state)
    (p : pairs_state) (s : lstate) : res (mapping_end * bool * bool * key_state * pairs_state * lstate) :=
  match fuel with
  | O => Err OutOfFuel
  | S fuel =>
      let x := ch (cur s) in
      if x =? 0 then Ok (Epilogue, detected, atExplicitKey, k, p, s)
      else
        let following := char_at (position (cur s) + 1) in
        let line_ := line (cur s) in
        let pos_ := position (cur s) in
        let continue atExplicitKey allowCompact k p s :=
          '(k, p, s) <-? read_entry nodeIndent line_ pos_ atExplicitKey allowCompact k p s;
          if (nodeIndent <? lineIndent (cur s)) && negb (ch (cur s) =? 0)
          then throwError (cur s) (u "bad indentation of a mapping entry")
          else if lineIndent (cur s) <? nodeIndent then Ok (Epilogue, true, atExplicitKey, k, p, s)
          else mapping_loop fuel nodeIndent flowIndent true atExplicitKey k p s in
        if ((x =? 63) || (x =? 58)) && is_WS_OR_EOL following then
          if x =? 63 then
            '(p, k) <-? flush_key atExplicitKey k p s; continue true true k p (set_cur (move 1 (cur s)) s)
          else if atExplicitKey then continue false true k p (set_cur (move 1 (cur s)) s)
          else throwError (cur s) (u "incomplete explicit mapping pair; a key node is missed")
        else
          '(some, s) <-? compose flowIndent CONTEXT_FLOW_OUT false true s;
          if some : bool then
            '(sep, s) <-? implicit_separator detected line_ s;
            if sep : bool then
              '(p, _) <-? flush_key atExplicitKey k p s;
              continue false false (st_tag s, st_result s) p s
            else Ok (KeepNode, false, atExplicitKey, k, p, s)
          else Ok (Epilogue, detected, atExplicitKey, k, p, s)
  end.

(** [readBlockMapping]. *)
Definition readBlockMapping (nodeIndent flowIndent : Z) (s : lstate) : res (bool * lstate) :=
  let tag_ := st_tag s in
  let anchor_ := st_anchor s in
  let start := position (cur s) in
  s <-? name_node anchor_ (Open start) s;
  '(e, detected, atExplicitKey, k, p, s) <-?
     mapping_loop (enough input) nodeIndent flowIndent false false (None, VNull) ([], []) s;
  match e with
  | KeepNode => Ok (true, set_anchor anchor_ (set_tag tag_ (close_node anchor_ start (VObj p.1) s)))
  | Epilogue =>
      '(p, _) <-? flush_key atExplicitKey k p s;
      let s := close_node anchor_ start (VObj p.1) s in
      if detected : bool
      then Ok (true, set_node (Some mapping) (VObj p.1) (set_anchor anchor_ (set_tag tag_ s)))
      else Ok (false, s)
  end.

(** ** Nodes *)

(** The relation of the indentation of a line to that of the parent. *)
Definition indent_status (parentIndent : Z) (s : lstate) : Z :=
  if parentIndent <? lineIndent (cur s) then 1 else if lineIndent (cur s) =? parentIndent then 0 else -1.

(** The loop over the tag and the anchor of a node. *)
Fixpoint properties_loop (fuel : nat) (parentIndent : Z) (allowBlockStyles atNewLine allowBlockCollections : bool)
    (indentStatus : Z) (s : lstate) : res (bool * bool * Z * lstate) :=
  match fuel with
  | O => Err OutOfFuel
  | S fuel =>
      '(t, s) <-? readTagProperty s;
      '(found, s) <-? (if t : bool then Ok (true, s) else readAnchorProperty s);
      if found : bool then
        '(n, s) <-? skip_state true s;
        if n =? 0 then properties_loop fuel parentIndent allowBlockStyles atNewLine false indentStatus s
        else properties_loop fuel parentIndent allowBlockStyles true allowBlockStyles (indent_status parentIndent s) s
      else Ok (atNewLine, allowBlockCollections, indentStatus, s)
  end.

(** A scalar reader, lifted to the state. *)
Definition scalar_reader (r : cursor -> res (option jstr * cursor)) (s : lstate) : res (bool * lstate) :=
  '(o, c) <-? r (cur s);
  match o with
  | Some t => Ok (true, set_node (Some scalar) (VStr t) (set_cur c s))
  | None => Ok (false, set_cur c s)
  end.

(** [a || b] on readers. *)
Definition or_else (a b : lstate -> res (bool * lstate)) (s : lstate) : res (bool * lstate) :=
  '(found, s) <-? a s; if found : bool then Ok (true, s) else b s.

Definition never (s : lstate) : res (bool * lstate) := Ok (false, s).

(** An alias, that takes no properties. *)
Definition alias_reader (s : lstate) : res (bool * lstate) :=
  '(found, s) <-? readAlias s;
  if found && (bool_decide (st_tag s <> None) || bool_decide (st_anchor s <> None))
  then throwError (cur s) (u "alias node should not have any properties")
  else Ok (found, s).

Definition plain_reader (flowIndent : Z) (within : bool) (s : lstate) : res (bool * lstate) :=
  '(found, s) <-? scalar_reader (readPlainScalar input flowIndent within) s;
  Ok (found, if found : bool then match st_tag s with None => set_tag (Some (u "?")) s | Some _ => s end else s).

(** The content of a node. *)
Definition read_content (ctx : context) (allowBlockStyles allowBlockCollections : bool) (flowIndent blockIndent : Z)
    (s : lstate) : res (bool * lstate) :=
  let collections :=
    or_else
      (if allowBlockCollections then or_else (readBlockSequence blockIndent) (readBlockMapping blockIndent flowIndent)
       else never)
      (readFlowCollection flowIndent) in
  '(found, s) <-? collections s;
  if found : bool then Ok (true, s)
  else
    '(found, s) <-?
       or_else (if allowBlockStyles then scalar_reader (readBlockScalar input flowIndent) else never)
         (or_else (scalar_reader (readSingleQuotedScalar input flowIndent))
            (or_else (scalar_reader (readDoubleQuotedScalar input flowIndent))
               (or_else alias_reader (plain_reader flowIndent (bool_decide (ctx = CONTEXT_FLOW_IN)))))) s;
    s <-? name_node (st_anchor s) (Node (st_result s)) s;
    Ok (found, s).

(** The node takes the value that its type constructs. *)
Definition construct_node (t : ytype) (s : lstate) : res lstate :=
  v <-? construct t (st_result s); name_node (st_anchor s) (Node v) (set_result v s).

(** The type of a node: by its tag, or the first implicit type that accepts a
    plain scalar. *)
Definition resolve_tag (s : lstate) : res lstate :=
  match st_tag s with
  | None => Ok s
  | Some t =>
      if streq t (u "!") then Ok s
      else if streq t (u "?") then
        match find (fun ty => resolve ty (st_result s)) implicitTypes with
        | Some ty => s <-? construct_node ty s; Ok (set_tag (Some (tag ty)) s)
        | None => Ok s
        end
      else
        match obj_lookup t (match st_kind s with Some k => map_kind typeMap k | None => fallback typeMap end) with
        | Some ty =>
            if negb (bool_decide (st_result s = VNull)) && negb (bool_decide (st_kind s = Some (type_kind ty))) then
              throwError (cur s) (u "unacceptable node kind for !<" ++ t ++ u "> tag; it should be " ++ [34]
                ++ kind_name (type_kind ty) ++ [34] ++ u ", not " ++ [34]
                ++ match st_kind s with Some k => kind_name k | None => u "null" end ++ [34])
            else if resolve ty (st_result s) then construct_node ty s
            else throwError (cur s) (u "cannot resolve a node with !<" ++ t ++ u "> explicit tag")
        | None => throwError (cur s) (u "unknown tag !<" ++ t ++ u ">")
        end
  end.

(** [composeNode]. *)
Definition compose_node (parentIndent : Z) (ctx : context) (allowToSeek allowCompact : bool) (s : lstate) :
    res (bool * lstate) :=
  let s := set_node None VNull (set_anchor None (set_tag None s)) in
  let allowBlockStyles := bool_decide (ctx = CONTEXT_BLOCK_OUT) || bool_decide (ctx = CONTEXT_BLOCK_IN) in
  '(n, s) <-? (if allowToSeek then skip_state true s else Ok (0, s));
  let atNewLine := negb (n =? 0) in
  let indentStatus := if atNewLine then indent_status parentIndent s else 1 in
  '(atNewLine, allowBlockCollections, indentStatus, s) <-?
     (if indentStatus =? 1
      then properties_loop (enough input) parentIndent allowBlockStyles atNewLine allowBlockStyles indentStatus s
      else Ok (atNewLine, allowBlockStyles, indentStatus, s));
  let allowBlockCollections := allowBlockCollections && (atNewLine || allowCompact) in
  let flowIndent := if allowBlockStyles then parentIndent + 1 else parentIndent in
  let blockIndent := position (cur s) - lineStart (cur s) in
  '(hasContent, s) <-?
     (if indentStatus =? 1 then read_content ctx allowBlockStyles allowBlockCollections flowIndent blockIndent s
      else if bool_decide (ctx = CONTEXT_BLOCK_OUT) && (indentStatus =? 0) && allowBlockCollections
      then readBlockSequence blockIndent s else Ok (false, s));
  s <-? resolve_tag s;
  Ok (bool_decide (st_tag s <> None) || bool_decide (st_anchor s <> None) || hasContent, s).
End Options.

(** The recursion of [composeNode]: the fuel bounds the depth of the nodes. *)
Fixpoint composeNode (fuel : nat) (input : jstr) (length_ : Z) (json : bool) (implicitTypes : list ytype) (typeMap : type_map)
    (parentIndent : Z) (ctx : context) (allowToSeek allowCompact : bool) (s : lstate) : res (bool * lstate) :=
  match fuel with
  | O => Err OutOfFuel
  | S fuel =>
      compose_node input length_ json implicitTypes typeMap
        (composeNode fuel input length_ json implicitTypes typeMap) parentIndent ctx allowToSeek allowCompact s
  end.

(** ** Documents *)

Section Documents.
Variable input : jstr.
Variable length_ : Z.
Variable json : bool.
Variable implicitTypes : list ytype.
Variable typeMap : type_map.

Local Abbreviation ch := (ch input).
Local Abbreviation char_at := (char_at input).

(** The directives [%YAML] and [%TAG]. *)
Definition handleYamlDirective (args : list jstr) (s : lstate) : res lstate :=
  if bool_decide (version s <> None) then throwError (cur s) (u "duplication of %YAML directive")
  else
    match args with
    | [arg] =>
        let '(major, rest) := take_digits arg in
        match rest with
        | dot :: rest =>
            let '(minor, tail) := take_digits rest in
            if (dot =? 46) && bool_decide (major <> []) && bool_decide (minor <> []) && bool_decide (tail = []) then
              if bool_decide (parseInt major 10 = num_of_Z 1) then Ok (set_version (Some arg) s)
              else throwError (cur s) (u "unacceptable YAML version of the document")
            else throwError (cur s) (u "ill-formed argument of the YAML directive")
        | [] => throwError (cur s) (u "ill-formed argument of the YAML directive")
        end
    | _ => throwError (cur s) (u "YAML directive accepts exactly one argument")
    end.

Definition handleTagDirective (args : list jstr) (s : lstate) : res lstate :=
  match args with
  | [handle; prefix] =>
      if negb (rmatch PATTERN_TAG_HANDLE handle)
      then throwError (cur s) (u "ill-formed tag handle (first argument) of the TAG directive")
      else if obj_has handle (tagMap s) then
        throwError (cur s) (u "there is a previously declared suffix for " ++ [34] ++ handle ++ [34] ++ u " tag handle")
      else if negb (rmatch PATTERN_TAG_URI prefix)
      then throwError (cur s) (u "ill-formed tag prefix (second argument) of the TAG directive")
      else Ok (set_tagMap (obj_set handle prefix (tagMap s)) s)
  | _ => throwError (cur s) (u "TAG directive accepts exactly two arguments")
  end.

(** The arguments of a directive, and the cursor at the end of its line. *)
Fixpoint directive_args (fuel : nat) (args : list jstr) (c : cursor) : res (list jstr * cursor) :=
  match fuel with
  | O => Err OutOfFuel
  | S fuel =>
      if ch c =? 0 then Ok (args, c)
      else
        let c := scan_cursor input not_white c in
        if ch c =? 35 then Ok (args, scan_cursor input line_end (move 1 c))
        else if is_EOL (ch c) then Ok (args, c)
        else
          let start := position c in
          let c := scan_cursor input name_end c in
          directive_args fuel (args ++ [zslice start (position c) input]) c
  end.

(** The loop over the directives of a document: whether there are any. *)
Fixpoint directives_loop (fuel : nat) (hasDirectives : bool) (s : lstate) : res (bool * lstate) :=
  match fuel with
  | O => Err OutOfFuel
  | S fuel =>
      if ch (cur s) =? 0 then Ok (hasDirectives, s)
      else
        '(_, s) <-? skip_state input true s;
        if (0 <? lineIndent (cur s)) || negb (ch (cur s) =? 37) then Ok (hasDirectives, s)
        else
          let c := move 1 (cur s) in
          let start := position c in
          let c := scan_cursor input name_end c in
          let name := zslice start (position c) input in
          if bool_decide (name = []) then throwError c (u "directive name must not be less than one character in length")
          else
            '(args, c) <-? directive_args (enough input) [] c;
            c <-? (if ch c =? 0 then Ok c else readLineBreak input c);
            let s := set_cur c s in
            s <-? (if streq name (u "YAML") then handleYamlDirective args s
                   else if streq name (u "TAG") then handleTagDirective args s
                   else Ok s);
            directives_loop fuel true s
  end.

(** [readDocument]. *)
Definition readDocument (s : lstate) : res lstate :=
  let s := set_anchorMap [] (set_tagMap [] (set_version None s)) in
  '(hasDirectives, s) <-? directives_loop (enough input) false s;
  '(_, s) <-? skip_state input true s;
  let p := position (cur s) in
  '(_, s) <-?
     (if (lineIndent (cur s) =? 0) && (char_at p =? 45) && (char_at (p + 1) =? 45) && (char_at (p + 2) =? 45)
      then skip_state input true (set_cur (move 3 (cur s)) s)
      else if hasDirectives : bool then throwError (cur s) (u "directives end mark is expected")
      else Ok (0, s));
  '(_, s) <-? composeNode (4 * enough input) input length_ json implicitTypes typeMap
                (lineIndent (cur s) - 1) CONTEXT_BLOCK_OUT false true s;
  '(_, s) <-? skip_state input true s;
  let s := push_document s in
  if at_separator input (cur s) then
    if ch (cur s) =? 46 then '(_, s) <-? skip_state input true (set_cur (move 3 (cur s)) s); Ok s else Ok s
  else if position (cur s) <? length_ - 1
  then throwError (cur s) (u "end of the stream or a document separator is expected")
  else Ok s.

Fixpoint documents_loop (fuel : nat) (s : lstate) : res lstate :=
  match fuel with
  | O => Err OutOfFuel
  | S fuel => if position (cur s) <? length_ - 1 then s <-? readDocument s; documents_loop fuel s else Ok s
  end.
End Documents.

(** The text as [loadDocuments] prepares it: it ends with a line break, and has
    no byte order mark. *)
Definition prepare_input (input : jstr) : jstr :=
  match input with
  | [] => []
  | _ =>
      let input := if is_EOL (List.last input 0) then input else input ++ [10] in
      match input with x :: rest => if x =? 65279 then rest else input | [] => input end
  end.

(** The fields of [options] that the loader uses, but for its callbacks. *)
Record load_options := LoadOptions { opt_schema : yschema; opt_json : bool }.

Definition loadDocuments (input : jstr) (o : load_options) : res (list value) :=
  let text := prepare_input input in
  let input := text ++ [0] in
  let p := scan input not_space 0 in
  s <-? documents_loop input (zlen text) (opt_json o) (compiledImplicit (opt_schema o)) (compiledTypeMap (opt_schema o))
          (2 * enough input) (LState (Cursor p 0 0 p) None None None VUndef None [] [] []);
  Ok (documents s).

Definition load (input : jstr) (o : load_options) : res value :=
  docs <-? loadDocuments input o;
  match docs with
  | [] => Ok VUndef
  | [d] => Ok d
  | _ => Err (YamlException (u "expected a single document in the stream, but found more") None)
  end.

(** [safeLoad(v)], without options. *)
Definition safeLoad (v : value) : res value :=
  input <-? to_string v; load input (LoadOptions DEFAULT_SAFE_SCHEMA false).

(** [loadAll] and [safeLoadAll]: the callback is called with each document, in
    order, once all of them are loaded; [S] is what it changes. *)
Fixpoint iterate_documents {S} (iterator : value -> S -> res S) (docs : list value) (st : S) : res S :=
  match docs with
  | [] => Ok st
  | d :: docs => st <-? iterator d st; iterate_documents iterator docs st
  end.

Definition loadAll {S} (input : jstr) (iterator : value -> S -> res S) (o : load_options) (st : S) : res S :=
  docs <-? loadDocuments input o; iterate_documents iterator docs st.

Definition safeLoadAll {S} (v : value) (iterator : value -> S -> res S) (st : S) : res S :=
  input <-? to_string v; loadAll input iterator (LoadOptions DEFAULT_SAFE_SCHEMA false) st.

Definition lines (l : list string) : jstr := concat (map (fun s => u s ++ [10]) l).

Example load_examples :
  map (fun l => safeLoad (VStr (lines l)))
    [["a: 1"; "b: [x, 'y z', {k: ~}]"; "c:"; "  - true"; "  - |"; "    text"; "    more"; "  - >-"; "    fol"; "    ded"];
     ["--- !!omap [a: 1, b: 2]"];
     ["? k"; ": v"; "<<: {k: w, z: 1}"];
     ["- &x [1, 2]"; "- *x"];
     ["a: &x"; "  foo"; "b: *x"]]%string
  = [Ok (VObj [(u "a", VNum (num_of_Z 1));
               (u "b", VArr [VStr (u "x"); VStr (u "y z"); VObj [(u "k", VNull)]]);
               (u "c", VArr [VBool true; VStr (u "text" ++ [10] ++ u "more" ++ [10]); VStr (u "fol ded")])]);
     Ok (VArr [VObj [(u "a", VNum (num_of_Z 1))]; VObj [(u "b", VNum (num_of_Z 2))]]);
     Ok (VObj [(u "k", VStr (u "v")); (u "z", VNum (num_of_Z 1))]);
     Ok (VArr [VArr [VNum (num_of_Z 1); VNum (num_of_Z 2)]; VArr [VNum (num_of_Z 1); VNum (num_of_Z 2)]]);
     Ok (VObj [(u "a", VStr (u "foo")); (u "b", VObj [])])].
Proof. vm_compute. reflexivity. Qed.
