(* ===== verification/YamlSafety.v ===== *)
(** The loader terminates, and stays inside the text: on every input the loops
    and the recursion of the scanner and of the loader end before their fuel
    does, and the position that an error shows is a position of the text. *)

From Stdlib Require Import ZArith Lia List String Bool.
From stdpp Require Import base list sets list_numbers tactics.
From S2P Require Import Prelude JsNum Js Int32 Regex YamlCommon YamlTimestamp YamlTypes YamlSchema YamlScanner YamlLoader.

Section Safety.
(** The text prepared by [loadDocuments]: it ends with a line break. *)
Context (text : jstr) (Htext : text = [] \/ is_EOL (List.last text 0) = true).

Let input := text ++ [0].
Let L := zlen text.

(** ** Outcomes *)

(** An error that the program can throw, at a position of the text. *)
Definition good_error (e : error) : Prop :=
  match e with
  | OutOfFuel => False
  | YamlException _ (Some (p, _, _)) => 0 <= p <= L
  | _ => True
  end.

(** The computation gives a value that satisfies [P], or a good error. *)
Definition safe {A} (m : res A) (P : A -> Prop) : Prop :=
  match m with Ok a => P a | Err e => good_error e end.

Lemma safe_bind {A B} (m : res A) (f : A -> res B) (P : A -> Prop) (Q : B -> Prop) :
  safe m P -> (forall a, P a -> safe (f a) Q) -> safe (res_bind m f) Q.
Proof. destruct m; simpl; auto. Qed.

Lemma safe_weaken {A} (m : res A) (P Q : A -> Prop) : safe m P -> (forall a, P a -> Q a) -> safe m Q.
Proof. destruct m; simpl; auto. Qed.

(** The position is in the current line; at its start, the line has no
    indentation. *)
Definition in_line (q : Z) (c : cursor) : Prop := lineStart c < q \/ lineStart c = q /\ lineIndent c = 0.

(** From a position on, and inside the text. *)
Definition after (p : Z) (c : cursor) : Prop :=
  0 <= p /\ p <= position c <= L /\ in_line (position c) c /\ 0 <= lineIndent c.

Lemma safe_throw {A} (c : cursor) m (P : A -> Prop) p : after p c -> safe (throwError c m) P.
Proof. unfold after, in_line. simpl. lia. Qed.

(** ** Characters of the text *)

Lemma zlen_input : zlen input = L + 1.
Proof. unfold input, L. rewrite zlen_app. done. Qed.

Lemma char_at_end : char_at input L = 0.
Proof. unfold char_at, input, L. rewrite zget_app_r by lia. by rewrite Z.sub_diag. Qed.

Lemma char_at_lt p : 0 <= p <= L -> char_at input p <> 0 -> p < L.
Proof. intros Hp Hc. destruct (decide (p = L)) as [->|]; [by rewrite char_at_end in Hc|lia]. Qed.

Lemma after_refl c p : after p c -> after (position c) c.
Proof. unfold after, in_line. lia. Qed.

Lemma after_trans p q c d : after p c -> q = position c -> after q d -> after p d.
Proof. unfold after, in_line. lia. Qed.

(** A step over a character that is not the last NUL. *)
Lemma after_move p c : after p c -> ch input c <> 0 -> after (p + 1) (move 1 c).
Proof. intros H Hc. unfold after, in_line in *. apply char_at_lt in Hc; [|lia]. simpl. lia. Qed.

Lemma after_le p q c : 0 <= q <= p -> after p c -> after q c.
Proof. unfold after, in_line. lia. Qed.

Lemma count_until_bound stop s : 0 <= count_until stop s <= zlen s.
Proof.
  induction s as [|x s IH]; simpl; [unfold zlen; simpl; lia|].
  rewrite zlen_cons. pose proof (zlen_nonneg s). destruct (stop x); lia.
Qed.

Lemma count_until_stop stop s : stop 0 = true -> count_until stop (s ++ [0]) <= zlen s.
Proof.
  intros Hs. induction s as [|x s IH]; simpl; [rewrite Hs; unfold zlen; simpl; lia|].
  rewrite zlen_cons. pose proof (zlen_nonneg s). destruct (stop x); lia.
Qed.

Lemma scan_bound stop p : stop 0 = true -> 0 <= p <= L -> p <= scan input stop p <= L.
Proof.
  intros Hs Hp. unfold scan, input. rewrite drop_app_le by (unfold L, zlen in Hp; lia).
  pose proof (count_until_stop stop (drop (Z.to_nat p) text) Hs) as Hu.
  pose proof (count_until_bound stop (drop (Z.to_nat p) text ++ [0])) as Hl.
  unfold zlen in Hu. rewrite length_drop in Hu. unfold L, zlen in *. lia.
Qed.

Lemma after_scan stop p c : stop 0 = true -> after p c -> after p (scan_cursor input stop c).
Proof.
  intros Hs H. unfold after, in_line in *. pose proof (scan_bound stop (position c) Hs ltac:(lia)).
  unfold scan_cursor, goto. simpl. lia.
Qed.

Lemma enough_fuel : Z.of_nat (enough input) = L + 2.
Proof. unfold enough. rewrite Nat2Z.inj_succ. change (Z.of_nat (length input)) with (zlen input). rewrite zlen_input. lia. Qed.

(** ** The scanner *)

Ltac chars :=
  unfold is_EOL, is_WHITE_SPACE, is_WS_OR_EOL, is_FLOW_INDICATOR, at_separator, testDocumentSeparator in *;
  repeat match goal with
  | H : (_ || _)%bool = true |- _ => apply orb_true_iff in H; destruct H
  end; breflect; try congruence; try lia.

(** After a line break, before the indentation of the line is known. *)
Definition at_line (p i : Z) (c : cursor) : Prop :=
  0 <= p <= position c /\ position c <= L /\ lineStart c = position c /\ lineIndent c = i.

(** A step of a loop over characters. *)
Ltac advance := unfold after, in_line, at_line in *; simpl in *; lia.

Lemma readLineBreak_safe p c : after p c -> safe (readLineBreak input c) (at_line (p + 1) (lineIndent c)).
Proof.
  intros H. unfold readLineBreak, at_line. case_goal; [|case_goal]; breflect.
  - assert (ch input c <> 0) as Hc by congruence. apply (after_move p c H) in Hc. advance.
  - assert (ch input c <> 0) as Hc by congruence. pose proof (after_move p c H Hc) as H1.
    case_goal; breflect; [|advance].
    assert (char_at input (position c + 1) <> 0) as Hc2 by congruence. apply char_at_lt in Hc2; [|advance]. advance.
  - by apply (safe_throw c _ _ p).
Qed.

(** What [skipSeparationSpace] leaves: no line break ahead. *)
Definition skipped (p : Z) (r : Z * cursor) : Prop := after p r.2 /\ is_EOL (ch input r.2) = false.

Lemma skip_loop_safe fuel ac n p c :
  after p c -> L - position c < Z.of_nat fuel -> safe (skip_loop input fuel ac n c) (skipped p).
Proof.
  revert n p c. induction fuel as [|fuel IH]; intros n p c H Hf; [unfold after in H; lia|]. cbn [skip_loop].
  case_goal; [breflect; split; [done|]; simpl; by rewrite E|]. set (c1 := scan_cursor input not_white c).
  assert (after (position c) c1) as H1 by (apply after_scan; [done|by eapply after_refl]).
  set (c2 := if ac && (ch input c1 =? 35) then scan_cursor input line_end (move 1 c1) else c1).
  assert (after (position c) c2) as H2.
  { subst c2. destruct (ac && (ch input c1 =? 35)) eqn:Ec; [|done]. breflect.
    apply after_scan; [done|]. apply (after_le (position c + 1)); [unfold after in *; lia|].
    apply after_move; [done|congruence]. }
  destruct (is_EOL (ch input c2)) eqn:Ee; [|split; [advance|done]].
  eapply safe_bind; [by apply readLineBreak_safe|]. intros c3 H3.
  pose proof (scan_bound not_space (position c3) eq_refl ltac:(unfold at_line in *; lia)).
  apply IH; advance.
Qed.

Lemma skip_safe ac p c : after p c -> safe (skipSeparationSpace input ac c) (skipped p).
Proof. intros H. apply skip_loop_safe; [done|]. rewrite enough_fuel. unfold after in H. lia. Qed.

(** At a line break, something is skipped. *)
Lemma scan_stop stop c : 0 <= position c <= L -> stop (ch input c) = true -> scan_cursor input stop c = c.
Proof.
  intros Hc Hs. assert (scan input stop (position c) = position c) as He.
  { unfold scan. unfold ch, char_at, zget in Hs. destruct (position c <? 0) eqn:E; breflect; [lia|].
    replace (input !! Z.to_nat (position c)) with (drop (Z.to_nat (position c)) input !! 0%nat) in Hs
      by (rewrite lookup_drop; f_equal; lia).
    destruct (drop (Z.to_nat (position c)) input) as [|x s]; simpl in *; [lia|]. rewrite Hs. lia. }
  unfold scan_cursor, goto. rewrite He. by destruct c.
Qed.

Lemma skip_line_safe ac p c :
  after p c -> is_EOL (ch input c) = true -> safe (skipSeparationSpace input ac c) (skipped (p + 1)).
Proof.
  intros H He. unfold skipSeparationSpace, enough. cbn [skip_loop].
  assert (ch input c <> 0 /\ is_WHITE_SPACE (ch input c) = false /\ ch input c <> 35) as (H0 & Hw & H35).
  { unfold is_EOL in He. apply orb_true_iff in He as [He|He]; breflect; rewrite He; by repeat split. }
  rewrite (proj2 (Z.eqb_neq _ _) H0).
  rewrite scan_stop; [|unfold after, in_line in H; lia|unfold not_white; by rewrite Hw].
  rewrite (proj2 (Z.eqb_neq _ _) H35), andb_false_r, He.
  eapply safe_bind; [by apply readLineBreak_safe|].
  intros c3 H3. unfold at_line in H3. pose proof (scan_bound not_space (position c3) eq_refl ltac:(unfold after, in_line in *; lia)).
  apply skip_loop_safe; [advance|].
  pose proof enough_fuel as He2. unfold enough in He2. advance.
Qed.

Lemma captureSegment_safe p c r a b j : after p c -> safe (captureSegment input c r a b j) (fun _ => True).
Proof.
  intros H. unfold captureSegment. repeat case_goal; try done; by apply (safe_throw c _ _ p).
Qed.

(** A character after which the text goes on. *)
Lemma at_separator_char c : at_separator input c = true -> ch input c <> 0.
Proof. unfold at_separator, testDocumentSeparator. intros H. breflect. chars. Qed.

(** The loop of a plain scalar: the end of the content is in the line of the
    cursor, unless the line begins with the next content. *)
Definition plain_end (p ce : Z) (pend : option Z) (c : cursor) : Prop :=
  p <= ce <= position c /\
  match pend with Some _ => is_EOL (ch input c) = false | None => in_line ce c end.

Lemma plain_loop_safe fuel ni w r cs ce pend p c :
  after p c -> plain_end p ce pend c -> L - position c < Z.of_nat fuel ->
  safe (plain_loop input fuel ni w r cs ce pend c) (fun x => after p x.2).
Proof.
  revert r cs ce pend c. induction fuel as [|fuel IH]; intros r cs ce pend c H Hce Hf; [unfold after in H; lia|].
  cbn [plain_loop].
  assert (forall c', after p c' -> safe (r0 <-? captureSegment input c' r cs ce false; Ok (r0, c')) (fun x => after p x.2)) as Hstop.
  { intros c' Hc'. apply (safe_bind _ _ (fun _ => True)); [by apply (captureSegment_safe p)|done]. }
  destruct (ch input c =? 0) eqn:E0; [by apply Hstop|]. breflect.
  pose proof (after_move p c H E0) as Hm.
  match goal with |- safe (if _ then if _ then _ else ?n else _) _ => assert (safe n (fun x => after p x.2)) as Hnext end.
  { apply (safe_bind _ _ (fun x => plain_end p x.2 None c)).
    - destruct pend as [l|]; [|done].
      apply (safe_bind _ _ (fun _ => True)); [by apply (captureSegment_safe p)|]. intros r' _.
      split; advance.
    - intros [[r' cs'] ce'] Hce'. simpl in Hce'. unfold plain_end in *.
      apply IH; [|destruct (is_WHITE_SPACE _)|]; advance. }
  destruct (ch input c =? 58); [case_goal; [by apply Hstop|exact Hnext]|].
  destruct (ch input c =? 35); [case_goal; [by apply Hstop|exact Hnext]|].
  destruct (at_separator input c || _); [by apply Hstop|].
  destruct (is_EOL (ch input c)) eqn:Ee; [|exact Hnext].
  destruct pend as [l|]; [destruct Hce; congruence|].
  apply (safe_bind _ _ (skipped (position c + 1))).
  - apply skip_line_safe; [by eapply after_refl|done].
  - intros [n c'] [H' Hn]. simpl in *. unfold plain_end in *. case_goal.
    + apply IH; [advance|split; [advance|done]|advance].
    + apply Hstop. destruct Hce as [Hce Hl]. advance.
Qed.

Lemma readPlainScalar_safe ni w p c : after p c -> safe (readPlainScalar input ni w c) (fun x => after p x.2).
Proof.
  intros H. unfold readPlainScalar. case_goal; [done|]. case_goal; [done|].
  apply (safe_bind _ _ (fun x => after p x.2)).
  - apply plain_loop_safe; [done|unfold plain_end; advance|rewrite enough_fuel; advance].
  - by intros [r c'] H'.
Qed.

(** The loops over quoted text: what every branch uses. *)
Lemma capture_then {A} p c r a b j (f : jstr -> res A) (P : A -> Prop) :
  after p c -> (forall r', safe (f r') P) -> safe (res_bind (captureSegment input c r a b j) f) P.
Proof. intros H Hf. apply (safe_bind _ _ (fun _ => True)); [by apply (captureSegment_safe p)|auto]. Qed.

Lemma skip_line_then {A} ac p c (f : Z * cursor -> res A) (P : A -> Prop) :
  after p c -> is_EOL (ch input c) = true ->
  (forall n c', after p c' -> position c < position c' -> is_EOL (ch input c') = false -> safe (f (n, c')) P) ->
  safe (res_bind (skipSeparationSpace input ac c) f) P.
Proof.
  intros H He Hf. eapply safe_bind; [apply (skip_line_safe ac (position c)); [by eapply after_refl|done]|].
  intros [n c'] [H' Hn]. apply Hf; [advance|advance|done].
Qed.

Lemma skip_then {A} ac p c (f : Z * cursor -> res A) (P : A -> Prop) :
  after p c -> (forall n c', after p c' -> position c <= position c' -> is_EOL (ch input c') = false -> safe (f (n, c')) P) ->
  safe (res_bind (skipSeparationSpace input ac c) f) P.
Proof.
  intros H Hf. eapply safe_bind; [apply (skip_safe ac (position c)); by eapply after_refl|].
  intros [n c'] [H' Hn]. apply Hf; [advance|advance|done].
Qed.

Lemma single_loop_safe fuel ni r cs ce p c :
  after p c -> L - position c < Z.of_nat fuel -> safe (single_loop input fuel ni r cs ce c) (fun x => after p x.2).
Proof.
  revert r cs ce c. induction fuel as [|fuel IH]; intros r cs ce c H Hf; [unfold after, in_line in H; lia|].
  cbn [single_loop].
  destruct (ch input c =? 0) eqn:E0; [by apply (safe_throw c _ _ p)|]. breflect.
  pose proof (after_move p c H E0) as Hm.
  destruct (ch input c =? 39).
  - apply (capture_then p); [done|]. intros r'. destruct (ch input (move 1 c) =? 39) eqn:E1; breflect.
    + assert (ch input (move 1 c) <> 0) as E1' by congruence. apply (after_move _ _ Hm) in E1'.
      apply IH; advance.
    + advance.
  - destruct (is_EOL (ch input c)) eqn:Ee.
    + apply (capture_then p); [done|]. intros r'. apply (skip_line_then false p); [done..|].
      intros n c' H' Hlt _. apply IH; advance.
    + destruct (at_separator input c); [by apply (safe_throw c _ _ p)|]. apply IH; advance.
Qed.

Lemma readSingleQuotedScalar_safe ni p c : after p c -> safe (readSingleQuotedScalar input ni c) (fun x => after p x.2).
Proof.
  intros H. unfold readSingleQuotedScalar. case_goal; [|done]. breflect.
  pose proof (after_move p c H ltac:(congruence)) as Hm.
  apply (safe_bind _ _ (fun x => after p x.2)); [|by intros [r c'] ?].
  apply single_loop_safe; [advance|rewrite enough_fuel; advance].
Qed.

Lemma read_hex_safe n r p c :
  after p c -> ch input c <> 0 -> safe (read_hex input n r c) (fun x => after p x.2 /\ ch input x.2 <> 0).
Proof.
  revert r c. induction n as [|n IH]; intros r c H H0; [done|]. cbn [read_hex].
  pose proof (after_move p c H H0) as Hm.
  assert (after p (move 1 c)) as Hm' by advance.
  destruct (0 <=? fromHexCode (ch input (move 1 c))) eqn:E; [|by apply (safe_throw _ _ _ p)].
  apply IH; [done|]. intros Hz. rewrite Hz in E. by vm_compute in E.
Qed.

Lemma double_loop_safe fuel ni r cs ce p c :
  after p c -> L - position c < Z.of_nat fuel -> safe (double_loop input fuel ni r cs ce c) (fun x => after p x.2).
Proof.
  revert r cs ce c. induction fuel as [|fuel IH]; intros r cs ce c H Hf; [unfold after, in_line in H; lia|].
  cbn [double_loop].
  destruct (ch input c =? 0) eqn:E0; [by apply (safe_throw c _ _ p)|]. breflect.
  pose proof (after_move p c H E0) as Hm.
  destruct (ch input c =? 34); [apply (capture_then p); [done|]; intros r'; advance|].
  destruct (ch input c =? 92).
  - apply (capture_then p); [done|]. intros r'. set (c1 := move 1 c) in *.
    assert (after p c1) as H1 by advance.
    destruct (is_EOL (ch input c1)) eqn:Ee.
    { apply (skip_line_then false p); [done..|]. intros n c' H' Hlt _. apply IH; [done|]. subst c1. advance. }
    destruct ((ch input c1 <? 256) && _) eqn:Es.
    { breflect. assert (ch input c1 <> 0) as Hz by (intros Hz; by rewrite Hz in *).
      apply (after_move _ _ H1) in Hz. apply IH; [advance|]. subst c1. advance. }
    destruct (0 <? escapedHexLen (ch input c1)) eqn:Eh; [|by apply (safe_throw _ _ _ p)].
    assert (ch input c1 <> 0) as Hz by (intros Hz; rewrite Hz in Eh; by vm_compute in Eh).
    eapply safe_bind; [apply (read_hex_safe _ _ (position c1)); [by eapply after_refl|done]|].
    intros [code c2] [H2 Hz2]. cbn [fst snd] in *. apply (after_move _ _ H2) in Hz2. subst c1. apply IH; advance.
  - destruct (is_EOL (ch input c)) eqn:Ee.
    + apply (capture_then p); [done|]. intros r'. apply (skip_line_then false p); [done..|].
      intros n c' H' Hlt _. apply IH; advance.
    + destruct (at_separator input c); [by apply (safe_throw c _ _ p)|]. apply IH; advance.
Qed.

Lemma readDoubleQuotedScalar_safe ni p c : after p c -> safe (readDoubleQuotedScalar input ni c) (fun x => after p x.2).
Proof.
  intros H. unfold readDoubleQuotedScalar. case_goal; [|done]. breflect.
  pose proof (after_move p c H ltac:(congruence)) as Hm.
  apply (safe_bind _ _ (fun x => after p x.2)); [|by intros [r c'] ?].
  apply double_loop_safe; [advance|rewrite enough_fuel; advance].
Qed.

Lemma block_header_safe fuel ni ck di ti p c :
  after p c -> ch input c <> 0 -> L - position c < Z.of_nat fuel ->
  safe (block_header input fuel ni ck di ti c) (fun x => after p x.2).
Proof.
  revert ck di ti c. induction fuel as [|fuel IH]; intros ck di ti c H H0 Hf; [unfold after, in_line in H; lia|].
  cbn [block_header]. pose proof (after_move p c H H0) as Hm.
  set (c1 := move 1 c) in *. assert (after p c1) as H1 by advance.
  destruct ((ch input c1 =? 43) || (ch input c1 =? 45)) eqn:Ei.
  - case_goal; [|by apply (safe_throw _ _ _ p)].
    apply IH; [done| |subst c1; advance]. apply orb_true_iff in Ei as [Ei|Ei]; breflect; congruence.
  - destruct (0 <=? fromDecimalCode (ch input c1)) eqn:Ed; [|done].
    case_goal; [by apply (safe_throw _ _ _ p)|]. case_goal; [by apply (safe_throw _ _ _ p)|].
    apply IH; [done| |subst c1; advance]. intros Hz. rewrite Hz in Ed. by vm_compute in Ed.
Qed.

Lemma count_indent_bound limit q : 0 <= q <= L -> 0 <= count_indent input limit q /\ q + count_indent input limit q <= L.
Proof.
  intros Hq. unfold count_indent. pose proof (scan_bound not_space q eq_refl Hq). destruct limit; lia.
Qed.

Lemma block_loop_safe fuel fo ck b p c :
  after p c -> L - position c < Z.of_nat fuel -> safe (block_loop input fuel fo ck b c) (fun x => after p x.2).
Proof.
  revert b c. induction fuel as [|fuel IH]; intros b c H Hf; [unfold after, in_line in H; lia|]. cbn [block_loop].
  destruct (ch input c =? 0) eqn:E0; [done|].
  eapply safe_bind; [apply (readLineBreak_safe (position c)); by eapply after_refl|]. intros c1 H1.
  pose proof (count_indent_bound (if detectedIndent b then Some (textIndent b) else None) (position c1)
                ltac:(unfold at_line in *; lia)) as [Hn1 Hn2].
  set (n := count_indent _ _ _) in *. set (c2 := set_indent n (move n c1)).
  assert (after (position c + 1) c2) as H2 by advance.
  set (ti := if negb (detectedIndent b) && (textIndent b <? n) then n else textIndent b).
  destruct (is_EOL (ch input c2)); [apply IH; advance|].
  destruct (n <? ti); [simpl; apply (after_le (position c + 1)); [advance|done]|].
  destruct (block_breaks fo (ch input c2) b) as [br more].
  pose proof (after_scan line_end _ _ eq_refl H2) as H3.
  apply (capture_then (position c + 1)); [done|]. intros r'. apply IH; advance.
Qed.

Lemma readBlockScalar_safe ni p c : after p c -> safe (readBlockScalar input ni c) (fun x => after p x.2).
Proof.
  intros H. unfold readBlockScalar. destruct ((ch input c =? 124) || (ch input c =? 62)) eqn:E; [|done].
  assert (ch input c <> 0) as H0 by (apply orb_true_iff in E as [E|E]; breflect; congruence).
  eapply safe_bind.
  { apply (block_header_safe _ _ _ _ _ p); [done..|]. rewrite enough_fuel. unfold after, in_line in H. lia. }
  intros [[[ck di] ti] c1] H1. cbn [fst snd] in *.
  match goal with |- safe (res_bind (block_loop _ _ _ _ _ ?c') _) _ => assert (after p c') as H2 end.
  { destruct (is_WHITE_SPACE (ch input c1)); [|done].
    pose proof (after_scan not_white p c1 eq_refl H1) as Hs.
    destruct (ch input (scan_cursor input not_white c1) =? 35) eqn:E35; [|done]. breflect.
    apply after_scan; [done|]. pose proof (after_move _ _ Hs ltac:(congruence)). advance. }
  apply (safe_bind _ _ (fun x => after p x.2)); [|by intros [r c'] ?].
  apply block_loop_safe; [done|]. rewrite enough_fuel. unfold after, in_line in H2. lia.
Qed.

(** ** Scanning makes progress *)

Lemma scan_progress stop c :
  0 <= position c <= L -> stop (ch input c) = false -> position c < position (scan_cursor input stop c).
Proof.
  intros Hc Hs. unfold scan_cursor, goto, scan. simpl. unfold ch, char_at, zget in Hs.
  destruct (position c <? 0) eqn:E; breflect; [lia|].
  destruct (input !! Z.to_nat (position c)) as [x|] eqn:Ex.
  - rewrite (drop_S _ _ _ Ex). simpl in *. rewrite Hs. pose proof (count_until_bound stop (drop (S (Z.to_nat (position c))) input)). lia.
  - apply lookup_ge_None in Ex. pose proof zlen_input. unfold zlen in *. lia.
Qed.

Lemma count_until_stops stop s x : stop x = true -> x ∈ s -> exists y, s !! Z.to_nat (count_until stop s) = Some y /\ stop y = true.
Proof.
  intros Hx. induction s as [|y s IH]; intros Hin; [by apply not_elem_of_nil in Hin|]. simpl. destruct (stop y) eqn:E; [by exists y|].
  destruct IH as (z & Hz & Hs); [apply elem_of_cons in Hin as [->|]; [congruence|done]|]. exists z. split; [|done].
  pose proof (count_until_bound stop s). by replace (Z.to_nat (1 + count_until stop s)) with (S (Z.to_nat (count_until stop s))) by lia.
Qed.

(** The character where a scan stops satisfies its condition. *)
Lemma scan_stops stop c :
  0 <= position c <= L -> stop 0 = true -> stop (ch input (scan_cursor input stop c)) = true.
Proof.
  intros Hc Hs. destruct (count_until_stops stop (drop (Z.to_nat (position c)) input) 0 Hs) as (y & Hy & Hsy).
  { unfold input. rewrite drop_app_le by (unfold L, zlen in Hc; lia). apply elem_of_app. right. constructor. }
  pose proof (count_until_bound stop (drop (Z.to_nat (position c)) input)).
  unfold scan_cursor, goto, scan, ch, char_at, zget. simpl.
  destruct (_ <? 0) eqn:E; breflect; [lia|]. rewrite lookup_drop in Hy.
  replace (Z.to_nat _) with (Z.to_nat (position c) + Z.to_nat (count_until stop (drop (Z.to_nat (position c)) input)))%nat by lia.
  by rewrite Hy.
Qed.

(** Only a line break is at the end of the text. *)
Lemma last_char p : 0 <= p -> p + 1 = L -> is_EOL (char_at input p) = true.
Proof.
  intros Hp HL. destruct Htext as [->|He]; [unfold L in HL; simpl in HL; change (zlen []) with 0 in HL; lia|].
  unfold char_at, zget. destruct (p <? 0) eqn:E; breflect; [lia|].
  unfold input. rewrite lookup_app_l by (unfold L, zlen in HL; lia).
  destruct (exists_last (l := text)) as (t & x & Ht); [intros ->; unfold L in HL; change (zlen []) with 0 in HL; lia|].
  rewrite Ht in He |- *. rewrite last_last in He. unfold L in HL. rewrite Ht, zlen_app in HL. unfold zlen in HL. simpl in HL.
  replace (Z.to_nat p) with (length t) by lia. by rewrite list_lookup_middle.
Qed.

(** ** The loader *)

(** An error that says no position, and is not of the model. *)
Definition gentle {A} (m : res A) : Prop :=
  match m with Err OutOfFuel | Err (YamlException _ (Some _)) => False | _ => True end.

Lemma gentle_safe {A} (m : res A) : gentle m -> safe m (fun _ => True).
Proof. destruct m as [a|[]]; simpl; try done. by destruct at_. Qed.

Definition gentle_type (t : ytype) : Prop := forall v, gentle (construct t v).

Context (json : bool) (implicitTypes : list ytype) (typeMap : type_map).
Context (Himplicit : Forall gentle_type implicitTypes).
Context (Htypes : forall k tag t,
  obj_lookup tag (match k with Some k => map_kind typeMap k | None => fallback typeMap end) = Some t -> gentle_type t).

Lemma to_string_gentle v : gentle (to_string v).
Proof.
  revert v. fix IH 1. intros [| | | | |l| | | |]; try exact I. simpl.
  assert (gentle (res_map (fun x => match x with VUndef | VNull => Ok [] | _ => to_string x end) l)) as Hl.
  { induction l as [|x l IHl]; simpl; [done|].
    assert (gentle (match x with VUndef | VNull => Ok [] | _ => to_string x end)) as Hx by (pose proof (IH x); by destruct x).
    destruct (match x with VUndef | VNull => Ok [] | _ => to_string x end) as [y|[]]; try done. simpl in *.
    destruct (res_map _ l) as [ys|[]]; done. }
  by destruct (res_map _ l) as [ys|[]].
Qed.

(** The position of a state, through the updates of its other fields. *)
Lemma cur_set_cur c s : cur (set_cur c s) = c. Proof. by destruct s. Qed.
Lemma cur_set_tag t s : cur (set_tag t s) = cur s. Proof. by destruct s. Qed.
Lemma cur_set_anchor a s : cur (set_anchor a s) = cur s. Proof. by destruct s. Qed.
Lemma cur_set_node k v s : cur (set_node k v s) = cur s. Proof. by destruct s. Qed.
Lemma cur_set_result v s : cur (set_result v s) = cur s. Proof. by destruct s. Qed.
Lemma cur_set_version v s : cur (set_version v s) = cur s. Proof. by destruct s. Qed.
Lemma cur_set_tagMap m s : cur (set_tagMap m s) = cur s. Proof. by destruct s. Qed.
Lemma cur_set_anchorMap m s : cur (set_anchorMap m s) = cur s. Proof. by destruct s. Qed.
Lemma cur_push_document s : cur (push_document s) = cur s. Proof. by destruct s. Qed.
Lemma cur_close_node a n v s : cur (close_node a n v s) = cur s.
Proof. unfold close_node. repeat case_goal; by rewrite ?cur_set_anchorMap. Qed.

Create HintDb cur.
Hint Rewrite cur_set_cur cur_set_tag cur_set_anchor cur_set_node cur_set_result cur_set_version cur_set_tagMap
  cur_set_anchorMap cur_push_document cur_close_node : cur.
Ltac cur := cbn [fst snd] in *; autorewrite with cur in *.

Lemma name_node_then {A} a x s (f : lstate -> res A) (P : A -> Prop) :
  (forall s', cur s' = cur s -> safe (f s') P) -> safe (res_bind (name_node a x s) f) P.
Proof.
  intros Hf. unfold name_node, set_named. destruct a as [a|]; [|by apply Hf].
  destruct (streq a _); [done|]. apply Hf. by cur.
Qed.

Lemma skip_state_then {A} ac p s (f : Z * lstate -> res A) (P : A -> Prop) :
  after p (cur s) ->
  (forall n s', after p (cur s') -> position (cur s) <= position (cur s') -> safe (f (n, s')) P) ->
  safe (res_bind (skip_state input ac s) f) P.
Proof.
  intros H Hf. unfold skip_state.
  destruct (skipSeparationSpace input ac (cur s)) as [[n c]|e] eqn:E.
  - pose proof (skip_then ac (position (cur s)) (cur s) (fun x => Ok x) (fun x => after (position (cur s)) x.2) (after_refl _ _ H)) as Hs.
    rewrite E in Hs. simpl in Hs |- *. specialize (Hs (fun _ _ H _ _ => H)). apply Hf; cur; advance.
  - pose proof (skip_safe ac p (cur s) H) as Hs. by rewrite E in Hs.
Qed.

Lemma skip_state_safe ac p s : after p (cur s) -> safe (skip_state input ac s) (fun x => after p (cur x.2)).
Proof.
  intros H. unfold skip_state. eapply safe_bind; [by apply (skip_safe ac p)|]. intros [n c] [Hc _]. unfold safe. by cur.
Qed.

(** ** Properties of nodes *)

(** A reader found something after the position, or nothing. *)
Definition reads (p : Z) (x : bool * lstate) : Prop := after (if x.1 then p + 1 else p) (cur x.2).

Lemma tag_loop_safe fuel nm h st p c :
  after p c -> L - position c < Z.of_nat fuel -> safe (tag_loop input fuel nm h st c) (fun x => after p x.2).
Proof.
  revert nm h st c. induction fuel as [|fuel IH]; intros nm h st c H Hf; [unfold after in H; lia|]. cbn [tag_loop].
  destruct (name_end (ch input c)) eqn:En; [done|].
  assert (ch input c <> 0) as H0 by (intros Hz; by rewrite Hz in En).
  pose proof (after_move p c H H0) as Hm.
  destruct (ch input c =? 33); [|apply IH; advance].
  destruct nm; [by apply (safe_throw _ _ _ p)|].
  case_goal; [apply IH; advance|by apply (safe_throw _ _ _ p)].
Qed.

Lemma read_tag_name_safe p c :
  after p c -> ch input c = 33 -> safe (read_tag_name input L c) (fun x => after (p + 1) x.2).
Proof.
  intros H Hc. pose proof (after_move p c H ltac:(congruence)) as H1. unfold read_tag_name.
  set (c1 := move 1 c) in *.
  destruct (ch input c1 =? 60) eqn:E60; breflect.
  - pose proof (after_move _ _ H1 ltac:(congruence)) as H2. set (c2 := move 1 c1) in *.
    assert (position c2 < L) as H2L.
    { destruct (decide (position c1 + 1 = L)) as [He|]; [|subst c2; advance].
      apply last_char in He; [|advance]. unfold ch in E60. by rewrite E60 in He. }
    assert (after (p + 1) (move 1 c2)) as H3 by advance.
    apply (after_scan (fun x => (x =? 0) || (x =? 62)) (p + 1)) in H3; [|done].
    set (c3 := scan_cursor _ _ _) in *.
    destruct (position c3 <? L) eqn:E; breflect; [advance|by apply (safe_throw _ _ _ (p + 1))].
  - assert (exists nm h c2, (if ch input c1 =? 33 then (true, u "!!", move 1 c1) else (false, u "!", c1)) = (nm, h, c2)
              /\ after (p + 1) c2) as (nm & h & c2 & -> & H2).
    { destruct (ch input c1 =? 33) eqn:E33; breflect; [|by eexists _, _, _].
      pose proof (after_move _ _ H1 ltac:(congruence)). eexists _, _, _. split; [done|]. advance. }
    apply (safe_bind _ _ (fun x => after (p + 1) x.2)).
    + apply tag_loop_safe; [done|]. rewrite enough_fuel. advance.
    + intros [[h' st] c3] H3. cur. case_goal; [by apply (safe_throw _ _ _ (p + 1))|done].
Qed.

Lemma readTagProperty_safe p s : after p (cur s) -> safe (readTagProperty input L s) (reads p).
Proof.
  intros H. unfold readTagProperty. destruct (ch input (cur s) =? 33) eqn:E; [|done]. breflect. simpl negb. cbv iota.
  case_goal; [by apply (safe_throw _ _ _ p)|].
  eapply safe_bind; [by apply read_tag_name_safe|]. intros [[h name] c] Hc. cur.
  repeat case_goal; try (by apply (safe_throw _ _ _ (p + 1))); unfold safe, reads; by cur.
Qed.

(** The name of an anchor or of an alias. *)
Lemma name_scan p c : after p c -> ch input c <> 0 -> after (p + 1) (scan_cursor input anchor_end (move 1 c)).
Proof. intros H Hc. apply after_scan; [done|]. by apply after_move. Qed.

Lemma readAnchorProperty_safe p s : after p (cur s) -> safe (readAnchorProperty input s) (reads p).
Proof.
  intros H. unfold readAnchorProperty. destruct (ch input (cur s) =? 38) eqn:E; [|done]. breflect. simpl negb. cbv iota.
  pose proof (name_scan p (cur s) H ltac:(congruence)) as Hs.
  case_goal; [by apply (safe_throw _ _ _ p)|].
  case_goal; [by apply (safe_throw _ _ _ (p + 1))|]. unfold safe, reads. by cur.
Qed.

Lemma readAlias_safe p s : after p (cur s) -> safe (readAlias input s) (reads p).
Proof.
  intros H. unfold readAlias. destruct (ch input (cur s) =? 42) eqn:E; [|done]. breflect. simpl negb. cbv iota.
  pose proof (name_scan p (cur s) H ltac:(congruence)) as Hs.
  case_goal; [by apply (safe_throw _ _ _ (p + 1))|]. case_goal; [done|].
  case_goal; [|by apply (safe_throw _ _ _ (p + 1))]. destruct a as [v|]; [|done].
  apply (skip_state_then true (p + 1)); [by cur|]. intros n s' H' _. done.
Qed.

(** ** Mappings *)

Lemma put_key_safe k v o : safe (put_key k v o) (fun _ => True).
Proof. unfold put_key. by case_goal. Qed.

Lemma merge_keys_safe o q : safe (merge_keys o q) (fun _ => True).
Proof.
  revert q. induction o as [|[k v] o IH]; intros q; [done|]. simpl. case_goal; [apply IH|].
  eapply safe_bind; [apply put_key_safe|]. intros o' _. apply IH.
Qed.

Lemma mergeMappings_safe p c v q : after p c -> safe (mergeMappings c v q) (fun _ => True).
Proof. intros H. unfold mergeMappings. case_goal; [apply merge_keys_safe|by apply (safe_throw _ _ _ p)]. Qed.

Lemma merge_all_safe p c l q : after p c -> safe (merge_all c l q) (fun _ => True).
Proof.
  intros H. revert q. induction l as [|v l IH]; intros q; [done|]. simpl.
  eapply safe_bind; [by apply (mergeMappings_safe p)|]. intros q' _. apply IH.
Qed.

Lemma storeMappingPair_safe p c q kt k v sl sp :
  after p c -> 0 <= sp <= L -> safe (storeMappingPair json c q kt k v sl sp) (fun _ => True).
Proof.
  intros H Hsp. unfold storeMappingPair. eapply safe_bind; [apply gentle_safe, to_string_gentle|].
  intros key _. case_goal.
  - case_goal; try (by apply (mergeMappings_safe p)). by apply (merge_all_safe p).
  - case_goal; [simpl; destruct (sp =? 0); advance|].
    eapply safe_bind; [apply put_key_safe|done].
Qed.

(** ** Collections *)

(** Flow collections nest in block collections at the same position, so a
    context of the block style counts for one more than one of the flow style. *)
Definition rank (c : context) : Z := match c with CONTEXT_BLOCK_IN | CONTEXT_BLOCK_OUT => 1 | _ => 0 end.

Section Nodes.
Context (compose : Z -> context -> bool -> bool -> lstate -> res (bool * lstate)) (n : Z).
Context (Hcompose : forall pi ctx seek compact q s,
  after q (cur s) -> 2 * (L - position (cur s)) + rank ctx < n ->
  safe (compose pi ctx seek compact s) (fun x => after q (cur x.2))).

(** The recursive call at a position where the fuel allows it. *)
Lemma compose_then {A} p pi ctx seek compact s (f : bool * lstate -> res A) (P : A -> Prop) :
  after p (cur s) -> 2 * (L - position (cur s)) + rank ctx < n ->
  (forall b s', after p (cur s') -> position (cur s) <= position (cur s') -> safe (f (b, s')) P) ->
  safe (res_bind (compose pi ctx seek compact s) f) P.
Proof.
  intros H Hn Hf. eapply safe_bind; [apply (Hcompose _ _ _ _ (position (cur s))); [by eapply after_refl|done]|].
  intros [b s'] H'. cur. apply Hf; advance.
Qed.

Lemma store_then {A} p c q kt k v sl sp (f : pairs_state -> res A) (P : A -> Prop) :
  after p c -> 0 <= sp <= L -> (forall q', safe (f q') P) -> safe (res_bind (storeMappingPair json c q kt k v sl sp) f) P.
Proof. intros H Hsp Hf. eapply safe_bind; [by apply (storeMappingPair_safe p)|auto]. Qed.

Lemma rank_bound c : 0 <= rank c <= 1.
Proof. destruct c; simpl; lia. Qed.

(** A collection inside a node that starts at [p]: what it reads next is
    behind [p]. *)
Lemma inner_bound p s ctx : 2 * (L - p) <= n -> after (p + 1) (cur s) -> 2 * (L - position (cur s)) + rank ctx < n.
Proof. intros Hn H. pose proof (rank_bound ctx). unfold after in H. lia. Qed.

(** The value of a pair in a flow collection. *)
Lemma flow_pair_safe p ni line_ ex s :
  2 * (L - p) <= n -> after (p + 1) (cur s) ->
  safe (if (ex || (line (cur s) =? line_)) && (ch input (cur s) =? 58) then
          '(_, s) <-? skip_state input true (set_cur (move 1 (cur s)) s);
          '(_, s) <-? compose ni CONTEXT_FLOW_IN false true s;
          Ok (true, st_result s, s)
        else Ok (ex, VNull, s))
       (fun x => after (p + 1) (cur x.2) /\ position (cur s) <= position (cur x.2)).
Proof.
  intros Hn H. destruct (_ && (ch input (cur s) =? 58)) eqn:E; [|split; [done|simpl; lia]].
  apply andb_true_iff in E as [_ E]. breflect. pose proof (after_move _ _ H ltac:(congruence)) as Hm.
  apply (skip_state_then true (p + 1)); [cur; advance|]. intros k s1 H1 Hle. cur.
  apply (compose_then (p + 1)); [done|by apply (inner_bound p)|]. intros b s2 H2 Hle2. simpl. split; [done|]. advance.
Qed.

Lemma flow_loop_safe fuel ni t mp rn tg an st l q p s :
  2 * (L - p) <= n -> after (p + 1) (cur s) -> t <> 0 ->
  L - position (cur s) + (if rn : bool then 1 else 0) < Z.of_nat fuel ->
  safe (flow_loop input json compose fuel ni t mp rn tg an st l q s) (fun s' => after (p + 1) (cur s')).
Proof.
  intros Hn. revert rn l q s. induction fuel as [|fuel IH]; intros rn l q s H Ht Hf.
  { unfold after in H. destruct rn; lia. }
  cbn [flow_loop]. destruct (ch input (cur s) =? 0) eqn:E0; [by apply (safe_throw _ _ _ (p + 1))|].
  apply (skip_state_then true (p + 1)); [done|]. intros k s1 H1 Hle1. cbv zeta.
  destruct (ch input (cur s1) =? t) eqn:Et; breflect.
  { pose proof (after_move _ _ H1 ltac:(congruence)). unfold safe. cur. advance. }
  destruct rn; [|by apply (safe_throw _ _ _ (p + 1))]. simpl negb. cbv iota.
  set (ex := (ch input (cur s1) =? 63) && _).
  apply (safe_bind _ _ (fun s2 => after (p + 1) (cur s2) /\ position (cur s1) <= position (cur s2))).
  { destruct ex eqn:Ee; [|split; [done|lia]]. apply andb_true_iff in Ee as [Ee _]. breflect.
    pose proof (after_move _ _ H1 ltac:(congruence)) as Hm.
    apply (skip_state_then true (p + 1)); [cur; advance|]. intros k2 s2 H2 Hle2. simpl. cur. split; [done|]. advance. }
  intros s2 [H2 Hle2].
  apply (compose_then (p + 1)); [done|by apply (inner_bound p)|]. intros b s3 H3 Hle3.
  apply (skip_state_then true (p + 1)); [done|]. intros k4 s4 H4 Hle4.
  eapply safe_bind; [by apply flow_pair_safe|]. intros [[isPair v] s5] [H5 Hle5]. cur.
  apply (safe_bind _ _ (fun _ => True)).
  { destruct mp; [|destruct isPair; [|done]]; (apply (store_then (p + 1)); [done|unfold after in *; lia|done]). }
  intros [l' q'] _.
  apply (skip_state_then true (p + 1)); [done|]. intros k6 s6 H6 Hle6.
  destruct (ch input (cur s6) =? 44) eqn:E44; breflect.
  - pose proof (after_move _ _ H6 ltac:(congruence)) as Hm.
    apply IH; [cur; advance|done|cur; advance].
  - apply IH; [done|done|lia].
Qed.

Lemma readFlowCollection_safe ni p s :
  2 * (L - p) <= n -> after p (cur s) -> safe (readFlowCollection input json compose ni s) (reads p).
Proof.
  intros Hn H. unfold readFlowCollection. destruct ((ch input (cur s) =? 91) || (ch input (cur s) =? 123)) eqn:E; [|done].
  assert (ch input (cur s) <> 0) as H0 by (apply orb_true_iff in E as [E|E]; breflect; congruence).
  apply name_node_then. intros s1 Hs1. rewrite Hs1. pose proof (after_move _ _ H H0) as Hm.
  apply (safe_bind _ _ (fun s' => after (p + 1) (cur s'))); [|done].
  apply flow_loop_safe; [done|by cur|by destruct (_ =? 91)|]. rewrite enough_fuel. cur. advance.
Qed.

Lemma sequence_loop_safe fuel ni det l p s :
  2 * (L - p) <= n -> after (if det : bool then p + 1 else p) (cur s) -> 0 <= p -> L - position (cur s) < Z.of_nat fuel ->
  safe (sequence_loop input compose fuel ni det l s) (fun x => reads p (x.1.1, x.2)).
Proof.
  intros Hn. revert det l s. induction fuel as [|fuel IH]; intros det l s H Hp Hf; [unfold after in H; lia|].
  cbn [sequence_loop]. destruct (negb (ch input (cur s) =? 45) || _) eqn:E; [done|].
  apply orb_false_iff in E as [E _]. breflect.
  assert (after (p + 1) (move 1 (cur s))) as Hm.
  { pose proof (after_move _ _ H ltac:(congruence)). destruct det; advance. }
  apply (skip_state_then true (p + 1)); [by cur|]. intros k1 s1 H1 Hle1. cur. cbv zeta.
  destruct (negb (k1 =? 0) && _); [apply IH; [done|done|advance]|].
  apply (compose_then (p + 1)); [done|by apply (inner_bound p)|]. intros b s2 H2 Hle2.
  apply (skip_state_then true (p + 1)); [done|]. intros k3 s3 H3 Hle3.
  destruct (_ && negb (ch input (cur s3) =? 0)); [by apply (safe_throw _ _ _ (p + 1))|].
  destruct (_ <? ni); [done|]. apply IH; [done|done|advance].
Qed.

Lemma readBlockSequence_safe ni p s :
  2 * (L - p) <= n -> after p (cur s) -> safe (readBlockSequence input compose ni s) (reads p).
Proof.
  intros Hn H. unfold readBlockSequence. apply name_node_then. intros s1 Hs1.
  eapply safe_bind.
  { apply (sequence_loop_safe _ _ _ _ p); [done|by rewrite Hs1|unfold after in H; lia|].
    rewrite enough_fuel, Hs1. unfold after in H. lia. }
  intros [[det l] s2] H2. unfold reads in H2. cur. destruct det; unfold safe, reads; by cur.
Qed.

Lemma implicit_separator_safe p det line_ s : after p (cur s) -> safe (implicit_separator input det line_ s) (reads p).
Proof.
  intros H. unfold implicit_separator. destruct (_ =? line_); [|case_goal; [by apply (safe_throw _ _ _ p)|done]].
  pose proof (after_scan not_white p (cur s) eq_refl H) as Hs. cbv zeta.
  destruct (ch input _ =? 58) eqn:E; breflect.
  - pose proof (after_move _ _ Hs ltac:(congruence)) as Hm. case_goal; [unfold safe, reads; by cur|].
    by apply (safe_throw _ _ _ (p + 1)).
  - case_goal; [by apply (safe_throw _ _ _ p)|]. unfold safe, reads. by cur.
Qed.

Lemma flush_key_safe p ek k q s : after p (cur s) -> safe (flush_key json ek k q s) (fun _ => True).
Proof.
  intros H. unfold flush_key. case_goal; [|done].
  apply (store_then p); [done|unfold after in H; lia|done].
Qed.

Lemma read_entry_safe p ni line_ pos_ ek compact k q s :
  2 * (L - p) <= n -> after (p + 1) (cur s) -> 0 <= pos_ <= L ->
  safe (read_entry input json compose ni line_ pos_ ek compact k q s)
    (fun x => after (p + 1) (cur x.2) /\ position (cur s) <= position (cur x.2)).
Proof.
  intros Hn H Hpos. unfold read_entry. case_goal; [|split; [done|simpl; lia]].
  apply (compose_then (p + 1)); [done|by apply (inner_bound p)|]. intros b s1 H1 Hle1. cbv zeta.
  apply (safe_bind _ _ (fun _ => True)).
  { case_goal; [done|]. by apply (store_then (p + 1)). }
  intros [k' q'] _. apply (skip_state_then true (p + 1)); [done|]. intros m s2 H2 Hle2. split; [done|simpl; lia].
Qed.

Definition mapped (p : Z) (x : mapping_end * bool * bool * key_state * pairs_state * lstate) : Prop :=
  let '(e, det, _, _, _, s) := x in after (if det : bool then p + 1 else p) (cur s).

Lemma mapping_loop_safe fuel ni fi det ek k q p s :
  2 * (L - p) + 1 <= n -> after (if det : bool then p + 1 else p) (cur s) -> 0 <= p -> L - position (cur s) < Z.of_nat fuel ->
  safe (mapping_loop input json compose fuel ni fi det ek k q s) (mapped p).
Proof.
  intros Hn. revert det ek k q s. induction fuel as [|fuel IH]; intros det ek k q s H Hp Hf; [unfold after in H; lia|].
  cbn [mapping_loop]. destruct (ch input (cur s) =? 0) eqn:E0; [done|]. breflect.
  assert (after p (cur s)) as H0 by (destruct det; advance).
  assert (forall ek compact k q s', after (p + 1) (cur s') -> position (cur s) < position (cur s') ->
    safe ('(k, q, s1) <-? read_entry input json compose ni (line (cur s)) (position (cur s)) ek compact k q s';
          if (ni <? lineIndent (cur s1)) && negb (ch input (cur s1) =? 0)
          then throwError (cur s1) (u "bad indentation of a mapping entry")
          else if lineIndent (cur s1) <? ni then Ok (Epilogue, true, ek, k, q, s1)
          else mapping_loop input json compose fuel ni fi true ek k q s1) (mapped p)) as Hcont.
  { intros ek' compact k' q' s' H' Hlt.
    eapply safe_bind; [apply (read_entry_safe p); [lia|done|unfold after in H; lia]|].
    intros [[k1 q1] s1] [H1 Hle1]. cur.
    destruct ((ni <? _) && _); [by apply (safe_throw _ _ _ (p + 1))|].
    destruct (_ <? ni); [done|]. apply IH; [done|done|lia]. }
  clear IH.
  pose proof (after_move _ _ H0 E0) as Hm.
  destruct (((_ =? 63) || _) && _).
  - destruct (_ =? 63).
    + eapply safe_bind; [by apply (flush_key_safe p)|]. intros [q' k'] _. apply Hcont; cur; advance.
    + destruct ek; [apply Hcont; cur; advance|by apply (safe_throw _ _ _ p)].
  - apply (compose_then p); [done|simpl; unfold after in H0; lia|]. intros b s1 H1 Hle1.
    destruct b; [|unfold safe, mapped; destruct det; advance].
    eapply safe_bind; [apply (implicit_separator_safe (position (cur s1))); by eapply after_refl|].
    intros [sep s2] H2. unfold reads in H2. cbn [fst snd] in H2. destruct sep; [|unfold safe, mapped; advance].
    eapply safe_bind; [apply (flush_key_safe p); advance|]. intros [q' k'] _. cbn [fst snd] in *. apply Hcont; advance.
Qed.

Lemma readBlockMapping_safe ni fi p s :
  2 * (L - p) + 1 <= n -> after p (cur s) -> safe (readBlockMapping input json compose ni fi s) (fun x => after p (cur x.2)).
Proof.
  intros Hn H. unfold readBlockMapping. apply name_node_then. intros s1 Hs1.
  eapply safe_bind.
  { apply (mapping_loop_safe _ _ _ _ _ _ _ p); [done|by rewrite Hs1|unfold after in H; lia|].
    rewrite enough_fuel, Hs1. unfold after in H. lia. }
  intros [[[[[e det] ek] k] q] s2] H2. assert (after p (cur s2)) as H2' by (unfold mapped in H2; destruct det; advance).
  destruct e; [|unfold safe; by cur].
  eapply safe_bind; [by apply (flush_key_safe p)|]. intros [q' k'] _. case_goal; unfold safe; by cur.
Qed.

(** ** Nodes *)

Lemma reads_after p c (x : bool * lstate) : after p c -> reads p x -> after p (cur x.2).
Proof. unfold reads. destruct x.1; advance. Qed.

(** Block collections are not allowed where block styles are not. *)
Lemma properties_loop_safe fuel pi bs nl bc ist p s :
  after p (cur s) -> L - position (cur s) < Z.of_nat fuel -> (bc = true -> bs = true) ->
  safe (properties_loop input L fuel pi bs nl bc ist s) (fun x => after p (cur x.2) /\ (x.1.1.2 = true -> bs = true)).
Proof.
  revert nl bc ist s. induction fuel as [|fuel IH]; intros nl bc ist s H Hf Hbc; [unfold after in H; lia|]. cbn [properties_loop].
  eapply safe_bind; [apply (readTagProperty_safe (position (cur s))); by eapply after_refl|].
  intros [t s1] H1. eapply safe_bind.
  - instantiate (1 := reads (position (cur s))). destruct t; [done|].
    apply readAnchorProperty_safe. exact H1.
  - intros [found s2] H2. destruct found; [|split; [unfold reads in H2; advance|done]].
    unfold reads in H2. cbn [fst snd] in H2. apply (skip_state_then true (position (cur s) + 1)); [done|].
    intros k s3 H3 Hle. case_goal; apply IH; try done; advance.
Qed.

Lemma scalar_reader_safe r p s :
  safe (r (cur s)) (fun x => after p x.2) -> safe (scalar_reader r s) (fun x => after p (cur x.2)).
Proof.
  intros H. unfold scalar_reader. eapply safe_bind; [exact H|]. intros [o c] Hc. case_goal; unfold safe; by cur.
Qed.

Lemma or_else_safe a b p s :
  safe (a s) (fun x => after p (cur x.2)) -> (forall s', after p (cur s') -> safe (b s') (fun x => after p (cur x.2))) ->
  safe (or_else a b s) (fun x => after p (cur x.2)).
Proof. intros Ha Hb. eapply safe_bind; [exact Ha|]. intros [[] s'] H'; [done|by apply Hb]. Qed.

Lemma alias_reader_safe p s : after p (cur s) -> safe (alias_reader input s) (fun x => after p (cur x.2)).
Proof.
  intros H. unfold alias_reader. eapply safe_bind; [by apply (readAlias_safe p)|]. intros [f s1] H1%(reads_after _ _ _ H).
  case_goal; [by apply (safe_throw _ _ _ p)|done].
Qed.

Lemma plain_reader_safe fi w p s : after p (cur s) -> safe (plain_reader input fi w s) (fun x => after p (cur x.2)).
Proof.
  intros H. unfold plain_reader. eapply safe_bind; [apply (scalar_reader_safe _ p); by apply readPlainScalar_safe|].
  intros [f s1] H1. unfold safe. cur. destruct f; [|done]. destruct (st_tag s1); by cur.
Qed.

Lemma never_safe p s : after p (cur s) -> safe (never s) (fun x => after p (cur x.2)).
Proof. done. Qed.

Lemma read_content_safe ctx bs bc fi bi p s :
  2 * (L - p) + (if bc : bool then 1 else 0) <= n -> after p (cur s) ->
  safe (read_content input json compose ctx bs bc fi bi s) (fun x => after p (cur x.2)).
Proof.
  intros Hn H. unfold read_content. eapply safe_bind.
  - apply or_else_safe with (p := p).
    + destruct bc; [|by apply never_safe]. apply or_else_safe.
      * eapply safe_weaken; [apply (readBlockSequence_safe _ p); [lia|done]|intros x; by eapply reads_after].
      * intros s' H'. by apply readBlockMapping_safe.
    + intros s' H'. eapply safe_weaken; [apply (readFlowCollection_safe _ p); [destruct bc; lia|done]|intros x; by eapply reads_after].
  - intros [f s1] H1. cbn [fst snd] in H1. destruct f; [done|]. eapply safe_bind.
    + apply or_else_safe with (p := p).
      { destruct bs; [|by apply never_safe]. apply scalar_reader_safe. by apply readBlockScalar_safe. }
      intros s2 H2. apply or_else_safe; [apply scalar_reader_safe; by apply readSingleQuotedScalar_safe|].
      intros s3 H3. apply or_else_safe; [apply scalar_reader_safe; by apply readDoubleQuotedScalar_safe|].
      intros s4 H4. apply or_else_safe; [by apply alias_reader_safe|].
      intros s5 H5. by apply plain_reader_safe.
    + intros [f s2] H2. apply name_node_then. intros s3 Hs3. unfold safe. cur. by rewrite Hs3.
Qed.

Lemma construct_node_safe t p s : gentle_type t -> after p (cur s) -> safe (construct_node t s) (fun s' => after p (cur s')).
Proof.
  intros Ht H. unfold construct_node. eapply safe_bind; [apply gentle_safe, Ht|]. intros v _.
  rewrite <- (cur_set_result v s) in H. generalize dependent (set_result v s). intros s1 H1.
  unfold name_node, set_named. repeat case_goal; unfold safe; by cur.
Qed.

Lemma resolve_tag_safe p s : after p (cur s) -> safe (resolve_tag implicitTypes typeMap s) (fun s' => after p (cur s')).
Proof.
  intros H. unfold resolve_tag. destruct (st_tag s) as [t|]; [|done].
  destruct (streq t _); [done|]. destruct (streq t _).
  - destruct (find _ _) as [ty|] eqn:E; [|done]. apply find_some in E as [Hin _].
    eapply safe_bind; [apply (construct_node_safe _ p); [|done]|].
    + by apply (proj1 (List.Forall_forall _ _) Himplicit).
    + intros s1 H1. unfold safe. by cur.
  - destruct (obj_lookup _ _) as [ty|] eqn:E; [|by apply (safe_throw _ _ _ p)]. apply Htypes in E.
    case_goal; [by apply (safe_throw _ _ _ p)|]. case_goal; [by apply construct_node_safe|by apply (safe_throw _ _ _ p)].
Qed.

(** [composeNode], when its recursive calls have the fuel they need. *)
Lemma compose_node_safe pi ctx seek compact p s :
  after p (cur s) -> 2 * (L - position (cur s)) + rank ctx <= n ->
  safe (compose_node input L json implicitTypes typeMap compose pi ctx seek compact s) (fun x => after p (cur x.2)).
Proof.
  intros H Hn. unfold compose_node. set (bs := _ || _).
  assert (2 * (L - position (cur s)) + (if bs then 1 else 0) <= n) as Hn' by (destruct ctx; simpl in *; lia).
  clearbody bs. clear Hn. set (s0 := set_node _ _ _).
  assert (cur s0 = cur s) as Hs0 by (subst s0; by cur). clearbody s0. rewrite <- Hs0 in *. clear s Hs0.
  apply (safe_bind _ _ (fun x => after (position (cur s0)) (cur x.2))).
  { destruct seek; [|by eapply after_refl].
    apply skip_state_safe. by eapply after_refl. }
  intros [k s1] H1. cbn [snd] in H1. set (nl := negb _). set (ist := if nl then _ else _).
  apply (safe_bind _ _ (fun x => after (position (cur s0)) (cur x.2) /\ (x.1.1.2 = true -> bs = true))).
  { destruct (ist =? 1); [|done]. apply properties_loop_safe; [done| |done]. rewrite enough_fuel. advance. }
  intros [[[nl' bc] ist'] s2] [H2 Hbc]. cbn [fst snd] in *.
  set (bc' := bc && _). set (fi := if bs then _ else _).
  apply (safe_bind _ _ (fun x => after (position (cur s0)) (cur x.2))).
  { case_goal.
    - apply read_content_safe; [|done]. subst bc'. destruct bc, bs; simpl in *; try lia; try (by specialize (Hbc eq_refl)).
      destruct (nl' || compact); lia.
    - case_goal; [|done].
      eapply safe_weaken; [apply (readBlockSequence_safe _ (position (cur s0))); [destruct bs; lia|done]|intros x; by eapply reads_after]. }
  intros [f s3] H3. eapply safe_bind; [by apply (resolve_tag_safe (position (cur s0)))|].
  intros s4 H4. unfold safe. cbn [fst snd] in *. advance.
Qed.
End Nodes.

(** The fuel of [composeNode] is twice the length of the text left. *)
Lemma composeNode_safe fuel pi ctx seek compact p s :
  after p (cur s) -> 2 * (L - position (cur s)) + rank ctx < Z.of_nat fuel ->
  safe (composeNode fuel input L json implicitTypes typeMap pi ctx seek compact s) (fun x => after p (cur x.2)).
Proof.
  revert pi ctx seek compact p s. induction fuel as [|fuel IH]; intros pi ctx seek compact p s H Hf.
  { pose proof (rank_bound ctx). unfold after in H. lia. }
  cbn [composeNode]. apply (compose_node_safe _ (Z.of_nat fuel)); [|done|lia].
  intros pi' ctx' sk cp q s' H' Hn. by apply IH.
Qed.

(** ** Documents *)

Lemma handleYamlDirective_safe args p s :
  after p (cur s) -> safe (handleYamlDirective args s) (fun s' => after p (cur s')).
Proof.
  intros H. unfold handleYamlDirective. repeat case_goal; try (by apply (safe_throw _ _ _ p)); unfold safe; by cur.
Qed.

Lemma handleTagDirective_safe args p s :
  after p (cur s) -> safe (handleTagDirective args s) (fun s' => after p (cur s')).
Proof.
  intros H. unfold handleTagDirective. repeat case_goal; try (by apply (safe_throw _ _ _ p)); unfold safe; by cur.
Qed.

Lemma after_scan_le stop p c :
  stop 0 = true -> after p c -> after p (scan_cursor input stop c) /\ position c <= position (scan_cursor input stop c).
Proof.
  intros Hs H. pose proof (after_scan stop _ c Hs (after_refl _ _ H)) as H'. split; [|advance].
  unfold scan_cursor, goto in *. advance.
Qed.

Lemma directive_args_safe fuel args p c :
  after p c -> L - position c < Z.of_nat fuel ->
  safe (directive_args input fuel args c) (fun x => after p x.2 /\ lineIndent x.2 = lineIndent c).
Proof.
  revert args c. induction fuel as [|fuel IH]; intros args c H Hf; [unfold after in H; lia|]. cbn [directive_args].
  destruct (ch input c =? 0) eqn:E0; [done|]. breflect.
  destruct (after_scan_le not_white p c eq_refl H) as [H1 Hle1].
  pose proof (scan_stops not_white c ltac:(unfold after in H; lia) eq_refl) as Hw.
  set (c1 := scan_cursor input not_white c) in *.
  destruct (ch input c1 =? 35) eqn:E35; breflect.
  { pose proof (after_move _ _ H1 ltac:(congruence)) as Hm.
    split; [|done]. apply after_scan; [done|]. advance. }
  destruct (is_EOL (ch input c1)) eqn:Ee; [done|].
  destruct (after_scan_le name_end p c1 eq_refl H1) as [H2 Hle2].
  assert (position c < position (scan_cursor input name_end c1)) as Hlt.
  { destruct (decide (position c < position c1)); [lia|].
    assert (position c1 = position c) as Heq by lia.
    assert (ch input c1 = ch input c) as Hch by (unfold ch; by rewrite Heq).
    pose proof (scan_progress name_end c1 ltac:(unfold after in H1; lia)) as Hp. rewrite <- Heq. apply Hp.
    unfold name_end, is_WS_OR_EOL, not_white in *. rewrite Hch in *. apply negb_true_iff in Hw.
    rewrite (proj2 (Z.eqb_neq _ _) E0). unfold is_EOL, is_WHITE_SPACE in *.
    by rewrite !orb_false_iff in *; repeat split; try tauto. }
  eapply safe_weaken; [apply IH; [done|lia]|]. intros [a c'] [H' Hl]. done.
Qed.

Lemma directives_loop_safe fuel has p s :
  after p (cur s) -> L - position (cur s) < Z.of_nat fuel ->
  safe (directives_loop input fuel has s) (fun x => after p (cur x.2)).
Proof.
  revert has s. induction fuel as [|fuel IH]; intros has s H Hf; [unfold after in H; lia|]. cbn [directives_loop].
  destruct (ch input (cur s) =? 0) eqn:E0; [done|]. clear E0.
  apply (skip_state_then true p); [done|]. intros k s1 H1 Hle1.
  destruct ((0 <? lineIndent (cur s1)) || _) eqn:E; [done|]. apply orb_false_iff in E as [E0 E]. breflect. cbv zeta.
  set (q := position (cur s1)).
  pose proof (after_move q (cur s1) (after_refl _ _ H1) ltac:(congruence)) as Hm.
  destruct (after_scan_le name_end _ _ eq_refl Hm) as [H2 Hle2].
  set (c2 := scan_cursor _ _ _) in *.
  case_goal; [by apply (safe_throw _ _ _ (q + 1))|].
  eapply safe_bind; [apply (directive_args_safe _ _ (q + 1)); [done|rewrite enough_fuel; advance]|].
  intros [args c3] [H3 Hl3]. cbn [fst snd] in *.
  assert (lineIndent c2 = lineIndent (cur s1)) as Hl2 by done.
  eapply safe_bind.
  { instantiate (1 := after (q + 1)). case_goal; [done|].
    eapply safe_weaken; [by apply readLineBreak_safe|]. intros c4 H4. advance. }
  intros c4 H4. eapply safe_bind.
  { instantiate (1 := fun s' => after (q + 1) (cur s')).
    case_goal; [apply handleYamlDirective_safe; by cur|]. case_goal; [apply handleTagDirective_safe; by cur|].
    unfold safe. by cur. }
  intros s5 H5. subst q. apply IH; advance.
Qed.

(** Three equal characters that are not the NUL can be moved over. *)
Lemma after_move3 p c x :
  after p c -> x <> 0 -> char_at input (position c) = x -> char_at input (position c + 1) = x ->
  char_at input (position c + 2) = x -> after (p + 3) (move 3 c).
Proof.
  intros H Hx H0 H1 H2.
  pose proof (char_at_lt (position c) ltac:(unfold after in H; lia) ltac:(congruence)).
  pose proof (char_at_lt (position c + 1) ltac:(unfold after in H; lia) ltac:(congruence)).
  pose proof (char_at_lt (position c + 2) ltac:(unfold after in H; lia) ltac:(congruence)).
  advance.
Qed.

Lemma at_separator_dots c :
  at_separator input c = true ->
  lineStart c = position c /\ (ch input c = 45 \/ ch input c = 46)
  /\ char_at input (position c + 1) = ch input c /\ char_at input (position c + 2) = ch input c.
Proof.
  unfold at_separator, testDocumentSeparator. intros H. breflect.
  repeat match goal with Ho : (_ || _)%bool = true |- _ => apply orb_true_iff in Ho; destruct Ho end; breflect; auto.
Qed.

(** A document that starts at a separator [---] has no directives. *)
Definition at_dashes (c : cursor) : Prop := at_separator input c = true /\ ch input c = 45.

Lemma skip_at_dashes c : after (position c) c -> ch input c = 45 -> skipSeparationSpace input true c = Ok (0, c).
Proof.
  intros H Hc. unfold skipSeparationSpace, enough. cbn [skip_loop]. rewrite Hc. simpl (45 =? 0). cbv iota.
  rewrite (scan_stop not_white); [|unfold after in H; lia|by rewrite Hc]. rewrite Hc.
  change (true && (45 =? 35)) with false. cbv iota. by rewrite Hc.
Qed.

Lemma directives_at_dashes s :
  after (position (cur s)) (cur s) -> ch input (cur s) = 45 -> directives_loop input (enough input) false s = Ok (false, s).
Proof.
  intros H Hc. unfold enough. cbn [directives_loop]. rewrite Hc. simpl (45 =? 0). cbv iota.
  unfold skip_state. rewrite skip_at_dashes by done. simpl. rewrite cur_set_cur, Hc. simpl (negb _).
  rewrite orb_true_r. by destruct s.
Qed.

(** The end of a document. *)
Lemma document_end_safe p s :
  after p (cur s) ->
  safe (let s := push_document s in
        if at_separator input (cur s) then
          if ch input (cur s) =? 46 then '(_, s) <-? skip_state input true (set_cur (move 3 (cur s)) s); Ok s else Ok s
        else if position (cur s) <? L - 1
        then throwError (cur s) (u "end of the stream or a document separator is expected")
        else Ok s)
    (fun s' => after p (cur s') /\ (p < position (cur s') \/ L - 1 <= position (cur s') \/ at_dashes (cur s'))).
Proof.
  intros H. cbv zeta. rewrite cur_push_document. destruct (at_separator input (cur s)) eqn:Es.
  - pose proof (at_separator_dots _ Es) as (_ & Hx & H1 & H2). destruct (ch input (cur s) =? 46) eqn:E; breflect.
    + pose proof (after_move3 p (cur s) 46 H ltac:(lia) E ltac:(congruence) ltac:(congruence)) as Hm.
      apply (skip_state_then true (p + 3)); [by cur|]. intros k s1 Hs1 Hle. split; [advance|]. left. advance.
    + unfold safe. cur. split; [done|]. right; right. split; [done|]. destruct Hx; congruence.
  - case_goal; [by apply (safe_throw _ _ _ p)|]. breflect. unfold safe. cur. split; [done|]. right; left. lia.
Qed.

Lemma readDocument_safe p s :
  after p (cur s) ->
  safe (readDocument input L json implicitTypes typeMap s)
    (fun s' => after p (cur s') /\ (p < position (cur s') \/ L - 1 <= position (cur s') \/ at_dashes (cur s'))).
Proof.
  intros H. unfold readDocument. set (s0 := set_anchorMap _ _).
  assert (cur s0 = cur s) as Hs0 by (subst s0; by cur). clearbody s0. rewrite <- Hs0 in H. clear s Hs0.
  eapply safe_bind.
  { apply (directives_loop_safe _ _ p); [done|]. rewrite enough_fuel. unfold after in H. lia. }
  intros [has s1] H1. cbn [snd] in H1. apply (skip_state_then true p); [done|]. intros k s2 H2 Hle2.
  eapply safe_bind.
  { instantiate (1 := fun x => after p (cur x.2)). case_goal.
    - breflect. apply skip_state_safe. cur.
      pose proof (after_move3 p (cur s2) 45 H2 ltac:(lia) ltac:(done) ltac:(done) ltac:(done)). advance.
    - case_goal; [by apply (safe_throw _ _ _ p)|done]. }
  intros [k3 s3] H3. cbn [snd] in H3.
  eapply safe_bind.
  { apply (composeNode_safe _ _ _ _ _ p); [done|]. rewrite Nat2Z.inj_mul, enough_fuel. simpl rank. unfold after in H3. lia. }
  intros [b s4] H4. cbn [snd] in H4. apply (skip_state_then true p); [done|]. intros k5 s5 H5 Hle5.
  by apply document_end_safe.
Qed.

(** At a separator, a document takes it. *)
Lemma readDocument_progress s :
  after (position (cur s)) (cur s) -> at_dashes (cur s) ->
  safe (readDocument input L json implicitTypes typeMap s)
    (fun s' => after (position (cur s)) (cur s') /\ position (cur s) < position (cur s')).
Proof.
  intros H [Hs Hc]. unfold readDocument. set (s0 := set_anchorMap _ _).
  assert (cur s0 = cur s) as Hs0 by (subst s0; by cur). clearbody s0. rewrite <- Hs0 in *. clear s Hs0.
  rewrite directives_at_dashes by done. cbn [res_bind]. unfold skip_state at 1. rewrite skip_at_dashes by done.
  cbn [res_bind]. pose proof (at_separator_dots _ Hs) as (Hl & _ & Hc1 & Hc2). rewrite cur_set_cur.
  assert (lineIndent (cur s0) = 0) as Hi by advance.
  replace (char_at input (position (cur s0))) with 45 by (symmetry; exact Hc). rewrite Hi, Hc1, Hc2, Hc.
  change ((0 =? 0) && (45 =? 45) && (45 =? 45) && (45 =? 45)) with true. cbv iota.
  pose proof (after_move3 (position (cur s0)) (cur s0) 45 H ltac:(lia) Hc ltac:(congruence) ltac:(congruence)) as Hm.
  eapply safe_bind; [apply (skip_state_safe true (position (cur s0) + 3)); by cur|].
  intros [k3 s3] H3. cbn [snd] in H3.
  eapply safe_bind.
  { apply (composeNode_safe _ _ _ _ _ (position (cur s0) + 3)); [done|]. rewrite Nat2Z.inj_mul, enough_fuel. simpl rank.
    unfold after in *. lia. }
  intros [b s4] H4. cbn [snd] in H4. apply (skip_state_then true (position (cur s0) + 3)); [done|]. intros k5 s5 H5 Hle5.
  eapply safe_weaken; [by apply document_end_safe|]. intros s' [H' _]. split; advance.
Qed.

(** The documents: one that ends where it starts leaves a separator, that the
    next one takes. *)
Lemma documents_loop_safe fuel s :
  after (position (cur s)) (cur s) ->
  2 * (L - position (cur s)) < Z.of_nat fuel \/ at_dashes (cur s) /\ 2 * (L - position (cur s)) <= Z.of_nat fuel ->
  safe (documents_loop input L json implicitTypes typeMap fuel s) (fun _ => True).
Proof.
  revert s. induction fuel as [|fuel IH]; intros s H Hf.
  { destruct Hf as [Hf|[[_ Hc] Hf]]; [unfold after in H; lia|].
    pose proof (char_at_lt (position (cur s)) ltac:(unfold after in H; lia)) as Hlt. unfold ch in Hc. lia. }
  cbn [documents_loop]. case_goal; [|done]. breflect.
  destruct Hf as [Hf|[Hd Hf]].
  - eapply safe_bind; [by apply (readDocument_safe (position (cur s)))|]. intros s' [H' Hp].
    apply IH; [by eapply after_refl|].
    destruct Hp as [Hp|[Hp|Hp]]; [left; unfold after in H'; lia| |right; split; [done|unfold after in H'; lia]].
    left. unfold after in H'. lia.
  - eapply safe_bind; [by apply readDocument_progress|]. intros s' [H' Hp].
    apply IH; [by eapply after_refl|]. left. unfold after in H'. lia.
Qed.
End Safety.

(** ** The text and the schema *)

Lemma prepare_input_end s : prepare_input s = [] \/ is_EOL (List.last (prepare_input s) 0) = true.
Proof.
  unfold prepare_input. destruct s as [|x s]; [by left|]. right.
  set (t := if is_EOL (List.last (x :: s) 0) then x :: s else (x :: s) ++ [10]).
  assert (is_EOL (List.last t 0) = true) as Ht.
  { subst t. destruct (is_EOL (List.last (x :: s) 0)) eqn:E; [done|]. by rewrite last_last. }
  clearbody t. destruct t as [|y t]; [done|]. destruct (y =? 65279) eqn:E; [|done]. breflect. subst y.
  by destruct t.
Qed.

(** A schema whose types construct without the model's fuel. *)
Definition gentle_schema (s : yschema) : Prop :=
  Forall gentle_type (compiledImplicit s) /\ Forall gentle_type (compiledExplicit s).

Lemma gentle_type_map s k t ty :
  gentle_schema s ->
  obj_lookup t (match k with Some k => map_kind (compiledTypeMap s) k | None => fallback (compiledTypeMap s) end) = Some ty ->
  gentle_type ty.
Proof.
  intros [Hi He] H. assert (Forall gentle_type (rev (concat [compiledImplicit s; compiledExplicit s]))) as Hall.
  { apply List.Forall_rev. simpl. rewrite app_nil_r. by apply Forall_app. }
  assert (exists f, find f (rev (concat [compiledImplicit s; compiledExplicit s])) = Some ty) as [f Hf].
  { unfold compiledTypeMap in H. destruct k as [k|]; [rewrite (proj1 (compileMap_find _ k t)) in H|rewrite (proj2 (compileMap_find _ scalar t)) in H]; by eexists. }
  apply find_some in Hf as [Hin _]. by apply (proj1 (List.Forall_forall _ _) Hall).
Qed.

Lemma loadDocuments_safe s o :
  gentle_schema (opt_schema o) -> safe (prepare_input s) (loadDocuments s o) (fun _ => True).
Proof.
  intros Hs. unfold loadDocuments. set (text := prepare_input s). set (o' := opt_json o).
  pose proof (prepare_input_end s) as Ht. fold text in Ht. pose proof (zlen_nonneg text) as Hl.
  pose proof (scan_bound text not_space 0 eq_refl ltac:(lia)) as Hp.
  apply (safe_bind _ _ _ (fun _ => True)); [|done].
  apply documents_loop_safe; [done|apply Hs| |unfold after, in_line; cbn; lia|].
  - intros k t ty. by apply gentle_type_map.
  - left. rewrite Nat2Z.inj_mul, enough_fuel. cbn [cur position]. lia.
Qed.

Lemma gentle_bind {A B} (m : res A) (f : A -> res B) : gentle m -> (forall a, gentle (f a)) -> gentle (res_bind m f).
Proof. intros Hm Hf. destruct m; simpl; auto. Qed.

Lemma gentle_of_scalar {A} (f : jstr -> A) g v : (forall x, gentle (g (f x))) -> gentle (of_scalar f g v).
Proof. intros Hg. destruct v; simpl; auto. Qed.

Lemma gentle_timestamp x : gentle (constructYamlTimestamp x).
Proof. unfold constructYamlTimestamp. repeat case_goal; done. Qed.

Lemma gentle_pairs l : gentle (constructYamlPairs l).
Proof.
  destruct l as [l|]; [|done]. cbn [constructYamlPairs]. induction l as [|v l IH]; cbn [res_map]; [done|].
  apply gentle_bind; [|intros y; by apply gentle_bind].
  unfold pair_entry. destruct (own_props v) as [|[]]; [|done]. apply gentle_bind; [|done]. by destruct v.
Qed.

Lemma gentle_safe_schema : gentle_schema DEFAULT_SAFE_SCHEMA.
Proof.
  split; repeat constructor; intros v; cbn [construct]; try done;
    try (apply gentle_of_scalar; intros x; try done; apply gentle_bind; [apply gentle_timestamp|done]);
    destruct v; try done; apply gentle_bind; [apply (gentle_pairs (Some _))|done].
Qed.

(** C8.  Loading a text terminates, for every text and for every schema whose
    types' constructors do: the loops and the recursion end before the bound on
    their steps does.  An error that shows a position shows one of the text. *)
Theorem load_terminates s o :
  gentle_schema (opt_schema o) ->
  match load s o with
  | Err OutOfFuel => False
  | Err (YamlException _ (Some (p, _, _))) => 0 <= p <= zlen (prepare_input s)
  | _ => True
  end.
Proof.
  intros Hs. assert (safe (prepare_input s) (load s o) (fun _ => True)) as H.
  { eapply safe_bind; [by apply loadDocuments_safe|]. intros [|d [|]] _; done. }
  destruct (load s o) as [v|[]]; try done.
Qed.

Lemma load_terminates_witness :
  gentle_schema (opt_schema (LoadOptions DEFAULT_SAFE_SCHEMA false))
  /\ load (u "[a, {b: ") (LoadOptions DEFAULT_SAFE_SCHEMA false)
     = Err (YamlException (u "unexpected end of the stream within a flow collection") (Some (9, 1, 0)))
  /\ 0 <= 9 <= zlen (prepare_input (u "[a, {b: ")).
Proof.
  assert (gentle_schema (opt_schema (LoadOptions DEFAULT_SAFE_SCHEMA false))) as Hg by exact gentle_safe_schema.
  split; [exact Hg|]. split; [vm_compute; reflexivity|].
  pose proof (load_terminates (u "[a, {b: ") (LoadOptions DEFAULT_SAFE_SCHEMA false) Hg) as H.
  assert (load (u "[a, {b: ") (LoadOptions DEFAULT_SAFE_SCHEMA false)
     = Err (YamlException (u "unexpected end of the stream within a flow collection") (Some (9, 1, 0)))) as He
    by (vm_compute; reflexivity).
  rewrite He in H. exact H.
Defined.
