(* ===== verification/YamlWriter.v ===== *)
(** js-yaml's dumper (module 155), the scalars: the choice of a style, escapes,
    block headers, indentation and folding, and [writeScalar]. *)

From Stdlib Require Import ZArith Lia List String Bool.
From stdpp Require Import base list sets list_numbers tactics.
From S2P Require Import Prelude JsNum Js YamlCommon YamlSchema.

(** ** Characters *)

(** [ESCAPE_SEQUENCES]. *)
Definition ESCAPE_SEQUENCES : list (Z * jstr) :=
  [(0, u "\0"); (7, u "\a"); (8, u "\b"); (9, u "\t"); (10, u "\n"); (11, u "\v"); (12, u "\f"); (13, u "\r");
   (27, u "\e"); (34, [92; 34]); (92, u "\\"); (133, u "\N"); (160, u "\_"); (8232, u "\L"); (8233, u "\P")].

Definition escape_of (c : Z) : option jstr := snd <$> find (fun e => c =? e.1) ESCAPE_SEQUENCES.

Definition DEPRECATED_BOOLEANS_SYNTAX : list jstr :=
  [u "y"; u "Y"; u "yes"; u "Yes"; u "YES"; u "on"; u "On"; u "ON";
   u "n"; u "N"; u "no"; u "No"; u "NO"; u "off"; u "Off"; u "OFF"].

(** [encodeHex]. *)
Definition encodeHex (character : Z) : res jstr :=
  let string := map upper_char (to_radix 16 character) in
  '(handle, length) <-?
     (if character <=? 255 then Ok (u "x", 2)
      else if character <=? 65535 then Ok (u "u", 4)
      else if character <=? 4294967295 then Ok (u "U", 8)
      else Err (YamlException (u "code point within a string may not be greater than 0xFFFFFFFF") None));
  Ok ([92] ++ handle ++ repeat_string [48] (length - zlen string) ++ string).

Definition isWhitespace (c : Z) : bool := (c =? 32) || (c =? 9).

Definition isPrintable (c : Z) : bool :=
  ((32 <=? c) && (c <=? 126))
  || (((161 <=? c) && (c <=? 55295)) && negb (c =? 8232) && negb (c =? 8233))
  || (((57344 <=? c) && (c <=? 65533)) && negb (c =? 65279))
  || ((65536 <=? c) && (c <=? 1114111)).

Definition isPlainSafe (c : Z) : bool :=
  isPrintable c && negb (c =? 65279) && negb (existsb (Z.eqb c) [44; 91; 93; 123; 125; 58; 35]).

Definition isPlainSafeFirst (c : Z) : bool :=
  isPrintable c && negb (c =? 65279) && negb (isWhitespace c)
  && negb (existsb (Z.eqb c) [45; 63; 58; 44; 91; 93; 123; 125; 35; 38; 42; 33; 124; 62; 39; 34; 37; 64; 96]).

(** ** The style of a scalar *)

Inductive scalar_style := STYLE_PLAIN | STYLE_SINGLE | STYLE_LITERAL | STYLE_FOLDED | STYLE_DOUBLE.

(** The loop when block styles are ruled out: [None] when it returns
    [STYLE_DOUBLE]. *)
Fixpoint single_line_loop (string : jstr) (plain : bool) : option bool :=
  match string with
  | [] => Some plain
  | char :: string => if isPrintable char then single_line_loop string (plain && isPlainSafe char) else None
  end.

(** A line from [previousLineBreak] to [i] is too long, and not more indented. *)
Definition foldable (string : jstr) (lineWidth previousLineBreak i : Z) : bool :=
  (lineWidth <? i - previousLineBreak - 1) && negb (bool_decide (zget string (previousLineBreak + 1) = Some 32)).

(** The loop when block styles are permitted: whether there is a line break,
    whether there is a foldable line, and whether the text is plain. *)
Fixpoint block_line_loop (string : jstr) (lineWidth : Z) (rest : jstr) (i previousLineBreak : Z)
    (hasLineBreak hasFoldableLine plain : bool) : option (bool * bool * bool) :=
  let shouldTrackWidth := negb (lineWidth =? -1) in
  match rest with
  | [] => Some (hasLineBreak, hasFoldableLine || (shouldTrackWidth && foldable string lineWidth previousLineBreak i), plain)
  | char :: rest =>
      let plain' := plain && isPlainSafe char in
      if char =? 10 then
        if shouldTrackWidth then
          block_line_loop string lineWidth rest (i + 1) i true
            (hasFoldableLine || foldable string lineWidth previousLineBreak i) plain'
        else block_line_loop string lineWidth rest (i + 1) previousLineBreak true hasFoldableLine plain'
      else if isPrintable char then
        block_line_loop string lineWidth rest (i + 1) previousLineBreak hasLineBreak hasFoldableLine plain'
      else None
  end.

Definition first_char (s : jstr) : Z := default (-1) (zget s 0).

Definition chooseScalarStyle (string : jstr) (singleLineOnly : bool) (indentPerLevel lineWidth : Z)
    (testAmbiguousType : jstr -> bool) : scalar_style :=
  let plain := isPlainSafeFirst (first_char string) && negb (isWhitespace (List.last string (-1))) in
  match (if singleLineOnly then (fun p => (false, false, p)) <$> single_line_loop string plain
         else block_line_loop string lineWidth string 0 (-1) false false plain) with
  | None => STYLE_DOUBLE
  | Some (hasLineBreak, hasFoldableLine, plain) =>
      if negb hasLineBreak && negb hasFoldableLine then
        if plain && negb (testAmbiguousType string) then STYLE_PLAIN else STYLE_SINGLE
      else if (first_char string =? 32) && (9 <? indentPerLevel) then STYLE_DOUBLE
      else if hasFoldableLine then STYLE_FOLDED else STYLE_LITERAL
  end.

(** ** Block scalars *)

(** The lines of a text, each with the line break that ends it. *)
Fixpoint lines_of (string : jstr) : list jstr :=
  match string with
  | [] => []
  | c :: string =>
      if c =? 10 then [10] :: lines_of string
      else match lines_of string with l :: ls => (c :: l) :: ls | [] => [[c]] end
  end.

(** [indentString]: every line but the empty ones is indented. *)
Definition indentString (string : jstr) (spaces : Z) : jstr :=
  let ind := repeat_string [32] spaces in
  concat (map (fun line => (if streq line [10] then [] else ind) ++ line) (lines_of string)).

(** [blockHeader]. *)
Definition blockHeader (string : jstr) (indentPerLevel : Z) : jstr :=
  let indentIndicator := if first_char string =? 32 then num_to_string (num_of_Z indentPerLevel) else [] in
  let clip := bool_decide (zget string (zlen string - 1) = Some 10) in
  let keep := clip && (bool_decide (zget string (zlen string - 2) = Some 10) || streq string [10]) in
  indentIndicator ++ (if keep then u "+" else if clip then [] else u "-") ++ [10].

Definition dropEndingNewline (string : jstr) : jstr :=
  if bool_decide (zget string (zlen string - 1) = Some 10) then zslice 0 (zlen string - 1) string else string.

(** The matches of [/ [^ ]/g] in a line: their positions, from [i] on. *)
Fixpoint break_points (i : Z) (line : jstr) : list Z :=
  match line with
  | c :: (d :: _) as rest => if (c =? 32) && negb (d =? 32) then i :: break_points (i + 1) rest else break_points (i + 1) rest
  | _ => []
  end.

(** The loop of [foldLine]: where the line that is written starts, the last
    break point, and the text so far. *)
Fixpoint fold_loop (line : jstr) (width : Z) (matches : list Z) (start curr : Z) (result : jstr) : Z * Z * jstr :=
  match matches with
  | [] => (start, curr, result)
  | next :: matches =>
      if width <? next - start then
        let end_ := if start <? curr then curr else next in
        fold_loop line width matches (end_ + 1) next (result ++ [10] ++ zslice start end_ line)
      else fold_loop line width matches start next result
  end.

Definition foldLine (line : jstr) (width : Z) : jstr :=
  if bool_decide (line = []) || (first_char line =? 32) then line
  else
    let '(start, curr, result) := fold_loop line width (break_points 0 line) 0 0 [] in
    let result := result ++ [10] in
    let result :=
      if (width <? zlen line - start) && (start <? curr)
      then result ++ zslice start curr line ++ [10] ++ zslice (curr + 1) (zlen line) line
      else result ++ zslice start (zlen line) line in
    zslice 1 (zlen result) result.

(** A text up to its first line break, and the rest. *)
Fixpoint until_break (string : jstr) : jstr * jstr :=
  match string with
  | [] => ([], [])
  | c :: rest => if c =? 10 then ([], string) else let '(l, r) := until_break rest in (c :: l, r)
  end.

(** The matches of the expression [lineRe]: line breaks, and the line after them. *)
Fixpoint break_groups (string : jstr) : list (jstr * jstr) :=
  match string with
  | [] => []
  | c :: rest =>
      if c =? 10 then
        match rest with
        | d :: _ =>
            if d =? 10 then match break_groups rest with (p, l) :: ms => (10 :: p, l) :: ms | [] => [([10], [])] end
            else ([10], fst (until_break rest)) :: break_groups rest
        | [] => [([10], [])]
        end
      else break_groups rest
  end.

(** [foldString]. *)
Definition fold_groups (width : Z) : list (jstr * jstr) -> bool -> jstr -> jstr :=
  fix go ms prevMoreIndented result :=
    match ms with
    | [] => result
    | (prefix, line) :: ms =>
        let moreIndented := first_char line =? 32 in
        go ms moreIndented
          (result ++ prefix
           ++ (if negb prevMoreIndented && negb moreIndented && negb (bool_decide (line = [])) then [10] else [])
           ++ foldLine line width)
    end.

Definition foldString (string : jstr) (width : Z) : jstr :=
  let '(first, rest) := until_break string in
  fold_groups width (break_groups rest) ((first_char string =? 10) || (first_char string =? 32)) (foldLine first width).

(** ** Double quotes *)

(** [escapeString]. *)
Fixpoint escapeString (string : jstr) : res jstr :=
  match string with
  | [] => Ok []
  | char :: string =>
      e <-? match escape_of char with
            | Some escapeSeq => Ok escapeSeq
            | None => if isPrintable char then Ok [char] else encodeHex char
            end;
      rest <-? escapeString string; Ok (e ++ rest)
  end.

(** The single quotes of a text are doubled. *)
Definition double_quotes (string : jstr) : jstr := concat (map (fun c => if c =? 39 then [39; 39] else [c]) string).

(** ** [writeScalar] *)

Inductive sort_keys := NoSort | DefaultSort | SortBy (f : list jstr -> list jstr) | BadSort.

(** The options of [dump], and what [State] makes of them. *)
Record dump_options := DumpOptions {
  o_schema : yschema;
  o_indent : option Z;
  o_skipInvalid : bool;
  o_flowLevel : option Z;
  o_styles : list (jstr * jstr);
  o_sortKeys : sort_keys;
  o_lineWidth : option Z;
  o_noRefs : bool;
  o_noCompatMode : bool
}.

Record dstate := DState {
  d_indent : Z;
  skipInvalid : bool;
  flowLevel : Z;
  styleMap : list (jstr * jstr);
  sortKeys : sort_keys;
  d_lineWidth : Z;
  noRefs : bool;
  noCompatMode : bool;
  d_implicitTypes : list ytype;
  d_explicitTypes : list ytype
}.

(** [compileStyleMap]. *)
Definition compile_style (s : yschema) (result : list (jstr * jstr)) (e : jstr * jstr) : list (jstr * jstr) :=
  let '(tag, style) := e in
  let tag := if starts_with (u "!!") tag then u "tag:yaml.org,2002:" ++ drop 2 tag else tag in
  let style :=
    match obj_lookup tag (fallback (compiledTypeMap s)) with
    | Some type => default style (obj_lookup style (styleAliases type))
    | None => style
    end in
  obj_set tag style result.

Definition compileStyleMap (s : yschema) (map_ : list (jstr * jstr)) : list (jstr * jstr) :=
  fold_left (compile_style s) map_ [].

(** [options[name] || d]. *)
Definition or_default (o : option Z) (d : Z) : Z := match o with Some n => if n =? 0 then d else n | None => d end.

Definition State (o : dump_options) : dstate :=
  DState (Z.max 1 (or_default (o_indent o) 2)) (o_skipInvalid o) (default (-1) (o_flowLevel o))
    (compileStyleMap (o_schema o) (o_styles o)) (o_sortKeys o) (or_default (o_lineWidth o) 80) (o_noRefs o)
    (o_noCompatMode o) (compiledImplicit (o_schema o)) (compiledExplicit (o_schema o)).

Section State.
Variable state : dstate.

(** [testImplicitResolving]. *)
Definition testImplicitResolving (str : jstr) : bool := existsb (fun type => resolve type (VStr str)) (d_implicitTypes state).

Definition scalar_width (level : Z) : Z :=
  if d_lineWidth state =? -1 then -1
  else Z.max (Z.min (d_lineWidth state) 40) (d_lineWidth state - d_indent state * Z.max 1 level).

(** [writeScalar]: the text it leaves in [state.dump]. *)
Definition writeScalar (string : jstr) (level : Z) (iskey : bool) : res jstr :=
  if bool_decide (string = []) then Ok [39; 39]
  else if negb (noCompatMode state) && bool_decide (string ∈ DEPRECATED_BOOLEANS_SYNTAX) then Ok ([39] ++ string ++ [39])
  else
    let indent := d_indent state * Z.max 1 level in
    let lineWidth := scalar_width level in
    let singleLineOnly := iskey || ((-1 <? flowLevel state) && (flowLevel state <=? level)) in
    match chooseScalarStyle string singleLineOnly (d_indent state) lineWidth testImplicitResolving with
    | STYLE_PLAIN => Ok string
    | STYLE_SINGLE => Ok ([39] ++ double_quotes string ++ [39])
    | STYLE_LITERAL =>
        Ok (u "|" ++ blockHeader string (d_indent state) ++ dropEndingNewline (indentString string indent))
    | STYLE_FOLDED =>
        Ok (u ">" ++ blockHeader string (d_indent state)
            ++ dropEndingNewline (indentString (foldString string lineWidth) indent))
    | STYLE_DOUBLE => e <-? escapeString string; Ok ([34] ++ e ++ [34])
    end.

(** [generateNextLine]. *)
Definition generateNextLine (level : Z) : jstr := [10] ++ repeat_string [32] (d_indent state * level).
End State.

Example fold_examples :
  foldString (u "aaa bbb ccc ddd" ++ [10] ++ u " x y" ++ [10; 10] ++ u "z") 7
  = u "aaa bbb" ++ [10] ++ u "ccc ddd" ++ [10] ++ u " x y" ++ [10; 10] ++ u "z".
Proof. vm_compute. reflexivity. Qed.
