(* ===== verification/YamlDumper.v ===== *)
(** js-yaml's dumper (module 155), the nodes: collections in the flow and the
    block styles, the types of objects, objects that occur more than once, and
    the functions [dump] and [safeDump]. *)

From Stdlib Require Import ZArith Lia List String Bool.
From stdpp Require Import base list sets list_numbers tactics.
From S2P Require Import Prelude JsNum Js YamlCommon YamlSchema YamlWriter.

(** ** Objects with an identity

    The dumper tells objects by their identity: one that occurs again is
    written as an alias.  Its input is a value over a heap, in which arrays and
    objects are cells; two occurrences of a cell are the same object, and a cell
    may contain itself. *)

(** A value in the heap: a primitive, or a pointer to a cell. *)
Inductive jsval := Prim (v : value) | Ref (a : nat).

Inductive cell :=
| CArr (l : list jsval)
| CObj (o : list (jstr * jsval))
| COther (v : value).   (* a date, a buffer, a regular expression *)

Definition heap := list cell.

(** What the predicates of the types see of a value: of an array or an object,
    only that it is one. *)
Definition shallow (h : heap) (x : jsval) : value :=
  match x with
  | Prim v => v
  | Ref a => match h !! a with Some (CArr _) => VArr [] | Some (CObj _) => VObj [] | Some (COther v) => v | None => VUndef end
  end.

(** The children that [inspectNode] visits: those of a date and of a regular
    expression are none, and those of a buffer are numbers. *)
Definition children (c : cell) : list jsval :=
  match c with CArr l => l | CObj o => map snd o | COther _ => [] end.

(** [inspectNode]: the objects visited, in the order of their first visit, and
    the indices of those visited again. *)
Fixpoint inspectNode (fuel : nat) (h : heap) (object : jsval) (st : list nat * list nat) : res (list nat * list nat) :=
  match fuel with
  | O => Err OutOfFuel
  | S fuel =>
      match object with
      | Prim _ => Ok st
      | Ref a =>
          match find (fun '(_, b) => Nat.eqb a b) (imap (fun i b => (i, b)) st.1) with
          | Some (index, _) =>
              Ok (if bool_decide (index ∈ st.2) then st else (st.1, st.2 ++ [index]))
          | None =>
              match h !! a with
              | Some c =>
                  (fix each l st := match l with [] => Ok st | x :: l => st <-? inspectNode fuel h x st; each l st end)
                    (children c) (st.1 ++ [a], st.2)
              | None => Ok (st.1 ++ [a], st.2)
              end
          end
      end
  end.

(** [getDuplicateReferences]: [state.duplicates]. *)
Definition getDuplicateReferences (fuel : nat) (h : heap) (object : jsval) : res (list nat) :=
  '(objects, duplicatesIndexes) <-? inspectNode fuel h object ([], []);
  Ok (map (fun i => default O (objects !! i)) duplicatesIndexes).

Section Dump.
Context (state : dstate) (h : heap) (duplicates : list nat).

(** [state.tag], [state.dump] and [state.usedDuplicates] after a node; the text
    is [None] for a node that is not written. *)
Record written := Written { w_tag : option jstr; w_dump : option jstr; usedDuplicates : list nat }.

(** [detectType]: the tag and what [state.dump] becomes. *)
Fixpoint detect_in (explicit : bool) (typeList : list ytype) (object : value) : res (option (jstr * option jstr)) :=
  match typeList with
  | [] => Ok None
  | type :: typeList =>
      match detects type with
      | Some p =>
          if p object then
            let tag_ := if explicit then tag type else u "?" in
            match represent type with
            | None => Ok (Some (tag_, None))
            | Some r =>
                let style := match obj_lookup (tag type) (styleMap state) with
                             | Some [] | None => defaultStyle type
                             | Some s => Some s
                             end in
                match r with
                | ByFunction f => d <-? f object style; Ok (Some (tag_, Some d))
                | ByStyle table =>
                    let name := default (u "null") style in
                    match obj_lookup name table with
                    | Some f => d <-? f object; Ok (Some (tag_, Some d))
                    | None => Err (YamlException (u "!<" ++ tag type ++ u "> tag resolver accepts not " ++ [34] ++ name
                                                  ++ [34] ++ u " style") None)
                    end
                end
            end
          else detect_in explicit typeList object
      | None => detect_in explicit typeList object
      end
  end.

Definition detectType (object : value) : res (option (jstr * option jstr)) :=
  r <-? detect_in false (d_implicitTypes state) object;
  match r with Some _ => Ok r | None => detect_in true (d_explicitTypes state) object end.

(** The name in [Object.prototype.toString] of what is not an object, an array
    or a string. *)
Definition class_name (v : value) : jstr :=
  match v with
  | VUndef => u "[object Undefined]" | VNull => u "[object Null]" | VBool _ => u "[object Boolean]"
  | VNum _ => u "[object Number]" | VDate _ => u "[object Date]" | VBuf _ => u "[object Uint8Array]"
  | VRegExp _ _ => u "[object RegExp]" | VStr _ => u "[object String]" | VArr _ => u "[object Array]"
  | VObj _ => u "[object Object]"
  end.

(** The recursive call, [writeNode]. *)
Variable writeNode : Z -> jsval -> bool -> bool -> bool -> list nat -> res written.

Fixpoint flow_sequence_loop (level : Z) (l : list jsval) (first : bool) (result : jstr) (used : list nat) : res (jstr * list nat) :=
  match l with
  | [] => Ok (result, used)
  | x :: l =>
      w <-? writeNode level x false false false used;
      flow_sequence_loop level l false
        match w_dump w with
        | Some d => result ++ (if first then [] else u ", ") ++ d
        | None => result
        end (usedDuplicates w)
  end.

(** [writeFlowSequence]. *)
Definition writeFlowSequence (level : Z) (object : list jsval) (used : list nat) : res (jstr * list nat) :=
  '(result, used) <-? flow_sequence_loop level object true [] used; Ok (u "[" ++ result ++ u "]", used).

Fixpoint block_sequence_loop (level : Z) (compact : bool) (l : list jsval) (first : bool) (result : jstr) (used : list nat) :
    res (jstr * list nat) :=
  match l with
  | [] => Ok (result, used)
  | x :: l =>
      w <-? writeNode (level + 1) x true true false used;
      block_sequence_loop level compact l false
        match w_dump w with
        | Some d => result ++ (if negb compact || negb first then generateNextLine state level else []) ++ u "- " ++ d
        | None => result
        end (usedDuplicates w)
  end.

(** [writeBlockSequence]. *)
Definition writeBlockSequence (level : Z) (object : list jsval) (compact : bool) (used : list nat) : res (jstr * list nat) :=
  '(result, used) <-? block_sequence_loop level compact object true [] used;
  Ok (match result with [] => u "[]" | _ => result end, used).

Fixpoint flow_mapping_loop (level : Z) (o : list (jstr * jsval)) (first : bool) (result : jstr) (used : list nat) :
    res (jstr * list nat) :=
  match o with
  | [] => Ok (result, used)
  | (objectKey, objectValue) :: o =>
      k <-? writeNode level (Prim (VStr objectKey)) false false false used;
      match w_dump k with
      | None => flow_mapping_loop level o false result (usedDuplicates k)
      | Some key =>
          v <-? writeNode level objectValue false false false (usedDuplicates k);
          flow_mapping_loop level o false
            match w_dump v with
            | Some d => result ++ (if first then [] else u ", ") ++ (if 1024 <? zlen key then u "? " else []) ++ key ++ u ": " ++ d
            | None => result
            end (usedDuplicates v)
      end
  end.

(** [writeFlowMapping]. *)
Definition writeFlowMapping (level : Z) (object : list (jstr * jsval)) (used : list nat) : res (jstr * list nat) :=
  '(result, used) <-? flow_mapping_loop level object true [] used; Ok (u "{" ++ result ++ u "}", used).

(** A text that starts with a line break follows its indicator at once. *)
Definition after_indicator (indicator d : jstr) : jstr := if first_char d =? 10 then indicator else indicator ++ [32].

Fixpoint block_mapping_loop (level : Z) (compact : bool) (o : list (jstr * jsval)) (first : bool) (result : jstr)
    (used : list nat) : res (jstr * list nat) :=
  match o with
  | [] => Ok (result, used)
  | (objectKey, objectValue) :: o =>
      k <-? writeNode (level + 1) (Prim (VStr objectKey)) true true true used;
      match w_dump k with
      | None => block_mapping_loop level compact o false result (usedDuplicates k)
      | Some key =>
          let explicitPair :=
            match w_tag k with Some t => negb (streq t (u "?")) | None => false end || (1024 <? zlen key) in
          v <-? writeNode (level + 1) objectValue true explicitPair false (usedDuplicates k);
          block_mapping_loop level compact o false
            match w_dump v with
            | Some d =>
                result
                ++ (if negb compact || negb first then generateNextLine state level else [])
                ++ (if explicitPair then after_indicator (u "?") key else [])
                ++ key
                ++ (if explicitPair then generateNextLine state level else [])
                ++ after_indicator (u ":") d ++ d
            | None => result
            end (usedDuplicates v)
      end
  end.

(** The keys in the order of [sortKeys]. *)
Definition code_unit_le (a b : jstr) : bool :=
  (fix le a b := match a, b with
                 | [], _ => true
                 | _ :: _, [] => false
                 | x :: a, y :: b => if x =? y then le a b else x <? y
                 end) a b.

Fixpoint insert_key (k : jstr) (l : list jstr) : list jstr :=
  match l with
  | [] => [k]
  | x :: l => if code_unit_le x k then x :: insert_key k l else k :: x :: l
  end.

Definition key_order (keys : list jstr) : res (list jstr) :=
  match sortKeys state with
  | NoSort => Ok keys
  | DefaultSort => Ok (fold_left (fun l k => insert_key k l) keys [])
  | SortBy f => Ok (f keys)
  | BadSort => Err (YamlException (u "sortKeys must be a boolean or a function") None)
  end.

(** [writeBlockMapping]. *)
Definition writeBlockMapping (level : Z) (object : list (jstr * jsval)) (compact : bool) (used : list nat) : res (jstr * list nat) :=
  objectKeyList <-? key_order (map fst object);
  '(result, used) <-?
     block_mapping_loop level compact (map (fun k => (k, default (Prim VUndef) (obj_lookup k object))) objectKeyList) true [] used;
  Ok (match result with [] => u "{}" | _ => result end, used).

(** The index of an object in [state.duplicates]. *)
Definition duplicate_index (a : nat) : option nat := fst <$> find (fun '(_, b) => Nat.eqb a b) (imap (fun i b => (i, b)) duplicates).

(** A decimal number in a text. *)
Definition decimal (n : nat) : jstr := to_radix 10 (Z.of_nat n).

(** The collection in the cell [c], which is the duplicate [dup]. *)
Definition write_collection (level : Z) (c : cell) (block compact : bool) (dup : option nat) (used : list nat) :
    res (jstr * list nat) :=
  let anchored space (w : jstr * list nat) :=
    (match dup with Some i => u "&ref_" ++ decimal i ++ space ++ w.1 | None => w.1 end, w.2) in
  match c with
  | CObj o =>
      if block && negb (bool_decide (o = []))
      then w <-? writeBlockMapping level o compact used; Ok (anchored [] w)
      else w <-? writeFlowMapping level o used; Ok (anchored [32] w)
  | CArr l =>
      if block && negb (bool_decide (l = []))
      then w <-? writeBlockSequence level l compact used; Ok (anchored [] w)
      else w <-? writeFlowSequence level l used; Ok (anchored [32] w)
  | COther _ => Err Unsupported
  end.

(** The tag in front of a node. *)
Definition with_tag (tag_ : option jstr) (d : jstr) : jstr :=
  match tag_ with Some t => if streq t (u "?") then d else u "!<" ++ t ++ u "> " ++ d | None => d end.

(** The cell of an object or an array that is not represented as a text. *)
Definition collection_of (object : jsval) (dump_ : option jstr) : option (nat * cell) :=
  match object, dump_ with
  | Ref a, None => match h !! a with Some (COther _) | None => None | Some c => Some (a, c) end
  | _, _ => None
  end.

(** [writeNode]. *)
Definition write_node (level : Z) (object : jsval) (block compact iskey : bool) (used : list nat) : res written :=
  let v := shallow h object in
  r <-? detectType v;
  let tag_ := fst <$> r in
  let dump_ := match r with Some (_, d) => d | None => None end in
  let tagged := match tag_ with Some t => negb (streq t (u "?")) | None => false end in
  let block := block && ((flowLevel state <? 0) || (level <? flowLevel state)) in
  match collection_of object dump_ with
  | Some (a, c) =>
      let dup := duplicate_index a in
      let compact := compact && negb (tagged || bool_decide (dup <> None) || (negb (d_indent state =? 2) && (0 <? level))) in
      match dup with
      | Some i =>
          if bool_decide (i ∈ used) then Ok (Written tag_ (Some (u "*ref_" ++ decimal i)) used)
          else
            '(d, used) <-? write_collection level c block compact dup (used ++ [i]);
            Ok (Written tag_ (Some (with_tag tag_ d)) used)
      | None =>
          '(d, used) <-? write_collection level c block compact None used; Ok (Written tag_ (Some (with_tag tag_ d)) used)
      end
  | None =>
      match (match dump_ with Some d => VStr d | None => v end) with
      | VStr s =>
          d <-? (if match tag_ with Some t => streq t (u "?") | None => false end then Ok s else writeScalar state s level iskey);
          Ok (Written tag_ (Some (with_tag tag_ d)) used)
      | x =>
          if skipInvalid state then Ok (Written tag_ None used)
          else Err (YamlException (u "unacceptable kind of an object to dump " ++ class_name x) None)
      end
  end.
End Dump.

Fixpoint writeNode (fuel : nat) (state : dstate) (h : heap) (duplicates : list nat) (level : Z) (object : jsval)
    (block compact iskey : bool) (used : list nat) : res written :=
  match fuel with
  | O => Err OutOfFuel
  | S fuel => write_node state h duplicates (writeNode fuel state h duplicates) level object block compact iskey used
  end.

(** [dump].  Neither recursion goes deeper than there are cells. *)
Definition dump (h : heap) (input : jsval) (o : dump_options) : res jstr :=
  let state := State o in
  let fuel := S (S (length h)) in
  duplicates <-? (if noRefs state then Ok [] else getDuplicateReferences fuel h input);
  w <-? writeNode fuel state h duplicates 0 input true true false [];
  Ok (match w_dump w with Some d => d ++ [10] | None => [] end).

Definition safe_options : dump_options := DumpOptions DEFAULT_SAFE_SCHEMA None false None [] NoSort None false false.

(** A value as it is read from JSON: no object occurs twice in it. *)
Fixpoint alloc (h : heap) (v : value) : heap * jsval :=
  match v with
  | VArr l =>
      let '(h, xs) :=
        (fix go h l := match l with
                       | [] => (h, [])
                       | x :: l => let '(h, y) := alloc h x in let '(h, ys) := go h l in (h, y :: ys)
                       end) h l in
      (h ++ [CArr xs], Ref (length h))
  | VObj o =>
      let '(h, xs) :=
        (fix go h o := match o with
                       | [] => (h, [])
                       | (k, x) :: o => let '(h, y) := alloc h x in let '(h, ys) := go h o in (h, (k, y) :: ys)
                       end) h o in
      (h ++ [CObj xs], Ref (length h))
  | VDate _ | VBuf _ | VRegExp _ _ => (h ++ [COther v], Ref (length h))
  | _ => (h, Prim v)
  end.

(** [safeDump(v)], without options. *)
Definition safeDump (v : value) : res jstr := let '(h, x) := alloc [] v in dump h x safe_options.

Definition text_lines (l : list string) : jstr := concat (map (fun s => u s ++ [10]) l).

Example dump_examples :
  safeDump (VObj [(u "a", VArr [VNum (num_of_Z 1); VArr []; VObj [(u "x", VNull); (u "y", VStr (u "no"))]]);
                  (u "t", VStr (u "p" ++ [10] ++ u " q")); (u "d", VDate (Some 0)); (u "b", VBuf [1; 2; 3])])
  = Ok (text_lines ["a:"; "  - 1"; "  - []"; "  - x: null"; "    'y': 'no'"; "t: |-"; "  p"; "   q";
                    "d: 1970-01-01T00:00:00.000Z"; "b: !<tag:yaml.org,2002:binary> AQID"]%string)
  /\ dump [CArr [Ref 1; Ref 1; Ref 0]; CObj [(u "k", Prim VNull)]] (Ref 0) safe_options
     = Ok (text_lines ["&ref_1"; "- &ref_0"; "  k: null"; "- *ref_0"; "- *ref_1"]%string).
Proof. split; vm_compute; reflexivity. Qed.
