(* ===== verification/YamlDumpSafety.v ===== *)
(** The dumper terminates on every graph of objects, those with cycles
    included: [getDuplicateReferences] finds an object on every cycle, and
    [writeNode] does not enter such an object twice. *)

From Stdlib Require Import ZArith Lia List String Bool.
From stdpp Require Import base list sets list_numbers tactics.
From S2P Require Import Prelude JsNum Js YamlCommon YamlSchema YamlWriter YamlDumper.

(** The computation gives a value that satisfies [P], or an error that the
    program can throw. *)
Definition finishes {A} (m : res A) (P : A -> Prop) : Prop :=
  match m with Ok a => P a | Err e => e <> OutOfFuel end.

Lemma finishes_bind {A B} (m : res A) (f : A -> res B) (P : A -> Prop) (Q : B -> Prop) :
  finishes m P -> (forall a, P a -> finishes (f a) Q) -> finishes (res_bind m f) Q.
Proof. destruct m; cbn; auto. Qed.

Lemma finishes_weaken {A} (m : res A) (P Q : A -> Prop) : finishes m P -> (forall a, P a -> Q a) -> finishes m Q.
Proof. destruct m; cbn; auto. Qed.

(** ** The edges of the graph *)

(** An occurrence of an object: in a cell, or as the root. *)
Abbreviation edge := (option nat * nat)%type.

Section Inspect.
Context (h : heap).

Definition child_edge (q : nat) (a : nat) : Prop := exists c, h !! q = Some c /\ Ref a ∈ children c.

(** The objects that [inspectNode] has seen twice. *)
Definition seen_twice (st : list nat * list nat) (a : nat) : Prop := exists i, i ∈ st.2 /\ st.1 !! i = Some a.

(** The occurrences [E] have been inspected. *)
Record inspected (E : edge -> Prop) (st : list nat * list nat) : Prop := {
  in_objects : forall e, E e -> e.2 ∈ st.1;
  in_twice : forall e1 e2, E e1 -> E e2 -> e1.2 = e2.2 -> e1 <> e2 -> seen_twice st e1.2;
  in_indices : Forall (fun i => i < length st.1)%nat st.2
}.

(** What a call adds: the state grows, and so do the occurrences inspected;
    the children of every object that is new are among them. *)
Record grows (E E' : edge -> Prop) (st st' : list nat * list nat) : Prop := {
  g_edges : forall e, E e -> E' e;
  g_objects : exists l, st'.1 = st.1 ++ l;
  g_indices : forall i, i ∈ st.2 -> i ∈ st'.2;
  g_children : forall q a, q ∈ st'.1 -> q ∉ st.1 -> child_edge q a -> E' (Some q, a)
}.

Lemma seen_twice_grows E E' st st' a : grows E E' st st' -> seen_twice st a -> seen_twice st' a.
Proof.
  intros [_ [l Hl] Hi _] (i & H1 & H2). exists i. split; [by apply Hi|]. rewrite Hl.
  apply lookup_app_l_Some, H2.
Qed.

Lemma grows_refl E st : grows E E st st.
Proof. split; try done. exists []. by rewrite app_nil_r. Qed.

Lemma grows_trans E1 E2 E3 s1 s2 s3 : grows E1 E2 s1 s2 -> grows E2 E3 s2 s3 -> grows E1 E3 s1 s3.
Proof.
  intros [A1 [l1 B1] C1 D1] [A2 [l2 B2] C2 D2]. split; [auto| |auto|].
  - exists (l1 ++ l2). by rewrite B2, B1, app_assoc.
  - intros q a Hq Hn Hc. destruct (decide (q ∈ s2.1)) as [Hin | Hni]; [by eapply A2, D1 | by eapply D2].
Qed.

(** The objects that are not visited yet. *)
Definition left (st : list nat * list nat) : nat :=
  length (List.filter (fun a => negb (bool_decide (a ∈ st.1))) (seq 0 (length h))).

Lemma filter_lt {A} (f g : A -> bool) l x :
  (forall y, g y = true -> f y = true) -> x ∈ l -> f x = true -> g x = false ->
  (length (List.filter g l) < length (List.filter f l))%nat.
Proof.
  intros H Hx Hf Hg.
  assert (Hle : forall k, (length (List.filter g k) <= length (List.filter f k))%nat).
  { induction k as [|y k IH]; cbn; [lia|]. destruct (g y) eqn:E; [rewrite (H y E); cbn; lia|].
    destruct (f y); cbn; lia. }
  induction l as [|y l IH]; [by apply not_elem_of_nil in Hx|]. cbn.
  apply elem_of_cons in Hx as [<- | Hx].
  - rewrite Hf, Hg. cbn. specialize (Hle l). lia.
  - specialize (IH Hx). destruct (g y) eqn:E; [rewrite (H y E); cbn; lia|]. destruct (f y); cbn; lia.
Qed.

Lemma left_le E E' st st' : grows E E' st st' -> (left st' <= left st)%nat.
Proof.
  intros [_ [l Hl] _ _]. unfold left. rewrite Hl. induction (seq 0 (length h)) as [|y k IH]; cbn; [lia|].
  destruct (bool_decide (y ∈ st.1 ++ l)) eqn:E1, (bool_decide (y ∈ st.1)) eqn:E2; cbn; try lia.
  breflect. rewrite elem_of_app in E1. tauto.
Qed.

Lemma left_visit st a i : (a < length h)%nat -> a ∉ st.1 -> (left (st.1 ++ [a], i) < left st)%nat.
Proof.
  intros Ha Hn. unfold left. cbn [fst]. apply (filter_lt _ _ _ a).
  - intros y. rewrite !negb_true_iff, !bool_decide_eq_false, elem_of_app. tauto.
  - apply list_elem_of_In, in_seq. lia.
  - by rewrite bool_decide_eq_false_2.
  - rewrite bool_decide_eq_true_2; [done|]. apply elem_of_app. right. by left.
Qed.

(** [objects.indexOf(object)]. *)
Lemma find_index (l : list nat) a (k : nat) :
  match find (fun '(_, b) => Nat.eqb a b) (imap (fun i b => ((i + k)%nat, b)) l) with
  | Some (i, _) => (k <= i)%nat /\ l !! (i - k)%nat = Some a
  | None => a ∉ l
  end.
Proof.
  revert k. induction l as [|b l IH]; intros k; cbn; [by apply not_elem_of_nil|].
  destruct (Nat.eqb a b) eqn:E; [apply Nat.eqb_eq in E as ->; split; [lia|]; by replace (k - k)%nat with 0%nat by lia|].
  apply Nat.eqb_neq in E. specialize (IH (S k)).
  rewrite (imap_ext _ (fun i b => ((i + S k)%nat, b))) by (intros; cbn; f_equal; lia).
  destruct (find _ _) as [[i b']|]; [|by apply not_elem_of_cons].
  destruct IH as [H1 H2]. split; [lia|]. replace (i - k)%nat with (S (i - S k)) by lia. done.
Qed.

(** ** What [inspectNode] finds *)

Definition add_edge (E : edge -> Prop) (e : edge) : edge -> Prop := fun e' => E e' \/ e' = e.

(** The result of a call for an occurrence of [x] in [par]. *)
Definition inspected_after (par : option nat) (l : list jsval) (E : edge -> Prop) (st st' : list nat * list nat) : Prop :=
  exists E', inspected E' st' /\ grows E E' st st' /\ forall a, Ref a ∈ l -> E' (par, a).

Lemma revisit E par a i st (st' := if bool_decide (i ∈ st.2) then st else (st.1, st.2 ++ [i])) :
  inspected E st -> st.1 !! i = Some a -> inspected_after par [Ref a] E st st'.
Proof.
  intros [H1 H2 H3] Hi.
  assert (E1 : st'.1 = st.1) by (unfold st'; by destruct (bool_decide _)).
  assert (E2 : i ∈ st'.2 /\ forall j, j ∈ st.2 -> j ∈ st'.2).
  { unfold st'. destruct (bool_decide (i ∈ st.2)) eqn:E0; breflect; [done|]. cbn. set_solver. }
  assert (E3 : forall j, j ∈ st'.2 -> j ∈ st.2 \/ j = i).
  { unfold st'. destruct (bool_decide (i ∈ st.2)); cbn; set_solver. }
  exists (add_edge E (par, a)). split; [split|split].
  - intros e [He | ->]; rewrite E1; [by apply H1 | by eapply list_elem_of_lookup_2].
  - intros e1 e2 He1 He2 Ht Hne. destruct (decide (e1.2 = a)) as [Ea | Ha].
    { exists i. rewrite E1, Ea. split; [exact (proj1 E2) | exact Hi]. }
    destruct He1 as [He1 | ->]; [|done]. destruct He2 as [He2 | ->]; [|done].
    destruct (H2 e1 e2 He1 He2 Ht Hne) as (j & Hj1 & Hj2). exists j. rewrite E1. split; [by apply (proj2 E2) | done].
  - apply Forall_elem. intros j Hj. rewrite E1. destruct (E3 j Hj) as [Hj' | ->]; [|by eapply lookup_lt_Some].
    rewrite Forall_elem in H3. by apply H3.
  - split; [by left | exists []; by rewrite app_nil_r | exact (proj2 E2) |].
    intros q b Hq Hn. by rewrite E1 in Hq.
  - intros b Hb. apply list_elem_of_singleton in Hb as [= ->]. by right.
Qed.

Lemma first_visit E par a st :
  inspected E st -> a ∉ st.1 -> inspected (add_edge E (par, a)) (st.1 ++ [a], st.2).
Proof.
  intros [H1 H2 H3] Hn. split; cbn [fst snd].
  - intros e [He | ->]; apply elem_of_app; [left; by apply H1 | right; by left].
  - assert (Hnew : forall e, E e -> e.2 <> a) by (intros e He He'; apply Hn; rewrite <- He'; by apply H1).
    intros e1 e2 [He1 | ->] [He2 | ->] Ht Hne; [| by destruct (Hnew _ He1) | by destruct (Hnew _ He2) | done].
    destruct (H2 e1 e2 He1 He2 Ht Hne) as (j & Hj1 & Hj2). exists j. split; [done|]. by apply lookup_app_l_Some.
  - eapply Forall_impl; [|exact H3]. intros j Hj. cbn beta in *. rewrite length_app. cbn [length]. lia.
Qed.

(** [inspectNode] ends; an object with two occurrences is found. *)
Lemma inspectNode_spec fuel : forall par x E st,
  inspected E st -> (left st < fuel)%nat ->
  finishes (inspectNode fuel h x st) (inspected_after par [x] E st).
Proof.
  induction fuel as [|fuel IH]; intros par x E st HE Hf; [lia|]. cbn [inspectNode].
  destruct x as [v|a].
  { exists E. split; [done|]. split; [apply grows_refl|]. intros b Hb. by apply list_elem_of_singleton in Hb. }
  pose proof (find_index st.1 a 0) as Hfind.
  rewrite (imap_ext _ (fun i b => (i, b))) in Hfind by (intros; cbn; f_equal; lia).
  destruct (find _ _) as [[i b]|].
  { destruct Hfind as [_ Hi]. rewrite Nat.sub_0_r in Hi. by apply revisit. }
  pose proof (first_visit E par a st HE Hfind) as HE0. set (E0 := add_edge E (par, a)) in *.
  assert (Hnew : forall E' st', inspected E' st' -> grows E0 E' (st.1 ++ [a], st.2) st' ->
            (forall b, child_edge a b -> E' (Some a, b)) -> inspected_after par [Ref a] E st st').
  { intros E' st' HE' [G1 [l G2] G3 G4] Hch. exists E'. split; [done|]. split.
    - split; [intros e He; apply G1; by left | exists (a :: l); rewrite G2; cbn [fst]; by rewrite <- app_assoc | done |].
      intros q b Hq Hn Hc. destruct (decide (q = a)) as [-> | Hne]; [by apply Hch|].
      apply G4; [done | cbn | done]. rewrite elem_of_app, list_elem_of_singleton. tauto.
    - intros b Hb. apply list_elem_of_singleton in Hb as [= ->]. apply G1. by right. }
  destruct (h !! a) as [c|] eqn:Ha.
  2: { apply (Hnew E0); [done | apply grows_refl|]. intros b (c & Hc & _). by rewrite Ha in Hc. }
  pose proof (left_visit st a st.2 (lookup_lt_Some _ _ _ Ha) Hfind) as Hl.
  eapply finishes_weaken with (P := inspected_after (Some a) (children c) E0 (st.1 ++ [a], st.2)).
  2: { intros st' (E' & HE' & HG & Hc). apply (Hnew E'); [done..|]. intros b (c' & Hc' & Hb).
       rewrite Ha in Hc'. injection Hc' as <-. by apply Hc. }
  assert (Hf0 : (left (st.1 ++ [a], st.2) < fuel)%nat) by lia.
  clear -IH HE0 Hf0. revert HE0 Hf0. generalize E0 as E1, (st.1 ++ [a], st.2) as s1. clear E0.
  induction (children c) as [|x l IHl]; intros E1 s1 HE1 Hf1.
  - exists E1. split; [done|]. split; [apply grows_refl|]. by intros b ?%not_elem_of_nil.
  - eapply finishes_bind; [by apply (IH (Some a) x E1 s1)|]. intros s2 (E2 & HE2 & HG2 & Hx).
    eapply finishes_weaken; [apply (IHl E2 s2 HE2)|]; [apply left_le in HG2; lia|].
    intros s3 (E3 & HE3 & HG3 & Hl3). exists E3. split; [done|]. split; [by eapply grows_trans|].
    intros b [<- | Hb]%elem_of_cons; [|by apply Hl3]. apply (g_edges _ _ _ _ HG3), Hx. by left.
Qed.

(** Everything the dumper relies on of [state.duplicates]: an object that has
    two occurrences among the root and the children of reachable objects. *)
Definition duplicates_ok (root : jsval) (duplicates : list nat) : Prop :=
  exists E : edge -> Prop, (forall a, root = Ref a -> E (None, a)) /\
    (forall e a, E e -> child_edge e.2 a -> E (Some e.2, a)) /\
    (forall e1 e2, E e1 -> E e2 -> e1.2 = e2.2 -> e1 <> e2 -> e1.2 ∈ duplicates).

Lemma getDuplicateReferences_ok fuel root :
  (length h < fuel)%nat -> finishes (getDuplicateReferences fuel h root) (duplicates_ok root).
Proof.
  intros Hf. unfold getDuplicateReferences.
  assert (H0 : inspected (fun _ => False) ([], [])) by (split; try done; constructor).
  eapply finishes_bind; [apply (inspectNode_spec fuel None root _ _ H0)|].
  - unfold left. pose proof (filter_length_le (fun a => negb (bool_decide (a ∈ @nil nat))) (seq 0 (length h))) as Hl.
    rewrite length_seq in Hl. cbn [fst]. lia.
  - intros [objs idx] (E & [H1 H2 H3] & [_ _ _ H4] & Hroot). exists E. split; [|split].
    + intros a ->. apply Hroot. by left.
    + intros e a He Hc. apply H4; [by apply H1 | apply not_elem_of_nil | done].
    + intros e1 e2 He1 He2 Ht Hne. destruct (H2 e1 e2 He1 He2 Ht Hne) as (i & Hi & Hl).
      apply list_elem_of_In, in_map_iff. exists i. cbn [fst snd] in *. rewrite Hl. split; [done | by apply list_elem_of_In].
Qed.
End Inspect.

Section Write.
Context (state : dstate) (h : heap) (root : jsval) (duplicates : list nat).
Context (Hdup : duplicates_ok h root duplicates).

(** The functions of the types do not run out of fuel. *)
Definition gentle_representer (t : ytype) : Prop :=
  match represent t with
  | Some (ByStyle l) => Forall (fun e => forall v, e.2 v <> Err OutOfFuel) l
  | Some (ByFunction f) => forall v s, f v s <> Err OutOfFuel
  | None => True
  end.

Context (Hgentle : Forall gentle_representer (d_implicitTypes state) /\ Forall gentle_representer (d_explicitTypes state)).

(** ** The path from the root *)

(** [x] is reached through the cells [stk], the last one first. *)
Fixpoint on_path (stk : list nat) (x : jsval) : Prop :=
  match stk with
  | [] => x = root
  | q :: stk => (exists c, h !! q = Some c /\ x ∈ children c) /\ on_path stk (Ref q)
  end.

Lemma path_edge (E : edge -> Prop) stk a :
  (forall a, root = Ref a -> E (None, a)) -> (forall e a, E e -> child_edge h e.2 a -> E (Some e.2, a)) ->
  on_path stk (Ref a) -> E (head stk, a).
Proof.
  intros H1 H2. revert a. induction stk as [|q stk IH]; intros a; cbn; [by intros <-; apply H1 | intros [Hc Hq]].
  apply (H2 (head stk, q)); [by apply IH | exact Hc].
Qed.

(** An object that is reached through itself has two occurrences. *)
Lemma path_repeat stk a : on_path stk (Ref a) -> NoDup stk -> a ∈ stk -> a ∈ duplicates.
Proof.
  destruct Hdup as (E & H1 & H2 & H3). intros Hp Hnd Hin.
  assert (Hsuf : forall S1 S2 x, on_path (S1 ++ a :: S2) x -> on_path S2 (Ref a)).
  { induction S1 as [|q S1 IH]; intros S2 x; cbn; [by intros [_ ?] | intros [_ ?]; by eapply IH]. }
  apply list_elem_of_split in Hin as (S1 & S2 & ->).
  apply (H3 (head (S1 ++ a :: S2), a) (head S2, a)); [by apply path_edge | eapply path_edge; [done..|by eapply Hsuf] | done |].
  intros [= Hh]. destruct S2 as [|s2 S2]; [by destruct S1|].
  apply list.NoDup_app in Hnd as (_ & Hd & Hnd2). destruct S1 as [|s1 S1]; cbn in Hh; injection Hh as ->.
  - apply list.NoDup_cons in Hnd2 as [Hn _]. apply Hn. by left.
  - apply (Hd s2); [by left | right; by left].
Qed.

Lemma path_valid stk x : on_path stk x -> Forall (fun q => q < length h)%nat stk.
Proof.
  revert x. induction stk as [|q stk IH]; intros x; cbn; [constructor | intros [(c & Hc & _) Hp]].
  constructor; [by eapply lookup_lt_Some | by eapply IH].
Qed.

Lemma path_length stk x : on_path stk x -> NoDup stk -> (length stk <= length h)%nat.
Proof.
  intros Hp%path_valid Hnd. rewrite <- (length_seq (length h) 0). apply NoDup_incl_length; [by apply NoDup_ListNoDup|].
  intros q Hq%list_elem_of_In. rewrite Forall_elem in Hp. specialize (Hp q Hq). apply in_seq. lia.
Qed.

Lemma duplicate_index_spec a :
  match duplicate_index duplicates a with Some _ => True | None => a ∉ duplicates end.
Proof.
  unfold duplicate_index. pose proof (find_index duplicates a 0) as H.
  rewrite (imap_ext _ (fun i b => (i, b))) in H by (intros; cbn; f_equal; lia).
  destruct (find _ _) as [[i b]|]; [done | exact H].
Qed.

(** ** The functions that do not call [writeNode] *)

Lemma detect_in_finishes explicit l v : Forall gentle_representer l -> finishes (detect_in state explicit l v) (fun _ => True).
Proof.
  induction 1 as [|t l Ht _ IH]; cbn [detect_in]; [done|]. unfold gentle_representer in Ht.
  destruct (detects t) as [p|]; [|exact IH]. destruct (p v); [|exact IH].
  destruct (represent t) as [[tab|f]|]; [| |done].
  - match goal with |- context [obj_lookup ?k tab] => destruct (obj_lookup k tab) as [g|] eqn:E end; [|done].
    eapply finishes_bind with (P := fun _ => True); [|done].
    rewrite Forall_elem in Ht. apply obj_lookup_In in E. specialize (Ht _ E v). cbn in Ht.
    destruct (g v); cbn; [done | congruence].
  - eapply finishes_bind with (P := fun _ => True); [|done].
    match goal with |- finishes (f v ?s) _ => specialize (Ht v s); destruct (f v s) end; cbn; [done | congruence].
Qed.

Lemma detectType_finishes v : finishes (detectType state v) (fun _ => True).
Proof.
  destruct Hgentle as [H1 H2]. unfold detectType.
  eapply finishes_bind; [by apply detect_in_finishes|]. intros [r|] _; [done | by apply detect_in_finishes].
Qed.

Lemma escapeString_finishes s : finishes (escapeString s) (fun _ => True).
Proof.
  induction s as [|c s IH]; cbn [escapeString]; [done|].
  eapply finishes_bind with (P := fun _ => True).
  - destruct (escape_of c); [done|]. destruct (isPrintable c); [done|]. unfold encodeHex.
    eapply finishes_bind with (P := fun _ => True); [repeat case_goal; done | by intros []].
  - intros e _. eapply finishes_bind; [exact IH | done].
Qed.

Lemma writeScalar_finishes s level iskey : finishes (writeScalar state s level iskey) (fun _ => True).
Proof.
  unfold writeScalar. do 2 (case_goal; [done|]). cbv zeta. case_goal; try done.
  eapply finishes_bind; [apply escapeString_finishes | done].
Qed.

Lemma key_order_finishes keys : finishes (key_order state keys) (fun _ => True).
Proof. unfold key_order. by destruct (sortKeys state). Qed.

(** ** The loops over the children *)

Section Loops.
Context (wn : Z -> jsval -> bool -> bool -> bool -> list nat -> res written).
Context (xs : list jsval) (used0 : list nat).
Context (Hwn : forall level x b c k used, (exists v, x = Prim v) \/ x ∈ xs -> used0 ⊆ used ->
  finishes (wn level x b c k used) (fun w => used ⊆ usedDuplicates w)).

Definition keeps (r : res (jstr * list nat)) : Prop := finishes r (fun w => used0 ⊆ w.2).

Lemma flow_sequence_finishes level l : forall first result used,
  l ⊆ xs -> used0 ⊆ used -> keeps (flow_sequence_loop wn level l first result used).
Proof.
  induction l as [|x l IH]; intros first result used Hl Hu; [done|]. cbn [flow_sequence_loop].
  eapply finishes_bind; [apply Hwn; [right; apply Hl; by left | done]|].
  intros w Hw. apply IH; [set_solver | by etransitivity].
Qed.

Lemma block_sequence_finishes level compact l : forall first result used,
  l ⊆ xs -> used0 ⊆ used -> keeps (block_sequence_loop state wn level compact l first result used).
Proof.
  induction l as [|x l IH]; intros first result used Hl Hu; [done|]. cbn [block_sequence_loop].
  eapply finishes_bind; [apply Hwn; [right; apply Hl; by left | done]|].
  intros w Hw. apply IH; [set_solver | by etransitivity].
Qed.

(** A value of a mapping: a child, or [undefined] for a key that [sortKeys] made up. *)
Definition mapped (o : list (jstr * jsval)) : Prop := Forall (fun kx => (exists v, kx.2 = Prim v) \/ kx.2 ∈ xs) o.

Lemma flow_mapping_finishes level o : forall first result used,
  mapped o -> used0 ⊆ used -> keeps (flow_mapping_loop wn level o first result used).
Proof.
  induction o as [|[k x] o IH]; intros first result used Ho Hu; [done|]. cbn [flow_mapping_loop].
  apply Forall_cons_iff in Ho as [Hx Ho].
  eapply finishes_bind; [apply Hwn; [left; by eexists | done]|]. intros w Hw.
  assert (used0 ⊆ usedDuplicates w) by (by etransitivity).
  destruct (w_dump w); [|by apply IH].
  eapply finishes_bind; [by apply Hwn|]. intros w' Hw'. apply IH; [done | by etransitivity].
Qed.

Lemma block_mapping_finishes level compact o : forall first result used,
  mapped o -> used0 ⊆ used -> keeps (block_mapping_loop state wn level compact o first result used).
Proof.
  induction o as [|[k x] o IH]; intros first result used Ho Hu; [done|]. cbn [block_mapping_loop].
  apply Forall_cons_iff in Ho as [Hx Ho].
  eapply finishes_bind; [apply Hwn; [left; by eexists | done]|]. intros w Hw.
  assert (used0 ⊆ usedDuplicates w) by (by etransitivity).
  destruct (w_dump w); [|by apply IH].
  eapply finishes_bind; [by apply Hwn|]. intros w' Hw'. apply IH; [done | by etransitivity].
Qed.

Lemma write_collection_finishes level c block compact dup :
  children c = xs -> finishes (write_collection state wn level c block compact dup used0) (fun w => used0 ⊆ w.2).
Proof.
  intros Hc. unfold write_collection.
  assert (Hpass : forall r f, (forall w : jstr * list nat, (f w).2 = w.2) -> keeps r ->
            finishes (w <-? r; Ok (f w)) (fun w : jstr * list nat => used0 ⊆ w.2)).
  { intros r f Hf Hr. eapply finishes_bind; [exact Hr|]. intros w Hw. cbn. by rewrite Hf. }
  assert (Hend : forall r (f : jstr -> jstr), keeps r -> keeps ('(result, used) <-? r; Ok (f result, used))).
  { intros r f Hr. eapply finishes_bind; [exact Hr|]. by intros [? ?]. }
  destruct c as [l|o|v]; [| |done]; cbn [children] in Hc.
  - destruct (block && _); (apply Hpass; [done|]).
    + unfold writeBlockSequence. apply Hend, block_sequence_finishes; by rewrite ?Hc.
    + unfold writeFlowSequence. apply Hend, flow_sequence_finishes; by rewrite ?Hc.
  - assert (Ho : mapped o).
    { apply Forall_elem. intros [k x] Hx. right. rewrite <- Hc. by apply (list_elem_of_fmap_2 snd) in Hx. }
    destruct (block && _); (apply Hpass; [done|]).
    + unfold writeBlockMapping. eapply finishes_bind; [apply key_order_finishes|]. intros keys _.
      apply Hend, block_mapping_finishes; [|done]. apply Forall_map, Forall_elem. intros k _. cbn.
      destruct (obj_lookup k o) eqn:E; cbn; [|left; by eexists].
      apply obj_lookup_In in E. unfold mapped in Ho. rewrite Forall_elem in Ho. by apply (Ho (k, j)).
    + unfold writeFlowMapping. by apply Hend, flow_mapping_finishes.
Qed.
End Loops.

(** ** [writeNode] *)

(** The duplicates on the path have been written with an anchor. *)
Definition anchored (stk used : list nat) : Prop :=
  forall a i, a ∈ stk -> duplicate_index duplicates a = Some i -> i ∈ used.

(** The text of a node that is no collection. *)
Lemma write_leaf_finishes tag_ dump_ v level iskey used :
  finishes
    match (match dump_ with Some d => VStr d | None => v end) with
    | VStr s =>
        d <-? (if match tag_ with Some t => streq t (u "?") | None => false end then Ok s else writeScalar state s level iskey);
        Ok (Written tag_ (Some (with_tag tag_ d)) used)
    | x => if skipInvalid state then Ok (Written tag_ None used)
           else Err (YamlException (u "unacceptable kind of an object to dump " ++ class_name x) None)
    end (fun w => used ⊆ usedDuplicates w).
Proof.
  destruct (match dump_ with Some d => VStr d | None => v end);
    try (destruct (skipInvalid state); cbn; [reflexivity | discriminate]).
  eapply finishes_bind with (P := fun _ => True); [|intros ? _; cbn; reflexivity].
  destruct (match tag_ with Some t => streq t (u "?") | None => false end); [done | apply writeScalar_finishes].
Qed.

Lemma writeNode_finishes fuel : forall stk level x block compact iskey used,
  (exists v, x = Prim v) \/ on_path stk x -> NoDup stk -> Forall (fun q => q < length h)%nat stk -> anchored stk used ->
  (length h < fuel + length stk)%nat ->
  finishes (writeNode fuel state h duplicates level x block compact iskey used) (fun w => used ⊆ usedDuplicates w).
Proof.
  induction fuel as [|fuel IH]; intros stk level x block compact iskey used Hx Hnd Hval Hanc Hf.
  { assert (Hl : (length stk <= length (seq 0 (length h)))%nat).
    { apply NoDup_incl_length; [by apply NoDup_ListNoDup|]. intros q Hq%list_elem_of_In.
      rewrite Forall_elem in Hval. specialize (Hval q Hq). cbn in Hval. apply in_seq. lia. }
    rewrite length_seq in Hl. lia. }
  cbn [writeNode]. unfold write_node. eapply finishes_bind; [apply detectType_finishes|]. intros r _. cbv zeta.
  destruct (collection_of h x _) as [[a c]|] eqn:Ec; [|apply write_leaf_finishes].
  assert (Ha : x = Ref a /\ h !! a = Some c).
  { unfold collection_of in Ec. destruct x as [v|b]; [done|].
    destruct (match r with Some (_, d) => d | None => None end); [done|].
    destruct (h !! b) as [[l|o|v]|] eqn:Eb; try done; injection Ec as <- <-; done. }
  destruct Ha as [-> Ha]. destruct Hx as [[v Hv]|Hx]; [done|].
  (* the children, once it is known that [a] is not on the path *)
  assert (Hchild : forall used1, a ∉ stk -> anchored (a :: stk) used1 ->
            forall level x b c' k used', (exists v, x = Prim v) \/ x ∈ children c -> used1 ⊆ used' ->
            finishes (writeNode fuel state h duplicates level x b c' k used') (fun w => used' ⊆ usedDuplicates w)).
  { intros used1 Hn Hanc1 level' x b c' k used' Hx' Hu. apply (IH (a :: stk)).
    - destruct Hx' as [Hx' | Hx']; [by left|]. right. cbn. split; [by exists c | done].
    - by apply list.NoDup_cons.
    - apply Forall_cons_iff. split; [by eapply lookup_lt_Some | done].
    - intros a' i Ha' Hi. by apply Hu, (Hanc1 a').
    - cbn [length]. lia. }
  pose proof (duplicate_index_spec a) as Hspec.
  destruct (duplicate_index duplicates a) as [i|] eqn:Ei.
  - destruct (bool_decide (i ∈ used)) eqn:Eu; [cbn; reflexivity|]. breflect.
    assert (Hn : a ∉ stk) by (intros Hin; by apply Eu, (Hanc a)).
    eapply finishes_bind; [eapply write_collection_finishes; [|done]|].
    + apply Hchild; [done|]. intros a' j Ha' Hj. apply elem_of_app.
      apply elem_of_cons in Ha' as [-> | Ha']; [right | left; by apply (Hanc a')].
      rewrite Ei in Hj. injection Hj as <-. by left.
    + intros [d used'] Hu. cbn in *. set_solver.
  - assert (Hn : a ∉ stk) by (intros Hin; apply Hspec; by eapply path_repeat).
    eapply finishes_bind; [eapply write_collection_finishes; [|done]|].
    + apply Hchild; [done|]. intros a' j Ha' Hj.
      apply elem_of_cons in Ha' as [-> | Ha']; [by rewrite Ei in Hj | by apply (Hanc a')].
    + by intros [d used'] Hu.
Qed.
End Write.

(** The functions of the types of a schema do not run out of fuel. *)
Definition gentle_dump_schema (s : yschema) : Prop :=
  Forall gentle_representer (compiledImplicit s) /\ Forall gentle_representer (compiledExplicit s).

(** C9.  [dump] ends on every graph of objects, however its cells refer to
    each other, cycles included: unless references are turned off, neither
    the search for duplicates nor the writing of nodes runs out of a depth of
    two more than there are objects. *)
Theorem dump_terminates h input o :
  gentle_dump_schema (o_schema o) -> o_noRefs o = false -> dump h input o <> Err OutOfFuel.
Proof.
  intros Hg Hr. enough (H : finishes (dump h input o) (fun _ => True)) by (by intros E; rewrite E in H).
  unfold dump. cbv zeta. change (noRefs (State o)) with (o_noRefs o). rewrite Hr.
  eapply finishes_bind; [apply getDuplicateReferences_ok; lia|]. intros dups Hd.
  eapply finishes_bind; [|done].
  eapply (writeNode_finishes (State o) h input dups Hd Hg _ []); [by right | constructor | constructor | | cbn; lia].
  intros a i Ha. by apply not_elem_of_nil in Ha.
Qed.

Lemma gentle_dump_safe_schema : gentle_dump_schema DEFAULT_SAFE_SCHEMA.
Proof.
  split; repeat (apply Forall_cons_2; [unfold gentle_representer; cbn [represent]|]); try apply Forall_nil_2; try done.
  all: try (repeat (apply Forall_cons_2; [intros v; cbn [snd]|]); try apply Forall_nil_2); try (intros v s); try by destruct v.
  destruct v; try done. by destruct t.
Qed.

(** An array that holds itself and an object twice; the object holds the array. *)
Definition cyclic : heap := [CArr [Ref 0; Ref 1; Ref 1]; CObj [(u "k", Ref 0)]].

Lemma dump_terminates_witness :
  dump cyclic (Ref 0) safe_options
  = Ok (text_lines ["&ref_0"; "- *ref_0"; "- &ref_1"; "  k: *ref_0"; "- *ref_1"]%string)
  /\ dump cyclic (Ref 0) safe_options <> Err OutOfFuel.
Proof.
  split; [vm_compute; reflexivity|].
  apply (dump_terminates cyclic (Ref 0) safe_options); [exact gentle_dump_safe_schema | reflexivity].
Defined.
