(* ===== verification/YamlRoundTrip.v ===== *)
(** What js-yaml's dumper writes, its loader reads back: the scalar styles that
    stay on one line. *)

From Stdlib Require Import ZArith Lia List String Bool.
From stdpp Require Import base list sets list_numbers tactics.
From S2P Require Import Prelude JsNum Js Int32 YamlCommon YamlSchema YamlScanner YamlLoader YamlWriter YamlDumper.

(** A string of JavaScript: its characters are 16-bit units. *)
Definition unit16 (c : Z) : Prop := 0 <= c <= 65535.

(** ** Positions of a text in parts *)

Lemma char_at_part pre x post p : p = zlen pre -> char_at (pre ++ x :: post) p = x.
Proof. intros ->. unfold char_at. rewrite zget_app_r by lia. by rewrite Z.sub_diag. Qed.

Lemma zslice_part {A} (pre seg post : list A) a b :
  a = zlen pre -> b = zlen (pre ++ seg) -> zslice a b (pre ++ seg ++ post) = seg.
Proof.
  intros -> ->. unfold zslice. rewrite zlen_app. unfold zlen. rewrite drop_app_length' by lia.
  apply take_app_length'. lia.
Qed.

(** The text between the start of the capture and the position is appended. *)
Lemma captureSegment_part pre seg post c r a b :
  a = zlen pre -> b = zlen (pre ++ seg) -> forallb json_char seg = true ->
  captureSegment (pre ++ seg ++ post) c r a b true = Ok (r ++ seg).
Proof.
  intros Ha Hb Hs. unfold captureSegment. destruct (a <? b) eqn:E.
  - by rewrite (zslice_part pre seg post a b Ha Hb), Hs.
  - breflect. subst. rewrite zlen_app in E. destruct seg; [by rewrite app_nil_r|]. rewrite zlen_cons in E. pose proof (zlen_nonneg seg). lia.
Qed.

(** ** Hexadecimal digits *)

Lemma fromHexCode_upper c : is_digit_in 16 c = true -> fromHexCode (upper_char c) = digit_val c.
Proof.
  intros H. assert (c = 48 \/ c = 49 \/ c = 50 \/ c = 51 \/ c = 52 \/ c = 53 \/ c = 54 \/ c = 55 \/ c = 56 \/ c = 57 \/ c = 65 \/ c = 66 \/ c = 67 \/ c = 68 \/ c = 69 \/ c = 70 \/ c = 97 \/ c = 98 \/ c = 99 \/ c = 100 \/ c = 101 \/ c = 102) as Hc.
  { unfold is_digit_in, digit_of in H. repeat case_hyp H; breflect; try done; lia. }
  repeat destruct Hc as [->|Hc]; [reflexivity..|by subst].
Qed.

Lemma digit_val_hex c : is_digit_in 16 c = true -> 0 <= digit_val c < 16.
Proof. unfold is_digit_in, digit_val, digit_of. repeat case_goal; simpl; intros; breflect; lia. Qed.

(** The digits that [read_hex] reads. *)
Lemma read_hex_digits ds h c pre post :
  Forall (fun d => is_digit_in 16 d = true) ds -> position c + 1 = zlen pre ->
  0 <= h -> (h + 1) * 16 ^ zlen ds <= 2 ^ 31 ->
  read_hex (pre ++ map upper_char ds ++ post) (length ds) h c
  = Ok (fold_left (fun acc d => acc * 16 + digit_val d) ds h, move (zlen ds) c).
Proof.
  revert h c pre. induction ds as [|d ds IH]; intros h c pre Hd Hp Hh Hb; cbn [read_hex map app length fold_left].
  { destruct c. unfold move. simpl. by rewrite Z.add_0_r. }
  apply Forall_cons_iff in Hd as [Hd Hds]. pose proof (digit_val_hex d Hd) as Hv.
  assert (ch (pre ++ upper_char d :: map upper_char ds ++ post) (move 1 c) = upper_char d) as ->
    by (unfold ch; by apply char_at_part).
  rewrite fromHexCode_upper by done. rewrite (proj2 (Z.leb_le _ _)) by lia.
  rewrite zlen_cons, Z.pow_add_r in Hb by (try apply zlen_nonneg; lia). change (16 ^ 1) with 16 in Hb.
  assert (0 < 16 ^ zlen ds) by (apply Z.pow_pos_nonneg; [lia|apply zlen_nonneg]).
  rewrite shl_small by (change (2 ^ 4) with 16; nia). change (2 ^ 4) with 16.
  specialize (IH (h * 16 + digit_val d) (move 1 c) (pre ++ [upper_char d]) Hds).
  rewrite <- app_assoc in IH. cbn [app] in IH. rewrite IH.
  - f_equal. f_equal. unfold move. simpl. rewrite zlen_cons. f_equal. lia.
  - rewrite zlen_app, <- Hp. simpl. unfold zlen. simpl. lia.
  - lia.
  - nia.
Qed.

Lemma to_radix_length r n k : 2 <= r <= 36 -> 0 <= n < r ^ Z.of_nat (S k) -> (length (to_radix r n) <= S k)%nat.
Proof.
  intros Hr. revert n. induction k as [|k IH]; intros n Hn; rewrite to_radix_step by lia.
  - change (Z.of_nat 1) with 1 in Hn. rewrite Z.pow_1_r in Hn.
    replace (n <? r) with true by (symmetry; apply Z.ltb_lt; lia). done.
  - destruct (n <? r) eqn:E; breflect; [simpl; lia|]. rewrite length_app. simpl.
    specialize (IH (n / r)). rewrite Nat2Z.inj_succ, Z.pow_succ_r in Hn by lia.
    assert (0 <= n / r < r ^ Z.of_nat (S k)) as Hd.
    { split; [apply Z.div_pos; lia|]. apply Z.div_lt_upper_bound; lia. }
    specialize (IH Hd). lia.
Qed.

(** [encodeHex] of a 16-bit unit: the handle and the digits with their zeros. *)
Lemma encodeHex_unit c :
  unit16 c -> exists h ds, encodeHex c = Ok (92 :: h :: map upper_char ds)
    /\ Forall (fun d => is_digit_in 16 d = true) ds /\ digits_val 16 ds = c
    /\ escapedHexLen h = zlen ds /\ 0 < zlen ds <= 4 /\ (h = 120 \/ h = 117).
Proof.
  intros Hc. unfold unit16 in Hc. unfold encodeHex.
  assert (forall k, c < 16 ^ Z.of_nat (S k) ->
    let s := map upper_char (to_radix 16 c) in
    let ds := repeat 48 (S k - length (to_radix 16 c)) ++ to_radix 16 c in
    repeat_string [48] (Z.of_nat (S k) - zlen s) ++ s = map upper_char ds
    /\ Forall (fun d => is_digit_in 16 d = true) ds /\ digits_val 16 ds = c /\ zlen ds = Z.of_nat (S k)) as Hpad.
  { intros k Hk s ds. pose proof (to_radix_length 16 c k ltac:(lia) ltac:(lia)) as Hl.
    assert (forall n, digits_val 16 (repeat 48 n ++ to_radix 16 c) = digits_val 16 (to_radix 16 c)) as Hz.
    { intros n. unfold digits_val. rewrite fold_left_app. f_equal. induction n as [|n IHn]; [done|exact IHn]. }
    subst s ds. repeat split.
    - rewrite map_app, map_repeat, zlen_map. f_equal. unfold repeat_string, zlen.
      replace (Z.to_nat _) with (S k - length (to_radix 16 c))%nat by lia.
      generalize (S k - length (to_radix 16 c))%nat. intros n. induction n as [|n IHn]; [done|]. cbn. by f_equal.
    - apply Forall_app. split; [|apply to_radix_digits; lia]. apply Forall_elem. intros x Hx. apply list_elem_of_In, repeat_spec in Hx. by subst.
    - rewrite Hz. apply to_radix_val; lia.
    - unfold zlen. rewrite length_app, repeat_length. lia. }
  destruct (c <=? 255) eqn:E; breflect.
  - destruct (Hpad 1%nat ltac:(simpl; lia)) as (Hs & Hd & Hv & Hn). cbv zeta. cbn [res_bind].
    change (Z.of_nat 2) with 2 in *. rewrite Hs.
    eexists 120, _. split; [reflexivity|]. rewrite Hn. repeat split; try done; [by left].
  - replace (c <=? 65535) with true by (symmetry; apply Z.leb_le; lia).
    destruct (Hpad 3%nat ltac:(simpl; lia)) as (Hs & Hd & Hv & Hn). cbv zeta. cbn [res_bind].
    change (Z.of_nat 4) with 4 in *. rewrite Hs.
    eexists 117, _. split; [reflexivity|]. rewrite Hn. repeat split; try done; [by right].
Qed.

(** ** Escapes *)

Lemma escape_of_simple c e :
  escape_of c = Some e ->
  exists x, e = [92; x] /\ simpleEscapeSequence x = [c] /\ x < 256 /\ is_EOL x = false.
Proof.
  unfold escape_of. destruct (find _ _) as [[c' e']|] eqn:E; [|done]. intros [= <-].
  apply find_some in E as [Hin Heq]. simpl in Heq. breflect. subst c'.
  assert (Forall (fun ce : Z * jstr => match ce.2 with
            | [b; x] => b = 92 /\ simpleEscapeSequence x = [ce.1] /\ x < 256 /\ is_EOL x = false
            | _ => False end) ESCAPE_SEQUENCES) as Hall by (repeat constructor).
  apply (proj1 (List.Forall_forall _ _) Hall) in Hin. simpl in Hin.
  destruct e' as [|b [|x [|]]]; try done. destruct Hin as (-> & ?). by exists x.
Qed.

Lemma escapedHexLen_handle h : h = 120 \/ h = 117 ->
  (h <? 256) && negb (bool_decide (simpleEscapeSequence h = [])) = false /\ is_EOL h = false.
Proof. intros [-> | ->]; done. Qed.

(** A printable character that has no escape stands for itself. *)
Lemma isPrintable_char c : isPrintable c = true -> 32 <= c /\ is_EOL c = false /\ c <> 0.
Proof.
  intros H. assert (32 <= c) as Hc.
  { unfold isPrintable in H. repeat (apply orb_true_iff in H as [H|H]); breflect; lia. }
  split; [done|]. unfold is_EOL. rewrite (proj2 (Z.eqb_neq c 10)), (proj2 (Z.eqb_neq c 13)) by lia. split; [done|lia].
Qed.

Lemma isPrintable_json c : isPrintable c = true -> json_char c = true.
Proof.
  intros H. pose proof (isPrintable_char c H) as [Hc _]. unfold json_char.
  assert (c <= 1114111).
  { unfold isPrintable in H. repeat (apply orb_true_iff in H as [H|H]); breflect; lia. }
  rewrite (proj2 (Z.leb_le 32 c)), (proj2 (Z.leb_le c 1114111)) by lia. apply orb_true_r.
Qed.

Lemma escape_of_none c : escape_of c = None -> c <> 34 /\ c <> 92.
Proof. intros H. split; intros ->; by vm_compute in H. Qed.

(** Inside a line there is no document separator. *)
Lemma at_separator_inside input c : lineStart c < position c -> at_separator input c = false.
Proof. intros H. unfold at_separator. by rewrite (proj2 (Z.eqb_neq _ _)) by lia. Qed.

(** The steps of the loop of [readDoubleQuotedScalar]; [seg] is the part of the
    text that it has passed and not captured. *)
Section DoubleQuoted.
Context (ni : Z) (pre seg : jstr) (cs ce : Z) (c : cursor).
Context (Hseg : forallb json_char seg = true) (Hcs : cs = zlen pre) (Hp : position c = zlen (pre ++ seg)).

Lemma ch_here x rest : ch (pre ++ seg ++ x :: rest) c = x.
Proof. unfold ch. rewrite app_assoc. by apply char_at_part. Qed.

Lemma ch_next x y rest : ch (pre ++ seg ++ x :: y :: rest) (move 1 c) = y.
Proof.
  unfold ch. replace (pre ++ seg ++ x :: y :: rest) with ((pre ++ seg ++ [x]) ++ y :: rest) by (by rewrite <- !app_assoc).
  apply char_at_part. simpl. rewrite Hp, !zlen_app. change (zlen [x]) with 1. lia.
Qed.

Lemma double_end fuel r post :
  double_loop (pre ++ seg ++ 34 :: post) (S fuel) ni r cs ce c = Ok (r ++ seg, move 1 c).
Proof. cbn [double_loop]. rewrite ch_here. cbn. by rewrite (captureSegment_part pre seg). Qed.

Lemma double_char fuel r x rest :
  isPrintable x = true -> escape_of x = None -> lineStart c < position c ->
  double_loop (pre ++ seg ++ x :: rest) (S fuel) ni r cs ce c
  = double_loop (pre ++ (seg ++ [x]) ++ rest) fuel ni r cs (position c + 1) (move 1 c).
Proof.
  intros Hx He Hl. destruct (isPrintable_char x Hx) as (_ & Hxe & Hx0). destruct (escape_of_none x He) as [H34 H92].
  cbn [double_loop]. rewrite ch_here.
  rewrite (proj2 (Z.eqb_neq _ _) Hx0), (proj2 (Z.eqb_neq _ _) H34), (proj2 (Z.eqb_neq _ _) H92), Hxe.
  rewrite at_separator_inside by done. by rewrite <- app_assoc.
Qed.

Lemma double_escape fuel r x y rest :
  simpleEscapeSequence y = [x] -> y < 256 -> is_EOL y = false ->
  double_loop (pre ++ seg ++ 92 :: y :: rest) (S fuel) ni r cs ce c
  = double_loop ((pre ++ seg ++ [92; y]) ++ [] ++ rest) fuel ni (r ++ seg ++ [x]) (position c + 2) (position c + 2) (move 2 c).
Proof.
  intros Hy Hy2 Hye. cbn [double_loop]. rewrite ch_here, ch_next.
  change (92 =? 0) with false. change (92 =? 34) with false. change (92 =? 92) with true. cbv iota.
  rewrite (captureSegment_part pre seg) by done. cbn [res_bind].
  rewrite Hye, (proj2 (Z.ltb_lt _ _) Hy2), Hy. cbn -[double_loop]. rewrite <- !app_assoc. cbn [app].
  unfold move; simpl; by rewrite <- !Z.add_assoc.
Qed.

Lemma double_hex fuel r h ds rest :
  h = 120 \/ h = 117 -> escapedHexLen h = zlen ds -> 0 < zlen ds <= 4 ->
  Forall (fun d => is_digit_in 16 d = true) ds -> unit16 (digits_val 16 ds) ->
  let q := position c + zlen ds + 2 in
  double_loop (pre ++ seg ++ 92 :: h :: map upper_char ds ++ rest) (S fuel) ni r cs ce c
  = double_loop ((pre ++ seg ++ 92 :: h :: map upper_char ds) ++ [] ++ rest) fuel ni (r ++ seg ++ [digits_val 16 ds]) q q
      (move (zlen ds + 2) c).
Proof.
  intros Hh Hlen Hn Hds Hv q. destruct (escapedHexLen_handle h Hh) as [Hsim Hhe].
  cbn [double_loop]. rewrite ch_here, ch_next.
  change (92 =? 0) with false. change (92 =? 34) with false. change (92 =? 92) with true. cbv iota.
  rewrite (captureSegment_part pre seg) by done. cbn [res_bind]. rewrite Hhe, Hsim, Hlen, (proj2 (Z.ltb_lt _ _)) by lia.
  replace (pre ++ seg ++ 92 :: h :: map upper_char ds ++ rest) with ((pre ++ seg ++ [92; h]) ++ map upper_char ds ++ rest)
    by (by rewrite <- !app_assoc).
  replace (Z.to_nat (zlen ds)) with (length ds) by (unfold zlen; lia).
  rewrite read_hex_digits; [|done|..].
  - cbn [res_bind fst snd]. change (fold_left _ ds 0) with (digits_val 16 ds).
    assert (charFromCodepoint (digits_val 16 ds) = [digits_val 16 ds]) as ->.
    { unfold charFromCodepoint, unit16 in *. rewrite (proj2 (Z.leb_le _ _)) by lia. by rewrite Z.mod_small by lia. }
    rewrite <- !app_assoc. cbn [app].
    assert (move 1 (move (zlen ds) (move 1 c)) = move (zlen ds + 2) c) as -> by (unfold move; simpl; f_equal; lia).
    subst q. simpl. by rewrite Z.add_assoc.
  - simpl. rewrite Hp, !zlen_app. change (zlen [92; h]) with 2. lia.
  - lia.
  - assert (16 ^ zlen ds <= 16 ^ 4) by (apply Z.pow_le_mono_r; lia). lia.
Qed.
End DoubleQuoted.

(** The loop reads an escaped text. *)
Lemma double_loop_reads s e fuel ni r pre seg post cs ce c :
  escapeString s = Ok e -> Forall unit16 s -> forallb json_char seg = true ->
  cs = zlen pre -> position c = zlen (pre ++ seg) -> lineStart c < position c -> zlen e < Z.of_nat fuel ->
  double_loop (pre ++ seg ++ e ++ 34 :: post) fuel ni r cs ce c = Ok (r ++ seg ++ s, move (zlen e + 1) c).
Proof.
  revert e fuel r pre seg cs ce c. induction s as [|x s IH]; intros e fuel r pre seg cs ce c He Hs Hseg Hcs Hp Hl Hf;
    (destruct fuel as [|fuel]; [pose proof (zlen_nonneg e); lia|]).
  { injection He as <-. cbn [app]. rewrite double_end by done. by rewrite app_nil_r. }
  cbn [escapeString] in He. apply res_bind_ok in He as (ex & Hx & (e' & He' & [= <-])%res_bind_ok).
  apply Forall_cons_iff in Hs as [Hx16 Hs]. rewrite zlen_app in Hf |- *. rewrite <- app_assoc.
  assert (forall d pre' seg' r' cs' ce', zlen ex = d -> r' ++ seg' = r ++ seg ++ [x] -> forallb json_char seg' = true ->
            cs' = zlen pre' -> position c + d = zlen (pre' ++ seg') -> 0 < d ->
            double_loop (pre' ++ seg' ++ e' ++ 34 :: post) fuel ni r' cs' ce' (move d c)
            = Ok (r ++ seg ++ x :: s, move (zlen ex + zlen e' + 1) c)) as Hnext.
  { intros d pre' seg' r' cs' ce' Hd Hr Hs' Hc' Hp' Hd0. rewrite (IH e'); [|done|done|done|done|done|simpl; lia|lia].
    rewrite app_assoc, Hr, <- !app_assoc. f_equal. f_equal. unfold move. simpl. f_equal. lia. }
  destruct (escape_of x) as [esc|] eqn:Ee; [|destruct (isPrintable x) eqn:Epr].
  - injection Hx as <-. destruct (escape_of_simple x esc Ee) as (y & -> & Hy & Hy2 & Hye). cbn [app].
    rewrite (double_escape ni pre seg cs ce c Hseg Hcs Hp fuel r x) by done.
    apply Hnext; try done; rewrite ?app_nil_r, ?Hp; [done|autorewrite with zlen; lia..].
  - injection Hx as <-. cbn [app]. rewrite double_char by done.
    apply Hnext; try done; rewrite ?forallb_app, ?Hseg; simpl; rewrite ?isPrintable_json by done; try done.
    rewrite Hp. autorewrite with zlen. lia.
  - destruct (encodeHex_unit x Hx16) as (h & ds & Hh & Hds & Hv & Hlen & Hn & Hhh).
    rewrite Hh in Hx. injection Hx as <-. rewrite <- Hv in Hx16. cbn [app].
    rewrite (double_hex ni pre seg cs ce c Hseg Hcs Hp fuel r h) by done. rewrite Hv.
    apply Hnext; try done; rewrite ?app_nil_r, ?Hp; try done; autorewrite with zlen; lia.
Qed.

(** ** Single quotes *)

Lemma isPrintable_unquoted x : isPrintable x = true -> (x =? 39) = false -> double_quotes [x] = [x].
Proof. unfold double_quotes. simpl. by intros _ ->. Qed.

(** The loop of [readSingleQuotedScalar] reads a text with its quotes
    doubled. *)
Lemma single_loop_reads s fuel ni r pre seg x post cs ce c :
  Forall (fun c => isPrintable c = true) s -> forallb json_char seg = true -> x <> 39 ->
  cs = zlen pre -> position c = zlen (pre ++ seg) -> lineStart c < position c -> zlen s < Z.of_nat fuel ->
  single_loop (pre ++ seg ++ double_quotes s ++ 39 :: x :: post) fuel ni r cs ce c
  = Ok (r ++ seg ++ s, move (zlen (double_quotes s) + 1) c).
Proof.
  revert fuel r pre seg cs ce c. induction s as [|y s IH]; intros fuel r pre seg cs ce c Hs Hseg Hx Hcs Hp Hl Hf;
    (destruct fuel as [|fuel]; [unfold zlen in Hf; lia|]); cbn [single_loop].
  { cbn [double_quotes map concat app]. rewrite (ch_here pre seg c Hp). cbn -[captureSegment].
    rewrite (captureSegment_part pre seg) by done. cbn [res_bind].
    rewrite (ch_next pre seg c Hp), (proj2 (Z.eqb_neq _ _) Hx). by rewrite app_nil_r. }
  apply Forall_cons_iff in Hs as [Hy Hs]. destruct (isPrintable_char y Hy) as (_ & Hye & Hy0). rewrite zlen_cons in Hf.
  unfold double_quotes. cbn [map concat]. fold (double_quotes s). destruct (y =? 39) eqn:E39; breflect.
  - subst y. cbn [app]. rewrite (ch_here pre seg c Hp). change (39 =? 0) with false. change (39 =? 39) with true. cbv iota.
    rewrite (captureSegment_part pre seg) by done. cbn [res_bind]. rewrite (ch_next pre seg c Hp). change (39 =? 39) with true. cbv iota.
    replace (pre ++ seg ++ 39 :: 39 :: double_quotes s ++ 39 :: x :: post)
      with ((pre ++ seg ++ [39]) ++ [39] ++ double_quotes s ++ 39 :: x :: post) by (by rewrite <- !app_assoc).
    rewrite IH; try done; [|simpl; autorewrite with zlen in *; lia..].
    f_equal. f_equal; [by rewrite <- !app_assoc|]. autorewrite with zlen. unfold move. simpl. f_equal. lia.
  - cbn [app]. rewrite (ch_here pre seg c Hp).
    rewrite (proj2 (Z.eqb_neq _ _) Hy0), (proj2 (Z.eqb_neq _ _) E39), Hye, at_separator_inside by done.
    replace (pre ++ seg ++ y :: double_quotes s ++ 39 :: x :: post)
      with (pre ++ (seg ++ [y]) ++ double_quotes s ++ 39 :: x :: post) by (by rewrite <- !app_assoc).
    rewrite IH; try done; [|rewrite forallb_app, Hseg; simpl; by rewrite isPrintable_json
      |simpl; autorewrite with zlen in *; lia..].
    f_equal. f_equal; [by rewrite <- !app_assoc|]. autorewrite with zlen. unfold move. simpl. f_equal. lia.
Qed.

(** ** White space and the end of the text *)

(** Where content starts, no separation space is skipped. *)
Definition content_char (x : Z) : bool := negb (existsb (Z.eqb x) [0; 9; 32; 10; 13; 35]).

Lemma content_char_spec x :
  content_char x = true -> x <> 0 /\ is_WHITE_SPACE x = false /\ is_EOL x = false /\ x <> 35.
Proof.
  unfold content_char, is_WHITE_SPACE, is_EOL. simpl. intros H. breflect. repeat split; try done; apply orb_false_iff; split; by apply Z.eqb_neq.
Qed.

Lemma skip_content input ac c :
  0 <= position c -> content_char (ch input c) = true -> skipSeparationSpace input ac c = Ok (0, c).
Proof.
  intros Hp (H0 & Hw & He & H35)%content_char_spec. unfold skipSeparationSpace, enough. cbn [skip_loop].
  assert (scan_cursor input not_white c = c) as Hs.
  { assert (scan input not_white (position c) = position c) as Hsc.
    { unfold scan. unfold ch, char_at, zget in Hw, H0. destruct (position c <? 0) eqn:E; breflect; [lia|].
      replace (input !! Z.to_nat (position c)) with (drop (Z.to_nat (position c)) input !! 0%nat) in Hw
        by (rewrite lookup_drop; f_equal; lia).
      destruct (drop (Z.to_nat (position c)) input) as [|y t]; simpl in *; [lia|].
      unfold not_white. rewrite Hw. simpl. lia. }
    unfold scan_cursor, goto. rewrite Hsc. by destruct c. }
  rewrite (proj2 (Z.eqb_neq _ _) H0), Hs, (proj2 (Z.eqb_neq _ _) H35), andb_false_r. by rewrite He.
Qed.

(** The line break that ends the text. *)
Lemma scan_none input stop c : 0 <= position c -> stop (ch input c) = true -> ch input c <> -1 -> scan_cursor input stop c = c.
Proof.
  intros Hp Hs Hc. assert (scan input stop (position c) = position c) as Hsc.
  { unfold scan. unfold ch, char_at, zget in Hs, Hc. destruct (position c <? 0) eqn:E; breflect; [lia|].
    replace (input !! Z.to_nat (position c)) with (drop (Z.to_nat (position c)) input !! 0%nat) in Hs, Hc
      by (rewrite lookup_drop; f_equal; lia).
    destruct (drop (Z.to_nat (position c)) input) as [|y t]; simpl in *; [done|]. rewrite Hs. lia. }
  unfold scan_cursor, goto. rewrite Hsc. by destruct c.
Qed.

Definition end_cursor (text : jstr) (c : cursor) : cursor := Cursor (zlen text + 1) (line c + 1) (zlen text + 1) 0.

Lemma skip_last_line text ac c :
  position c = zlen text -> skipSeparationSpace (text ++ [10; 0]) ac c = Ok (1, end_cursor text c).
Proof.
  intros Hp. pose proof (zlen_nonneg text) as Hn.
  assert (ch (text ++ [10; 0]) c = 10) as H10 by (unfold ch; rewrite Hp; by apply char_at_part).
  assert (char_at (text ++ [10; 0]) (zlen text + 1) = 0) as H0.
  { replace (text ++ [10; 0]) with ((text ++ [10]) ++ [0]) by (by rewrite <- app_assoc). apply char_at_part.
    autorewrite with zlen. lia. }
  unfold skipSeparationSpace, enough. replace (length (text ++ [10; 0])) with (S (S (length text))) by (rewrite length_app; simpl; lia).
  cbn [skip_loop]. rewrite H10. change (10 =? 0) with false. cbv iota.
  rewrite (scan_none _ not_white) by (rewrite ?H10; (done || lia)). rewrite H10. change (10 =? 35) with false. rewrite andb_false_r, H10.
  change (is_EOL 10) with true. cbv iota. unfold readLineBreak. rewrite H10. cbn [res_bind Z.eqb Pos.eqb position].
  rewrite Hp. assert (scan (text ++ [10; 0]) not_space (zlen text + 1) = zlen text + 1) as Hsc.
  { pose proof (scan_none (text ++ [10; 0]) not_space (Cursor (zlen text + 1) 0 0 0) ltac:(simpl; lia)) as Hs.
    unfold ch in Hs. cbn [position] in Hs. rewrite H0 in Hs. specialize (Hs eq_refl ltac:(done)). by injection Hs. }
  cbn [position goto set_indent line lineStart lineIndent]. rewrite Hsc, Z.sub_diag.
  unfold ch. cbn [position goto set_indent]. by rewrite H0.
Qed.

(** ** Plain scalars *)

Lemma isPrintable_printable s : Forall (fun c => isPrintable c = true) s -> PATTERN_NON_PRINTABLE s = false.
Proof.
  unfold PATTERN_NON_PRINTABLE. intros Hs. assert (forall h, non_printable h s = false) as H; [|done].
  induction Hs as [|c s Hc Hs IH]; intros h; cbn [non_printable]; [done|]. rewrite IH.
  assert (is_control c = false /\ is_high c = false /\ is_low c = false) as (-> & -> & ->); [|done].
  unfold is_control, is_high, is_low, isPrintable in *.
  repeat (apply orb_true_iff in Hc as [Hc|Hc]); breflect; repeat split;
    rewrite ?orb_false_iff, ?andb_false_iff, ?Z.leb_gt, ?Z.eqb_neq; repeat split; lia.
Qed.

Lemma isPlainSafe_spec c :
  isPlainSafe c = true -> isPrintable c = true /\ c <> 58 /\ c <> 35 /\ is_FLOW_INDICATOR c = false.
Proof.
  unfold isPlainSafe, is_FLOW_INDICATOR. simpl. intros H. breflect.
  repeat split; try done. repeat rewrite orb_false_iff. repeat split; by apply Z.eqb_neq.
Qed.

Definition plain_text (s : jstr) : Prop := Forall (fun c => isPlainSafe c = true) s.

Lemma plain_printable s : plain_text s -> Forall (fun c => isPrintable c = true) s.
Proof. apply Forall_impl. intros c Hc. by apply isPlainSafe_spec. Qed.

(** The end of a plain scalar at the end of the text. *)
Lemma plain_end_reads text fuel w c :
  text <> [] -> plain_text text -> position c = zlen text -> lineStart c < position c ->
  plain_loop (text ++ [10; 0]) (S (S fuel)) 0 w [] 0 (zlen text) None c = Ok (text, end_cursor text c).
Proof.
  intros Hne Hs Hp Hl. cbn [plain_loop].
  assert (ch (text ++ [10; 0]) c = 10) as -> by (unfold ch; rewrite Hp; by apply char_at_part).
  change (10 =? 0) with false. change (10 =? 58) with false. change (10 =? 35) with false. cbv iota.
  rewrite at_separator_inside by done. change (is_FLOW_INDICATOR 10) with false. rewrite andb_false_r. change (is_EOL 10) with true.
  cbv iota. cbn [orb]. rewrite skip_last_line by done. cbn [res_bind].
  change (0 <=? lineIndent (end_cursor text c)) with true. cbv iota.
  assert (ch (text ++ [10; 0]) (end_cursor text c) = 0) as ->.
  { replace (text ++ [10; 0]) with ((text ++ [10]) ++ [0]) by (by rewrite <- app_assoc). apply char_at_part.
    simpl. autorewrite with zlen. lia. }
  change (0 =? 0) with true. cbv iota. unfold captureSegment.
  replace (0 <? zlen text) with true by (symmetry; apply Z.ltb_lt; destruct text; [done|]; autorewrite with zlen; pose proof (zlen_nonneg text); lia).
  rewrite (zslice_app_l text), isPrintable_printable by (by apply plain_printable). done.
Qed.

(** The loop of [readPlainScalar] reads a plain text, to the end of its last
    character that is not a space. *)
Lemma plain_loop_reads t s fuel w ce c :
  t ++ s <> [] -> plain_text (t ++ s) -> position c = zlen t -> (s = [] -> lineStart c < position c /\ ce = zlen t) ->
  (s <> [] -> at_separator ((t ++ s) ++ [10; 0]) c = false /\ isWhitespace (List.last s 0) = false) ->
  lineStart c <= position c -> zlen s + 1 < Z.of_nat fuel ->
  plain_loop ((t ++ s) ++ [10; 0]) fuel 0 w [] 0 ce None c = Ok (t ++ s, end_cursor (t ++ s) c).
Proof.
  revert t fuel ce c. induction s as [|x s IH]; intros t fuel ce c Hne Hs Hp Hnil Hcons Hl Hf.
  - destruct fuel as [|[|fuel]]; [unfold zlen in Hf; simpl in Hf; lia..|]. rewrite app_nil_r in *.
    destruct (Hnil eq_refl) as [? ->]. by apply plain_end_reads.
  - destruct fuel as [|fuel]; [pose proof (zlen_nonneg (x :: s)); lia|]. destruct (Hcons ltac:(done)) as [Hsep Hlast].
    pose proof Hs as Hsx. apply Forall_app in Hsx as [_ Hsx]. apply Forall_cons_iff in Hsx as [Hx _].
    destruct (isPlainSafe_spec x Hx) as (Hpr & H58 & H35 & Hfl). destruct (isPrintable_char x Hpr) as (_ & Hxe & Hx0).
    cbn [plain_loop]. assert (ch ((t ++ x :: s) ++ [10; 0]) c = x) as ->
      by (unfold ch; rewrite <- app_assoc; by apply char_at_part).
    rewrite (proj2 (Z.eqb_neq _ _) Hx0), (proj2 (Z.eqb_neq _ _) H58), (proj2 (Z.eqb_neq _ _) H35), Hsep, Hfl, andb_false_r, Hxe.
    cbn [orb res_bind]. replace (t ++ x :: s) with ((t ++ [x]) ++ s) in * by (by rewrite <- app_assoc).
    rewrite (IH (t ++ [x])).
    + done.
    + done.
    + done.
    + simpl. autorewrite with zlen in *. lia.
    + intros ->. simpl in Hlast. assert (is_WHITE_SPACE x = false) as ->.
      { unfold isWhitespace in Hlast. unfold is_WHITE_SPACE. by rewrite orb_comm. }
      simpl. autorewrite with zlen in *. lia.
    + intros Hsne. split; [apply at_separator_inside; simpl; lia|]. by destruct s.
    + simpl. lia.
    + autorewrite with zlen in *. lia.
Qed.

(** ** A document that is one scalar *)

Lemma composeNode_S fuel input length_ json implicitTypes typeMap pi ctx seek compact s :
  composeNode (S fuel) input length_ json implicitTypes typeMap pi ctx seek compact s
  = compose_node input length_ json implicitTypes typeMap (composeNode fuel input length_ json implicitTypes typeMap)
      pi ctx seek compact s.
Proof. reflexivity. Qed.

(** A character that starts a scalar in the flow style, and nothing else. *)
Definition scalar_start (x : Z) : bool :=
  negb (existsb (Z.eqb x) [-1; 0; 9; 10; 13; 32; 33; 35; 37; 38; 42; 45; 58; 63; 91; 123; 124; 62; 65279]).

Lemma prepare_line t : t <> [] -> (first_char t =? 65279) = false -> prepare_input (t ++ [10]) = t ++ [10].
Proof.
  unfold prepare_input. destruct t as [|x t]; [done|]. intros _ Hx. cbn [app]. rewrite app_comm_cons, last_last.
  change (is_EOL 10) with true. cbv iota. cbn [app]. change (first_char (x :: t)) with x in Hx. by rewrite Hx.
Qed.

Section Document.
Context (d v : jstr) (val : value) (tg tg' : option jstr) (c1 : cursor).
Context (Hstart : scalar_start (first_char d) = true) (Hd : d <> []).

Let input := d ++ [10; 0].
Let implicits := compiledImplicit DEFAULT_SAFE_SCHEMA.
Let types := compiledTypeMap DEFAULT_SAFE_SCHEMA.
Let c0 := Cursor 0 0 0 0.

(** The state before the node. *)
Definition node_state (version : option jstr) : lstate := LState c0 None None None VNull version [] [] [].

Context (Hc1 : c1 = Cursor (zlen d) 0 0 0 \/ c1 = Cursor (zlen d + 1) 1 (zlen d + 1) 0).
Let read := LState c1 tg None (Some scalar) (VStr v) None [] [] [].
Let node := LState c1 tg' None (Some scalar) val None [] [] [].
Context (Hres : resolve_tag implicits types read = Ok node).
Context (Hread :
  or_else never
    (or_else (scalar_reader (readSingleQuotedScalar input 0))
       (or_else (scalar_reader (readDoubleQuotedScalar input 0))
          (or_else (alias_reader input) (plain_reader input 0 false)))) (node_state None)
  = Ok (true, read)).

Lemma ch_start : ch input c0 = first_char d.
Proof. unfold ch, char_at, input. simpl. destruct d as [|x d']; [done|]. reflexivity. Qed.

Lemma not_start x : scalar_start x = false -> (first_char d =? x) = false.
Proof. intros Hx. apply Z.eqb_neq. intros He. rewrite He in Hstart. congruence. Qed.

Lemma start_content : content_char (ch input c0) = true.
Proof.
  rewrite ch_start. unfold content_char. cbn [existsb]. rewrite !not_start by done. reflexivity.
Qed.

Lemma skip_start ac : skipSeparationSpace input ac c0 = Ok (0, c0).
Proof. apply skip_content; [done|apply start_content]. Qed.

(** A test of the first character. *)
Ltac start := unfold node_state; cbn [cur res_bind fst snd]; fold c0; rewrite ?ch_start, ?not_start by done;
  cbn [negb orb andb res_bind]; cbv iota.

Lemma properties_none n pi bs nl bc ist :
  properties_loop input (zlen d + 1) (S n) pi bs nl bc ist (node_state None) = Ok (nl, bc, ist, node_state None).
Proof.
  cbn [properties_loop]. unfold readTagProperty, readAnchorProperty. start. start. reflexivity.
Qed.

Lemma read_content_scalar compose bi :
  read_content input false compose CONTEXT_FLOW_OUT false false 0 bi (node_state None) = Ok (true, read).
Proof.
  unfold read_content, or_else at 1, never at 1. cbn [res_bind]. unfold readFlowCollection. start. start.
  change (bool_decide (CONTEXT_FLOW_OUT = CONTEXT_FLOW_IN)) with false. fold c0. fold (node_state None). rewrite Hread. reflexivity.
Qed.

(** The node in the place of a key. *)
Lemma compose_scalar fuel :
  composeNode (S fuel) input (zlen d + 1) false implicits types 0 CONTEXT_FLOW_OUT false true (node_state None) = Ok (true, node).
Proof.
  cbn [composeNode]. unfold compose_node.
  change (set_node None VNull (set_anchor None (set_tag None (node_state None)))) with (node_state None).
  change (bool_decide (CONTEXT_FLOW_OUT = CONTEXT_BLOCK_OUT) || bool_decide (CONTEXT_FLOW_OUT = CONTEXT_BLOCK_IN)) with false.
  cbn [res_bind negb Z.eqb Pos.eqb]. unfold enough. rewrite properties_none. cbn [res_bind negb Z.eqb Pos.eqb orb andb].
  rewrite read_content_scalar. cbn [res_bind]. rewrite Hres. cbn [res_bind orb]. by rewrite orb_true_r.
Qed.

Let c2 := Cursor (zlen d + 1) 1 (zlen d + 1) 0.

Lemma ch_line_end : ch input (Cursor (zlen d) 0 0 0) = 10.
Proof. unfold ch, input. by apply char_at_part. Qed.

Lemma ch_end : ch input c2 = 0.
Proof.
  unfold ch, input. replace (d ++ [10; 0]) with ((d ++ [10]) ++ [0]) by (by rewrite <- app_assoc).
  apply char_at_part. subst c2. cbn. autorewrite with zlen. lia.
Qed.

Lemma separator_read : implicit_separator input false 0 node = Ok (false, node).
Proof.
  unfold implicit_separator. subst node. cbn [cur]. destruct Hc1 as [-> | ->]; cbn [line]; [|reflexivity].
  change (0 =? 0) with true. cbv iota zeta. rewrite scan_none; rewrite ?ch_line_end; try done. apply zlen_nonneg.
Qed.

(** The node read in the place of a key is the node itself. *)
Lemma mapping_scalar fuel :
  readBlockMapping input false (composeNode (S fuel) input (zlen d + 1) false implicits types) 0 0 (node_state None)
  = Ok (true, LState c1 None None (Some scalar) val None [] [] []).
Proof.
  unfold readBlockMapping, enough. cbn [st_tag st_anchor node_state name_node res_bind cur mapping_loop].
  fold c0. rewrite ch_start, !not_start by done. cbn [orb andb]. fold c0. fold (node_state None). rewrite compose_scalar.
  cbn [res_bind]. change (line c0) with 0. rewrite separator_read. reflexivity.
Qed.

Lemma sequence_none compose :
  readBlockSequence input compose 0 (node_state None) = Ok (false, node_state None).
Proof.
  unfold readBlockSequence, enough. cbn [st_tag st_anchor node_state name_node res_bind cur sequence_loop].
  fold c0. rewrite ch_start, !not_start by done. reflexivity.
Qed.

(** The node of the document. *)
Lemma compose_document fuel r :
  composeNode (S (S fuel)) input (zlen d + 1) false implicits types (-1) CONTEXT_BLOCK_OUT false true
    (LState c0 None None None r None [] [] [])
  = Ok (true, LState c1 None None (Some scalar) val None [] [] []).
Proof.
  rewrite composeNode_S. unfold compose_node.
  change (set_node None VNull (set_anchor None (set_tag None (LState c0 None None None r None [] [] [])))) with (node_state None).
  change (bool_decide (CONTEXT_BLOCK_OUT = CONTEXT_BLOCK_OUT) || bool_decide (CONTEXT_BLOCK_OUT = CONTEXT_BLOCK_IN)) with true.
  cbn [res_bind negb Z.eqb Pos.eqb]. unfold enough. rewrite properties_none. cbn [res_bind negb Z.eqb Pos.eqb orb andb].
  unfold read_content, or_else at 1, or_else at 1. cbn [cur node_state c0 position lineStart]. change (-1 + 1) with 0. change (0 - 0) with 0.
  fold c0. fold (node_state None). rewrite sequence_none. cbn [res_bind]. rewrite mapping_scalar. reflexivity.
Qed.

(** The document, and the whole text. *)
Lemma read_document : forall r,
  readDocument input (zlen d + 1) false implicits types (LState c0 None None None r None [] [] [])
  = Ok (LState c2 None None (Some scalar) val None [] [] [val]).
Proof.
  intros r. unfold readDocument.
  change (set_anchorMap [] (set_tagMap [] (set_version None (LState c0 None None None r None [] [] []))))
    with (LState c0 None None None r None [] [] []).
  unfold enough at 1. cbn [directives_loop cur]. rewrite ch_start, not_start by done. cbv iota.
  unfold skip_state at 1. cbn [cur]. rewrite skip_start. cbn [res_bind set_cur cur]. rewrite ch_start, not_start by done.
  cbn [negb]. rewrite orb_true_r. cbv iota. cbn [res_bind]. unfold skip_state at 1. cbn [cur]. rewrite skip_start. cbn [res_bind set_cur cur].
  change (char_at input (position c0)) with (ch input c0). rewrite ch_start, not_start by done. rewrite andb_false_r. cbn [andb].
  cbn [res_bind c0 lineIndent cur]. change (0 - 1) with (-1). fold c0.
  assert (exists k, (4 * enough input = S (S k))%nat) as [k ->] by (unfold enough; exists (4 * length input + 2)%nat; lia).
  rewrite compose_document. cbn [res_bind]. unfold skip_state at 1. cbn [cur].
  assert (exists n, skipSeparationSpace input true c1 = Ok (n, c2)) as [n ->].
  { destruct Hc1 as [-> | ->]; [exists 1; by apply skip_last_line|]. exists 0. unfold skipSeparationSpace, enough. cbn [skip_loop].
    fold c2. by rewrite ch_end. }
  cbn [res_bind set_cur push_document cur app].
  assert (at_separator input c2 = false) as ->.
  { unfold at_separator, testDocumentSeparator. rewrite ch_end. cbn. by rewrite andb_false_r. }
  cbn [position c2]. rewrite (proj2 (Z.ltb_ge _ _)) by lia. reflexivity.
Qed.

Lemma safeLoad_scalar : safeLoad (VStr (d ++ [10])) = Ok val.
Proof.
  unfold safeLoad. cbn [to_string res_bind]. unfold load, loadDocuments. cbn [opt_json opt_schema].
  assert (prepare_input (d ++ [10]) = d ++ [10]) as ->.
  { apply prepare_line; [done|by apply not_start]. }
  rewrite <- app_assoc. cbn [app]. fold input. rewrite zlen_app. change (zlen [10]) with 1.
  assert (scan input not_space 0 = 0) as ->.
  { pose proof (scan_none input not_space c0) as Hs. rewrite ch_start in Hs. unfold scan_cursor, goto in Hs. cbn [c0 position] in Hs.
    assert (not_space (first_char d) = true) as Hn by (unfold not_space; by rewrite not_start).
    assert (first_char d <> -1) as Hm by (apply Z.eqb_neq; by apply not_start).
    specialize (Hs ltac:(lia) Hn Hm). by injection Hs. }
  fold c0. assert (exists k, (2 * enough input = S (S k))%nat) as [k ->] by (unfold enough; exists (2 * length input)%nat; lia).
  cbn [documents_loop cur c0 position]. fold c0. pose proof (zlen_nonneg d). rewrite (proj2 (Z.ltb_lt _ _)).
  2: { assert (zlen d <> 0); [|lia]. intros Hz. apply Hd. apply length_zero_iff_nil. unfold zlen in Hz. lia. }
  change (opt_schema (LoadOptions DEFAULT_SAFE_SCHEMA false)) with DEFAULT_SAFE_SCHEMA. fold implicits. fold types.
  rewrite read_document. cbn [res_bind documents_loop cur c2 position]. rewrite (proj2 (Z.ltb_ge _ _)) by lia. reflexivity.
Qed.
End Document.

(** ** The styles of one line *)

Lemma block_line_loop_Some string w rest i p hb hf pl r :
  block_line_loop string w rest i p hb hf pl = Some r ->
  r.1.1 = hb || existsb (Z.eqb 10) rest /\ Forall (fun c => c = 10 \/ isPrintable c = true) rest
  /\ r.2 = pl && forallb isPlainSafe rest
  /\ (10 ∉ rest -> r.1.2 = hf || (negb (w =? -1) && foldable string w p (i + zlen rest))).
Proof.
  revert i p hb hf pl. induction rest as [|c rest IH]; intros i p hb hf pl; cbn [block_line_loop existsb forallb].
  { intros [= <-]. rewrite orb_false_r, andb_true_r, Z.add_0_r. repeat split. constructor. }
  rewrite (Z.eqb_sym 10 c), !andb_assoc, zlen_cons. destruct (c =? 10) eqn:E; breflect.
  - subst c. destruct (negb (w =? -1)).
    + intros (H1 & H2 & H3 & _)%IH. rewrite H1, H3, orb_true_r. repeat split; [constructor; [by left|exact H2]|].
      intros Hn. destruct Hn. by left.
    + intros (H1 & H2 & H3 & _)%IH. rewrite H1, H3, orb_true_r. repeat split; [constructor; [by left|exact H2]|].
      intros Hn. destruct Hn. by left.
  - destruct (isPrintable c) eqn:Ec; [|done]. intros (H1 & H2 & H3 & H4)%IH. rewrite H1, H3. repeat split; [by constructor; [right|]|].
    intros Hc. rewrite H4 by set_solver. by rewrite <- Z.add_assoc, (Z.add_comm 1).
Qed.

Lemma block_line_loop_None string w rest i p hb hf pl :
  block_line_loop string w rest i p hb hf pl = None <-> exists c, c ∈ rest /\ c <> 10 /\ isPrintable c = false.
Proof.
  revert i p hb hf pl. induction rest as [|c rest IH]; intros i p hb hf pl; cbn [block_line_loop].
  { split; [done|]. intros (c & Hc & _). by apply not_elem_of_nil in Hc. }
  destruct (c =? 10) eqn:E; breflect; [|destruct (isPrintable c) eqn:Ec].
  - subst c. destruct (negb (w =? -1)); rewrite IH; split; intros (x & Hx & H); exists x; split; [set_solver|done|set_solver|done|set_solver|done|set_solver|done].
  - rewrite IH. split; intros (x & Hx & H & Hp); exists x; repeat split; try done; [set_solver|].
    apply elem_of_cons in Hx as [->|]; [congruence|done].
  - split; [|done]. intros _. exists c. repeat split; try done. set_solver.
Qed.

(** A text that the dumper keeps on one line of width [w]: it has no line break
    and fits, or it has a character to escape. *)
Definition one_line_in (w : Z) (s : jstr) : Prop :=
  (10 ∉ s /\ zlen s <= w) \/ exists c, c ∈ s /\ c <> 10 /\ isPrintable c = false.

(** At the top of a document, 78 characters fit. *)
Definition one_line_text (s : jstr) : Prop := one_line_in 78 s.

(** What a style of one line tells of the text. *)
Definition style_fits (f : jstr -> bool) (s : jstr) (style : scalar_style) : Prop :=
  match style with
  | STYLE_PLAIN => isPlainSafeFirst (first_char s) = true /\ isWhitespace (List.last s (-1)) = false /\ plain_text s /\ f s = false
  | STYLE_SINGLE => Forall (fun c => isPrintable c = true) s
  | STYLE_DOUBLE => True
  | STYLE_LITERAL | STYLE_FOLDED => False
  end.

Lemma plain_or_single f s p :
  p = isPlainSafeFirst (first_char s) && negb (isWhitespace (List.last s (-1))) && forallb isPlainSafe s ->
  Forall (fun c => isPrintable c = true) s -> style_fits f s (if p && negb (f s) then STYLE_PLAIN else STYLE_SINGLE).
Proof.
  intros Hp Hall. destruct (p && negb (f s)) eqn:Ep; [|exact Hall]. apply andb_true_iff in Ep as [Ep Ef]. rewrite Hp in Ep.
  apply andb_true_iff in Ep as [Ep Hsafe]. apply andb_true_iff in Ep as [Hfirst Hlast].
  apply negb_true_iff in Ef, Hlast. repeat split; try done.
  apply Forall_elem. intros c Hc. by apply (proj1 (forallb_forall _ _) Hsafe), list_elem_of_In.
Qed.

Lemma chooseScalarStyle_one_line s w f :
  one_line_in w s -> style_fits f s (chooseScalarStyle s false 2 w f).
Proof.
  intros Hone. unfold chooseScalarStyle. set (plain := isPlainSafeFirst _ && _).
  destruct (block_line_loop s w s 0 (-1) false false plain) as [[[hb hf] p]|] eqn:E; [|done].
  destruct Hone as [[H10 Hlen]|Hbad]; [|by apply (block_line_loop_None s w s 0 (-1) false false plain) in Hbad; congruence].
  apply block_line_loop_Some in E as (Hb & Hpr & Hp & Hf). specialize (Hf H10). cbn [fst snd] in *.
  assert (hb = false) as ->.
  { rewrite Hb. cbn. apply not_true_iff_false. intros (x & Hx & Hx10)%existsb_exists. breflect. subst x. by apply H10, list_elem_of_In. }
  assert (hf = false) as ->.
  { rewrite Hf. unfold foldable. replace (w <? _) with false; [by rewrite andb_false_r|]. symmetry. apply Z.ltb_ge. lia. }
  cbn [negb andb]. apply plain_or_single; [exact Hp|].
  apply Forall_elem. intros c Hc. destruct (proj1 (Forall_elem _ _) Hpr c Hc) as [->|]; [done|done].
Qed.

(** ** What the readers make of the styles *)

Lemma scalar_start_quote q : q = 34 \/ q = 39 -> scalar_start q = true.
Proof. intros [-> | ->]; reflexivity. Qed.

Lemma safeLoad_single s :
  Forall (fun c => isPrintable c = true) s -> safeLoad (VStr (([39] ++ double_quotes s ++ [39]) ++ [10])) = Ok (VStr s).
Proof.
  intros Hs. apply (safeLoad_scalar _ s (VStr s) None None (Cursor (zlen ([39] ++ double_quotes s ++ [39])) 0 0 0)); [done|done|by left|done|].
  unfold or_else at 1, never. cbn [res_bind]. unfold or_else at 1, scalar_reader at 1. cbn [cur node_state].
  set (text := ([39] ++ double_quotes s ++ [39]) ++ [10; 0]).
  assert (readSingleQuotedScalar text 0 (Cursor 0 0 0 0) = Ok (Some s, Cursor (zlen ([39] ++ double_quotes s ++ [39])) 0 0 0)) as ->.
  { unfold readSingleQuotedScalar. change (ch text (Cursor 0 0 0 0) =? 39) with true. cbv iota zeta.
    assert (text = [39] ++ [] ++ double_quotes s ++ 39 :: 10 :: [0]) as -> by (subst text; by rewrite <- !app_assoc).
    rewrite single_loop_reads; try done.
    - cbn [res_bind app]. f_equal. f_equal. unfold move. simpl. f_equal. autorewrite with zlen. lia.
    - unfold enough. autorewrite with zlen. cbn [app length]. rewrite length_app. simpl.
      assert (length s <= length (double_quotes s))%nat; [|unfold zlen; lia].
      clear. induction s as [|c s IH]; [done|]. unfold double_quotes in *. cbn. rewrite length_app. destruct (c =? 39); simpl; lia. }
  reflexivity.
Qed.

Lemma escapeString_length s e : escapeString s = Ok e -> zlen s <= zlen e.
Proof.
  revert e. induction s as [|c s IH]; intros e; cbn [escapeString]; [by intros [= <-]|].
  intros (x & Hx & (e' & He' & [= <-])%res_bind_ok)%res_bind_ok. rewrite zlen_app, zlen_cons. apply IH in He'.
  assert (1 <= zlen x); [|lia]. destruct (escape_of c) as [y|] eqn:Ee; [|destruct (isPrintable c)].
  - injection Hx as <-. apply escape_of_simple in Ee as (z & -> & _). done.
  - by injection Hx as <-.
  - unfold encodeHex in Hx. apply res_bind_ok in Hx as ([h l] & _ & [= <-]). rewrite zlen_cons. pose proof (zlen_nonneg (h ++ repeat_string [48] (l - zlen (map upper_char (to_radix 16 c))) ++ map upper_char (to_radix 16 c))). lia.
Qed.

Lemma safeLoad_double s e :
  Forall unit16 s -> escapeString s = Ok e -> safeLoad (VStr (([34] ++ e ++ [34]) ++ [10])) = Ok (VStr s).
Proof.
  intros Hs He. apply (safeLoad_scalar _ s (VStr s) None None (Cursor (zlen ([34] ++ e ++ [34])) 0 0 0)); [done|done|by left|done|].
  unfold or_else at 1, never. cbn [res_bind]. unfold or_else at 1, scalar_reader at 1. cbn [cur node_state].
  set (text := ([34] ++ e ++ [34]) ++ [10; 0]).
  assert (readSingleQuotedScalar text 0 (Cursor 0 0 0 0) = Ok (None, Cursor 0 0 0 0)) as -> by done.
  cbn [res_bind set_cur node_state]. unfold or_else at 1, scalar_reader at 1. cbn [cur].
  assert (readDoubleQuotedScalar text 0 (Cursor 0 0 0 0) = Ok (Some s, Cursor (zlen ([34] ++ e ++ [34])) 0 0 0)) as ->; [|done].
  unfold readDoubleQuotedScalar. change (ch text (Cursor 0 0 0 0) =? 34) with true. cbv iota zeta.
  assert (text = [34] ++ [] ++ e ++ 34 :: 10 :: [0]) as -> by (subst text; by rewrite <- !app_assoc).
  rewrite (double_loop_reads s e); try done.
  - cbn [res_bind app]. f_equal. f_equal. unfold move. simpl. f_equal. autorewrite with zlen. lia.
  - unfold enough. cbn [app length]. rewrite length_app. unfold zlen. simpl. lia.
Qed.

(** The first character of a plain text starts a scalar. *)
Lemma plain_first_start x :
  isPlainSafeFirst x = true -> scalar_start x = true /\ plain_excluded x = false /\ x <> 39 /\ x <> 34 /\ x <> 63 /\ x <> 45.
Proof.
  unfold isPlainSafeFirst. intros H. apply andb_true_iff in H as [H Hn]. apply andb_true_iff in H as [H Hw].
  apply andb_true_iff in H as [Hp Hb]. destruct (isPrintable_char x Hp) as (H32 & He & _).
  simpl in Hn. unfold isWhitespace in Hw. unfold is_EOL in He. breflect.
  unfold scalar_start, plain_excluded, is_WS_OR_EOL, is_FLOW_INDICATOR. cbn [existsb].
  repeat split; try done; rewrite ?negb_true_iff, ?orb_false_iff; repeat split; try done; apply Z.eqb_neq; (done || lia).
Qed.

(** The type that a plain text resolves to, and the value it takes. *)
Definition resolves_to (implicits : list ytype) (s : jstr) (v : value) : Prop :=
  match find (fun ty => resolve ty (VStr s)) implicits with
  | None => v = VStr s
  | Some ty => construct ty (VStr s) = Ok v /\ tag ty <> yaml_tag "merge"
  end.

Lemma resolve_plain implicits types s v c :
  resolves_to implicits s v ->
  exists tg', resolve_tag implicits types (LState c (Some (u "?")) None (Some scalar) (VStr s) None [] [] [])
    = Ok (LState c tg' None (Some scalar) v None [] [] []) /\ tg' <> Some (yaml_tag "merge").
Proof.
  unfold resolves_to, resolve_tag. cbn [st_tag st_result].
  change (streq (u "?") (u "!")) with false. change (streq (u "?") (u "?")) with true. cbv iota.
  destruct (find _ _) as [ty|]; [intros [Hc Hm] | intros ->].
  - unfold construct_node. cbn [st_result st_anchor]. rewrite Hc. cbn. eexists. split; [reflexivity|]. congruence.
  - eexists. split; [reflexivity|]. by apply (bool_decide_unpack _).
Qed.

(** What makes a text a plain scalar for the reader. *)
Definition plain_scalar (s : jstr) : Prop :=
  s <> [] /\ scalar_start (first_char s) = true /\ plain_excluded (first_char s) = false /\
  isWhitespace (List.last s (-1)) = false /\ plain_text s.

Lemma safeLoad_plain_value s v :
  plain_scalar s -> resolves_to (compiledImplicit DEFAULT_SAFE_SCHEMA) s v ->
  testDocumentSeparator (s ++ [10; 0]) (Cursor 0 0 0 0) = false ->
  safeLoad (VStr (s ++ [10])) = Ok v.
Proof.
  intros (Hs & Hstart & Hexc & Hlast & Hplain) Hres Hsep.
  assert (Hnot : forall x, scalar_start x = false -> first_char s <> x) by (intros x Hx E; rewrite E in Hstart; congruence).
  assert (H63 : first_char s <> 63) by (by apply Hnot). assert (H45 : first_char s <> 45) by (by apply Hnot).
  assert (H39 : first_char s <> 39 /\ first_char s <> 34).
  { unfold plain_excluded in Hexc. apply orb_false_iff in Hexc as [_ Hq]. cbn [existsb] in Hq. repeat rewrite orb_false_iff in Hq.
    split; apply Z.eqb_neq; tauto. }
  destruct H39 as [H39 H34].
  destruct (resolve_plain (compiledImplicit DEFAULT_SAFE_SCHEMA) (compiledTypeMap DEFAULT_SAFE_SCHEMA) s v
              (end_cursor s (Cursor 0 0 0 0)) Hres) as (tg' & Hr & _).
  apply (safeLoad_scalar s s v (Some (u "?")) tg' (end_cursor s (Cursor 0 0 0 0)) Hstart Hs (or_intror eq_refl) Hr).
  clear Hres Hr.
  set (text := s ++ [10; 0]) in *. assert (ch text (Cursor 0 0 0 0) = first_char s) as Hch by (by destruct s).
  unfold or_else at 1, never. cbn [res_bind]. unfold or_else at 1, scalar_reader at 1. cbn [cur node_state].
  unfold readSingleQuotedScalar. rewrite Hch, (proj2 (Z.eqb_neq _ _) H39). cbn [res_bind set_cur node_state].
  unfold or_else at 1, scalar_reader at 1. cbn [cur]. unfold readDoubleQuotedScalar. rewrite Hch, (proj2 (Z.eqb_neq _ _) H34).
  cbn [res_bind set_cur node_state]. unfold or_else at 1, alias_reader at 1, readAlias. cbn [cur]. rewrite Hch.
  assert ((first_char s =? 42) = false) as ->.
  { apply Z.eqb_neq. intros He. by rewrite He in Hstart. }
  cbn [negb res_bind andb]. unfold plain_reader, scalar_reader. cbn [cur]. unfold readPlainScalar. rewrite Hch, Hexc.
  rewrite (proj2 (Z.eqb_neq _ _) H63), (proj2 (Z.eqb_neq _ _) H45). cbn [orb andb position].
  assert (plain_loop text (enough text) 0 false [] 0 0 None (Cursor 0 0 0 0) = Ok (s, end_cursor s (Cursor 0 0 0 0))) as ->.
  { apply (plain_loop_reads [] s); [exact Hs|exact Hplain|reflexivity|intros Hn; by destruct (Hs Hn)| |reflexivity|].
    - intros _. split; [exact Hsep|]. destruct (exists_last Hs) as (t & x & ->). by rewrite last_last in *.
    - unfold enough, text. rewrite length_app. unfold zlen. simpl. lia. }
  cbn [res_bind]. destruct s as [|x s']; [done|]. reflexivity.
Qed.

Lemma safeLoad_plain s :
  s <> [] -> isPlainSafeFirst (first_char s) = true -> isWhitespace (List.last s (-1)) = false -> plain_text s ->
  existsb (fun ty => resolve ty (VStr s)) (compiledImplicit DEFAULT_SAFE_SCHEMA) = false ->
  testDocumentSeparator (s ++ [10; 0]) (Cursor 0 0 0 0) = false ->
  safeLoad (VStr (s ++ [10])) = Ok (VStr s).
Proof.
  intros Hs Hfirst Hlast Hplain Hamb Hsep. destruct (plain_first_start _ Hfirst) as (Hstart & Hexc & _).
  apply safeLoad_plain_value; [by repeat split | | done].
  unfold resolves_to. destruct (find _ _) as [ty|] eqn:Ef; [|done]. apply find_some in Ef as [Hin Hr].
  apply not_true_iff_false in Hamb. destruct Hamb. apply existsb_exists. exists ty. split; assumption.
Qed.

(** ** Round trip *)

Definition safe_state : dstate := State safe_options.

Lemma safeDump_string s : safeDump (VStr s) = (d <-? writeScalar safe_state s 0 false; Ok (d ++ [10])).
Proof.
  unfold safeDump, dump. cbn [alloc res_bind noRefs State safe_options o_noRefs]. unfold getDuplicateReferences.
  cbn [length inspectNode res_bind map writeNode]. unfold write_node. cbn [shallow].
  assert (detectType (State safe_options) (VStr s) = Ok None) as -> by reflexivity.
  cbn [res_bind fst snd fmap option_fmap option_map]. cbn [collection_of]. fold safe_state.
  destruct (writeScalar safe_state s 0 false) as [d|e]; reflexivity.
Qed.

Lemma deprecated_quotes s : s ∈ DEPRECATED_BOOLEANS_SYNTAX -> double_quotes s = s /\ Forall (fun c => isPrintable c = true) s.
Proof.
  assert (Forall (fun s => double_quotes s = s /\ Forall (fun c => isPrintable c = true) s) DEPRECATED_BOOLEANS_SYNTAX) as H.
  { repeat constructor. }
  intros Hs. by apply (proj1 (Forall_elem _ _) H).
Qed.

Lemma safeLoad_safeDump_string s :
  Forall unit16 s -> one_line_text s -> testDocumentSeparator (s ++ [10; 0]) (Cursor 0 0 0 0) = false ->
  exists t, safeDump (VStr s) = Ok t /\ safeLoad (VStr t) = Ok (VStr s).
Proof.
  intros H16 Hone Hsep. rewrite safeDump_string. unfold writeScalar. case_bool_decide as Hnil.
  { subst s. eexists. split; [reflexivity|]. by apply (safeLoad_single []). }
  destruct (negb (noCompatMode safe_state) && _) eqn:Edep.
  { apply andb_true_iff in Edep as [_ Hdep%bool_decide_eq_true]. destruct (deprecated_quotes s Hdep) as [Hq Hpr].
    eexists. split; [reflexivity|]. rewrite <- Hq at 1. by apply safeLoad_single. }
  change (d_indent safe_state) with 2. change (scalar_width safe_state 0) with 78.
  change (false || (-1 <? flowLevel safe_state) && (flowLevel safe_state <=? 0)) with false. cbv zeta.
  pose proof (chooseScalarStyle_one_line s 78 (testImplicitResolving safe_state) Hone) as Hstyle.
  destruct (chooseScalarStyle _ _ _ _ _); try done.
  - destruct Hstyle as (Hf & Hl & Hp & Ha). eexists. split; [reflexivity|]. by apply safeLoad_plain.
  - eexists. split; [reflexivity|]. by apply safeLoad_single.
  - assert (exists e, escapeString s = Ok e) as [e He].
    { clear -H16. induction H16 as [|c s Hc _ [e He]]; [by exists []|]. cbn [escapeString]. rewrite He.
      destruct (escape_of c) as [x|]; [by eexists|]. destruct (isPrintable c); [by eexists|].
      destruct (encodeHex_unit c Hc) as (h & ds & -> & _). by eexists. }
    rewrite He. eexists. split; [reflexivity|]. by apply safeLoad_double.
Qed.

(** C11.  A string that the dumper keeps on one line is dumped, whatever its
    characters, to a text that the loader reads back as the same string, in
    each of the plain, single-quoted and double-quoted styles; only a text that
    reads as a document separator is left out. *)
Theorem safeDump_string_roundtrip s :
  Forall unit16 s -> one_line_text s -> testDocumentSeparator (s ++ [10; 0]) (Cursor 0 0 0 0) = false ->
  exists t, safeDump (VStr s) = Ok t /\ safeLoad (VStr t) = Ok (VStr s).
Proof. apply safeLoad_safeDump_string. Qed.

Lemma safeDump_string_roundtrip_witness :
  exists t, safeDump (VStr (u "it's" ++ [233; 55357; 0])) = Ok t /\ safeLoad (VStr t) = Ok (VStr (u "it's" ++ [233; 55357; 0])).
Proof.
  apply (safeDump_string_roundtrip (u "it's" ++ [233; 55357; 0])); [|right; exists 0; split; [|done]|reflexivity].
  - repeat constructor; done.
  - apply elem_of_app. right. apply list_elem_of_In. simpl. auto.
Defined.

(** The string [...] is written plain, and what is written ends the
    document: it is not read back. *)
Theorem safeDump_dots :
  safeDump (VStr (u "...")) = Ok (u "..." ++ [10]) /\ safeLoad (VStr (u "..." ++ [10])) <> Ok (VStr (u "...")).
Proof. split; [vm_compute; reflexivity|]. vm_compute. discriminate. Qed.
