(* ===== verification/YamlTreeLoad.v ===== *)
(** What the loader makes of a document in the block style: scalars on one line,
    and mappings and sequences indented by two, as the dumper writes them. *)

From Stdlib Require Import ZArith Lia List String Bool.
From stdpp Require Import base list sets list_numbers tactics.
From S2P Require Import Prelude JsNum Js YamlCommon YamlSchema YamlScanner YamlLoader YamlWriter YamlRoundTrip.

(** ** Lines *)

Definition spaces (m : nat) : jstr := repeat 32 m.

(** What follows a node: the end of its line and a next line indented by [m], or
    the end of the text. *)
Definition next_line (m : nat) (post : jstr) : Prop :=
  (exists x rest, post = 10 :: spaces m ++ x :: rest /\ content_char x = true) \/ (m = O /\ post = [10; 0]).

Definition cursor_next (m : nat) (c : cursor) : cursor :=
  Cursor (position c + 1 + Z.of_nat m) (line c + 1) (position c + 1) (Z.of_nat m).

Lemma count_until_spaces m x rest : x <> 32 -> count_until not_space (spaces m ++ x :: rest) = Z.of_nat m.
Proof.
  intros Hx. induction m as [|m IH]; cbn [spaces repeat app count_until].
  - unfold not_space. by rewrite (proj2 (Z.eqb_neq _ _) Hx).
  - change (not_space 32) with false. cbv iota. unfold spaces in IH. rewrite IH. lia.
Qed.

(** A scan that stops where it is. *)
Lemma scan_here input pre x rest stop c :
  input = pre ++ x :: rest -> position c = zlen pre -> stop x = true -> scan_cursor input stop c = c.
Proof.
  intros -> Hp Hx. assert (scan (pre ++ x :: rest) stop (position c) = position c) as E.
  { unfold scan. rewrite Hp. replace (Z.to_nat (zlen pre)) with (length pre) by (unfold zlen; lia).
    rewrite drop_app_length. cbn. rewrite Hx. lia. }
  unfold scan_cursor, goto. rewrite E. by destruct c.
Qed.

Lemma ch_pre input pre x rest c : input = pre ++ x :: rest -> position c = zlen pre -> ch input c = x.
Proof. intros -> Hp. unfold ch. by apply char_at_part. Qed.

(** Past the end of a line. *)
Lemma next_line_skip input pre post c m ac :
  input = pre ++ post -> position c = zlen pre -> next_line m post ->
  skipSeparationSpace input ac c = Ok (1, cursor_next m c).
Proof.
  intros Hi Hp Hn.
  assert (exists x rest, post = 10 :: spaces m ++ x :: rest /\
            (x = 0 \/ is_WHITE_SPACE x = false /\ is_EOL x = false /\ x <> 35)) as (x & rest & Hpost & Hx).
  { destruct Hn as [(x & rest & H1 & H2) | [-> ->]]; [exists x, rest | by exists 0, []; auto].
    split; [done|]. apply content_char_spec in H2. tauto. }
  subst post. assert (x <> 32) as H32 by (intros ->; destruct Hx as [? | (? & _)]; done).
  assert (H10 : ch input c = 10) by by eapply ch_pre.
  assert (Hsc : scan input not_space (position c + 1) = position c + 1 + Z.of_nat m).
  { unfold scan. rewrite Hi, Hp.
    replace (Z.to_nat (zlen pre + 1)) with (length (pre ++ [10])) by (rewrite length_app; unfold zlen; cbn; lia).
    replace (pre ++ 10 :: spaces m ++ x :: rest) with ((pre ++ [10]) ++ spaces m ++ x :: rest) by (by rewrite <- app_assoc).
    by rewrite drop_app_length, count_until_spaces. }
  assert (Hi' : input = (pre ++ 10 :: spaces m) ++ x :: rest) by (rewrite Hi, <- !app_assoc; done).
  assert (Hp' : position (cursor_next m c) = zlen (pre ++ 10 :: spaces m)).
  { cbn. rewrite Hp. autorewrite with zlen. unfold zlen at 3, spaces. rewrite repeat_length. lia. }
  pose proof (ch_pre _ _ _ _ _ Hi' Hp') as Hch.
  assert (exists k, enough input = S (S k)) as [k Hk].
  { unfold enough. exists (length input - 1)%nat. rewrite Hi, length_app. cbn. lia. }
  unfold skipSeparationSpace. rewrite Hk. cbn [skip_loop]. rewrite H10. change (10 =? 0) with false. cbv iota.
  rewrite (scan_here _ _ _ _ not_white c Hi Hp eq_refl), H10. change (10 =? 35) with false. rewrite andb_false_r, H10.
  change (is_EOL 10) with true. cbv iota. unfold readLineBreak. rewrite H10. cbn [res_bind Z.eqb Pos.eqb position].
  cbn [position goto set_indent line lineStart lineIndent]. rewrite Hsc.
  replace (position c + 1 + Z.of_nat m - (position c + 1)) with (Z.of_nat m) by lia.
  change (set_indent (Z.of_nat m) (goto _ _)) with (cursor_next m c).
  rewrite Hch. destruct Hx as [-> | (Hw & He & H35)]; [reflexivity|].
  destruct (x =? 0) eqn:Ex; [reflexivity|].
  rewrite (scan_here _ _ _ _ not_white _ Hi' Hp') by (unfold not_white; by rewrite Hw).
  rewrite Hch, (proj2 (Z.eqb_neq _ _) H35), andb_false_r, Hch, He. reflexivity.
Qed.

(** At the start of content, or at the end of the text. *)
Lemma skip_here input pre x rest c ac :
  input = pre ++ x :: rest -> position c = zlen pre -> content_char x = true \/ x = 0 ->
  skipSeparationSpace input ac c = Ok (0, c).
Proof.
  intros Hi Hp Hx. pose proof (ch_pre _ _ _ _ _ Hi Hp) as Hch.
  unfold skipSeparationSpace, enough. cbn [skip_loop]. rewrite Hch.
  destruct Hx as [Hx | ->]; [|reflexivity]. apply content_char_spec in Hx as (H0 & Hw & He & H35).
  rewrite (proj2 (Z.eqb_neq _ _) H0), (scan_here _ _ _ _ not_white _ Hi Hp) by (unfold not_white; by rewrite Hw).
  rewrite Hch, (proj2 (Z.eqb_neq _ _) H35), andb_false_r, Hch, He. reflexivity.
Qed.

(** Over the space before content on the same line. *)
Lemma skip_space input pre x rest c ac :
  input = pre ++ 32 :: x :: rest -> position c = zlen pre -> content_char x = true ->
  skipSeparationSpace input ac c = Ok (0, move 1 c).
Proof.
  intros Hi Hp Hx. pose proof (ch_pre _ _ _ _ _ Hi Hp) as Hch.
  assert (Hi' : input = (pre ++ [32]) ++ x :: rest) by (rewrite Hi, <- app_assoc; done).
  assert (Hp' : position (move 1 c) = zlen (pre ++ [32])) by (cbn; autorewrite with zlen; lia).
  pose proof (ch_pre _ _ _ _ _ Hi' Hp') as Hch'.
  apply content_char_spec in Hx as (H0 & Hw & He & H35).
  assert (scan_cursor input not_white c = move 1 c) as Hs.
  { unfold scan_cursor, scan. rewrite Hi, Hp. replace (Z.to_nat (zlen pre)) with (length pre) by (unfold zlen; lia).
    rewrite drop_app_length. cbn [count_until]. change (not_white 32) with false. cbv iota. unfold not_white. rewrite Hw. cbn.
    unfold goto, move. f_equal. lia. }
  unfold skipSeparationSpace, enough. cbn [skip_loop]. rewrite Hch. change (32 =? 0) with false. cbv iota.
  rewrite Hs, Hch', (proj2 (Z.eqb_neq _ _) H35), andb_false_r, Hch', He. reflexivity.
Qed.

(** ** Scalars on one line *)

Section Load.
(** The types of the schema, whatever they are. *)
Context (implicits : list ytype) (types : type_map).

(** The states met: no anchors, no directives. *)
Definition st (c : cursor) (t : option jstr) (k : option kind) (v : value) : lstate := LState c t None k v None [] [] [].

(** What ends a scalar: a colon that ends a key, or a next line that is not
    indented enough to continue it. *)
Definition stops (k : Z) (post : jstr) : Prop :=
  (exists w rest, post = 58 :: w :: rest /\ is_WS_OR_EOL w = true) \/ (exists m, next_line m post /\ Z.of_nat m < k).

(** The first characters of a text that is a node by itself, and neither an item
    of a sequence, nor a property or a block scalar. *)
Definition inline_start (t : jstr) : bool :=
  match t with
  | [] => false
  | x :: t =>
      negb (existsb (Z.eqb x) [-1; 0; 9; 10; 13; 32; 33; 35; 37; 38; 42; 58; 63; 62; 124; 65279])
      && (negb (x =? 45) || match t with y :: _ => negb (is_WS_OR_EOL y) | [] => false end)
  end.

(** The text [t] is read as the value [v], as a key or in a block. *)
Definition inline (t : jstr) (v : value) : Prop :=
  inline_start t = true /\
  forall input compose ctx blocks k bi pre post c,
    input = pre ++ t ++ post -> position c = zlen pre -> lineStart c <= position c -> at_separator input c = false ->
    stops k post -> ctx <> CONTEXT_FLOW_IN ->
    exists tg tg' kd raw,
      read_content input false compose ctx blocks false k bi (st c None None VNull) = Ok (true, st (move (zlen t) c) tg kd raw) /\
      resolve_tag implicits types (st (move (zlen t) c) tg kd raw) = Ok (st (move (zlen t) c) tg' kd v) /\
      tg' <> Some (yaml_tag "merge").

(** Plain scalars: the loop reads up to what ends them. *)
Lemma plain_text_printable t : plain_text t -> PATTERN_NON_PRINTABLE t = false.
Proof. intros H. by apply isPrintable_printable, plain_printable. Qed.

Lemma capture_plain input pre t post c :
  input = pre ++ t ++ post -> t <> [] -> plain_text t ->
  captureSegment input c [] (zlen pre) (zlen (pre ++ t)) false = Ok t.
Proof.
  intros Hi Hne Ht. unfold captureSegment. rewrite zlen_app.
  rewrite (proj2 (Z.ltb_lt _ _)) by (destruct t; [done|]; rewrite zlen_cons; pose proof (zlen_nonneg t); lia).
  rewrite Hi, (zslice_part pre t post) by (rewrite ?zlen_app; done). by rewrite plain_text_printable.
Qed.

Lemma plain_stop input k pre t post ce fuel c :
  input = pre ++ t ++ post -> t <> [] -> plain_text t -> stops k post ->
  position c = zlen (pre ++ t) -> ce = zlen (pre ++ t) -> lineStart c <= zlen pre ->
  plain_loop input (S fuel) k false [] (zlen pre) ce None c = Ok (t, c).
Proof.
  intros Hi Hne Ht Hs Hp -> Hl. cbn [plain_loop].
  assert (Hlt : lineStart c < position c).
  { rewrite Hp, zlen_app. destruct t; [done|]. rewrite zlen_cons. pose proof (zlen_nonneg t). lia. }
  rewrite app_assoc in Hi. destruct Hs as [(w & rest & -> & Hw) | (m & Hm & Hk)].
  - rewrite (ch_pre _ _ _ _ _ Hi Hp). change (58 =? 0) with false. change (58 =? 58) with true. cbv iota.
    assert (char_at input (position c + 1) = w) as ->.
    { rewrite Hi, Hp. replace ((pre ++ t) ++ 58 :: w :: rest) with (((pre ++ t) ++ [58]) ++ w :: rest) by (by rewrite <- !app_assoc).
      apply char_at_part. autorewrite with zlen. lia. }
    unfold ends_key. rewrite Hw. cbn [orb]. rewrite (capture_plain input pre t (58 :: w :: rest)); try done.
    by rewrite Hi, <- app_assoc.
  - assert (exists rest, post = 10 :: rest) as [rest Hpost] by (destruct Hm as [(x & rest & -> & _) | [_ ->]]; eauto).
    pose proof Hi as Hi10. rewrite Hpost in Hi10. rewrite (ch_pre _ _ _ _ _ Hi10 Hp).
    change (10 =? 0) with false. change (10 =? 58) with false. change (10 =? 35) with false. cbv iota.
    rewrite at_separator_inside by done. cbn [andb orb]. change (is_EOL 10) with true. cbv iota.
    rewrite (next_line_skip input (pre ++ t) post c m) by done. cbn [res_bind cursor_next lineIndent].
    rewrite (proj2 (Z.leb_gt _ _)) by lia. rewrite (capture_plain input pre t post); try done; [|by rewrite Hi, <- app_assoc].
    cbn [res_bind]. unfold goto. rewrite <- Hp. by destruct c.
Qed.

Lemma plain_reads input k pre t s post ce fuel c :
  input = pre ++ (t ++ s) ++ post -> t ++ s <> [] -> plain_text (t ++ s) -> stops k post ->
  position c = zlen (pre ++ t) -> (s = [] -> ce = zlen (pre ++ t)) ->
  (s <> [] -> at_separator input c = false /\ isWhitespace (List.last s 0) = false) ->
  lineStart c <= zlen pre -> (length s < fuel)%nat ->
  plain_loop input fuel k false [] (zlen pre) ce None c = Ok (t ++ s, move (zlen s) c).
Proof.
  revert t fuel ce c. induction s as [|x s IH]; intros t fuel ce c Hi Hne Hs Hst Hp Hce Hsep Hl Hf;
    (destruct fuel as [|fuel]; [lia|]).
  - rewrite app_nil_r in *. rewrite (plain_stop input k pre t post) by auto.
    unfold move, zlen. cbn. rewrite Z.add_0_r. by destruct c.
  - destruct (Hsep ltac:(done)) as [Hat Hlast].
    pose proof Hs as Hsx. apply Forall_app in Hsx as [_ Hsx]. apply Forall_cons_iff in Hsx as [Hx _].
    destruct (isPlainSafe_spec x Hx) as (Hpr & H58 & H35 & Hfl). destruct (isPrintable_char x Hpr) as (_ & Hxe & Hx0).
    assert (Hi' : input = (pre ++ t) ++ x :: s ++ post) by (rewrite Hi, <- !app_assoc; done).
    cbn [plain_loop]. rewrite (ch_pre _ _ _ _ _ Hi' Hp).
    rewrite (proj2 (Z.eqb_neq _ _) Hx0), (proj2 (Z.eqb_neq _ _) H58), (proj2 (Z.eqb_neq _ _) H35), Hat, Hxe.
    cbn [andb orb res_bind]. replace (t ++ x :: s) with ((t ++ [x]) ++ s) in * by (by rewrite <- app_assoc).
    rewrite (IH (t ++ [x])); [f_equal; f_equal; unfold move; cbn; rewrite zlen_cons; f_equal; lia|..]; try done.
    + cbn. rewrite Hp. autorewrite with zlen. lia.
    + intros ->. cbn in Hlast. assert (is_WHITE_SPACE x = false) as ->.
      { unfold isWhitespace in Hlast. unfold is_WHITE_SPACE. by rewrite orb_comm. }
      rewrite Hp. autorewrite with zlen. lia.
    + intros Hsne. split; [|by destruct s]. apply at_separator_inside. cbn. rewrite Hp, zlen_app.
      pose proof (zlen_nonneg t). lia.
    + cbn in Hf. lia.
Qed.

Lemma inline_not t y :
  inline_start t = true -> existsb (Z.eqb y) [-1; 0; 9; 10; 13; 32; 33; 35; 37; 38; 42; 58; 63; 62; 124; 65279] = true ->
  (first_char t =? y) = false.
Proof.
  destruct t as [|x t]; [done|]. cbn [inline_start]. intros [H _]%andb_prop Hy. change (first_char (x :: t)) with x.
  apply Z.eqb_neq. intros ->. by rewrite Hy in H.
Qed.

Lemma inline_content t : inline_start t = true -> content_char (first_char t) = true.
Proof. intros H. unfold content_char. cbn [existsb]. by rewrite !(inline_not t) by done. Qed.

(** A text at the cursor. *)
Lemma ch_first input pre t post c :
  input = pre ++ t ++ post -> position c = zlen pre -> inline_start t = true -> ch input c = first_char t.
Proof. intros Hi Hp Ht. destruct t as [|x t]; [done|]. exact (ch_pre _ _ _ _ _ Hi Hp). Qed.

(** A scalar whose reader comes after the collections and the block scalars. *)
Lemma read_content_inline input compose ctx blocks k bi pre t post c found s :
  input = pre ++ t ++ post -> position c = zlen pre -> inline_start t = true ->
  (first_char t =? 91) = false -> (first_char t =? 123) = false ->
  or_else (scalar_reader (readSingleQuotedScalar input k))
    (or_else (scalar_reader (readDoubleQuotedScalar input k))
       (or_else (alias_reader input) (plain_reader input k (bool_decide (ctx = CONTEXT_FLOW_IN))))) (st c None None VNull) = Ok (found, s) ->
  st_anchor s = None ->
  read_content input false compose ctx blocks false k bi (st c None None VNull) = Ok (found, s).
Proof.
  intros Hi Hp Ht H91 H123 Hr Ha. pose proof (ch_first _ _ _ _ _ Hi Hp Ht) as Hch.
  unfold read_content, or_else at 1, never at 1. cbn [res_bind]. unfold readFlowCollection. cbn [cur st]. rewrite Hch, H91, H123.
  cbn [orb res_bind]. unfold or_else at 1.
  assert ((if blocks then scalar_reader (readBlockScalar input k) else never) (st c None None VNull) = Ok (false, st c None None VNull)) as ->.
  { destruct blocks; [|reflexivity]. unfold scalar_reader, readBlockScalar. cbn [cur st]. rewrite Hch, !(inline_not t) by done. reflexivity. }
  cbn [res_bind]. rewrite Hr. cbn [res_bind]. rewrite Ha. reflexivity.
Qed.

Lemma inline_plain s v :
  s <> [] -> plain_text s -> inline_start s = true -> plain_excluded (first_char s) = false ->
  isWhitespace (List.last s 0) = false -> resolves_to implicits s v -> inline s v.
Proof.
  intros Hne Hs Ht Hexc Hlast Hv. split; [done|].
  intros input compose ctx blocks k bi pre post c Hi Hp Hl Hsep Hst Hctx.
  pose proof (ch_first _ _ _ _ _ Hi Hp Ht) as Hch.
  assert (Hq : (first_char s =? 39) = false /\ (first_char s =? 34) = false /\ (first_char s =? 91) = false /\ (first_char s =? 123) = false).
  { unfold plain_excluded in Hexc. apply orb_false_iff in Hexc as [Hexc Hq]. apply orb_false_iff in Hexc as [_ Hfl].
    unfold is_FLOW_INDICATOR in Hfl. cbn [existsb] in Hq. repeat rewrite orb_false_iff in *. tauto. }
  destruct Hq as (H39 & H34 & H91 & H123).
  destruct (resolve_plain implicits types s v (move (zlen s) c) Hv) as (tg' & Hr & Hm).
  exists (Some (u "?")), tg', (Some scalar), (VStr s). split; [|by split].
  apply (read_content_inline _ _ _ _ _ _ pre s post); try done.
  unfold or_else at 1, scalar_reader at 1. cbn [cur st]. unfold readSingleQuotedScalar. rewrite Hch, H39. cbn [res_bind set_cur st].
  unfold or_else at 1, scalar_reader at 1. cbn [cur]. unfold readDoubleQuotedScalar. rewrite Hch, H34. cbn [res_bind set_cur st].
  unfold or_else at 1, alias_reader at 1, readAlias. cbn [cur]. rewrite Hch, (inline_not s) by done.
  cbn [negb res_bind andb]. unfold plain_reader, scalar_reader. cbn [cur]. unfold readPlainScalar.
  rewrite bool_decide_eq_false_2 by done. rewrite Hch, Hexc, (inline_not s 63) by done. cbn [orb].
  assert ((first_char s =? 45) && ends_key false (char_at input (position c + 1)) = false) as ->.
  { destruct s as [|x s]; [done|]. cbn [inline_start] in Ht. apply andb_prop in Ht as [_ Ht]. change (first_char (x :: s)) with x.
    destruct (x =? 45); [|done]. cbn [negb orb andb] in *. destruct s as [|y s]; [done|].
    assert (char_at input (position c + 1) = y) as ->.
    { rewrite Hi, Hp. cbn [app]. replace (pre ++ x :: y :: s ++ post) with ((pre ++ [x]) ++ y :: s ++ post) by (by rewrite <- app_assoc).
      apply char_at_part. autorewrite with zlen. lia. }
    unfold ends_key. cbn [andb orb]. rewrite orb_false_r. by apply negb_true_iff. }
  assert (plain_loop input (enough input) k false [] (position c) (position c) None c = Ok (s, move (zlen s) c)) as ->.
  { clear Hr Hv Hch. rewrite Hp. apply (plain_reads input k pre [] s post (zlen pre) (enough input) c).
    - exact Hi.
    - exact Hne.
    - exact Hs.
    - exact Hst.
    - by rewrite app_nil_r.
    - intros ->. by rewrite app_nil_r.
    - by intros _.
    - lia.
    - unfold enough. rewrite Hi, !length_app. lia. }
  clear -Hne. destruct s as [|x s]; [destruct (Hne eq_refl) | reflexivity].
Qed.

Lemma stops_first k post : stops k post -> exists x rest, post = x :: rest /\ x <> 39.
Proof. intros [(w & rest & -> & _) | (m & [(x & rest & -> & _) | [_ ->]] & _)]; eexists _, _; (split; [reflexivity | discriminate]). Qed.

Lemma resolve_none s : st_tag s = None -> resolve_tag implicits types s = Ok s.
Proof. intros H. unfold resolve_tag. by rewrite H. Qed.

(** A quoted scalar: its reader finds it, whatever comes next. *)
Lemma inline_quoted q t s :
  q = 39 \/ q = 34 ->
  (forall input pre post c k, input = pre ++ t ++ post -> position c = zlen pre -> lineStart c <= position c -> stops k post ->
     (if q =? 39 then readSingleQuotedScalar input k c else readDoubleQuotedScalar input k c) = Ok (Some s, move (zlen t) c)) ->
  first_char t = q -> inline t (VStr s).
Proof.
  intros Hq Hread Hf. assert (Ht : inline_start t = true).
  { destruct t as [|x t]; [destruct Hq as [-> | ->]; discriminate Hf|]. change (first_char (x :: t)) with x in Hf. subst x.
    by destruct Hq as [-> | ->]. }
  split; [done|]. intros input compose ctx blocks k bi pre post c Hi Hp Hl Hsep Hst Hctx.
  pose proof (ch_first _ _ _ _ _ Hi Hp Ht) as Hch. rewrite Hf in Hch. specialize (Hread _ _ _ _ _ Hi Hp Hl Hst).
  exists None, None, (Some scalar), (VStr s). split; [|by rewrite resolve_none].
  apply (read_content_inline _ _ _ _ _ _ pre t post); try done; [by destruct Hq as [-> | ->]; rewrite Hf..|].
  unfold or_else at 1, scalar_reader at 1. cbn [cur st]. destruct Hq as [-> | ->].
  - change (39 =? 39) with true in Hread. cbv iota in Hread. by rewrite Hread.
  - change (34 =? 39) with false in Hread. cbv iota in Hread. unfold readSingleQuotedScalar. rewrite Hch.
    change (34 =? 39) with false. cbn [res_bind set_cur st]. unfold or_else at 1, scalar_reader at 1. cbn [cur]. by rewrite Hread.
Qed.

Lemma inline_single s : Forall (fun c => isPrintable c = true) s -> inline ([39] ++ double_quotes s ++ [39]) (VStr s).
Proof.
  intros Hs. apply (inline_quoted 39); [by left | | done]. intros input pre post c k Hi Hp Hl Hst. change (39 =? 39) with true. cbv iota.
  destruct (stops_first _ _ Hst) as (x & rest & -> & Hx).
  assert (Hi' : input = (pre ++ [39]) ++ [] ++ double_quotes s ++ 39 :: x :: rest) by (rewrite Hi; cbn [app]; by rewrite <- !app_assoc).
  assert (Hp' : position (move 1 c) = zlen (pre ++ [39])) by (cbn; autorewrite with zlen; lia).
  unfold readSingleQuotedScalar. cbn [app] in Hi. rewrite (ch_pre _ _ _ _ _ Hi Hp). change (39 =? 39) with true. cbv iota zeta.
  rewrite Hi', (single_loop_reads s); [|done|done|done|done|by rewrite app_nil_r|cbn in *; lia|].
  - cbn [res_bind app]. f_equal. f_equal. unfold move. cbn. autorewrite with zlen. f_equal. lia.
  - unfold enough. autorewrite with zlen. cbn [app length]. rewrite !length_app. cbn [length].
    assert (length s <= length (double_quotes s))%nat; [|unfold zlen; lia].
    clear. induction s as [|c s IH]; [done|]. unfold double_quotes in *. cbn. rewrite length_app. destruct (c =? 39); simpl; lia.
Qed.

Lemma inline_double s e : Forall unit16 s -> escapeString s = Ok e -> inline ([34] ++ e ++ [34]) (VStr s).
Proof.
  intros Hs He. apply (inline_quoted 34); [by right | | done]. intros input pre post c k Hi Hp Hl Hst. change (34 =? 39) with false. cbv iota.
  assert (Hi' : input = (pre ++ [34]) ++ [] ++ e ++ 34 :: post) by (rewrite Hi; cbn [app]; by rewrite <- !app_assoc).
  assert (Hp' : position (move 1 c) = zlen (pre ++ [34])) by (cbn; autorewrite with zlen; lia).
  unfold readDoubleQuotedScalar. cbn [app] in Hi. rewrite (ch_pre _ _ _ _ _ Hi Hp). change (34 =? 34) with true. cbv iota zeta.
  rewrite Hi', (double_loop_reads s e); [|done|done|done|done|by rewrite app_nil_r|cbn in *; lia|].
  - cbn [res_bind app]. f_equal. f_equal. unfold move. cbn. autorewrite with zlen. f_equal. lia.
  - unfold enough, zlen. rewrite !length_app. cbn [length app]. lia.
Qed.

(** The empty collections. *)
Lemma inline_empty mapping_ :
  inline (if mapping_ : bool then [123; 125] else [91; 93]) (if mapping_ then VObj [] else VArr []).
Proof.
  set (t := if mapping_ then _ else _). assert (Ht : inline_start t = true) by (by destruct mapping_).
  split; [done|]. intros input compose ctx blocks k bi pre post c Hi Hp Hl Hsep Hst Hctx.
  pose proof (ch_first _ _ _ _ _ Hi Hp Ht) as Hch.
  exists None, None, (Some (if mapping_ then mapping else sequence)), (if mapping_ then VObj [] else VArr []).
  split; [|by rewrite resolve_none].
  assert (Hi' : input = (pre ++ [first_char t]) ++ (if mapping_ then 125 else 93) :: post).
  { rewrite Hi, <- app_assoc. by destruct mapping_. }
  assert (Hp' : position (move 1 c) = zlen (pre ++ [first_char t])) by (cbn; autorewrite with zlen; lia).
  pose proof (ch_pre _ _ _ _ _ Hi' Hp') as Hch'.
  unfold read_content, or_else at 1, never at 1. cbn [res_bind]. unfold readFlowCollection. cbn [cur st st_tag st_anchor]. rewrite Hch.
  assert ((first_char t =? 91) || (first_char t =? 123) = true) as -> by (by destruct mapping_).
  cbn [name_node res_bind cur set_cur st]. unfold enough. cbn [flow_loop cur]. rewrite Hch'.
  assert (((if mapping_ then 125 else 93) =? 0) = false) as -> by (by destruct mapping_).
  unfold skip_state. cbn [cur]. rewrite (skip_here _ _ _ _ _ true Hi' Hp') by (left; by destruct mapping_).
  cbn [res_bind cur set_cur]. rewrite Hch'.
  assert (zlen t = 2) as -> by (by destruct mapping_).
  assert (move 2 c = move 1 (move 1 c)) as -> by (unfold move; cbn; f_equal; lia).
  unfold t. by destruct mapping_.
Qed.

(** ** Trees in the block style *)

(** A text on one line, a mapping (the text of each key, the key, and its value),
    or a sequence. *)
Inductive ytree :=
| Inl (t : jstr) (v : value)
| Map (l : list (jstr * jstr * ytree))
| Seq (l : list ytree).

Definition nl (lvl : nat) : jstr := 10 :: spaces (2 * lvl).

(** The text of a tree, from the column of its level on. *)
Fixpoint render (lvl : nat) (y : ytree) {struct y} : jstr :=
  match y with
  | Inl t _ => t
  | Map l =>
      join (nl lvl) (map (fun '(t, _, x) => t ++ 58 :: match x with Inl t' _ => 32 :: t' | _ => nl (S lvl) ++ render (S lvl) x end) l)
  | Seq l => join (nl lvl) (map (fun x => 45 :: 32 :: render (S lvl) x) l)
  end.

Fixpoint value_of (y : ytree) : value :=
  match y with
  | Inl _ v => v
  | Map l => VObj (fold_left (fun o '(_, k, x) => obj_set k (value_of x) o) l [])
  | Seq l => VArr (map value_of l)
  end.

Fixpoint depth (y : ytree) : nat :=
  match y with
  | Inl _ _ => 1
  | Map l => S (foldr (fun '(_, _, x) n => Nat.max (depth x) n) 1%nat l)
  | Seq l => S (foldr (fun x n => Nat.max (depth x) n) 1%nat l)
  end.

Section ytree_ind'.
Context (P : ytree -> Prop) (HInl : forall t v, P (Inl t v)).
Context (HMap : forall l, Forall (fun e => P e.2) l -> P (Map l)) (HSeq : forall l, Forall P l -> P (Seq l)).

Fixpoint ytree_ind' (y : ytree) : P y :=
  match y with
  | Inl t v => HInl t v
  | Map l =>
      HMap l ((fix go l : Forall (fun e => P e.2) l :=
                 match l with [] => Forall_nil_2 _ | e :: l => Forall_cons_2 _ _ _ (ytree_ind' e.2) (go l) end) l)
  | Seq l =>
      HSeq l ((fix go l : Forall P l :=
                 match l with [] => Forall_nil_2 _ | x :: l => Forall_cons_2 _ _ _ (ytree_ind' x) (go l) end) l)
  end.
End ytree_ind'.

(** A key is a string on one line, that does not look like the end of a
    document. *)
Definition key_ok (t k : jstr) : Prop :=
  inline t (VStr k) /\ starts_with (u "...") t = false /\ (first_char t =? 45) = false /\ k <> u "__proto__".

Fixpoint tree_ok (y : ytree) : Prop :=
  match y with
  | Inl t v => inline t v
  | Map l => l <> [] /\ NoDup (map (fun e => e.1.2) l) /\ foldr (fun '(t, k, x) P => (key_ok t k /\ tree_ok x) /\ P) True l
  | Seq l => l <> [] /\ foldr (fun x P => tree_ok x /\ P) True l
  end.

Definition is_collection (y : ytree) : bool := match y with Inl _ _ => false | _ => true end.

(** ** The composition of a node *)

Section Compose.
Context (input : jstr) (length_ : Z).

Local Abbreviation compose fuel := (composeNode fuel input length_ false implicits types).

Lemma properties_here n p bs nl bc ist c pre x rest :
  input = pre ++ x :: rest -> position c = zlen pre -> (x =? 33) = false -> (x =? 38) = false ->
  properties_loop input length_ (S n) p bs nl bc ist (st c None None VNull) = Ok (nl, bc, ist, st c None None VNull).
Proof.
  intros Hi Hp H33 H38. pose proof (ch_pre _ _ _ _ _ Hi Hp) as Hch.
  cbn [properties_loop]. unfold readTagProperty, readAnchorProperty. cbn [cur st]. rewrite Hch, H33. cbn [negb res_bind].
  unfold readAnchorProperty. cbn [cur st]. rewrite Hch, H38. reflexivity.
Qed.

(** Without separation before the node. *)
Lemma compose_here fuel p ctx c t0 k0 v0 pre x rest c' tg kd raw tg' v :
  input = pre ++ x :: rest -> position c = zlen pre -> (x =? 33) = false -> (x =? 38) = false ->
  let blocks := bool_decide (ctx = CONTEXT_BLOCK_OUT) || bool_decide (ctx = CONTEXT_BLOCK_IN) in
  read_content input false (compose fuel) ctx blocks blocks (if blocks then p + 1 else p) (position c - lineStart c)
    (st c None None VNull) = Ok (true, st c' tg kd raw) ->
  resolve_tag implicits types (st c' tg kd raw) = Ok (st c' tg' kd v) ->
  compose (S fuel) p ctx false true (st c t0 k0 v0) = Ok (true, st c' tg' kd v).
Proof.
  intros Hi Hp H33 H38 blocks Hr Ht. cbn [composeNode]. unfold compose_node.
  change (set_node None VNull (set_anchor None (set_tag None (st c t0 k0 v0)))) with (st c None None VNull). fold blocks.
  cbn [res_bind negb Z.eqb Pos.eqb]. unfold enough. rewrite (properties_here _ _ _ _ _ _ _ _ _ _ Hi Hp H33 H38).
  cbn [res_bind Z.eqb Pos.eqb orb cur st]. rewrite andb_true_r. fold (st c None None VNull).
  rewrite Hr. cbn [res_bind]. rewrite Ht. cbn [res_bind]. by rewrite orb_true_r.
Qed.

(** After the separation that follows the colon of a key: on the same line, or
    on the next one with a larger indentation. *)
Lemma compose_after fuel p c0 c n t0 k0 v0 pre x rest c' tg kd raw tg' v :
  skipSeparationSpace input true c0 = Ok (n, c) ->
  input = pre ++ x :: rest -> position c = zlen pre -> (x =? 33) = false -> (x =? 38) = false ->
  (n = 0 \/ p < lineIndent c) ->
  read_content input false (compose fuel) CONTEXT_BLOCK_OUT true (negb (n =? 0)) (p + 1) (position c - lineStart c)
    (st c None None VNull) = Ok (true, st c' tg kd raw) ->
  resolve_tag implicits types (st c' tg kd raw) = Ok (st c' tg' kd v) ->
  compose (S fuel) p CONTEXT_BLOCK_OUT true false (st c0 t0 k0 v0) = Ok (true, st c' tg' kd v).
Proof.
  intros Hs Hi Hp H33 H38 Hn Hr Ht. cbn [composeNode]. unfold compose_node.
  change (set_node None VNull (set_anchor None (set_tag None (st c0 t0 k0 v0)))) with (st c0 None None VNull).
  change (bool_decide (CONTEXT_BLOCK_OUT = CONTEXT_BLOCK_OUT)) with true. cbn [orb].
  unfold skip_state. cbn [cur st]. rewrite Hs. cbn [res_bind].
  change (set_cur c (st c0 None None VNull)) with (st c None None VNull).
  assert ((if negb (n =? 0) then indent_status p (st c None None VNull) else 1) = 1) as ->.
  { destruct Hn as [-> | Hn]; [done|]. destruct (negb (n =? 0)); [|done]. unfold indent_status. cbn [cur st].
    by rewrite (proj2 (Z.ltb_lt _ _)). }
  change (1 =? 1) with true. cbv iota. unfold enough. rewrite (properties_here _ _ _ _ _ _ _ _ _ _ Hi Hp H33 H38).
  cbn [res_bind cur st]. change (1 =? 1) with true. cbv iota. rewrite orb_false_r, andb_true_l. fold (st c None None VNull).
  rewrite Hr. cbn [res_bind]. rewrite Ht. cbn [res_bind]. by rewrite orb_true_r.
Qed.

(** Where the skip after a node leads: the content of the next line. *)
Definition arrive (q : Z) (m : nat) (cn : cursor) : Prop :=
  position cn = q + 1 + Z.of_nat m /\ lineStart cn = q + 1 /\ lineIndent cn = Z.of_nat m.

Lemma next_content pre post m cn :
  input = pre ++ post -> next_line m post -> arrive (zlen pre) m cn ->
  exists pre' x rest, input = pre' ++ x :: rest /\ position cn = zlen pre' /\
    (content_char x = true /\ post <> [10; 0] \/ x = 0 /\ post = [10; 0]).
Proof.
  intros Hi Hn (Hp & _ & _). destruct Hn as [(x & rest & -> & Hx) | [-> ->]].
  - exists (pre ++ 10 :: spaces m), x, rest. split; [rewrite Hi, <- app_assoc; done|]. split.
    + rewrite Hp. autorewrite with zlen. unfold zlen at 3, spaces. rewrite repeat_length. lia.
    + left. split; [done|]. intros E. destruct m; cbn in E; [|discriminate E]. injection E as ->. subst. discriminate Hx.
  - exists (pre ++ [10]), 0, []. split; [by rewrite Hi, <- app_assoc|]. split; [|by right].
    rewrite Hp. autorewrite with zlen. lia.
Qed.

Lemma skip_arrived pre post m cn ac :
  input = pre ++ post -> next_line m post -> arrive (zlen pre) m cn -> skipSeparationSpace input ac cn = Ok (0, cn).
Proof.
  intros Hi Hn Ha. destruct (next_content _ _ _ _ Hi Hn Ha) as (pre' & x & rest & Hi' & Hp & Hx).
  apply (skip_here input pre' x rest); [done | done | tauto].
Qed.

(** A node has been read: its value, and the skip to what comes next. *)
Definition node_read (r : res (bool * lstate)) (c : cursor) (q : Z) (m : nat) (v : value) : Prop :=
  exists c' tg kd raw tg', r = Ok (true, st c' tg kd raw) /\
    resolve_tag implicits types (st c' tg kd raw) = Ok (st c' tg' kd v) /\
    exists j cn, skipSeparationSpace input true c' = Ok (j, cn) /\ arrive q m cn /\ line c < line cn.

(** The end of a text on one line. *)
Lemma end_of_inline pre t post c m :
  input = pre ++ t ++ post -> position c = zlen pre -> next_line m post ->
  exists j cn, skipSeparationSpace input true (move (zlen t) c) = Ok (j, cn) /\
    arrive (zlen (pre ++ t)) m cn /\ line c < line cn.
Proof.
  intros Hi Hp Hn. rewrite app_assoc in Hi.
  assert (Hp' : position (move (zlen t) c) = zlen (pre ++ t)) by (cbn; autorewrite with zlen; lia).
  exists 1, (cursor_next m (move (zlen t) c)). split; [by eapply next_line_skip|].
  unfold cursor_next, arrive. rewrite Hp'. cbn. repeat split; lia.
Qed.

Lemma inline_no_dash pre t post c :
  input = pre ++ t ++ post -> position c = zlen pre -> inline_start t = true ->
  (ch input c =? 45) = true -> is_WS_OR_EOL (char_at input (position c + 1)) = false.
Proof.
  intros Hi Hp Ht. rewrite (ch_first _ _ _ _ _ Hi Hp Ht). destruct t as [|x t]; [done|]. change (first_char (x :: t)) with x.
  cbn [inline_start] in Ht. apply andb_prop in Ht as [_ Ht]. intros Hx. rewrite Hx in Ht. cbn [negb orb] in Ht.
  destruct t as [|y t]; [done|]. apply negb_true_iff in Ht.
  assert (char_at input (position c + 1) = y) as ->; [|done].
  rewrite Hi, Hp. cbn [app]. replace (pre ++ x :: y :: t ++ post) with ((pre ++ [x]) ++ y :: t ++ post) by (by rewrite <- app_assoc).
  apply char_at_part. autorewrite with zlen. lia.
Qed.

Lemma no_sequence pre t post c compose_ n :
  input = pre ++ t ++ post -> position c = zlen pre -> inline_start t = true ->
  readBlockSequence input compose_ n (st c None None VNull) = Ok (false, st c None None VNull).
Proof.
  intros Hi Hp Ht. unfold readBlockSequence, enough. cbn [st st_tag st_anchor name_node res_bind sequence_loop cur].
  fold (st c None None VNull).
  assert (negb (ch input c =? 45) || negb (is_WS_OR_EOL (char_at input (position c + 1))) = true) as ->; [|reflexivity].
  destruct (ch input c =? 45) eqn:E; [|done]. by rewrite (inline_no_dash _ _ _ _ Hi Hp Ht E).
Qed.

Lemma inline_start_of t v : inline t v -> inline_start t = true.
Proof. by intros [H _]. Qed.

Lemma start_cons t : inline_start t = true -> exists t', t = first_char t :: t'.
Proof. destruct t as [|x t]; [done|]. by exists t. Qed.

(** A key, or a text in the place of a key. *)
Lemma compose_inline fuel k t v pre post c t0 k0 v0 :
  inline t v -> input = pre ++ t ++ post -> position c = zlen pre -> lineStart c <= position c ->
  at_separator input c = false -> stops k post ->
  exists tg kd, composeNode (S fuel) input length_ false implicits types k CONTEXT_FLOW_OUT false true (st c t0 k0 v0)
    = Ok (true, st (move (zlen t) c) tg kd v) /\ tg <> Some (yaml_tag "merge").
Proof.
  intros Hin Hi Hp Hl Hsep Hst. pose proof (inline_start_of _ _ Hin) as Ht. destruct Hin as [_ Hin].
  destruct (start_cons t Ht) as [t' Et].
  destruct (Hin input (composeNode fuel input length_ false implicits types) CONTEXT_FLOW_OUT false k (position c - lineStart c)
              pre post c Hi Hp Hl Hsep Hst ltac:(done)) as (tg & tg' & kd & raw & Hr & Hres & Hm).
  exists tg', kd. split; [|done].
  eapply (compose_here fuel k CONTEXT_FLOW_OUT c t0 k0 v0 pre (first_char t)); [|exact Hp | by apply inline_not.. | exact Hr | exact Hres].
  rewrite Hi, Et at 1. done.
Qed.

(** A text in a block, where collections may come or not. *)
Lemma inline_read fuel t v p ctx pre post c m abc bi :
  inline t v -> input = pre ++ t ++ post -> position c = zlen pre -> lineStart c < position c ->
  next_line m post -> Z.of_nat m <= p -> ctx <> CONTEXT_FLOW_IN ->
  node_read (read_content input false (composeNode (S fuel) input length_ false implicits types) ctx true abc (p + 1) bi
               (st c None None VNull)) c (zlen (pre ++ t)) m v.
Proof.
  intros Hin Hi Hp Hl Hn Hm Hctx. pose proof (inline_start_of _ _ Hin) as Ht.
  assert (Hst : stops (p + 1) post) by (right; exists m; split; [done | lia]).
  pose proof (at_separator_inside input c Hl) as Hsep.
  destruct (end_of_inline _ _ _ _ _ Hi Hp Hn) as (j & cn & Hend). destruct abc.
  - destruct (compose_inline fuel (p + 1) t v pre post c None None VNull Hin Hi Hp ltac:(lia) Hsep Hst) as (tg & kd & Hc & _).
    exists (move (zlen t) c), None, kd, v, None. split; [|split; [by apply resolve_none | by eauto]].
    unfold read_content, or_else at 1, or_else at 1.
    rewrite (no_sequence _ _ _ _ _ _ Hi Hp Ht). cbn [res_bind]. unfold readBlockMapping, enough.
    cbn [st st_tag st_anchor name_node res_bind mapping_loop cur]. fold (st c None None VNull).
    rewrite (ch_first _ _ _ _ _ Hi Hp Ht), !(inline_not t) by done. cbn [orb andb]. rewrite Hc. cbn [res_bind].
    assert (exists rest, post = 10 :: rest) as [rest Hpost] by (destruct Hn as [(x & rest & -> & _) | [_ ->]]; eauto).
    assert (Hi' : input = (pre ++ t) ++ 10 :: rest) by (rewrite Hi, Hpost; by rewrite app_assoc).
    assert (Hp' : position (move (zlen t) c) = zlen (pre ++ t)) by (cbn; autorewrite with zlen; lia).
    unfold implicit_separator. cbn [cur st]. change (line (move (zlen t) c)) with (line c). rewrite Z.eqb_refl.
    rewrite (scan_here _ _ _ _ not_white _ Hi' Hp' eq_refl), (ch_pre _ _ _ _ _ Hi' Hp'). reflexivity.
  - destruct Hin as [_ Hin].
    destruct (Hin input (composeNode (S fuel) input length_ false implicits types) ctx true (p + 1) bi pre post c Hi Hp
                ltac:(lia) Hsep Hst Hctx) as (tg & tg' & kd & raw & Hr & Hres & _).
    exists (move (zlen t) c), tg, kd, raw, tg'. split; [done|]. split; [done|]. by eauto.
Qed.

(** ** Collections *)

(** What is proved of each tree: in a block, from the column of its level. *)
Definition reads (y : ytree) : Prop := forall lvl p ctx pre post c m fuel,
  tree_ok y -> (depth y <= fuel)%nat -> input = pre ++ render lvl y ++ post -> position c = zlen pre ->
  position c - lineStart c = Z.of_nat (2 * lvl) -> p < Z.of_nat (2 * lvl) -> next_line m post ->
  Z.of_nat m <= p \/ lvl = O /\ post = [10; 0] /\ is_collection y = true -> ctx <> CONTEXT_FLOW_IN ->
  node_read (read_content input false (composeNode fuel input length_ false implicits types) ctx true true (p + 1)
               (Z.of_nat (2 * lvl)) (st c None None VNull)) c (zlen (pre ++ render lvl y)) m (value_of y).

(** How a node starts. *)
Definition node_start (x : Z) : Prop :=
  content_char x = true /\ (x =? 33) = false /\ (x =? 38) = false /\ (x =? 37) = false /\ (x =? 65279) = false.

Lemma inline_node_start t : inline_start t = true -> node_start (first_char t).
Proof. intros H. split; [by apply inline_content | repeat split; by apply inline_not]. Qed.

Lemma join_cons sep w l : join sep (w :: l) = w ++ match l with [] => [] | _ => sep ++ join sep l end.
Proof. destruct l; cbn [join]; [by rewrite app_nil_r | done]. Qed.

Lemma render_start lvl y : tree_ok y -> exists x rest, render lvl y = x :: rest /\ node_start x.
Proof.
  destruct y as [t v|l|l]; cbn [tree_ok render].
  - intros H. apply inline_start_of in H. destruct (start_cons t H) as [t' E]. exists (first_char t), t'.
    split; [done | by apply inline_node_start].
  - intros (Hne & _ & H). destruct l as [|[[t k] x] l]; [done|]. cbn [foldr map] in *. destruct H as [[[Hk _] _] _].
    apply inline_start_of in Hk. destruct (start_cons t Hk) as [t' E]. rewrite join_cons, E.
    eexists (first_char t), _. split; [reflexivity | by apply inline_node_start].
  - intros (Hne & _). destruct l as [|x l]; [done|]. cbn [map]. rewrite join_cons. eexists 45, _. by split.
Qed.

(** The text of a value after the colon of its key. *)
Definition value_text (lvl : nat) (x : ytree) : jstr :=
  match x with Inl t _ => 32 :: t | _ => nl (S lvl) ++ render (S lvl) x end.

Definition entry_text (lvl : nat) (e : jstr * jstr * ytree) : jstr := e.1.1 ++ 58 :: value_text lvl e.2.

Lemma render_map lvl l : render lvl (Map l) = join (nl lvl) (map (entry_text lvl) l).
Proof. cbn [render]. f_equal. apply map_ext. by intros [[t k] x]. Qed.

(** [node_read] through [composeNode]. *)
Definition composed (r : res (bool * lstate)) (c : cursor) (q : Z) (m : nat) (v : value) : Prop :=
  exists c' tg kd, r = Ok (true, st c' tg kd v) /\
    exists j cn, skipSeparationSpace input true c' = Ok (j, cn) /\ arrive q m cn /\ line c < line cn.

Lemma value_read lvl x fuel pre post c m t0 k0 v0 :
  reads x -> tree_ok x -> (depth x <= fuel)%nat -> input = pre ++ value_text lvl x ++ post -> position c = zlen pre ->
  lineStart c <= position c -> next_line m post -> (m <= 2 * lvl)%nat ->
  composed (composeNode (S fuel) input length_ false implicits types (Z.of_nat (2 * lvl)) CONTEXT_BLOCK_OUT true false (st c t0 k0 v0))
    c (zlen (pre ++ value_text lvl x)) m (value_of x).
Proof.
  intros Hx Hok Hd Hi Hp Hl Hn Hm. destruct (is_collection x) eqn:Hcol.
  - assert (Ev : value_text lvl x = nl (S lvl) ++ render (S lvl) x) by (by destruct x).
    rewrite Ev in *. destruct (render_start (S lvl) x Hok) as (y & rest & Er & Hy & H33 & H38 & _).
    set (n := (2 * S lvl)%nat). assert (Hnl : next_line n (nl (S lvl) ++ render (S lvl) x ++ post)).
    { left. exists y, (rest ++ post). split; [|done]. rewrite Er. unfold nl, n. reflexivity. }
    rewrite <- app_assoc in Hi. pose proof (next_line_skip input pre _ c n true Hi Hp Hnl) as Hskip.
    set (c1 := cursor_next n c) in *.
    assert (Hi1 : input = (pre ++ nl (S lvl)) ++ render (S lvl) x ++ post) by (rewrite Hi; by rewrite <- app_assoc).
    assert (Hp1 : position c1 = zlen (pre ++ nl (S lvl))).
    { unfold c1. cbn. rewrite Hp, zlen_app. unfold nl. rewrite zlen_cons. unfold zlen at 3, spaces. rewrite repeat_length. fold n. lia. }
    destruct (Hx (S lvl) (Z.of_nat (2 * lvl)) CONTEXT_BLOCK_OUT _ _ c1 m fuel Hok Hd Hi1 Hp1) as (c' & tg & kd & raw & tg' & Hr & Hres & j & cn & Hs & Ha & Hline);
      [unfold c1; cbn; fold n; lia | lia | done | left; lia | done |].
    exists c', tg', kd. split.
    + eapply (compose_after fuel _ c c1 1 t0 k0 v0 (pre ++ nl (S lvl)) y (rest ++ post)); try done.
      * rewrite Hi1, Er. done.
      * right. unfold c1. cbn. fold n. lia.
      * replace (position c1 - lineStart c1) with (Z.of_nat n) by (unfold c1; cbn; lia). exact Hr.
    + exists j, cn. split; [done|]. rewrite <- app_assoc in Ha. split; [done|]. unfold c1 in Hline. cbn in Hline. lia.
  - destruct x as [t v| |]; [|done..]. cbn [value_text value_of tree_ok depth] in *.
    pose proof (inline_start_of _ _ Hok) as Ht. destruct (start_cons t Ht) as [t' E].
    destruct (inline_node_start t Ht) as (Hc & H33 & H38 & _).
    assert (Hi0 : input = pre ++ 32 :: first_char t :: t' ++ post) by (rewrite Hi, E at 1; done).
    pose proof (skip_space input pre _ _ c true Hi0 Hp Hc) as Hskip.
    assert (Hi1 : input = (pre ++ [32]) ++ t ++ post) by (rewrite Hi; by rewrite <- app_assoc).
    assert (Hp1 : position (move 1 c) = zlen (pre ++ [32])) by (cbn; autorewrite with zlen; lia).
    destruct fuel as [|fuel]; [lia|].
    destruct (inline_read fuel t v (Z.of_nat (2 * lvl)) CONTEXT_BLOCK_OUT (pre ++ [32]) post (move 1 c) m false
                (position (move 1 c) - lineStart (move 1 c)) Hok Hi1 Hp1) as (c' & tg & kd & raw & tg' & Hr & Hres & j & cn & Hs & Ha & Hline);
      [cbn; lia | done | lia | done |].
    exists c', tg', kd. split.
    + eapply (compose_after (S fuel) _ c (move 1 c) 0 t0 k0 v0 (pre ++ [32]) (first_char t) (t' ++ post)); try done.
      * rewrite Hi1, E at 1. done.
      * by left.
    + exists j, cn. split; [done|]. rewrite <- app_assoc in Ha. by split.
Qed.

(** A key at the start of the text of a document does not end it. *)
Lemma key_separator t k pre rest c :
  key_ok t k -> input = pre ++ t ++ 58 :: rest -> position c = zlen pre -> at_separator input c = false.
Proof.
  intros (Hin & Hdots & Hdash & _) Hi Hp. apply inline_start_of in Hin as Ht. unfold at_separator.
  destruct (position c =? lineStart c); [|done]. cbn [andb]. unfold testDocumentSeparator.
  assert (Hch : forall i x s1 s2, t ++ 58 :: rest = s1 ++ x :: s2 -> i = zlen s1 -> char_at input (position c + i) = x).
  { intros i x s1 s2 E ->. rewrite Hi, E, Hp. replace (pre ++ s1 ++ x :: s2) with ((pre ++ s1) ++ x :: s2) by (by rewrite <- app_assoc).
    apply char_at_part. by rewrite zlen_app. }
  rewrite (ch_first _ _ _ _ _ Hi Hp Ht), Hdash. cbn [orb].
  destruct t as [|x t]; [done|]. change (first_char (x :: t)) with x. destruct (x =? 46) eqn:E46; [|done]. cbn [andb].
  breflect. subst x. destruct t as [|y t].
  { rewrite (Hch 1 58 [46] rest) by done. reflexivity. }
  rewrite (Hch 1 y [46] (t ++ 58 :: rest)) by done. destruct (46 =? y) eqn:E; [|done]. breflect. subst y. cbn [andb].
  destruct t as [|y t].
  { rewrite (Hch 2 58 [46; 46] rest) by done. reflexivity. }
  rewrite (Hch 2 y [46; 46] (t ++ 58 :: rest)) by done. destruct (46 =? y) eqn:E; [|done]. breflect. subst y. by cbn in Hdots.
Qed.

Lemma obj_has_not_in {A} k (o : list (jstr * A)) : k ∉ obj_keys o -> obj_has k o = false.
Proof. intros H. unfold obj_has. by rewrite (proj2 (obj_lookup_None k o) H). Qed.

(** One entry of a mapping. *)
Lemma entry_read lvl p t k x acc detected fuel fm pre post c m t0 k0 v0 :
  reads x -> key_ok t k -> tree_ok x -> (depth x <= fuel)%nat ->
  input = pre ++ entry_text lvl (t, k, x) ++ post -> position c = zlen pre ->
  position c - lineStart c = Z.of_nat (2 * lvl) -> next_line m post -> (m <= 2 * lvl)%nat -> k ∉ obj_keys acc ->
  exists cn tg kd w,
    mapping_loop input false (composeNode (S fuel) input length_ false implicits types) (S fm) (Z.of_nat (2 * lvl)) p detected false
      (None, VNull) (acc, []) (st c t0 k0 v0)
    = (if Z.of_nat m <? Z.of_nat (2 * lvl)
       then Ok (Epilogue, true, false, (None, VNull), (obj_set k (value_of x) acc, []), st cn tg kd w)
       else mapping_loop input false (composeNode (S fuel) input length_ false implicits types) fm (Z.of_nat (2 * lvl)) p true false
              (None, VNull) (obj_set k (value_of x) acc, []) (st cn tg kd w)) /\
    arrive (zlen (pre ++ entry_text lvl (t, k, x))) m cn /\ line c < line cn.
Proof.
  intros Hx Hk Hok Hd Hi Hp Hcol Hn Hm Hfresh. unfold entry_text in *. cbn [fst snd] in *.
  rewrite <- app_assoc in Hi. cbn [app] in Hi. pose proof Hk as (Hin & _ & _ & Hproto). apply inline_start_of in Hin as Ht.
  pose proof (key_separator _ _ _ _ _ Hk Hi Hp) as Hsep.
  assert (Hw : exists w rest, value_text lvl x ++ post = w :: rest /\ is_WS_OR_EOL w = true).
  { destruct x; cbn [value_text nl app]; eexists _, _; (split; [reflexivity | done]). }
  assert (Hst : stops p (58 :: value_text lvl x ++ post)).
  { left. destruct Hw as (w & rest & -> & Hw). by exists w, rest. }
  destruct (compose_inline fuel p t (VStr k) pre _ c t0 k0 v0 Hin Hi Hp ltac:(lia) Hsep Hst) as (tg & kd & Hc & Hmerge).
  set (c1 := move (zlen t) c) in *.
  assert (Hi1 : input = (pre ++ t) ++ 58 :: value_text lvl x ++ post) by (rewrite Hi; by rewrite <- app_assoc).
  assert (Hp1 : position c1 = zlen (pre ++ t)) by (cbn; autorewrite with zlen; lia).
  assert (Hi2 : input = ((pre ++ t) ++ [58]) ++ value_text lvl x ++ post) by (rewrite Hi1; by rewrite <- !app_assoc).
  assert (Hp2 : position (move 1 c1) = zlen ((pre ++ t) ++ [58])) by (cbn; rewrite (zlen_app (pre ++ t)); cbn in Hp1; rewrite Hp1; done).
  destruct (value_read lvl x fuel _ post (move 1 c1) m tg kd (VStr k) Hx Hok Hd Hi2 Hp2 ltac:(cbn in *; pose proof (zlen_nonneg t); lia) Hn Hm)
    as (c' & tg' & kd' & Hv & j & cn & Hs & Ha & Hline).
  exists cn, tg', kd', (value_of x).
  assert (E : zlen (pre ++ t ++ 58 :: value_text lvl x) = zlen (((pre ++ t) ++ [58]) ++ value_text lvl x))
    by (rewrite <- !app_assoc; done).
  rewrite E. split; [|split; [done | exact Hline]].
  cbn [mapping_loop cur st]. rewrite (ch_first _ _ _ _ _ Hi Hp Ht), !(inline_not t) by done. cbn [orb andb]. fold (st c t0 k0 v0).
  rewrite Hc. cbn [res_bind]. unfold implicit_separator. cbn [cur st]. change (line c1) with (line c). rewrite Z.eqb_refl.
  rewrite (scan_here _ _ _ _ not_white _ Hi1 Hp1 eq_refl), (ch_pre _ _ _ _ _ Hi1 Hp1). change (58 =? 58) with true. cbv iota.
  destruct Hw as (w & rest & Ew & Hws). rewrite Ew in Hi2. rewrite (ch_pre _ _ _ _ _ Hi2 Hp2), Hws.
  cbn [res_bind flush_key set_cur st_tag st_result]. unfold read_entry. cbn [cur]. change (line (move 1 c1)) with (line c).
  rewrite Z.eqb_refl. cbn [orb].
  change (set_cur (move 1 c1) (st c1 tg kd (VStr k))) with (st (move 1 c1) tg kd (VStr k)). rewrite Hv. cbn [res_bind st_result st fst snd].
  unfold storeMappingPair. cbn [to_string res_bind fst snd]. rewrite bool_decide_eq_false_2 by done.
  rewrite obj_has_not_in, andb_false_r by done. cbn [cur]. unfold put_key.
  destruct (streq k (u "__proto__")) eqn:Ep; [by apply streq_eq in Ep|]. cbn [res_bind List.filter].
  unfold skip_state. cbn [cur st]. rewrite Hs. cbn [res_bind set_cur st cur]. destruct Ha as (_ & _ & ->).
  rewrite (proj2 (Z.ltb_ge _ _)) by lia. reflexivity.
Qed.

Lemma next_line_end m : next_line m [10; 0] -> m = O.
Proof.
  intros [(x & rest & E & Hx) | [-> _]]; [|done]. destruct m; [done|]. cbn in E. discriminate E.
Qed.

(** What ends a collection: a smaller indentation, or the end of the text. *)
Definition ends_block (lvl m : nat) (post : jstr) : Prop := (m < 2 * lvl)%nat \/ lvl = O /\ post = [10; 0].

Definition add_entry (o : object) (e : jstr * jstr * ytree) : object := obj_set e.1.2 (value_of e.2) o.

Lemma value_of_map l : value_of (Map l) = VObj (fold_left add_entry l []).
Proof.
  cbn [value_of]. f_equal. generalize (@nil (jstr * value)). induction l as [|[[t k] x] l IH]; intros o; [done|]. cbn [fold_left]. apply IH.
Qed.

(** The separator between the entries of a collection. *)
Lemma next_entry lvl x rest : content_char x = true -> next_line (2 * lvl) (nl lvl ++ x :: rest).
Proof. intros Hx. left. exists x, rest. by split. Qed.

Lemma map_reads lvl p fuel post m l :
  next_line m post -> ends_block lvl m post -> l <> [] ->
  Forall (fun e => reads e.2 /\ key_ok e.1.1 e.1.2 /\ tree_ok e.2 /\ (depth e.2 <= fuel)%nat) l ->
  forall acc detected c pre t0 k0 v0 fm,
  input = pre ++ join (nl lvl) (map (entry_text lvl) l) ++ post -> position c = zlen pre ->
  position c - lineStart c = Z.of_nat (2 * lvl) ->
  NoDup (map (fun e => e.1.2) l) -> (forall e, e ∈ l -> e.1.2 ∉ obj_keys acc) -> (length l < fm)%nat ->
  exists cn tg kd w,
    mapping_loop input false (composeNode (S fuel) input length_ false implicits types) fm (Z.of_nat (2 * lvl)) p detected false
      (None, VNull) (acc, []) (st c t0 k0 v0)
    = Ok (Epilogue, true, false, (None, VNull), (fold_left add_entry l acc, []), st cn tg kd w) /\
    arrive (zlen (pre ++ join (nl lvl) (map (entry_text lvl) l))) m cn /\ line c < line cn.
Proof.
  intros Hn Hend Hne Hall. induction l as [|[[t k] x] l IH]; [done|]. clear Hne.
  intros acc detected c pre t0 k0 v0 fm Hi Hp Hcol Hnd Hfresh Hfm.
  apply Forall_cons_iff in Hall as [(Hx & Hk & Hok & Hd) Hall]. cbn [fst snd map] in *.
  apply list.NoDup_cons in Hnd as [Hkl Hnd]. destruct fm as [|fm]; [cbn in Hfm; lia|].
  assert (Hkacc : k ∉ obj_keys acc) by (apply (Hfresh (t, k, x)); by left).
  rewrite join_cons in *. destruct l as [|[[t2 k2] x2] l].
  - rewrite app_nil_r in *. assert (Hm : (m <= 2 * lvl)%nat).
    { destruct Hend as [H | [-> ->]]; [lia|]. by rewrite (next_line_end _ Hn). }
    destruct (entry_read lvl p t k x acc detected fuel fm pre post c m t0 k0 v0 Hx Hk Hok Hd Hi Hp Hcol Hn Hm Hkacc)
      as (cn & tg & kd & w & E & Ha & Hline).
    exists cn, tg, kd, w. rewrite E. split; [|by split]. destruct (Z.of_nat m <? Z.of_nat (2 * lvl)) eqn:Em; [reflexivity|].
    breflect. destruct Hend as [H | [-> ->]]; [lia|].
    rewrite app_assoc in Hi. destruct (next_content _ _ _ _ Hi Hn Ha) as (pre' & y & rest & Hi' & Hp' & [[_ Hy] | [-> _]]); [done|].
    destruct fm as [|fm]; [cbn in Hfm; lia|]. cbn [mapping_loop cur st]. by rewrite (ch_pre _ _ _ _ _ Hi' Hp').
  - rewrite <- app_assoc in Hi.
    assert (Hn' : next_line (2 * lvl) ((nl lvl ++ join (nl lvl) (map (entry_text lvl) ((t2, k2, x2) :: l))) ++ post)).
    { rewrite <- app_assoc. cbn [map]. rewrite join_cons. unfold entry_text at 1. cbn [fst snd].
      apply Forall_cons_iff in Hall as [(_ & Hk2 & _) _]. cbn [fst snd] in Hk2. destruct Hk2 as [Hk2 _]. apply inline_start_of in Hk2.
      destruct (start_cons t2 Hk2) as [t' ->]. rewrite <- !app_assoc. cbn [app]. apply next_entry.
      change (first_char (first_char t2 :: t')) with (first_char t2). by apply inline_content. }
    destruct (entry_read lvl p t k x acc detected fuel fm pre _ c (2 * lvl) t0 k0 v0 Hx Hk Hok Hd Hi Hp Hcol Hn' ltac:(lia) Hkacc)
      as (cn & tg & kd & w & E & Ha & Hline).
    rewrite Z.ltb_irrefl in E. destruct Ha as (Hpos & Hls & Hli).
    destruct (IH ltac:(done) Hall (obj_set k (value_of x) acc) true cn (pre ++ entry_text lvl (t, k, x) ++ nl lvl) tg kd w fm)
      as (cn' & tg' & kd' & w' & E' & Ha' & Hline').
    + rewrite Hi. cbn [map]. by rewrite <- !app_assoc.
    + rewrite Hpos, (app_assoc pre), (zlen_app (pre ++ _)). unfold nl. rewrite zlen_cons. unfold zlen at 3, spaces. rewrite repeat_length. lia.
    + lia.
    + exact Hnd.
    + intros e He Hin. apply obj_keys_set in Hin as [Hin | Hin].
      * apply Hkl. rewrite <- Hin. by apply (list_elem_of_fmap_2 (fun e : jstr * jstr * ytree => e.1.2)).
      * apply (Hfresh e); [by right | done].
    + cbn in Hfm |- *. lia.
    + exists cn', tg', kd', w'. rewrite E, E'. split; [reflexivity|]. split; [|lia].
      cbn [map] in Ha' |- *. rewrite <- !app_assoc in Ha'. exact Ha'.
Qed.

Lemma item_read lvl x fuel pre post c m t0 k0 v0 :
  reads x -> tree_ok x -> (depth x <= fuel)%nat -> input = pre ++ render (S lvl) x ++ post -> position c = zlen pre ->
  position c - lineStart c = Z.of_nat (2 * S lvl) -> next_line m post -> (m <= 2 * lvl)%nat ->
  composed (composeNode (S fuel) input length_ false implicits types (Z.of_nat (2 * lvl)) CONTEXT_BLOCK_IN false true (st c t0 k0 v0))
    c (zlen (pre ++ render (S lvl) x)) m (value_of x).
Proof.
  intros Hx Hok Hd Hi Hp Hcol Hn Hm. destruct (render_start (S lvl) x Hok) as (y & rest & Er & Hy & H33 & H38 & _).
  destruct (Hx (S lvl) (Z.of_nat (2 * lvl)) CONTEXT_BLOCK_IN _ _ c m fuel Hok Hd Hi Hp Hcol)
    as (c' & tg & kd & raw & tg' & Hr & Hres & j & cn & Hs & Ha & Hline); [lia | done | left; lia | done |].
  exists c', tg', kd. split; [|by eauto].
  eapply (compose_here fuel _ CONTEXT_BLOCK_IN c t0 k0 v0 pre y (rest ++ post)); try done; [by rewrite Hi, Er|].
  cbv zeta. rewrite (bool_decide_eq_true_2 (CONTEXT_BLOCK_IN = CONTEXT_BLOCK_IN)), orb_true_r by done. rewrite Hcol. exact Hr.
Qed.

Lemma seq_reads lvl fuel post m l :
  next_line m post -> ends_block lvl m post -> l <> [] ->
  Forall (fun x => reads x /\ tree_ok x /\ (depth x <= fuel)%nat) l ->
  forall acc detected c pre t0 k0 v0 fm,
  input = pre ++ join (nl lvl) (map (fun x => 45 :: 32 :: render (S lvl) x) l) ++ post -> position c = zlen pre ->
  position c - lineStart c = Z.of_nat (2 * lvl) -> (length l < fm)%nat ->
  exists cn tg kd w,
    sequence_loop input (composeNode (S fuel) input length_ false implicits types) fm (Z.of_nat (2 * lvl)) detected acc (st c t0 k0 v0)
    = Ok (true, acc ++ map value_of l, st cn tg kd w) /\
    arrive (zlen (pre ++ join (nl lvl) (map (fun x => 45 :: 32 :: render (S lvl) x) l))) m cn /\ line c < line cn.
Proof.
  intros Hn Hend Hne Hall. induction l as [|x l IH]; [done|]. clear Hne.
  intros acc detected c pre t0 k0 v0 fm Hi Hp Hcol Hfm.
  apply Forall_cons_iff in Hall as [(Hx & Hok & Hd) Hall]. cbn [map] in *. destruct fm as [|fm]; [cbn in Hfm; lia|].
  rewrite join_cons in *.
  set (more := match l with [] => [] | _ => nl lvl ++ join (nl lvl) (map (fun x => 45 :: 32 :: render (S lvl) x) l) end).
  assert (Emore : (match map (fun x => 45 :: 32 :: render (S lvl) x) l with [] => []
                   | _ => nl lvl ++ join (nl lvl) (map (fun x => 45 :: 32 :: render (S lvl) x) l) end) = more) by (by destruct l).
  rewrite Emore in *. cbn [app] in *.
  set (m' := match l with [] => m | _ => (2 * lvl)%nat end).
  assert (Hn' : next_line m' (more ++ post)).
  { subst more m'. destruct l as [|x2 l]; [exact Hn|]. cbn [map]. rewrite join_cons, <- app_assoc. by apply next_entry. }
  assert (Hm' : (m' <= 2 * lvl)%nat).
  { subst m'. destruct l; [|done]. destruct Hend as [H | [-> ->]]; [lia|]. by rewrite (next_line_end _ Hn). }
  destruct (render_start (S lvl) x Hok) as (y & rest & Er & Hy & _).
  assert (Hi1 : input = (pre ++ [45]) ++ 32 :: y :: rest ++ more ++ post) by (rewrite Hi, Er, <- !app_assoc; done).
  assert (Hp1 : position (move 1 c) = zlen (pre ++ [45])) by (cbn; autorewrite with zlen; lia).
  assert (Hi2 : input = (pre ++ [45; 32]) ++ render (S lvl) x ++ more ++ post) by (rewrite Hi, <- !app_assoc; done).
  set (c2 := move 1 (move 1 c)). assert (Hp2 : position c2 = zlen (pre ++ [45; 32])) by (cbn; autorewrite with zlen; lia).
  destruct (item_read lvl x fuel _ _ c2 m' t0 k0 v0 Hx Hok Hd Hi2 Hp2 ltac:(cbn in *; lia) Hn' Hm')
    as (c' & tg & kd & Hc & j & cn & Hs & Ha & Hline).
  assert (Hstep : sequence_loop input (composeNode (S fuel) input length_ false implicits types) (S fm) (Z.of_nat (2 * lvl)) detected acc (st c t0 k0 v0)
    = if Z.of_nat m' <? Z.of_nat (2 * lvl) then Ok (true, acc ++ [value_of x], st cn tg kd (value_of x))
      else sequence_loop input (composeNode (S fuel) input length_ false implicits types) fm (Z.of_nat (2 * lvl)) true (acc ++ [value_of x])
             (st cn tg kd (value_of x))).
  { cbn [sequence_loop cur st]. rewrite (ch_pre _ _ _ _ _ Hi Hp). change (45 =? 45) with true.
    assert (char_at input (position c + 1) = 32) as ->.
    { rewrite Hi1. apply char_at_part. autorewrite with zlen. lia. }
    change (is_WS_OR_EOL 32) with true. cbn [negb orb]. unfold skip_state.
    change (set_cur (move 1 c) (st c t0 k0 v0)) with (st (move 1 c) t0 k0 v0).
    change (cur (st (move 1 c) t0 k0 v0)) with (move 1 c). rewrite (skip_space input _ y _ (move 1 c) true Hi1 Hp1 Hy).
    cbn [res_bind]. change (set_cur (move 1 (move 1 c)) (st (move 1 c) t0 k0 v0)) with (st c2 t0 k0 v0).
    change (negb (0 =? 0)) with false. cbn [andb]. cbv iota. rewrite Hc. cbn [res_bind].
    change (cur (st c' tg kd (value_of x))) with c'. rewrite Hs. cbn [res_bind].
    change (set_cur cn (st c' tg kd (value_of x))) with (st cn tg kd (value_of x)). cbn [cur st st_result].
    rewrite (proj2 (Z.eqb_neq (line cn) (line c2))) by lia. destruct Ha as (_ & _ & ->).
    rewrite (proj2 (Z.ltb_ge _ (Z.of_nat m'))) by lia. reflexivity. }
  assert (Epre : (pre ++ [45; 32]) ++ render (S lvl) x = pre ++ 45 :: 32 :: render (S lvl) x) by (by rewrite <- app_assoc).
  rewrite Epre in Ha. destruct l as [|x2 l].
  - exists cn, tg, kd, (value_of x). rewrite Hstep. subst more m'. rewrite app_nil_r. cbn [app] in *. split; [|by split].
    destruct (Z.of_nat m <? Z.of_nat (2 * lvl)) eqn:Em; [reflexivity|]. breflect. destruct Hend as [H | [-> ->]]; [lia|].
    assert (Hi3 : input = (pre ++ 45 :: 32 :: render (S O) x) ++ [10; 0]) by (by rewrite Hi2, <- !app_assoc).
    destruct (next_content _ _ _ _ Hi3 Hn Ha) as (pre' & z & rest' & Hi' & Hp' & [[_ Hz] | [-> _]]); [done|].
    destruct fm as [|fm]; [cbn in Hfm; lia|]. cbn [sequence_loop cur st]. by rewrite (ch_pre _ _ _ _ _ Hi' Hp').
  - subst more m'. cbv iota in *. rewrite Z.ltb_irrefl in Hstep. destruct Ha as (Hpos & Hls & Hli).
    destruct (IH ltac:(done) Hall (acc ++ [value_of x]) true cn ((pre ++ 45 :: 32 :: render (S lvl) x) ++ nl lvl) tg kd (value_of x) fm)
      as (cn' & tg' & kd' & w' & E' & Ha' & Hline').
    + rewrite Hi. by rewrite <- !app_assoc.
    + rewrite Hpos, (zlen_app (pre ++ _)). unfold nl. rewrite zlen_cons. unfold zlen at 3, spaces. rewrite repeat_length. lia.
    + lia.
    + cbn in Hfm |- *. lia.
    + exists cn', tg', kd', w'. rewrite Hstep, E'. split; [by rewrite <- app_assoc|]. split; [|unfold c2 in Hline; cbn in Hline; lia].
      rewrite <- !app_assoc in Ha'. exact Ha'.
Qed.

Lemma length_join {A} sep (f : A -> jstr) l : (forall x, x ∈ l -> f x <> []) -> (length l <= length (join sep (map f l)))%nat.
Proof.
  induction l as [|x l IH]; intros H; [cbn; lia|]. cbn [map]. rewrite join_cons, length_app.
  assert (1 <= length (f x))%nat. { pose proof (H x ltac:(by left)). destruct (f x); [done | cbn; lia]. }
  specialize (IH ltac:(intros y Hy; apply H; by right)). destruct l as [|y l]; [cbn in *; lia|].
  cbn [map] in *. rewrite length_app. cbn [length] in *. lia.
Qed.

Lemma tree_ok_map l : tree_ok (Map l) ->
  l <> [] /\ NoDup (map (fun e => e.1.2) l) /\ Forall (fun e => key_ok e.1.1 e.1.2 /\ tree_ok e.2) l.
Proof.
  intros (H1 & H2 & H). split; [done|]. split; [done|]. clear H1 H2.
  induction l as [|[[t k] x] l IH]; [constructor|]. destruct H as [H Hl]. constructor; [exact H | exact (IH Hl)].
Qed.

Lemma tree_ok_seq l : tree_ok (Seq l) -> l <> [] /\ Forall tree_ok l.
Proof.
  intros [H1 H]. split; [done|]. clear H1. induction l as [|x l IH]; [constructor|]. destruct H. constructor; auto.
Qed.

Lemma depth_map l : Forall (fun e => (depth e.2 < depth (Map l))%nat) l /\ (2 <= depth (Map l))%nat.
Proof.
  cbn [depth]. assert (forall n, Forall (fun e => (depth e.2 < S n)%nat) l /\ (1 <= n)%nat ->
    Forall (fun e => (depth e.2 < S n)%nat) l /\ (2 <= S n)%nat) as H by (intros n [? ?]; split; [done | lia]).
  apply H. clear H. induction l as [|[[t k] x] l [IH1 IH2]]; cbn [foldr]; [split; [constructor | lia]|].
  split; [|lia]. constructor; [cbn; lia|]. eapply Forall_impl; [|exact IH1]. intros e He. cbn in *. lia.
Qed.

Lemma depth_seq l : Forall (fun x => (depth x < depth (Seq l))%nat) l /\ (2 <= depth (Seq l))%nat.
Proof.
  cbn [depth]. induction l as [|x l [IH1 IH2]]; cbn [foldr]; [split; [constructor | lia]|].
  split; [|lia]. constructor; [cbn; lia|]. eapply Forall_impl; [|exact IH1]. intros e He. cbn in *. lia.
Qed.

Lemma block_end lvl p m post :
  p < Z.of_nat (2 * lvl) -> Z.of_nat m <= p \/ lvl = O /\ post = [10; 0] /\ true = true -> ends_block lvl m post.
Proof. intros Hp [H | (H1 & H2 & _)]; [left; lia | by right]. Qed.

(** Every tree is read. *)
Lemma all_reads y : reads y.
Proof.
  induction y as [t v | l IH | l IH] using ytree_ind'; intros lvl p ctx pre post c m fuel Hok Hd Hi Hp Hcol Hpl Hn Hm Hctx.
  - destruct Hm as [Hm | (_ & _ & Hc)]; [|done]. cbn [tree_ok depth render value_of] in *. destruct fuel as [|fuel]; [lia|].
    apply (inline_read fuel t v p ctx pre post c m true (Z.of_nat (2 * lvl))); try done. lia.
  - pose proof (block_end _ _ _ _ Hpl Hm) as Hend. apply tree_ok_map in Hok as (Hne & Hnd & Hall).
    destruct (depth_map l) as [Hdl _]. destruct fuel as [|fuel]; [cbn in Hd; lia|].
    rewrite render_map in *. rewrite value_of_map.
    assert (Hlen : (length l < enough input)%nat).
    { pose proof (length_join (nl lvl) (entry_text lvl) l) as Hj. unfold enough. rewrite Hi, !length_app.
      enough (length l <= length (join (nl lvl) (map (entry_text lvl) l)))%nat by lia. apply Hj.
      intros [[t k] x] _. unfold entry_text. cbn. by destruct t. }
    assert (Hall' : Forall (fun e => reads e.2 /\ key_ok e.1.1 e.1.2 /\ tree_ok e.2 /\ (depth e.2 <= fuel)%nat) l).
    { apply Forall_elem. intros e He. rewrite Forall_elem in IH. apply (proj1 (Forall_elem _ _) Hall) in He as H1.
      apply (proj1 (Forall_elem _ _) Hdl) in He as H2. destruct H1 as [H1 H1'].
      split; [by apply IH|]. split; [done|]. split; [done|]. cbn beta in H2. lia. }
    destruct (map_reads lvl (p + 1) fuel post m l Hn Hend Hne Hall' [] false c pre None None VNull (enough input) Hi Hp Hcol Hnd
                ltac:(intros e _ He; by apply elem_of_nil in He) Hlen) as (cn & tg & kd & w & E & Ha & Hline).
    exists cn, None, (Some mapping), (VObj (fold_left add_entry l [])), None. split; [|split; [by apply resolve_none|]].
    + destruct l as [|[[t k] x] l]; [done|]. apply Forall_cons_iff in Hall as [[[Hk _] _] _]. cbn [fst snd] in Hk.
      assert (exists post', input = pre ++ t ++ post') as [post' Hi'].
      { rewrite Hi. cbn [map]. rewrite join_cons. unfold entry_text at 1. cbn [fst snd]. eexists. by rewrite <- !app_assoc. }
      unfold read_content, or_else at 1, or_else at 1. rewrite (no_sequence _ _ _ _ _ _ Hi' Hp (inline_start_of _ _ Hk)).
      cbn [res_bind]. unfold readBlockMapping. cbn [st st_tag st_anchor name_node res_bind cur]. fold (st c None None VNull).
      rewrite E. reflexivity.
    + exists 0, cn. rewrite app_assoc in Hi. split; [|by split]. exact (skip_arrived _ _ _ _ _ Hi Hn Ha).
  - pose proof (block_end _ _ _ _ Hpl Hm) as Hend. apply tree_ok_seq in Hok as (Hne & Hall).
    destruct (depth_seq l) as [Hdl _]. destruct fuel as [|fuel]; [cbn in Hd; lia|].
    cbn [render value_of] in *.
    assert (Hlen : (length l < enough input)%nat).
    { unfold enough. rewrite Hi, !length_app.
      pose proof (length_join (nl lvl) (fun x => 45 :: 32 :: render (S lvl) x) l ltac:(done)). lia. }
    assert (Hall' : Forall (fun x => reads x /\ tree_ok x /\ (depth x <= fuel)%nat) l).
    { apply Forall_elem. intros e He. rewrite Forall_elem in IH. apply (proj1 (Forall_elem _ _) Hall) in He as H1.
      apply (proj1 (Forall_elem _ _) Hdl) in He as H2.
      split; [by apply IH|]. split; [done|]. cbn beta in H2. lia. }
    destruct (seq_reads lvl fuel post m l Hn Hend Hne Hall' [] false c pre None None VNull (enough input) Hi Hp Hcol Hlen)
      as (cn & tg & kd & w & E & Ha & Hline).
    exists cn, None, (Some sequence), (VArr (map value_of l)), None. split; [|split; [by apply resolve_none|]].
    + unfold read_content, or_else at 1, or_else at 1, readBlockSequence. cbn [st st_tag st_anchor name_node res_bind cur].
      fold (st c None None VNull). rewrite E. reflexivity.
    + exists 0, cn. rewrite app_assoc in Hi. split; [|by split]. exact (skip_arrived _ _ _ _ _ Hi Hn Ha).
Qed.
End Compose.
End Load.

(** ** The document *)

Lemma join_length_elem sep w l : w ∈ l -> (length w <= length (join sep l))%nat.
Proof.
  induction l as [|x l IH]; intros H; [by apply elem_of_nil in H|]. rewrite join_cons, length_app.
  apply elem_of_cons in H as [-> | H]; [lia|]. specialize (IH H). destruct l; [by apply elem_of_nil in H|].
  rewrite length_app. lia.
Qed.

(** The fuel of [readDocument] is enough for every tree. *)
Lemma depth_render implicits types lvl y : tree_ok implicits types y -> (depth y <= S (length (render lvl y)))%nat.
Proof.
  revert lvl. induction y as [t v | l IH | l IH] using ytree_ind'; intros lvl Hok; [cbn; lia|..].
  - apply tree_ok_map in Hok as (Hne & _ & Hok). rewrite render_map. cbn [depth]. apply le_n_S.
    set (n := length (join (nl lvl) (map (entry_text lvl) l))).
    assert (Hall : Forall (fun e => (Nat.max 1 (depth e.2) <= n)%nat) l).
    { apply Forall_elem. intros e He. pose proof (proj1 (Forall_elem _ _) IH e He (S lvl)) as Hd. cbn beta in Hd.
      specialize (Hd (proj2 (proj1 (Forall_elem _ _) Hok e He))).
      assert (length (entry_text lvl e) <= n)%nat as H.
      { apply join_length_elem. by apply (list_elem_of_fmap_2 (entry_text lvl)). }
      unfold entry_text in H. rewrite length_app in H. cbn [length] in H.
      destruct e as [[t k] x]. cbn [fst snd] in *. destruct x; cbn [value_text] in H; [cbn in *; lia | rewrite length_app in H; cbn [nl length] in H; lia..]. }
    clear IH Hok. clearbody n. assert (1 <= n)%nat by (destruct Hall; [done | lia]). clear Hne.
    induction Hall as [|[[t k] x] l Hx _ IH]; cbn [foldr]; [done | cbn in Hx; lia].
  - apply tree_ok_seq in Hok as (Hne & Hok). cbn [depth render]. apply le_n_S.
    set (n := length (join (nl lvl) (map (fun x => 45 :: 32 :: render (S lvl) x) l))).
    assert (Hall : Forall (fun x => (Nat.max 1 (depth x) <= n)%nat) l).
    { apply Forall_elem. intros x Hx. pose proof (proj1 (Forall_elem _ _) IH x Hx (S lvl) (proj1 (Forall_elem _ _) Hok x Hx)) as Hd.
      assert (length ((45 :: 32 :: render (S lvl) x)%Z) <= n)%nat as H.
      { apply join_length_elem. by apply (list_elem_of_fmap_2 (fun x => (45 :: 32 :: render (S lvl) x)%Z)). }
      cbn [length] in H. lia. }
    clear IH Hok. clearbody n. assert (1 <= n)%nat by (destruct Hall; [done | lia]). clear Hne.
    induction Hall as [|x l Hx _ IH]; cbn [foldr]; [done | lia].
Qed.

(** A document that is a collection. *)
Section Document.
Context (implicits : list ytype) (types : type_map) (y : ytree).
Context (Hok : tree_ok implicits types y) (Hcol : is_collection y = true).

Let d := render 0 y.
Let input := d ++ [10; 0].
Let c0 := Cursor 0 0 0 0.

Lemma tree_first : exists x rest, d = x :: rest /\ node_start x /\ (x = 45 -> first_char rest <> 45).
Proof.
  destruct (render_start _ _ 0 y Hok) as (x & rest & E & Hx). exists x, rest. split; [exact E|]. split; [exact Hx|].
  intros ->. subst d. destruct y as [|l|l]; [done|..].
  - apply tree_ok_map in Hok as (Hne & _ & Hall). destruct l as [|[[t k] z] l]; [done|].
    apply Forall_cons_iff in Hall as [[(Hin & _ & Hdash & _) _] _]. cbn [fst snd] in *.
    apply inline_start_of in Hin. destruct (start_cons t Hin) as [t' Et]. rewrite render_map in E. cbn [map] in E.
    rewrite join_cons in E. unfold entry_text at 1 in E. cbn [fst snd] in E. rewrite Et in E. injection E as E _. by rewrite E in Hdash.
  - apply tree_ok_seq in Hok as (Hne & _). destruct l as [|z l]; [done|]. cbn [render map] in E. rewrite join_cons in E.
    injection E as <-. done.
Qed.

Lemma read_tree r :
  exists cn tg kd,
    readDocument input (zlen d + 1) false implicits types (LState c0 None None None r None [] [] [])
    = Ok (LState cn tg None kd (value_of y) None [] [] [value_of y]) /\ position cn = zlen d + 1.
Proof.
  destruct tree_first as (x & rest & Ed & (Hx & H33 & H38 & H37 & _) & Hdash).
  assert (Hi : input = [] ++ x :: rest ++ [10; 0]) by (unfold input; by rewrite Ed).
  assert (Hp : position c0 = zlen (@nil Z)) by done. pose proof (ch_pre _ _ _ _ _ Hi Hp) as Hch.
  pose proof (skip_here _ _ _ _ _ true Hi Hp (or_introl Hx)) as Hskip.
  assert (Hn : next_line 0 [10; 0]) by (by right).
  assert (Hfuel : exists k, (4 * enough input = S k)%nat /\ (depth y <= k)%nat).
  { exists (4 * length input + 3)%nat. split; [unfold enough; lia|]. pose proof (depth_render _ _ 0 y Hok) as Hd. fold d in Hd.
    unfold input. rewrite length_app. cbn. lia. }
  destruct Hfuel as (k & Ek & Hk).
  assert (Hid : input = [] ++ render 0 y ++ [10; 0]) by done.
  destruct (all_reads implicits types input (zlen d + 1) y 0%nat (-1) CONTEXT_BLOCK_OUT [] [10; 0] c0 0%nat k Hok Hk Hid eq_refl eq_refl
              ltac:(lia) Hn ltac:(by right) ltac:(done)) as (c' & tg & kd & raw & tg' & Hr & Hres & j & cn & Hs & Ha & _).
  exists cn, tg', kd. destruct Ha as (Hpos & Hls & Hli). cbn [app] in Hpos, Hls. fold d in Hpos, Hls. split; [|lia].
  unfold readDocument.
  change (set_anchorMap [] (set_tagMap [] (set_version None (LState c0 None None None r None [] [] [])))) with (st c0 None None r).
  unfold enough at 1. cbn [directives_loop]. change (cur (st c0 None None r)) with c0. rewrite Hch.
  apply content_char_spec in Hx as Hx0. rewrite (proj2 (Z.eqb_neq x 0)) by tauto.
  unfold skip_state at 1. change (cur (st c0 None None r)) with c0. rewrite Hskip. cbn [res_bind].
  change (set_cur c0 (st c0 None None r)) with (st c0 None None r). change (cur (st c0 None None r)) with c0. rewrite Hch, H37.
  cbn [negb]. rewrite orb_true_r. cbn [res_bind]. unfold skip_state at 1. change (cur (st c0 None None r)) with c0. rewrite Hskip.
  cbn [res_bind]. change (set_cur c0 (st c0 None None r)) with (st c0 None None r). change (cur (st c0 None None r)) with c0.
  assert ((lineIndent c0 =? 0) && (char_at input (position c0) =? 45) && (char_at input (position c0 + 1) =? 45)
          && (char_at input (position c0 + 2) =? 45) = false) as ->.
  { change (char_at input (position c0)) with (ch input c0). rewrite Hch. destruct (x =? 45) eqn:E45; [|by rewrite andb_false_r]. breflect.
    enough (char_at input (position c0 + 1) =? 45 = false) as -> by (by rewrite andb_false_r).
    specialize (Hdash E45). apply Z.eqb_neq. rewrite Hi. cbn [app]. destruct rest as [|z rest].
    - done.
    - change (char_at (x :: (z :: rest) ++ [10; 0]) (position c0 + 1)) with z. exact Hdash. }
  cbn [res_bind]. change (lineIndent (cur (st c0 None None r)) - 1) with (-1). rewrite Ek.
  assert (Hblock : composeNode (S k) input (zlen d + 1) false implicits types (-1) CONTEXT_BLOCK_OUT false true (st c0 None None r)
                   = Ok (true, st c' tg' kd (value_of y))).
  { eapply (compose_here implicits types input (zlen d + 1) k (-1) CONTEXT_BLOCK_OUT c0 None None r [] x (rest ++ [10; 0])); try done; exact Hr. }
  rewrite Hblock. cbn [res_bind]. unfold skip_state at 1. change (cur (st c' tg' kd (value_of y))) with c'. rewrite Hs. cbn [res_bind].
  change (push_document (set_cur cn (st c' tg' kd (value_of y)))) with (LState cn tg' None kd (value_of y) None [] [] [value_of y]).
  cbn [cur]. assert (Hend : ch input cn = 0).
  { apply (ch_pre input (d ++ [10]) 0 []); [unfold input; by rewrite <- app_assoc|]. rewrite Hpos. autorewrite with zlen. lia. }
  assert (at_separator input cn = false) as ->.
  { unfold at_separator, testDocumentSeparator. rewrite Hend. cbn. by rewrite andb_false_r. }
  rewrite (proj2 (Z.ltb_ge _ _)) by lia. reflexivity.
Qed.
End Document.

(** A text in the block style is read as its tree. *)
Lemma safeLoad_tree y :
  tree_ok (compiledImplicit DEFAULT_SAFE_SCHEMA) (compiledTypeMap DEFAULT_SAFE_SCHEMA) y -> is_collection y = true ->
  safeLoad (VStr (render 0 y ++ [10])) = Ok (value_of y).
Proof.
  intros Hok Hcol. destruct (tree_first _ _ y Hok Hcol) as (x & rest & Ed & (Hx & _ & _ & _ & Hbom) & _).
  unfold safeLoad. cbn [to_string res_bind]. unfold load, loadDocuments. cbn [opt_json opt_schema].
  rewrite prepare_line by (rewrite Ed; done). rewrite <- app_assoc. cbn [app]. rewrite zlen_app. change (zlen [10]) with 1.
  assert (Hi : render 0 y ++ [10; 0] = [] ++ x :: rest ++ [10; 0]) by (by rewrite Ed).
  assert (scan (render 0 y ++ [10; 0]) not_space 0 = 0) as ->.
  { apply content_char_spec in Hx as (_ & Hw & _). pose proof (scan_here _ [] x _ not_space (Cursor 0 0 0 0) Hi eq_refl) as Hs.
    unfold scan_cursor, goto in Hs. cbn [position] in Hs.
    assert (not_space x = true) as Hx'. { unfold not_space. unfold is_WHITE_SPACE in Hw. apply orb_false_iff in Hw as [_ ->]. done. }
    specialize (Hs Hx'). by injection Hs. }
  set (text := render 0 y ++ [10; 0]). unfold enough.
  replace (2 * S (length text))%nat with (S (S (2 * length text))) by lia. subst text.
  cbn [documents_loop cur position]. rewrite (proj2 (Z.ltb_lt _ _)).
  2:{ rewrite Ed, zlen_cons. pose proof (zlen_nonneg rest). lia. }
  destruct (read_tree _ _ y Hok Hcol VUndef) as (cn & tg & kd & E & Hp). rewrite E. cbn [res_bind documents_loop cur].
  rewrite (proj2 (Z.ltb_ge _ _)) by lia. reflexivity.
Qed.
