(* ===== verification/YamlTreeDump.v ===== *)
(** What the dumper writes for data without repeated objects: a document in the
    block style of [YamlTreeLoad], which the loader reads back. *)

From Stdlib Require Import ZArith Lia List String Bool.
From stdpp Require Import base list sets list_numbers tactics.
From S2P Require Import Prelude JsNum Js YamlCommon YamlInt YamlFloat YamlImplicit YamlSchema YamlScanner YamlLoader YamlWriter YamlDumper YamlDumpSafety YamlRoundTrip YamlTreeLoad.

(** The types of the default schema, which both sides use. *)
Definition safe_types : list ytype := compiledImplicit DEFAULT_SAFE_SCHEMA.
Definition safe_type_map : type_map := compiledTypeMap DEFAULT_SAFE_SCHEMA.

Local Abbreviation inline := (inline safe_types safe_type_map).
Local Abbreviation tree_ok := (tree_ok safe_types safe_type_map).
Local Abbreviation key_ok := (key_ok safe_types safe_type_map).

(** ** The texts of strings *)

(** A key is written on one line: every line break is escaped. *)
Lemma single_line_loop_Some s plain p :
  single_line_loop s plain = Some p -> Forall (fun c => isPrintable c = true) s /\ p = plain && forallb isPlainSafe s.
Proof.
  revert plain. induction s as [|c s IH]; intros plain; cbn [single_line_loop forallb].
  - intros [= <-]. by rewrite andb_true_r.
  - destruct (isPrintable c) eqn:E; [|done]. intros [H ->]%IH. split; [by constructor|]. by rewrite andb_assoc.
Qed.

Lemma chooseScalarStyle_key s w f : style_fits f s (chooseScalarStyle s true 2 w f).
Proof.
  unfold chooseScalarStyle. set (plain := isPlainSafeFirst _ && _).
  destruct (single_line_loop s plain) as [p|] eqn:E; [|done]. apply single_line_loop_Some in E as [Hs Hp].
  cbn. by apply plain_or_single.
Qed.

Lemma plain_inline_start x t :
  isPlainSafeFirst x = true -> inline_start (x :: t) = true.
Proof.
  intros Hx. cbn [inline_start]. destruct (plain_first_start x Hx) as (_ & _ & _ & _ & _ & H45).
  rewrite (proj2 (Z.eqb_neq _ _) H45), andb_true_r. apply negb_true_iff, not_true_iff_false.
  intros (y & Hy & E)%existsb_exists. breflect. subst y. simpl in Hy.
  repeat destruct Hy as [<- | Hy]; done.
Qed.

Lemma escapeString_defined s : Forall unit16 s -> exists e, escapeString s = Ok e /\ zlen e <= 6 * zlen s.
Proof.
  induction 1 as [|c s Hc _ (e & He & Hl)]; [by exists []|]. cbn [escapeString]. rewrite He, zlen_cons.
  destruct (escape_of c) as [x|] eqn:Ex; [|destruct (isPrintable c)].
  - apply escape_of_simple in Ex as (y & -> & _). eexists. split; [reflexivity|]. autorewrite with zlen. lia.
  - eexists. split; [reflexivity|]. autorewrite with zlen. lia.
  - destruct (encodeHex_unit c Hc) as (h & ds & -> & _ & _ & _ & Hn & _). eexists. split; [reflexivity|].
    rewrite zlen_app, !zlen_cons, zlen_map. lia.
Qed.

Lemma double_quotes_length s : zlen (double_quotes s) <= 2 * zlen s.
Proof.
  induction s as [|c s IH]; [done|]. unfold double_quotes in *. cbn [map concat]. rewrite zlen_app, zlen_cons.
  destruct (c =? 39); autorewrite with zlen; lia.
Qed.

(** The text [t] stands for the string [s] on one line. *)
Record string_text (s t : jstr) : Prop := {
  text_inline : inline t (VStr s);
  text_length : zlen t <= 6 * zlen s + 2;
  text_dash : (first_char t =? 45) = false;
  text_dots : starts_with (u "...") t = true -> t = s
}.

Lemma string_text_single s : Forall (fun c => isPrintable c = true) s -> string_text s ([39] ++ double_quotes s ++ [39]).
Proof.
  intros Hs. split; [by apply inline_single | | done | done].
  pose proof (double_quotes_length s). pose proof (zlen_nonneg s). autorewrite with zlen. lia.
Qed.

Lemma string_text_double s e : Forall unit16 s -> escapeString s = Ok e -> zlen e <= 6 * zlen s -> string_text s ([34] ++ e ++ [34]).
Proof. intros Hs He Hl. split; [by apply inline_double | | done | done]. autorewrite with zlen. lia. Qed.

Lemma string_text_plain s :
  s <> [] -> style_fits (testImplicitResolving safe_state) s STYLE_PLAIN -> string_text s s.
Proof.
  intros Hne (Hf & Hl & Hp & Ha). destruct (plain_first_start _ Hf) as (_ & Hexc & _ & _ & _ & H45).
  split; [| pose proof (zlen_nonneg s); lia | by apply Z.eqb_neq | done].
  apply inline_plain; [exact Hne | exact Hp | | exact Hexc | |].
  - destruct s as [|x s]; [done|]. by apply plain_inline_start.
  - clear Ha. destruct (exists_last Hne) as (t & x & ->). by rewrite last_last in *.
  - unfold resolves_to. destruct (find _ _) as [ty|] eqn:E; [|reflexivity]. apply find_some in E as [Hin Hr].
    apply not_true_iff_false in Ha. destruct Ha. apply existsb_exists. exists ty. split; [exact Hin | exact Hr].
Qed.

(** What [writeScalar] writes for a string that fits the line, or for a key. *)
Lemma writeScalar_text s level iskey :
  Forall unit16 s -> iskey = true \/ one_line_in (scalar_width safe_state level) s ->
  exists t, writeScalar safe_state s level iskey = Ok t /\ string_text s t.
Proof.
  intros H16 Hone. unfold writeScalar. case_bool_decide as Hnil.
  { subst s. eexists. split; [reflexivity|]. by apply (string_text_single []). }
  destruct (negb (noCompatMode safe_state) && _) eqn:Edep.
  { apply andb_true_iff in Edep as [_ Hdep%bool_decide_eq_true]. destruct (deprecated_quotes s Hdep) as [Hq Hpr].
    eexists. split; [reflexivity|]. rewrite <- Hq at 2. by apply string_text_single. }
  change (d_indent safe_state) with 2. change (-1 <? flowLevel safe_state) with false. cbv zeta. cbn [andb]. rewrite orb_false_r.
  set (w := scalar_width safe_state level) in *.
  assert (Hstyle : style_fits (testImplicitResolving safe_state) s
                     (chooseScalarStyle s iskey 2 w (testImplicitResolving safe_state))).
  { destruct iskey; [apply chooseScalarStyle_key|]. destruct Hone as [? | Hone]; [done|]. by apply chooseScalarStyle_one_line. }
  destruct (chooseScalarStyle _ _ _ _ _); try done.
  - eexists. split; [reflexivity|]. by apply string_text_plain.
  - eexists. split; [reflexivity|]. by apply string_text_single.
  - destruct (escapeString_defined s H16) as (e & He & Hl). rewrite He. eexists. split; [reflexivity|]. by apply string_text_double.
Qed.

(** ** The texts of null, booleans and numbers *)

Lemma safe_types_list : safe_types = [yaml_null; yaml_boolean; yaml_int; yaml_float; yaml_timestamp; yaml_merge].
Proof. reflexivity. Qed.

Definition plain_shape (s : jstr) : bool :=
  forallb isPlainSafe s && inline_start s && negb (plain_excluded (first_char s)) && negb (isWhitespace (List.last s 0)).

Lemma inline_shape s v : plain_shape s = true -> resolves_to safe_types s v -> inline s v.
Proof.
  unfold plain_shape. intros [[[H1 H2]%andb_prop H3%negb_true_iff]%andb_prop H4%negb_true_iff]%andb_prop Hv.
  apply inline_plain; [clear Hv; by intros -> | | exact H2 | exact H3 | exact H4 | exact Hv].
  clear Hv. apply Forall_elem. intros c Hc. by apply (proj1 (forallb_forall _ _) H1), list_elem_of_In.
Qed.

(** The digits of an integer. *)
Definition int_text (neg : bool) (n : Z) : jstr := (if neg then [45] else []) ++ to_radix 10 n.

Lemma digit_safe c : is_digit_in 10 c = true ->
  isPlainSafe c = true /\ content_char c = true /\ is_WS_OR_EOL c = false /\ isWhitespace c = false /\ plain_excluded c = false /\
  negb (existsb (Z.eqb c) [-1; 0; 9; 10; 13; 32; 33; 35; 37; 38; 42; 58; 63; 62; 124; 65279]) && negb (c =? 45) = true.
Proof.
  intros H. apply is_digit_small in H; [|done].
  assert (c = 48 \/ c = 49 \/ c = 50 \/ c = 51 \/ c = 52 \/ c = 53 \/ c = 54 \/ c = 55 \/ c = 56 \/ c = 57) as Hc by lia.
  repeat destruct Hc as [-> | Hc]; [repeat split; reflexivity.. | subst; repeat split; reflexivity].
Qed.

Lemma int_text_shape neg n : 0 <= n -> plain_shape (int_text neg n) = true.
Proof.
  intros Hn. pose proof (to_radix_digits 10 n ltac:(lia) Hn) as Hd. unfold int_text, plain_shape.
  pose proof (to_radix_not_nil 10 n) as Hne. destruct (to_radix 10 n) as [|c s]; [done|].
  assert (Hsafe : forallb isPlainSafe (c :: s) = true).
  { apply forallb_forall. intros x Hx. apply digit_safe. rewrite Forall_elem in Hd. by apply Hd, list_elem_of_In. }
  assert (Hlast : isWhitespace (List.last (c :: s) 0) = false).
  { destruct (exists_last Hne) as (t & x & E). rewrite E in *. rewrite last_last. apply Forall_app in Hd as [_ Hd].
    apply Forall_inv in Hd. destruct (digit_safe x Hd) as (_ & _ & _ & Hx & _). exact Hx. }
  apply Forall_inv, digit_safe in Hd as (_ & _ & Hw & _ & Hex & Hst). apply andb_prop in Hst as [Hst H45].
  destruct neg; cbn [app].
  - cbn [forallb] in *. apply andb_prop in Hsafe as [-> ->]. cbn [inline_start]. rewrite Hw. change (List.last (45 :: c :: s) 0) with (List.last (c :: s) 0).
    by rewrite Hlast.
  - rewrite Hsafe, Hlast. cbn [inline_start]. rewrite Hst, H45. change (first_char (c :: s)) with c. by rewrite Hex.
Qed.

Lemma int_text_resolves neg n s v :
  s = int_text neg n -> 0 <= n -> resolveYamlInteger (Some s) = true -> constructYamlInteger s = v -> resolves_to safe_types s (VNum v).
Proof.
  intros Hs Hn Hr Hc. unfold resolves_to. rewrite safe_types_list. cbn [find].
  assert (Hf : first_char s <> 126 /\ first_char s <> 110 /\ first_char s <> 78 /\ first_char s <> 116 /\ first_char s <> 84 /\
               first_char s <> 102 /\ first_char s <> 70).
  { subst s. unfold int_text. destruct neg; [done|]. pose proof (to_radix_digits 10 n ltac:(lia) Hn) as Hd. cbn [app].
    destruct (to_radix 10 n) as [|c s]; [done|]. apply Forall_inv in Hd. apply is_digit_small in Hd; [|done].
    change (first_char (c :: s)) with c. repeat split; lia. }
  change (resolve yaml_null (VStr s)) with (resolveYamlNull (Some s)).
  change (resolve yaml_boolean (VStr s)) with (resolveYamlBoolean (Some s)).
  change (resolve yaml_int (VStr s)) with (resolveYamlInteger (Some s)).
  destruct (resolveYamlNull (Some s)) eqn:E1.
  { apply null_texts in E1. simpl in E1. exfalso. repeat destruct E1 as [<- | E1]; [cbn in Hf; tauto..|done]. }
  destruct (resolveYamlBoolean (Some s)) eqn:E2.
  { apply bool_texts in E2. simpl in E2. exfalso. repeat destruct E2 as [<- | E2]; [cbn in Hf; tauto..|done]. }
  rewrite Hr. split; [|by apply (bool_decide_unpack _)].
  change (construct yaml_int (VStr s)) with (Ok (VNum (constructYamlInteger s))). by rewrite Hc.
Qed.

(** The numbers that are written exactly: integers up to [2 ^ 53], the zeros,
    the infinities and NaN. *)
Definition exact_num (n : num) : Prop := match n with NFin _ m => Z.of_N m <= max_safe | NFrac _ _ _ => False | _ => True end.

Definition num_text (n : num) : jstr := if isInteger (VNum n) then representYamlInteger int_decimal n else representYamlFloat n float_lowercase.

Lemma inline_num n : exact_num n -> inline (num_text n) (VNum n).
Proof.
  destruct n as [neg m | |neg|]; cbn [exact_num]; intros Hm; [|done|..].
  - destruct (decide (m = 0%N)) as [-> | H0].
    { destruct neg; (apply inline_shape; [reflexivity|]); vm_compute; (split; [reflexivity | discriminate]). }
    assert (Hint : isInteger (VNum (NFin neg m)) = true).
    { cbn. unfold isNegativeZero. destruct neg, m; done. }
    unfold num_text. rewrite Hint. cbn [representYamlInteger num_to_radix]. rewrite (proj2 (N.eqb_neq _ _) H0), andb_true_r.
    change (10 =? 10) with true. cbv iota. unfold mag_to_string. rewrite (proj2 (Z.leb_le _ _) Hm).
    change (u "-") with [45]. change ((if neg then [45] else []) ++ to_radix 10 (Z.of_N m)) with (int_text neg (Z.of_N m)).
    apply inline_shape; [apply int_text_shape; lia|].
    destruct (int_decimal_text neg (Z.of_N m) ltac:(lia)) as [Hr Hc].
    eapply int_text_resolves; [reflexivity | lia | exact Hr |]. unfold int_text. rewrite Hc.
    rewrite num_of_Z_safe by (destruct neg; lia). destruct neg; f_equal; lia.
  - destruct neg; (apply inline_shape; [reflexivity|]); vm_compute; (split; [reflexivity | discriminate]).
  - apply inline_shape; [reflexivity|]. vm_compute. split; [reflexivity | discriminate].
Qed.

(** ** Data in the heap

    A value in the cells from [lo] to [hi], each cell being used once. *)

Definition is_prim (v : value) : bool := match v with VNull | VBool _ | VNum _ | VStr _ => true | _ => false end.

Inductive laid (h : heap) : nat -> value -> jsval -> nat -> Prop :=
| laid_prim lo v : is_prim v = true -> laid h lo v (Prim v) lo
| laid_arr lo l xs a : laid_list h lo l xs a -> h !! a = Some (CArr xs) -> laid h lo (VArr l) (Ref a) (S a)
| laid_obj lo o e a :
    laid_list h lo (map snd o) (map snd e) a -> map fst e = map fst o -> h !! a = Some (CObj e) -> laid h lo (VObj o) (Ref a) (S a)
with laid_list (h : heap) : nat -> list value -> list jsval -> nat -> Prop :=
| laid_nil lo : laid_list h lo [] [] lo
| laid_cons lo v x mid l xs hi : laid h lo v x mid -> laid_list h mid l xs hi -> laid_list h lo (v :: l) (x :: xs) hi.

Scheme laid_min := Minimality for laid Sort Prop
with laid_list_min := Minimality for laid_list Sort Prop.
Combined Scheme laid_both from laid_min, laid_list_min.

Lemma laid_le h :
  (forall lo v x hi, laid h lo v x hi -> (lo <= hi)%nat) /\ (forall lo l xs hi, laid_list h lo l xs hi -> (lo <= hi)%nat).
Proof. apply laid_both; intros; lia. Qed.

Lemma laid_app h t :
  (forall lo v x hi, laid h lo v x hi -> laid (h ++ t) lo v x hi) /\
  (forall lo l xs hi, laid_list h lo l xs hi -> laid_list (h ++ t) lo l xs hi).
Proof.
  apply laid_both; intros; [by constructor | econstructor; [done|] | econstructor; [done..|] | constructor | by econstructor];
    by apply lookup_app_l_Some.
Qed.

(** Data of JSON. *)
Fixpoint plain_data (v : value) : bool :=
  match v with
  | VNull | VBool _ | VNum _ | VStr _ => true
  | VArr l => forallb plain_data l
  | VObj o => forallb (fun kx => plain_data kx.2) o
  | _ => false
  end.

Lemma alloc_laid v : plain_data v = true -> forall h,
  let '(h', x) := alloc h v in exists t, h' = h ++ t /\ laid h' (length h) v x (length h').
Proof.
  induction v as [| | | | |l IH|o IH| | |] using value_ind'; intros Hv h; try discriminate Hv; cbn [alloc];
    try (exists []; rewrite app_nil_r; split; [done | by constructor]).
  - match goal with |- context [?f h l] => is_fix f; set (go := f) end.
    assert (Hgo : forall l, Forall (fun v => plain_data v = true -> forall h,
                let '(h', x) := alloc h v in exists t, h' = h ++ t /\ laid h' (length h) v x (length h')) l ->
              forallb plain_data l = true -> forall h,
              let '(h', xs) := go h l in exists t, h' = h ++ t /\ laid_list h' (length h) l xs (length h')).
    { clear. intros l. induction 1 as [|v l Hv _ IH]; intros Hl h; cbn [go]; [exists []; rewrite app_nil_r; split; [done | constructor]|].
      cbn [forallb] in Hl. apply andb_prop in Hl as [Hp Hl]. specialize (Hv Hp h). destruct (alloc h v) as [h1 x].
      destruct Hv as (t1 & -> & Hx). specialize (IH Hl (h ++ t1)). destruct (go (h ++ t1) l) as [h2 xs].
      destruct IH as (t2 & -> & Hxs). exists (t1 ++ t2). rewrite app_assoc. split; [done|].
      eapply laid_cons; [by apply (proj1 (laid_app _ _)) | exact Hxs]. }
    specialize (Hgo l IH Hv h). destruct (go h l) as [h1 xs]. destruct Hgo as (t & -> & Hxs).
    exists (t ++ [CArr xs]). rewrite app_assoc. split; [done|]. rewrite (length_app (h ++ t)). cbn [length]. rewrite Nat.add_1_r.
    eapply laid_arr; [by apply (proj2 (laid_app _ _)) | by apply list_lookup_middle].
  - match goal with |- context [?f h o] => is_fix f; set (go := f) end.
    assert (Hgo : forall o, Forall (fun kv => plain_data kv.2 = true -> forall h,
                let '(h', x) := alloc h kv.2 in exists t, h' = h ++ t /\ laid h' (length h) kv.2 x (length h')) o ->
              forallb (fun kx => plain_data kx.2) o = true -> forall h,
              let '(h', e) := go h o in exists t, h' = h ++ t /\ map fst e = map fst o /\ laid_list h' (length h) (map snd o) (map snd e) (length h')).
    { clear. intros o. induction 1 as [|[k v] o Hv _ IH]; intros Hl h; cbn [go]; [exists []; rewrite app_nil_r; split; [done | split; [done | constructor]]|].
      cbn [forallb snd] in *. apply andb_prop in Hl as [Hp Hl]. specialize (Hv Hp h). destruct (alloc h v) as [h1 x].
      destruct Hv as (t1 & -> & Hx). specialize (IH Hl (h ++ t1)). destruct (go (h ++ t1) o) as [h2 e].
      destruct IH as (t2 & -> & Hke & Hxs). exists (t1 ++ t2). rewrite app_assoc. split; [done|]. cbn [map fst snd]. split; [by rewrite Hke|].
      eapply laid_cons; [by apply (proj1 (laid_app _ _)) | exact Hxs]. }
    specialize (Hgo o IH Hv h). destruct (go h o) as [h1 e]. destruct Hgo as (t & -> & Hke & Hxs).
    exists (t ++ [CObj e]). rewrite app_assoc. split; [done|]. rewrite (length_app (h ++ t)). cbn [length]. rewrite Nat.add_1_r.
    eapply laid_obj; [by apply (proj2 (laid_app _ _)) | exact Hke | by apply list_lookup_middle].
Qed.

(** ** No object is found twice *)

(** The loop of [inspectNode] over the children. *)
Definition inspect_all (fuel : nat) (h : heap) :=
  fix each (l : list jsval) (st : list nat * list nat) : res (list nat * list nat) :=
    match l with [] => Ok st | x :: l => st <-? inspectNode fuel h x st; each l st end.

Lemma not_found (objs : list nat) a :
  a ∉ objs -> find (fun '(_, b) => Nat.eqb a b) (imap (fun i b => (i, b)) objs) = None.
Proof.
  intros Ha. pose proof (find_index objs a 0) as Hf.
  rewrite (imap_ext _ (fun i b => (i, b))) in Hf by (intros; cbn; f_equal; lia).
  destruct (find _ _) as [[i b]|]; [|done]. destruct Hf as [_ Hf]. by apply list_elem_of_lookup_2 in Hf.
Qed.

(** The objects found lie in the interval of the value. *)
Definition found (m : res (list nat * list nat)) (lo hi : nat) (objs : list nat) : Prop :=
  exists objs', m = Ok (objs', []) /\ Forall (fun a => a ∈ objs \/ lo <= a < hi)%nat objs'.

Lemma inspect_laid h :
  (forall lo v x hi, laid h lo v x hi -> forall fuel objs, (hi - lo < fuel)%nat -> Forall (fun a => a < lo \/ hi <= a)%nat objs ->
     found (inspectNode fuel h x (objs, [])) lo hi objs) /\
  (forall lo l xs hi, laid_list h lo l xs hi -> forall fuel objs, (hi - lo < fuel)%nat -> Forall (fun a => a < lo \/ hi <= a)%nat objs ->
     found (inspect_all fuel h xs (objs, [])) lo hi objs).
Proof.
  assert (Hcell : forall lo l xs a c, laid_list h lo l xs a ->
            (forall fuel objs, (a - lo < fuel)%nat -> Forall (fun b => b < lo \/ a <= b)%nat objs ->
               found (inspect_all fuel h xs (objs, [])) lo a objs) ->
            h !! a = Some c -> children c = xs ->
            forall fuel objs, (S a - lo < fuel)%nat -> Forall (fun b => b < lo \/ S a <= b)%nat objs ->
            found (inspectNode fuel h (Ref a) (objs, [])) lo (S a) objs).
  { intros lo l xs a c Hl IH Hc Hch fuel objs Hf Ho. apply (laid_le h) in Hl as Hle. destruct fuel as [|fuel]; [lia|].
    assert (Ha : a ∉ objs) by (intros H; rewrite Forall_elem in Ho; specialize (Ho a H); cbn in Ho; lia).
    cbn [inspectNode fst snd]. rewrite (not_found objs a Ha), Hc, Hch. change (found (inspect_all fuel h xs (objs ++ [a], [])) lo (S a) objs).
    destruct (IH fuel (objs ++ [a])) as (objs' & E & Ho'); [lia| |].
    { apply Forall_app. split; [|by repeat constructor]. eapply Forall_impl; [|exact Ho]. cbn. lia. }
    exists objs'. split; [exact E|]. eapply Forall_impl; [|exact Ho']. cbn. intros b [Hb | Hb]; [|lia].
    apply elem_of_app in Hb as [Hb | ->%list_elem_of_singleton]; [by left | lia]. }
  apply laid_both.
  - intros lo v _ fuel objs Hf Ho. destruct fuel as [|fuel]; [lia|]. exists objs. split; [done|].
    apply Forall_elem. intros a Ha. by left.
  - intros lo l xs a Hl IH Hc. by apply (Hcell lo l xs a (CArr xs)).
  - intros lo o e a Hl IH _ Hc. by apply (Hcell lo (map snd o) (map snd e) a (CObj e)).
  - intros lo fuel objs _ Ho. exists objs. split; [done|]. apply Forall_elem. intros a Ha. by left.
  - intros lo v x mid l xs hi Hx IHx Hl IHl fuel objs Hf Ho. apply (laid_le h) in Hl as H1. apply (laid_le h) in Hx as H2.
    destruct (IHx fuel objs) as (o1 & E1 & Ho1); [lia| |].
    { eapply Forall_impl; [|exact Ho]. cbn. lia. }
    destruct (IHl fuel o1) as (o2 & E2 & Ho2); [lia| |].
    { rewrite Forall_elem in Ho. eapply Forall_impl; [|exact Ho1]. cbn. intros a [Ha | Ha]; [|lia]. specialize (Ho a Ha). cbn in Ho. lia. }
    exists o2. cbn [inspect_all]. rewrite E1. split; [exact E2|]. rewrite Forall_elem in Ho1.
    eapply Forall_impl; [|exact Ho2]. cbn. intros a [Ha | Ha]; [|lia]. destruct (Ho1 a Ha) as [? | ?]; [by left | lia].
Qed.

Lemma no_duplicates h lo v x hi :
  laid h lo v x hi -> (hi <= length h)%nat -> getDuplicateReferences (S (S (length h))) h x = Ok [].
Proof.
  intros Hv Hl. destruct (proj1 (inspect_laid h) lo v x hi Hv (S (S (length h))) [] ltac:(lia) ltac:(done)) as (objs & E & _).
  unfold getDuplicateReferences. by rewrite E.
Qed.

(** ** What is written *)

(** Data of a document: strings that fit the line at their level, keys that are
    neither long nor [__proto__] nor start like the end of a document, numbers
    that are written exactly. *)
Definition key_fits (k : jstr) : Prop :=
  Forall unit16 k /\ zlen k <= 170 /\ starts_with (u "...") k = false /\ k <> u "__proto__".

Fixpoint document (lvl : nat) (v : value) : Prop :=
  match v with
  | VNull | VBool _ => True
  | VNum n => exact_num n
  | VStr s => Forall unit16 s /\ one_line_in (scalar_width safe_state (Z.of_nat lvl)) s
  | VArr l => foldr (fun x P => document (S lvl) x /\ P) True l
  | VObj o => insertion_order o /\ foldr (fun kx P => (key_fits kx.1 /\ document (S lvl) kx.2) /\ P) True o
  | _ => False
  end.

Lemma document_arr lvl l : document lvl (VArr l) <-> Forall (document (S lvl)) l.
Proof. apply (foldr_Forall (document (S lvl))). Qed.

Lemma document_obj lvl o :
  document lvl (VObj o) <-> insertion_order o /\ Forall (fun kx => key_fits kx.1 /\ document (S lvl) kx.2) o.
Proof. cbn [document]. by rewrite (foldr_Forall (fun kx => key_fits kx.1 /\ document (S lvl) kx.2)). Qed.

Lemma document_plain v : forall lvl, document lvl v -> plain_data v = true.
Proof.
  induction v as [| | | | |l IH|o IH| | |] using value_ind'; intros lvl H; try done.
  - apply document_arr in H. cbn [plain_data]. apply forallb_forall. intros x Hx%list_elem_of_In. rewrite Forall_elem in IH, H.
    exact (IH x Hx (S lvl) (H x Hx)).
  - apply document_obj in H as [_ H]. cbn [plain_data]. apply forallb_forall. intros x Hx%list_elem_of_In. rewrite Forall_elem in IH, H.
    exact (IH x Hx (S lvl) (proj2 (H x Hx))).
Qed.

Definition block_text (lvl : nat) (compact : bool) (y : ytree) : jstr :=
  (if is_collection y && negb compact then nl lvl else []) ++ render lvl y.

Section Loops.
Context (wn : Z -> jsval -> bool -> bool -> bool -> list nat -> res written).

(** The value [x] is written as the tree [y], and the key [k] as the text [t]. *)
Definition written_as (lvl : nat) (x : jsval) (y : ytree) : Prop := forall compact used,
  exists tg, wn (Z.of_nat lvl) x true compact false used = Ok (Written tg (Some (block_text lvl compact y)) used).

Definition key_written (lvl : nat) (k t : jstr) : Prop := forall used,
  wn (Z.of_nat lvl) (Prim (VStr k)) true true true used = Ok (Written None (Some t) used).

Definition entry_written (lvl : nat) (kx : jstr * jsval) (e : jstr * jstr * ytree) : Prop :=
  kx.1 = e.1.2 /\ key_written lvl e.1.2 e.1.1 /\ zlen e.1.1 <= 1024 /\ written_as lvl kx.2 e.2.

Lemma generateNextLine_nl lvl : generateNextLine safe_state (Z.of_nat lvl) = nl lvl.
Proof.
  unfold generateNextLine, nl, spaces. rewrite repeat_string_one. change (d_indent safe_state) with 2.
  by replace (Z.to_nat (2 * Z.of_nat lvl)) with (2 * lvl)%nat by lia.
Qed.

Definition joined (lvl : nat) (compact first : bool) (l : list jstr) : jstr :=
  if compact && first then join (nl lvl) l else concat (map (fun d => nl lvl ++ d) l).

Lemma joined_cons lvl compact first d l :
  joined lvl compact first (d :: l) = (if negb compact || negb first then nl lvl else []) ++ d ++ joined lvl compact false l.
Proof.
  unfold joined. rewrite andb_false_r. destruct compact, first; cbn [andb orb negb map concat app]; rewrite <- ?app_assoc; try done.
  rewrite join_cons. f_equal. destruct l as [|e l]; [done|]. revert e. induction l as [|e' l IH]; intros e.
  - cbn. by rewrite app_nil_r.
  - rewrite join_cons, IH. cbn [map concat]. by rewrite <- !app_assoc.
Qed.

Lemma write_items lvl compact xs ys :
  Forall2 (written_as (S lvl)) xs ys -> forall first result used,
  block_sequence_loop safe_state wn (Z.of_nat lvl) compact xs first result used
  = Ok (result ++ joined lvl compact first (map (fun y => 45 :: 32 :: render (S lvl) y) ys), used).
Proof.
  induction 1 as [|x y xs ys Hx _ IH]; intros first result used; cbn [block_sequence_loop map].
  - unfold joined. destruct (compact && first); cbn; by rewrite app_nil_r.
  - replace (Z.of_nat lvl + 1) with (Z.of_nat (S lvl)) by lia. destruct (Hx true used) as [tg E]. rewrite E. cbn [res_bind w_dump usedDuplicates].
    rewrite IH, joined_cons, generateNextLine_nl. unfold block_text. rewrite andb_false_r.
    change (u "- ") with [45; 32]. cbn [app]. by rewrite <- !app_assoc.
Qed.

(** The text after a key: its colon, and the value. *)
Lemma entry_value lvl y :
  tree_ok y -> after_indicator (u ":") (block_text lvl false y) ++ block_text lvl false y
  = 58 :: match y with Inl t _ => 32 :: t | _ => nl lvl ++ render lvl y end.
Proof.
  intros Hok. unfold after_indicator, block_text. destruct y as [t v| |]; cbn [is_collection andb negb app render]; try done.
  assert ((first_char t =? 10) = false) as ->; [|done]. apply (inline_not t); [by apply Hok | done].
Qed.

Lemma write_entries lvl compact o l :
  Forall2 (entry_written (S lvl)) o l -> Forall (fun e => tree_ok e.2) l -> forall first result used,
  block_mapping_loop safe_state wn (Z.of_nat lvl) compact o first result used
  = Ok (result ++ joined lvl compact first (map (entry_text lvl) l), used).
Proof.
  induction 1 as [|[k x] [[t k'] y] o l (Hk & Ht & Hlen & Hx) _ IH]; intros Hok first result used; cbn [block_mapping_loop map].
  - unfold joined. destruct (compact && first); cbn; by rewrite app_nil_r.
  - cbn [fst snd] in *. subst k'. apply Forall_cons_iff in Hok as [Hy Hok]. cbn [snd] in Hy.
    replace (Z.of_nat lvl + 1) with (Z.of_nat (S lvl)) by lia. rewrite Ht. cbn [res_bind w_dump w_tag usedDuplicates orb].
    rewrite (proj2 (Z.ltb_ge _ _)) by lia. destruct (Hx false used) as [tg E]. rewrite E. cbn [res_bind w_dump usedDuplicates].
    rewrite IH by done. rewrite joined_cons, generateNextLine_nl. cbn [app]. rewrite (entry_value (S lvl) y Hy).
    unfold entry_text, value_text. cbn [fst snd]. by rewrite <- !app_assoc.
Qed.
End Loops.

(** ** Nodes that are no collections *)

Lemma detect_string s : detectType safe_state (VStr s) = Ok None.
Proof. reflexivity. Qed.

Lemma detect_num n : exact_num n -> detectType safe_state (VNum n) = Ok (Some (u "?", Some (num_text n))).
Proof.
  intros Hn. unfold detectType, num_text. change (d_implicitTypes safe_state) with safe_types. rewrite safe_types_list.
  cbn [detect_in detects yaml_null yaml_boolean yaml_int isNull isBoolean].
  destruct (isInteger (VNum n)) eqn:E; [reflexivity|].
  assert (isFloat (VNum n) = true) as Hf by (destruct n; cbn in *; [by apply negb_false_iff in E | done..]).
  cbn [detect_in detects yaml_float]. rewrite Hf. reflexivity.
Qed.

Section Node.
Context (h : heap).

Local Abbreviation wn fuel := (writeNode fuel safe_state h []).

Lemma write_represented fuel lvl v t compact used :
  is_prim v = true -> detectType safe_state v = Ok (Some (u "?", Some t)) ->
  wn (S fuel) (Z.of_nat lvl) (Prim v) true compact false used = Ok (Written (Some (u "?")) (Some t) used).
Proof.
  intros Hv Hd. cbn [writeNode]. unfold write_node. cbn [shallow collection_of]. rewrite Hd. cbn [res_bind fst fmap option_fmap option_map collection_of].
  reflexivity.
Qed.

Lemma write_string fuel level s iskey compact used t :
  writeScalar safe_state s level iskey = Ok t ->
  wn (S fuel) level (Prim (VStr s)) true compact iskey used = Ok (Written None (Some t) used).
Proof.
  intros Ht. cbn [writeNode]. unfold write_node. cbn [shallow collection_of]. rewrite detect_string.
  cbn [res_bind fmap option_fmap option_map collection_of]. by rewrite Ht.
Qed.

(** A tree whose text is written for a primitive value. *)
Lemma prim_written lvl v fuel :
  is_prim v = true -> document lvl v -> exists t, inline t v /\ written_as (wn (S fuel)) lvl (Prim v) (Inl t v).
Proof.
  assert (Hrep : forall t, is_prim v = true -> detectType safe_state v = Ok (Some (u "?", Some t)) -> inline t v ->
            exists t, inline t v /\ written_as (wn (S fuel)) lvl (Prim v) (Inl t v)).
  { intros t Hp Hd Ht. exists t. split; [exact Ht|]. intros compact used. eexists. by apply write_represented. }
  intros Hp Hdoc. destruct v as [| |b|n|s| | | | |]; try discriminate Hp.
  - apply (Hrep (u "null")); [done | reflexivity |]. apply inline_shape; [reflexivity|]. vm_compute. split; [reflexivity | discriminate].
  - apply (Hrep (if b then u "true" else u "false")); [done | by destruct b |].
    destruct b; (apply inline_shape; [reflexivity|]); vm_compute; (split; [reflexivity | discriminate]).
  - apply (Hrep (num_text n)); [done | by apply detect_num | by apply inline_num].
  - destruct Hdoc as [H16 Hone]. destruct (writeScalar_text s (Z.of_nat lvl) false H16 (or_intror Hone)) as (t & Ht & [Hin _ _ _]).
    exists t. split; [exact Hin|]. intros compact used. eexists. by apply write_string.
Qed.

(** The text of a key. *)
Lemma key_text lvl k fuel :
  key_fits k -> exists t, key_ok t k /\ key_written (wn (S fuel)) lvl k t /\ zlen t <= 1024.
Proof.
  intros (H16 & Hlen & Hdots & Hproto). destruct (writeScalar_text k (Z.of_nat lvl) true H16 (or_introl eq_refl)) as (t & Ht & [Hin Hl Hd Hs]).
  exists t. split; [split; [exact Hin|]; split; [|by split]|].
  - destruct (starts_with (u "...") t) eqn:E; [|reflexivity]. specialize (Hs eq_refl). subst t. congruence.
  - split; [|lia]. intros used. by apply write_string.
Qed.

(** The entries of a mapping, from the texts of the keys and the trees of the
    values. *)
Lemma entries_written lvl fuel o : forall e ys,
  map fst e = map fst o -> Forall (fun kx => key_fits kx.1) o -> Forall tree_ok ys -> map value_of ys = map snd o ->
  Forall2 (written_as (wn (S fuel)) lvl) (map snd e) ys ->
  exists l, map (fun e => (e.1.2, value_of e.2)) l = o /\ Forall (fun e => key_ok e.1.1 e.1.2 /\ tree_ok e.2) l /\
    Forall2 (entry_written (wn (S fuel)) lvl) e l.
Proof.
  induction o as [|[k v] o IH]; intros e ys Hk Hkeys Hys Hv Hw.
  - destruct e; [|done]. exists []. repeat split; constructor.
  - destruct e as [|[k' x] e]; [done|]. destruct ys as [|y ys]; [done|]. cbn in Hk, Hv. injection Hk as -> Hk. injection Hv as <- Hv.
    apply Forall_cons_iff in Hkeys as [Hkf Hkeys]. apply Forall_cons_iff in Hys as [Hy Hys]. cbn [map snd] in Hw. inversion Hw; subst.
    destruct (IH e ys) as (l & <- & Hok & Hl); [done..|]. destruct (key_text lvl k fuel Hkf) as (t & Ht & Hkt & Hlen).
    exists ((t, k, y) :: l). split; [done|]. split; constructor; done.
Qed.
End Node.

(** ** Whole trees *)

Definition filled (v : value) : bool := match v with VArr (_ :: _) | VObj (_ :: _) => true | _ => false end.

(** Some tree stands for the value, and its text is what [writeNode] writes. *)
Definition has_tree (h : heap) (fuel lvl : nat) (v : value) (x : jsval) : Prop :=
  exists y, tree_ok y /\ value_of y = v /\ is_collection y = filled v /\ written_as (writeNode fuel safe_state h []) lvl x y.

Definition have_trees (h : heap) (fuel lvl : nat) (l : list value) (xs : list jsval) : Prop :=
  exists ys, Forall tree_ok ys /\ map value_of ys = l /\ Forall2 (written_as (writeNode fuel safe_state h []) lvl) xs ys.

(** An array or an object is written by [write_collection]. *)
Lemma write_cell h fuel lvl a c compact used d :
  h !! a = Some c -> (exists l, c = CArr l) \/ (exists o, c = CObj o) ->
  write_collection safe_state (writeNode fuel safe_state h []) (Z.of_nat lvl) c true compact None used = Ok (d, used) ->
  writeNode (S fuel) safe_state h [] (Z.of_nat lvl) (Ref a) true compact false used = Ok (Written None (Some d) used).
Proof.
  intros Ha Hc Hw. cbn [writeNode]. unfold write_node. cbn [shallow]. rewrite Ha.
  assert (detectType safe_state match c with CArr _ => VArr [] | CObj _ => VObj [] | COther v => v end = Ok None) as ->.
  { destruct Hc as [[l ->] | [o ->]]; reflexivity. }
  cbn [res_bind fst fmap option_fmap option_map]. unfold collection_of. rewrite Ha.
  assert (forall A (f g : A), match c with COther _ => f | _ => g end = g) as Hg by (by destruct Hc as [[l ->] | [o ->]]).
  destruct Hc as [[l ->] | [o ->]]; change (duplicate_index [] a) with (@None nat); cbv iota beta;
    change (flowLevel safe_state <? 0) with true; change (d_indent safe_state =? 2) with true; cbn [andb orb negb];
    rewrite andb_true_r; rewrite Hw; reflexivity.
Qed.

Lemma joined_block lvl compact (y : ytree) l :
  is_collection y = true -> render lvl y = join (nl lvl) l -> l <> [] -> block_text lvl compact y = joined lvl compact true l.
Proof.
  intros Hc Hr Hl. unfold block_text, joined. rewrite Hc, Hr, andb_true_r. destruct compact; [done|]. cbn [andb negb].
  destruct l as [|d l]; [done|].
  change (join (nl lvl) (d :: l)) with (joined lvl true true (d :: l)). rewrite joined_cons. unfold joined. cbn [andb orb negb app map concat].
  by rewrite <- app_assoc.
Qed.

Lemma write_arr h fuel lvl a xs ys :
  h !! a = Some (CArr xs) -> Forall2 (written_as (writeNode fuel safe_state h []) (S lvl)) xs ys -> ys <> [] ->
  written_as (writeNode (S fuel) safe_state h []) lvl (Ref a) (Seq ys).
Proof.
  intros Ha Hw Hne compact used. exists None. eapply write_cell; [exact Ha | by eauto |].
  unfold write_collection. rewrite bool_decide_eq_false_2 by (intros ->; by inversion Hw; subst). cbn [andb negb].
  unfold writeBlockSequence. rewrite (write_items _ _ _ _ _ Hw). cbn [res_bind app].
  set (l := map (fun y => 45 :: 32 :: render (S lvl) y) ys).
  assert (joined lvl compact true l <> []) as Hj.
  { subst l. destruct ys as [|y ys]; [done|]. cbn [map]. rewrite joined_cons. by destruct compact. }
  rewrite (joined_block lvl compact (Seq ys) l); [|done | done | subst l; by destruct ys].
  by destruct (joined lvl compact true l).
Qed.

Lemma write_obj h fuel lvl a e l :
  h !! a = Some (CObj e) -> Forall2 (entry_written (writeNode fuel safe_state h []) (S lvl)) e l -> Forall (fun e => tree_ok e.2) l ->
  NoDup (map fst e) -> l <> [] ->
  written_as (writeNode (S fuel) safe_state h []) lvl (Ref a) (Map l).
Proof.
  intros Ha Hw Hok Hnd Hne compact used. exists None. eapply write_cell; [exact Ha | by eauto |].
  unfold write_collection. rewrite bool_decide_eq_false_2 by (intros ->; by inversion Hw; subst). cbn [andb negb].
  unfold writeBlockMapping. change (key_order safe_state (map fst e)) with (Ok (map fst e)). cbn [res_bind].
  assert (map (fun k => (k, default (Prim VUndef) (obj_lookup k e))) (map fst e) = e) as ->.
  { rewrite map_map. rewrite <- (map_id e) at 2. apply map_ext_in. intros [k x] Hin. cbn [fst].
    by rewrite (obj_lookup_NoDup k x) by (done || by apply list_elem_of_In). }
  rewrite (write_entries _ _ _ _ _ Hw Hok). cbn [res_bind app].
  set (t := map (entry_text lvl) l).
  assert (joined lvl compact true t <> []) as Hj.
  { subst t. destruct l as [|[[s k] y] l]; [done|]. cbn [map]. rewrite joined_cons. unfold entry_text. cbn [fst snd].
    destruct compact; [|done]. cbn [negb orb app]. by destruct s. }
  rewrite (joined_block lvl compact (Map l) t); [|done | apply render_map | subst t; by destruct l].
  by destruct (joined lvl compact true t).
Qed.

Lemma write_empty h fuel lvl a (o : bool) :
  h !! a = Some (if o then CObj [] else CArr []) ->
  written_as (writeNode (S fuel) safe_state h []) lvl (Ref a) (Inl (if o then [123; 125] else [91; 93]) (if o then VObj [] else VArr [])).
Proof.
  intros Ha compact used. exists None. eapply write_cell; [exact Ha | destruct o; by eauto |]. by destruct o.
Qed.

Lemma value_of_entries l o :
  map (fun e : jstr * jstr * ytree => (e.1.2, value_of e.2)) l = o -> insertion_order o -> value_of (Map l) = VObj o.
Proof.
  intros Hl Ho. rewrite value_of_map. f_equal. etransitivity; [|exact Ho]. rewrite <- Hl. clear Hl Ho.
  generalize (@nil (jstr * value)). induction l as [|e l IH]; intros acc; [done|]. cbn [fold_left map fst snd]. apply IH.
Qed.

Lemma tree_ok_entries l :
  l <> [] -> NoDup (map (fun e => e.1.2) l) -> Forall (fun e => key_ok e.1.1 e.1.2 /\ tree_ok e.2) l -> tree_ok (Map l).
Proof.
  intros Hne Hnd Hl. split; [exact Hne|]. split; [exact Hnd|]. clear Hne Hnd.
  induction Hl as [|[[t k] y] l H _ IH]; cbn [foldr]; [exact I | split; [exact H | exact IH]].
Qed.

(** Every value that fits has a tree. *)
Lemma document_has_tree h :
  (forall lo v x hi, laid h lo v x hi -> forall lvl fuel, document lvl v -> (hi - lo < fuel)%nat -> has_tree h fuel lvl v x) /\
  (forall lo l xs hi, laid_list h lo l xs hi -> forall lvl fuel, Forall (document lvl) l -> (hi - lo < fuel)%nat -> have_trees h fuel lvl l xs).
Proof.
  apply laid_both.
  - intros lo v Hv lvl fuel Hd Hf. destruct fuel as [|fuel]; [lia|]. destruct (prim_written h lvl v fuel Hv Hd) as (t & Ht & Hw).
    exists (Inl t v). split; [exact Ht|]. split; [reflexivity|]. split; [by destruct v | exact Hw].
  - intros lo l xs a Hl IH Ha lvl fuel Hd Hf. apply (laid_le h) in Hl as Hle. destruct fuel as [|fuel]; [lia|].
    apply document_arr in Hd. destruct (IH (S lvl) fuel Hd ltac:(lia)) as (ys & Hok & Hv & Hw). destruct ys as [|y ys].
    + inversion Hw. subst. exists (Inl [91; 93] (VArr [])). split; [exact (inline_empty safe_types safe_type_map false)|].
      split; [done|]. split; [done|]. exact (write_empty h fuel lvl a false Ha).
    + exists (Seq (y :: ys)). split; [split; [done | by apply (foldr_Forall tree_ok)]|]. split; [cbn [value_of]; by rewrite Hv|].
      split; [by rewrite <- Hv|]. by eapply write_arr.
  - intros lo o e a Hl IH He Ha lvl fuel Hd Hf. apply (laid_le h) in Hl as Hle. destruct fuel as [|fuel]; [lia|].
    apply document_obj in Hd as [Ho Hd]. pose proof (insertion_order_NoDup o Ho) as Hnd.
    destruct (IH (S lvl) fuel) as (ys & Hok & Hv & Hw); [|lia|].
    { clear -Hd. induction Hd as [|kx o [_ H] _ IHd]; constructor; done. }
    destruct o as [|kx o].
    + destruct e; [|done]. exists (Inl [123; 125] (VObj [])). split; [exact (inline_empty safe_types safe_type_map true)|].
      split; [done|]. split; [done|]. exact (write_empty h fuel lvl a true Ha).
    + assert (Hkeys : Forall (fun kx => key_fits kx.1) (kx :: o)) by (eapply Forall_impl; [|exact Hd]; by intros ? [? _]).
      destruct fuel as [|fuel]; [lia|].
      destruct (entries_written h (S lvl) fuel (kx :: o) e ys He Hkeys Hok Hv Hw) as (l & Hlo & Hlok & Hlw).
      assert (Hne : l <> []) by (intros ->; discriminate Hlo).
      exists (Map l). split; [|split; [by apply value_of_entries|split; [done|]]].
      * apply tree_ok_entries; [exact Hne | | exact Hlok]. unfold obj_keys in Hnd. by rewrite <- Hlo, map_map in Hnd.
      * eapply write_obj; [exact Ha | exact Hlw | | rewrite He; exact Hnd | exact Hne].
        eapply Forall_impl; [|exact Hlok]. by intros ? [_ ?].
  - intros lo lvl fuel _ _. exists []. repeat split; constructor.
  - intros lo v x mid l xs hi Hx IHx Hl IHl lvl fuel Hd Hf. apply (laid_le h) in Hx as H1. apply (laid_le h) in Hl as H2.
    apply Forall_cons_iff in Hd as [Hdv Hdl]. destruct (IHx lvl fuel Hdv ltac:(lia)) as (y & Hy & Hv & _ & Hw).
    destruct (IHl lvl fuel Hdl ltac:(lia)) as (ys & Hys & Hvs & Hws). exists (y :: ys).
    split; [by constructor|]. split; [cbn [map]; by rewrite Hv, Hvs | by constructor].
Qed.

(** The text of a collection is read back. *)
Lemma safeDump_collection v :
  document 0 v -> filled v = true -> exists t, safeDump v = Ok (t ++ [10]) /\ t <> [] /\ safeLoad (VStr (t ++ [10])) = Ok v.
Proof.
  intros Hd Hf. pose proof (alloc_laid v (document_plain v 0 Hd) []) as Ha. unfold safeDump.
  destruct (alloc [] v) as [h x]. destruct Ha as (t & _ & Hl). cbn [length] in Hl.
  destruct (proj1 (document_has_tree h) 0%nat v x (length h) Hl 0%nat (S (S (length h))) Hd ltac:(lia)) as (y & Hok & Hv & Hc & Hw).
  exists (render 0 y). unfold dump. change (State safe_options) with safe_state. change (noRefs safe_state) with false. cbv iota.
  rewrite (no_duplicates h 0 v x (length h) Hl) by lia. cbn [res_bind].
  destruct (Hw true []) as [tg E]. change (Z.of_nat 0) with 0 in E. rewrite E. cbn [res_bind w_dump].
  unfold block_text. rewrite andb_false_r. cbn [app]. split; [reflexivity|]. split.
  - destruct (render_start _ _ 0 y Hok) as (c & rest & -> & _). done.
  - rewrite <- Hv. apply safeLoad_tree; [exact Hok|]. by rewrite Hc.
Qed.

(** C10.  Data of JSON comes back from a document: for any tree of arrays and
    objects whose strings fit their line, whatever the characters, and whose
    numbers are integers below [2 ^ 53], zeros, infinities or NaN, [safeDump]
    writes a text in the block style that [safeLoad] reads as the same tree,
    with the same order of the keys. *)
Theorem safeDump_tree_roundtrip v :
  document 0 v -> typeof v = u "object" -> v <> VNull -> exists t, safeDump v = Ok t /\ safeLoad (VStr t) = Ok v.
Proof.
  intros Hd Ht Hn. destruct (filled v) eqn:Hf.
  - destruct (safeDump_collection v Hd Hf) as (t & Hw & _ & Hr). eauto.
  - destruct v as [| | | | |[|]|[|]| | |]; try done; eexists; (split; [vm_compute; reflexivity | vm_compute; reflexivity]).
Qed.

Lemma unit16_check s : forallb (fun c => (0 <=? c) && (c <=? 65535)) s = true -> Forall unit16 s.
Proof.
  intros H. apply Forall_elem. intros c Hc%list_elem_of_In. apply (proj1 (forallb_forall _ _) H) in Hc. unfold unit16. breflect. lia.
Qed.

Lemma one_line_check w s :
  (forallb (fun c => negb (c =? 10)) s && (zlen s <=? w)) || existsb (fun c => negb (c =? 10) && negb (isPrintable c)) s = true ->
  one_line_in w s.
Proof.
  intros [H | H]%orb_prop; [left|right].
  - apply andb_prop in H as [H Hl]. split; [|by apply Z.leb_le]. intros Hc%list_elem_of_In. by apply (proj1 (forallb_forall _ _) H) in Hc.
  - apply existsb_exists in H as (c & Hc%list_elem_of_In & [H1 H2]%andb_prop). exists c. split; [done|]. split; [by apply Z.eqb_neq, negb_true_iff | by apply negb_true_iff].
Qed.

Definition demo_document : value :=
  VObj [(u "7", VNum (num_of_Z (-40)));
        (u "name", VStr (u "it's: " ++ [9; 10]));
        (u "list", VArr [VArr [VNull; VBool true]; VObj [(u "- k", VNum NNaN); (u "no", VArr [])]; VStr []]);
        (u "empty", VObj [])].

Lemma safeDump_tree_roundtrip_witness :
  exists t, safeDump demo_document = Ok t /\ safeLoad (VStr t) = Ok demo_document.
Proof.
  apply (safeDump_tree_roundtrip demo_document); [|done|done].
  cbn [demo_document document foldr fst snd]. unfold key_fits.
  repeat match goal with |- _ /\ _ => split end; try exact I; try reflexivity; try discriminate;
    try (apply unit16_check; reflexivity); apply one_line_check; reflexivity.
Defined.

Example demo_document_text :
  safeDump demo_document
  = Ok (text_lines ["'7': -40"]%string ++ u "name: " ++ [34] ++ u "it's: \t\n" ++ [34; 10]
        ++ text_lines ["list:"; "  - - null"; "    - true"; "  - '- k': .nan"; "    'no': []"; "  - ''"; "empty: {}"]%string).
Proof. vm_compute. reflexivity. Qed.
