(* ===== verification/SchemaModel.v ===== *)
(** The client's [SchemaModel]: the JSON schema of a resource, and the
    conversions of resource data between the server's format and the format of
    the forms. *)

From Stdlib Require Import ZArith Lia List String Bool.
From stdpp Require Import base list sets list_numbers tactics.
From S2P Require Import Prelude JsNum Js.

(** ** Schemas *)

(** The [type] keyword: absent, a string, or an array of strings. *)
Inductive styp :=
| TyUndef
| TyStr (s : jstr)
| TyList (l : list jstr).

(** A schema object.  An absent keyword is [None] ([VUndef] for [default]);
    [s_records] holds the records that [toLocalSchema] stores for a relation. *)
Inductive schema := Schema {
  s_type : styp;
  s_title : option jstr;
  s_description : option jstr;
  s_format : option jstr;
  s_nullable : bool;
  s_originalType : option jstr;
  s_relation : option jstr;
  s_default : value;
  s_enum : option (list value);
  s_options : option object;
  s_records : option (list value);
  s_permission : option (list jstr);
  s_view : option (list jstr);
  s_required : option (list jstr);
  s_propertiesOrder : option (list jstr);
  s_properties : option (list (jstr * schema));
  s_items : option schema
}.

(** Name the keywords of a schema. *)
Ltac open_schema a :=
  destruct a as [?ty ?ti ?d ?f ?n ?og ?rel ?df ?en ?op ?rc ?pm ?vw ?rq ?po ?props ?items].

(** [s === a.type] for a string [s]. *)
Definition type_is (s : jstr) (a : schema) : bool :=
  match s_type a with TyStr t => streq s t | _ => false end.

Definition originalType_is (s : jstr) (a : schema) : bool :=
  match s_originalType a with Some t => streq s t | None => false end.

Definition format_is (s : jstr) (a : schema) : bool :=
  match s_format a with Some t => streq s t | None => false end.

Definition is_some {A} (o : option A) : bool := match o with Some _ => true | None => false end.

(** Induction over a schema, its properties and its items. *)
Section schema_ind'.
Context (P : schema -> Prop).
Context (H : forall a,
  (forall ps, s_properties a = Some ps -> Forall (fun kp => P kp.2) ps) ->
  (forall it, s_items a = Some it -> P it) -> P a).

Fixpoint schema_ind' (a : schema) : P a :=
  H a
    (match a as a return forall ps, s_properties a = Some ps -> Forall (fun kp => P kp.2) ps with
     | Schema _ _ _ _ _ _ _ _ _ _ _ _ _ _ _ props _ =>
         match props as props return forall ps, props = Some ps -> Forall (fun kp => P kp.2) ps with
         | Some ps0 => fun ps e =>
             eq_ind ps0 (Forall (fun kp => P kp.2))
               ((fix go ps : Forall (fun kp => P kp.2) ps :=
                   match ps with
                   | [] => Forall_nil_2 _
                   | kp :: ps => Forall_cons_2 _ _ _ (schema_ind' kp.2) (go ps)
                   end) ps0) ps (f_equal (default ps0) e)
         | None => fun ps e => False_ind _ (eq_ind None (fun o => match o with None => True | Some _ => False end) I _ e)
         end
     end)
    (match a as a return forall it, s_items a = Some it -> P it with
     | Schema _ _ _ _ _ _ _ _ _ _ _ _ _ _ _ _ items =>
         match items as items return forall it, items = Some it -> P it with
         | Some it0 => fun it e => eq_ind it0 P (schema_ind' it0) it (f_equal (default it0) e)
         | None => fun it e => False_ind _ (eq_ind None (fun o => match o with None => True | Some _ => False end) I _ e)
         end
     end).
End schema_ind'.

(** ** Default values *)

(** [SchemaModel.defaultValue]. *)
Fixpoint defaultValue (a : schema) : res value :=
  let defaults :=
    fix defaults (ps : list (jstr * schema)) (b : object) : res object :=
      match ps with
      | [] => Ok b
      | (c, p) :: ps => v <-? defaultValue p; defaults ps (obj_set c v b)
      end in
  if type_is (u "object") a then
    match s_default a, s_properties a with
    | VUndef, Some ps => b <-? defaults ps []; Ok (VObj b)
    | d, _ => Ok d
    end
  else if type_is (u "array") a then
    match s_items a with
    | None => Err TypeError
    | Some (Schema _ _ _ _ _ _ _ _ _ _ _ _ _ _ _ (Some ps) _) =>
        b <-? defaults ps []; Ok (VArr [VObj b])
    | Some _ => Ok VUndef
    end
  else Ok (s_default a).

(** ** The YAML codec the model calls *)

(** What the conversions rely on of js-yaml's [safeDump] and [safeLoad]: the
    values for which reading back the dump gives the value. *)
Class YamlCodec := {
  safeDump : value -> res jstr;
  safeLoad : value -> res value;
  yaml_roundtrips : value -> Prop;
  yaml_roundtrip : forall v, yaml_roundtrips v ->
    exists s, safeDump v = Ok s /\ s <> [] /\ safeLoad (VStr s) = Ok v
}.

(** The loops of the conversions over the properties of a schema, for a
    conversion [f] of one property. *)
Section Loops.
Context (f : schema -> value -> res value).

(** [for (let c in a.properties) b[c] = f(a.properties[c], b[c])]. *)
Fixpoint local_props (ps : list (jstr * schema)) (b : value) : res value :=
  match ps with
  | [] => Ok b
  | (c, p) :: ps => x <-? get_prop b c; v <-? f p x; b <-? set_prop b c v; local_props ps b
  end.

(** [for (let f in a.properties) e[f] = f(a.properties[f], b[f])]. *)
Fixpoint server_props (b : value) (ps : list (jstr * schema)) (e : object) : res value :=
  match ps with
  | [] => Ok (VObj e)
  | (c, p) :: ps => x <-? get_prop b c; v <-? f p x; server_props b ps (obj_set c v e)
  end.
End Loops.

(** [for (let f of b) e[f.id] = g(f.value)]. *)
Fixpoint server_entries (g : value -> res value) (fs : list value) (e : object) : res value :=
  match fs with
  | [] => Ok (VObj e)
  | f :: fs =>
      id <-? get_prop f (u "id"); x <-? get_prop f (u "value");
      key <-? to_string id; v <-? g x; server_entries g fs (obj_set key v e)
  end.

(** [{id: e, value: v}]. *)
Definition entry (e : jstr) (v : value) : value := VObj [(u "id", VStr e); (u "value", v)].

Section WithYaml.
Context `{YamlCodec}.

(** ** From the server's format to the form's *)

(** [SchemaModel.toLocalData]: the value it returns. *)
Fixpoint toLocalData (a : schema) (b : value) {struct a} : res value :=
  let '(Schema _ _ _ _ _ _ _ _ _ _ _ _ _ _ _ properties items) := a in
  if negb (type_is (u "object") a) then Ok b else
  match b with
  | VUndef => Ok VUndef
  | _ =>
      let dump := s <-? safeDump b; Ok (VStr s) in
      if format_is (u "jsonschema") a then dump else
      match properties with
      | None =>
          match items with
          | None => dump
          | Some it =>
              match s_propertiesOrder it with
              | None => c <-? res_map (fun ef => v <-? toLocalData it ef.2; Ok (entry ef.1 v)) (own_props b);
                        Ok (VArr c)
              | Some order =>
                  c <-? res_map (fun e => f <-? get_prop b e; v <-? toLocalData it f; Ok (entry e v)) order;
                  Ok (VArr c)
              end
          end
      | Some ps => if truthy b then local_props toLocalData ps b else Ok b
      end
  end.

(** [toLocalData] writes the converted properties into the object it was
    given, and into the entries of a dictionary: that object after the call. *)
Fixpoint toLocalData_after (a : schema) (b : value) {struct a} : res value :=
  let '(Schema _ _ _ _ _ _ _ _ _ _ _ _ _ _ _ properties items) := a in
  if negb (type_is (u "object") a) || format_is (u "jsonschema") a then Ok b else
  match properties, items, b with
  | Some _, _, _ => toLocalData a b
  | None, Some it, VObj o =>
      let visited k := match s_propertiesOrder it with Some order => bool_decide (k ∈ order) | None => true end in
      o' <-? res_map (fun kv => if visited kv.1 then v <-? toLocalData_after it kv.2; Ok (kv.1, v) else Ok kv) o;
      Ok (VObj o')
  | None, _, _ => Ok b
  end.

(** [SchemaModel.toLocal]: the top object is copied, its property values are
    shared with the data given. *)
Definition toLocal (sch : schema) (data : value) : res value :=
  c <-? defaultValue sch;
  toLocalData sch
    (match c with
     | VUndef => VUndef
     | _ => VObj (obj_assign (obj_assign [] (own_props c)) (own_props data))
     end).

(** The attributes of the model after [toLocal]: those that are objects are
    shared with the copy that [toLocalData] converts. *)
Definition toLocal_after (sch : schema) (data : object) : res object :=
  match s_properties sch with
  | Some ps =>
      if type_is (u "object") sch && negb (format_is (u "jsonschema") sch) then
        res_map (fun kv => match obj_lookup kv.1 ps with
                           | Some p => v <-? toLocalData_after p kv.2; Ok (kv.1, v)
                           | None => Ok kv
                           end) data
      else Ok data
  | None => Ok data
  end.

(** ** From the form's format to the server's *)

(** [SchemaModel.toServerData]. *)
Fixpoint toServerData (a : schema) (b : value) {struct a} : res value :=
  let '(Schema _ _ _ _ _ _ _ _ _ _ _ _ _ _ _ properties items) := a in
  if s_nullable a && (match b with VNull | VStr [] => true | _ => false end) then Ok VNull else
  match b with
  | VUndef | VNull | VStr [] => Ok VUndef
  | _ =>
      if type_is (u "array") a then
        match b with
        | VArr [] => Ok (VArr [])
        | VArr l => match items with
                    | Some it => l <-? res_map (toServerData it) l; Ok (VArr l)
                    | None => Err TypeError
                    end
        | _ => Err TypeError
        end
      else if negb (type_is (u "object") a) && negb (originalType_is (u "object") a) then Ok b
      else
        match properties, items with
        | Some ps, _ => server_props toServerData b ps []
        | None, Some it => fs <-? iterate b; server_entries (toServerData it) fs []
        | None, None => safeLoad b
        end
  end.

Definition toServer (sch : schema) (data : value) : res value := toServerData sch data.

(** ** Data that a schema describes *)

(** [P] of every property of an object that a schema lists. *)
Definition each_prop (P : schema -> value -> Prop) (o : object) : list (jstr * schema) -> Prop :=
  fix each ps := match ps with [] => True | (c, p) :: ps => P p (obj_get c o) /\ each ps end.

(** The properties of an object are among those listed. *)
Definition lists_keys (o : object) (ps : list (jstr * schema)) : Prop :=
  NoDup (map fst ps) /\ (forall k, k ∈ obj_keys o -> k ∈ map fst ps).

(** Data that [toServerData] leaves as it is: what is inside an array is sent
    as it was received. *)
Fixpoint sent_as_is (a : schema) (v : value) {struct a} : Prop :=
  let '(Schema _ _ _ _ _ _ _ _ _ _ _ _ _ _ _ properties items) := a in
  match v with
  | VUndef => True
  | VNull => s_nullable a = true
  | VStr [] => False
  | _ =>
      if type_is (u "array") a then
        match v, items with
        | VArr l, Some it => Forall (sent_as_is it) l
        | VArr l, None => l = []
        | _, _ => False
        end
      else if negb (type_is (u "object") a) && negb (originalType_is (u "object") a) then True
      else
        match v, properties with
        | VObj o, Some ps => lists_keys o ps /\ each_prop sent_as_is o ps
        | _, _ => False
        end
  end.

(** Data that is edited without loss: objects as the schema lists their
    properties, dictionaries with the keys the schema orders, free-form data
    that YAML can carry, and no empty strings. *)
Fixpoint fits (a : schema) (v : value) {struct a} : Prop :=
  let '(Schema _ _ _ _ _ _ _ _ _ _ _ _ _ _ _ properties items) := a in
  if type_is (u "object") a then
    match v with
    | VUndef => True
    | _ =>
        if format_is (u "jsonschema") a then yaml_roundtrips v /\ properties = None /\ items = None else
        match properties, items with
        | Some ps, _ =>
            match v with
            | VNull => s_nullable a = true
            | VObj o => lists_keys o ps /\ each_prop fits o ps
            | _ => False
            end
        | None, Some it =>
            match v with
            | VObj o =>
                Forall (fun kv => fits it kv.2) o
                /\ match s_propertiesOrder it with
                   | Some order => forall k, k ∈ obj_keys o -> k ∈ order
                   | None => NoDup (obj_keys o)
                   end
            | _ => False
            end
        | None, None => yaml_roundtrips v
        end
    end
  else sent_as_is a v.

(** ** The loops *)

Lemma each_prop_elem P o ps : each_prop P o ps <-> Forall (fun kp => P kp.2 (obj_get kp.1 o)) ps.
Proof. induction ps as [|[c p] ps IH]; simpl; rewrite ?Forall_nil_iff, ?Forall_cons_iff; tauto. Qed.

Lemma obj_get_not_key k o : k ∉ obj_keys o -> obj_get k o = VUndef.
Proof. intros Hk. apply obj_lookup_None in Hk. unfold obj_get. by rewrite Hk. Qed.

(** An object whose listed properties are as in [o], and that has no other. *)
Lemma veq_listed o e ps :
  lists_keys o ps ->
  (forall k, k ∈ map fst ps -> obj_get k e ≈ obj_get k o) ->
  (forall k, k ∉ map fst ps -> obj_get k e = VUndef) ->
  VObj e ≈ VObj o.
Proof.
  intros [_ Ho] Hin Hout. constructor. intros k.
  destruct (decide (k ∈ map fst ps)) as [Hk|Hk]; [by apply Hin|].
  rewrite Hout by done. rewrite (obj_get_not_key k o) by auto. done.
Qed.

(** Every property of the result of [server_props] is a converted one. *)
Lemma server_props_spec (f : schema -> value -> res value) (R : jstr -> value -> Prop) b ps :
  Forall (fun kp => exists x v, get_prop b kp.1 = Ok x /\ f kp.2 x = Ok v /\ R kp.1 v) ps ->
  forall e, exists e', server_props f b ps e = Ok (VObj e')
    /\ (forall k, k ∈ map fst ps -> R k (obj_get k e'))
    /\ (forall k, k ∉ map fst ps -> obj_get k e' = obj_get k e).
Proof.
  induction 1 as [|[c p] ps (x & v & Hx & Hv & HR) _ IH]; intros e; simpl.
  - exists e. set_solver.
  - simpl in *. rewrite Hx; simpl. rewrite Hv; simpl.
    destruct (IH (obj_set c v e)) as (e' & -> & Hin & Hout). exists e'. split; [done|split].
    + intros k [->|Hk]%elem_of_cons; [|auto].
      destruct (decide (c ∈ map fst ps)); [by apply Hin|].
      rewrite Hout by done. by rewrite obj_get_set, streq_refl.
    + intros k [Hne Hk]%not_elem_of_cons. rewrite Hout by done.
      rewrite obj_get_set. apply streq_neq in Hne. by rewrite Hne.
Qed.

(** [local_props] converts each listed property in place. *)
Lemma local_props_spec (f : schema -> value -> res value) (R : jstr -> value -> Prop) ps :
  NoDup (map fst ps) ->
  forall o, Forall (fun kp => exists v, f kp.2 (obj_get kp.1 o) = Ok v /\ R kp.1 v) ps ->
  exists o', local_props f ps (VObj o) = Ok (VObj o')
    /\ (forall k, k ∈ map fst ps -> R k (obj_get k o'))
    /\ (forall k, k ∉ map fst ps -> obj_get k o' = obj_get k o).
Proof.
  induction ps as [|[c p] ps IH]; intros Hnd o Hf; simpl in *.
  - exists o. set_solver.
  - inversion Hnd as [|? ? Hc Hnd']; inversion Hf as [|? ? (v & Hv & HR) Hf']; subst. simpl in *.
    rewrite Hv; simpl.
    destruct (IH Hnd' (obj_set c v o)) as (o' & -> & Hin & Hout).
    { apply Forall_elem. intros [c' p'] Hin. rewrite Forall_elem in Hf'.
      destruct (Hf' _ Hin) as (v' & Hv' & HR'). exists v'. split; [|done]. simpl in *.
      rewrite obj_get_set. destruct (streq c' c) eqn:E; [|done]. apply streq_eq in E as ->.
      exfalso. apply Hc. apply list_elem_of_fmap. by exists (c, p'). }
    exists o'. split; [done|split].
    + intros k [->|Hk]%elem_of_cons; [|auto].
      rewrite Hout by done. by rewrite obj_get_set, streq_refl.
    + intros k [Hne Hk]%not_elem_of_cons. rewrite Hout by done.
      rewrite obj_get_set. apply streq_neq in Hne. by rewrite Hne.
Qed.

(** [server_entries] on the entries that [toLocalData] makes. *)
Lemma server_entries_spec (g : value -> res value) (R : jstr -> value -> Prop) kvs :
  Forall (fun kv => exists v, g kv.2 = Ok v /\ R kv.1 v) kvs ->
  forall e, exists e', server_entries g (map (fun kv => entry kv.1 kv.2) kvs) e = Ok (VObj e')
    /\ (forall k, k ∈ map fst kvs -> R k (obj_get k e'))
    /\ (forall k, k ∉ map fst kvs -> obj_get k e' = obj_get k e).
Proof.
  induction 1 as [|[c x] kvs (v & Hv & HR) _ IH]; intros e.
  - exists e. split; [done|]. set_solver.
  - cbn [map server_entries fst snd]. unfold entry at 1 2. cbn. simpl in *. rewrite Hv. cbn.
    destruct (IH (obj_set c v e)) as (e' & -> & Hin & Hout). exists e'. split; [done|split].
    + intros k [->|Hk]%elem_of_cons; [|auto].
      destruct (decide (c ∈ map fst kvs)); [by apply Hin|].
      rewrite Hout by done. by rewrite obj_get_set, streq_refl.
    + intros k [Hne Hk]%not_elem_of_cons. rewrite Hout by done.
      rewrite obj_get_set. apply streq_neq in Hne. by rewrite Hne.
Qed.

(** ** The round trip *)

Lemma type_is_excl s t a : type_is s a = true -> s <> t -> type_is t a = false.
Proof.
  unfold type_is. destruct (s_type a); try done. intros ->%streq_eq Hne.
  by apply streq_neq.
Qed.

Lemma toServerData_as_is a v :
  sent_as_is a v -> exists w, toServerData a v = Ok w /\ w ≈ v.
Proof.
  revert v. induction a as [a IHp IHi] using schema_ind'. intros v Hv.
  open_schema a.
  cbn [sent_as_is toServerData] in *. cbn [s_properties s_items s_nullable] in *.
  set (a := Schema ty _ _ _ _ _ _ _ _ _ _ _ _ _ _ _ _) in *.
  destruct v as [| | | |[|c s]|l|o| | |]; try done; rewrite ?andb_false_r.
  1: by exists VUndef.
  1: { rewrite Hv. by exists VNull. }
  all: destruct (type_is (u "array") a) eqn:Ea; [try done|].
  all: try (destruct (negb _ && negb _) eqn:En; [by eexists|]; try (destruct props; done)).
  - destruct items as [it|]; [|subst; by exists (VArr [])].
    assert (exists l', res_map (toServerData it) l = Ok l' /\ Forall2 veq l' l) as (l' & Hl' & Hll).
    { specialize (IHi it eq_refl). clear -IHi Hv.
      induction Hv as [|x l Hx _ IH]; simpl; [by exists []|].
      destruct (IHi x Hx) as (w & -> & Hw), IH as (l' & Hl' & Hll). simpl. rewrite Hl'. simpl.
      eexists; split; [done|by constructor]. }
    exists (VArr l'). split; [|by constructor].
    destruct l as [|x l]; [by inversion Hll|]. by rewrite Hl'.
  - destruct props as [ps|]; [|done]. destruct Hv as [Hk Hps].
    specialize (IHp ps eq_refl). apply each_prop_elem in Hps.
    destruct (server_props_spec toServerData (fun k v => v ≈ obj_get k o) (VObj o) ps) with (e := @nil (jstr * value))
      as (e' & -> & Hin & Hout).
    { apply Forall_elem. intros kp Hkp. rewrite Forall_elem in IHp, Hps.
      destruct (IHp kp Hkp _ (Hps kp Hkp)) as (w & Hw & Hwv). by exists (obj_get kp.1 o), w. }
    exists (VObj e'). split; [done|]. by apply (veq_listed _ _ ps).
Qed.

(** Free-form data: the text of its dump is loaded again. *)
Lemma freeform_roundtrip a v :
  type_is (u "object") a = true -> s_properties a = None -> s_items a = None -> yaml_roundtrips v ->
  exists s, safeDump v = Ok s /\ toServerData a (VStr s) = Ok v.
Proof.
  intros Ht Hp Hi (s & Hd & Hs & Hl)%yaml_roundtrip. exists s. split; [done|].
  pose proof (type_is_excl _ (u "array") a Ht ltac:(done)) as Ha.
  destruct a; cbn [toServerData s_properties s_items] in *; subst. destruct s as [|c s]; [done|].
  by rewrite andb_false_r, Ha, Ht.
Qed.

Lemma fits_undef a : fits a VUndef.
Proof. destruct a. cbn [fits]. by destruct (type_is _ _). Qed.

(** The entries of a dictionary, converted there and back. *)
Lemma dict_roundtrip it o ks :
  Forall (fun k => exists l w, toLocalData it (obj_get k o) = Ok l /\ toServerData it l = Ok w /\ w ≈ obj_get k o) ks ->
  (forall k, k ∈ obj_keys o -> k ∈ ks) ->
  exists fs e, res_map (fun k => v <-? toLocalData it (obj_get k o); Ok (entry k v)) ks = Ok fs
    /\ server_entries (toServerData it) fs [] = Ok (VObj e) /\ VObj e ≈ VObj o.
Proof.
  intros Hks Hin.
  assert (exists kvs, res_map (fun k => v <-? toLocalData it (obj_get k o); Ok (entry k v)) ks
                      = Ok (map (fun kv => entry kv.1 kv.2) kvs) /\ map fst kvs = ks
    /\ Forall (fun kv => exists w, toServerData it kv.2 = Ok w /\ w ≈ obj_get kv.1 o) kvs)
    as (kvs & Hm & Hk & Hf).
  { clear Hin. induction Hks as [|k ks (l & w & Hl & Hw & Hwo) _ (kvs & IHm & <- & IHf)]; [by exists []|].
    exists ((k, l) :: kvs). cbn [res_map]. rewrite Hl. cbn. rewrite IHm. cbn.
    split; [done|split; [done|]]. constructor; [by exists w|done]. }
  destruct (server_entries_spec _ (fun k v => v ≈ obj_get k o) kvs Hf []) as (e & He & Hi & Ho).
  exists (map (fun kv => entry kv.1 kv.2) kvs), e. split; [done|split; [done|]].
  constructor. intros k. rewrite <- Hk in Hin.
  destruct (decide (k ∈ map fst kvs)) as [Hik|Hik]; [by apply Hi|].
  rewrite Ho, (obj_get_not_key k o) by auto. done.
Qed.

Lemma res_map_keys {A} (F : jstr -> value -> res A) o :
  NoDup (obj_keys o) -> res_map (fun ef => F ef.1 ef.2) o = res_map (fun k => F k (obj_get k o)) (obj_keys o).
Proof.
  intros Hnd. assert (forall o', (forall kv, kv ∈ o' -> kv ∈ o) ->
    res_map (fun ef => F ef.1 ef.2) o' = res_map (fun k => F k (obj_get k o)) (obj_keys o')) as H'; [|by apply H'].
  induction o' as [|[k v] o' IH]; intros Hsub; [done|].
  change (obj_keys ((k, v) :: o')) with (k :: obj_keys o'). cbn [res_map fst snd].
  rewrite <- IH by set_solver. unfold obj_get.
  rewrite (obj_lookup_NoDup k v) by (done || set_solver). done.
Qed.

(** The listed properties of an object, converted there and back. *)
Lemma props_roundtrip o ps :
  lists_keys o ps ->
  Forall (fun kp => exists l w, toLocalData kp.2 (obj_get kp.1 o) = Ok l
                                /\ toServerData kp.2 l = Ok w /\ w ≈ obj_get kp.1 o) ps ->
  exists o' e, local_props toLocalData ps (VObj o) = Ok (VObj o')
    /\ server_props toServerData (VObj o') ps [] = Ok (VObj e) /\ VObj e ≈ VObj o.
Proof.
  intros Hk Hps. pose proof (proj1 Hk) as Hnd. rewrite Forall_elem in Hps.
  destruct (local_props_spec toLocalData
    (fun k l => exists p, (k, p) ∈ ps /\ exists w, toServerData p l = Ok w /\ w ≈ obj_get k o) ps Hnd o)
    as (o' & Ho' & Hin & _).
  { apply Forall_elem. intros [k p] Hkp. destruct (Hps _ Hkp) as (l & w & Hl & Hw). eauto 10. }
  destruct (server_props_spec toServerData (fun k v => v ≈ obj_get k o) (VObj o') ps) with (e := @nil (jstr * value))
    as (e & He & Hine & Houte).
  { apply Forall_elem. intros [k p] Hkp.
    destruct (Hin k) as (p' & Hp' & w & Hw & Hwo); [apply list_elem_of_fmap; by exists (k, p)|].
    apply (obj_lookup_NoDup _ _ _ Hnd) in Hkp, Hp'. rewrite Hp' in Hkp. injection Hkp as ->.
    by exists (obj_get k o'), w. }
  exists o', e. split; [done|split; [done|]]. by apply (veq_listed _ _ ps).
Qed.

Lemma fits_object a ps o :
  type_is (u "object") a = true -> format_is (u "jsonschema") a = false -> s_properties a = Some ps ->
  fits a (VObj o) ->
  (lists_keys o ps /\ Forall (fun kp => fits kp.2 (obj_get kp.1 o)) ps)
  /\ toLocalData a (VObj o) = local_props toLocalData ps (VObj o)
  /\ (forall o', toServerData a (VObj o') = server_props toServerData (VObj o') ps []).
Proof.
  intros Ht Hf Hp Hv. pose proof (type_is_excl _ (u "array") a Ht ltac:(done)) as Ea.
  destruct a; cbn [fits toLocalData toServerData s_properties] in *. subst.
  rewrite Ht, Hf in *. rewrite each_prop_elem in Hv. split; [done|split; [done|]].
  intros o'. by rewrite andb_false_r, Ea.
Qed.

Lemma fits_dict a it o :
  type_is (u "object") a = true -> format_is (u "jsonschema") a = false ->
  s_properties a = None -> s_items a = Some it -> fits a (VObj o) ->
  exists ks, Forall (fun kv => fits it kv.2) o /\ (forall k, k ∈ obj_keys o -> k ∈ ks)
    /\ toLocalData a (VObj o)
       = (c <-? res_map (fun k => v <-? toLocalData it (obj_get k o); Ok (entry k v)) ks; Ok (VArr c))
    /\ (forall fs, toServerData a (VArr fs) = server_entries (toServerData it) fs []).
Proof.
  intros Ht Hf Hp Hi Hv. pose proof (type_is_excl _ (u "array") a Ht ltac:(done)) as Ea.
  destruct a; cbn [fits toLocalData toServerData s_properties s_items] in *. subst.
  rewrite Ht, Hf in *. destruct Hv as [Hfo Ho].
  exists (match s_propertiesOrder it with Some order => order | None => obj_keys o end).
  split; [done|]. destruct (s_propertiesOrder it) as [order|]; split; try done.
  - split; [done|]. intros fs. by rewrite andb_false_r, Ea.
  - cbn [own_props]. rewrite (res_map_keys (fun k x => v <-? toLocalData it x; Ok (entry k v))) by done.
    split; [done|]. intros fs. by rewrite andb_false_r, Ea.
Qed.

(** The shapes of the data that fits an object schema. *)
Lemma fits_shapes a v :
  type_is (u "object") a = true -> fits a v -> v <> VUndef ->
  (s_properties a = None /\ s_items a = None /\ yaml_roundtrips v
   /\ toLocalData a v = (s <-? safeDump v; Ok (VStr s)))
  \/ (v = VNull /\ s_nullable a = true /\ toLocalData a v = Ok VNull)
  \/ (format_is (u "jsonschema") a = false /\ (exists ps, s_properties a = Some ps) /\ exists o, v = VObj o)
  \/ (format_is (u "jsonschema") a = false /\ s_properties a = None
      /\ (exists it, s_items a = Some it) /\ exists o, v = VObj o).
Proof.
  intros Ht Hv Hu. assert (forall A (x y : A), match v with VUndef => x | _ => y end = y) as Hm by (by destruct v).
  open_schema a.
  cbn [fits toLocalData s_properties s_items s_nullable] in *. rewrite Ht, Hm in *.
  destruct (format_is _ _); [left; naive_solver|].
  destruct props as [ps|]; [right|destruct items as [it|]; [do 3 right|left]]; rewrite ?Hm; cbn [negb].
  - destruct v; try done; [left; done|right; left; eauto].
  - destruct v; try done. eauto 10.
  - done.
Qed.

Lemma edit_roundtrip a v :
  fits a v -> exists l w, toLocalData a v = Ok l /\ toServerData a l = Ok w /\ w ≈ v.
Proof.
  revert v. induction a as [a IHp IHi] using schema_ind'. intros v Hv.
  destruct (type_is (u "object") a) eqn:Et.
  2: { assert (sent_as_is a v) as Hs by (destruct a; cbn [fits] in Hv; by rewrite Et in Hv).
       destruct (toServerData_as_is a v Hs) as (w & Hw & Hwv). exists v, w. split; [|done].
       destruct a; cbn [toLocalData]. by rewrite Et. }
  destruct (decide (v = VUndef)) as [->|Hu].
  { exists VUndef, VUndef. destruct a; cbn [toLocalData toServerData]. rewrite Et, andb_false_r. done. }
  destruct (fits_shapes a v Et Hv Hu)
    as [(Hp & Hi & Hy & ->)|[(-> & Hn & ->)|[(Hf & (ps & Hp) & o & ->)|(Hf & Hp & (it & Hi) & o & ->)]]].
  - destruct (freeform_roundtrip a v Et Hp Hi Hy) as (s & -> & Hs). by exists (VStr s), v.
  - exists VNull, VNull. destruct a; cbn [toServerData s_nullable] in *. by rewrite Hn.
  - destruct (fits_object a ps o Et Hf Hp Hv) as ((Hk & Hps) & -> & Hsrv).
    destruct (props_roundtrip o ps Hk) as (o' & e & -> & He & Heo).
    { apply Forall_elem. intros kp Hkp. specialize (IHp ps Hp). rewrite Forall_elem in IHp, Hps. eauto. }
    exists (VObj o'), (VObj e). by rewrite Hsrv.
  - destruct (fits_dict a it o Et Hf Hp Hi Hv) as (ks & Hit & Hks & -> & Hsrv).
    destruct (dict_roundtrip it o ks) as (fs & e & -> & He & Heo); [|done|].
    { apply Forall_elem. intros k _. apply (IHi it Hi).
      by apply (obj_get_ind (fits it)); [apply fits_undef|]. }
    exists (VArr fs), (VObj e). by rewrite Hsrv.
Qed.

(** C1.  Editing loses nothing: the conversion of the data that fits a schema
    to the format of the form succeeds, and the conversion of its result back
    gives the same data, up to the order of the properties. *)
Theorem toServerData_toLocalData a v :
  fits a v -> exists l w, toLocalData a v = Ok l /\ toServerData a l = Ok w /\ w ≈ v.
Proof. apply edit_roundtrip. Qed.

Definition object_schema (ps : list (jstr * schema)) : schema :=
  Schema (TyStr (u "object")) None None None false None None VUndef None None None None None None None (Some ps) None.

(** An object in an object, with one free-form property. *)
Definition nested_freeform (k1 k2 : jstr) : schema :=
  object_schema [(k1, object_schema [(k2,
    Schema (TyStr (u "object")) None None None false None None VUndef None None None None None None None None None)])].

(** C24.  [toLocal] changes the model it converts: free-form data inside an
    object is replaced by its dump in the attributes of the model, and the next
    edit, though nothing is changed in the form, sends the dump to the server
    as a string in the place of the data. *)
Theorem toLocal_twice k1 k2 v s :
  v <> VUndef -> safeDump v = Ok s -> yaml_roundtrips (VStr s) ->
  let attrs v := [(k1, VObj [(k2, v)])] in
  toLocal_after (nested_freeform k1 k2) (attrs v) = Ok (attrs (VStr s))
  /\ exists l, toLocal (nested_freeform k1 k2) (VObj (attrs (VStr s))) = Ok l
     /\ toServer (nested_freeform k1 k2) l = Ok (VObj (attrs (VStr s))).
Proof.
  intros Hv Hd Hs attrs. subst attrs. unfold nested_freeform, object_schema. split.
  - unfold toLocal_after. cbn. streq_simpl. cbn. rewrite streq_refl. cbn. rewrite ?streq_refl. cbn.
    destruct v; [done|..]; rewrite Hd; cbn; unfold obj_set, obj_has; cbn; by rewrite streq_refl.
  - apply yaml_roundtrip in Hs as (s' & Hd' & Hne & Hl').
    exists (VObj [(k1, VObj [(k2, VStr s')])]). split.
    + unfold toLocal. cbn. streq_simpl. cbn.
      unfold obj_assign. cbn. repeat (unfold obj_set, obj_has; cbn; rewrite ?streq_refl; cbn).
      by rewrite Hd'.
    + unfold toServer. cbn. streq_simpl. cbn. repeat (rewrite ?streq_refl; cbn; streq_simpl; cbn).
      destruct s' as [|x s']; [done|]. by rewrite Hl'.
Qed.

End WithYaml.

(** ** An example: a codec for booleans, [null] and strings *)

#[export] Instance yaml_simple : YamlCodec.
Proof.
  refine {|
    safeDump v := match v with
                  | VBool b => Ok ((if b then u "true" else u "false") ++ [10])
                  | VNull => Ok (u "null" ++ [10])
                  | VStr s => Ok (34 :: s ++ [34; 10])
                  | _ => Err Unsupported
                  end;
    safeLoad v := match v with
                  | VStr (116 :: _) => Ok (VBool true)
                  | VStr (102 :: _) => Ok (VBool false)
                  | VStr (34 :: s) => Ok (VStr (take (length s - 2) s))
                  | _ => Ok VNull
                  end;
    yaml_roundtrips v := match v with VBool _ | VNull | VStr _ => True | _ => False end |}.
  intros [| |[|]| |s| | | | |]; try done; intros _; eexists; (split; [reflexivity|]; split; [done|]); try reflexivity.
  rewrite length_app. cbn [length]. replace (length s + 2 - 2)%nat with (length s) by lia. by rewrite take_app_length.
Defined.

(** A schema with no keyword but its type and title. *)
Definition plain_schema (t : styp) (title : option jstr) : schema :=
  Schema t title None None false None None VUndef None None None None None None None None None.

(** An object with a name, a dictionary of objects, and free-form data. *)
Definition port_schema : schema :=
  object_schema
    [(u "name", plain_schema (TyStr (u "string")) None);
     (u "rules", Schema (TyStr (u "object")) None None None false None None VUndef None None None None None None None
                   None (Some (object_schema [(u "on", plain_schema (TyStr (u "boolean")) None)])));
     (u "extra", plain_schema (TyStr (u "object")) None)].

Definition port_data : value :=
  VObj [(u "name", VStr (u "eth0"));
        (u "rules", VObj [(u "in", VObj [(u "on", VBool true)]); (u "out", VObj [(u "on", VBool false)])]);
        (u "extra", VBool true)].

Lemma toServerData_toLocalData_witness :
  exists l w, toLocalData port_schema port_data = Ok l /\ l <> port_data
              /\ toServerData port_schema l = Ok w /\ w ≈ port_data.
Proof.
  destruct (toServerData_toLocalData port_schema port_data) as (l & w & Hl & Hw & Hwv).
  - assert (forall b, fits (object_schema [(u "on", plain_schema (TyStr (u "boolean")) None)]) (VObj [(u "on", VBool b)])) as Hon.
    { intros b. split; [split; [by apply (bool_decide_unpack _)|set_solver]|]. by split. }
    split; [split; [by apply (bool_decide_unpack _)|set_solver]|]. split; [done|split; [|done]].
    split; [constructor; [apply Hon|constructor; [apply Hon|constructor]]|]. by apply (bool_decide_unpack _).
  - exists l, w. split; [done|split; [|done]]. intros ->. by vm_compute in Hl.
Defined.

Lemma toLocal_twice_witness :
  exists l, toLocal (nested_freeform (u "a") (u "b")) (VObj [(u "a", VObj [(u "b", VStr (u "true" ++ [10]))])]) = Ok l
    /\ toServer (nested_freeform (u "a") (u "b")) l = Ok (VObj [(u "a", VObj [(u "b", VStr (u "true" ++ [10]))])]).
Proof. by apply (toLocal_twice (u "a") (u "b") (VBool true) (u "true" ++ [10])). Defined.
