(* ===== verification/ClientYaml.v ===== *)
(** The client with its YAML library: js-yaml's [safeDump] and [safeLoad] are
    the codec that [SchemaModel] asks for, and what the conversions of free-form
    data then promise. *)

From Stdlib Require Import ZArith Lia List String Bool.
From stdpp Require Import base list sets list_numbers tactics.
From S2P Require Import Prelude JsNum Js YamlSchema YamlScanner YamlLoader YamlWriter YamlDumper YamlRoundTrip YamlTreeLoad YamlTreeDump SchemaModel.

(** The values that js-yaml reads back from their dump. *)
Definition survives (v : value) : Prop :=
  exists s, YamlDumper.safeDump v = Ok s /\ s <> [] /\ YamlLoader.safeLoad (VStr s) = Ok v.

#[export] Instance js_yaml : YamlCodec :=
  {| SchemaModel.safeDump := YamlDumper.safeDump;
     SchemaModel.safeLoad := YamlLoader.safeLoad;
     yaml_roundtrips := survives;
     yaml_roundtrip := fun v H => H |}.

(** A string that the dumper keeps on one line. *)
Definition one_line_string (s : jstr) : Prop :=
  Forall unit16 s /\ one_line_text s /\ testDocumentSeparator (s ++ [10; 0]) (Cursor 0 0 0 0) = false.

Lemma one_line_survives s : one_line_string s -> survives (VStr s).
Proof.
  intros (H16 & Hone & Hsep). destruct (safeLoad_safeDump_string s H16 Hone Hsep) as (t & Hd & Hl).
  exists t. split; [done|]. split; [|done]. intros ->.
  assert (E : YamlLoader.safeLoad (VStr []) = Ok VUndef) by (vm_compute; reflexivity).
  rewrite E in Hl. discriminate Hl.
Qed.

(** Free-form data: a tree of arrays and objects that fits a document. *)
Lemma document_survives v : document 0 v -> filled v = true -> survives v.
Proof.
  intros Hd Hf. destruct (safeDump_collection v Hd Hf) as (t & Hw & _ & Hr). exists (t ++ [10]).
  split; [exact Hw|]. split; [by destruct t | exact Hr].
Qed.

(** With js-yaml as the codec, data that fits its schema is edited without loss. *)
Corollary client_edit a v :
  fits a v -> exists l v', toLocalData a v = Ok l /\ toServerData a l = Ok v' /\ v' ≈ v.
Proof. apply edit_roundtrip. Qed.
