(* ===== verification/SchemaForm.v ===== *)
(** The schema that a form is built from: [SchemaModel.toLocalSchema],
    [filterSchema] and [filterByAction], with the changes they make to the
    schema object of the model in passing. *)

From Stdlib Require Import ZArith Lia List String Bool.
From stdpp Require Import base list sets list_numbers tactics.
From S2P Require Import Prelude JsNum Js SchemaModel.

(** ** Writing the keywords of a schema *)

Definition set_type (t : styp) (a : schema) : schema :=
  let '(Schema _ ti d f n o r df e op rc pm v rq po ps it) := a in
  Schema t ti d f n o r df e op rc pm v rq po ps it.

Definition set_title (t : jstr) (a : schema) : schema :=
  let '(Schema ty _ d f n o r df e op rc pm v rq po ps it) := a in
  Schema ty (Some t) d f n o r df e op rc pm v rq po ps it.

Definition set_nullable (a : schema) : schema :=
  let '(Schema ty ti d f _ o r df e op rc pm v rq po ps it) := a in
  Schema ty ti d f true o r df e op rc pm v rq po ps it.

Definition set_freeform (a : schema) : schema :=
  let '(Schema ty ti d _ n _ r df e op rc pm v rq po ps it) := a in
  Schema ty ti d (Some (u "yaml")) n (Some (u "object")) r df e op rc pm v rq po ps it.

Definition set_related (en : list value) (opt : object) (recs : list value) (a : schema) : schema :=
  let '(Schema ty ti d f n o r df _ _ _ pm v rq po ps it) := a in
  Schema ty ti d f n o r df (Some en) (Some opt) (Some recs) pm v rq po ps it.

Definition set_required (rq : list jstr) (a : schema) : schema :=
  let '(Schema ty ti d f n o r df e op rc pm v _ po ps it) := a in
  Schema ty ti d f n o r df e op rc pm v (Some rq) po ps it.

Definition set_properties (ps : list (jstr * schema)) (a : schema) : schema :=
  let '(Schema ty ti d f n o r df e op rc pm v rq po _ it) := a in
  Schema ty ti d f n o r df e op rc pm v rq po (Some ps) it.

Definition set_items (it : schema) (a : schema) : schema :=
  let '(Schema ty ti d f n o r df e op rc pm v rq po ps _) := a in
  Schema ty ti d f n o r df e op rc pm v rq po ps (Some it).

(** [P] of every property listed. *)
Definition each_schema (P : jstr -> schema -> Prop) : list (jstr * schema) -> Prop :=
  fix each ps := match ps with [] => True | (g, h) :: ps => P g h /\ each ps end.

(** ** [toLocalSchema] *)

(** [Array.isArray(a.type) && (a.type.includes('null') && (a.nullable = true),
    a.type = a.type[0])]. *)
Definition normalise_type (a : schema) : schema :=
  match s_type a with
  | TyList l =>
      let a := if bool_decide (u "null" ∈ l) then set_nullable a else a in
      set_type (match l with [] => TyUndef | t :: _ => TyStr t end) a
  | _ => a
  end.

(** The items of the array that stands for a dictionary. *)
Definition dict_items (required : option (list jstr)) (g : schema) : schema :=
  let id := plain_schema (TyStr (u "string")) (Some (u "key")) in
  let '(Schema ty ti d f n o r df e op rc pm v _ po _ it) := plain_schema (TyStr (u "object")) None in
  Schema ty ti d f n o r df e op rc pm v required po (Some [(u "id", id); (u "value", g)]) it.

(** The enum, the options and the records of a relation. *)
Fixpoint relation_choices (recs : list value) : res (list value * object) :=
  match recs with
  | [] => Ok ([], [])
  | n :: recs =>
      id <-? get_prop n (u "id"); name <-? get_prop n (u "name");
      key <-? to_string id; r <-? relation_choices recs; Ok (id :: r.1, (key, name) :: r.2)
  end.

(** Whether the promise of [toLocalSchema(a)] is fulfilled with [a] itself, the
    type being normalised already. *)
Definition resolves_itself (a : schema) : bool :=
  is_some (s_relation a) || negb (type_is (u "array") a || type_is (u "object") a).

(** The promises of the schemas of the properties, [self] being the recursive
    call. *)
Fixpoint props_promises (self : schema -> promise (schema * schema)) (ps : list (jstr * schema)) :
    list (promise (jstr * schema)) :=
  match ps with
  | [] => []
  | (i, p) :: ps => promise_bind (self p) (fun l => Fulfilled (i, l.1)) :: props_promises self ps
  end.

Section Related.
(** The records that the server returns for a relation. *)
Variable related : jstr -> promise (list value).

(** [SchemaModel.toLocalSchema]: the schema it resolves to, and the schema
    object it was given, as it leaves it. *)
Fixpoint toLocalSchema (a : schema) : promise (schema * schema) :=
  let '(Schema _ _ _ _ _ _ _ _ _ _ _ _ _ _ _ ps its) := a in
  let a := normalise_type a in
  match s_relation a with
  | Some r =>
      promise_bind (related r) (fun recs =>
        match relation_choices recs with
        | Ok (en, opt) =>
            let a := set_related en (obj_assign [] opt) recs a in Fulfilled (a, a)
        | Err _ => Pending
        end)
  | None =>
      if type_is (u "array") a then
        match its with
        | Some it => match toLocalSchema it with
                     | Fulfilled (h, it') => Fulfilled (set_items h a, set_items it' a)
                     | _ => Pending
                     end
        | None => Pending
        end
      else if negb (type_is (u "object") a) then Fulfilled (a, a)
      else
        match ps with
        | Some ps =>
            promise_bind (promise_all (props_promises toLocalSchema ps))
              (fun ps' => Fulfilled (set_properties ps' a, set_properties ps' a))
        | None =>
            match its with
            | None => Fulfilled (set_freeform a, a)
            | Some it =>
                promise_bind (toLocalSchema it) (fun gi =>
                  let '(g, it') := gi in
                  let g' := match s_title g with None => set_title (u "value") g | Some _ => g end in
                  let it' := if resolves_itself (normalise_type it) then g' else it' in
                  Fulfilled (set_items (dict_items (s_required a) g') (set_type (TyStr (u "array")) a),
                             set_items it' a))
            end
        end
  end.

(** ** [filterSchema] *)

(** [0 <= h.type.indexOf(t)], on a string or an array of strings. *)
Definition type_indexOf (t : jstr) (h : schema) : res bool :=
  match s_type h with
  | TyUndef => Err TypeError
  | TyStr s => Ok (str_includes t s)
  | TyList l => Ok (bool_decide (t ∈ l))
  end.

(** Whether a property is shown for an action [b], [c] being the property that
    holds the parent. *)
Definition property_kept (b : jstr) (c : option jstr) (g : jstr) (h : schema) : bool :=
  (negb (streq g (u "id")) || negb (format_is (u "uuid") h))
  && negb (bool_decide (c = Some g))
  && match s_view h with Some i => bool_decide (b ∈ i) | None => true end
  && match s_permission h with Some i => bool_decide (b ∈ i) | None => true end.

(** A schema that [filterSchema] returns as it is. *)
Definition filter_stops (a : schema) : bool :=
  is_some (s_enum a) || is_some (s_options a) || negb (is_some (s_properties a)).

(** The loop of [filterSchema] over the properties, [self] being the recursive
    call: the properties of the result, and those of the argument afterwards
    (the filtered items are written into the property of the argument). *)
Fixpoint filter_props (self : schema -> res (schema * schema)) (b : jstr) (c : option jstr)
    (ps : list (jstr * schema)) : res (list (jstr * schema) * list (jstr * schema)) :=
  match ps with
  | [] => Ok ([], [])
  | (g, h) :: ps =>
      if property_kept b c g h then
        arr <-? type_indexOf (u "array") h;
        if arr : bool then
          let '(Schema _ _ _ _ _ _ _ _ _ _ _ _ _ _ _ _ its) := h in
          match its with
          | None => Err TypeError
          | Some it =>
              fi <-? self it;
              r <-? filter_props self b c ps;
              Ok ((g, set_items fi.1 h) :: r.1, (g, set_items fi.1 h) :: r.2)
          end
        else
          obj <-? type_indexOf (u "object") h;
          if obj : bool then
            fh <-? self h;
            r <-? filter_props self b c ps; Ok ((g, fh.1) :: r.1, (g, fh.2) :: r.2)
          else r <-? filter_props self b c ps; Ok ((g, h) :: r.1, (g, h) :: r.2)
      else r <-? filter_props self b c ps; Ok (r.1, (g, h) :: r.2)
  end.

(** [a.required.filter(g => e.hasOwnProperty(g))]. *)
Definition filter_required (a : schema) (ps : list (jstr * schema)) : list jstr :=
  match s_required a with
  | Some rq => List.filter (fun g => obj_has g ps) rq
  | None => []
  end.

(** [SchemaModel.filterSchema]: the filtered schema, and the schema object it
    was given, as it leaves it. *)
Fixpoint filterSchema (b : jstr) (c : option jstr) (a : schema) : res (schema * schema) :=
  let '(Schema _ _ _ _ _ _ _ _ _ _ _ _ _ _ _ props _) := a in
  if filter_stops a then Ok (a, a) else
  match props with
  | None => Ok (a, a)
  | Some ps =>
      r <-? filter_props (filterSchema b c) b c ps;
      Ok (set_required (filter_required a r.1) (set_properties r.1 (set_type (TyStr (u "object")) a)),
          set_properties r.2 a)
  end.

(** [SchemaModel.filterByAction]: the schema for the form, and the schema held
    by the model afterwards.  [toLocalSchema] shares the [properties] object
    of the schema it copies, so what [filterSchema] writes into it is written
    into the schema of the model too. *)
Definition filterByAction (action : jstr) (parentProperty : option jstr) (a : schema) : promise (schema * schema) :=
  promise_bind (toLocalSchema a) (fun ga =>
    let '(g, a') := ga in
    promise_bind (promise_of (filterSchema action parentProperty g)) (fun fg =>
      let '(f, g') := fg in
      Fulfilled (f, if type_is (u "object") (normalise_type a) && is_some (s_properties a) && negb (is_some (s_relation a))
                    then match s_properties g' with Some ps => set_properties ps a' | None => a' end
                    else a'))).

(** ** What [toLocalSchema] resolves to *)

(** A schema that the form library can take: a single type at every place, no
    dictionary, and free-form objects marked as such. *)
Fixpoint form_ready (a : schema) : Prop :=
  let '(Schema ty _ _ _ _ _ _ _ _ _ _ _ _ _ _ props items) := a in
  match ty with TyList _ => False | _ => True end /\
  if is_some (s_relation a) then True
  else if type_is (u "array") a then match items with Some it => form_ready it | None => False end
  else if type_is (u "object") a then
    match props with
    | Some ps => each_schema (fun _ p => form_ready p) ps
    | None => items = None /\ format_is (u "yaml") a = true /\ originalType_is (u "object") a = true
    end
  else True.

(** The relations named in a schema can be fetched, and its arrays have
    items. *)
Fixpoint loadable (a : schema) : Prop :=
  let '(Schema _ _ _ _ _ _ _ _ _ _ _ _ _ _ _ props items) := a in
  match s_relation a with
  | Some r => exists recs en, related r = Fulfilled recs /\ relation_choices recs = Ok en
  | None =>
      if type_is (u "array") (normalise_type a) then match items with Some it => loadable it | None => False end
      else if type_is (u "object") (normalise_type a) then
        match props, items with
        | Some ps, _ => each_schema (fun _ p => loadable p) ps
        | None, Some it => loadable it
        | None, None => True
        end
      else True
  end.

Lemma normalise_type_single a : match s_type (normalise_type a) with TyList _ => False | _ => True end.
Proof.
  unfold normalise_type. destruct (s_type a) as [| |l] eqn:E; [by rewrite E..|].
  open_schema a. destruct (bool_decide _), l; done.
Qed.

Lemma normalise_type_keeps a :
  s_relation (normalise_type a) = s_relation a /\ s_properties (normalise_type a) = s_properties a
  /\ s_items (normalise_type a) = s_items a.
Proof.
  unfold normalise_type. destruct (s_type a) as [| |l]; [done..|].
  open_schema a. by destruct (bool_decide _).
Qed.

Lemma set_title_ready t a : form_ready a -> form_ready (set_title t a).
Proof. by open_schema a. Qed.

Lemma each_schema_elem P ps : each_schema P ps <-> Forall (fun kp => P kp.1 kp.2) ps.
Proof. clear related. induction ps as [|[g h] ps IH]; simpl; rewrite ?Forall_nil_iff, ?Forall_cons_iff; tauto. Qed.

Lemma props_promises_fulfilled self ps ps' :
  promise_all (props_promises self ps) = Fulfilled ps' <->
  Forall2 (fun kp kp' => exists p', self kp.2 = Fulfilled (kp'.2, p') /\ kp'.1 = kp.1) ps ps'.
Proof.
  rewrite promise_all_fulfilled. revert ps'. induction ps as [|[k p] ps IH]; intros ps'; simpl.
  - split; intros H; inversion H; constructor.
  - split; intros H; inversion H as [|? [k' l] ? ps'' H1 H2]; subst.
    + apply promise_bind_fulfilled in H1 as ([l' p'] & Hl & [= -> ->]).
      constructor; [by exists p'|]. by apply IH.
    + destruct H1 as (p' & Hp & Hk). simpl in *. subst.
      constructor; [by rewrite Hp|]. by apply IH.
Qed.

(** The equations of [toLocalSchema] by the shape of the schema. *)
Inductive local_shape (a : schema) : promise (schema * schema) -> Prop :=
| shape_relation r :
    s_relation a = Some r ->
    local_shape a (promise_bind (related r) (fun recs =>
      match relation_choices recs with
      | Ok (en, opt) => let a' := set_related en (obj_assign [] opt) recs (normalise_type a) in Fulfilled (a', a')
      | Err _ => Pending
      end))
| shape_array :
    s_relation a = None -> type_is (u "array") (normalise_type a) = true ->
    local_shape a (match s_items a with
                   | Some it => match toLocalSchema it with
                                | Fulfilled (h, it') =>
                                    Fulfilled (set_items h (normalise_type a), set_items it' (normalise_type a))
                                | _ => Pending
                                end
                   | None => Pending
                   end)
| shape_leaf :
    s_relation a = None -> type_is (u "array") (normalise_type a) = false ->
    type_is (u "object") (normalise_type a) = false ->
    local_shape a (Fulfilled (normalise_type a, normalise_type a))
| shape_object ps :
    s_relation a = None -> type_is (u "array") (normalise_type a) = false ->
    type_is (u "object") (normalise_type a) = true -> s_properties a = Some ps ->
    local_shape a (promise_bind (promise_all (props_promises toLocalSchema ps))
      (fun ps' => Fulfilled (set_properties ps' (normalise_type a), set_properties ps' (normalise_type a))))
| shape_freeform :
    s_relation a = None -> type_is (u "array") (normalise_type a) = false ->
    type_is (u "object") (normalise_type a) = true -> s_properties a = None -> s_items a = None ->
    local_shape a (Fulfilled (set_freeform (normalise_type a), normalise_type a))
| shape_dict it :
    s_relation a = None -> type_is (u "array") (normalise_type a) = false ->
    type_is (u "object") (normalise_type a) = true -> s_properties a = None -> s_items a = Some it ->
    local_shape a (promise_bind (toLocalSchema it) (fun gi =>
      let '(g, it') := gi in
      let g' := match s_title g with None => set_title (u "value") g | Some _ => g end in
      let it' := if resolves_itself (normalise_type it) then g' else it' in
      Fulfilled (set_items (dict_items (s_required (normalise_type a)) g')
                   (set_type (TyStr (u "array")) (normalise_type a)),
                 set_items it' (normalise_type a)))).

Lemma toLocalSchema_shape a : local_shape a (toLocalSchema a).
Proof.
  pose proof (normalise_type_keeps a) as (Hr & Hp & Hi).
  destruct (s_relation a) as [r|] eqn:Er.
  { pose proof (shape_relation a r Er) as H. open_schema a. cbn [toLocalSchema]. by rewrite Hr. }
  destruct (type_is (u "array") (normalise_type a)) eqn:Ea.
  { pose proof (shape_array a Er Ea) as H. open_schema a. cbn [toLocalSchema]. by rewrite Hr, Ea. }
  destruct (type_is (u "object") (normalise_type a)) eqn:Eo.
  2: { pose proof (shape_leaf a Er Ea Eo) as H. open_schema a. cbn [toLocalSchema]. by rewrite Hr, Ea, Eo. }
  destruct (s_properties a) as [ps|] eqn:Ep; [|destruct (s_items a) as [it|] eqn:Ei].
  - pose proof (shape_object a ps Er Ea Eo Ep) as H. open_schema a. cbn [s_properties] in Ep. subst.
    cbn [toLocalSchema]. by rewrite Hr, Ea, Eo.
  - pose proof (shape_dict a it Er Ea Eo Ep Ei) as H. open_schema a. cbn [s_properties s_items] in Ep, Ei. subst.
    cbn [toLocalSchema]. by rewrite Hr, Ea, Eo.
  - pose proof (shape_freeform a Er Ea Eo Ep Ei) as H. open_schema a. cbn [s_properties s_items] in Ep, Ei. subst.
    cbn [toLocalSchema]. by rewrite Hr, Ea, Eo.
Qed.

(** What [toLocalSchema] resolves to can be given to the form library. *)
Theorem toLocalSchema_form_ready a f a' :
  toLocalSchema a = Fulfilled (f, a') -> form_ready f.
Proof.
  revert f a'. induction a as [a IHp IHi] using schema_ind'. intros f a'.
  pose proof (normalise_type_single a) as Ht. pose proof (normalise_type_keeps a) as (Hr & Hp & Hi).
  destruct (toLocalSchema_shape a) as [r Er|Er Ea|Er Ea Eo|ps Er Ea Eo Ep|Er Ea Eo Ep Ei|it Er Ea Eo Ep Ei];
    rewrite Er in Hr; try rewrite Ep in Hp; try rewrite Ei in Hi.
  - intros (recs & _ & Hf)%promise_bind_fulfilled.
    destruct (relation_choices recs) as [[en opt]|]; [|done]. injection Hf as <- <-.
    open_schema (normalise_type a). cbn in *. by rewrite Hr.
  - destruct (s_items a) as [it|] eqn:Ei; [|done].
    destruct (toLocalSchema it) as [[h it']| |] eqn:Eh; [|done..]. intros [= <- <-].
    specialize (IHi it eq_refl h it' Eh).
    open_schema (normalise_type a). cbn [set_items form_ready s_relation] in *. rewrite Hr. cbn [is_some]. split; [done|].
    unfold type_is in *. cbn [s_type] in *. by rewrite Ea.
  - intros [= <- <-]. open_schema (normalise_type a). cbn [form_ready s_relation] in *. rewrite Hr.
    unfold type_is in *. cbn [s_type is_some] in *. by rewrite Ea, Eo.
  - intros (ps' & Hps%props_promises_fulfilled & [= <- <-])%promise_bind_fulfilled.
    specialize (IHp ps Ep). open_schema (normalise_type a).
    cbn [set_properties form_ready s_relation] in *. rewrite Hr. cbn [is_some]. split; [done|].
    unfold type_is in *. cbn [s_type] in *. rewrite Ea, Eo. apply each_schema_elem.
    clear -IHp Hps. revert IHp. induction Hps as [|[k p] [k' l] ps ps' (p' & Hp & _) _ IH]; intros IHp; [constructor|].
    inversion IHp as [|? ? H1 H2]; subst. constructor; [by apply (H1 l p')|by apply IH].
  - intros [= <- <-]. open_schema (normalise_type a). cbn [set_freeform form_ready s_relation s_items] in *.
    unfold type_is in *. cbn [s_type s_properties] in *. rewrite Hr, Ea, Eo, Hp. by rewrite Hi.
  - intros ([g it'] & Hg & [= <- <-])%promise_bind_fulfilled.
    specialize (IHi it Ei g it' Hg).
    assert (form_ready match s_title g with None => set_title (u "value") g | Some _ => g end) as Hg'
      by (destruct (s_title g); [done|by apply set_title_ready]).
    revert Hg'. generalize (match s_title g with None => set_title (u "value") g | Some _ => g end). intros g' Hg'.
    open_schema (normalise_type a). cbn [set_items set_type form_ready s_relation] in *. rewrite Hr.
    split; [done|]. cbn. by repeat split.
Qed.

Lemma loadable_eq a : loadable a =
  match s_relation a with
  | Some r => exists recs en, related r = Fulfilled recs /\ relation_choices recs = Ok en
  | None =>
      if type_is (u "array") (normalise_type a) then match s_items a with Some it => loadable it | None => False end
      else if type_is (u "object") (normalise_type a) then
        match s_properties a, s_items a with
        | Some ps, _ => each_schema (fun _ p => loadable p) ps
        | None, Some it => loadable it
        | None, None => True
        end
      else True
  end.
Proof. by open_schema a. Qed.

(** The form of a schema is built: [toLocalSchema] is fulfilled exactly
    when the relations the schema names can be fetched and its arrays have
    items. *)
Theorem toLocalSchema_fulfilled a :
  (exists r, toLocalSchema a = Fulfilled r) <-> loadable a.
Proof.
  induction a as [a IHp IHi] using schema_ind'. rewrite loadable_eq.
  destruct (toLocalSchema_shape a) as [r Er|Er Ea|Er Ea Eo|ps Er Ea Eo Ep|Er Ea Eo Ep Ei|it Er Ea Eo Ep Ei];
    rewrite Er; rewrite ?Ea, ?Eo, ?Ep, ?Ei.
  - destruct (related r) as [recs| |]; cbn [promise_bind]; [|split; [by intros [??]|intros (? & ? & ? & ?); congruence]..].
    destruct (relation_choices recs) as [[en opt]|] eqn:Ec; (split; [|(by eexists) || (intros (? & ? & [= <-] & ?); congruence)]).
    + intros _. by exists recs, (en, opt).
    + by intros [? ?].
  - destruct (s_items a) as [it|]; [|split; [by intros [??]|done]].
    rewrite <- (IHi it eq_refl). destruct (toLocalSchema it) as [[h it']| |]; (split; intros [? ?]; [done || by eexists|done || by eexists]).
  - split; [done|by eexists].
  - rewrite each_schema_elem. specialize (IHp ps Ep). split.
    + intros [r (ps' & Hps%props_promises_fulfilled & _)%promise_bind_fulfilled].
      clear -IHp Hps. induction Hps as [|kp kp' ps ps' (p' & Hp & _) _ IH]; [constructor|].
      inversion IHp as [|? ? H1 H2]; subst. constructor; [|by apply IH]. apply H1. eauto.
    + intros Hps. assert (exists ps', promise_all (props_promises toLocalSchema ps) = Fulfilled ps') as [ps' Hps'].
      { clear -IHp Hps. induction Hps as [|[k p] ps Hp _ IH]; [by exists []|].
        inversion IHp as [|? ? H1 H2]; subst. apply H1 in Hp as [[l p'] Hl].
        destruct (IH H2) as [ps' Hps']. exists ((k, l) :: ps'). cbn in *. by rewrite Hl, Hps'. }
      rewrite Hps'. by eexists.
  - split; [done|by eexists].
  - rewrite <- (IHi it Ei). destruct (toLocalSchema it) as [[g it']| |]; cbn; (split; intros [? ?]; [done || by eexists|done || by eexists]).
Qed.
End Related.

(** ** What [filterSchema] keeps *)

(** What an action [b] may see, [c] being the property that holds the parent:
    neither the identifier that the server gives nor the parent, and no property
    that has a view or a permission without the action. *)
Definition visible (b : jstr) (c : option jstr) (g : jstr) (h : schema) : Prop :=
  ~ (g = u "id" /\ s_format h = Some (u "uuid")) /\ c <> Some g /\
  (forall actions, s_view h = Some actions -> b ∈ actions) /\
  (forall actions, s_permission h = Some actions -> b ∈ actions).

Definition has_type (t : jstr) (h : schema) : Prop :=
  match s_type h with TyUndef => False | TyStr s => s = t | TyList l => t ∈ l end.

(** [h] is the property [g] of the schema, or of an object or of the items of
    an array below, as far down as there are neither an [enum] nor options. *)
Inductive within : schema -> jstr -> schema -> Prop :=
| within_here f ps g h :
    s_enum f = None -> s_options f = None -> s_properties f = Some ps -> (g, h) ∈ ps -> within f g h
| within_object f ps k p g h :
    s_enum f = None -> s_options f = None -> s_properties f = Some ps -> (k, p) ∈ ps ->
    s_type p = TyStr (u "object") -> within p g h -> within f g h
| within_items f ps k p it g h :
    s_enum f = None -> s_options f = None -> s_properties f = Some ps -> (k, p) ∈ ps ->
    has_type (u "array") p -> s_items p = Some it -> within it g h -> within f g h.

Lemma property_kept_visible b c g h : property_kept b c g h = true <-> visible b c g h.
Proof.
  unfold property_kept, visible, format_is. rewrite !andb_true_iff, orb_true_iff, !negb_true_iff.
  assert (E1 : streq g (u "id") = false \/ match s_format h with Some t => streq (u "uuid") t | None => false end = false
               <-> ~ (g = u "id" /\ s_format h = Some (u "uuid"))).
  { destruct (streq g (u "id")) eqn:E; [apply streq_eq in E as -> | apply streq_neq in E; naive_solver].
    destruct (s_format h) as [t|]; [|naive_solver]. rewrite streq_neq. naive_solver. }
  assert (E2 : bool_decide (c = Some g) = false <-> c <> Some g) by apply bool_decide_eq_false.
  assert (E3 : forall o : option (list jstr), match o with Some i => bool_decide (b ∈ i) | None => true end = true
               <-> forall actions, o = Some actions -> b ∈ actions).
  { intros [i|]; [|naive_solver]. rewrite bool_decide_eq_true. naive_solver. }
  rewrite E2, !E3, <- E1. tauto.
Qed.

Lemma str_includes_self t : str_includes t t = true.
Proof. destruct t as [|x t]; [done|]. cbn [str_includes starts_with]. rewrite Z.eqb_refl. cbn. apply orb_true_iff. left. induction t as [|y t IH]; [done|]. cbn. by rewrite Z.eqb_refl. Qed.

Lemma has_type_indexOf t h : has_type t h -> type_indexOf t h = Ok true.
Proof.
  unfold has_type, type_indexOf. destruct (s_type h); [done | intros ->; by rewrite str_includes_self | intros H; by rewrite bool_decide_eq_true_2].
Qed.

(** All the properties within a schema are in [P]. *)
Definition all_within (P : jstr -> schema -> Prop) (f : schema) : Prop := forall g h, within f g h -> P g h.

(** A property with what is below it. *)
Definition shown (P : jstr -> schema -> Prop) (g : jstr) (h : schema) : Prop :=
  P g h /\ (s_type h = TyStr (u "object") -> all_within P h)
  /\ (has_type (u "array") h -> forall it, s_items h = Some it -> all_within P it).

Lemma all_within_properties P f ps : s_properties f = Some ps -> Forall (fun gh => shown P gh.1 gh.2) ps -> all_within P f.
Proof.
  intros Hp Hall g h Hw. inversion Hw as [? ps' ? ? _ _ Hp' Hin | ? ps' k p ? ? _ _ Hp' Hin Ht Hw' | ? ps' k p it ? ? _ _ Hp' Hin Ht Hi Hw']; subst;
    rewrite Hp in Hp'; injection Hp' as <-; eapply Forall_elem in Hall; try exact Hin; destruct Hall as (H1 & H2 & H3); [done | by apply H2 | by eapply H3].
Qed.

Lemma all_within_stops P f : filter_stops f = true -> all_within P f.
Proof.
  unfold filter_stops. intros Hs g h Hw. destruct Hw as [f ps ? ? He Ho Hp | f ps ? ? ? ? He Ho Hp | f ps ? ? ? ? ? He Ho Hp]; by rewrite He, Ho, Hp in Hs.
Qed.

(** The keywords that decide whether a property is kept. *)
Lemma property_kept_ext b c g h h' :
  s_format h = s_format h' -> s_view h = s_view h' -> s_permission h = s_permission h' ->
  property_kept b c g h = property_kept b c g h'.
Proof. unfold property_kept, format_is. by intros -> -> ->. Qed.

Lemma filterSchema_keywords b c a f a' :
  filterSchema b c a = Ok (f, a') ->
  s_format f = s_format a /\ s_view f = s_view a /\ s_permission f = s_permission a
  /\ (f = a \/ s_type f = TyStr (u "object")).
Proof.
  open_schema a. cbn [filterSchema].
  destruct (filter_stops _); [intros [= <- <-]; auto|].
  destruct props as [ps|]; [|intros [= <- <-]; auto].
  intros (r & _ & [= <- <-])%res_bind_ok. cbn. auto.
Qed.

Lemma set_items_keywords it h :
  s_format (set_items it h) = s_format h /\ s_view (set_items it h) = s_view h
  /\ s_permission (set_items it h) = s_permission h /\ s_type (set_items it h) = s_type h
  /\ s_items (set_items it h) = Some it.
Proof. by destruct h. Qed.

(** Induction on the calls of the loop of [filterSchema]: what holds of each
    property that the loop emits. *)
Lemma filter_props_spec b c (P : jstr -> schema -> Prop) self ps r :
  filter_props self b c ps = Ok r ->
  Forall (fun gh =>
    (forall it fi, s_items gh.2 = Some it -> self it = Ok fi ->
       type_indexOf (u "array") gh.2 = Ok true -> property_kept b c gh.1 gh.2 = true ->
       P gh.1 (set_items fi.1 gh.2)) /\
    (forall fh, self gh.2 = Ok fh -> type_indexOf (u "array") gh.2 = Ok false ->
       type_indexOf (u "object") gh.2 = Ok true -> property_kept b c gh.1 gh.2 = true -> P gh.1 fh.1) /\
    (type_indexOf (u "array") gh.2 = Ok false -> type_indexOf (u "object") gh.2 = Ok false ->
       property_kept b c gh.1 gh.2 = true -> P gh.1 gh.2)) ps ->
  each_schema P r.1
  /\ map fst r.1 = map fst (List.filter (fun gh => property_kept b c gh.1 gh.2) ps)
  /\ map fst r.2 = map fst ps.
Proof.
  intros Hr Hps. revert r Hr. induction Hps as [|[g h] ps (Ha & Ho & Hs) _ IH]; intros r Hr.
  - injection Hr as <-. done.
  - cbn [filter_props fst snd List.filter] in *. destruct (property_kept b c g h) eqn:Ek.
    + destruct (type_indexOf (u "array") h) as [[|]|] eqn:Ea; cbn [res_bind] in Hr; [..|done].
      * destruct (s_items h) as [it|] eqn:Ei; [|destruct h; cbn in Ei; by subst].
        assert ((fi <-? self it; r0 <-? filter_props self b c ps;
                 Ok ((g, set_items fi.1 h) :: r0.1, (g, set_items fi.1 h) :: r0.2)) = Ok r) as Hr'
          by (destruct h; cbn in Ei; by subst).
        apply res_bind_ok in Hr' as (fi & Hfi & (r0 & Hr0 & [= <-])%res_bind_ok).
        destruct (IH _ Hr0) as (IH1 & IH2 & IH3). cbn. rewrite IH2, IH3. eauto.
      * destruct (type_indexOf (u "object") h) as [[|]|] eqn:Eo; cbn [res_bind] in Hr; [..|done].
        -- apply res_bind_ok in Hr as (fh & Hfh & (r0 & Hr0 & [= <-])%res_bind_ok).
           destruct (IH _ Hr0) as (IH1 & IH2 & IH3). cbn. rewrite IH2, IH3. eauto.
        -- apply res_bind_ok in Hr as (r0 & Hr0 & [= <-]).
           destruct (IH _ Hr0) as (IH1 & IH2 & IH3). cbn. rewrite IH2, IH3. eauto.
    + apply res_bind_ok in Hr as (r0 & Hr0 & [= <-]).
      destruct (IH _ Hr0) as (IH1 & IH2 & IH3). cbn. by rewrite IH3.
Qed.

(** Induction along the calls of [filterSchema]: on the properties and on the
    items of the properties. *)
Lemma filter_ind (Q : schema -> Prop) :
  (forall a, (forall ps, s_properties a = Some ps ->
      Forall (fun kp => Q kp.2 /\ forall it, s_items kp.2 = Some it -> Q it) ps) -> Q a) ->
  forall a, Q a.
Proof.
  intros H a. enough (Q a /\ forall it, s_items a = Some it -> Q it) by tauto.
  induction a as [a IHp IHi] using schema_ind'. split; [by apply H|].
  intros it Hit. by apply IHi.
Qed.

Lemma filterSchema_result b c a f a' ps :
  filter_stops a = false -> s_properties a = Some ps -> filterSchema b c a = Ok (f, a') ->
  exists r, filter_props (filterSchema b c) b c ps = Ok r
    /\ f = set_required (filter_required a r.1) (set_properties r.1 (set_type (TyStr (u "object")) a))
    /\ a' = set_properties r.2 a.
Proof.
  intros Hs Hp Hf. open_schema a.
  cbn [filterSchema s_properties] in *. subst. rewrite Hs in Hf.
  apply res_bind_ok in Hf as (r & Hr & [= <- <-]). by exists r.
Qed.

Lemma type_indexOf_ext t a b : s_type a = s_type b -> type_indexOf t a = type_indexOf t b.
Proof. unfold type_indexOf. by intros ->. Qed.

Arguments property_kept : simpl never.
Arguments type_indexOf : simpl never.


(** C23.  Nothing else is dropped: the properties that [filterSchema] keeps are
    exactly the ones that the action may see, in their order; the required
    ones are those that were required and are kept; and the schema it was
    given keeps all of its properties. *)
Theorem filterSchema_keys b c a ps f a' :
  filter_stops a = false -> s_properties a = Some ps -> filterSchema b c a = Ok (f, a') ->
  option_map (map fst) (s_properties f) = Some (map fst (List.filter (fun gh => property_kept b c gh.1 gh.2) ps))
  /\ (forall g, g ∈ default [] (s_required f) <->
        g ∈ default [] (s_required a) /\ exists h, (g, h) ∈ ps /\ property_kept b c g h = true)
  /\ option_map (map fst) (s_properties a') = Some (map fst ps).
Proof.
  intros Hs Hp Hf. destruct (filterSchema_result _ _ _ _ _ _ Hs Hp Hf) as (r & Hr & -> & ->).
  eapply (filter_props_spec b c (fun _ _ => True)) in Hr as (_ & H1 & H2);
    [|apply Forall_elem; done].
  open_schema a. cbn [set_type set_properties set_required s_properties s_required option_map default].
  rewrite H1, H2. split; [done|split; [|done]]. intros g. unfold filter_required. cbn [s_required].
  assert (obj_has g r.1 = true <-> exists h, (g, h) ∈ ps /\ property_kept b c g h = true) as Hg.
  { rewrite obj_has_keys. unfold obj_keys. rewrite H1, list_elem_of_fmap. split.
    - intros ([g' h] & -> & Hin). apply list_elem_of_In, filter_In in Hin as [Hin Hk].
      exists h. split; [by apply list_elem_of_In|done].
    - intros (h & Hin & Hk). exists (g, h). split; [done|].
      apply list_elem_of_In, filter_In. split; [by apply list_elem_of_In|done]. }
  rewrite <- Hg. destruct rq as [rq|]; cbn [from_option id].
  - rewrite !list_elem_of_In, filter_In. done.
  - split; [by intros ?%not_elem_of_nil|]. by intros [?%not_elem_of_nil _].
Qed.

(** ** The fields of the form *)

(** A field of the form library, as [toFormJSON] describes it. *)
Inductive field := Field {
  f_title : jstr;
  f_type : jstr;
  f_help : jstr;
  f_validators : list jstr;
  f_relation : option jstr;
  f_nullable : bool;
  f_format : option jstr;
  f_options : option value;
  f_default : value;
  f_itemType : option jstr;
  f_order : option (list jstr);
  f_subSchema : option (list (jstr * field))
}.

(** [Select] with the choices of a schema, [CodeEditor] or [Text]: the type of
    the editor of a string, its format and its options; [fmt] is the format of
    the property. *)
Definition string_editor (e : schema) (fmt : option jstr) : jstr * option jstr * option value :=
  match s_enum e with
  | None =>
      match fmt with
      | Some s => if streq s (u "yaml") || streq s (u "javascript") || streq s (u "text")
                  then (u "CodeEditor", Some s, None) else (u "Text", None, None)
      | None => (u "Text", None, None)
      end
  | Some en => (u "Select", None, Some (match s_options e with Some o => VObj o | None => VArr en end))
  end.

(** [e.propertiesOrder.filter(f => Object.keys(e.properties).includes(f))],
    when there is an order. *)
Definition field_order (e : schema) : res (option (list jstr)) :=
  match s_propertiesOrder e with
  | None => Ok None
  | Some order =>
      match s_properties e with
      | Some ps => Ok (Some (List.filter (fun f => bool_decide (f ∈ map fst ps)) order))
      | None => Err TypeError
      end
  end.

(** The title and the validators of a field. *)
Definition field_title (required : bool) (c : jstr) (e : schema) : jstr :=
  (match s_title e with Some (x :: t) => x :: t | _ => c end)
  ++ (if required then u "<span class=" ++ [34] ++ u "form-asterisk" ++ [34] ++ u ">*</span>" else []).

Definition field_validators (required : bool) (e : schema) : list jstr :=
  (match s_format e with Some f => if streq f (u "text") then [] else [f] | None => [] end)
  ++ (if required then [u "required"] else []).

Definition is_required (a : schema) (c : jstr) : bool :=
  match s_required a with Some rq => bool_decide (c ∈ rq) | None => false end.

(** The part of a field that depends on the type, [self] being the recursive
    call of [toFormJSON]; [mk] fills in the rest. *)
Definition typed_field (self : schema -> res (list (jstr * field))) (e : schema)
    (mk : jstr -> option jstr -> option value -> value -> option jstr -> option (list jstr) ->
          option (list (jstr * field)) -> field) : res field :=
  if type_is (u "string") e then
    let '(ty, fmt, opt) := string_editor e (s_format e) in Ok (mk ty fmt opt VUndef None None None)
  else if type_is (u "integer") e || type_is (u "number") e then Ok (mk (u "Number") None None VUndef None None None)
  else if type_is (u "array") e then
    let '(Schema _ _ _ _ _ _ _ _ _ _ _ _ _ _ _ _ its) := e in
    match its with
    | None => Err TypeError
    | Some it =>
        d <-? defaultValue it;
        if type_is (u "object") it then
          order <-? field_order it; sub <-? self it;
          Ok (mk (u "List") None None d (Some (u "Object")) order (Some sub))
        else if type_is (u "boolean") it then Ok (mk (u "List") None None d (Some (u "Checkbox")) None None)
        else if type_is (u "number") it || type_is (u "integer") it
        then Ok (mk (u "List") None None d (Some (u "Number")) None None)
        else if type_is (u "string") it then
          let '(ty, fmt, opt) := string_editor it (s_format e) in
          Ok (mk (u "List") fmt opt d (Some ty) None None)
        else Ok (mk (u "List") None None d None None None)
    end
  else if type_is (u "object") e then
    match s_properties e with
    | Some _ => sub <-? self e; order <-? field_order e; Ok (mk (u "Object") None None VUndef None order (Some sub))
    | None => Ok (mk (u "CodeEditor") (s_format e) None VUndef None None None)
    end
  else if type_is (u "boolean") e then Ok (mk (u "Checkbox") None None VUndef None None None)
  else Ok (mk (u "Text") None None VUndef None None None).

Definition ordered (a : schema) (c : jstr) : bool :=
  match s_propertiesOrder a with None => true | Some order => bool_decide (c ∈ order) end.

(** The loop of [toFormJSON] over the properties of the schema [a]. *)
Fixpoint form_fields (self : schema -> res (list (jstr * field))) (a : schema) (ps : list (jstr * schema)) :
    res (list (jstr * field)) :=
  match ps with
  | [] => Ok []
  | (c, e) :: ps =>
      if ordered a c then
        let required := is_required a c in
        f <-? typed_field self e (fun ty fmt opt d it order sub =>
                Field (field_title required c e) ty (default [] (s_description e)) (field_validators required e)
                  (match s_relation e with Some (x :: r) => Some (x :: r) | _ => None end)
                  (s_nullable e) fmt opt d it order sub);
        fs <-? form_fields self a ps; Ok ((c, f) :: fs)
      else form_fields self a ps
  end.

(** [SchemaModel.toFormJSON]. *)
Fixpoint toFormJSON (a : schema) : res (list (jstr * field)) :=
  let '(Schema _ _ _ _ _ _ _ _ _ _ _ _ _ _ _ props _) := a in
  match props with Some ps => form_fields toFormJSON a ps | None => Ok [] end.

Lemma typed_field_mk self e mk f :
  typed_field self e mk = Ok f -> exists ty fmt opt d it order sub, f = mk ty fmt opt d it order sub.
Proof.
  unfold typed_field. intros Hf.
  repeat match goal with
  | H : res_bind _ _ = Ok _ |- _ => apply res_bind_ok in H as (? & _ & H)
  | H : Ok _ = Ok _ |- _ => injection H as <-; repeat eexists
  | H : Err _ = Ok _ |- _ => discriminate H
  | _ => case_hyp Hf
  end.
Qed.

Lemma is_required_spec a c : is_required a c = true <-> exists rq, s_required a = Some rq /\ c ∈ rq.
Proof.
  unfold is_required. destruct (s_required a) as [rq|]; [rewrite bool_decide_eq_true|]; naive_solver.
Qed.

(** The form has a field for each property that the schema orders, and
    the validators of a field ask for a value exactly when the property is
    required (or names [required] as its format). *)
Theorem toFormJSON_fields a ps fs :
  s_properties a = Some ps -> toFormJSON a = Ok fs ->
  map fst fs = List.filter (ordered a) (map fst ps)
  /\ (forall c f, (c, f) ∈ fs -> exists e, (c, e) ∈ ps
        /\ (u "required" ∈ f_validators f <->
              (exists rq, s_required a = Some rq /\ c ∈ rq) \/ s_format e = Some (u "required"))).
Proof.
  setoid_rewrite <- is_required_spec.
  intros Hp Hf. assert (form_fields toFormJSON a ps = Ok fs) as Hf'
    by (open_schema a; cbn [s_properties toFormJSON] in *; by subst).
  clear Hp Hf. revert fs Hf'. induction ps as [|[c e] ps IH]; intros fs Hf.
  { injection Hf as <-. split; [done|]. by intros ? ? ?%not_elem_of_nil. }
  cbn [form_fields map fst List.filter] in *. destruct (ordered a c).
  - apply res_bind_ok in Hf as (f & Hf & (fs' & Hfs & [= <-])%res_bind_ok).
    destruct (IH fs' Hfs) as [IH1 IH2]. split; [cbn; by rewrite IH1|].
    intros c' f' [[= -> ->]|Hin]%elem_of_cons.
    2: { destruct (IH2 _ _ Hin) as (e' & He & Hv). exists e'. split; [by right|done]. }
    exists e. split; [by left|].
    apply typed_field_mk in Hf as (? & ? & ? & ? & ? & ? & ? & ->). cbn [f_validators].
    unfold field_validators. rewrite elem_of_app.
    destruct (is_required a c), (s_format e) as [fm|]; try (destruct (streq fm (u "text")) eqn:Et;
      [apply streq_eq in Et as ->|]); rewrite ?list_elem_of_singleton; set_solver.
  - destruct (IH fs Hf) as [IH1 IH2]. split; [done|].
    intros c' f' Hin. destruct (IH2 _ _ Hin) as (e' & He & Hv). exists e'. split; [by right|done].
Qed.

(** ** A dictionary in the form *)

(** An object schema with one property [k], a dictionary of strings. *)
Definition with_dict (k : jstr) : schema :=
  set_properties [(k, set_items (plain_schema (TyStr (u "string")) None) (plain_schema (TyStr (u "object")) None))]
    (plain_schema (TyStr (u "object")) None).

(** The value of the form for a dictionary of strings. *)
Definition dict_rows (kvs : list (jstr * jstr)) : list value := map (fun kv => entry kv.1 (VStr kv.2)) kvs.

Definition dict_data (kvs : list (jstr * jstr)) : object := map (fun kv => (kv.1, VStr kv.2)) kvs.

Lemma dict_rows_entries kvs : dict_rows kvs = map (fun kv => entry kv.1 kv.2) (dict_data kvs).
Proof. unfold dict_rows, dict_data. by rewrite map_map. Qed.

(** The schema that the dictionary becomes, [required] being the keyword of the
    rows. *)
Definition entry_schema (required : option (list jstr)) : schema :=
  dict_items required (set_title (u "value") (plain_schema (TyStr (u "string")) None)).

Definition with_rows (k : jstr) (required : option (list jstr)) : schema :=
  set_properties [(k, set_items (entry_schema required) (plain_schema (TyStr (u "array")) None))]
    (plain_schema (TyStr (u "object")) None).

Lemma rows_as_is `{YamlCodec} rq kvs :
  Forall (fun kv => kv.1 <> [] /\ kv.2 <> []) kvs ->
  res_map (toServerData (entry_schema rq)) (dict_rows kvs) = Ok (dict_rows kvs).
Proof.
  induction 1 as [|[[|c k] [|x v]] kvs [Hk Hv] _ IH]; try done.
  cbn [dict_rows map res_map fst snd]. fold (dict_rows kvs). by rewrite IH.
Qed.

Lemma with_dict_local related k :
  toLocalSchema related (with_dict k) = Fulfilled (with_rows k None, with_rows k None).
Proof. reflexivity. Qed.

(** A property with no keyword that hides it. *)
Lemma property_kept_plain b c g h :
  s_format h = None -> s_view h = None -> s_permission h = None -> c <> Some g -> property_kept b c g h = true.
Proof.
  unfold property_kept, format_is. intros -> -> -> Hc. rewrite orb_true_r, (bool_decide_eq_false_2 _ Hc). done.
Qed.

Ltac eval_type_index :=
  repeat match goal with
  | |- context [type_indexOf ?t ?h] =>
      let v := eval vm_compute in (type_indexOf t h) in change (type_indexOf t h) with v; cbn
  end.

Lemma with_rows_filter action parent k :
  parent ∉ [Some k; Some (u "id"); Some (u "value")] ->
  exists f, filterSchema action parent (with_rows k None) = Ok (f, with_rows k (Some [])).
Proof.
  intros Hp. assert (parent <> Some k /\ parent <> Some (u "id") /\ parent <> Some (u "value")) as (H1 & H2 & H3)
    by (repeat split; intros ->; apply Hp; set_solver).
  eexists. unfold with_rows at 1. cbn [filterSchema set_properties plain_schema].
  replace (filter_stops _) with false by done. cbn [filter_props].
  rewrite property_kept_plain by done. cbn.
  eval_type_index. rewrite !property_kept_plain by done. cbn. eval_type_index. reflexivity.
Qed.

(** Opening the form turns a dictionary of the model's own schema into the
    array of the form: after [filterByAction], [toServer] sends the rows of the
    form, where before it sent the dictionary. *)
Theorem filterByAction_breaks_dict `{YamlCodec} related action parent k kvs :
  parent ∉ [Some k; Some (u "id"); Some (u "value")] -> NoDup (map fst kvs) -> Forall (fun kv => kv.1 <> [] /\ kv.2 <> []) kvs ->
  let form := VObj [(k, VArr (dict_rows kvs))] in
  (exists e, toServerData (with_dict k) form = Ok (VObj [(k, VObj e)]) /\ VObj e ≈ VObj (dict_data kvs))
  /\ exists f after, filterByAction related action parent (with_dict k) = Fulfilled (f, after)
     /\ toServerData after form = Ok form.
Proof.
  intros Hp Hnd Hkv form. split.
  - destruct (server_entries_spec (toServerData (plain_schema (TyStr (u "string")) None))
      (fun k v => v ≈ obj_get k (dict_data kvs)) (dict_data kvs)) with (e := @nil (jstr * value))
      as (e & He & Hin & Hout).
    { apply Forall_elem. intros [k' v] Hkv'. pose proof Hkv' as Hl.
      apply (obj_lookup_NoDup k') in Hl; [|unfold obj_keys, dict_data; by rewrite map_map].
      unfold obj_get. cbn [fst snd]. rewrite Hl. unfold dict_data in Hkv'.
      apply list_elem_of_fmap in Hkv' as ([k1 v1] & [= -> ->] & Hkv'). rewrite Forall_elem in Hkv.
      destruct (Hkv _ Hkv') as [_ Hne]. cbn [snd] in *. exists (VStr v1). by destruct v1. }
    exists e. split.
    + rewrite <- dict_rows_entries in He. subst form. unfold with_dict. cbn. streq_simpl. cbn.
      match goal with |- context [server_entries ?g _ _] =>
        change g with (toServerData (plain_schema (TyStr (u "string")) None)) end. by rewrite He.
    + constructor. intros k'. destruct (decide (k' ∈ map fst (dict_data kvs))) as [Hk|Hk]; [by apply Hin|].
      rewrite Hout by done. rewrite (obj_get_not_key k' (dict_data kvs)) by done. done.
  - destruct (with_rows_filter action parent k Hp) as [f Hf].
    exists f, (with_rows k (Some [])). split.
    + unfold filterByAction. rewrite with_dict_local. cbn [promise_bind]. rewrite Hf. reflexivity.
    + subst form. unfold with_rows. cbn [toServerData]. cbn. streq_simpl. cbn.
      match goal with |- context [res_map ?g _] => change g with (toServerData (entry_schema (Some []))) end.
      rewrite rows_as_is by done. by destruct (dict_rows kvs).
Qed.

(** ** Witnesses *)

Lemma filterByAction_breaks_dict_witness :
  exists f after, filterByAction (fun _ => Pending) (u "update") None (with_dict (u "labels")) = Fulfilled (f, after)
    /\ toServerData after (VObj [(u "labels", VArr (dict_rows [(u "a", u "b")]))])
       = Ok (VObj [(u "labels", VArr (dict_rows [(u "a", u "b")]))]).
Proof.
  apply (filterByAction_breaks_dict (fun _ => Pending) (u "update") None (u "labels") [(u "a", u "b")]).
  - by apply (bool_decide_unpack _).
  - by apply (bool_decide_unpack _).
  - repeat constructor; done.
Defined.

(** A schema with a hidden identifier, a name that only [create] sees, and the
    name of the parent. *)
Definition server_schema : schema :=
  let string := plain_schema (TyStr (u "string")) None in
  set_required [u "name"; u "network_id"]
    (set_properties
       [(u "id", Schema (TyStr (u "string")) None None (Some (u "uuid")) false None None VUndef None None None
                   None None None None None None);
        (u "name", Schema (TyStr (u "string")) None None None false None None VUndef None None None
                   (Some [u "create"]) None None None None None);
        (u "network_id", string);
        (u "ports", set_items string (plain_schema (TyStr (u "array")) None))]
       (plain_schema (TyStr (u "object")) None)).

Definition filtered (action : jstr) (parent : option jstr) : schema :=
  match filterSchema action parent server_schema with Ok (f, _) => f | Err _ => server_schema end.

(** The schema below an array. *)
Definition servers_schema : schema :=
  set_properties [(u "servers", set_items server_schema (plain_schema (TyStr (u "array")) None))] (plain_schema (TyStr (u "object")) None).


Lemma filterSchema_keys_witness :
  option_map (map fst) (s_properties (filtered (u "update") None)) = Some [u "network_id"; u "ports"]
  /\ s_required (filtered (u "update") None) = Some [u "network_id"].
Proof.
  split; [|reflexivity].
  rewrite (proj1 (filterSchema_keys (u "update") None server_schema _ (filtered (u "update") None) server_schema
                    eq_refl eq_refl eq_refl)).
  reflexivity.
Defined.

Lemma toLocalSchema_form_ready_witness : form_ready (with_rows (u "labels") None).
Proof.
  by apply (toLocalSchema_form_ready (fun _ => Pending) (with_dict (u "labels")) _ (with_rows (u "labels") None)).
Defined.

Lemma toFormJSON_fields_witness :
  exists fs, toFormJSON (filtered (u "create") None) = Ok fs /\ map fst fs = [u "name"; u "network_id"; u "ports"].
Proof.
  eexists. split; [reflexivity|].
  etransitivity; [exact (proj1 (toFormJSON_fields (filtered (u "create") None) _ _ eq_refl eq_refl))|reflexivity].
Defined.
