(* ===== verification/PagedCollection.v ===== *)
(** The collections of resources that [SchemaModel.makeCollection] builds:
    options taken from the URL, the URL of a page, paging, sorting, filtering,
    and long polling as a state machine driven by the events of the browser. *)

From Stdlib Require Import ZArith Lia List String Bool.
From stdpp Require Import base list sets list_numbers tactics.
From S2P Require Import Prelude JsNum Js Int32.

(** ** Numbers of the paging

    Limits, totals and offsets are integers (exact below [2^53]), [NaN] or
    [undefined]; arithmetic on the last two gives [NaN], and their comparisons
    are false. *)

Inductive jnum := JInt (z : Z) | JNaN | JUndef.

#[export] Instance jnum_eq_dec : EqDecision jnum.
Proof. solve_decision. Defined.

Definition jop (f : Z -> Z -> Z) (a b : jnum) : jnum :=
  match a, b with JInt x, JInt y => JInt (f x y) | _, _ => JNaN end.

Definition jcmp (f : Z -> Z -> bool) (a b : jnum) : bool :=
  match a, b with JInt x, JInt y => f x y | _, _ => false end.

(** [n !== 0]. *)
Definition jnonzero (a : jnum) : bool := match a with JInt 0 => false | _ => true end.

(** ['' + n]. *)
Definition zstr (z : Z) : jstr := if z <? 0 then 45 :: to_radix 10 (- z) else to_radix 10 z.

Definition jnum_str (a : jnum) : jstr :=
  match a with JInt z => zstr z | JNaN => u "NaN" | JUndef => u "undefined" end.

(** [~~n]. *)
Definition jtrunc (a : jnum) : Z := match a with JInt z => to_int32 z | _ => 0 end.

(** [Math.ceil(a / b)] for [b !== 0]. *)
Definition jceil_div (a b : jnum) : jnum := jop (fun x y => - ((- x) / y)) a b.

(** ** The collection *)

(** What the collection reads of its schema: the keys of the properties, and
    the plural name under which the server answers. *)
Record resource := { r_properties : list jstr; r_plural : jstr }.

Record collection := {
  pageLimit : jnum;
  total : jnum;
  offset : jnum;
  sortKey : option jstr;
  sortOrder : option jstr;
  baseUrl : jstr;
  url : jstr;
  filters : list (jstr * jstr);
  longPolling : bool;
  timeOutId : Z;
  intervalSeconds : Z;
  models : list value
}.

Definition set_pageLimit x c := Build_collection x (total c) (offset c) (sortKey c) (sortOrder c) (baseUrl c) (url c) (filters c) (longPolling c) (timeOutId c) (intervalSeconds c) (models c).
Definition set_offset x c := Build_collection (pageLimit c) (total c) x (sortKey c) (sortOrder c) (baseUrl c) (url c) (filters c) (longPolling c) (timeOutId c) (intervalSeconds c) (models c).
Definition set_sort k o c := Build_collection (pageLimit c) (total c) (offset c) k o (baseUrl c) (url c) (filters c) (longPolling c) (timeOutId c) (intervalSeconds c) (models c).
Definition set_url x c := Build_collection (pageLimit c) (total c) (offset c) (sortKey c) (sortOrder c) (baseUrl c) x (filters c) (longPolling c) (timeOutId c) (intervalSeconds c) (models c).
Definition set_filters x c := Build_collection (pageLimit c) (total c) (offset c) (sortKey c) (sortOrder c) (baseUrl c) (url c) x (longPolling c) (timeOutId c) (intervalSeconds c) (models c).
Definition set_polling b t n c := Build_collection (pageLimit c) (total c) (offset c) (sortKey c) (sortOrder c) (baseUrl c) (url c) (filters c) b t n (models c).
Definition set_data t m c := Build_collection (pageLimit c) t (offset c) (sortKey c) (sortOrder c) (baseUrl c) (url c) (filters c) (longPolling c) (timeOutId c) (intervalSeconds c) m.

(** The options of [makeCollection]. *)
Record options := {
  o_pageLimit : jnum;
  o_sortKey : jstr;                       (* empty when absent: [l.sortKey || 'id'] *)
  o_sortOrder : jstr;
  o_filters : option (list (jstr * jstr))
}.

Definition or_else (d s : jstr) : jstr := match s with [] => d | _ => s end.

(** The constructor of the collection class. *)
Definition new_collection (a : jstr) (l : options) : collection :=
  {| pageLimit := JInt (jtrunc (o_pageLimit l)); total := JInt 0; offset := JInt 0;
     sortKey := Some (or_else (u "id") (o_sortKey l));
     sortOrder := Some (or_else (u "asc") (o_sortOrder l));
     baseUrl := a; url := a; filters := default [] (o_filters l);
     longPolling := false; timeOutId := -1; intervalSeconds := 10; models := [] |}.

(** [updateUrl]: the sort key and order are corrected, then the URL is built. *)
Definition fix_sort (i : resource) (c : collection) : collection :=
  let k := match sortKey c with
           | Some k => if bool_decide (k ∈ r_properties i) then Some k else Some (u "id")
           | None => None
           end in
  let o := match sortOrder c with
           | Some o => if streq o (u "asc") || streq o (u "desc") then Some o else Some (u "asc")
           | None => None
           end in
  set_sort k o c.

Definition undef_str (s : option jstr) : jstr := default (u "undefined") s.

(** ['&' + o + '=' + filters[o]] for each filter. *)
Definition filter_query (fs : list (jstr * jstr)) : jstr :=
  concat (map (fun kv => u "&" ++ kv.1 ++ u "=" ++ kv.2) fs).

Definition page_query (limit off : jnum) : jstr :=
  if jnonzero limit then u "&limit=" ++ jnum_str limit ++ u "&offset=" ++ jnum_str off else [].

Definition page_url (base : jstr) (k o : option jstr) (limit off : jnum) (fs : list (jstr * jstr)) : jstr :=
  base ++ (if bool_decide (63 ∈ base) then u "&" else u "?")
  ++ u "sort_key=" ++ undef_str k ++ u "&sort_order=" ++ undef_str o
  ++ page_query limit off ++ filter_query fs.

Definition updateUrl (i : resource) (c : collection) : collection :=
  let c := fix_sort i c in
  set_url (page_url (baseUrl c) (sortKey c) (sortOrder c) (pageLimit c) (offset c) (filters c)) c.

(** [getPageCount]. *)
Definition getPageCount (c : collection) : jnum :=
  if jnonzero (pageLimit c) then jceil_div (total c) (pageLimit c) else pageLimit c.

(** ** Requests, timers and the calls of the views *)

(** A request in flight: its URL, and whether [executeLongPolling] made it. *)
Record request := { q_url : jstr; q_poll : bool }.

(** The collection with what the browser holds for it: the requests in flight,
    the continuations of fulfilled polls that are to run, and the timers. *)
Record state := {
  coll : collection;
  inflight : list request;
  fulfilled : nat;
  timers : list Z;
  next_id : Z
}.

Definition with_coll c s := Build_state c (inflight s) (fulfilled s) (timers s) (next_id s).

Definition init (a : jstr) (l : options) : state := Build_state (new_collection a l) [] 0 [] 1.

Inductive call :=
| CFetch
| CGetPage (l : jnum)
| CGetNextPage
| CGetPrevPage
| CSort (l m : option jstr)
| CFilterByQuery (l m : option jstr)
| CResetFilters
| CSetPageLimit (l : jnum)
| CStartLongPolling (l : option Z)
| CStopLongPolling.

Section Operations.
Context (i : resource).

(** [fetch]: the promise of the request is the result of the call. *)
Definition fetch (poll : bool) (s : state) : state :=
  let c := updateUrl i (coll s) in
  Build_state c (inflight s ++ [{| q_url := url c; q_poll := poll |}]) (fulfilled s) (timers s) (next_id s).

Definition getPage (l : jnum) (s : state) : res state :=
  let l := match l with JUndef => JInt 0 | _ => l end in
  let o := jop Z.mul (pageLimit (coll s)) l in
  if jnonzero (total (coll s)) && (jcmp Z.gtb o (total (coll s)) || jcmp Z.gtb (JInt 0) o)
  then Err (Rejected (u "Wrong page number!"))
  else Ok (fetch false (with_coll (set_offset o (coll s)) s)).

Definition getNextPage (s : state) : res state :=
  let n := jop Z.add (offset (coll s)) (pageLimit (coll s)) in
  if jcmp Z.geb n (total (coll s)) then Err (Rejected (u "This was last page!"))
  else Ok (fetch false (with_coll (set_offset n (coll s)) s)).

Definition getPrevPage (s : state) : res state :=
  let n := jop Z.sub (offset (coll s)) (pageLimit (coll s)) in
  if jcmp Z.gtb (JInt 0) n then Err (Rejected (u "This was first page!"))
  else Ok (fetch false (with_coll (set_offset n (coll s)) s)).

Definition sort (l m : option jstr) (s : state) : state :=
  fetch false (with_coll (set_sort (Some (default (u "id") l)) (Some (default (u "asc") m)) (coll s)) s).

Definition filterByQuery (l m : option jstr) (s : state) : state :=
  let fs := match l, m with
            | None, _ => []
            | Some l, None => obj_delete l (filters (coll s))
            | Some l, Some m => obj_set l m (filters (coll s))
            end in
  fetch false (with_coll (set_offset (JInt 0) (set_filters fs (coll s))) s).

Definition resetFilters (s : state) : state := with_coll (set_filters [] (coll s)) s.

Definition executeLongPolling (s : state) : state := fetch true s.

Definition startLongPolling (l : option Z) (s : state) : state :=
  let c := coll s in
  let n := match l with Some 0 | None => intervalSeconds c | Some l => l end in
  executeLongPolling (with_coll (set_polling true (timeOutId c) n c) s).

Definition stopLongPolling (s : state) : state :=
  let c := coll s in
  Build_state (set_polling false (-1) (intervalSeconds c) c) (inflight s) (fulfilled s)
    (List.filter (fun t => negb (t =? timeOutId c)) (timers s)) (next_id s).

(** A call of a view, and the state it leaves when it is rejected. *)
Definition run_call (k : call) (s : state) : res state :=
  match k with
  | CFetch => Ok (fetch false s)
  | CGetPage l => getPage l s
  | CGetNextPage => getNextPage s
  | CGetPrevPage => getPrevPage s
  | CSort l m => Ok (sort l m s)
  | CFilterByQuery l m => Ok (filterByQuery l m s)
  | CResetFilters => Ok (resetFilters s)
  | CSetPageLimit l => Ok (with_coll (set_pageLimit l (coll s)) s)
  | CStartLongPolling l => Ok (startLongPolling l s)
  | CStopLongPolling => Ok (stopLongPolling s)
  end.

(** ** Events *)

(** The answer of the server to a list request: the number in the header
    [X-Total-Count], and the array under the plural name. *)
Record response := { p_count : jnum; p_models : list value }.

(** [parse]. *)
Definition parse (p : response) (c : collection) : collection := set_data (p_count p) (p_models p) c.

Inductive event :=
| ECall (k : call)
| EResponse (n : nat) (p : response)      (* the [n]-th request in flight is answered *)
| EFailure (n : nat)                      (* it fails: the promise is rejected *)
| EContinue                               (* the continuation of a fulfilled poll runs *)
| ETimer (t : Z).                         (* a timer fires *)

Definition remove_nth {A} (n : nat) (l : list A) : list A := take n l ++ drop (S n) l.

Definition exec (e : event) (s : state) : option state :=
  match e with
  | ECall k => Some (match run_call k s with Ok s' => s' | Err _ => s end)
  | EResponse n p =>
      q ← inflight s !! n;
      Some (Build_state (parse p (coll s)) (remove_nth n (inflight s))
              (if q_poll q then S (fulfilled s) else fulfilled s) (timers s) (next_id s))
  | EFailure n =>
      q ← inflight s !! n;
      Some (Build_state (coll s) (remove_nth n (inflight s)) (fulfilled s) (timers s) (next_id s))
  | EContinue =>
      match fulfilled s with
      | O => None
      | S m =>
          let c := coll s in
          Some (if longPolling c
                then Build_state (set_polling true (next_id s) (intervalSeconds c) c)
                       (inflight s) m (timers s ++ [next_id s]) (next_id s + 1)
                else Build_state c (inflight s) m (timers s) (next_id s))
      end
  | ETimer t =>
      if bool_decide (t ∈ timers s)
      then Some (executeLongPolling (Build_state (coll s) (inflight s) (fulfilled s)
                  (List.filter (fun x => negb (x =? t)) (timers s)) (next_id s)))
      else None
  end.

Fixpoint run (es : list event) (s : state) : option state :=
  match es with
  | [] => Some s
  | e :: es => s ← exec e s; run es s
  end.

(** The states that the events allowed by [P] can lead to. *)
Inductive reachable (P : state -> event -> Prop) (s0 : state) : state -> Prop :=
| reach_init : reachable P s0 s0
| reach_step s e s' : reachable P s0 s -> P s e -> exec e s = Some s' -> reachable P s0 s'.

End Operations.

(** ** makeCollection

    The collections of a schema are kept by their URL, and the query of a URL
    becomes the filters. *)

(** ['?k=v&k2=v2'] for the filters of the options. *)
Fixpoint cache_query (fs : list (jstr * jstr)) (l : jstr) : jstr :=
  match fs with
  | [] => l
  | (m, v) :: fs => cache_query fs (l ++ (match l with [] => u "?" | _ => u "&" end) ++ m ++ u "=" ++ v)
  end.

Definition is_line_end (c : Z) : bool := (c =? 10) || (c =? 13) || (c =? 8232) || (c =? 8233).

(** The first match of a question mark and the rest of the text, [slice(1)]:
    what is after the first question mark that no line end follows. *)
Fixpoint after_question (a : jstr) : res jstr :=
  match a with
  | [] => Err TypeError
  | c :: a => if (c =? 63) && forallb (fun c => negb (is_line_end c)) a then Ok a else after_question a
  end.

(** What is before the first question mark, on the first line. *)
Fixpoint before_question (a : jstr) : res jstr :=
  match a with
  | [] => Err TypeError
  | c :: a => if c =? 63 then Ok [] else if is_line_end c then Err TypeError
              else r <-? before_question a; Ok (c :: r)
  end.

(** [for (let n of m) { const o = n.split('='); o[0] && o[1] && (filters[o[0]] = o[1]) }]. *)
Definition add_param (fs : list (jstr * jstr)) (n : jstr) : list (jstr * jstr) :=
  match split_on 61 n with
  | (c :: k) :: (d :: v) :: _ => obj_set (c :: k) (d :: v) fs
  | _ => fs
  end.

(** The key of the cache, the base URL, and the options with the filters of the URL. *)
Definition collection_source (a : jstr) (b : options) : res (jstr * jstr * options) :=
  let c := match o_filters b with Some fs => a ++ cache_query fs [] | None => a end in
  if bool_decide (63 ∈ a) then
    l <-? after_question a;
    a' <-? before_question a;
    let fs := fold_left add_param (split_on 38 l) (default [] (o_filters b)) in
    Ok (c, a', Build_options (o_pageLimit b) (o_sortKey b) (o_sortOrder b) (Some fs))
  else Ok (c, a, b).

(** The collection of the URL, and the cache with it. *)
Definition makeCollection (a : jstr) (b : options) (cache : list (jstr * collection))
    : res (collection * list (jstr * collection)) :=
  '(c, a, b) <-? collection_source a b;
  let k := match obj_lookup c cache with
           | Some k =>
               set_sort (Some (or_else (u "id") (o_sortKey b))) (Some (or_else (u "asc") (o_sortOrder b)))
                 (set_pageLimit (o_pageLimit b) (set_filters (default [] (o_filters b)) k))
           | None => new_collection a b
           end in
  Ok (k, obj_set c k cache).

(** * Properties *)

(** ** The state of the paging *)

(** The URL asks for resources of [base], sorted by a property of the schema
    or [id], in one of the two orders, with a limit and an offset of [R]. *)
Definition page_request (R : jnum -> jnum -> Prop) (i : resource) (base x : jstr) : Prop :=
  exists k d limit off fs, (k ∈ r_properties i \/ k = u "id") /\ d ∈ [u "asc"; u "desc"] /\ R limit off /\
    x = page_url base (Some k) (Some d) limit off fs.

(** The limit and the offset are in [R], and so are those of the requests in flight. *)
Record paging_ok (R : jnum -> jnum -> Prop) (i : resource) (base : jstr) (s : state) : Prop := {
  ok_numbers : R (pageLimit (coll s)) (offset (coll s));
  ok_base : baseUrl (coll s) = base;
  ok_sort : is_Some (sortKey (coll s)) /\ is_Some (sortOrder (coll s));
  ok_inflight : Forall (fun q => page_request R i base (q_url q)) (inflight s)
}.

(** Whatever is called. *)
Definition any_event (_ : state) (_ : event) : Prop := True.

(** A page that is asked for is an integer (or left out), and it is negative
    only when the last answer did not count zero resources; a limit that is
    set is positive. *)
Definition whole_pages (s : state) (e : event) : Prop :=
  match e with
  | ECall (CGetPage (JInt n)) => 0 <= n \/ total (coll s) <> JInt 0
  | ECall (CGetPage JNaN) => False
  | ECall (CSetPageLimit l) => exists p, l = JInt p /\ 0 < p
  | _ => True
  end.

(** And the limit is left as it is. *)
Definition kept_limit (s : state) (e : event) : Prop :=
  whole_pages s e /\ match e with ECall (CSetPageLimit _) => False | _ => True end.

Definition anything (limit off : jnum) : Prop := True.
Definition in_range (limit off : jnum) : Prop := exists p o, limit = JInt p /\ off = JInt o /\ 0 < p /\ 0 <= o.
Definition multiple_of (p : Z) (limit off : jnum) : Prop := exists n, limit = JInt p /\ off = JInt (p * n) /\ 0 <= n.

(** A fetch asks for the page of the offset. *)
Lemma updateUrl_page R i c :
  R (pageLimit c) (offset c) -> is_Some (sortKey c) -> is_Some (sortOrder c) ->
  page_request R i (baseUrl c) (url (updateUrl i c)).
Proof.
  intros HR [k Hk] [d Hd]. unfold updateUrl, fix_sort. rewrite Hk, Hd. cbn -[page_url].
  destruct (bool_decide (k ∈ r_properties i)) eqn:Ek, (streq d (u "asc") || streq d (u "desc")) eqn:Ed;
    breflect; do 5 eexists; (split; [|split; [|split; [exact HR | reflexivity]]]); try done;
    try (by left); try (by right); try (left; reflexivity).
  all: apply orb_true_iff in Ed as [->%streq_eq | ->%streq_eq]; by repeat constructor.
Qed.

Lemma fetch_ok R i base b s : paging_ok R i base s -> paging_ok R i base (fetch i b s).
Proof.
  intros [HR Hb [Hk Hd] Hi].
  assert (Hu : page_request R i base (url (updateUrl i (coll s)))) by (rewrite <- Hb; by eapply updateUrl_page).
  split; try done.
  - destruct Hk as [k Hk], Hd as [d Hd]. cbn. rewrite Hk, Hd. split; case_goal; by eexists.
  - cbn. apply Forall_app. split; [done|]. by repeat constructor.
Qed.

Lemma elem_remove_nth {A} n (l : list A) x : x ∈ remove_nth n l -> x ∈ l.
Proof.
  unfold remove_nth. rewrite elem_of_app.
  intros [H | H]; [by eapply subseteq_take | by eapply subseteq_drop].
Qed.

(** The limit and the offset that a call leaves, given those it finds. *)
Definition moves (R : jnum -> jnum -> Prop) (k : call) (s : state) : Prop :=
  let n := pageLimit (coll s) in
  match k with
  | CGetPage l =>
      let o := jop Z.mul n (match l with JUndef => JInt 0 | _ => l end) in
      jnonzero (total (coll s)) && (jcmp Z.gtb o (total (coll s)) || jcmp Z.gtb (JInt 0) o) = false -> R n o
  | CGetNextPage => R n (jop Z.add (offset (coll s)) n)
  | CGetPrevPage => let o := jop Z.sub (offset (coll s)) n in jcmp Z.gtb (JInt 0) o = false -> R n o
  | CFilterByQuery _ _ => R n (JInt 0)
  | CSetPageLimit l => R l (offset (coll s))
  | _ => True
  end.

Lemma run_call_paging R i base k s s' :
  moves R k s -> paging_ok R i base s -> run_call i k s = Ok s' -> paging_ok R i base s'.
Proof.
  intros Hm [HR Hb Hs Hi]. destruct k as [|l| | |? ?|l' m'| |l''|l|]; cbn in *.
  - intros [= <-]. by apply fetch_ok.
  - unfold getPage. cbn zeta. destruct (jnonzero _ && _) eqn:E; [done|]. intros [= <-]. apply fetch_ok. split; try done. by apply Hm.
  - unfold getNextPage. case_goal; [done|]. intros [= <-]. by apply fetch_ok.
  - unfold getPrevPage. case_goal; [done|]. intros [= <-]. apply fetch_ok. split; try done. by apply Hm.
  - intros [= <-]. by apply fetch_ok.
  - intros [= <-]. by apply fetch_ok.
  - by intros [= <-].
  - by intros [= <-].
  - intros [= <-]. by apply fetch_ok.
  - by intros [= <-].
Qed.

Lemma exec_paging R i base s e s' :
  match e with ECall k => moves R k s | _ => True end ->
  paging_ok R i base s -> exec i e s = Some s' -> paging_ok R i base s'.
Proof.
  intros He Hs. pose proof Hs as [HR Hb Hkd Hi].
  assert (Hrm : forall m, Forall (fun q => page_request R i base (q_url q)) (remove_nth m (inflight s))).
  { intros m. apply Forall_elem. intros q Hq%elem_remove_nth. by eapply Forall_elem in Hi. }
  destruct e as [k | m r | m | | t]; cbn.
  - intros [= <-]. destruct (run_call i k s) as [s1|] eqn:E; [|done]. by eapply run_call_paging.
  - destruct (inflight s !! m); cbn; [|done]. intros [= <-]. split; try done. by apply Hrm.
  - destruct (inflight s !! m); cbn; [|done]. intros [= <-]. split; try done. by apply Hrm.
  - destruct (fulfilled s); [done|]. intros [= <-]. by destruct (longPolling _); split.
  - case_goal; [|done]. intros [= <-]. by apply fetch_ok.
Qed.

Lemma reachable_paging R (P : state -> event -> Prop) i base s0 s :
  (forall s k, R (pageLimit (coll s)) (offset (coll s)) -> P s (ECall k) -> moves R k s) ->
  paging_ok R i base s0 -> reachable i P s0 s -> paging_ok R i base s.
Proof.
  intros HP H0 Hr. induction Hr as [|s e s' _ IH He Hx]; [done|].
  eapply exec_paging; [|exact IH | exact Hx]. destruct e; try done. apply HP; [apply IH | done].
Qed.

(** A negative page is rejected when the last answer counted resources. *)
Lemma nonzero_total t : t <> JInt 0 -> jnonzero t = true.
Proof. by destruct t as [[]| |]. Qed.

Lemma whole_pages_moves s k : in_range (pageLimit (coll s)) (offset (coll s)) -> whole_pages s (ECall k) -> moves in_range k s.
Proof.
  intros (p & o & Hp & Ho & ? & ?) He. destruct k as [|[n| |]| | |? ?|l' m'| |l''|l|]; cbn in *; rewrite ?Hp, ?Ho; try done; cbn.
  - intros Hg. exists p, (p * n). split; [done|]. split; [done|]. split; [done|].
    destruct He as [He | He]; [nia|]. rewrite nonzero_total in Hg by done. cbn in Hg. apply orb_false_iff in Hg as [_ Hg]. lia.
  - intros _. exists p, 0. repeat split; [f_equal|..]; lia.
  - exists p, (o + p). repeat split; lia.
  - intros Hg. exists p, (o - p). repeat split; lia.
  - exists p, 0. repeat split; lia.
  - destruct He as (q & -> & ?). by exists q, o.
Qed.

Lemma kept_limit_moves q s k : 0 < q -> multiple_of q (pageLimit (coll s)) (offset (coll s)) -> kept_limit s (ECall k) -> moves (multiple_of q) k s.
Proof.
  intros Hq (n & Hp & Ho & ?) [He He']. destruct k as [|[m| |]| | |? ?|l' m'| |l''|l|]; cbn in *; rewrite ?Hp, ?Ho; try done; cbn.
  - intros Hg. exists m. split; [done|]. split; [done|].
    destruct He as [He | He]; [done|]. rewrite nonzero_total in Hg by done. cbn in Hg. apply orb_false_iff in Hg as [_ Hg]. nia.
  - intros _. exists 0. repeat split; lia.
  - exists (n + 1). repeat split; [f_equal|]; lia.
  - intros Hg. exists (n - 1). repeat split; [f_equal; lia|nia].
  - exists 0. repeat split; [f_equal|]; lia.
Qed.

Lemma init_paging (R : jnum -> jnum -> Prop) i a l : R (JInt (jtrunc (o_pageLimit l))) (JInt 0) -> paging_ok R i a (init a l).
Proof. done. Qed.

(** C15. Whatever the views call and whatever the server answers, in any order
    and interleaved with long polling, every request in flight asks the
    collection's resource, sorted by a property of the schema (or [id]),
    ascending or descending.  When the limit at the start is positive, the pages
    asked of [getPage] are integers, negative ones only after an answer whose
    count was not zero, and limits that are set are positive: limits stay positive
    and offsets non-negative, in the collection and in the requests; and when
    no limit is set, every offset is a multiple of the limit. *)
Theorem paging_invariant i a l s :
  (reachable i any_event (init a l) s -> paging_ok anything i a s) /\
  (0 < jtrunc (o_pageLimit l) -> reachable i whole_pages (init a l) s -> paging_ok in_range i a s) /\
  (0 < jtrunc (o_pageLimit l) -> reachable i kept_limit (init a l) s -> paging_ok (multiple_of (jtrunc (o_pageLimit l))) i a s).
Proof.
  split; [|split].
  - apply reachable_paging; [by intros ? [] | by apply init_paging].
  - intros Hp. apply reachable_paging; [apply whole_pages_moves | apply init_paging; exists (jtrunc (o_pageLimit l)), 0; repeat split; lia].
  - intros Hp. apply reachable_paging; [intros s1 k; by apply kept_limit_moves | apply init_paging; exists 0; repeat split; [f_equal|]; lia].
Qed.

(** States are reached by running events that are allowed one after the other. *)
Fixpoint allowed (i : resource) (P : state -> event -> Prop) (es : list event) (s : state) : Prop :=
  match es with
  | [] => True
  | e :: es => P s e /\ match exec i e s with Some s' => allowed i P es s' | None => True end
  end.

Lemma run_reachable i P s0 es s s' :
  reachable i P s0 s -> allowed i P es s -> run i es s = Some s' -> reachable i P s0 s'.
Proof.
  revert s. induction es as [|e es IH]; intros s Hr; cbn; [by intros _ [= <-]|].
  intros [He Ha]. destruct (exec i e s) as [s1|] eqn:E; cbn; [|done].
  apply IH; [|done]. by eapply reach_step.
Qed.

Definition demo : resource := {| r_properties := [u "id"; u "name"]; r_plural := u "nets" |}.
Definition demo_options := Build_options (JInt 2) [] [] None.
Definition demo_init := init (u "/nets") demo_options.

Definition after (es : list event) : state := default demo_init (run demo es demo_init).

Definition browsing : list event :=
  [ECall (CGetPage (JInt 0)); EResponse 0 {| p_count := JInt 5; p_models := [] |}; ECall CGetNextPage; ECall (CGetPage (JInt (-1)))].

Definition after_browsing : state := Eval vm_compute in after browsing.

Lemma paging_invariant_witness :
  exists s, paging_ok anything demo (u "/nets") s /\ paging_ok in_range demo (u "/nets") s /\ paging_ok (multiple_of 2) demo (u "/nets") s /\
    map q_url (inflight s) = [u "/nets?sort_key=id&sort_order=asc&limit=2&offset=2"].
Proof.
  exists after_browsing.
  assert (Hr : run demo browsing demo_init = Some after_browsing) by (vm_compute; reflexivity).
  split; [|split; [|split; [|reflexivity]]];
    (eapply (paging_invariant demo (u "/nets") demo_options); [try reflexivity; (eapply (run_reachable demo); [apply reach_init | | exact Hr]) ..]);
    cbn; unfold any_event, kept_limit, whole_pages; cbn; repeat split; by (left + right).
Defined.

(** ** Long polling

    A chain of polling is a poll in flight, or its continuation that is to
    run, or the timer the continuation sets. *)

Definition chains (s : state) : nat :=
  (length (List.filter q_poll (inflight s)) + fulfilled s + length (timers s))%nat.

(** What an event does to the chains: a start makes one, beside another one or
    not; a poll that fails ends its chain, and so do the continuation when the
    collection does not poll any more, and [stopLongPolling] for the timer
    that was set last. *)
Definition is_start (e : event) : bool := match e with ECall (CStartLongPolling _) => true | _ => false end.

Definition started (_ : state) (e : event) : nat := if is_start e then 1 else 0.
Definition doubled (s : state) (e : event) : nat := if is_start e && negb (Nat.eqb (chains s) 0) then 1 else 0.

Definition failed (s : state) (e : event) : nat :=
  match e with EFailure n => match inflight s !! n with Some q => if q_poll q then 1 else 0 | None => 0 end | _ => 0 end.

Definition ended (s : state) (e : event) : nat :=
  match e with
  | EFailure _ => failed s e
  | EContinue => if longPolling (coll s) then 0 else 1
  | ECall CStopLongPolling => if bool_decide (timeOutId (coll s) ∈ timers s) then 1 else 0
  | _ => 0
  end.

(** The sum over the events of a run. *)
Fixpoint total_of (f : state -> event -> nat) (i : resource) (es : list event) (s : state) : nat :=
  match es with
  | [] => 0
  | e :: es => f s e + match exec i e s with Some s' => total_of f i es s' | None => 0 end
  end.

Record polling_ok (s : state) : Prop := {
  ok_on : longPolling (coll s) = true -> chains s = 1%nat;
  ok_off : longPolling (coll s) = false -> (chains s <= 1)%nat /\ timers s = [];
  ok_timer : Forall (fun t => t = timeOutId (coll s)) (timers s)
}.

(** The effect of an operation on the number of chains. *)
Lemma chains_fetch i b s : chains (fetch i b s) = (chains s + if b then 1 else 0)%nat.
Proof. unfold chains, fetch. cbn. rewrite List.filter_app, length_app. cbn. destruct b; cbn; lia. Qed.

Lemma length_remove_nth (f : request -> bool) n l q :
  l !! n = Some q ->
  length (List.filter f l) = (length (List.filter f (remove_nth n l)) + if f q then 1 else 0)%nat.
Proof.
  intros H. unfold remove_nth. rewrite <- (take_drop_middle l n q H) at 1.
  rewrite !List.filter_app, !length_app. cbn. destruct (f q); cbn; lia.
Qed.

Lemma filter_timer (t : Z) l : Forall (fun x => x = t) l -> List.filter (fun x => negb (x =? t)) l = [].
Proof. induction 1 as [|x l -> _ IH]; cbn; [done|]. by rewrite Z.eqb_refl. Qed.

Lemma fetch_coll i b s :
  longPolling (coll (fetch i b s)) = longPolling (coll s) /\ timeOutId (coll (fetch i b s)) = timeOutId (coll s).
Proof. done. Qed.

Lemma polling_ok_fetch i s : polling_ok s -> polling_ok (fetch i false s).
Proof.
  intros [Hon Hoff Ht]. pose proof (chains_fetch i false s) as Hc. split; cbn in *.
  - intros H%Hon. lia.
  - intros [H Hn]%Hoff. split; [lia | done].
  - done.
Qed.

Lemma polling_ok_with_coll c s :
  longPolling c = longPolling (coll s) -> timeOutId c = timeOutId (coll s) ->
  polling_ok s -> polling_ok (with_coll c s).
Proof.
  intros H1 H2 [Hon Hoff Ht]. split; unfold chains in *; cbn.
  - by rewrite H1.
  - by rewrite H1.
  - by rewrite H2.
Qed.

Lemma run_call_polling i k s :
  doubled s (ECall k) = O ->
  polling_ok s -> match run_call i k s with Ok s' => polling_ok s' | Err _ => True end.
Proof.
  intros Hk Hs. destruct k as [|l| | |? ?|l' m'| |l''|l|]; cbn.
  - by apply polling_ok_fetch.
  - unfold getPage. cbn zeta. destruct (jnonzero _ && _); [done|]. by apply polling_ok_fetch, polling_ok_with_coll.
  - unfold getNextPage. case_goal; [done|]. by apply polling_ok_fetch, polling_ok_with_coll.
  - unfold getPrevPage. case_goal; [done|]. by apply polling_ok_fetch, polling_ok_with_coll.
  - by apply polling_ok_fetch, polling_ok_with_coll.
  - by apply polling_ok_fetch, polling_ok_with_coll.
  - by apply polling_ok_with_coll.
  - by apply polling_ok_with_coll.
  - destruct Hs as [Hon Hoff Ht].
    assert (Hc : chains (startLongPolling i l s) = 1%nat).
    { unfold doubled in Hk. cbn [is_start andb] in Hk. destruct (Nat.eqb_spec (chains s) 0); [|done]. unfold startLongPolling, executeLongPolling. rewrite chains_fetch. unfold chains in *. cbn. lia. }
    by split.
  - destruct Hs as [Hon Hoff Ht].
    assert (Hf : List.filter (fun t => negb (t =? timeOutId (coll s))) (timers s) = []) by by apply filter_timer.
    unfold stopLongPolling. split; unfold chains; cbn; rewrite Hf; try done. intros _.
    split; [|done]. unfold chains in *. cbn.
    destruct (longPolling (coll s)); [specialize (Hon eq_refl) | specialize (Hoff eq_refl)]; lia.
Qed.

Lemma exec_polling i s e s' : polling_ok s -> doubled s e = O -> failed s e = O -> exec i e s = Some s' -> polling_ok s'.
Proof.
  intros Hs Hd He. pose proof Hs as [Hon Hoff Ht]. destruct e as [k | n p | n | | t]; cbn.
  - intros [= <-]. pose proof (run_call_polling i k s) as H. destruct (run_call i k s); [|done]. by apply H.
  - destruct (inflight s !! n) as [q|] eqn:Eq; cbn; [|done]. intros [= <-].
    pose proof (length_remove_nth q_poll _ _ _ Eq) as Hl.
    unfold chains in *. split; cbn; [intros H%Hon | intros [H Hn]%Hoff | done].
    + destruct (q_poll q); lia.
    + split; [|done]. destruct (q_poll q); lia.
  - destruct (inflight s !! n) as [q|] eqn:Eq; cbn; [|done]. intros [= <-].
    pose proof (length_remove_nth q_poll _ _ _ Eq) as Hl. cbn in He. rewrite Eq in He. destruct (q_poll q); [done|].
    unfold chains in *. split; cbn; [intros H%Hon; lia | intros [H Hn]%Hoff; split; [lia | done] | done].
  - destruct (fulfilled s) as [|m] eqn:Ef; [done|]. intros [= <-].
    unfold chains in *. rewrite Ef in *. destruct (longPolling (coll s)) eqn:El.
    + specialize (Hon eq_refl). assert (timers s = []) as E by (destruct (timers s); [done|]; cbn in *; lia).
      rewrite E in *. split; unfold chains; cbn; [lia | done | by repeat constructor].
    + destruct (Hoff eq_refl) as [Hc E]. rewrite E in *.
      split; unfold chains; cbn; rewrite ?El, ?E; [done | intros _; cbn in *; split; [lia | done] | constructor].
  - case_goal; [|done]. intros [= <-]. breflect.
    pose proof Ht as Ht'. rewrite Forall_elem in Ht'. pose proof (Ht' t E) as ->. clear Ht'.
    assert (Hf : List.filter (fun x => negb (x =? timeOutId (coll s))) (timers s) = []) by by apply filter_timer.
    assert (Hne : (0 < length (timers s))%nat) by (destruct (timers s); [by apply not_elem_of_nil in E | cbn; lia]).
    destruct (longPolling (coll s)) eqn:El.
    2: { destruct (Hoff eq_refl) as [_ H]. rewrite H in Hne. cbn in Hne. lia. }
    specialize (Hon eq_refl). unfold executeLongPolling.
    split; [|cbn; by rewrite El | cbn; rewrite Hf; constructor].
    intros _. rewrite chains_fetch. unfold chains in *. cbn. rewrite Hf. cbn. lia.
Qed.

(** The timers have different identifiers, and the next one is new. *)
Record timers_ok (s : state) : Prop := {
  ok_distinct : NoDup (timers s);
  ok_fresh : Forall (fun t => t < next_id s) (timers s)
}.

Lemma timers_without (t : Z) l : NoDup l ->
  length l = (length (List.filter (fun x => negb (x =? t)%Z) l) + if bool_decide (t ∈ l) then 1 else 0)%nat.
Proof.
  induction 1 as [|x l Hx _ IH]; [done|]. cbn [List.filter length]. destruct (Z.eqb_spec x t) as [-> | Hne]; cbn [negb length].
  - rewrite bool_decide_eq_true_2 by by left. rewrite bool_decide_eq_false_2 in IH by done. lia.
  - rewrite (bool_decide_ext (t ∈ x :: l) (t ∈ l)); [lia|]. rewrite elem_of_cons. split; [by intros [->|] | by right].
Qed.

Lemma timers_filter f s s' : timers s' = List.filter f (timers s) -> next_id s' = next_id s -> timers_ok s -> timers_ok s'.
Proof.
  intros Ht Hi [Hn Hf]. split; rewrite Ht, ?Hi; [by apply NoDup_ListNoDup, List.NoDup_filter, NoDup_ListNoDup|].
  apply Forall_elem. intros t Hx. apply list_elem_of_In, filter_In in Hx as [Hx _]. eapply Forall_elem in Hf; [done | by apply list_elem_of_In].
Qed.

Lemma exec_timers i s e s' : timers_ok s -> exec i e s = Some s' -> timers_ok s'.
Proof.
  intros Hs. pose proof Hs as [Hn Hf]. destruct e as [k | n p | n | | t]; cbn.
  - intros [= <-]. destruct k as [|l| | |? ?|l' m'| |l''|l|]; cbn; try done.
    + unfold getPage. cbn zeta. by destruct (jnonzero _ && _).
    + unfold getNextPage. by case_goal.
    + unfold getPrevPage. by case_goal.
    + by eapply timers_filter.
  - by destruct (inflight s !! n); cbn; intros [= <-].
  - by destruct (inflight s !! n); cbn; intros [= <-].
  - destruct (fulfilled s); [done|]. intros [= <-]. destruct (longPolling _); [|done]. split; cbn.
    + apply list.NoDup_app. split; [done|]. split; [|repeat constructor; apply not_elem_of_nil].
      intros t Ht ->%list_elem_of_singleton. eapply Forall_elem in Hf; [|done]. cbn in Hf. lia.
    + apply Forall_app. split; [|repeat constructor; lia]. eapply list.Forall_impl; [exact Hf|]. cbn. lia.
  - case_goal; [|done]. intros [= <-]. by eapply timers_filter.
Qed.

(** Every event changes the chains by what it starts and ends. *)
Lemma exec_chains i s e s' : timers_ok s -> exec i e s = Some s' -> (chains s' + ended s e = chains s + started s e)%nat.
Proof.
  intros [Hn Hf]. destruct e as [k | n p | n | | t]; cbn [exec].
  - intros [= <-]. destruct k as [|l| | |? ?|l' m'| |l''|l|]; cbn [run_call ended started is_start]; try done.
    + by rewrite chains_fetch, !Nat.add_0_r.
    + unfold getPage. cbn zeta. destruct (jnonzero _ && _); [done|]. by rewrite chains_fetch, !Nat.add_0_r.
    + unfold getNextPage. case_goal; [done|]. by rewrite chains_fetch, !Nat.add_0_r.
    + unfold getPrevPage. case_goal; [done|]. by rewrite chains_fetch, !Nat.add_0_r.
    + unfold sort. by rewrite chains_fetch, !Nat.add_0_r.
    + unfold filterByQuery. by rewrite chains_fetch, !Nat.add_0_r.
    + unfold startLongPolling, executeLongPolling. by rewrite chains_fetch, Nat.add_0_r.
    + pose proof (timers_without (timeOutId (coll s)) _ Hn) as Hl. unfold chains, stopLongPolling. cbn in *. lia.
  - destruct (inflight s !! n) as [q|] eqn:Eq; cbn; [|done]. intros [= <-].
    pose proof (length_remove_nth q_poll _ _ _ Eq) as Hl. unfold chains. cbn. destruct (q_poll q); lia.
  - cbn [ended failed started is_start]. destruct (inflight s !! n) as [q|] eqn:Eq; cbn; [|done]. intros [= <-].
    pose proof (length_remove_nth q_poll _ _ _ Eq) as Hl. unfold chains. cbn. lia.
  - cbn [ended started is_start]. destruct (fulfilled s) as [|m] eqn:Ef; [done|]. intros [= <-]. unfold chains. rewrite Ef.
    destruct (longPolling (coll s)); cbn; rewrite ?length_app; cbn; lia.
  - cbn [ended started is_start]. case_goal; [|done]. intros [= <-]. unfold executeLongPolling. rewrite chains_fetch.
    pose proof (timers_without t _ Hn) as Hl. rewrite E in Hl. unfold chains. cbn. lia.
Qed.

Lemma run_chains i es : forall s s', timers_ok s -> run i es s = Some s' ->
  (chains s' + total_of ended i es s = chains s + total_of started i es s)%nat.
Proof.
  induction es as [|e es IH]; intros s s' Ht; cbn; [intros [= <-]; lia|].
  destruct (exec i e s) as [s1|] eqn:E; cbn; [|done]. intros Hr.
  pose proof (exec_chains _ _ _ _ Ht E). specialize (IH _ _ (exec_timers _ _ _ _ Ht E) Hr). lia.
Qed.

(** A chain is added to another one only by such a start. *)
Lemma run_doubled i es : forall s s' m, timers_ok s -> (chains s <= 1 + m)%nat -> run i es s = Some s' ->
  (chains s' <= 1 + m + total_of doubled i es s)%nat.
Proof.
  induction es as [|e es IH]; intros s s' m Ht Hm; cbn [run total_of]; [intros [= <-]; lia|].
  destruct (exec i e s) as [s1|] eqn:E; cbn; [|done]. intros Hr.
  pose proof (exec_chains _ _ _ _ Ht E) as Hc.
  assert (H1 : (chains s1 <= 1 + (m + doubled s e))%nat).
  { unfold started, doubled in *. destruct (is_start e); cbn in *; [|lia]. destruct (Nat.eqb_spec (chains s) 0); cbn; lia. }
  specialize (IH _ _ _ (exec_timers _ _ _ _ Ht E) H1 Hr). lia.
Qed.

(** A collection that polls has a chain, unless a poll failed. *)
Lemma exec_alive i s e s' : timers_ok s -> failed s e = O ->
  (longPolling (coll s) = true -> (1 <= chains s)%nat) -> exec i e s = Some s' ->
  longPolling (coll s') = true -> (1 <= chains s')%nat.
Proof.
  intros Ht Hf Ha Hx Hl. pose proof (exec_chains _ _ _ _ Ht Hx) as Hc.
  assert (Hs : longPolling (coll s) = true /\ ended s e = O \/ started s e = 1%nat /\ ended s e = O); [|by destruct Hs as [[?%Ha ?]|[? ?]]; lia].
  destruct e as [k | n p | n | | t]; cbn [exec] in Hx.
  - injection Hx as <-. destruct k as [|l| | |? ?|l' m'| |l''|l|]; cbn in Hl |- *; try (by left); try (by right); try done.
    + left. revert Hl. unfold getPage. cbn zeta. by destruct (jnonzero _ && _).
    + left. revert Hl. unfold getNextPage. by case_goal.
    + left. revert Hl. unfold getPrevPage. by case_goal.
  - left. revert Hx. destruct (inflight s !! n); cbn; [|done]. intros [= <-]. by cbn in Hl.
  - left. revert Hx. destruct (inflight s !! n); cbn; [|done]. intros [= <-]. by cbn in Hl.
  - left. destruct (fulfilled s); [done|]. injection Hx as <-. destruct (longPolling (coll s)) eqn:El; [by cbn; rewrite El | by cbn in Hl; rewrite El in Hl].
  - left. revert Hx. case_goal; [|done]. intros [= <-]. by cbn in Hl.
Qed.

Lemma run_alive i es : forall s s', timers_ok s -> total_of failed i es s = O ->
  (longPolling (coll s) = true -> (1 <= chains s)%nat) -> run i es s = Some s' ->
  longPolling (coll s') = true -> (1 <= chains s')%nat.
Proof.
  induction es as [|e es IH]; intros s s' Ht Hf Ha; cbn; [by intros [= <-]|]. cbn in Hf.
  destruct (exec i e s) as [s1|] eqn:E; cbn; [|done]. intros Hr.
  eapply IH; [by eapply exec_timers | lia | | exact Hr]. exact (exec_alive i s e s1 Ht ltac:(lia) Ha E).
Qed.

Lemma run_polling i es : forall s s', polling_ok s -> total_of doubled i es s = O -> total_of failed i es s = O ->
  run i es s = Some s' -> polling_ok s'.
Proof.
  induction es as [|e es IH]; intros s s' Hs Hd Hf; cbn; [by intros [= <-]|]. cbn in Hd, Hf.
  destruct (exec i e s) as [s1|] eqn:E; cbn; [|done]. intros Hr.
  eapply IH; [| | | exact Hr]; [|lia..]. exact (exec_polling i s e s1 Hs ltac:(lia) ltac:(lia) E).
Qed.

Lemma init_polling a l : timers_ok (init a l) /\ polling_ok (init a l).
Proof. split; split; cbn; try done; [apply NoDup_nil_2 | intros _; split; [unfold chains; cbn; lia | done]]. Qed.

(** C16. Whatever is called, answered and fails in any order: every
    [startLongPolling] makes one chain of requests and timers, and a chain
    ends only when one of its polls fails, when a poll returns to a collection
    that does not poll any more, or when [stopLongPolling] clears its timer.
    There are never more chains than one and one for each start that was made
    beside another chain; a collection that polls has a chain unless a poll
    failed; and when no poll failed and no start was made beside a chain, it
    has exactly one, and a collection that does not poll has no timer. *)
Theorem polling_invariant i a l es s :
  run i es (init a l) = Some s ->
  (chains s + total_of ended i es (init a l) = total_of started i es (init a l))%nat /\
  (chains s <= 1 + total_of doubled i es (init a l))%nat /\
  (total_of failed i es (init a l) = O -> longPolling (coll s) = true -> (1 <= chains s)%nat) /\
  (total_of failed i es (init a l) = O -> total_of doubled i es (init a l) = O -> polling_ok s).
Proof.
  destruct (init_polling a l) as [Ht Hp]. intros Hr. split; [|split; [|split]].
  - by apply run_chains in Hr.
  - apply (run_doubled i es _ s 0) in Hr; [lia | done | unfold chains; cbn; lia].
  - intros Hf. by eapply run_alive.
  - intros Hf Hd. by eapply run_polling.
Qed.

Definition demo_answer := {| p_count := JInt 5; p_models := [VStr (u "a"); VStr (u "b")] |}.

(** Two starts beside each other, one of whose polls fails, a stop and another start. *)
Definition restarted : list event :=
  [ECall (CStartLongPolling None); ECall (CStartLongPolling None); EResponse 0 demo_answer; EFailure 0; EContinue;
   ECall CStopLongPolling; ECall (CStartLongPolling None); EResponse 0 demo_answer; EContinue].

Definition polled : list event := [ECall (CStartLongPolling None); EResponse 0 demo_answer; EContinue].

Definition after_restarted : state := Eval vm_compute in after restarted.
Definition after_polled : state := Eval vm_compute in after polled.

Lemma polling_invariant_witness :
  (total_of started demo restarted demo_init = 3%nat /\ total_of ended demo restarted demo_init = 2%nat /\
   total_of doubled demo restarted demo_init = 1%nat /\ chains after_restarted = 1%nat /\
   (chains after_restarted + total_of ended demo restarted demo_init = total_of started demo restarted demo_init)%nat /\
   (chains after_restarted <= 1 + total_of doubled demo restarted demo_init)%nat) /\
  polling_ok after_polled /\ timers after_polled = [1] /\ longPolling (coll after_polled) = true.
Proof.
  assert (H1 : run demo restarted demo_init = Some after_restarted) by (vm_compute; reflexivity).
  assert (H2 : run demo polled demo_init = Some after_polled) by (vm_compute; reflexivity).
  apply (polling_invariant demo (u "/nets") demo_options) in H1 as (Hc & Hd & _).
  apply (polling_invariant demo (u "/nets") demo_options) in H2 as (_ & _ & _ & Hp).
  split; [|split; [apply Hp; vm_compute; reflexivity | split; reflexivity]].
  split; [vm_compute; reflexivity|]. split; [vm_compute; reflexivity|]. split; [vm_compute; reflexivity|].
  split; [vm_compute; reflexivity|]. split; [exact Hc | exact Hd].
Defined.

Definition no_start (e : event) : Prop := match e with ECall (CStartLongPolling _) => False | _ => True end.

Definition is_timer (e : event) : bool := match e with ETimer _ => true | _ => false end.

(** A collection that does not poll uses up its timers. *)
Lemma exec_stopped i s e s' :
  longPolling (coll s) = false -> no_start e -> exec i e s = Some s' ->
  longPolling (coll s') = false /\
  (length (timers s') + (if is_timer e then 1 else 0) <= length (timers s))%nat.
Proof.
  intros Hoff He. destruct e as [k | n p | n | | t]; cbn.
  - intros [= <-]. destruct k as [|l| | |? ?|l' m'| |l''|l|]; cbn; try done; try (split; [done | lia]).
    + unfold getPage. cbn zeta. destruct (jnonzero _ && _); split; try done; cbn; lia.
    + unfold getNextPage. case_goal; split; try done; cbn; lia.
    + unfold getPrevPage. case_goal; split; try done; cbn; lia.
    + split; [done|]. pose proof (filter_length_le (fun t => negb (t =? timeOutId (coll s))) (timers s)). lia.
  - destruct (inflight s !! n); cbn; [|done]. intros [= <-]. split; [done | cbn; lia].
  - destruct (inflight s !! n); cbn; [|done]. intros [= <-]. split; [done | cbn; lia].
  - destruct (fulfilled s); [done|]. rewrite Hoff. intros [= <-]. split; [done | cbn; lia].
  - case_goal; [|done]. intros [= <-]. breflect. split; [done|]. cbn.
    pose proof (filter_length (fun x => x =? t) (timers s)) as Hl.
    assert (In t (List.filter (fun x => x =? t) (timers s))) as Hin.
    { apply filter_In. split; [by apply list_elem_of_In | apply Z.eqb_refl]. }
    destruct (List.filter (fun x => x =? t) (timers s)); cbn in Hin, Hl; [done|]. lia.
Qed.

Lemma run_stopped i es : forall s s',
  longPolling (coll s) = false -> Forall no_start es -> run i es s = Some s' ->
  (length (timers s') + length (List.filter is_timer es) <= length (timers s))%nat.
Proof.
  induction es as [|e es IH]; intros s s' Hoff Hes; cbn; [intros [= <-]; lia|].
  apply Forall_cons_iff in Hes as [He Hes].
  destruct (exec i e s) as [s1|] eqn:E; cbn; [|done]. intros Hr.
  destruct (exec_stopped _ _ _ _ Hoff He E) as [Hoff1 Hl]. specialize (IH _ _ Hoff1 Hes Hr).
  destruct (is_timer e); cbn; lia.
Qed.

(** C25. [stopLongPolling] ends polling: until polling is started again, no
    more polls are sent than there were timers left, whatever else happens;
    and none at all when the collection has one chain of polls ([polling_ok]). *)
Theorem stop_polling_ends i s es s' :
  Forall no_start es -> run i es (stopLongPolling s) = Some s' ->
  (length (List.filter is_timer es) <= length (timers s))%nat /\
  (polling_ok s -> List.filter is_timer es = [] /\ timers s' = []).
Proof.
  intros Hes Hr. pose proof (run_stopped i es (stopLongPolling s) _ eq_refl Hes Hr) as Hl. cbn in Hl.
  pose proof (filter_length_le (fun t => negb (t =? timeOutId (coll s))) (timers s)). split; [lia|].
  intros [_ _ Ht]. rewrite filter_timer in Hl by done. cbn in Hl.
  split; apply length_zero_iff_nil; lia.
Qed.

(** Two starts: the second chain is not stopped, its timer sends a last poll. *)
Definition twice : list event :=
  [ECall (CStartLongPolling None); ECall (CStartLongPolling None); EResponse 0 demo_answer; EContinue;
   EResponse 0 demo_answer; EContinue].

Definition after_twice : state := Eval vm_compute in after twice.
Definition after_start : state := Eval vm_compute in after [ECall (CStartLongPolling None)].

Lemma stop_polling_ends_witness :
  (exists s', timers after_twice = [1; 2] /\
     run demo [ETimer 1] (stopLongPolling after_twice) = Some s' /\ chains s' = 1%nat /\
     (length (List.filter is_timer [ETimer 1]) <= length (timers after_twice))%nat) /\
  (exists s', run demo [EResponse 0 demo_answer; EContinue]
                (stopLongPolling after_start) = Some s' /\ timers s' = []).
Proof.
  split; eexists.
  - split; [reflexivity|]. split; [reflexivity|]. split; [reflexivity|].
    eapply (stop_polling_ends demo after_twice [ETimer 1]); [by repeat constructor | reflexivity].
  - split; [reflexivity|].
    eapply (stop_polling_ends demo after_start [EResponse 0 demo_answer; EContinue]);
      [by repeat constructor | reflexivity |].
    split; cbn; [done | done | constructor].
Defined.

(** Stopping and starting again while a poll is in flight leaves two
    chains of polling in place of one: the continuation of the first poll
    finds the collection polling and goes on. *)
Theorem restart_doubles_polling i s q :
  inflight s = [q] -> q_poll q = true -> fulfilled s = O -> timers s = [] ->
  forall p p', exists s',
    run i [ECall CStopLongPolling; ECall (CStartLongPolling None); EResponse 0 p; EContinue; EResponse 0 p'; EContinue] s
      = Some s'
    /\ chains s = 1%nat /\ chains s' = 2%nat /\ timers s' = [next_id s; next_id s + 1]
    /\ timers (stopLongPolling s') = [next_id s].
Proof.
  intros Hq Hp Hf Ht p p'. eexists. split; [|split; [|split; [|split]]].
  - cbn. unfold stopLongPolling. cbn. rewrite Hq. cbn. rewrite Hp. cbn. rewrite Hf. cbn. reflexivity.
  - unfold chains. rewrite Hq, Hf, Ht. cbn. by rewrite Hp.
  - unfold chains. cbn. by rewrite Ht.
  - cbn. by rewrite Ht.
  - cbn. rewrite Ht. cbn. rewrite Z.eqb_refl. by replace (next_id s =? next_id s + 1) with false by lia.
Qed.

Lemma restart_doubles_polling_witness :
  exists s', timers s' = [1; 2] /\
    run demo [ECall CStopLongPolling; ECall (CStartLongPolling None); EResponse 0 demo_answer; EContinue;
              EResponse 0 demo_answer; EContinue] after_start = Some s'.
Proof.
  destruct (restart_doubles_polling demo after_start {| q_url := u "/nets?sort_key=id&sort_order=asc&limit=2&offset=0"; q_poll := true |}
    eq_refl eq_refl eq_refl eq_refl demo_answer demo_answer) as (s' & Hr & _ & _ & Ht & _).
  exists s'. split; [exact Ht | exact Hr].
Defined.

(** ** Visiting all pages *)

Section Traversal.
Context (i : resource) (serve : jstr -> response).

(** The first request in flight is answered. *)
Definition reply (s : state) : state :=
  match inflight s with
  | [] => s
  | q :: _ => default s (exec i (EResponse 0 (serve (q_url q))) s)
  end.

(** [getNextPage] until it is rejected: the resources of each page. *)
Fixpoint next_pages (fuel : nat) (s : state) : res (list (list value)) :=
  match fuel with
  | O => Err OutOfFuel
  | S fuel =>
      match getNextPage i s with
      | Ok s' => l <-? next_pages fuel (reply s'); Ok (models (coll s) :: l)
      | Err (Rejected _) => Ok [models (coll s)]
      | Err e => Err e
      end
  end.

(** From the first page. *)
Definition all_pages (fuel : nat) (s : state) : res (list (list value)) :=
  s' <-? getPage i (JInt 0) s; next_pages fuel (reply s').

Context (R : list value) (p : Z) (base : jstr) (k d : option jstr) (fs : list (jstr * jstr)).

(** The server answers the requests for pages with the parts of [R]. *)
Definition serves_pages : Prop :=
  forall n, 0 <= n -> p * n <= zlen R ->
    serve (page_url base k d (JInt p) (JInt (p * n)) fs)
    = {| p_count := JInt (zlen R); p_models := zslice (p * n) (p * n + p) R |}.

(** A collection that waits for no answer, and whose requests are those served. *)
Record idle (s : state) : Prop := {
  idle_quiet : inflight s = [];
  idle_limit : pageLimit (coll s) = JInt p;
  idle_base : baseUrl (coll s) = base;
  idle_key : sortKey (fix_sort i (coll s)) = k;
  idle_order : sortOrder (fix_sort i (coll s)) = d;
  idle_filters : filters (coll s) = fs
}.

(** Page [n] is shown. *)
Record shows (n : Z) (s : state) : Prop := {
  shows_idle : idle s;
  shows_total : total (coll s) = JInt (zlen R);
  shows_offset : offset (coll s) = JInt (p * n);
  shows_models : models (coll s) = zslice (p * n) (p * n + p) R
}.

Lemma fix_sort_fixed c : fix_sort i (fix_sort i c) = fix_sort i c.
Proof.
  unfold fix_sort, set_sort. cbn. f_equal.
  - destruct (sortKey c) as [x|]; [|done]. destruct (bool_decide (x ∈ r_properties i)) eqn:E; [by rewrite E|].
    by destruct (bool_decide (u "id" ∈ r_properties i)).
  - destruct (sortOrder c) as [o|]; [|done].
    destruct (streq o (u "asc") || streq o (u "desc")) eqn:E; [by rewrite E | done].
Qed.

Lemma load_page n s :
  serves_pages -> idle s -> 0 <= n -> p * n <= zlen R ->
  shows n (reply (fetch i false (with_coll (set_offset (JInt (p * n)) (coll s)) s))).
Proof.
  intros Hs [Hq Hl Hb Hk Ho Hf] Hn HR. specialize (Hs n Hn HR).
  set (c := coll s) in *. set (c1 := fix_sort i (set_offset (JInt (p * n)) c)).
  assert (Hu : url (updateUrl i (set_offset (JInt (p * n)) c)) = page_url base k d (JInt p) (JInt (p * n)) fs)
    by (rewrite <- Hb, <- Hk, <- Ho, <- Hf, <- Hl; reflexivity).
  unfold reply, fetch. cbn [inflight with_coll]. rewrite Hq. cbn [app]. cbn [exec inflight lookup list_lookup mbind option_bind q_url default].
  cbn [coll with_coll]. fold c. rewrite Hu, Hs. pose proof (fix_sort_fixed (set_offset (JInt (p * n)) c)) as Hfix.
  split; [split | ..]; try done.
  - rewrite <- Hk. exact (f_equal sortKey Hfix).
  - rewrite <- Ho. exact (f_equal sortOrder Hfix).
Qed.

Lemma shows_next n s :
  serves_pages -> 0 <= n -> p * n <= zlen R -> shows n s ->
  if p * (n + 1) <? zlen R
  then exists s', getNextPage i s = Ok s' /\ shows (n + 1) (reply s')
  else getNextPage i s = Err (Rejected (u "This was last page!")).
Proof.
  intros Hs Hn HR [Hi Ht Ho Hm]. unfold getNextPage. rewrite Ho, Ht, (idle_limit _ Hi). cbn [jop jcmp].
  replace (p * n + p) with (p * (n + 1)) by lia. rewrite Z.geb_leb.
  destruct (p * (n + 1) <? zlen R) eqn:E; breflect.
  - replace (zlen R <=? p * (n + 1)) with false by lia. eexists. split; [done|]. apply load_page; [done..| |]; lia.
  - by replace (zlen R <=? p * (n + 1)) with true by lia.
Qed.

Lemma shows_prev n s :
  0 < p -> serves_pages -> 0 <= n -> p * n <= zlen R -> shows n s ->
  if n =? 0
  then getPrevPage i s = Err (Rejected (u "This was first page!"))
  else exists s', getPrevPage i s = Ok s' /\ shows (n - 1) (reply s').
Proof.
  intros Hp Hs Hn HR [Hi Ht Ho Hm]. unfold getPrevPage. rewrite Ho, (idle_limit _ Hi). cbn [jop jcmp].
  replace (p * n - p) with (p * (n - 1)) by lia. rewrite Z.gtb_ltb.
  destruct (n =? 0) eqn:E; breflect.
  - by replace (p * (n - 1) <? 0) with true by nia.
  - replace (p * (n - 1) <? 0) with false by nia. eexists. split; [done|]. apply load_page; [done..| |]; nia.
Qed.

(** The pages from the [n]-th on. *)
Definition pages_from (n : Z) (count : nat) : list (list value) :=
  map (fun m => zslice (p * m) (p * m + p) R) (seqZ n (Z.of_nat count)).

Lemma next_pages_shows count : forall n s,
  0 < p -> serves_pages -> 0 <= n -> p * n <= zlen R -> shows n s ->
  p * (n + Z.of_nat count) < zlen R <= p * (n + Z.of_nat (S count)) \/ (count = O /\ zlen R <= p * (n + 1)) ->
  forall fuel, (count < fuel)%nat -> next_pages fuel s = Ok (pages_from n (S count)).
Proof.
  induction count as [|count IH]; intros n s Hp Hs Hn HR Hsh Hc [|fuel] Hf; try lia; cbn [next_pages].
  - pose proof (shows_next n s Hs Hn HR Hsh) as Hnx.
    replace (p * (n + 1) <? zlen R) with false in Hnx by lia. rewrite Hnx.
    unfold pages_from. rewrite seqZ_cons by lia. cbn. by rewrite (shows_models _ _ Hsh).
  - pose proof (shows_next n s Hs Hn HR Hsh) as Hnx.
    replace (p * (n + 1) <? zlen R) with true in Hnx by nia. destruct Hnx as (s' & -> & Hsh').
    rewrite (IH (n + 1) (reply s')); [|try done; try lia; nia..].
    unfold pages_from. rewrite (seqZ_cons n) by lia. cbn [map res_bind].
    rewrite (shows_models _ _ Hsh). do 4 f_equal; lia.
Qed.

Lemma concat_pages count : forall n, 0 < p -> 0 <= n ->
  concat (pages_from n count) = zslice (p * n) (p * (n + Z.of_nat count)) R.
Proof.
  unfold pages_from. induction count as [|count IH]; intros n Hp Hn.
  - cbn. symmetry. apply zslice_empty. lia.
  - rewrite seqZ_cons by lia. cbn [map concat].
    replace (Z.pred (Z.of_nat (S count))) with (Z.of_nat count) by lia.
    replace (Z.succ n) with (n + 1) by lia. rewrite IH by lia.
    replace (p * (n + 1)) with (p * n + p) by lia. rewrite zslice_app by nia. f_equal. lia.
Qed.

Lemma last_page :
  0 < p -> exists count : nat, (count <= length R)%nat /\ zlen R <= p * Z.of_nat (S count) /\
    (p * Z.of_nat count < zlen R \/ (count = O /\ R = [])).
Proof.
  intros Hp. destruct R as [|x l] eqn:HR; [exists 0%nat; unfold zlen; cbn; repeat split; [lia | lia | by right]|].
  rewrite <- HR. assert (0 < zlen R) by (rewrite HR; unfold zlen; cbn; lia).
  pose proof (Z.div_mod (zlen R - 1) p ltac:(lia)). pose proof (Z.mod_pos_bound (zlen R - 1) p ltac:(lia)).
  assert (0 <= (zlen R - 1) / p) by (apply Z.div_pos; lia).
  exists (Z.to_nat ((zlen R - 1) / p)). unfold zlen in *. split; [nia | split; [nia | left; nia]].
Qed.

(** C12. From the first page, [getNextPage] visits every page the server has
    and then is rejected: the pages together are all the resources, in their
    order and without repetition, none is longer than the limit, there are
    as many as [getPageCount] says (one empty page when there is nothing),
    and a number of steps that grows with the resources is enough. *)
Theorem all_pages_visits s :
  0 < p -> serves_pages -> idle s -> (exists t, total (coll s) = JInt t /\ 0 <= t) ->
  exists pages s', getPage i (JInt 0) s = Ok s' /\
    (forall fuel, (length R < fuel)%nat -> all_pages fuel s = Ok pages) /\
    concat pages = R /\ Forall (fun l => zlen l <= p) pages /\
    getPageCount (coll (reply s')) = JInt (if bool_decide (R = []) then 0 else zlen pages).
Proof.
  intros Hp Hs Hi (t & Ht & Ht0).
  assert (Hg : getPage i (JInt 0) s = Ok (fetch i false (with_coll (set_offset (JInt (p * 0)) (coll s)) s))).
  { unfold getPage. rewrite (idle_limit _ Hi), Ht. cbn [jop jcmp]. rewrite Z.mul_0_r.
    replace (0 >? t) with false by lia. by rewrite andb_false_r. }
  assert (Hsh := load_page 0 s Hs Hi ltac:(lia) ltac:(pose proof (zlen_nonneg R); lia)).
  assert (Hcnt : exists count : nat, (count <= length R)%nat /\ zlen R <= p * Z.of_nat (S count) /\
            (p * Z.of_nat count < zlen R \/ (count = O /\ R = []))).
  { by apply last_page. }
  destruct Hcnt as (count & Hc1 & Hc2 & Hc3).
  exists (pages_from 0 (S count)). eexists. split; [exact Hg|]. split; [|split; [|split]].
  - intros fuel Hf. unfold all_pages. rewrite Hg. cbn [res_bind].
    pose proof (zlen_nonneg R). apply next_pages_shows; try done; try lia.
  - rewrite concat_pages by lia. rewrite Z.add_0_l, Z.mul_0_r. unfold zslice.
    rewrite drop_0. apply take_ge. unfold zlen in *. lia.
  - unfold pages_from. apply Forall_map, Forall_elem. intros m _. unfold zslice, zlen. rewrite length_take. lia.
  - unfold getPageCount. rewrite (idle_limit _ (shows_idle _ _ Hsh)), (shows_total _ _ Hsh).
    unfold jnonzero, jceil_div. destruct p as [|p'|p'] eqn:Ep; try lia. rewrite <- Ep in *. cbn [jop].
    f_equal. unfold pages_from. rewrite zlen_map. unfold zlen at 2. rewrite length_seqZ.
    destruct Hc3 as [H | [Hc HR]]; [|by rewrite HR].
    rewrite bool_decide_eq_false_2 by (intros HR; rewrite HR in H; unfold zlen in H; cbn in H; lia).
    enough ((- zlen R) / p = - Z.of_nat (S count)) by lia.
    symmetry. apply (Z.div_unique_pos _ _ _ (p * Z.of_nat (S count) - zlen R)); lia.
Qed.
End Traversal.

(** A server with five resources. *)
Definition demo_resources : list value := map (fun z => VNum (num_of_Z z)) [1; 2; 3; 4; 5].

Definition demo_page (n : Z) : jstr :=
  page_url (u "/nets") (Some (u "id")) (Some (u "asc")) (JInt 2) (JInt (2 * n)) [].

Definition demo_serve (x : jstr) : response :=
  {| p_count := JInt 5;
     p_models := concat (map (fun n => if bool_decide (x = demo_page n) then zslice (2 * n) (2 * n + 2) demo_resources else [])
                           [0; 1; 2]) |}.

Lemma demo_serves :
  serves_pages demo_serve demo_resources 2 (u "/nets") (Some (u "id")) (Some (u "asc")) [].
Proof.
  intros n H0 H1. assert (zlen demo_resources = 5) as E by reflexivity. rewrite E in *.
  assert (n = 0 \/ n = 1 \/ n = 2) as [-> | [-> | ->]] by lia; vm_compute; reflexivity.
Qed.

Lemma demo_idle : idle demo 2 (u "/nets") (Some (u "id")) (Some (u "asc")) [] demo_init.
Proof. by split. Qed.

Lemma all_pages_visits_witness :
  exists pages, all_pages demo demo_serve 6 demo_init = Ok pages /\ concat pages = demo_resources /\
    map length pages = [2; 2; 1]%nat.
Proof.
  destruct (all_pages_visits demo demo_serve demo_resources 2 _ _ _ _ demo_init ltac:(reflexivity)
              demo_serves demo_idle ltac:(exists 0; split; [reflexivity | discriminate]))
    as (pages & s' & _ & Hall & Hc & _ & _).
  exists pages. specialize (Hall 6%nat ltac:(cbn; lia)). split; [exact Hall|]. split; [exact Hc|].
  assert (E : match all_pages demo demo_serve 6 demo_init with Ok l => map length l | Err _ => [] end = [2; 2; 1]%nat)
    by (vm_compute; reflexivity).
  rewrite Hall in E. exact E.
Defined.

(** On page [n] of the resources: [getNextPage] shows page [n + 1], or is
    rejected exactly when no resource is after this page; [getPrevPage] shows
    page [n - 1], or is rejected exactly on the first page. *)
Theorem paging_moves i serve R p base k d fs n s :
  0 < p -> serves_pages serve R p base k d fs -> 0 <= n -> p * n <= zlen R ->
  shows i R p base k d fs n s ->
  (if p * (n + 1) <? zlen R
   then exists s', getNextPage i s = Ok s' /\ shows i R p base k d fs (n + 1) (reply i serve s')
   else getNextPage i s = Err (Rejected (u "This was last page!"))) /\
  (if n =? 0
   then getPrevPage i s = Err (Rejected (u "This was first page!"))
   else exists s', getPrevPage i s = Ok s' /\ shows i R p base k d fs (n - 1) (reply i serve s')).
Proof. intros. split; [by apply shows_next | by apply shows_prev]. Qed.

Definition demo_page_0 : state := Eval vm_compute in reply demo demo_serve (default demo_init (exec demo (ECall CFetch) demo_init)).

Lemma paging_moves_witness :
  (exists s', getNextPage demo demo_page_0 = Ok s' /\
     shows demo demo_resources 2 (u "/nets") (Some (u "id")) (Some (u "asc")) [] 1 (reply demo demo_serve s')) /\
  getPrevPage demo demo_page_0 = Err (Rejected (u "This was first page!")).
Proof.
  apply (paging_moves demo demo_serve demo_resources 2 _ _ _ _ 0 demo_page_0); try done.
  exact demo_serves.
Defined.

(** ** Filters in the URL *)

(** A filter that a URL can carry: no separator in it, and nothing empty. *)
Definition plain_text (s : jstr) : Prop :=
  s <> [] /\ Forall (fun c => c <> 38 /\ c <> 61 /\ is_line_end c = false) s.

Definition plain_filters (fs : list (jstr * jstr)) : Prop :=
  NoDup (map fst fs) /\ Forall (fun kv => plain_text kv.1 /\ plain_text kv.2 /\ index_key kv.1 = None) fs.

Definition param (kv : jstr * jstr) : jstr := kv.1 ++ [61] ++ kv.2.

Lemma cache_query_join fs : forall l, l <> [] -> fs <> [] ->
  cache_query fs l = l ++ [38] ++ join [38] (map param fs).
Proof.
  induction fs as [|[m v] fs IH]; intros l Hl Hfs; [done|]. cbn [cache_query map].
  assert (E : match l with [] => u "?" | _ :: _ => u "&" end = [38]) by by destruct l.
  rewrite E. change (u "=") with [61]. destruct fs as [|kv fs]; [done|].
  rewrite IH; [|by destruct l|done]. cbn [map join]. unfold param. cbn [fst snd].
  by rewrite <- !app_assoc.
Qed.

Lemma cache_query_params fs : fs <> [] -> cache_query fs [] = 63 :: join [38] (map param fs).
Proof.
  destruct fs as [|[m v] fs]; [done|]. intros _. cbn [cache_query].
  change (u "?") with [63]. change (u "=") with [61]. destruct fs as [|kv fs]; [done|].
  rewrite cache_query_join by done. cbn [map join]. unfold param. cbn [fst snd app].
  by rewrite <- !app_assoc.
Qed.

Lemma plain_not_in s c : plain_text s -> c = 38 \/ c = 61 -> c ∉ s.
Proof.
  intros [_ Hs] Hc Hin. rewrite Forall_elem in Hs. destruct (Hs c Hin) as (H1 & H2 & _). lia.
Qed.

Lemma add_params fs : forall o,
  NoDup (map fst o ++ map fst fs) ->
  Forall (fun kv => plain_text kv.1 /\ plain_text kv.2 /\ index_key kv.1 = None) fs ->
  fold_left add_param (map param fs) o = o ++ fs.
Proof.
  induction fs as [|[k v] fs IH]; intros o Hnd Hfs; cbn [map fold_left]; [by rewrite app_nil_r|].
  apply Forall_cons_iff in Hfs as [(Hk & Hv & Hi) Hfs]. cbn [map fst snd] in *.
  assert (E : add_param o (param (k, v)) = o ++ [(k, v)]).
  { unfold add_param, param. cbn [fst snd app]. rewrite split_on_word by (apply plain_not_in; auto).
    rewrite split_on_single by (apply plain_not_in; auto).
    destruct Hk as [Hk _], Hv as [Hv _]. destruct k as [|c k], v as [|d' v]; try done.
    apply obj_set_new; [done|]. apply list.NoDup_app in Hnd as (_ & Hd & _). intros Hin.
    apply (Hd _ Hin). by left. }
  rewrite E, IH; [by rewrite <- app_assoc | | done].
  rewrite map_app, <- app_assoc. exact Hnd.
Qed.

Lemma before_question_app a q :
  63 ∉ a -> forallb (fun c => negb (is_line_end c)) a = true -> before_question (a ++ 63 :: q) = Ok a.
Proof.
  induction a as [|c a IH]; cbn; intros Ha Hl; [done|]. breflect.
  destruct (c =? 63) eqn:E; breflect; [set_solver|]. rewrite H. rewrite IH; [done | set_solver | done].
Qed.

Lemma after_question_app a q :
  63 ∉ a -> forallb (fun c => negb (is_line_end c)) q = true -> after_question (a ++ 63 :: q) = Ok q.
Proof.
  intros Ha Hq. induction a as [|c a IH]; cbn; [by rewrite Hq|].
  destruct (c =? 63) eqn:E; breflect; [set_solver|]. apply IH. set_solver.
Qed.

Lemma params_one_line fs :
  Forall (fun kv => plain_text kv.1 /\ plain_text kv.2 /\ index_key kv.1 = None) fs ->
  forallb (fun c => negb (is_line_end c)) (join [38] (map param fs)) = true.
Proof.
  assert (Hp : forall s, plain_text s -> forallb (fun c => negb (is_line_end c)) s = true).
  { intros s [_ Hs]. apply forallb_forall. intros c Hc%list_elem_of_In. rewrite Forall_elem in Hs.
    destruct (Hs c Hc) as (_ & _ & ->). done. }
  induction 1 as [|[k v] fs (Hk & Hv & _) _ IH]; [done|]. cbn [map join].
  destruct (map param fs); unfold param; cbn [fst snd]; rewrite !forallb_app; cbn;
    rewrite (Hp k Hk), (Hp v Hv); [done | exact IH].
Qed.

(** The filters of a collection can be given in its URL: for filters that
    a URL can carry, [makeCollection] on the URL with the query of the filters
    gives the same collection, under the same key of the cache, as on the bare
    URL with the filters as an option; and the cache then holds it. *)
Theorem makeCollection_query a b fs cache :
  63 ∉ a -> forallb (fun c => negb (is_line_end c)) a = true -> fs <> [] -> plain_filters fs ->
  let with_filters f := Build_options (o_pageLimit b) (o_sortKey b) (o_sortOrder b) f in
  exists k cache', makeCollection (a ++ cache_query fs []) (with_filters None) cache = Ok (k, cache') /\
    makeCollection a (with_filters (Some fs)) cache = Ok (k, cache') /\
    filters k = fs /\ (obj_lookup (a ++ cache_query fs []) cache = None -> baseUrl k = a) /\
    obj_lookup (a ++ cache_query fs []) cache' = Some k.
Proof.
  intros Ha Hl Hne [Hnd Hfs] with_filters.
  assert (E1 : collection_source (a ++ cache_query fs []) (with_filters None)
               = Ok (a ++ cache_query fs [], a, with_filters (Some fs))).
  { unfold collection_source. cbn [o_filters with_filters default].
    rewrite cache_query_params by done.
    rewrite bool_decide_eq_true_2 by (apply elem_of_app; right; by left).
    rewrite after_question_app by (done || by apply params_one_line). cbn [res_bind].
    rewrite before_question_app by done. cbn [res_bind].
    rewrite split_on_join; [|by destruct fs | ].
    - rewrite add_params; done.
    - apply Forall_map, Forall_elem. intros kv Hkv. rewrite Forall_elem in Hfs.
      destruct (Hfs kv Hkv) as (Hk & Hv & _). unfold param. rewrite !elem_of_app.
      pose proof (plain_not_in _ 38 Hk). pose proof (plain_not_in _ 38 Hv). set_solver. }
  assert (E2 : collection_source a (with_filters (Some fs))
               = Ok (a ++ cache_query fs [], a, with_filters (Some fs))).
  { unfold collection_source. cbn [o_filters with_filters]. by rewrite bool_decide_eq_false_2. }
  unfold makeCollection. rewrite E1, E2. cbn [res_bind].
  do 2 eexists. split; [reflexivity|]. split; [reflexivity|]. split; [|split].
  - by case_goal.
  - intros ->. done.
  - apply obj_lookup_set_eq.
Qed.

Lemma makeCollection_query_witness :
  exists k cache', makeCollection (u "/nets?name=x&tenant=y") demo_options [] = Ok (k, cache') /\
    filters k = [(u "name", u "x"); (u "tenant", u "y")] /\ baseUrl k = u "/nets".
Proof.
  destruct (makeCollection_query (u "/nets") demo_options [(u "name", u "x"); (u "tenant", u "y")] [])
    as (k & cache' & H1 & _ & Hf & Hb & _).
  - vm_compute. set_solver.
  - reflexivity.
  - discriminate.
  - split; [vm_compute; repeat constructor; set_solver | repeat constructor; discriminate].
  - exists k, cache'. split; [exact H1|]. split; [exact Hf | apply Hb; reflexivity].
Defined.
