(* ===== verification/Json.v ===== *)
(** [JSON.stringify] and [JSON.parse], which the client keeps its session and
    sends its data with, and that the second undoes the first. *)

From Stdlib Require Import ZArith Lia List String Bool.
From stdpp Require Import base list sets list_numbers tactics.
From S2P Require Import Prelude JsNum Js.

(** ** Writing *)

Definition hex4 (c : Z) : jstr :=
  [digit_char (c / 4096); digit_char (c / 256 mod 16); digit_char (c / 16 mod 16); digit_char (c mod 16)].

Definition json_char (c : Z) : jstr :=
  if c =? 34 then [92; 34] else if c =? 92 then [92; 92]
  else if c =? 8 then [92; 98] else if c =? 12 then [92; 102] else if c =? 10 then [92; 110]
  else if c =? 13 then [92; 114] else if c =? 9 then [92; 116]
  else if c <? 32 then [92; 117] ++ hex4 c else [c].

Definition json_quote (s : jstr) : jstr := 34 :: concat (map json_char s) ++ [34].

Definition json_num (n : num) : jstr :=
  match n with NFin _ _ | NFrac _ _ _ => num_to_string n | NInf _ | NNaN => u "null" end.

(** Elements that [JSON.stringify] leaves out of an object. *)
Fixpoint somes {A} (l : list (option A)) : list A :=
  match l with [] => [] | Some a :: l => a :: somes l | None :: l => somes l end.

(** [JSON.stringify]; [None] is [undefined]. *)
Fixpoint stringify (v : value) : res (option jstr) :=
  match v with
  | VUndef => Ok None
  | VNull => Ok (Some (u "null"))
  | VBool b => Ok (Some (if b then u "true" else u "false"))
  | VNum n => Ok (Some (json_num n))
  | VStr s => Ok (Some (json_quote s))
  | VArr l =>
      parts <-? res_map stringify l;
      Ok (Some (91 :: join [44] (map (default (u "null")) parts) ++ [93]))
  | VObj o =>
      parts <-? res_map (fun kv => x <-? stringify kv.2;
                                   Ok (match x with Some x => Some (json_quote kv.1 ++ 58 :: x) | None => None end)) o;
      Ok (Some (123 :: join [44] (somes parts) ++ [125]))
  | VRegExp _ _ => Ok (Some (u "{}"))
  | VDate _ | VBuf _ => Err Unsupported
  end.

(** ** Reading *)

Definition json_space (c : Z) : bool := (c =? 32) || (c =? 10) || (c =? 13) || (c =? 9).

Fixpoint skip_space (s : jstr) : jstr :=
  match s with c :: s' => if json_space c then skip_space s' else s | [] => [] end.

(** The rest of a string literal: its value and what follows the quote. *)
Fixpoint json_string (s : jstr) : res (jstr * jstr) :=
  match s with
  | [] => Err SyntaxErr
  | c :: s =>
      if c =? 34 then Ok ([], s)
      else if c =? 92 then
        match s with
        | [] => Err SyntaxErr
        | e :: s =>
            let char c := '(t, r) <-? json_string s; Ok (c :: t, r) in
            if (e =? 34) || (e =? 92) || (e =? 47) then char e
            else if e =? 98 then char 8 else if e =? 102 then char 12 else if e =? 110 then char 10
            else if e =? 114 then char 13 else if e =? 116 then char 9
            else if e =? 117 then
              match s with
              | a :: b :: c :: d :: s =>
                  if forallb (is_digit_in 16) [a; b; c; d]
                  then '(t, r) <-? json_string s; Ok (digits_val 16 [a; b; c; d] :: t, r)
                  else Err SyntaxErr
              | _ => Err SyntaxErr
              end
            else Err SyntaxErr
        end
      else if c <? 32 then Err SyntaxErr
      else '(t, r) <-? json_string s; Ok (c :: t, r)
  end.

(** The text of a number: an optional sign, an integer without a leading zero,
    an optional fraction and an optional exponent. *)
Definition json_number (s : jstr) : res (num * jstr) :=
  let '(sign, s1) := match s with c :: s' => if c =? 45 then ([45], s') else ([], s) | [] => ([], []) end in
  let '(int, s2) := take_digits s1 in
  if match int with [] => true | c :: _ :: _ => c =? 48 | [_] => false end then Err SyntaxErr else
  '(frac, s3) <-?
    match s2 with
    | c :: s' => if c =? 46 then match take_digits s' with ([], _) => Err SyntaxErr | (ds, r) => Ok (46 :: ds, r) end
                 else Ok ([], s2)
    | [] => Ok ([], [])
    end;
  '(ex, s4) <-?
    match s3 with
    | c :: s' =>
        if (c =? 101) || (c =? 69) then
          let '(sg, s'') := match s' with
                            | x :: r => if (x =? 43) || (x =? 45) then ([x], r) else ([], s')
                            | [] => ([], [])
                            end in
          match take_digits s'' with ([], _) => Err SyntaxErr | (ds, r) => Ok (c :: sg ++ ds, r) end
        else Ok ([], s3)
    | [] => Ok ([], [])
    end;
  Ok (parseFloat (sign ++ int ++ frac ++ ex), s4).

(** A literal name. *)
Definition json_word (w : jstr) (v : value) (s : jstr) : res (value * jstr) :=
  if starts_with w s then Ok (v, drop (length w) s) else Err SyntaxErr.

(** The rest of an array and of an object, for a parser [val] of values; the
    number of elements is bounded by [n]. *)
Section Loops.
Context (val : jstr -> res (value * jstr)).

Fixpoint json_elements (n : nat) (l : list value) (s : jstr) : res (value * jstr) :=
  match n with
  | O => Err OutOfFuel
  | S n =>
      '(v, s) <-? val s;
      match skip_space s with
      | c :: s => if c =? 44 then json_elements n (l ++ [v]) s
                  else if c =? 93 then Ok (VArr (l ++ [v]), s) else Err SyntaxErr
      | [] => Err SyntaxErr
      end
  end.

Definition json_key (s : jstr) : res (jstr * jstr) :=
  match skip_space s with
  | c :: s =>
      if c =? 34 then
        '(k, s) <-? json_string s;
        match skip_space s with
        | c :: s => if c =? 58 then Ok (k, s) else Err SyntaxErr
        | [] => Err SyntaxErr
        end
      else Err SyntaxErr
  | [] => Err SyntaxErr
  end.

Fixpoint json_members (n : nat) (o : object) (s : jstr) : res (value * jstr) :=
  match n with
  | O => Err OutOfFuel
  | S n =>
      '(k, s) <-? json_key s;
      '(v, s) <-? val s;
      match skip_space s with
      | c :: s => if c =? 44 then json_members n (obj_set k v o) s
                  else if c =? 125 then Ok (VObj (obj_set k v o), s) else Err SyntaxErr
      | [] => Err SyntaxErr
      end
  end.
End Loops.

(** A value; the nesting is bounded by [fuel]. *)
Fixpoint json_value (fuel : nat) (s : jstr) : res (value * jstr) :=
  match fuel with
  | O => Err OutOfFuel
  | S fuel =>
      match skip_space s with
      | [] => Err SyntaxErr
      | c :: s' =>
          if c =? 123 then
            match skip_space s' with
            | d :: r => if d =? 125 then Ok (VObj [], r) else json_members (json_value fuel) (length s) [] s'
            | [] => Err SyntaxErr
            end
          else if c =? 91 then
            match skip_space s' with
            | d :: r => if d =? 93 then Ok (VArr [], r) else json_elements (json_value fuel) (length s) [] s'
            | [] => Err SyntaxErr
            end
          else if c =? 34 then '(t, r) <-? json_string s'; Ok (VStr t, r)
          else if c =? 110 then json_word (u "null") VNull (c :: s')
          else if c =? 116 then json_word (u "true") (VBool true) (c :: s')
          else if c =? 102 then json_word (u "false") (VBool false) (c :: s')
          else '(n, r) <-? json_number (c :: s'); Ok (VNum n, r)
      end
  end.

(** [JSON.parse]. *)
Definition parse_json (s : jstr) : res value :=
  '(v, r) <-? json_value (S (length s)) s;
  match skip_space r with [] => Ok v | _ => Err SyntaxErr end.

(** Texts of the examples, with single quotes in the place of double ones. *)
Definition dq (s : string) : jstr := map (fun c => if c =? 39 then 34 else c) (u s).

Example json_examples :
  map (fun s => v <-? parse_json (dq s); stringify v)
      ["{ 'a' : [1, -2.5e1, true, null], 'b': 'x\u0041' }"; "[1,]"; "01"; "{'a':1,'a':2}"; "undefined"]%string
  = [Ok (Some (dq "{'a':[1,-25,true,null],'b':'xA'}")); Err SyntaxErr; Err SyntaxErr;
     Ok (Some (dq "{'a':2}")); Err SyntaxErr].
Proof. vm_compute. reflexivity. Qed.

(** ** Reading what was written *)

(** Data: no [undefined], safe integers, strings of code units, and objects
    whose properties are in the order of their insertion. *)
Definition units (s : jstr) : Prop := Forall (fun c => 0 <= c < 65536) s.

Fixpoint json_ok (v : value) : Prop :=
  match v with
  | VNull | VBool _ => True
  | VNum n => exists z, n = num_of_Z z /\ Z.abs z <= max_safe
  | VStr s => units s
  | VArr l => foldr (fun v P => json_ok v /\ P) True l
  | VObj o => insertion_order o /\ foldr (fun kv P => units kv.1 /\ json_ok kv.2 /\ P) True o
  | _ => False
  end.

Lemma json_ok_obj o :
  json_ok (VObj o) <-> insertion_order o /\ Forall (fun kv => units kv.1 /\ json_ok kv.2) o.
Proof. cbn. rewrite <- foldr_Forall. apply and_iff_compat_l. induction o as [|kv o IH]; cbn; tauto. Qed.

Lemma hex4_digits c : 0 <= c < 65536 ->
  forallb (is_digit_in 16) (hex4 c) = true /\ digits_val 16 (hex4 c) = c.
Proof.
  intros Hc. unfold hex4.
  assert (0 <= c / 4096 < 16) by (split; [apply Z.div_pos; lia | apply Z.div_lt_upper_bound; lia]).
  pose proof (Z.mod_pos_bound (c / 256) 16 ltac:(lia)). pose proof (Z.mod_pos_bound (c / 16) 16 ltac:(lia)).
  pose proof (Z.mod_pos_bound c 16 ltac:(lia)). split.
  - cbn [forallb]. rewrite !is_digit_char by lia. done.
  - unfold digits_val. cbn [fold_left]. rewrite !digit_val_char by lia.
    pose proof (Z.div_mod c 16 ltac:(lia)). pose proof (Z.div_mod (c / 16) 16 ltac:(lia)).
    pose proof (Z.div_mod (c / 16 / 16) 16 ltac:(lia)).
    rewrite !Z.div_div in * by lia. change (16 * 16) with 256 in *. change (256 * 16) with 4096 in *. lia.
Qed.

Lemma json_string_char c s t r :
  0 <= c < 65536 -> json_string s = Ok (t, r) -> json_string (json_char c ++ s) = Ok (c :: t, r).
Proof.
  intros Hc Hs. unfold json_char.
  repeat match goal with |- context [if c =? ?n then _ else _] =>
    destruct (c =? n) eqn:?; breflect; [subst c; cbn; by rewrite Hs|] end.
  destruct (c <? 32) eqn:E; breflect.
  - destruct (hex4_digits c Hc) as [Hd Hv]. unfold hex4 in *. cbn -[is_digit_in forallb digits_val].
    rewrite Hd, Hs. cbn [res_bind]. by rewrite Hv.
  - cbn. replace (c =? 34) with false by lia. replace (c =? 92) with false by lia.
    replace (c <? 32) with false by lia. by rewrite Hs.
Qed.

Lemma json_string_quote s r : units s -> json_string (concat (map json_char s) ++ 34 :: r) = Ok (s, r).
Proof.
  induction 1 as [|c s Hc _ IH]; [done|]. cbn [map concat]. rewrite <- app_assoc. by apply json_string_char.
Qed.

(** What may follow a value inside an array or an object. *)
Definition ends (r : jstr) : Prop := match r with [] => True | c :: _ => c = 44 \/ c = 93 \/ c = 125 end.

Lemma ends_digit r : ends r -> match r with [] => True | c :: _ => is_digit_in 10 c = false end.
Proof. destruct r; [done|]. by intros [-> | [-> | ->]]. Qed.

Lemma digit_range c : is_digit_in 10 c = true -> 48 <= c <= 57.
Proof.
  unfold is_digit_in, digit_of. intros Hc. repeat case_hyp Hc; breflect; try done; lia.
Qed.

Lemma parseFloat_digits neg n :
  0 <= n -> parseFloat ((if neg : bool then [45] else []) ++ to_radix 10 n) = num_make neg n.
Proof.
  intros Hn. pose proof (to_radix_digits 10 n ltac:(lia) Hn) as Hd.
  pose proof (to_radix_val 10 n ltac:(lia) Hn) as Hv. pose proof (to_radix_not_nil 10 n) as Hne.
  destruct (to_radix 10 n) as [|c s] eqn:E; [done|].
  pose proof (Forall_inv Hd) as Hc. cbn beta in Hc. pose proof (digit_range c Hc) as Hr.
  assert (Hss : strip_sign (trim_start ((if neg then [45] else []) ++ c :: s)) = (neg, c :: s)).
  { destruct neg; [done|]. cbn [app trim_start]. rewrite (proj1 (digit_plain 10 c Hc)). by apply strip_sign_digit with 10. }
  unfold parseFloat. rewrite Hss.
  replace (starts_with (u "Infinity") (c :: s)) with false.
  2: { change (u "Infinity") with (73 :: u "nfinity"). cbn [starts_with]. by replace (73 =? c) with false by lia. }
  pose proof (take_digits_app (c :: s) [] Hd I) as Ht. rewrite app_nil_r in Ht. rewrite Ht, app_nil_r.
  cbn [exponent_part]. unfold num_of_decimal. cbn -[digits_val Z.mul num_make].
  rewrite Hv. by rewrite Z.mul_1_r.
Qed.

Lemma num_text z : Z.abs z <= max_safe ->
  json_num (num_of_Z z) = (if z <? 0 then [45] else []) ++ to_radix 10 (Z.abs z).
Proof.
  intros Hz. rewrite num_of_Z_safe by done. cbn -[to_radix max_safe]. unfold num_to_string, num_to_radix.
  cbn [Z.eqb Pos.eqb]. rewrite Z2N.id by lia. unfold mag_to_string. replace (Z.abs z <=? max_safe) with true by lia.
  destruct (z <? 0) eqn:E; [|done]; breflect.
  replace (Z.to_N (Z.abs z) =? 0)%N with false; [done|]. symmetry. apply N.eqb_neq. lia.
Qed.

Lemma json_number_text z r :
  Z.abs z <= max_safe -> ends r -> json_number (json_num (num_of_Z z) ++ r) = Ok (num_of_Z z, r).
Proof.
  intros Hz Hr. rewrite num_text by done. pose proof (to_radix_digits 10 (Z.abs z) ltac:(lia) ltac:(lia)) as Hd.
  set (ds := to_radix 10 (Z.abs z)) in *. set (sign := if z <? 0 then [45] else []).
  assert (E : num_of_Z z = parseFloat (sign ++ ds ++ [] ++ [])).
  { rewrite !app_nil_r. unfold sign, ds. rewrite parseFloat_digits by lia. done. }
  assert (Hne : exists c s, ds = c :: s /\ c <> 45).
  { pose proof (to_radix_not_nil 10 (Z.abs z)) as Hne. fold ds in Hne. destruct ds as [|c s]; [done|].
    exists c, s. split; [done|]. pose proof (digit_range c (Forall_inv Hd)). lia. }
  destruct Hne as (c & s & Hds & Hc45).
  assert (Hsign : match (sign ++ ds) ++ r with
                  | c :: s' => if c =? 45 then ([45], s') else ([], (sign ++ ds) ++ r)
                  | [] => ([], []) end = (sign, ds ++ r)).
  { rewrite Hds. unfold sign. destruct (z <? 0); cbn; [done|]. by replace (c =? 45) with false by lia. }
  assert (Hz0 : match ds with [] => true | c :: _ :: _ => c =? 48 | [_] => false end = false).
  { destruct (decide (z = 0)) as [-> | Hnz]; [done|].
    destruct (to_radix_head 10 (Z.abs z) ltac:(lia) ltac:(lia)) as (d & s' & E' & Hdr). unfold ds. rewrite E'.
    unfold digit_char. replace (d <? 10) with true by lia. destruct s'; [done | by lia]. }
  unfold json_number. rewrite Hsign, take_digits_app by (done || by apply ends_digit). rewrite Hz0.
  destruct r as [|x r]; cbn [res_bind]; [by rewrite E|].
  replace (x =? 46) with false by (cbn in Hr; lia). cbn [res_bind].
  replace ((x =? 101) || (x =? 69)) with false by (cbn in Hr; lia). cbn [res_bind]. by rewrite E.
Qed.

(** ** The text of a value *)

(** The first character of a value: no white space, and it does not end anything. *)
Lemma stringify_first v s :
  json_ok v -> stringify v = Ok (Some s) ->
  exists c t, s = c :: t /\ json_space c = false /\ c <> 93 /\ c <> 125 /\
    (c =? 123) = (match v with VObj _ => true | _ => false end) /\
    (c =? 91) = (match v with VArr _ => true | _ => false end) /\
    (c =? 34) = (match v with VStr _ => true | _ => false end).
Proof.
  destruct v as [| |b|n|x|l|o| | |]; intros Hok; cbn [stringify]; try done.
  - intros [= <-]. by do 2 eexists.
  - intros [= <-]. destruct b; by do 2 eexists.
  - destruct Hok as (z & -> & Hz). rewrite num_text by done. intros [= <-].
    pose proof (to_radix_digits 10 (Z.abs z) ltac:(lia) ltac:(lia)) as Hd.
    pose proof (to_radix_not_nil 10 (Z.abs z)) as Hne.
    destruct (z <? 0); [by do 2 eexists|]. destruct (to_radix 10 (Z.abs z)) as [|c t]; [done|].
    pose proof (digit_range c (Forall_inv Hd)) as Hr. exists c, t. unfold json_space. repeat split; lia.
  - intros [= <-]. by do 2 eexists.
  - intros (? & _ & [= <-])%res_bind_ok. by do 2 eexists.
  - intros (? & _ & [= <-])%res_bind_ok. by do 2 eexists.
Qed.

Lemma skip_space_first c t : json_space c = false -> skip_space (c :: t) = c :: t.
Proof. cbn. by intros ->. Qed.

(** The value [v] is written as [s]. *)
Definition text (v : value) (s : jstr) : Prop := stringify v = Ok (Some s).

Definition member (k t : jstr) : jstr := json_quote k ++ 58 :: t.

Lemma text_arr l ts : Forall2 text l ts -> text (VArr l) (91 :: join [44] ts ++ [93]).
Proof.
  intros H. unfold text. cbn [stringify].
  assert (E : res_map stringify l = Ok (map Some ts)).
  { apply res_map_ok. induction H; constructor; done. }
  rewrite E. cbn [res_bind]. by rewrite map_map, map_id.
Qed.

Lemma somes_map {A} (l : list A) : somes (map Some l) = l.
Proof. induction l as [|x l IH]; cbn; [done | by rewrite IH]. Qed.

Lemma text_obj o ts :
  Forall2 (fun kv t => text kv.2 t) o ts ->
  text (VObj o) (123 :: join [44] (zip_with (fun kv t => member kv.1 t) o ts) ++ [125]).
Proof.
  intros H. unfold text. cbn [stringify].
  match goal with |- context [res_map ?f o] => assert (E : res_map f o = Ok (map Some (zip_with (fun kv t => member kv.1 t) o ts))) end.
  { apply res_map_ok. induction H as [|kv t o ts Ht _ IH]; constructor; [by rewrite Ht | done]. }
  rewrite E. cbn [res_bind]. by rewrite somes_map.
Qed.

Lemma Forall_texts {A} (f : A -> value) l :
  Forall (fun x => exists s, text (f x) s) l -> exists ts, Forall2 (fun x t => text (f x) t) l ts.
Proof.
  induction 1 as [|x l [s Hs] _ (ts & Hts)]; [by exists []|]. exists (s :: ts). by constructor.
Qed.

Lemma stringify_ok v : json_ok v -> exists s, text v s.
Proof.
  induction v as [| |b|n|x|l IH|o IH| | |] using value_ind'; try done; intros Hok.
  - by eexists.
  - by eexists.
  - by eexists.
  - by eexists.
  - cbn in Hok. rewrite foldr_Forall in Hok.
    destruct (Forall_texts id l) as (ts & Hts); [|eexists; by apply text_arr].
    apply Forall_elem. intros v Hv. rewrite Forall_elem in IH, Hok. by apply IH, Hok.
  - apply json_ok_obj in Hok as [_ Hok].
    destruct (Forall_texts snd o) as (ts & Hts); [|eexists; by apply text_obj].
    apply Forall_elem. intros kv Hv. rewrite Forall_elem in IH, Hok. by apply IH, Hok.
Qed.

(** The parser [val] reads the text [t] as [v], whatever follows. *)
Definition reads (val : jstr -> res (value * jstr)) (v : value) (t : jstr) : Prop :=
  forall r, ends r -> val (t ++ r) = Ok (v, r).

Lemma json_elements_text val r : forall l ts acc n,
  Forall2 (reads val) l ts -> l <> [] -> (length l <= n)%nat ->
  json_elements val n acc (join [44] ts ++ 93 :: r) = Ok (VArr (acc ++ l), r).
Proof.
  induction l as [|v l IH]; intros ts acc n Hl Hne Hn; [done|].
  inversion Hl as [|? t ? ts' Ht Hts]; subst. destruct n as [|n]; [cbn in Hn; lia|]. cbn [json_elements].
  destruct l as [|v' l].
  - inversion Hts; subst. cbn [join]. rewrite (Ht (93 :: r)) by (cbn; lia). done.
  - inversion Hts as [|? t' ? ts'' Ht' Hts']; subst.
    change (join [44] (t :: t' :: ts'')) with (t ++ 44 :: join [44] (t' :: ts'')).
    rewrite <- app_assoc. cbn [app]. rewrite (Ht (44 :: _)) by (cbn; lia). cbn [res_bind skip_space json_space Z.eqb Pos.eqb orb].
    rewrite IH; [|done|done|cbn in *; lia]. by rewrite <- app_assoc.
Qed.

Lemma json_key_text k t r : units k -> json_key (member k t ++ r) = Ok (k, t ++ r).
Proof.
  intros Hk. unfold json_key, member, json_quote. cbn [app skip_space json_space Z.eqb Pos.eqb orb].
  rewrite <- !app_assoc. cbn [app]. by rewrite json_string_quote.
Qed.

Lemma json_members_text val r : forall o ts acc n,
  Forall2 (fun kv t => reads val kv.2 t /\ units kv.1) o ts -> o <> [] -> (length o <= n)%nat ->
  json_members val n acc (join [44] (zip_with (fun kv t => member kv.1 t) o ts) ++ 125 :: r)
  = Ok (VObj (fold_left (fun acc kv => obj_set kv.1 kv.2 acc) o acc), r).
Proof.
  induction o as [|[k v] o IH]; intros ts acc n Ho Hne Hn; [done|].
  inversion Ho as [|? t ? ts' [Ht Hk] Hts]; subst. destruct n as [|n]; [cbn in Hn; lia|].
  cbn [json_members zip_with fst]. destruct o as [|kv' o].
  - inversion Hts; subst. cbn [zip_with join]. rewrite json_key_text by done. cbn [res_bind].
    rewrite (Ht (125 :: r)) by (cbn; lia). done.
  - inversion Hts as [|? t' ? ts'' Ht' Hts']; subst.
    assert (E : forall x y l, join [44] (x :: y :: l) = x ++ 44 :: join [44] (y :: l)) by done.
    cbn [zip_with]. rewrite E, <- app_assoc, json_key_text by done. cbn [res_bind app].
    rewrite (Ht (44 :: _)) by (cbn; lia). cbn [res_bind skip_space json_space Z.eqb Pos.eqb orb].
    apply (IH (t' :: ts'')); [done | done | cbn in *; lia].
Qed.

Lemma length_join_ge (l : list jstr) (t : jstr) : t ∈ l -> (length t <= length (join [44%Z] l))%nat.
Proof.
  induction l as [|x l IH]; intros Ht; [by apply not_elem_of_nil in Ht|].
  destruct l as [|y l]; [apply list_elem_of_singleton in Ht as ->; done|].
  change (join [44] (x :: y :: l)) with (x ++ 44 :: join [44] (y :: l)). rewrite length_app. cbn [length].
  apply elem_of_cons in Ht as [-> | Ht]; [lia|]. specialize (IH Ht). lia.
Qed.

Lemma length_join_count (l : list jstr) : (length l <= S (length (join [44%Z] l)))%nat.
Proof.
  induction l as [|x l IH]; [cbn; lia|]. destruct l as [|y l]; [cbn; lia|].
  change (join [44] (x :: y :: l)) with (x ++ 44 :: join [44] (y :: l)). rewrite length_app. cbn [length] in *. lia.
Qed.

(** The statement of the induction below. *)
Definition value_reads (v : value) : Prop :=
  json_ok v -> forall s r fuel, text v s -> ends r -> (length s < fuel)%nat -> json_value fuel (s ++ r) = Ok (v, r).

Lemma reads_texts {A} (f : A -> value) fuel l ts :
  Forall2 (fun x t => text (f x) t) l ts -> Forall (fun x => json_ok (f x)) l ->
  Forall (fun x => value_reads (f x)) l -> Forall (fun t => length t < fuel)%nat ts ->
  Forall2 (fun x t => reads (json_value fuel) (f x) t) l ts.
Proof.
  induction 1 as [|v t l ts Ht _ IHl]; constructor;
    apply Forall_cons_iff in H as [Hv Hok], H0 as [IHv IH], H1 as [Hl Hlt].
  - intros r Hr. by apply IHv.
  - by apply IHl.
Qed.

Lemma json_value_arr l : Forall value_reads l -> value_reads (VArr l).
Proof.
  intros IH Hok s r fuel Hs Hr Hf. cbn in Hok. rewrite foldr_Forall in Hok.
  destruct (Forall_texts id l) as (ts & Hts).
  { eapply Forall_impl; [|exact Hok]. intros v Hv. by apply stringify_ok. }
  pose proof (text_arr _ _ Hts) as E. unfold text in Hs, E. rewrite Hs in E. injection E as ->. clear Hs.
  destruct fuel as [|fuel]; [lia|]. cbn [length] in Hf. rewrite length_app in Hf. cbn [length] in Hf.
  cbn [app json_value skip_space json_space Z.eqb Pos.eqb orb].
  destruct l as [|v l]; [inversion Hts; done|]. inversion Hts as [|? t ? ts' Ht Hts']; subst.
  destruct (stringify_first v t (Forall_inv Hok) Ht) as (c & t' & -> & Hsp & Hc & _).
  assert (Hhd : exists t'', (join [44] ((c :: t') :: ts') ++ [93]) ++ r = c :: t'') by (destruct ts'; by eexists).
  destruct Hhd as (t'' & Hhd). rewrite Hhd, skip_space_first by done. replace (c =? 93) with false by lia.
  rewrite <- Hhd, <- app_assoc. cbn [app].
  apply (json_elements_text _ _ (v :: l) _ []); [|done|].
  - apply (reads_texts id); try done. apply Forall_elem. intros x Hx%length_join_ge. lia.
  - apply Forall2_length in Hts. rewrite Hts. cbn [length]. rewrite length_app. cbn [length].
    pose proof (length_join_count ((c :: t') :: ts')). cbn [length] in *. lia.
Qed.

Lemma length_member k t : (length t < length (member k t))%nat.
Proof. unfold member. rewrite length_app. cbn [length]. lia. Qed.

Lemma json_value_obj o : Forall (fun kv => value_reads kv.2) o -> value_reads (VObj o).
Proof.
  intros IH Hok s r fuel Hs Hr Hf. apply json_ok_obj in Hok as [Hord Hok].
  destruct (Forall_texts snd o) as (ts & Hts).
  { eapply Forall_impl; [|exact Hok]. intros kv [_ Hv]. by apply stringify_ok. }
  pose proof (text_obj _ _ Hts) as E. unfold text in Hs, E. rewrite Hs in E. injection E as ->. clear Hs.
  destruct fuel as [|fuel]; [lia|]. cbn [length] in Hf. rewrite length_app in Hf. cbn [length] in Hf.
  cbn [app json_value skip_space json_space Z.eqb Pos.eqb orb].
  destruct o as [|[k v] o]; [inversion Hts; done|]. inversion Hts as [|? t ? ts' Ht Hts']; subst.
  assert (Hhd : exists t'', (join [44] (zip_with (fun kv t => member kv.1 t) ((k, v) :: o) (t :: ts')) ++ [125]) ++ r = 34 :: t'')
    by (cbn; destruct (zip_with _ o ts'); by eexists).
  destruct Hhd as (t'' & Hhd). rewrite Hhd, skip_space_first by done. cbn [Z.eqb Pos.eqb].
  rewrite <- Hhd, <- app_assoc. cbn [app].
  rewrite json_members_text with (n := length (_ :: _)); [by rewrite Hord | | done |].
  - assert (Hlt : Forall (fun t => length t < fuel)%nat (t :: ts')).
    { apply Forall_elem. intros x Hx.
      assert (Hm : exists kv, member kv x ∈ zip_with (fun kv t => member kv.1 t) ((k, v) :: o) (t :: ts')).
      { apply list_elem_of_lookup in Hx as (i & Hi). destruct (Forall2_lookup_r _ _ _ _ _ Hts Hi) as (kv & Hkv & _).
        exists kv.1. apply list_elem_of_lookup. exists i. by rewrite lookup_zip_with, Hkv; cbn; rewrite Hi. }
      destruct Hm as (kv & Hm%length_join_ge). pose proof (length_member kv x). lia. }
    assert (Hr2 : Forall2 (fun kv t => reads (json_value fuel) kv.2 t) ((k, v) :: o) (t :: ts')).
    { apply reads_texts; try done. eapply Forall_impl; [|exact Hok]. by intros ? []. }
    clear -Hr2 Hok. induction Hr2 as [|kv t0 o0 ts0 H1 _ IH2]; constructor;
      apply Forall_cons_iff in Hok as [[Hu _] Hok]; [done | by apply IH2].
  - pose proof Hts as Hlen%Forall2_length.
    pose proof (length_join_count (zip_with (fun kv t => member kv.1 t) ((k, v) :: o) (t :: ts'))) as Hc.
    rewrite length_zip_with in Hc. rewrite <- Hlen, Nat.min_id in Hc.
    cbn [length] in *. rewrite length_app. cbn [length]. lia.
Qed.

Lemma json_value_reads v : value_reads v.
Proof.
  induction v as [| |b|n|x|l IH|o IH| | |] using value_ind'; try (by intros ?);
    [..|by apply json_value_arr | by apply json_value_obj]; intros Hok s r [|fuel] Hs Hr Hf; try lia;
    injection Hs as <-.
  - reflexivity.
  - by destruct b.
  - destruct (stringify_first (VNum n) _ Hok eq_refl) as (c & t & E & Hsp & _ & _ & H1 & H2 & H3).
    destruct Hok as (z & -> & Hz). pose proof (json_number_text z r Hz Hr) as Hn.
    rewrite E in Hn |- *. cbn [app json_value] in Hn |- *. rewrite skip_space_first by done. rewrite H1, H2, H3.
    assert (H4 : (c =? 110) = false /\ (c =? 116) = false /\ (c =? 102) = false).
    { rewrite num_text in E by done. pose proof (to_radix_digits 10 (Z.abs z) ltac:(lia) ltac:(lia)) as Hd.
      destruct (z <? 0); [injection E as <-; lia|]. destruct (to_radix 10 (Z.abs z)); [done|].
      injection E as -> ->. pose proof (digit_range c (Forall_inv Hd)). lia. }
    destruct H4 as (-> & -> & ->). by rewrite Hn.
  - cbn [app json_value skip_space json_space Z.eqb Pos.eqb orb json_quote].
    rewrite <- app_assoc. cbn [app]. by rewrite json_string_quote.
Qed.

(** [JSON.parse(JSON.stringify(v))] is [v]. *)
Lemma parse_stringify v : json_ok v -> exists s, stringify v = Ok (Some s) /\ s <> [] /\ parse_json s = Ok v.
Proof.
  intros Hok. destruct (stringify_ok v Hok) as [s Hs]. exists s. split; [done|]. split.
  - destruct (stringify_first v s Hok Hs) as (c & t & -> & _). done.
  - unfold parse_json. pose proof (json_value_reads v Hok s [] (S (length s)) Hs I ltac:(lia)) as H.
    rewrite app_nil_r in H. by rewrite H.
Qed.
