(* ===== verification/UserModel.v ===== *)
(** The session of the client's [UserModel]: tokens and tenants kept in the
    session storage of a browser tab, the requests that log in, and the
    messages by which the tabs share and clear their sessions. *)

From Stdlib Require Import ZArith Lia List String Bool.
From stdpp Require Import base list sets list_numbers tactics.
From S2P Require Import Prelude JsNum Js Json.

(** ** Storage *)

(** A [Storage] object: the items by their key. *)
Abbreviation storage := (list (jstr * jstr)).

(** ['${storagePrefix}_'], empty when no prefix is configured. *)
Definition storage_prefix (p : jstr) : jstr := match p with [] => [] | _ => p ++ u "_" end.

(** A browser tab: its session storage, and the attribute [authData] of the model. *)
Record tab := { session : storage; authData : value }.

Section UserModel.
Context (storagePrefix : jstr).

Definition key (a : jstr) : jstr := storagePrefix ++ a.

(** [sessionStorage.setItem(key, JSON.stringify(b))]: a string is stored, the
    text [undefined] for [undefined]. *)
Definition setItem (a : jstr) (b : value) (t : tab) : res tab :=
  s <-? stringify b;
  Ok {| session := obj_set (key a) (default (u "undefined") s) (session t); authData := authData t |}.

Definition getItem (a : jstr) (t : tab) : res value :=
  match obj_lookup (key a) (session t) with
  | None | Some [] => Ok VUndef
  | Some b => parse_json b
  end.

Definition saveUnscopedToken (a : value) : tab -> res tab := setItem (u "unscopedToken") a.
Definition saveTenants (a : value) : tab -> res tab := setItem (u "tenants") a.
Definition saveTenant (a : value) : tab -> res tab := setItem (u "tenant") a.

Definition tenantName (t : tab) : res value := getItem (u "tenant") t.
Definition tenants (t : tab) : res value := getItem (u "tenants") t.

Definition saveScopedToken (a : value) (t : tab) : res tab :=
  b <-? tenantName t;
  c <-? getItem (u "scopedToken") t;
  let c := if truthy c then c else VObj [] in
  k <-? to_string b;
  c <-? set_prop c k a;
  t <-? setItem (u "scopedToken") c t;
  Ok {| session := session t; authData := a |}.

(** [v.a.b.c]. *)
Definition get_path (v : value) (p : list jstr) : res value :=
  fold_left (fun r k => v <-? r; get_prop v k) p (Ok v).

(** What [authToken], [expiresTokenDate] and [userName] read of the token of
    the selected tenant; [undefined] when there is none. *)
Definition scoped_read (p : list jstr) (t : tab) : res value :=
  a <-? tenantName t;
  b <-? getItem (u "scopedToken") t;
  if truthy b then
    k <-? to_string a;
    c <-? get_prop b k;
    if truthy c then get_path c p else Ok VUndef
  else Ok VUndef.

Definition authToken : tab -> res value := scoped_read [u "access"; u "token"; u "id"].
Definition expires : tab -> res value := scoped_read [u "access"; u "token"; u "expires"].
Definition userName : tab -> res value := scoped_read [u "access"; u "user"; u "name"].

Definition unscopedToken (t : tab) : res value :=
  a <-? getItem (u "unscopedToken") t;
  if truthy a then get_path a [u "access"; u "token"; u "id"] else Ok VUndef.

(** [unsetAuthData], in the tab. *)
Definition removeItem (k : jstr) (t : tab) : tab :=
  {| session := obj_delete k (session t); authData := authData t |}.

Definition own_keys : list jstr :=
  [key (u "scopedToken"); key (u "unscopedToken"); key (u "tenant"); key (u "tenants")].

Definition unsetAuthData (t : tab) : tab := fold_left (fun t k => removeItem k t) own_keys t.

(** ** Logging in *)

(** A call that may answer at once, or send a request with a body. *)
Inductive outcome :=
| Resolved (v : value)
| Requests (body : value).

(** [login]: the tenants of an earlier login are the answer when there are some. *)
Definition login (username password : jstr) (t : tab) : res outcome :=
  f <-? tenants t;
  if truthy f then Ok (Resolved f)
  else Ok (Requests (VObj [(u "auth", VObj [(u "passwordCredentials",
                       VObj [(u "username", VStr username); (u "password", VStr password)])])])).

(** The answer to it is saved, then [fetchTenant] asks for the tenants with the token. *)
Definition login_success (g : value) (t : tab) : res (tab * value) :=
  t <-? saveUnscopedToken g t;
  id <-? unscopedToken t;
  Ok (t, id).

Definition tenants_success (c : value) (t : tab) : res (tab * value) :=
  d <-? get_prop c (u "tenants");
  t <-? saveTenants d t;
  Ok (t, d).

(** [loginTenant]: the selection is saved before the request is sent. *)
Definition loginTenant (a : value) (t : tab) : res (tab * value) :=
  id <-? unscopedToken t;
  t <-? saveTenant a t;
  Ok (t, VObj [(u "auth", VObj [(u "token", VObj [(u "id", id)]); (u "tenantName", a)])]).

(** [parse]: the answer to it. *)
Definition parse (a : value) : tab -> res tab := saveScopedToken a.

(** [extendToken]: the request, and what its answer does. *)
Definition extendToken (password : jstr) (t : tab) : res value :=
  n <-? tenantName t;
  x <-? userName t;
  Ok (VObj [(u "auth", VObj [(u "tenantName", n);
       (u "passwordCredentials", VObj [(u "username", x); (u "password", VStr password)])])]).

Definition extend_success (e : value) (t : tab) : res tab :=
  f <-? getItem (u "scopedToken") t;
  n <-? tenantName t;
  k <-? to_string n;
  s <-? get_prop f k;
  access <-? get_prop s (u "access");
  token <-? get_path e [u "access"; u "token"];
  access <-? set_prop access (u "token") token;
  s <-? set_prop s (u "access") access;
  saveScopedToken s t.
End UserModel.

(** * Properties *)

(** ** What the session means

    An abstract account: the token of the login, the tenants, the tenant that
    is selected, and the last token of each tenant. *)

Record account := {
  a_unscoped : value;                   (* [VUndef] when there is none *)
  a_tenants : value;
  a_tenant : option jstr;
  a_scoped : list (jstr * value)
}.

Definition logged_out : account := Build_account VUndef VUndef None [].

(** The operations that save into the session. *)
Inductive op :=
| OUnscoped (g : value)
| OTenants (l : value)
| OTenant (t : jstr)
| OScoped (a : value)
| OUnset.

Definition spec_step (o : op) (a : account) : account :=
  match o with
  | OUnscoped g => Build_account g (a_tenants a) (a_tenant a) (a_scoped a)
  | OTenants l => Build_account (a_unscoped a) l (a_tenant a) (a_scoped a)
  | OTenant t => Build_account (a_unscoped a) (a_tenants a) (Some t) (a_scoped a)
  | OScoped c => Build_account (a_unscoped a) (a_tenants a) (a_tenant a)
                   (obj_set (default (u "undefined") (a_tenant a)) c (a_scoped a))
  | OUnset => logged_out
  end.

Definition op_step (p : jstr) (o : op) : tab -> res tab :=
  match o with
  | OUnscoped g => saveUnscopedToken p g
  | OTenants l => saveTenants p l
  | OTenant t => saveTenant p (VStr t)
  | OScoped a => saveScopedToken p a
  | OUnset => fun t => Ok (unsetAuthData p t)
  end.

Definition op_ok (o : op) : Prop :=
  match o with
  | OUnscoped v | OTenants v | OScoped v => json_ok v
  | OTenant t => units t /\ index_key t = None
  | OUnset => True
  end.

Definition run_ops (p : jstr) (os : list op) (t : tab) : res tab :=
  fold_left (fun r o => t <-? r; op_step p o t) os (Ok t).

(** The getters on the abstract account. *)
Definition spec_read (path : list jstr) (a : account) : res value :=
  let c := obj_get (default (u "undefined") (a_tenant a)) (a_scoped a) in
  if truthy c then get_path c path else Ok VUndef.

Definition spec_unscoped (a : account) : res value :=
  if truthy (a_unscoped a) then get_path (a_unscoped a) [u "access"; u "token"; u "id"] else Ok VUndef.

(** The tab [t] holds the account [a]. *)
Record holds (p : jstr) (t : tab) (a : account) : Prop := {
  h_unscoped : getItem p (u "unscopedToken") t = Ok (a_unscoped a);
  h_tenants : getItem p (u "tenants") t = Ok (a_tenants a);
  h_tenant : getItem p (u "tenant") t = Ok (match a_tenant a with Some n => VStr n | None => VUndef end);
  h_scoped : getItem p (u "scopedToken") t = Ok (match a_scoped a with [] => VUndef | o => VObj o end);
  h_plain : NoDup (obj_keys (a_scoped a))
            /\ Forall (fun kv => (units kv.1 /\ json_ok kv.2) /\ index_key kv.1 = None) (a_scoped a);
  h_name : match a_tenant a with Some n => units n /\ index_key n = None | None => True end
}.

(** ** Items *)

Lemma key_inj p a b : key p a = key p b -> a = b.
Proof. apply app_inv_head. Qed.

Lemma setItem_getItem p a v t :
  json_ok v -> exists t', setItem p a v t = Ok t' /\ getItem p a t' = Ok v /\
    authData t' = authData t /\
    forall k, k <> key p a -> obj_lookup k (session t') = obj_lookup k (session t).
Proof.
  intros (s & Hs & Hne & Hp)%parse_stringify. unfold setItem. rewrite Hs. cbn [res_bind default].
  eexists. split; [done|]. split; [|split; [done|]].
  - unfold getItem. cbn [session]. rewrite obj_lookup_set_eq. destruct s; [done | exact Hp].
  - intros k Hk. cbn [session]. rewrite obj_lookup_set_ne; [done | by apply not_eq_sym].
Qed.

Lemma getItem_frame p b t t' :
  obj_lookup (key p b) (session t') = obj_lookup (key p b) (session t) -> getItem p b t' = getItem p b t.
Proof. intros H. unfold getItem. by rewrite H. Qed.

Lemma obj_set_plain {A} (P : jstr * A -> Prop) k v o :
  index_key k = None -> P (k, v) -> NoDup (obj_keys o) -> Forall P o ->
  NoDup (obj_keys (obj_set k v o)) /\ Forall P (obj_set k v o) /\ obj_set k v o <> [].
Proof.
  intros Hk Hv Hnd Ho. destruct (decide (k ∈ obj_keys o)) as [Hin | Hn].
  - unfold obj_set. rewrite (proj2 (obj_has_keys k o) Hin). rewrite obj_update_map. split; [done|]. split.
    + clear Hnd Hin. induction Ho as [|[k' v'] o Hx Ho IH]; cbn; [done|].
      destruct (streq k k') eqn:E; constructor; try done. apply streq_eq in E as <-. done.
    + intros E. apply (f_equal obj_keys) in E. rewrite obj_update_map in E. rewrite E in Hin. by apply not_elem_of_nil in Hin.
  - rewrite obj_set_new by done. unfold obj_keys. rewrite map_app. split; [|split].
    + apply list.NoDup_app. split; [done|]. split; [|apply NoDup_singleton].
      intros x Hx ->%list_elem_of_singleton. done.
    + apply Forall_app. split; [done | by repeat constructor].
    + by destruct o.
Qed.

Lemma plain_json_ok (o : list (jstr * value)) :
  NoDup (obj_keys o) -> Forall (fun kv => (units kv.1 /\ json_ok kv.2) /\ index_key kv.1 = None) o -> json_ok (VObj o).
Proof.
  intros Hnd Ho. apply json_ok_obj. split.
  - apply insertion_order_plain; [done|]. eapply Forall_impl; [|exact Ho]. by intros kv [[? ?] ?].
  - eapply Forall_impl; [|exact Ho]. by intros kv [[? ?] ?].
Qed.

(** The four items have different keys. *)
Ltac own_key := let H := fresh in intros H%key_inj; vm_compute in H; congruence.

(** An item that an operation has not written. *)
Ltac same_item Hf := match type of Hf with forall k, _ -> _ = obj_lookup k (session ?t) =>
  rewrite (getItem_frame _ _ t); [done | apply Hf; own_key] end.

Lemma holds_frame p t t' a :
  holds p t a -> (forall k, k ∈ own_keys p -> obj_lookup k (session t') = obj_lookup k (session t)) -> holds p t' a.
Proof.
  intros [H1 H2 H3 H4 H5 H6] Hk.
  assert (Hg : forall b, key p b ∈ own_keys p -> getItem p b t' = getItem p b t).
  { intros b Hb. apply getItem_frame, Hk, Hb. }
  split; rewrite ?Hg; try done; unfold own_keys; rewrite !elem_of_cons; tauto.
Qed.

Lemma obj_lookup_own k p t : k ∈ own_keys p -> obj_lookup k (session (unsetAuthData p t)) = None.
Proof.
  unfold unsetAuthData, removeItem, own_keys. cbn [fold_left session]. rewrite !obj_lookup_delete.
  rewrite !elem_of_cons. intros H. repeat case_goal; try done. exfalso.
  repeat match goal with E : streq _ _ = false |- _ => apply streq_neq in E end.
  destruct H as [-> | [-> | [-> | [-> | H]]]]; try done. by apply not_elem_of_nil in H.
Qed.

Lemma getItem_absent p b t : obj_lookup (key p b) (session t) = None -> getItem p b t = Ok VUndef.
Proof. unfold getItem. by intros ->. Qed.

Lemma holds_logged_out p t :
  (forall k, k ∈ own_keys p -> obj_lookup k (session t) = None) -> holds p t logged_out.
Proof.
  intros H. split; cbn; try done; try (split; constructor);
    apply getItem_absent, H; unfold own_keys; rewrite !elem_of_cons; tauto.
Qed.

Lemma own_key_in p b :
  b ∈ [u "scopedToken"; u "unscopedToken"; u "tenant"; u "tenants"] -> key p b ∈ own_keys p.
Proof. unfold own_keys. rewrite !elem_of_cons, elem_of_nil. intros [-> | [-> | [-> | [-> | []]]]]; tauto. Qed.

Lemma foreign_key p k b :
  k ∉ own_keys p -> b ∈ [u "scopedToken"; u "unscopedToken"; u "tenant"; u "tenants"] -> k <> key p b.
Proof. intros Hk Hb ->. by apply Hk, own_key_in. Qed.

(** A tab after an operation: the account it holds, and the items of others. *)
Definition saved (p : jstr) (t : tab) (a : account) (r : res tab) : Prop :=
  exists t', r = Ok t' /\ holds p t' a /\
    forall k, k ∉ own_keys p -> obj_lookup k (session t') = obj_lookup k (session t).

Lemma saveScopedToken_holds p c t a :
  json_ok c -> holds p t a -> saved p t (spec_step (OScoped c) a) (saveScopedToken p c t).
Proof.
  intros Ho [H1 H2 H3 H4 [Hnd Hsc] H6]. cbn [spec_step].
  set (n := default (u "undefined") (a_tenant a)).
  assert (Hn : units n /\ index_key n = None).
  { unfold n. destruct (a_tenant a); [exact H6|]. split; [|reflexivity].
    apply Forall_elem. intros x Hx. vm_compute in Hx. set_unfold. lia. }
  destruct (obj_set_plain (fun kv => (units kv.1 /\ json_ok kv.2) /\ index_key kv.1 = None) n c (a_scoped a))
    as (Hnd' & Hsc' & Hne); [apply Hn | cbn; tauto | done | done |].
  destruct (setItem_getItem p (u "scopedToken") (VObj (obj_set n c (a_scoped a))) t) as (t' & Ht & Hg & _ & Hf);
    [by apply plain_json_ok|].
  exists {| session := session t'; authData := c |}. split; [|split; [split|]];
    cbn [a_unscoped a_tenants a_tenant a_scoped]; try done; try same_item Hf.
  - unfold saveScopedToken, tenantName. rewrite H3. cbn [res_bind]. rewrite H4. cbn [res_bind].
    assert (E : (if truthy (match a_scoped a with [] => VUndef | o => VObj o end)
                 then (match a_scoped a with [] => VUndef | o => VObj o end) else VObj []) = VObj (a_scoped a))
      by by destruct (a_scoped a).
    rewrite E. replace (to_string _) with (Ok n) by (unfold n; by destruct (a_tenant a)).
    cbn [res_bind set_prop]. by rewrite Ht.
  - change (getItem p (u "scopedToken") t' = Ok (match obj_set n c (a_scoped a) with [] => VUndef | o => VObj o end)).
    rewrite Hg. by destruct (obj_set n c (a_scoped a)).
  - intros k Hk. apply Hf, foreign_key; [done | set_solver].
Qed.

Lemma unsetAuthData_holds p t a : saved p t (spec_step OUnset a) (Ok (unsetAuthData p t)).
Proof.
  eexists. split; [done|]. split; [apply holds_logged_out; intros; by apply obj_lookup_own|].
  intros k Hk. unfold unsetAuthData, removeItem. cbn [fold_left session own_keys]. rewrite !obj_lookup_delete.
  unfold own_keys in Hk. rewrite !not_elem_of_cons in Hk. destruct Hk as (K1 & K2 & K3 & K4 & _).
  by rewrite !(proj2 (streq_neq _ _)) by done.
Qed.

Lemma op_step_holds p o t a : op_ok o -> holds p t a -> saved p t (spec_step o a) (op_step p o t).
Proof.
  intros Ho H. destruct o as [g|l|n|c|]; cbn [op_step op_ok] in *;
    [| | |by apply saveScopedToken_holds | by eapply unsetAuthData_holds]; destruct H as [H1 H2 H3 H4 H5 H6].
  - destruct (setItem_getItem p (u "unscopedToken") g t Ho) as (t' & Ht & Hg & _ & Hf).
    exists t'. split; [exact Ht|]. split; [split|]; cbn [spec_step a_unscoped a_tenants a_tenant a_scoped];
      try done; try same_item Hf. intros k Hk. apply Hf, foreign_key; [done | set_solver].
  - destruct (setItem_getItem p (u "tenants") l t Ho) as (t' & Ht & Hg & _ & Hf).
    exists t'. split; [exact Ht|]. split; [split|]; cbn [spec_step a_unscoped a_tenants a_tenant a_scoped];
      try done; try same_item Hf. intros k Hk. apply Hf, foreign_key; [done | set_solver].
  - destruct (setItem_getItem p (u "tenant") (VStr n) t (proj1 Ho)) as (t' & Ht & Hg & _ & Hf).
    exists t'. split; [exact Ht|]. split; [split|]; cbn [spec_step a_unscoped a_tenants a_tenant a_scoped];
      try done; try same_item Hf. intros k Hk. apply Hf, foreign_key; [done | set_solver].
Qed.

Lemma run_ops_holds p os : forall t a,
  Forall op_ok os -> holds p t a -> saved p t (fold_left (fun a o => spec_step o a) os a) (run_ops p os t).
Proof.
  induction os as [|o os IH]; intros t a Hos Ha; [by exists t|].
  apply Forall_cons_iff in Hos as [Ho Hos]. destruct (op_step_holds p o t a Ho Ha) as (t1 & H1 & Ha1 & Hf1).
  destruct (IH t1 _ Hos Ha1) as (t2 & H2 & Ha2 & Hf2). exists t2.
  split; [|split; [exact Ha2 | intros k Hk; by rewrite Hf2, Hf1]].
  unfold run_ops. cbn [fold_left res_bind]. rewrite H1. exact H2.
Qed.

Lemma scoped_read_spec p t a path : holds p t a -> scoped_read p path t = spec_read path a.
Proof.
  intros [_ _ H3 H4 _ _]. unfold scoped_read, spec_read, tenantName. rewrite H3. cbn [res_bind]. rewrite H4. cbn [res_bind].
  destruct (a_scoped a) as [|kv o] eqn:E; [done|]. cbn [truthy].
  replace (to_string _) with (Ok (default (u "undefined") (a_tenant a))) by (by destruct (a_tenant a)). done.
Qed.

(** C13. The session storage implements the account: from a tab without a
    session, no sequence of saving tokens, saving tenants, selecting a tenant
    and logging out fails, and afterwards every getter of the model answers
    as the abstract account does, where each tenant keeps its own last token;
    items of the storage with other keys are left alone. *)
Theorem session_refines p os t :
  (forall k, k ∈ own_keys p -> obj_lookup k (session t) = None) -> Forall op_ok os ->
  let a := fold_left (fun a o => spec_step o a) os logged_out in
  exists t', run_ops p os t = Ok t' /\
    tenants p t' = Ok (a_tenants a) /\
    tenantName p t' = Ok (match a_tenant a with Some n => VStr n | None => VUndef end) /\
    unscopedToken p t' = spec_unscoped a /\
    (forall path, scoped_read p path t' = spec_read path a) /\
    (forall k, k ∉ own_keys p -> obj_lookup k (session t') = obj_lookup k (session t)).
Proof.
  intros Ht Hos a. destruct (run_ops_holds p os t logged_out Hos (holds_logged_out p t Ht)) as (t' & Hr & Ha & Hf).
  exists t'. split; [done|]. split; [by apply h_tenants|]. split; [by apply h_tenant|].
  split; [|split; [intros path; by apply scoped_read_spec | done]].
  unfold unscopedToken. by rewrite (h_unscoped _ _ _ Ha).
Qed.

(** A token as the server sends it. *)
Definition token (id : jstr) : value := VObj [(u "access", VObj [(u "token", VObj [(u "id", VStr id)])])].

Definition demo_ops : list op :=
  [OUnscoped (token (u "t0")); OTenant (u "red"); OScoped (token (u "t1")); OTenant (u "blue");
   OScoped (token (u "t2")); OTenant (u "red")].

Definition demo_tab : tab := {| session := [(u "x", u "y")]; authData := VUndef |}.

Lemma units_ok s : forallb (fun c => (0 <=? c) && (c <? 65536)) s = true -> units s.
Proof.
  intros H. apply Forall_elem. intros c Hc%list_elem_of_In. rewrite forallb_forall in H. specialize (H c Hc). lia.
Qed.

Lemma json_ok_one k v : units k -> json_ok v -> json_ok (VObj [(k, v)]).
Proof. intros Hk Hv. apply json_ok_obj. split; [reflexivity | by repeat constructor]. Qed.

Lemma token_ok id : units id -> json_ok (token id).
Proof. intros H. apply json_ok_one, json_ok_one, json_ok_one; [by apply units_ok..|exact H]. Qed.

Lemma session_refines_witness :
  exists t', run_ops (u "g_") demo_ops demo_tab = Ok t' /\ authToken (u "g_") t' = Ok (VStr (u "t1")) /\
    unscopedToken (u "g_") t' = Ok (VStr (u "t0")).
Proof.
  destruct (session_refines (u "g_") demo_ops demo_tab) as (t' & H1 & _ & _ & H4 & H5 & _).
  - intros k Hk. unfold own_keys in Hk. rewrite !elem_of_cons in Hk.
    destruct Hk as [-> | [-> | [-> | [-> | Hk]]]]; [reflexivity..|by apply not_elem_of_nil in Hk].
  - repeat (apply Forall_cons_2; [first [by apply token_ok, units_ok | by split; [apply units_ok|]]|]). apply Forall_nil_2.
  - exists t'. split; [exact H1|]. split; [exact (H5 _) | exact H4].
Defined.

(** ** Applications that share a storage *)

Lemma separator_unique (x y a b : jstr) : 95 ∉ a -> 95 ∉ b -> x ++ [95] ++ a = y ++ [95] ++ b -> x = y /\ a = b.
Proof.
  intros Ha Hb. revert y. induction x as [|c x IH]; intros [|d y]; cbn; intros E.
  - by injection E as ->.
  - injection E as _ E2. exfalso. apply Ha. rewrite E2. apply elem_of_app. right. by left.
  - injection E as _ E2. exfalso. apply Hb. rewrite <- E2. apply elem_of_app. right. by left.
  - injection E as -> E2. by destruct (IH y E2) as [-> ->].
Qed.

Lemma own_name_plain b : b ∈ [u "scopedToken"; u "unscopedToken"; u "tenant"; u "tenants"] -> 95 ∉ b.
Proof.
  rewrite !elem_of_cons, elem_of_nil. intros H Hin.
  destruct H as [-> | [-> | [-> | [-> | []]]]]; apply list_elem_of_In in Hin; vm_compute in Hin; lia.
Qed.

Lemma prefix_disjoint x y a b :
  x <> y -> 95 ∉ a -> 95 ∉ b -> key (storage_prefix x) a <> key (storage_prefix y) b.
Proof.
  intros Hxy Ha Hb E. unfold key, storage_prefix in E. change (u "_") with [95] in E.
  destruct x as [|c x], y as [|d y]; try done.
  - cbn [app] in E. apply Ha. rewrite E, <- app_assoc. right. apply elem_of_app. right. by left.
  - cbn [app] in E. apply Hb. rewrite <- E, <- app_assoc. right. apply elem_of_app. right. by left.
  - rewrite <- !app_assoc in E. by destruct (separator_unique _ _ _ _ Ha Hb E).
Qed.

(** Two applications with different storage prefixes do not see each
    other's session: whatever the model of one saves or clears, the model of
    the other still reads the same token, tenants and tenant. *)
Theorem prefixes_isolate x y os t t' b :
  x <> y -> Forall op_ok os -> (exists a, holds (storage_prefix x) t a) ->
  run_ops (storage_prefix x) os t = Ok t' ->
  b ∈ [u "scopedToken"; u "unscopedToken"; u "tenant"; u "tenants"] ->
  getItem (storage_prefix y) b t' = getItem (storage_prefix y) b t.
Proof.
  intros Hxy Hos [a Ha] Hr Hb. destruct (run_ops_holds _ os t a Hos Ha) as (t1 & H1 & _ & Hf).
  rewrite Hr in H1. injection H1 as <-. apply getItem_frame, Hf. intros Hin.
  unfold own_keys in Hin. rewrite !elem_of_cons, elem_of_nil in Hin.
  destruct Hin as [E | [E | [E | [E | []]]]]; symmetry in E; revert E;
    apply prefix_disjoint; try done; apply own_name_plain; set_solver.
Qed.

Definition two_apps : tab :=
  {| session := [(u "a_tenant", json_quote (u "red")); (u "b_tenant", json_quote (u "blue"))]; authData := VUndef |}.

Lemma prefixes_isolate_witness :
  exists t', run_ops (storage_prefix (u "a")) [OTenant (u "green")] two_apps = Ok t' /\
    getItem (storage_prefix (u "a")) (u "tenant") t' = Ok (VStr (u "green")) /\
    getItem (storage_prefix (u "b")) (u "tenant") t' = Ok (VStr (u "blue")).
Proof.
  eexists. split; [reflexivity|]. split; [reflexivity|].
  rewrite (prefixes_isolate (u "a") (u "b") [OTenant (u "green")] two_apps); [reflexivity | discriminate | | | reflexivity |].
  - apply Forall_cons_2; [split; [by apply units_ok | reflexivity] | apply Forall_nil_2].
  - exists (Build_account VUndef VUndef (Some (u "red")) []).
    split; try reflexivity; cbn; [split; constructor | split; [by apply units_ok | reflexivity]].
  - do 2 right. by left.
Defined.

(** ** Logging in *)

(** The whole login of a user with the answers [g], [c] and [a] of the server,
    for the tenant [n]. *)
Definition log_in (p username password : jstr) (g c : value) (n : jstr) (a : value) (t : tab) : res tab :=
  o <-? login p username password t;
  t <-? match o with
        | Resolved _ => Ok t
        | Requests _ => '(t, _) <-? login_success p g t; '(t, _) <-? tenants_success p c t; Ok t
        end;
  '(t, _) <-? loginTenant p (VStr n) t;
  parse p a t.

(** Logging in. Without a session, the requests carry the credentials,
    and once the server has answered, the model has the token of the tenant
    and the tenants the server listed. When tenants are left in the session,
    the credentials are not sent at all: the login goes on with the token of
    the earlier user. *)
Theorem log_in_result p username password g c n a l id t acc :
  holds p t acc -> json_ok g -> json_ok a -> units n -> index_key n = None ->
  get_path g [u "access"; u "token"; u "id"] = Ok id -> truthy g = true ->
  get_prop c (u "tenants") = Ok l -> json_ok l -> truthy a = true ->
  (truthy (a_tenants acc) = true -> exists id', spec_unscoped acc = Ok id') ->
  exists t', log_in p username password g c n a t = Ok t' /\
    tenantName p t' = Ok (VStr n) /\ authToken p t' = get_path a [u "access"; u "token"; u "id"] /\
    (if truthy (a_tenants acc)
     then unscopedToken p t' = spec_unscoped acc /\ tenants p t' = Ok (a_tenants acc)
     else unscopedToken p t' = Ok id /\ tenants p t' = Ok l).
Proof.
  intros Ht Hg Ha Hn Hi Hid Htg Hc Hl Hta Hold.
  assert (Hfin : forall t1 acc1 id1, holds p t1 acc1 -> spec_unscoped acc1 = Ok id1 ->
            exists t', ('(t2, _) <-? loginTenant p (VStr n) t1; parse p a t2) = Ok t' /\
              tenantName p t' = Ok (VStr n) /\ authToken p t' = get_path a [u "access"; u "token"; u "id"] /\
              unscopedToken p t' = Ok id1 /\ tenants p t' = Ok (a_tenants acc1)).
  { intros t1 acc1 id1 H1 Hid1.
    destruct (op_step_holds p (OTenant n) t1 acc1 (conj Hn Hi) H1) as (t2 & E2 & H2 & _).
    destruct (saveScopedToken_holds p a t2 _ Ha H2) as (t3 & E3 & H3 & _). exists t3.
    assert (Hu : forall t acc, holds p t acc -> unscopedToken p t = spec_unscoped acc)
      by (intros ? ? H; unfold unscopedToken; by rewrite (h_unscoped _ _ _ H)).
    split; [|split; [exact (h_tenant _ _ _ H3)|split; [|split; [|exact (h_tenants _ _ _ H3)]]]].
    - unfold loginTenant. rewrite (Hu _ _ H1), Hid1. cbn [res_bind]. cbn [op_step] in E2. rewrite E2. exact E3.
    - unfold authToken. rewrite (scoped_read_spec _ _ _ _ H3). unfold spec_read. cbn [spec_step a_tenant a_scoped default].
      unfold obj_get. rewrite obj_lookup_set_eq. cbn [default]. change (Datatypes.id a) with a. by rewrite Hta.
    - by rewrite (Hu _ _ H3). }
  unfold log_in, login. unfold tenants at 1. rewrite (h_tenants _ _ _ Ht). cbn [res_bind].
  destruct (truthy (a_tenants acc)) eqn:E; cbn [res_bind].
  - destruct (Hold eq_refl) as (id' & Hid'). destruct (Hfin t acc id' Ht Hid') as (t' & H1 & H2 & H3 & H4 & H5).
    exists t'. rewrite Hid'. done.
  - destruct (op_step_holds p (OUnscoped g) t acc Hg Ht) as (t1 & E1 & H1 & _).
    destruct (op_step_holds p (OTenants l) t1 _ Hl H1) as (t2 & E2 & H2 & _).
    assert (Hid1 : unscopedToken p t1 = Ok id).
    { unfold unscopedToken. rewrite (h_unscoped _ _ _ H1). cbn [spec_step a_unscoped res_bind]. by rewrite Htg. }
    destruct (Hfin t2 _ id H2) as (t' & F1 & F2 & F3 & F4 & F5).
    { unfold spec_unscoped. cbn [spec_step a_unscoped]. by rewrite Htg. }
    exists t'. split; [|done]. unfold login_success, tenants_success. cbn [op_step] in E1, E2.
    rewrite E1. cbn [res_bind]. rewrite Hid1. cbn [res_bind]. rewrite Hc. cbn [res_bind]. rewrite E2. exact F1.
Qed.

Definition demo_tenants : value := VArr [VObj [(u "name", VStr (u "red"))]].

Lemma log_in_result_witness :
  exists t', log_in (u "g_") (u "ann") (u "pw") (token (u "t0")) (VObj [(u "tenants", demo_tenants)]) (u "red")
               (token (u "t1")) demo_tab = Ok t' /\
    authToken (u "g_") t' = Ok (VStr (u "t1")) /\ unscopedToken (u "g_") t' = Ok (VStr (u "t0")).
Proof.
  destruct (log_in_result (u "g_") (u "ann") (u "pw") (token (u "t0")) (VObj [(u "tenants", demo_tenants)]) (u "red")
              (token (u "t1")) demo_tenants (VStr (u "t0")) demo_tab logged_out)
    as (t' & H1 & _ & H3 & H4 & _); try reflexivity; try (by apply token_ok, units_ok); try by apply units_ok.
  - apply holds_logged_out. intros k Hk. unfold own_keys in Hk. rewrite !elem_of_cons in Hk.
    destruct Hk as [-> | [-> | [-> | [-> | Hk]]]]; [reflexivity..|by apply not_elem_of_nil in Hk].
  - split; [|exact I]. apply json_ok_one; by apply units_ok.
  - discriminate.
  - exists t'. split; [exact H1|]. split; [exact H3 | exact H4].
Defined.
