(* ===== verification/SessionTabs.v ===== *)
(** The tabs of a browser that share a session: each runs a [UserModel], and
    they talk through storage events of the local storage they have in common.
    A new tab asks for the session and a tab that has one answers with it; a
    tab that logs out tells the others to. *)

From Stdlib Require Import ZArith Lia List String Bool.
From stdpp Require Import base list sets list_numbers tactics.
From S2P Require Import Prelude JsNum Js Json UserModel.

(** ** The browser *)

(** A storage event for a tab: the key and the new value. *)
Record storage_event := { e_tab : nat; e_key : jstr; e_value : option jstr }.

#[export] Instance storage_event_eq_dec : EqDecision storage_event.
Proof. solve_decision. Defined.

(** The tabs, the local storage, the storage events to be handled, oldest
    first, and for each timer the tab that set it and the keys it removes. *)
Record browser := {
  tabs : list tab;
  local : storage;
  events : list storage_event;
  pending : list (nat * list jstr)
}.

(** The other tabs hear of a change. *)
Definition notify (i : nat) (k : jstr) (v : option jstr) (b : browser) : list storage_event :=
  map (fun j => Build_storage_event j k v) (List.filter (fun j => negb (Nat.eqb j i)) (seq 0 (length (tabs b)))).

(** [localStorage.setItem] in tab [i]: without a change there is no event. *)
Definition local_set (i : nat) (k v : jstr) (b : browser) : browser :=
  if bool_decide (obj_lookup k (local b) = Some v) then b
  else Build_browser (tabs b) (obj_set k v (local b)) (events b ++ notify i k (Some v) b) (pending b).

Definition local_remove (i : nat) (b : browser) (k : jstr) : browser :=
  match obj_lookup k (local b) with
  | None => b
  | Some _ => Build_browser (tabs b) (obj_delete k (local b)) (events b ++ notify i k None b) (pending b)
  end.

(** [setTimeout] of a function that removes keys of the local storage. *)
Definition remove_later (i : nat) (ks : list jstr) (b : browser) : browser :=
  Build_browser (tabs b) (local b) (events b) (pending b ++ [(i, ks)]).

Definition with_tab (i : nat) (t : tab) (b : browser) : browser :=
  Build_browser (<[i := t]> (tabs b)) (local b) (events b) (pending b).

Section Tabs.
Context (storagePrefix : jstr).

Definition get_key : jstr := key storagePrefix (u "getSessionStorage").
Definition session_key : jstr := key storagePrefix (u "sessionStorage").
Definition clear_key : jstr := key storagePrefix (u "clearSessionStorage").

(** [unsetAuthData] of the model in tab [i]. *)
Definition logout (i : nat) (b : browser) : browser :=
  match tabs b !! i with
  | None => b
  | Some t => with_tab i (unsetAuthData storagePrefix t) (remove_later i [clear_key] (local_set i clear_key (u "true") b))
  end.

(** The model of a new tab asks for a session when it has none. *)
Definition open_tab (t : tab) (b : browser) : browser :=
  let i := length (tabs b) in
  let b := Build_browser (tabs b ++ [t]) (local b) (events b) (pending b) in
  match session t with
  | [] => remove_later i [get_key] (local_set i get_key (u "true") b)
  | _ => b
  end.

(** [JSON.stringify(sessionStorage)]. *)
Definition session_text (s : storage) : res jstr :=
  r <-? stringify (VObj (map (fun kv => (kv.1, VStr kv.2)) s)); Ok (default (u "undefined") r).

(** [for (let c in b) sessionStorage.setItem(c, b[c])]. *)
Definition copy_session (b : value) (s : storage) : res storage :=
  fold_left (fun r kv => s <-? r; x <-? to_string kv.2; Ok (obj_set kv.1 x s)) (own_props b) (Ok s).

(** A tab without a session takes the one it is sent; what an exception
    leaves undone is left undone. *)
Definition take_session (v : jstr) (t : tab) : tab :=
  match d <-? parse_json v; s <-? copy_session d (session t); Ok (d, s) with
  | Err _ => t
  | Ok (d, s) =>
      match tok <-? get_prop d (key storagePrefix (u "unscopedToken"));
            if truthy tok then x <-? to_string tok; parse_json x else Ok (authData t) with
      | Ok auth => {| session := s; authData := auth |}
      | Err _ => {| session := s; authData := authData t |}
      end
  end.

(** [sessionStorageTransfer], the handler of the storage event [a]. *)
Definition sessionStorageTransfer (a : storage_event) (b : browser) : browser :=
  let i := e_tab a in
  match tabs b !! i, e_value a with
  | Some t, Some (c :: v) =>
      if streq (e_key a) get_key then
        match session_text (session t) with
        | Ok x => remove_later i [session_key; get_key] (local_set i session_key x b)
        | Err _ => b
        end
      else if streq (e_key a) session_key && bool_decide (session t = []) then
        with_tab i (take_session (c :: v) t) b
      else if streq (e_key a) clear_key then logout i b
      else b
  | _, _ => b
  end.

(** ** Steps *)

Inductive action :=
| AOpen                          (* a tab is opened *)
| ALogout (i : nat)              (* the user logs out in a tab *)
| ADeliver (i : nat)             (* the oldest event for tab [i] is handled *)
| ATimer (n : nat).              (* the [n]-th timer fires *)

Definition new_tab : tab := {| session := []; authData := VUndef |}.

(** The first event for a tab, and the others. *)
Fixpoint take_event (i : nat) (l : list storage_event) : option (storage_event * list storage_event) :=
  match l with
  | [] => None
  | e :: l => if Nat.eqb (e_tab e) i then Some (e, l)
              else match take_event i l with Some (x, l) => Some (x, e :: l) | None => None end
  end.

Definition step (a : action) (b : browser) : option browser :=
  match a with
  | AOpen => Some (open_tab new_tab b)
  | ALogout i => Some (logout i b)
  | ADeliver i =>
      match take_event i (events b) with
      | Some (e, l) => Some (sessionStorageTransfer e (Build_browser (tabs b) (local b) l (pending b)))
      | None => None
      end
  | ATimer n =>
      match pending b !! n with
      | Some (i, ks) =>
          Some (fold_left (local_remove i) ks
                  (Build_browser (tabs b) (local b) (events b) (take n (pending b) ++ drop (S n) (pending b))))
      | None => None
      end
  end.

Fixpoint steps (l : list action) (b : browser) : option browser :=
  match l with
  | [] => Some b
  | a :: l => b ← step a b; steps l b
  end.

(** A browser in which nothing is to happen. *)
Definition quiet (ts : list tab) : browser := Build_browser ts [] [] [].

(** * Properties *)

(** ** A new tab takes over the session *)

Definition session_ok (s : storage) : Prop :=
  insertion_order (map (fun kv => (kv.1, VStr kv.2)) s) /\ Forall (fun kv => units kv.1 /\ units kv.2) s.

(** Inserting the items of a session gives the session. *)
Lemma fold_obj_set_map {A B} (f : A -> B) (o acc : list (jstr * A)) :
  fold_left (fun acc kv => obj_set kv.1 kv.2 acc) (map (fun kv => (kv.1, f kv.2)) o) (map (fun kv => (kv.1, f kv.2)) acc)
  = map (fun kv => (kv.1, f kv.2)) (fold_left (fun acc kv => obj_set kv.1 kv.2 acc) o acc).
Proof.
  revert acc. induction o as [|[k v] o IH]; intros acc; cbn [map fold_left fst snd]; [done|]. rewrite <- IH. f_equal.
  unfold obj_set, obj_has.
  assert (L : obj_lookup k (map (fun kv => (kv.1, f kv.2)) acc) = f <$> obj_lookup k acc).
  { induction acc as [|[k' v'] acc IHa]; cbn; [done|]. by destruct (streq k k'). }
  rewrite L. destruct (obj_lookup k acc); cbn.
  - clear L. induction acc as [|[k' v'] acc IHa]; cbn; [done|]. destruct (streq k k'); cbn; [done | by rewrite IHa].
  - clear L. induction acc as [|[k' v'] acc IHa]; cbn; [done|].
    destruct (index_key k) as [x|], (index_key k') as [y|]; cbn; try (by rewrite IHa); try done.
    destruct (x <? y); cbn; [done | by rewrite IHa].
Qed.

Lemma copy_session_ok s : session_ok s -> copy_session (VObj (map (fun kv => (kv.1, VStr kv.2)) s)) [] = Ok s.
Proof.
  intros [Ho _]. unfold copy_session. cbn [own_props].
  assert (E : forall l acc, fold_left (fun r kv => s <-? r; x <-? to_string kv.2; Ok (obj_set kv.1 x s))
                              (map (fun kv : jstr * jstr => (kv.1, VStr kv.2)) l) (Ok acc)
                            = Ok (fold_left (fun acc kv => obj_set kv.1 kv.2 acc) l acc)).
  { induction l as [|[k v] l IH]; intros acc; cbn; [done | apply IH]. }
  rewrite E. f_equal. unfold insertion_order in Ho. pose proof (fold_obj_set_map VStr s []) as H. cbn [map] in H.
  rewrite Ho in H. apply (f_equal (map (fun kv => (kv.1, match kv.2 with VStr x => x | _ => [] end)))) in H.
  rewrite !map_map in H. cbn in H.
  rewrite !(map_ext (fun x : jstr * jstr => (x.1, x.2)) id) in H by (by intros []). by rewrite !map_id in H.
Qed.

Lemma session_text_ok s : s <> [] -> session_ok s ->
  exists c x, session_text s = Ok (c :: x) /\ parse_json (c :: x) = Ok (VObj (map (fun kv => (kv.1, VStr kv.2)) s)).
Proof.
  intros Hne [Ho Hu]. destruct (parse_stringify (VObj (map (fun kv => (kv.1, VStr kv.2)) s))) as (x & Hx & Hn & Hp).
  { apply json_ok_obj. split; [done|]. apply Forall_map. eapply Forall_impl; [|exact Hu]. by intros kv [? ?]. }
  destruct x as [|c x]; [done|]. exists c, x. split; [|done]. unfold session_text. by rewrite Hx.
Qed.

Lemma take_session_ok s c x t :
  session_text s = Ok (c :: x) -> parse_json (c :: x) = Ok (VObj (map (fun kv => (kv.1, VStr kv.2)) s)) ->
  session_ok s -> session t = [] -> session (take_session (c :: x) t) = s.
Proof.
  intros _ Hp Hs Ht. unfold take_session. rewrite Hp. cbn [res_bind]. rewrite Ht, copy_session_ok by done. cbn [res_bind].
  by destruct (tok <-? _; _).
Qed.

(** The event of a change for one of the other tabs. *)
Lemma take_event_app i l1 l2 e l :
  (forall e, e ∈ l1 -> e_tab e <> i) -> take_event i l2 = Some (e, l) -> take_event i (l1 ++ l2) = Some (e, l1 ++ l).
Proof.
  intros H1 H2. induction l1 as [|x l1 IH]; cbn; [done|].
  rewrite (proj2 (Nat.eqb_neq _ _)) by (apply H1; left). rewrite IH; [done|]. intros y Hy. apply H1. by right.
Qed.

Lemma take_event_seq i k v f a n :
  (a <= i < a + n)%nat -> f i = true ->
  exists l1 l2, take_event i (map (fun j => Build_storage_event j k v) (List.filter f (seq a n)))
                = Some (Build_storage_event i k v, l1 ++ l2)
    /\ map (fun j => Build_storage_event j k v) (List.filter f (seq a n)) = l1 ++ Build_storage_event i k v :: l2
    /\ (forall e, e ∈ l1 ++ l2 -> e_tab e <> i /\ f (e_tab e) = true /\ e_key e = k).
Proof.
  revert a. induction n as [|n IH]; intros a Ha Hi; [lia|]. cbn [seq List.filter].
  destruct (decide (a = i)) as [-> | Hne].
  - rewrite Hi. cbn [map take_event e_tab]. rewrite Nat.eqb_refl. exists []. eexists. split; [done|]. split; [done|].
    intros e He. cbn in He. apply list_elem_of_fmap in He as (j & -> & Hj). cbn.
    apply list_elem_of_In, filter_In in Hj as [Hj Hf]. apply in_seq in Hj. split; [lia | done].
  - destruct (IH (S a) ltac:(lia) Hi) as (l1 & l2 & H1 & H2 & H3). destruct (f a) eqn:Ea; [|by exists l1, l2].
    cbn [map take_event e_tab]. rewrite (proj2 (Nat.eqb_neq _ _)) by done. rewrite H1.
    exists (Build_storage_event a k v :: l1), l2. split; [done|]. split; [by rewrite H2|].
    intros e He. cbn in He. apply elem_of_cons in He as [-> | He]; [done | by apply H3].
Qed.

(** C18. A tab that is opened takes over the session of a tab that answers it:
    its session storage has the same items, so every getter of its model
    answers as in that tab, and no other tab changes. *)
Theorem open_tab_takes_session ts i t :
  ts !! i = Some t -> session t <> [] -> session_ok (session t) ->
  exists b t', steps [AOpen; ADeliver i; ADeliver (length ts)] (quiet ts) = Some b /\
    tabs b = ts ++ [t'] /\ session t' = session t /\
    (forall a, getItem storagePrefix a t' = getItem storagePrefix a t) /\
    (forall path, scoped_read storagePrefix path t' = scoped_read storagePrefix path t).
Proof.
  intros Hi Hne Hs. pose proof (lookup_lt_Some _ _ _ Hi) as Hlt.
  destruct (session_text_ok _ Hne Hs) as (c & x & Hx & Hp).
  set (n := length ts) in *. set (t' := take_session (c :: x) new_tab).
  assert (Hsn : session t' = session t) by (by apply take_session_ok).
  set (b1 := remove_later n [get_key] (Build_browser (ts ++ [new_tab]) [(get_key, u "true")]
                 (notify n get_key (Some (u "true")) (Build_browser (ts ++ [new_tab]) [] [] [])) [])).
  assert (H1 : step AOpen (quiet ts) = Some b1) by done.
  assert (Hlen : length (ts ++ [new_tab]) = S n) by (rewrite length_app; cbn; lia).
  destruct (take_event_seq i get_key (Some (u "true")) (fun j => negb (Nat.eqb j n)) 0 (S n)) as (l1 & l2 & E1 & _ & E3);
    [lia | by rewrite (proj2 (Nat.eqb_neq _ _)) by lia |].
  assert (Hgs : streq session_key get_key = false).
  { apply streq_neq. intros E%key_inj. vm_compute in E. congruence. }
  destruct (take_event_seq n session_key (Some (c :: x)) (fun j => negb (Nat.eqb j i)) 0 (S n)) as (m1 & m2 & F1 & _ & _);
    [lia | by rewrite (proj2 (Nat.eqb_neq _ _)) by lia |].
  set (b2 := remove_later i [session_key; get_key]
               (Build_browser (ts ++ [new_tab]) (obj_set session_key (c :: x) [(get_key, u "true")])
                  ((l1 ++ l2) ++ notify i session_key (Some (c :: x)) (Build_browser (ts ++ [new_tab]) [] [] []))
                  (pending b1))).
  assert (H2 : step (ADeliver i) b1 = Some b2).
  { unfold b1. cbn [step remove_later events tabs local pending]. unfold notify at 1. cbn [tabs]. rewrite Hlen, E1.
    unfold sessionStorageTransfer. cbn [e_tab e_value e_key tabs]. rewrite lookup_app_l, Hi by done.
    change (u "true") with (116 :: u "rue"). cbn iota. rewrite streq_refl, Hx. unfold local_set. cbn [local].
    cbn [obj_lookup]. rewrite Hgs. rewrite bool_decide_eq_false_2 by done. done. }
  exists (with_tab n t' (Build_browser (tabs b2) (local b2) ((l1 ++ l2) ++ m1 ++ m2) (pending b2))), t'.
  split; [|split; [|split; [exact Hsn|split]]].
  - cbn [steps mbind option_bind]. rewrite H1. cbn [mbind option_bind]. rewrite H2. cbn [mbind option_bind].
    unfold b2 at 1 2 3 4. cbn [step remove_later events tabs local pending]. unfold notify. cbn [tabs]. rewrite Hlen.
    rewrite (take_event_app n (l1 ++ l2) _ _ _ (fun e He => ltac:(
      destruct (E3 e He) as (_ & Hn & _); intros He'; by rewrite He', Nat.eqb_refl in Hn)) F1).
    unfold sessionStorageTransfer. cbn [e_tab e_value e_key tabs]. rewrite lookup_app_r by lia.
    replace (n - length ts)%nat with 0%nat by lia. cbn [lookup list_lookup]. rewrite Hgs, streq_refl. done.
  - cbn [with_tab tabs b2 remove_later]. unfold n. by rewrite insert_app_r_alt, Nat.sub_diag by lia.
  - intros a. unfold getItem. by rewrite Hsn.
  - intros path. unfold scoped_read, tenantName, getItem. by rewrite Hsn.
Qed.

(** ** Logging out of all tabs *)

Definition clear_event (j : nat) : storage_event := Build_storage_event j clear_key (Some (u "true")).

Definition signed_out (t : tab) : Prop := forall k, k ∈ own_keys storagePrefix -> obj_lookup k (session t) = None.

(** An event that neither asks for a session nor brings one. *)
Definition calm (e : storage_event) : Prop := e_value e = None \/ (e_key e <> get_key /\ e_key e <> session_key).

Lemma clear_key_calm v j : calm (Build_storage_event j clear_key v).
Proof. right. split; intros E%key_inj; vm_compute in E; congruence. Qed.

Lemma notify_calm i k v b : (forall j, calm (Build_storage_event j k v)) -> Forall calm (notify i k v b).
Proof. intros H. apply Forall_map, Forall_elem. intros j _. apply H. Qed.

Lemma notify_elem i k v b j : (j < length (tabs b))%nat -> j <> i -> Build_storage_event j k v ∈ notify i k v b.
Proof.
  intros Hj Hne. apply list_elem_of_fmap. exists j. split; [done|].
  apply list_elem_of_In, filter_In. split; [apply in_seq; lia | by rewrite (proj2 (Nat.eqb_neq _ _))].
Qed.

Lemma notify_other i k v b e : e ∈ notify i k v b -> e_tab e <> i.
Proof.
  intros (j & -> & Hj)%list_elem_of_fmap. apply list_elem_of_In, filter_In in Hj as [_ Hj]. cbn. intros ->. by rewrite Nat.eqb_refl in Hj.
Qed.

(** What a step of tab [i] adds to the events: calm ones, for other tabs. *)
Definition adds (i : nat) (b b' : browser) : Prop :=
  exists ex, events b' = events b ++ ex /\ Forall calm ex /\ Forall (fun e => e_tab e <> i) ex.

Lemma adds_refl i b b' : events b' = events b -> adds i b b'.
Proof. intros He. exists []. by rewrite app_nil_r. Qed.

Lemma adds_trans i b b1 b2 : adds i b b1 -> adds i b1 b2 -> adds i b b2.
Proof.
  intros (x & Hx & ? & ?) (y & Hy & ? & ?). exists (x ++ y). rewrite Hy, Hx, app_assoc. repeat split; by apply Forall_app.
Qed.

Lemma notify_adds i k v b b' :
  (forall j, calm (Build_storage_event j k v)) -> events b' = events b ++ notify i k v b -> adds i b b'.
Proof.
  intros Hc He. exists (notify i k v b). split; [done|]. split; [by apply notify_calm|].
  apply Forall_elem. intros e. apply notify_other.
Qed.

Lemma local_remove_adds i k b : adds i b (local_remove i b k) /\ tabs (local_remove i b k) = tabs b.
Proof.
  unfold local_remove. destruct (obj_lookup k (local b)); [|split; [by apply adds_refl | done]].
  split; [|done]. eapply notify_adds; [|done]. by left.
Qed.

Lemma logout_adds i b : adds i b (logout i b) /\ length (tabs (logout i b)) = length (tabs b).
Proof.
  unfold logout. destruct (tabs b !! i) as [t|]; [|split; [by apply adds_refl | done]].
  unfold with_tab, remove_later, local_set. cbn [tabs]. case_goal; cbn [tabs].
  - split; [by apply adds_refl | by rewrite length_insert].
  - split; [|by rewrite length_insert]. eapply notify_adds; [|done]. apply clear_key_calm.
Qed.

Lemma logout_tabs i b j t' : tabs (logout i b) !! j = Some t' -> (j = i /\ signed_out t') \/ (j <> i /\ tabs b !! j = Some t').
Proof.
  unfold logout. destruct (tabs b !! i) as [t|] eqn:Ei.
  - replace (tabs (with_tab _ _ _)) with (<[i := unsetAuthData storagePrefix t]> (tabs b)) by (unfold local_set; by case_goal).
    destruct (decide (j = i)) as [-> | Hne]; [|rewrite list_lookup_insert_ne by done; by right].
    rewrite list_lookup_insert_eq by by eapply lookup_lt_Some. intros [= <-]. left. split; [done|]. intros k Hk. by apply obj_lookup_own.
  - intros Hj. right. split; [|done]. intros ->. by rewrite Ei in Hj.
Qed.

Lemma logout_tells i b j t :
  tabs b !! i = Some t -> obj_lookup clear_key (local b) <> Some (u "true") -> (j < length (tabs b))%nat -> j <> i ->
  clear_event j ∈ events (logout i b).
Proof.
  intros Hi Hl Hj Hne. unfold logout. rewrite Hi. unfold local_set. rewrite bool_decide_eq_false_2 by done. cbn [with_tab remove_later events].
  apply elem_of_app. right. by apply notify_elem.
Qed.

(** A calm event is not answered, unless it tells of a logout. *)
Lemma transfer_calm e b : calm e -> sessionStorageTransfer e b = b \/ sessionStorageTransfer e b = logout (e_tab e) b.
Proof.
  intros Hc. unfold sessionStorageTransfer. destruct (tabs b !! e_tab e), (e_value e) as [[|c v]|] eqn:Ev; try by left.
  destruct Hc as [Hc | [H1 H2]]; [congruence|]. rewrite !(proj2 (streq_neq _ _)) by done. cbn [andb]. case_goal; [by right | by left].
Qed.

Lemma transfer_clear b j : sessionStorageTransfer (clear_event j) b = logout j b.
Proof.
  unfold sessionStorageTransfer, clear_event. cbn [e_tab e_value e_key]. destruct (tabs b !! j) eqn:Ej; [|unfold logout; by rewrite Ej].
  change (u "true") with (116 :: u "rue") at 1. cbn iota. destruct (clear_key_calm (Some []) 0) as [H | [H1 H2]]; [done|].
  rewrite !(proj2 (streq_neq _ _)) by done. by rewrite streq_refl.
Qed.

Lemma take_event_some i l e l' : take_event i l = Some (e, l') ->
  e_tab e = i /\ l ≡ₚ e :: l' /\ List.filter (fun e => Nat.eqb (e_tab e) i) l = e :: List.filter (fun e => Nat.eqb (e_tab e) i) l'.
Proof.
  revert e l'. induction l as [|x l IH]; intros e l'; [done|]. cbn [take_event List.filter].
  destruct (Nat.eqb_spec (e_tab x) i) as [Hx | Hx]; [by intros [= <- <-]|].
  destruct (take_event i l) as [[y l1]|]; [|done]. intros [= <- <-]. destruct (IH y l1 eq_refl) as (H1 & H2 & H3).
  split; [done|]. split; [rewrite H2; apply Permutation_swap|]. cbn [List.filter]. rewrite (proj2 (Nat.eqb_neq _ _)) by done. exact H3.
Qed.

Lemma take_event_none i l : take_event i l = None -> List.filter (fun e => Nat.eqb (e_tab e) i) l = [].
Proof. induction l as [|x l IH]; [done|]. cbn. destruct (Nat.eqb _ _); [done|]. destruct (take_event i l) as [[]|]; [done | by intros _; apply IH]. Qed.

(** After a logout, until a tab is opened: nobody has a session on its way,
    and a tab that has not signed out will hear of the logout. *)
Record leaving (b : browser) : Prop := {
  ok_calm : Forall calm (events b);
  ok_told : forall j t, tabs b !! j = Some t -> signed_out t \/ clear_event j ∈ events b
}.

Lemma leaving_adds i b b' : adds i b b' -> tabs b' = tabs b -> leaving b -> leaving b'.
Proof.
  intros (ex & He & Hc & _) Ht [H1 H2]. split; [rewrite He; by apply Forall_app|]. intros j t. rewrite Ht, He. intros Hj.
  destruct (H2 j t Hj); [by left | right; apply elem_of_app; by left].
Qed.

Lemma leaving_logout i b : Forall calm (events b) ->
  (forall j t, tabs b !! j = Some t -> j <> i -> signed_out t \/ clear_event j ∈ events b) -> leaving (logout i b).
Proof.
  intros H1 H2. destruct (logout_adds i b) as [(ex & He & Hc & _) _]. split; [rewrite He; by apply Forall_app|].
  intros j t Hj. destruct (logout_tabs i b j t Hj) as [[_ ?] | [Hne Hj']]; [by left|].
  destruct (H2 j t Hj' Hne); [by left | right]. rewrite He. apply elem_of_app. by left.
Qed.

Lemma leaving_deliver i e l b : take_event i (events b) = Some (e, l) -> leaving b ->
  leaving (sessionStorageTransfer e (Build_browser (tabs b) (local b) l (pending b))).
Proof.
  intros (Hi & Hp & _)%take_event_some [H1 H2]. rewrite Hp in H1. apply Forall_cons_iff in H1 as [He H1].
  set (b0 := Build_browser (tabs b) (local b) l (pending b)).
  assert (Ho : forall j t, tabs b !! j = Some t -> e <> clear_event j -> signed_out t \/ clear_event j ∈ l).
  { intros j t Hj Hne. destruct (H2 j t Hj) as [? | Hin]; [by left | right]. rewrite Hp in Hin. by apply elem_of_cons in Hin as [? | ?]; [subst|]. }
  destruct (decide (e = clear_event i)) as [-> | Hne].
  - rewrite transfer_clear. apply leaving_logout; [done|]. intros j t Hj Hne. apply Ho; [done|]. intros E. by injection E.
  - assert (Hne' : forall j, e <> clear_event j) by (intros j ->; cbn in Hi; by subst).
    destruct (transfer_calm e b0 He) as [-> | ->]; [split; [done|]; intros j t Hj; by apply Ho|].
    apply leaving_logout; [done|]. intros j t Hj _. by apply Ho.
Qed.

Lemma leaving_timer i ks : forall b, leaving b ->
  leaving (fold_left (local_remove i) ks b) /\ length (tabs (fold_left (local_remove i) ks b)) = length (tabs b).
Proof.
  induction ks as [|k ks IH]; intros b Hb; [done|]. cbn [fold_left]. destruct (local_remove_adds i k b) as [Ha Ht].
  rewrite <- Ht. apply IH. by eapply leaving_adds.
Qed.

Definition opens (a : action) : Prop := match a with AOpen => True | _ => False end.

Lemma transfer_length e b : calm e -> length (tabs (sessionStorageTransfer e b)) = length (tabs b).
Proof. intros He. destruct (transfer_calm e b He) as [-> | ->]; [done | apply logout_adds]. Qed.

Lemma leaving_step a b b' : leaving b -> ~ opens a -> step a b = Some b' -> leaving b' /\ length (tabs b') = length (tabs b).
Proof.
  intros Hb Ha. destruct a as [|i|i|n]; cbn [step]; [by destruct Ha|..].
  - intros [= <-]. split; [|apply logout_adds]. apply leaving_logout; [apply Hb|]. intros j t Hj _. by apply Hb.
  - destruct (take_event i (events b)) as [[e l]|] eqn:E; [|done]. intros [= <-]. split; [by eapply leaving_deliver|].
    rewrite transfer_length; [done|]. apply take_event_some in E as (_ & Hp & _). destruct Hb as [Hc _]. rewrite Hp in Hc. by apply Forall_cons_iff in Hc as [? _].
  - destruct (pending b !! n) as [[i ks]|]; [|done]. intros [= <-]. apply (leaving_timer i ks (Build_browser _ _ _ _)). by split; apply Hb.
Qed.

Lemma leaving_steps l : forall b b', leaving b -> Forall (fun a => ~ opens a) l -> steps l b = Some b' ->
  leaving b' /\ length (tabs b') = length (tabs b).
Proof.
  induction l as [|a l IH]; intros b b' Hb Hl; cbn [steps]; [by intros [= <-]|]. apply Forall_cons_iff in Hl as [Ha Hl].
  destruct (step a b) as [b1|] eqn:E; cbn; [|done]. intros Hs. destruct (leaving_step _ _ _ Hb Ha E) as [Hb1 <-]. by apply IH.
Qed.

(** The events for a tab are handled one after the other, and handling them adds none for it. *)
Lemma deliver_pending j q : forall b, Forall calm (events b) -> List.filter (fun e => Nat.eqb (e_tab e) j) (events b) = q ->
  clear_event j ∈ q -> (j < length (tabs b))%nat ->
  exists n b' t, steps (repeat (ADeliver j) n) b = Some b' /\ tabs b' !! j = Some t /\ signed_out t.
Proof.
  induction q as [|e q IH]; intros b Hc Hq Hin Hj; [by apply not_elem_of_nil in Hin|].
  destruct (take_event j (events b)) as [[e' l]|] eqn:E; [|apply take_event_none in E; congruence].
  apply take_event_some in E as E'. destruct E' as (He & Hp & Hf). rewrite Hq in Hf. injection Hf as <- Hf.
  rewrite Hp in Hc. apply Forall_cons_iff in Hc as [Hce Hc].
  set (b0 := Build_browser (tabs b) (local b) l (pending b)).
  assert (Hs : step (ADeliver j) b = Some (sessionStorageTransfer e b0)) by (cbn [step]; by rewrite E).
  destruct (decide (e = clear_event j)) as [-> | Hne].
  - exists 1%nat, (logout j b0). rewrite transfer_clear in Hs. cbn [repeat steps mbind option_bind]. rewrite Hs.
    destruct (lookup_lt_is_Some_2 (tabs (logout j b0)) j) as (t & Ht); [by rewrite (proj2 (logout_adds j b0))|].
    exists t. split; [done|]. split; [done|]. by destruct (logout_tabs j b0 j t Ht) as [[_ ?] | [? _]].
  - apply elem_of_cons in Hin as [<- | Hin]; [done|].
    assert (Ha : adds j b0 (sessionStorageTransfer e b0)).
    { destruct (transfer_calm e b0 Hce) as [-> | ->]; [by apply adds_refl | rewrite He; apply logout_adds]. }
    destruct Ha as (ex & Hex & Hcx & Hox).
    destruct (IH (sessionStorageTransfer e b0)) as (n & b' & t & Hn & Ht & Hso).
    + rewrite Hex. by apply Forall_app.
    + rewrite Hex, List.filter_app. cbn [events b0]. rewrite <- Hf. enough (List.filter (fun e => Nat.eqb (e_tab e) j) ex = []) as -> by apply app_nil_r.
      clear -Hox. induction Hox as [|x ex Hx _ IH]; [done|]. cbn. by rewrite (proj2 (Nat.eqb_neq _ _)).
    + done.
    + by rewrite transfer_length.
    + exists (S n), b', t. cbn [repeat steps mbind option_bind]. by rewrite Hs.
Qed.

Lemma signed_out_token t : signed_out t -> authToken storagePrefix t = Ok VUndef.
Proof. intros Hso. apply holds_logged_out in Hso. unfold authToken. by rewrite (scoped_read_spec _ _ _ _ Hso). Qed.

(** C17. Logging out in one tab logs out of all tabs: whatever the browser
    does afterwards, in any order (messages are handled, timers fire before or
    after them, other tabs log out), as long as no tab is opened, every tab has
    signed out, or the message of the logout is on its way to it; and when the
    messages for a tab are handled, it has no token, no tenant and no tenants
    any more.  Before the logout no request for a session and no session is on
    its way, and no earlier logout has left its key in the local storage. *)
Theorem logout_reaches_all b i t l b' :
  tabs b !! i = Some t -> obj_lookup clear_key (local b) <> Some (u "true") -> Forall calm (events b) ->
  Forall (fun a => ~ opens a) l -> steps (ALogout i :: l) b = Some b' ->
  length (tabs b') = length (tabs b) /\
  forall j t', tabs b' !! j = Some t' ->
    (clear_event j ∉ events b' -> signed_out t' /\ authToken storagePrefix t' = Ok VUndef) /\
    exists n b'' t'', steps (repeat (ADeliver j) n) b' = Some b'' /\ tabs b'' !! j = Some t'' /\
      signed_out t'' /\ authToken storagePrefix t'' = Ok VUndef.
Proof.
  intros Hi Hl Hc Hn Hs. cbn [steps step mbind option_bind] in Hs.
  assert (Hb : leaving (logout i b)).
  { destruct (logout_adds i b) as [(ex & He & Hx & _) _]. split; [rewrite He; by apply Forall_app|]. intros j t' Hj.
    destruct (logout_tabs i b j t' Hj) as [[_ ?] | [Hne Hj']]; [by left | right]. eapply logout_tells; try done. by eapply lookup_lt_Some. }
  destruct (leaving_steps l _ _ Hb Hn Hs) as [[Hc' Ht'] Hlen]. split; [by rewrite Hlen; apply logout_adds|].
  intros j t' Hj. destruct (Ht' j t' Hj) as [Hso | Hin].
  - split; [by auto using signed_out_token|]. exists 0%nat, b', t'. split; [done|]. split; [done|]. auto using signed_out_token.
  - split; [done|]. destruct (deliver_pending j _ b' Hc' eq_refl) as (n & b'' & t'' & H1 & H2 & H3).
    + apply list_elem_of_In, filter_In. split; [by apply list_elem_of_In | apply Nat.eqb_refl].
    + by eapply lookup_lt_Some.
    + exists n, b'', t''. auto using signed_out_token.
Qed.

(** ** Messages of a logout that do not end *)

Lemma filter_idempotent {A} (f g : A -> bool) l :
  (forall x, g x = true -> f x = true) -> List.filter f (List.filter g l) = List.filter g l.
Proof.
  intros H. induction l as [|x l IH]; cbn; [done|]. destruct (g x) eqn:E; cbn; [|done]. by rewrite (H x E), IH.
Qed.

Lemma filter_filter {A} (f g : A -> bool) l :
  List.filter f (List.filter g l) = List.filter (fun x => g x && f x) l.
Proof. induction l as [|x l IH]; cbn; [done|]. destruct (g x); cbn; [destruct (f x)|]; by rewrite ?IH. Qed.

Lemma unsetAuthData_twice t :
  unsetAuthData storagePrefix (unsetAuthData storagePrefix t) = unsetAuthData storagePrefix t.
Proof.
  unfold unsetAuthData, removeItem, own_keys. cbn [fold_left session authData]. f_equal. unfold obj_delete.
  rewrite !filter_filter. apply filter_ext. intros kv.
  repeat match goal with |- context [streq ?a ?b] => destruct (streq a b) end; done.
Qed.

(** The timer of a tab that has handled the message removes the key before the
    other tab sees it, which then sets it again. *)
Definition storm_round : list action :=
  [ATimer 0; ADeliver 1; ADeliver 1; ATimer 0; ADeliver 0; ADeliver 0].

Definition removed_event (j : nat) : storage_event := Build_storage_event j clear_key None.

(** The three kinds of steps of a round, with two tabs. *)
Lemma timer_removes a c ev i ps :
  step (ATimer 0) (Build_browser [a; c] [(clear_key, u "true")] ev ((i, [clear_key]) :: ps))
  = Some (Build_browser [a; c] [] (ev ++ notify i clear_key None (quiet [a; c])) ps).
Proof.
  cbn [step pending lookup list_lookup fold_left take drop app]. unfold local_remove.
  cbn [tabs local events pending obj_lookup]. rewrite streq_refl.
  unfold obj_delete. cbn [List.filter fst]. by rewrite streq_refl.
Qed.

Lemma deliver_removed b j l :
  events b = removed_event j :: l -> step (ADeliver j) b = Some (Build_browser (tabs b) (local b) l (pending b)).
Proof.
  intros He. cbn [step]. rewrite He. cbn [take_event removed_event e_tab]. rewrite Nat.eqb_refl.
  unfold sessionStorageTransfer. cbn [e_tab e_value removed_event]. by case_goal.
Qed.

Lemma deliver_sets ts j t l ps :
  ts !! j = Some t ->
  step (ADeliver j) (Build_browser ts [] (clear_event j :: l) ps)
  = Some (Build_browser (<[j := unsetAuthData storagePrefix t]> ts) [(clear_key, u "true")]
            (l ++ notify j clear_key (Some (u "true")) (quiet ts)) (ps ++ [(j, [clear_key])])).
Proof.
  intros Hj. cbn [step events take_event clear_event e_tab]. rewrite Nat.eqb_refl.
  unfold sessionStorageTransfer. cbn [e_tab e_value e_key clear_event tabs]. rewrite Hj.
  change (u "true") with (116 :: u "rue") at 1. cbn iota.
  assert (E1 : streq clear_key get_key = false) by (apply streq_neq; intros E%key_inj; vm_compute in E; congruence).
  assert (E2 : streq clear_key session_key = false) by (apply streq_neq; intros E%key_inj; vm_compute in E; congruence).
  rewrite E1, E2, streq_refl. cbn [andb]. unfold logout. cbn [tabs]. by rewrite Hj.
Qed.

Lemma storm_round_returns a c :
  steps storm_round (Build_browser [a; c] [(clear_key, u "true")] [clear_event 1] [(0%nat, [clear_key])])
  = Some (Build_browser [unsetAuthData storagePrefix a; unsetAuthData storagePrefix c] [(clear_key, u "true")]
            [clear_event 1] [(0%nat, [clear_key])]).
Proof.
  unfold storm_round. cbn [steps mbind option_bind]. rewrite timer_removes. cbn [mbind option_bind].
  change (notify 0 clear_key None (quiet [a; c])) with [removed_event 1]. cbn [app].
  rewrite (deliver_sets _ 1 c) by done. cbn [mbind option_bind].
  rewrite (deliver_removed _ 1 [clear_event 0]) by done. cbn [mbind option_bind tabs local pending app insert list_insert].
  rewrite timer_removes. cbn [mbind option_bind].
  change (notify 1 clear_key None _) with [removed_event 0]. cbn [app].
  rewrite (deliver_sets _ 0 a) by done. cbn [mbind option_bind].
  by rewrite (deliver_removed _ 0 [clear_event 1]) by done.
Qed.

Lemma steps_app l1 l2 b : steps (l1 ++ l2) b = (b' ← steps l1 b; steps l2 b').
Proof. revert b. induction l1 as [|a l1 IH]; intros b; cbn; [done|]. destruct (step a b); cbn; [apply IH | done]. Qed.

(** The messages of a logout need not end. A tab that hears of a logout
    logs out itself and so tells the others again; with two tabs, when each
    timer fires before the other tab handles its message, the browser comes
    back to the same state, with the same message on its way, any number of
    times; and whatever sessions the tabs have gained in between are lost. *)
Theorem logout_storm t0 t1 :
  exists b, step (ALogout 0) (quiet [t0; t1]) = Some b /\ events b = [clear_event 1] /\
    (exists b', steps storm_round b = Some b' /\
       forall n, steps (concat (repeat storm_round n)) b' = Some b' /\ events b' = [clear_event 1]) /\
    (forall t0' t1', exists b', steps storm_round (Build_browser [t0'; t1'] (local b) (events b) (pending b)) = Some b' /\
       Forall signed_out (tabs b')).
Proof.
  exists (Build_browser [unsetAuthData storagePrefix t0; t1] [(clear_key, u "true")] [clear_event 1] [(0%nat, [clear_key])]).
  split; [done|]. split; [done|]. split.
  - eexists. split; [apply storm_round_returns|]. intros n. split; [|done].
    induction n as [|n IH]; [done|]. cbn [repeat concat]. rewrite steps_app, storm_round_returns.
    rewrite !unsetAuthData_twice in *. exact IH.
  - intros t0' t1'. eexists. split; [apply storm_round_returns|]. cbn [tabs].
    apply Forall_cons_2; [|apply Forall_cons_2; [|apply Forall_nil_2]]; intros k Hk; by apply obj_lookup_own.
Qed.
End Tabs.

Definition demo_session : tab :=
  {| session := [(u "g_tenant", json_quote (u "red")); (u "x", u "y")]; authData := VUndef |}.

Lemma demo_session_ok : session_ok (session demo_session).
Proof. split; [reflexivity | repeat (apply Forall_cons_2; [split; by apply units_ok|]); apply Forall_nil_2]. Qed.

Lemma open_tab_takes_session_witness :
  exists b t', steps (u "g_") [AOpen; ADeliver 0; ADeliver 1] (quiet [demo_session]) = Some b /\
    tabs b = [demo_session; t'] /\ session t' = session demo_session.
Proof.
  destruct (open_tab_takes_session (u "g_") [demo_session] 0 demo_session) as (b & t' & H1 & H2 & H3 & _);
    [reflexivity | discriminate | exact demo_session_ok |].
  exists b, t'. split; [exact H1|]. split; [exact H2 | exact H3].
Defined.

(** The timer fires before tab 0 handles its message, and tab 2 before it. *)
Lemma logout_reaches_all_witness :
  exists b, steps (u "g_") [ALogout 1; ATimer 0; ADeliver 2] (quiet [demo_session; demo_session; new_tab]) = Some b /\
    (clear_event (u "g_") 1 ∉ events b -> exists t, tabs b !! 1%nat = Some t /\ signed_out (u "g_") t) /\
    exists n b' t, steps (u "g_") (repeat (ADeliver 0) n) b = Some b' /\ tabs b' !! 0%nat = Some t /\ signed_out (u "g_") t.
Proof.
  eexists. split; [reflexivity|].
  destruct (logout_reaches_all (u "g_") (quiet [demo_session; demo_session; new_tab]) 1 demo_session [ATimer 0; ADeliver 2] _
    eq_refl ltac:(discriminate) (Forall_nil_2 _) ltac:(repeat (apply Forall_cons_2; [intros []|]); apply Forall_nil_2) eq_refl) as [_ H].
  split.
  - intros Hn. eexists. split; [reflexivity|]. by apply (H 1%nat _ eq_refl).
  - destruct (H 0%nat _ eq_refl) as (_ & n & b' & t & H1 & H2 & H3 & _). by exists n, b', t.
Defined.

(** A session that is on its way when a tab logs out logs this tab in again:
    a new tab asks for the session, tab 1 answers, tab 0 logs out, and then
    handles the answer, which was sent to all tabs.  The others hear of the
    logout; tab 0, which said so, keeps the session. *)
Definition crossing : list action :=
  [AOpen; ADeliver 1; ALogout 0; ADeliver 0; ADeliver 0; ADeliver 1; ADeliver 1; ADeliver 2; ADeliver 2; ADeliver 2].

Definition lone_session : tab := {| session := [(u "g_tenant", json_quote (u "red"))]; authData := VUndef |}.

Lemma session_crosses_logout :
  exists b, steps (u "g_") crossing (quiet [lone_session; lone_session]) = Some b /\
    map session (tabs b) = [session lone_session; []; []].
Proof. eexists. split; vm_compute; reflexivity. Qed.
