(* ===== verification/ListEditor.v ===== *)
(** The list editor of the forms (module 168): adding, removing and moving the
    items of a list, in the array of items and on the page. *)

From Stdlib Require Import ZArith Lia List String Bool Permutation.
From stdpp Require Import base list sets list_numbers tactics.
From S2P Require Import Prelude JsNum Js.

(** ** Arrays *)

(** [a.splice(start, count, ...xs)]: a negative start counts from the end. *)
Definition splice {A} (start count : Z) (xs l : list A) : list A :=
  let s := if start <? 0 then Z.max 0 (zlen l + start) else Z.min start (zlen l) in
  zslice 0 s l ++ xs ++ zslice (s + Z.max 0 (Z.min count (zlen l - s))) (zlen l) l.

(** [_.indexOf]. *)
Fixpoint indexOf (b : nat) (l : list (option nat)) : Z :=
  match l with
  | [] => -1
  | x :: l => if bool_decide (x = Some b) then 0 else let i := indexOf b l in if i <? 0 then -1 else i + 1
  end.

(** ** The editor

    An item is its [cid].  [items] is the array of the editor, in which a place
    may hold [undefined]; [list_el] and [tab_el] are the items in the order in
    which the page shows them and their tabs. *)

Record editor := {
  items : list (option nat);
  list_el : list nat;
  tab_el : list nat;
  isObjectType : bool
}.

(** [items[i]]. *)
Definition item_at (i : Z) (e : editor) : option nat := default None (zget (items e) i).

Definition addItem (c : nat) (e : editor) : editor :=
  {| items := items e ++ [Some c]; list_el := list_el e ++ [c];
     tab_el := if isObjectType e then tab_el e ++ [c] else tab_el e; isObjectType := isObjectType e |}.

(** [$el.children().eq(d)]: a negative index counts from the end. *)
Definition eq_index {A} (d : Z) (l : list A) : Z := if d <? 0 then zlen l + d else d.

(** The element of index [d] is moved before the previous, or after the next one. *)
Definition move_child {A} (d : Z) (left : bool) (l : list A) : list A :=
  let i := eq_index d l in
  let j := if left then i - 1 else i in
  match zget l j, zget l (j + 1) with
  | Some x, Some y => zslice 0 j l ++ [y; x] ++ zslice (j + 2) (zlen l) l
  | _, _ => l
  end.

Definition remove_child {A} (d : Z) (l : list A) : list A :=
  let i := eq_index d l in if (0 <=? i) && (i <? zlen l) then zslice 0 i l ++ zslice (i + 1) (zlen l) l else l.

(** [removeItem], when the removal is confirmed. *)
Definition removeItem (b : nat) (e : editor) : res editor :=
  let d := indexOf b (items e) in
  match item_at d e with
  | None => Err TypeError
  | Some c =>
      Ok {| items := splice d 1 [] (items e); list_el := List.filter (fun x => negb (Nat.eqb x c)) (list_el e);
            tab_el := if isObjectType e then remove_child d (tab_el e) else tab_el e; isObjectType := isObjectType e |}
  end.

(** [moveItem]: [left] is the direction. *)
Definition moveItem (b : nat) (left : bool) (e : editor) : editor :=
  let d := indexOf b (items e) in
  let f := if left then d - 1 else d in
  {| items := splice f 2 [item_at (f + 1) e; item_at f e] (items e);
     list_el := move_child d left (list_el e);
     tab_el := if isObjectType e then move_child d left (tab_el e) else tab_el e;
     isObjectType := isObjectType e |}.

(** [getValue], for the values of the items' editors: empty ones are left out. *)
Definition getValue (val : nat -> value) (e : editor) : res (list value) :=
  b <-? res_map (fun c => match c with Some c => Ok (val c) | None => Err TypeError end) (items e);
  Ok (List.filter (fun v => match v with VUndef | VStr [] => false | _ => true end) b).

(** ** The page shows the items *)

Record shown (l : list nat) (e : editor) : Prop := {
  sh_items : items e = map Some l;
  sh_list : list_el e = l;
  sh_tab : isObjectType e = true -> tab_el e = l;
  sh_nodup : NoDup l
}.

Lemma indexOf_app b l1 l2 : b ∉ l1 -> indexOf b (map Some (l1 ++ b :: l2)) = zlen l1.
Proof.
  induction l1 as [|x l1 IH]; cbn [app map indexOf]; intros Hn.
  - by rewrite bool_decide_eq_true_2.
  - apply not_elem_of_cons in Hn as [Hx Hn]. rewrite bool_decide_eq_false_2 by congruence.
    rewrite IH by done. rewrite zlen_cons. cbv zeta.
    pose proof (zlen_nonneg l1). by replace (zlen l1 <? 0) with false by lia.
Qed.

Lemma zslice_app_r {A} (l k : list A) b : zslice (zlen l) b (l ++ k) = zslice 0 (b - zlen l) k.
Proof.
  unfold zslice, zlen. rewrite drop_0, Nat2Z.id. rewrite drop_app_length. f_equal. lia.
Qed.

Lemma zget_mid {A} (l k : list A) x i : i = zlen l -> zget (l ++ x :: k) i = Some x.
Proof. intros ->. rewrite zget_app_r by lia. by rewrite Z.sub_diag. Qed.

Lemma zget_mid2 {A} (l k : list A) x y : zget (l ++ x :: y :: k) (zlen l + 1) = Some y.
Proof.
  change (x :: y :: k) with ([x] ++ y :: k). rewrite app_assoc. apply zget_mid. by rewrite zlen_app.
Qed.

(** [splice] of two places in the middle. *)
Lemma splice_two {A} (l k : list A) x y p q : splice (zlen l) 2 [p; q] (l ++ x :: y :: k) = l ++ p :: q :: k.
Proof.
  unfold splice. pose proof (zlen_nonneg l). pose proof (zlen_nonneg k). autorewrite with zlen.
  replace (zlen l <? 0) with false by lia. rewrite Z.min_l by lia.
  rewrite zslice_app_l. replace (zlen l + Z.max 0 _) with (zlen l + 2) by lia.
  f_equal. cbn [app]. do 2 f_equal. change (x :: y :: k) with ([x; y] ++ k). rewrite app_assoc.
  replace (zlen l + 2) with (zlen (l ++ [x; y])) by (autorewrite with zlen; lia).
  rewrite zslice_app_r. autorewrite with zlen. etransitivity; [|apply zslice_full]. f_equal. lia.
Qed.

Lemma move_child_mid {A} (l k : list A) x y left :
  move_child (zlen l + if left : bool then 1 else 0) left (l ++ x :: y :: k) = l ++ y :: x :: k.
Proof.
  unfold move_child, eq_index. pose proof (zlen_nonneg l).
  replace (zlen l + (if left then 1 else 0) <? 0) with false by (destruct left; lia).
  replace (if left then zlen l + (if left then 1 else 0) - 1 else zlen l + (if left then 1 else 0)) with (zlen l)
    by (destruct left; lia).
  cbv zeta. rewrite (zget_mid l _ x _ eq_refl), zget_mid2. rewrite zslice_app_l. f_equal. cbn [app]. do 2 f_equal.
  change (x :: y :: k) with ([x; y] ++ k). rewrite app_assoc.
  replace (zlen l + 2) with (zlen (l ++ [x; y])) by (autorewrite with zlen; lia).
  rewrite zslice_app_r. autorewrite with zlen. etransitivity; [|apply zslice_full]. f_equal. lia.
Qed.

Lemma moveItem_mid l1 x y l2 left e :
  shown (l1 ++ x :: y :: l2) e ->
  shown (l1 ++ y :: x :: l2) (moveItem (if left : bool then y else x) left e).
Proof.
  intros [Hi Hl Ht Hnd]. pose proof (zlen_nonneg l1).
  assert (Hd : indexOf (if left then y else x) (items e) = zlen l1 + if left then 1 else 0).
  { rewrite Hi. apply list.NoDup_app in Hnd as (_ & Hd & Hnd). apply list.NoDup_cons in Hnd as [Hxy _].
    destruct left.
    - change (x :: y :: l2) with ([x] ++ y :: l2). rewrite app_assoc, indexOf_app; [autorewrite with zlen; lia|].
      intros [Hy | Hy]%elem_of_app; [apply (Hd y Hy); right; by left|].
      apply list_elem_of_singleton in Hy as ->. apply Hxy. by left.
    - rewrite indexOf_app; [lia|]. intros Hx. apply (Hd x Hx). by left. }
  unfold moveItem. rewrite Hd.
  replace (if left then zlen l1 + (if left then 1 else 0) - 1 else zlen l1 + (if left then 1 else 0)) with (zlen l1)
    by (destruct left; lia).
  split; cbn [items list_el tab_el isObjectType].
  - unfold item_at. rewrite Hi, !map_app. cbn [map]. rewrite <- (zlen_map Some l1).
    rewrite zget_mid2, (zget_mid (map Some l1) _ (Some x) _ eq_refl). apply splice_two.
  - rewrite Hl. apply move_child_mid.
  - intros Ho. rewrite Ho, (Ht Ho). apply move_child_mid.
  - assert (E : l1 ++ y :: x :: l2 ≡ₚ l1 ++ x :: y :: l2) by apply Permutation_app_head, perm_swap. by rewrite E.
Qed.

Lemma addItem_shown c l e : c ∉ l -> shown l e -> shown (l ++ [c]) (addItem c e).
Proof.
  intros Hc [Hi Hl Ht Hnd]. split; cbn [addItem items list_el tab_el isObjectType].
  - by rewrite Hi, map_app.
  - by rewrite Hl.
  - intros Ho. rewrite Ho. by rewrite (Ht Ho).
  - apply list.NoDup_app. split; [done|]. split; [|apply NoDup_singleton].
    intros x Hx ->%list_elem_of_singleton. done.
Qed.

Lemma splice_one {A} (l k : list A) x : splice (zlen l) 1 [] (l ++ x :: k) = l ++ k.
Proof.
  unfold splice. pose proof (zlen_nonneg l). pose proof (zlen_nonneg k). autorewrite with zlen.
  replace (zlen l <? 0) with false by lia. rewrite Z.min_l by lia.
  rewrite zslice_app_l. replace (zlen l + Z.max 0 _) with (zlen l + 1) by lia.
  f_equal. cbn [app]. change (x :: k) with ([x] ++ k). rewrite app_assoc.
  replace (zlen l + 1) with (zlen (l ++ [x])) by (autorewrite with zlen; lia).
  rewrite zslice_app_r. autorewrite with zlen. etransitivity; [|apply zslice_full]. f_equal. lia.
Qed.

Lemma remove_child_mid {A} (l k : list A) x : remove_child (zlen l) (l ++ x :: k) = l ++ k.
Proof.
  unfold remove_child, eq_index. pose proof (zlen_nonneg l). pose proof (zlen_nonneg k). autorewrite with zlen.
  replace (zlen l <? 0) with false by lia. replace ((0 <=? zlen l) && (zlen l <? zlen l + (zlen k + 1))) with true by lia.
  rewrite zslice_app_l. f_equal. change (x :: k) with ([x] ++ k). rewrite app_assoc.
  replace (zlen l + 1) with (zlen (l ++ [x])) by (autorewrite with zlen; lia).
  rewrite zslice_app_r. autorewrite with zlen. etransitivity; [|apply zslice_full]. f_equal. lia.
Qed.

Lemma filter_other b l : b ∉ l -> List.filter (fun x => negb (Nat.eqb x b)) l = l.
Proof.
  induction l as [|x l IH]; cbn; [done|]. intros [Hx Hl]%not_elem_of_cons.
  rewrite (proj2 (Nat.eqb_neq _ _)) by congruence. cbn. by rewrite IH.
Qed.

Lemma removeItem_shown l1 b l2 e :
  shown (l1 ++ b :: l2) e -> exists e', removeItem b e = Ok e' /\ shown (l1 ++ l2) e'.
Proof.
  intros [Hi Hl Ht Hnd]. apply list.NoDup_app in Hnd as (Hn1 & Hd & Hn2). apply list.NoDup_cons in Hn2 as [Hb Hn2].
  assert (Hb1 : b ∉ l1) by (intros Hin; apply (Hd b Hin); by left).
  unfold removeItem. rewrite Hi, indexOf_app by done. unfold item_at. rewrite Hi.
  rewrite map_app. cbn [map]. rewrite (zget_mid (map Some l1) _ (Some b)) by (by rewrite zlen_map).
  cbn [default]. unfold Datatypes.id. eexists. split; [done|]. split; cbn [items list_el tab_el isObjectType].
  - rewrite <- (zlen_map Some l1), splice_one, map_app. done.
  - rewrite Hl, List.filter_app. cbn [List.filter]. rewrite Nat.eqb_refl. cbn [negb]. by rewrite !filter_other.
  - intros Ho. rewrite Ho, (Ht Ho). apply remove_child_mid.
  - apply list.NoDup_app. split; [done|]. split; [|done]. intros x Hx Hx2. apply (Hd x Hx). by right.
Qed.

(** ** The operations of the user *)

Inductive edit := EAdd (c : nat) | ERemove (b : nat) | EMove (b : nat) (left : bool).

Definition run_edit (e : editor) (a : edit) : res editor :=
  match a with
  | EAdd c => Ok (addItem c e)
  | ERemove b => removeItem b e
  | EMove b to => Ok (moveItem b to e)
  end.

(** The same on the list that the page shows. *)
Inductive edit_list : edit -> list nat -> list nat -> Prop :=
| EL_add c l : c ∉ l -> edit_list (EAdd c) l (l ++ [c])
| EL_remove l1 b l2 : edit_list (ERemove b) (l1 ++ b :: l2) (l1 ++ l2)
| EL_left l1 x y l2 : edit_list (EMove y true) (l1 ++ x :: y :: l2) (l1 ++ y :: x :: l2)
| EL_right l1 x y l2 : edit_list (EMove x false) (l1 ++ x :: y :: l2) (l1 ++ y :: x :: l2).

Inductive edits : list edit -> list nat -> list nat -> Prop :=
| edits_nil l : edits [] l l
| edits_cons a as_ l l1 l2 : edit_list a l l1 -> edits as_ l1 l2 -> edits (a :: as_) l l2.

Definition run_edits (as_ : list edit) (e : editor) : res editor :=
  fold_left (fun r a => e <-? r; run_edit e a) as_ (Ok e).

Lemma run_edit_shown a l l1 e : edit_list a l l1 -> shown l e -> exists e1, run_edit e a = Ok e1 /\ shown l1 e1.
Proof.
  intros Ha He. destruct Ha; cbn [run_edit].
  - eexists. split; [done | by apply addItem_shown].
  - by apply removeItem_shown.
  - eexists. split; [done|]. by apply (moveItem_mid l1 x y _ true).
  - eexists. split; [done|]. by apply (moveItem_mid l1 x y _ false).
Qed.

(** Beyond the ends, [splice] meets only the last place. *)
Lemma splice_last {A} f (l : list A) x p q :
  f = -1 \/ f = zlen l -> splice f 2 [p; q] (l ++ [x]) = l ++ [p; q].
Proof.
  intros Hf. unfold splice. pose proof (zlen_nonneg l). autorewrite with zlen.
  assert (E : (if f <? 0 then Z.max 0 (zlen l + (0 + 1) + f) else Z.min f (zlen l + (0 + 1))) = zlen l)
    by (destruct Hf as [-> | ->]; [cbn; lia | replace (zlen l <? 0) with false by lia; lia]).
  rewrite E, zslice_app_l. f_equal. rewrite zslice_empty by lia. by rewrite app_nil_r.
Qed.

Lemma move_child_first {A} (l : list A) : move_child 0 true l = l.
Proof. done. Qed.

Lemma move_child_last {A} (l : list A) x : move_child (zlen l) false (l ++ [x]) = l ++ [x].
Proof.
  unfold move_child, eq_index. pose proof (zlen_nonneg l). replace (zlen l <? 0) with false by lia. cbv zeta.
  rewrite (zget_None _ (zlen l + 1)) by (autorewrite with zlen; lia). by destruct (zget _ _).
Qed.

(** Moving the first item to the left, or the last one to the right,
    breaks the editor: [undefined] comes into the array while the page stays as
    it was, and the value of the form can no longer be read. *)
Theorem moveItem_beyond_end l b e left :
  shown l e -> (if left : bool then head l else List.last (map Some l) None) = Some b ->
  let e' := moveItem b left e in
  None ∈ items e' /\ list_el e' = l /\ length (items e') = S (length l) /\
  forall val, getValue val e' = Err TypeError.
Proof.
  intros [Hi Hl Ht Hnd] Hb e'. assert (Hgv : None ∈ items e' -> forall val, getValue val e' = Err TypeError).
  { intros Hin val. unfold getValue. induction (items e') as [|c cs IH]; [by apply not_elem_of_nil in Hin|].
    cbn [res_map]. destruct c as [c|]; [|done]. apply elem_of_cons in Hin as [? | Hin]; [done|]. specialize (IH Hin).
    cbn [res_bind]. destruct (res_map _ cs); [done | exact IH]. }
  assert (Hshape : None ∈ items e' /\ list_el e' = l /\ length (items e') = S (length l)); [|tauto].
  clear Hgv. assert (Hne : l <> []) by (intros E; rewrite E in Hb; destruct left; discriminate Hb).
  destruct (exists_last Hne) as (k & x & ->). clear Hne. unfold e', moveItem. rewrite Hl.
  assert (Hnth : forall y, item_at (zlen k + 1) e = None /\ item_at (zlen k) e = Some x /\ (y < 0 -> item_at y e = None)).
  { intros y. unfold item_at. rewrite Hi, map_app. cbn [map]. rewrite (zget_mid (map Some k) [] (Some x) (zlen k)) by (by rewrite zlen_map).
    rewrite zget_None by (autorewrite with zlen; lia). split; [done|]. split; [done|]. intros Hy.
    unfold zget. by replace (y <? 0) with true by lia. }
  assert (Hlen : forall p q : option nat, length (map Some k ++ [p; q]) = S (length (k ++ [x])))
    by (intros; rewrite !length_app, length_map; cbn; lia).
  destruct left.
  - assert (Hd : indexOf b (items e) = 0).
    { rewrite Hi. destruct k as [|y k]; cbn in Hb; injection Hb as ->; cbn; by rewrite bool_decide_eq_true_2. }
    rewrite Hd. cbn [items list_el]. change (0 - 1) with (-1). rewrite (proj2 (proj2 (Hnth (-1)))) by lia.
    rewrite Hi, map_app. cbn [map]. rewrite splice_last by (by left).
    split; [apply elem_of_app; right; right; by left|]. split; [apply move_child_first | apply Hlen].
  - assert (Hd : indexOf b (items e) = zlen k).
    { rewrite map_app in Hb. cbn [map] in Hb. rewrite List.last_last in Hb. injection Hb as ->. rewrite Hi. apply indexOf_app.
      apply list.NoDup_app in Hnd as (_ & Hd & _). intros Hin. apply (Hd b Hin). by left. }
    rewrite Hd. destruct (Hnth 0) as (H1 & H2 & _). cbn [items list_el]. rewrite H1, H2, Hi, map_app. cbn [map].
    rewrite splice_last by (right; by rewrite zlen_map).
    split; [apply elem_of_app; right; by left|]. split; [apply move_child_last | apply Hlen].
Qed.

(** An item stands beside the one it changes places with, or at the end. *)
Lemma move_in_range l b (left : bool) : b ∈ l -> NoDup l ->
  (exists l1, edit_list (EMove b left) l l1) \/ (if left then head l else List.last (map Some l) None) = Some b.
Proof.
  intros (l1 & l2 & ->)%list_elem_of_split _. destruct left.
  - destruct l1 as [|x l1 _] using rev_ind; [by right|]. left. rewrite <- app_assoc. eexists. apply EL_left.
  - destruct l2 as [|y l2]; [right; rewrite map_app; apply List.last_last | left; eexists; apply EL_right].
Qed.

(** C26. The array of the editor and the page stay the same list, item by item
    and tab by tab, through every sequence of additions, removals and moves in
    which no item is moved beyond the ends; a move exchanges neighbours, and
    the value of the list is that of its items in this order, without the empty
    ones.  And from there every move of an item that the page shows is again
    such a move, or it goes beyond the end: the page then stays as it is, but
    there is an [undefined] in the array, and the value of the list can no
    longer be read. *)
Theorem list_editor_invariant as_ l l' e :
  edits as_ l l' -> shown l e ->
  exists e', run_edits as_ e = Ok e' /\ shown l' e' /\
    (forall val, getValue val e' = Ok (List.filter (fun v => match v with VUndef | VStr [] => false | _ => true end) (map val l'))) /\
    forall b left, b ∈ l' ->
      (exists l1, edit_list (EMove b left) l' l1 /\ shown l1 (moveItem b left e')) \/
      ((if left : bool then head l' else List.last (map Some l') None) = Some b /\
       None ∈ items (moveItem b left e') /\ list_el (moveItem b left e') = l' /\
       forall val, getValue val (moveItem b left e') = Err TypeError).
Proof.
  intros H. revert e. induction H as [l|a as_ l l1 l2 Ha _ IH]; intros e He.
  - exists e. split; [done|]. split; [done|]. split.
    + intros val. destruct He as [Hi _ _ _]. unfold getValue. rewrite Hi.
      assert (E : res_map (fun c => match c with Some c => Ok (val c) | None => Err TypeError end) (map Some l) = Ok (map val l)).
      { clear. induction l as [|c l IH]; cbn; [done | by rewrite IH]. }
      by rewrite E.
    + intros b left Hb. destruct (move_in_range l b left Hb (sh_nodup _ _ He)) as [(l1 & Hl) | Hend].
      * left. exists l1. split; [done|]. by eapply (run_edit_shown (EMove b left)) in Hl as (? & [= <-] & ?).
      * right. split; [done|]. by destruct (moveItem_beyond_end l b e left He Hend) as (? & ? & _ & ?).
  - destruct (run_edit_shown _ _ _ _ Ha He) as (e1 & E1 & H1).
    destruct (IH e1 H1) as (e' & E' & H'). exists e'. split; [|done].
    unfold run_edits. cbn [fold_left res_bind]. rewrite E1. exact E'.
Qed.

Definition demo_editor : editor :=
  {| items := [Some 1%nat; Some 2%nat]; list_el := [1; 2]%nat; tab_el := [1; 2]%nat; isObjectType := true |}.

Lemma list_editor_invariant_witness :
  exists e', run_edits [EAdd 3; EMove 3 true; ERemove 1] demo_editor = Ok e' /\ items e' = [Some 3; Some 2]%nat /\
    tab_el e' = [3; 2]%nat.
Proof.
  destruct (list_editor_invariant [EAdd 3; EMove 3 true; ERemove 1] [1; 2]%nat [3; 2]%nat demo_editor)
    as (e' & H1 & [H2 _ H3 _] & _).
  - eapply edits_cons; [apply EL_add; vm_compute; set_solver|].
    eapply edits_cons; [apply (EL_left [1]%nat 2 3 [])|].
    eapply edits_cons; [apply (EL_remove [] 1 [3; 2]%nat) | apply edits_nil].
  - split; try done. repeat constructor; set_solver.
  - exists e'. split; [exact H1|]. split; [exact H2|]. apply H3. vm_compute in H1. by injection H1 as <-.
Defined.

Lemma moveItem_beyond_end_witness :
  items (moveItem 1 true demo_editor) = [Some 1; Some 1; None]%nat /\
  getValue (fun _ => VNull) (moveItem 1 true demo_editor) = Err TypeError.
Proof.
  split; [reflexivity|].
  apply (moveItem_beyond_end [1; 2]%nat 1 demo_editor true); [|reflexivity].
  split; try done. repeat constructor; set_solver.
Defined.
