(* ===== verification/TableView.v ===== *)
(** The table of the resources of a schema: the pages that can be chosen, the
    sorting of its columns, the selection of rows, and the markup of the
    values, there and in the detail view. *)

From Stdlib Require Import ZArith Lia List String Bool.
From stdpp Require Import base list sets list_numbers tactics.
From S2P Require Import Prelude JsNum Js YamlDumper SchemaModel PagedCollection.

(** ** Pages *)

Record pager := { activePage : Z; start : Z; limit : Z }.

(** The pager of a new table: [page] is the parameter of the URL. *)
Definition new_pager (page : option Z) : pager := {| activePage := default 1 page; start := 1; limit := 7 |}.

Inductive side := Left | Right.

(** A link of the pagination: previous, next, or a page number with its
    [data-more]. *)
Inductive link := LPrev | LNext | LPage (id : Z) (more : option side).

(** The links of the template that are not disabled, for a number of pages. *)
Definition enabled (pageCount : Z) (p : pager) : list link :=
  if pageCount <=? 1 then [] else
  (if activePage p =? 1 then [] else [LPrev])
  ++ (if start p =? 1 then [] else [LPage (start p - 1) (Some Left)])
  ++ map (fun key => LPage key (if key =? start p + limit p - 1 then Some Right else None))
       (seqZ (start p) (Z.min (limit p) (pageCount - start p + 1)))
  ++ (if activePage p =? pageCount then [] else [LNext]).

(** [paginationHandler]: the pager, and the page that [getPage] is asked for.
    The identifier of a link is a string, which [===] tells from a number. *)
Definition paginationHandler (l : link) (p : pager) : pager * option Z :=
  let '(b, number, c) :=
    match l with
    | LNext => (activePage p + 1, true, None)
    | LPrev => (activePage p - 1, true, None)
    | LPage id more => (id, false, more)
    end in
  if activePage p =? b then (p, None)
  else
    let c := if number && (b =? start p - 1) then Some Left
             else if b =? start p + limit p - 1 then Some Right else c in
    let start' := match c with
                  | Some Right => b
                  | Some Left => let s := start p - limit p + 1 in if 1 >? s then 1 else s
                  | None => start p
                  end in
    ({| activePage := b; start := start'; limit := limit p |}, Some b).

(** The user clicks on links; the pages asked for. *)
Inductive browses (pageCount : Z) : pager -> pager -> list Z -> Prop :=
| browses_none p : browses pageCount p p []
| browses_click p l p' r p'' rs :
    l ∈ enabled pageCount p -> paginationHandler l p = (p', r) -> browses pageCount p' p'' rs ->
    browses pageCount p p'' (match r with Some b => b :: rs | None => rs end).

(** The window of six pages that is shown holds the active page. *)
Record pager_ok (n : Z) (p : pager) : Prop := {
  pg_limit : limit p = 7;
  pg_start : exists k, 0 <= k /\ start p = 1 + 6 * k;
  pg_window : start p <= activePage p <= start p + 5;
  pg_active : 1 <= activePage p <= n
}.

Lemma paginationHandler_ok n p l p' r :
  pager_ok n p -> l ∈ enabled n p -> paginationHandler l p = (p', r) ->
  pager_ok n p' /\ match r with Some b => 1 <= b <= n | None => True end.
Proof.
  intros [Hl (k & Hk & Hs) Hw Ha] Hin. unfold enabled in Hin. unfold paginationHandler.
  destruct (n <=? 1) eqn:En; breflect; [by apply not_elem_of_nil in Hin|].
  rewrite !elem_of_app in Hin. destruct Hin as [Hin | [Hin | [Hin | Hin]]].
  - destruct (activePage p =? 1) eqn:E; breflect; [by apply not_elem_of_nil in Hin|].
    apply list_elem_of_singleton in Hin as ->. replace (activePage p =? activePage p - 1) with false by lia.
    cbn [andb]. rewrite Hl. destruct (activePage p - 1 =? start p - 1) eqn:E1; breflect.
    + intros [= <- <-]. cbv zeta. replace (1 >? start p - 7 + 1) with false by lia.
      split; [|lia]. split; cbn [limit start activePage]; try done; try lia. exists (k - 1). lia.
    + replace (activePage p - 1 =? start p + 7 - 1) with false by lia. intros [= <- <-].
      split; [|lia]. split; cbn [limit start activePage]; try done; try lia. by exists k.
  - destruct (start p =? 1) eqn:E; breflect; [by apply not_elem_of_nil in Hin|].
    apply list_elem_of_singleton in Hin as ->. replace (activePage p =? start p - 1) with false by lia.
    cbn [andb]. rewrite Hl. replace (start p - 1 =? start p + 7 - 1) with false by lia.
    intros [= <- <-]. cbv zeta. replace (1 >? start p - 7 + 1) with false by lia.
    split; [|lia]. split; cbn [limit start activePage]; try done; try lia. exists (k - 1). lia.
  - apply list_elem_of_fmap in Hin as (key & -> & Hkey%elem_of_seqZ). rewrite Hl in *.
    destruct (activePage p =? key) eqn:E; breflect; [intros [= <- <-]; split; [|done]; split; try done; by exists k|].
    cbn [andb]. destruct (key =? start p + 7 - 1) eqn:E1; breflect; intros [= <- <-]; (split; [|lia]);
      split; cbn [limit start activePage]; try done; try lia; [exists (k + 1); lia | by exists k].
  - destruct (activePage p =? n) eqn:E; breflect; [by apply not_elem_of_nil in Hin|].
    apply list_elem_of_singleton in Hin as ->. replace (activePage p =? activePage p + 1) with false by lia.
    cbn [andb]. rewrite Hl. replace (activePage p + 1 =? start p - 1) with false by lia.
    destruct (activePage p + 1 =? start p + 7 - 1) eqn:E1; breflect; intros [= <- <-]; (split; [|lia]);
      split; cbn [limit start activePage]; try done; try lia; [exists (k + 1); lia | by exists k].
Qed.

(** The view's [getPage] on the collection. *)
Definition view_getPage (i : resource) (b : Z) (s : state) : res state := getPage i (JInt (b - 1)) s.

Lemma getPage_accepts i b s p t n :
  pageLimit (coll s) = JInt p -> 0 < p -> total (coll s) = JInt t -> getPageCount (coll s) = JInt n ->
  1 <= b <= n -> exists s', view_getPage i b s = Ok s' /\ offset (coll s') = JInt (p * (b - 1)).
Proof.
  intros Hp Hp0 Ht Hn Hb. unfold getPageCount in Hn. rewrite Hp, Ht in Hn. destruct p as [|p|p]; try lia.
  cbn [jnonzero jceil_div jop] in Hn. injection Hn as Hn. set (q := Z.pos p) in *.
  pose proof (Z.div_mod (- t) q ltac:(lia)). pose proof (Z.mod_pos_bound (- t) q ltac:(lia)).
  unfold view_getPage, getPage. rewrite Hp, Ht. cbn [jop jcmp].
  replace (q * (b - 1) >? t) with false by nia. replace (0 >? q * (b - 1)) with false by nia.
  rewrite andb_false_r. eexists. split; [done|]. done.
Qed.

(** C27. Browsing the pages of a table from one of its first six pages: the
    window of the pagination always holds the active page and starts at every
    sixth page, the active page is a page of the collection, and no click is
    rejected by [getPage], which asks for resources that are there. *)
Theorem pagination_invariant n page p rs :
  1 <= page <= Z.min 6 n -> browses n (new_pager (Some page)) p rs ->
  pager_ok n p /\
  forall i b s q t, b ∈ rs -> pageLimit (coll s) = JInt q -> 0 < q -> total (coll s) = JInt t ->
    getPageCount (coll s) = JInt n -> exists s', view_getPage i b s = Ok s' /\ offset (coll s') = JInt (q * (b - 1)).
Proof.
  intros Hpage Hb. assert (H0 : pager_ok n (new_pager (Some page))).
  { split; cbn; try done; try lia. by exists 0. }
  assert (H : pager_ok n p /\ Forall (fun b => 1 <= b <= n) rs).
  { induction Hb as [p|p l p' r p'' rs Hl Hh _ IH]; [by split|].
    destruct (paginationHandler_ok n p l p' r H0 Hl Hh) as [H1 Hr]. destruct (IH H1) as [H2 H3].
    split; [done|]. destruct r; [by constructor | done]. }
  destruct H as [H1 H2]. split; [done|]. intros i b s q t Hin. rewrite Forall_elem in H2. intros.
  eapply getPage_accepts; eauto.
Qed.

Definition demo_table : state :=
  {| coll := set_data (JInt 20) [] (new_collection (u "/nets") demo_options); inflight := []; fulfilled := 0; timers := []; next_id := 1 |}.

Lemma pagination_invariant_witness :
  exists p, browses 10 (new_pager (Some 1)) p [7; 6] /\ pager_ok 10 p /\ start p = 1 /\
    exists s', view_getPage demo 7 demo_table = Ok s' /\ offset (coll s') = JInt 12.
Proof.
  assert (Hb : browses 10 (new_pager (Some 1)) {| activePage := 6; start := 1; limit := 7 |} [7; 6]).
  { eapply (browses_click _ _ (LPage 7 (Some Right)) _ (Some 7)); [vm_compute; set_solver | reflexivity|].
    eapply (browses_click _ _ LPrev _ (Some 6)); [vm_compute; set_solver | reflexivity | apply browses_none]. }
  eexists. split; [exact Hb|].
  destruct (pagination_invariant 10 1 _ _ ltac:(lia) Hb) as [H1 H2]. split; [exact H1|]. split; [reflexivity|].
  apply (H2 demo 7 demo_table 2 20); try reflexivity. by left.
Defined.

(** A table opened at a later page shows a window without it. *)
Lemma pagination_window_missed :
  let p := new_pager (Some 20) in
  (exists l, l ∈ enabled 30 p) /\ forall id more, LPage id more ∈ enabled 30 p -> id <> activePage p /\
    start (paginationHandler LNext p).1 = 1.
Proof.
  cbv zeta. split; [exists LPrev; by left|]. intros id more Hin. split; [|done].
  apply list_elem_of_In in Hin. vm_compute in Hin. cbn.
  repeat (destruct Hin as [E | Hin]; [congruence|]). done.
Qed.

(** ** Sorting and selecting *)

Record sort_filter := { sort_by : jstr; reverse : bool }.

(** [sortData]: the sort filter, and the key and the order that the collection
    is asked for. *)
Definition sortData (b : jstr) (f : sort_filter) : sort_filter * (jstr * jstr) :=
  let f :=
    if streq (sort_by f) b
    then (if reverse f then {| sort_by := []; reverse := false |} else {| sort_by := sort_by f; reverse := true |})
    else {| sort_by := b; reverse := false |} in
  (f, (sort_by f, if reverse f then u "desc" else u "asc")).

(** The request that follows: [collection.sort]. *)
Definition view_sort (i : resource) (b : jstr) (f : sort_filter) (s : state) : sort_filter * state :=
  let '(f, (k, o)) := sortData b f in (f, sort i (Some k) (Some o) s).

Lemma sortData_cycle b c :
  b <> [] -> streq c b = false ->
  let f0 := {| sort_by := c; reverse := false |} in
  let '(f1, r1) := sortData b f0 in let '(f2, r2) := sortData b f1 in let '(f3, r3) := sortData b f2 in
  r1 = (b, u "asc") /\ r2 = (b, u "desc") /\ f3 = {| sort_by := []; reverse := false |} /\ r3 = ([], u "asc").
Proof. intros Hb Hc. unfold sortData. cbn. rewrite Hc. cbn. rewrite streq_refl. cbn. by rewrite streq_refl. Qed.

(** A row: the model and its flags. *)
Record row := { r_id : jstr; isSelected : bool; isDeleting : bool }.

Definition toggleRow (c : jstr) (rows : list row) : list row :=
  map (fun d => if streq (r_id d) c then {| r_id := r_id d; isSelected := negb (isSelected d); isDeleting := isDeleting d |} else d) rows.

Definition toggleAllRow (rows : list row) : list row :=
  let b := existsb isSelected rows in
  map (fun c => {| r_id := r_id c; isSelected := negb b; isDeleting := isDeleting c |}) rows.

(** [deleteSelectedModel], confirmed: the rows, and the models that are destroyed. *)
Definition deleteSelectedModel (rows : list row) : list row * list jstr :=
  (map (fun c => if isSelected c && negb (isDeleting c) then {| r_id := r_id c; isSelected := isSelected c; isDeleting := true |} else c) rows,
   map r_id (List.filter (fun c => isSelected c && negb (isDeleting c)) rows)).

Lemma deleteSelectedModel_once rows :
  let '(rows', ids) := deleteSelectedModel rows in (deleteSelectedModel rows').2 = [] /\ map r_id rows' = map r_id rows.
Proof.
  cbn. split.
  - induction rows as [|[c [] []] rows IH]; cbn; try exact IH; done.
  - rewrite map_map. apply map_ext. intros [c [] []]; done.
Qed.

(** ** The markup of a value *)

(** [_.escape] of a string. *)
Definition escape_char (c : Z) : jstr :=
  if c =? 38 then u "&amp;" else if c =? 60 then u "&lt;" else if c =? 62 then u "&gt;"
  else if c =? 34 then u "&quot;" else if c =? 39 then u "&#x27;" else if c =? 96 then u "&#x60;" else [c].

Definition escape_text (s : jstr) : jstr := concat (map escape_char s).

Definition escape (v : value) : res jstr :=
  match v with VUndef | VNull => Ok [] | _ => s <-? to_string v; Ok (escape_text s) end.

(** [$('<pre>').text(s).html()]: the text of an element as HTML. *)
Definition html_char (c : Z) : jstr :=
  if c =? 38 then u "&amp;" else if c =? 60 then u "&lt;" else if c =? 62 then u "&gt;"
  else if c =? 160 then u "&nbsp;" else [c].

Definition text_html (s : jstr) : jstr := concat (map html_char s).

(** [s.replace(/\'/g, '&#39;')]. *)
Definition no_quotes (s : jstr) : jstr := concat (map (fun c => if c =? 39 then u "&#39;" else [c]) s).

(** The template of the popup: the content is in an attribute between single
    quotes, and shown as HTML. *)
Definition dquote (s : string) : jstr := map (fun c => if c =? 94 then 34 else c) (u s).

Definition dataPopup (content : jstr) : jstr :=
  u "<a class='btn btn-default btn-sm'" ++ [10] ++ dquote "        tabindex=^0^" ++ [10]
  ++ dquote "        role=^button^" ++ [10] ++ u "        data-placement='auto'" ++ [10]
  ++ u "        data-trigger='click'" ++ [10] ++ u "        data-toggle='popover'" ++ [10]
  ++ u "        data-html='true'" ++ [10] ++ u "        data-content='" ++ content ++ u "'>view</a>" ++ [10].

Definition pre (s : jstr) : jstr := u "<pre>" ++ s ++ u "</pre>".

(** What the views read of the schema of a property. *)
Record property := {
  p_type : styp;
  p_originalType : option jstr;
  p_format : option jstr;
  p_relation_property : option jstr
}.

(** [d.type.includes(s)], on a string or an array. *)
Definition type_includes (s : jstr) (t : styp) : res bool :=
  match t with
  | TyUndef => Err TypeError
  | TyStr t => Ok (str_includes s t)
  | TyList l => Ok (bool_decide (s ∈ l))
  end.

(** [d.type.includes('object') || d.originalType && d.originalType.includes('object')]. *)
Definition is_object_type (d : property) : res bool :=
  b <-? type_includes (u "object") (p_type d);
  Ok (b || match p_originalType d with Some t => str_includes (u "object") t | None => false end).

Definition is_text (d : property) : bool :=
  match p_type d, p_format d with
  | TyStr t, Some f => streq t (u "string") && (streq f (u "yaml") || streq f (u "text"))
  | _, _ => false
  end.

(** The name of the related resource that is shown in the place of a value. *)
Definition related_name (a : object) (d : property) : res value :=
  let f := obj_get (default (u "undefined") (p_relation_property d)) a in
  match f with VUndef => Ok VUndef | _ => get_prop f (u "name") end.

Section Render.
(** The properties of the schema. *)
Context (properties : list (jstr * property)).

(** [TableView.renderProperty]: the value it returns; a failure to dump is
    logged and the next form is tried. *)
Definition table_renderProperty (a : object) (b : jstr) : res value :=
  let e := obj_get b a in
  match obj_lookup b properties with
  | None => Ok e
  | Some d =>
      match e with
      | VUndef => Ok (VStr [])
      | _ =>
          n <-? related_name a d;
          match n with
          | VUndef =>
              match o <-? is_object_type d;
                    if o then s <-? safeDump e; Ok (Some (dataPopup (no_quotes (text_html (pre s))))) else Ok None with
              | Ok (Some s) => Ok (VStr s)
              | _ =>
                  match o <-? type_includes (u "array") (p_type d);
                        if o then s <-? safeDump e; Ok (Some (pre s)) else Ok None with
                  | Ok (Some s) => Ok (VStr s)
                  | _ =>
                      if is_text d then
                        _ <-? escape e;
                        match e with
                        | VStr s => Ok (VStr (dataPopup (pre (no_quotes s))))
                        | _ => Err TypeError
                        end
                      else s <-? escape e; Ok (VStr s)
                  end
              end
          | _ => s <-? escape n; Ok (VStr s)
          end
      end
  end.

(** [DetailView.renderProperty]. *)
Definition detail_renderProperty (a : object) (b : jstr) : res jstr :=
  match obj_get b a, obj_lookup b properties with
  | VUndef, _ | _, None => Ok []
  | e, Some d =>
      n <-? related_name a d;
      match n with
      | VUndef =>
          o <-? is_object_type d;
          if o then s <-? safeDump e; Ok (pre (escape_text (text_html s)))
          else if match p_type d with TyStr t => streq (u "array") t | _ => false end
          then s <-? safeDump e; Ok (pre s)
          else if is_text d then s <-? escape e; Ok (pre s)
          else escape e
      | _ => escape n
      end
  end.
End Render.

(** ** What is escaped *)

(** Text in which no tag, attribute or quotation can start or end. *)
Definition no_markup (s : jstr) : Prop := forall c, c ∈ [60; 62; 34; 39; 96] -> c ∉ s.

Lemma escape_no_markup s : no_markup (escape_text s).
Proof.
  intros c Hc Hin. unfold escape_text in Hin. rewrite <- flat_map_concat_map in Hin.
  apply list_elem_of_In, in_flat_map in Hin as (x & _ & Hx). unfold escape_char in Hx.
  assert (Hc' : c = 60 \/ c = 62 \/ c = 34 \/ c = 39 \/ c = 96) by set_solver. clear Hc.
  repeat match type of Hx with
  | context [if x =? ?n then _ else _] =>
      destruct (x =? n) eqn:?; [vm_compute in Hx; repeat destruct Hx as [Hx | Hx]; lia|]
  end.
  breflect. destruct Hx as [<- | []]. lia.
Qed.

(** A property that is shown as text: of no array and no object type, without a
    related resource that has a name. *)
Definition shown_as_text (d : property) (a : object) : Prop :=
  is_object_type d = Ok false /\ type_includes (u "array") (p_type d) = Ok false /\ related_name a d = Ok VUndef.

(** Values that are shown as text. The detail view shows the string of
    every such property with its markup escaped. The table does so as well,
    except for the formats [text] and [yaml]: there the string comes into the
    content of the popup, which the page reads as HTML, as it is up to its
    single quotes. *)
Theorem text_markup properties a b d s :
  obj_lookup b properties = Some d -> obj_get b a = VStr s -> shown_as_text d a ->
  detail_renderProperty properties a b = Ok (if is_text d then pre (escape_text s) else escape_text s) /\
  no_markup (escape_text s) /\
  table_renderProperty properties a b = Ok (VStr (if is_text d then dataPopup (pre (no_quotes s)) else escape_text s)) /\
  (39 ∉ s -> no_quotes s = s).
Proof.
  intros Hd Ha (Ho & Hl & Hn). split; [|split; [apply escape_no_markup|split]].
  - unfold detail_renderProperty. rewrite Ha, Hd, Hn. cbn [res_bind]. rewrite Ho. cbn [res_bind].
    replace (match p_type d with TyStr t => streq (u "array") t | _ => false end) with false.
    + by destruct (is_text d).
    + destruct (p_type d) as [|t|l]; try done. cbn in Hl. injection Hl as Hl. symmetry. apply streq_neq. intros <-.
      by vm_compute in Hl.
  - unfold table_renderProperty. rewrite Ha, Hd, Hn. cbn [res_bind]. rewrite Ho. cbn [res_bind]. rewrite Hl. cbn [res_bind].
    by destruct (is_text d).
  - intros Hq. unfold no_quotes. induction s as [|c s IH] in Hq |- *; [done|]. apply not_elem_of_cons in Hq as [Hc Hs].
    cbn [map concat]. replace (c =? 39) with false by lia. cbn [app]. by rewrite (IH Hs).
Qed.

Definition demo_properties : list (jstr * property) :=
  [(u "note", {| p_type := TyStr (u "string"); p_originalType := None; p_format := Some (u "text"); p_relation_property := None |})].

Lemma text_markup_witness :
  table_renderProperty demo_properties [(u "note", VStr (u "<img onerror=alert(1)>"))] (u "note")
    = Ok (VStr (dataPopup (u "<pre><img onerror=alert(1)></pre>"))) /\
    detail_renderProperty demo_properties [(u "note", VStr (u "<img onerror=alert(1)>"))] (u "note")
    = Ok (u "<pre>&lt;img onerror=alert(1)&gt;</pre>").
Proof.
  destruct (text_markup demo_properties [(u "note", VStr (u "<img onerror=alert(1)>"))] (u "note")
              {| p_type := TyStr (u "string"); p_originalType := None; p_format := Some (u "text"); p_relation_property := None |}
              (u "<img onerror=alert(1)>")) as (H1 & _ & H2 & _);
    [reflexivity | reflexivity | repeat split; reflexivity |].
  split; [rewrite H2; vm_compute; reflexivity | rewrite H1; vm_compute; reflexivity].
Defined.
