(* ===== verification/Validators.v ===== *)
(** The validators of the forms (module 178): addresses, masks, ports, host
    names, URIs and YAML texts. *)

From Stdlib Require Import ZArith Lia List String Bool.
From stdpp Require Import base list sets list_numbers tactics.
From S2P Require Import Prelude JsNum Js Regex YamlLoader.

(** ** Patterns *)

Definition digit : re := RSet [(48, 57)].
Definition hexdigit : re := RSet [(48, 57); (97, 102); (65, 70)].
Definition alnum : re := RSet [(97, 122); (65, 90); (48, 57)].

(** [.]: any unit that is no line terminator. *)
Definition any_char : re := RSet [(0, 9); (11, 12); (14, 8231); (8234, 65535)].

Fixpoint rtimes (n : nat) (r : re) : re := match n with O => REmpty | S n => RCat r (rtimes n r) end.

(** [r{0,n}]. *)
Fixpoint rupto (n : nat) (r : re) : re := match n with O => REmpty | S n => ropt (RCat r (rupto n r)) end.

(** [r{a,b}]. *)
Definition rbetween (a b : nat) (r : re) : re := RCat (rtimes a r) (rupto (b - a) r).

(** [25[0-5]|2[0-4][0-9]|[01]?[0-9][0-9]?]. *)
Definition octet : re :=
  ralt [rcat [rlit (u "25"); RSet [(48, 53)]]; rcat [rc 50; RSet [(48, 52)]; digit];
        rcat [ropt (RSet [(48, 49)]); digit; ropt digit]].

Definition ipv4_re : re := RCat (rtimes 3 (RCat octet any_char)) octet.

(** [25[0-5]|(2[0-4]|1{0,1}[0-9]){0,1}[0-9]]. *)
Definition octet6 : re :=
  ralt [rcat [rlit (u "25"); RSet [(48, 53)]];
        rcat [ropt (RAlt (rcat [rc 50; RSet [(48, 52)]]) (rcat [ropt (rc 49); digit])); digit]].

Definition hextet : re := rbetween 1 4 hexdigit.
Definition hc : re := RCat hextet (rc 58).
Definition ch : re := RCat (rc 58) hextet.
Definition dotted6 : re := RCat (rtimes 3 (RCat octet6 any_char)) octet6.

Definition ipv6_re : re :=
  ralt [RCat (rbetween 7 7 hc) hextet;
        RCat (rbetween 1 7 hc) (rc 58);
        RCat (rbetween 1 6 hc) ch;
        RCat (rbetween 1 5 hc) (rbetween 1 2 ch);
        RCat (rbetween 1 4 hc) (rbetween 1 3 ch);
        RCat (rbetween 1 3 hc) (rbetween 1 4 ch);
        RCat (rbetween 1 2 hc) (rbetween 1 5 ch);
        rcat [hextet; rc 58; rbetween 1 6 ch];
        RCat (rc 58) (RAlt (rbetween 1 7 ch) (rc 58));
        rcat [rlit (u "fe80:"); rupto 4 (RCat (rc 58) (rupto 4 hexdigit)); rc 37; rplus (RSet [(48, 57); (97, 122); (65, 90)])];
        rcat [rlit (u "::"); ropt (rcat [rlit (u "ffff"); ropt (RCat (rc 58) (rbetween 1 4 (rc 48))); rc 58]); dotted6];
        rcat [rbetween 1 4 hc; rc 58; dotted6]].

Definition mac_re : re := RCat (rtimes 5 (rcat [hexdigit; hexdigit; rc 58])) (rtimes 2 hexdigit).

Definition uuid_re (sep : re) : re :=
  rcat [rtimes 8 hexdigit; sep; rtimes 4 hexdigit; sep; RSet [(49, 53)]; rtimes 3 hexdigit; sep; rtimes 4 hexdigit; sep;
        rtimes 12 hexdigit].

Definition label : re := RAlt alnum (rcat [alnum; RStar (RSet [(97, 122); (65, 90); (48, 57); (45, 45)]); alnum]).

Definition hostname_re : re := RCat (RStar (RCat label any_char)) label.

(** The pattern of URIs, in its parts: an escaped octet, the characters of user
    names, hosts and paths, the groups of an address, and the whole. *)
Definition sub_delims : list (Z * Z) := [(33, 33); (36, 36); (38, 46); (48, 57); (59, 59); (61, 61); (65, 90); (95, 95); (97, 122); (126, 126)].
Definition escaped : re := rcat [rc 37; hexdigit; hexdigit].
Definition uri_chars (more : list (Z * Z)) : re := RAlt (RSet (more ++ sub_delims)) escaped.
Definition pchar : re := uri_chars [(58, 58); (64, 64)].

Definition dec_octet : re :=
  ralt [RCat (rlit (u "25")) (RSet [(48, 53)]); rcat [rc 50; RSet [(48, 52)]; digit];
        rcat [ropt (RSet [(48, 49)]); digit; ropt digit]].
Definition dotted : re := RCat (rtimes 3 (RCat dec_octet (rc 46))) dec_octet.
Definition colons : re := rlit (u "::").
Definition ls32 : re := RAlt (rcat [hextet; rc 58; hextet]) dotted.
Definition upto_groups (n : nat) : re := ropt (RCat (rupto n hc) hextet).

Definition ip_literal : re :=
  RAlt (RCat (ralt [rtimes 6 hc; RCat colons (rtimes 5 hc); rcat [ropt hextet; colons; rtimes 4 hc];
                    rcat [upto_groups 1; colons; rtimes 3 hc]; rcat [upto_groups 2; colons; rtimes 2 hc];
                    rcat [upto_groups 3; colons; hc]; RCat (upto_groups 4) colons]) ls32)
       (RAlt (rcat [upto_groups 5; colons; hextet]) (RCat (upto_groups 6) colons)).

Definition ip_future : re :=
  rcat [RSet [(86, 86); (118, 118)]; rplus hexdigit; rc 46; rplus (RSet ((58, 58) :: sub_delims))].

Definition scheme : re :=
  RCat (RSet [(65, 90); (97, 122)]) (RStar (RSet [(43, 43); (45, 46); (48, 57); (65, 90); (97, 122)])).

Definition path_rootless : re := RCat (rplus pchar) (RStar (RCat (rc 47) (RStar pchar))).

Definition hier_part : re :=
  ralt [rcat [rlit (u "//"); ropt (RCat (RStar (uri_chars [(58, 58)])) (rc 64));
              ralt [rcat [rc 91; RAlt ip_literal ip_future; rc 93]; dotted; RStar (uri_chars [])];
              ropt (RCat (rc 58) (RStar digit)); RStar (RCat (rc 47) (RStar pchar))];
        RCat (rc 47) (ropt path_rootless); path_rootless; REmpty].

Definition uri_re : re :=
  rcat [scheme; rc 58; hier_part;
        ropt (RCat (rc 63) (RStar (RAlt pchar (RSet [(47, 47); (63, 63)]))));
        ropt (RCat (rc 35) (RStar (RAlt pchar (RSet [(47, 47); (63, 63)]))))].

(** [/r/.test(s)]: some part of the text matches. *)
Fixpoint rsearch (r : re) (s : jstr) : bool :=
  rprefix r s || match s with [] => false | _ :: s => rsearch r s end.

(** ** Validators *)

(** The options of a validator, which is a type and a message; and its answer
    for a value, an error or [undefined]. *)
Record failure := { f_type : jstr; f_message : jstr }.

Definition verdict := res (option failure).

(** The end of a validator: [if (!d && c) return error]. *)
Definition answer (b : failure) (d : bool) (c : value) : verdict := Ok (if negb d && truthy c then Some b else None).

(** [/.../.test(c)]. *)
Definition test (p : jstr -> bool) (c : value) : res bool := s <-? to_string c; Ok (p s).

Definition all_digits (s : jstr) : bool := rmatch (rplus digit) s.

(** [/^\d+$/.test(c) && lo <= c && hi >= c]. *)
Definition in_range (lo hi : Z) (c : value) : res bool :=
  s <-? to_string c; Ok (all_digits s && (lo <=? digits_val 10 s) && (digits_val 10 s <=? hi)).

Definition ipv4 (b : failure) (c : value) : verdict := d <-? test (rmatch ipv4_re) c; answer b d c.
Definition ipv6 (b : failure) (c : value) : verdict := d <-? test (rsearch ipv6_re) c; answer b d c.
Definition ipv4mask (b : failure) (c : value) : verdict := d <-? in_range 1 32 c; answer b d c.
Definition mac (b : failure) (c : value) : verdict := d <-? test (rmatch mac_re) c; answer b d c.
Definition uuid (b : failure) (c : value) : verdict :=
  d <-? test (fun s => rmatch (uuid_re (rc 45)) s || rmatch (uuid_re REmpty) s) c; answer b d c.
Definition port (b : failure) (c : value) : verdict := d <-? in_range 1 65535 c; answer b d c.
Definition hostname (b : failure) (c : value) : verdict := d <-? test (rmatch hostname_re) c; answer b d c.

Definition uri (b : failure) (c : value) : verdict := d <-? test (rsearch uri_re) c; answer b d c.

(** [e.split('/')], on a string. *)
Definition split_slash (e : value) : res (list jstr) :=
  match e with VStr s => Ok (split_on 47 s) | _ => Err TypeError end.

Definition nth_text (f : list jstr) (n : nat) : value := match f !! n with Some s => VStr s | None => VUndef end.

Definition cidr (b : failure) (e : value) : verdict :=
  f <-? split_slash e;
  i <-? ipv4 b (nth_text f 0);
  j <-? ipv4mask b (nth_text f 1);
  Ok (if bool_decide (i <> None) || bool_decide (j <> None) then Some b else None).

Definition cidr_or_ipv4 (b : failure) (e : value) : verdict :=
  f <-? split_slash e;
  i <-? ipv4 b (nth_text f 0);
  j <-? ipv4mask b (nth_text f 1);
  let i := bool_decide (i <> None) in let j := bool_decide (j <> None) in
  Ok (if (i || negb (zlen f =? 1)) && (i || j || negb (zlen f =? 2)) then Some b else None).

(** The validator of YAML, for the options of [jsYaml.load]: it collects the
    exception in [d], thrown also for an object or [null]. *)
Definition yaml (o : load_options) (b : failure) (c : value) : verdict :=
  s <-? to_string c;
  let d := match load s o with
           | Ok e => streq (typeof e) (u "object")
           | Err _ => true
           end in
  answer b d c.

(** ** What the address validators accept *)

(** One to three digits, of a value up to 255. *)
Definition octet_text (s : jstr) : Prop :=
  1 <= zlen s <= 3 /\ Forall (fun c => 48 <= c <= 57) s /\ digits_val 10 s <= 255.

Lemma in_range1 a b c : in_ranges [(a, b)] c = true <-> a <= c <= b.
Proof. cbn. rewrite orb_false_r, andb_true_iff, !Z.leb_le. done. Qed.

Lemma lang_rset1 a b s : lang (RSet [(a, b)]) s <-> exists c, s = [c] /\ a <= c <= b.
Proof. rewrite lang_rset. by setoid_rewrite in_range1. Qed.

Lemma lang_cat a b s : lang (RCat a b) s <-> exists s1 s2, s = s1 ++ s2 /\ lang a s1 /\ lang b s2.
Proof. split; [apply lang_cat_inv | intros (s1 & s2 & -> & H1 & H2); by constructor]. Qed.

Lemma digit_val_of c : 48 <= c <= 57 -> digit_val c = c - 48.
Proof.
  intros Hc. pose proof (digit_val_char (c - 48) ltac:(lia)) as H. unfold digit_char in H.
  replace (c - 48 <? 10) with true in H by lia. by replace (48 + (c - 48)) with c in H by lia.
Qed.

Lemma lang_octet s : lang octet s <-> octet_text s.
Proof.
  unfold octet. cbn [ralt]. rewrite !lang_ralt. split.
  - intros [H | [H | H]].
    + repeat rewrite lang_rcat_cons in H. destruct H as (s1 & s2 & -> & H1 & (s3 & s4 & -> & H3 & ->%lang_rcat_nil)%lang_rcat_cons).
      apply lang_rset1 in H3 as (c & -> & Hc). change (u "25") with [50; 53] in H1. cbn [rlit map rcat] in H1.
      apply lang_cat in H1 as (t1 & t2 & -> & (c1 & -> & ?)%lang_rset1 & (t3 & t4 & -> & (c2 & -> & ?)%lang_rset1 & H1)%lang_cat).
      inversion H1; subst. unfold octet_text, zlen, digits_val. cbn. rewrite !digit_val_of by lia.
      split; [lia|]. split; [repeat constructor; lia | lia].
    + apply lang_rcat_cons in H as (s1 & s2 & -> & (c1 & -> & H1)%lang_rset1 & (s3 & s4 & -> & (c2 & -> & H2)%lang_rset1 &
        (s5 & s6 & -> & (c3 & -> & H3)%lang_rset1 & ->%lang_rcat_nil)%lang_rcat_cons)%lang_rcat_cons).
      unfold octet_text, zlen, digits_val. cbn. rewrite !digit_val_of by lia.
      split; [lia|]. split; [repeat constructor; lia | lia].
    + apply lang_rcat_cons in H as (s1 & s2 & -> & H1 & (s3 & s4 & -> & (c2 & -> & H2)%lang_rset1 &
        (s5 & s6 & -> & H3 & ->%lang_rcat_nil)%lang_rcat_cons)%lang_rcat_cons).
      apply lang_ropt in H1 as [(c1 & -> & H1)%lang_rset1 | ->], H3 as [(c3 & -> & H3)%lang_rset1 | ->];
        unfold octet_text, zlen, digits_val; cbn; rewrite !digit_val_of by lia;
        (split; [lia|]; split; [repeat constructor; lia | lia]).
  - intros (Hl & Hd & Hv). destruct s as [|a [|b [|c [|d s]]]]; unfold zlen in Hl; cbn [length] in Hl; try lia;
      unfold digits_val in Hv; cbn [fold_left] in Hv; rewrite !Forall_cons_iff in Hd;
      rewrite !digit_val_of in Hv by tauto.
    + right. right. apply lang_rcat_cons. exists [], [a]. split; [done|]. split; [apply lang_ropt; by right|].
      apply lang_rcat_cons. exists [a], []. split; [done|]. split; [apply lang_rset1; exists a; split; [done | lia]|].
      apply lang_rcat_cons. exists [], []. split; [done|]. split; [apply lang_ropt; by right | constructor].
    + right. right. apply lang_rcat_cons. exists [], [a; b]. split; [done|]. split; [apply lang_ropt; by right|].
      apply lang_rcat_cons. exists [a], [b]. split; [done|]. split; [apply lang_rset1; exists a; split; [done | lia]|].
      apply lang_rcat_cons. exists [b], []. split; [done|]. split; [apply lang_ropt; left; apply lang_rset1; exists b; split; [done | lia] | constructor].
    + destruct (decide (a <= 49)) as [Ha | Ha]; [|destruct (decide (b <= 52)) as [Hb | Hb]].
      * right. right. apply lang_rcat_cons. exists [a], [b; c]. split; [done|].
        split; [apply lang_ropt; left; apply lang_rset1; exists a; split; [done | lia]|].
        apply lang_rcat_cons. exists [b], [c]. split; [done|]. split; [apply lang_rset1; exists b; split; [done | lia]|].
        apply lang_rcat_cons. exists [c], []. split; [done|]. split; [apply lang_ropt; left; apply lang_rset1; exists c; split; [done | lia] | constructor].
      * right. left. assert (a = 50) as -> by lia. apply lang_rcat_cons. exists [50], [b; c]. split; [done|].
        split; [apply lang_rset1; exists 50; split; [done | lia]|].
        apply lang_rcat_cons. exists [b], [c]. split; [done|]. split; [apply lang_rset1; exists b; split; [done | lia]|].
        apply lang_rcat_cons. exists [c], []. split; [done|]. split; [apply lang_rset1; exists c; split; [done | lia] | constructor].
      * left. assert (a = 50) as -> by lia. assert (b = 53) as -> by lia. apply lang_rcat_cons. exists [50; 53], [c].
        split; [done|]. split; [apply rmatch_lang; vm_compute; reflexivity|].
        apply lang_rcat_cons. exists [c], []. split; [done|]. split; [apply lang_rset1; exists c; split; [done | lia] | constructor].
Qed.

(** Four octets with a character between each two. *)
Definition quad (s : jstr) : Prop :=
  exists o1 c1 o2 c2 o3 c3 o4, s = o1 ++ [c1] ++ o2 ++ [c2] ++ o3 ++ [c3] ++ o4 /\
    octet_text o1 /\ octet_text o2 /\ octet_text o3 /\ octet_text o4 /\
    Forall (fun c => lang any_char [c]) [c1; c2; c3].

Lemma ipv4_quad s : rmatch ipv4_re s = true <-> quad s.
Proof.
  rewrite rmatch_lang. unfold ipv4_re. cbn [rtimes]. split.
  - intros (s1 & s2 & -> & H1 & H2%lang_octet)%lang_cat.
    assert (Hgroup : forall t, lang (RCat octet any_char) t -> exists o c, t = o ++ [c] /\ octet_text o /\ lang any_char [c]).
    { intros t (o & c & -> & Ho%lang_octet & Hc)%lang_cat. pose proof Hc as (x & -> & _)%lang_rset. by exists o, x. }
    apply lang_cat in H1 as (t1 & t2 & -> & G1 & (t3 & t4 & -> & G2 & (t5 & t6 & -> & G3 & G4)%lang_cat)%lang_cat).
    inversion G4; subst. apply Hgroup in G1 as (o1 & c1 & -> & ? & ?), G2 as (o2 & c2 & -> & ? & ?), G3 as (o3 & c3 & -> & ? & ?).
    exists o1, c1, o2, c2, o3, c3, s2. split; [by rewrite app_nil_r, <- !app_assoc|].
    repeat (split; [done|]). repeat (apply Forall_cons_2; [done|]). apply Forall_nil_2.
  - intros (o1 & c1 & o2 & c2 & o3 & c3 & o4 & -> & H1 & H2 & H3 & H4 & Hc). rewrite !Forall_cons_iff in Hc.
    apply lang_cat. exists ((o1 ++ [c1]) ++ (o2 ++ [c2]) ++ (o3 ++ [c3]) ++ []), o4.
    split; [by rewrite app_nil_r, <- !app_assoc|]. split; [|by apply lang_octet].
    repeat (apply lang_cat; do 2 eexists; split; [reflexivity|]; split; [apply lang_cat; do 2 eexists; split; [reflexivity|];
      split; [by apply lang_octet | tauto]|]). constructor.
Qed.

Lemma ipv4_quad_answer b s : ipv4 b (VStr s) = Ok None <-> s = [] \/ quad s.
Proof.
  unfold ipv4, test, answer. cbn [to_string res_bind]. rewrite <- ipv4_quad.
  destruct (rmatch ipv4_re s) eqn:E; cbn [negb andb]; [tauto|].
  destruct s as [|c s]; cbn [truthy]; [tauto|]. split; [done|]. by intros [? | ?].
Qed.

(** The validator of IPv4 addresses accepts the empty text and the texts
    of four octets, each of one to three digits and at most 255, that any
    character separates: dotted addresses are accepted, and so are texts such
    as [1a2b3c4], which have no dot at all. *)
Theorem ipv4_accepts b s :
  ipv4 b (VStr s) = Ok None <-> s = [] \/ quad s.
Proof. apply ipv4_quad_answer. Qed.

Lemma ipv4_accepts_examples b :
  ipv4 b (VStr (u "192.168.0.255")) = Ok None /\ ipv4 b (VStr (u "1a2b3c4")) = Ok None /\
  ipv4 b (VStr (u "192.168.0.256")) = Ok (Some b).
Proof. repeat split; vm_compute; reflexivity. Qed.

(** ** Masks *)

Lemma all_digits_spec s : all_digits s = true <-> s <> [] /\ Forall (fun c => 48 <= c <= 57) s.
Proof.
  unfold all_digits. rewrite rmatch_lang, lang_rplus. split.
  - intros (l & Hne & -> & Hl). split.
    + destruct Hl as [|x l (c & -> & _)%lang_rset1 _]; [done | by cbn].
    + clear Hne. induction Hl as [|x l (c & -> & Hc)%lang_rset1 _ IH]; [constructor | by constructor].
  - intros [Hne Hs]. exists (map (fun c => [c]) s). split; [by destruct s|]. split.
    + clear. induction s as [|c s IH]; cbn; [done | by rewrite <- IH].
    + apply Forall_map. eapply Forall_impl; [|exact Hs]. intros c Hc. apply lang_rset1. by exists c.
Qed.

(** A text that an integer validator of a range accepts. *)
Definition range_text (lo hi : Z) (s : jstr) : Prop :=
  s = [] \/ (Forall (fun c => 48 <= c <= 57) s /\ lo <= digits_val 10 s <= hi).

Lemma in_range_answer lo hi b s :
  (d <-? in_range lo hi (VStr s); answer b d (VStr s)) = Ok None <-> range_text lo hi s.
Proof.
  unfold in_range, answer, range_text. cbn [to_string res_bind].
  destruct s as [|c s]; cbn [truthy]; [rewrite andb_false_r; tauto|]. rewrite andb_true_r.
  destruct (all_digits (c :: s) && (lo <=? digits_val 10 (c :: s)) && (digits_val 10 (c :: s) <=? hi)) eqn:E; cbn [negb].
  - split; [|done]. intros _. right. breflect. apply all_digits_spec in H as [_ H]. done.
  - split; [done|]. intros [? | [Hd Hv]]; [done|]. rewrite (proj2 (all_digits_spec (c :: s))) in E by done.
    rewrite andb_true_l in E. apply andb_false_iff in E as [E | E]; breflect; lia.
Qed.


Lemma cidr_accepts_examples b :
  cidr b (VStr (u "10.0.0.0/24")) = Ok None /\ cidr b (VStr (u "10.0.0.1")) = Ok None /\
  cidr b (VStr (u "/24/x")) = Ok None /\ cidr b (VStr (u "10.0.0.0/33")) = Ok (Some b).
Proof. repeat split; vm_compute; reflexivity. Qed.

(** ** YAML *)

(** The validator of YAML accepts a text that cannot be loaded, and refuses
    one that loads to a string, a number or a boolean. *)
Lemma yaml_accepts o b s :
  yaml o b (VStr s) = Ok None <->
  s = [] \/ match load s o with Ok e => typeof e = u "object" | Err _ => True end.
Proof.
  unfold yaml, answer. cbn [to_string res_bind]. destruct s as [|c s]; cbn [truthy]; [rewrite andb_false_r; tauto|].
  rewrite andb_true_r. destruct (load (c :: s) o) as [e|e]; [|cbn; tauto].
  destruct (streq (typeof e) (u "object")) eqn:E; cbn [negb].
  - apply streq_eq in E. tauto.
  - apply streq_neq in E. split; [done|]. by intros [? | ?].
Qed.

Lemma yaml_accepts_examples b :
  let o := LoadOptions YamlSchema.DEFAULT_SAFE_SCHEMA false in
  yaml o b (VStr (u "a: [")) = Ok None /\ yaml o b (VStr (u "text")) = Ok (Some b).
Proof. split; vm_compute; reflexivity. Qed.

(** ** URIs *)

Lemma rsearch_spec r s : rsearch r s = true <-> exists p m t, s = p ++ m ++ t /\ lang r m.
Proof.
  induction s as [|c s IH]; cbn [rsearch]; rewrite orb_true_iff, rprefix_lang.
  - split; [intros [(m & t & E & H) | ?]; [by exists [], m, t | done]|].
    intros (p & m & t & E & H). symmetry in E. apply app_nil in E as [-> E]. left. by exists m, t.
  - rewrite IH. split.
    + intros [(m & t & E & H) | (p & m & t & -> & H)]; [by exists [], m, t | by exists (c :: p), m, t].
    + intros ([|d p] & m & t & E & H); [left; by exists m, t | right]. injection E as -> ->. by exists p, m, t.
Qed.

(** A letter, characters of a scheme, and a colon. *)
Definition has_scheme (s : jstr) : Prop := exists p m t, s = p ++ m ++ [58] ++ t /\ lang scheme m.

(** The pattern of URIs is not anchored and all that follows the scheme may be
    empty: the validator accepts every text with a letter and a colon after it,
    between which there are only characters of a scheme. *)
Lemma uri_accepts b s : uri b (VStr s) = Ok None <-> s = [] \/ has_scheme s.
Proof.
  assert (E : rsearch uri_re s = true <-> has_scheme s).
  { rewrite rsearch_spec. unfold has_scheme, uri_re. split.
    - intros (p & m & t & -> & (m1 & m2 & -> & H1 & (m3 & m4 & -> & H3 & _)%lang_rcat_cons)%lang_rcat_cons).
      apply lang_rset in H3 as (c & -> & Hc). cbn in Hc. rewrite orb_false_r in Hc. breflect.
      assert (c = 58) as -> by lia. exists p, m1, (m4 ++ t). split; [by rewrite <- !app_assoc | done].
    - intros (p & m & t & -> & Hm). exists p, (m ++ [58]), t. split; [by rewrite <- !app_assoc|].
      apply lang_rcat_cons. exists m, [58]. split; [done|]. split; [done|].
      apply lang_rcat_cons. exists [58], []. split; [done|]. split; [by constructor|].
      apply rmatch_lang. vm_compute. reflexivity. }
  unfold uri, test, answer. cbn [to_string res_bind]. rewrite <- E. clear E.
  destruct (rsearch uri_re s); cbn [negb andb]; [tauto|].
  destruct s as [|c s]; cbn [truthy]; [tauto|]. split; [done|]. by intros [? | ?].
Qed.

Lemma uri_accepts_examples b :
  uri b (VStr (u "http://example.com/a?b#c")) = Ok None /\ uri b (VStr (u "not an uri: at all")) = Ok None /\
  uri b (VStr (u "//example.com")) = Ok (Some b).
Proof. repeat split; vm_compute; reflexivity. Qed.
