(* ===== verification/SchemaTree.v ===== *)
(** The tree of the schemas: the routes of the views, parents and children,
    the ancestors of a resource and the bread crumb made of them; and the query
    parameters of the page. *)

From Stdlib Require Import ZArith Lia List String Bool.
From stdpp Require Import base list sets list_numbers tactics.
From S2P Require Import Prelude JsNum Js PagedCollection.

(** ** Schemas and their parents *)

(** The attributes of a schema model that the routes use. *)
Record schema_node := {
  n_id : jstr;
  n_parent : option jstr;
  n_singular : jstr;
  n_plural : jstr;
  n_url : jstr;
  n_prefix : jstr;
  n_title : jstr
}.

Section Tree.
(** The schema collection. *)
Context (nodes : list schema_node).

(** [collection.get(id)]. *)
Definition get_node (id : jstr) : option schema_node := find (fun a => streq (n_id a) id) nodes.

Definition hasParent (a : schema_node) : bool := match n_parent a with None | Some [] => false | Some _ => true end.

Definition parent (a : schema_node) : option schema_node :=
  match n_parent a with Some id => get_node id | None => None end.

(** [parentProperty]. *)
Definition parentProperty (a : schema_node) : jstr := default (u "undefined") (n_parent a) ++ u "_id".

Definition children (a : schema_node) : list schema_node :=
  List.filter (fun b => bool_decide (n_parent b = Some (n_id a))) nodes.

(** [url]: the recursion ends at a schema without a parent, or throws at a
    parent that is not in the collection. *)
Fixpoint url (fuel : nat) (a : schema_node) : res jstr :=
  match fuel with
  | O => Err OutOfFuel
  | S fuel =>
      if negb (hasParent a) then Ok (n_url a)
      else match parent a with
           | None => Err TypeError
           | Some p => x <-? url fuel p; Ok (x ++ u "/:" ++ n_singular p ++ u "/" ++ n_plural a)
           end
  end.

(** [detailPath]. *)
Definition detailPath (a : schema_node) (id : jstr) : jstr := n_prefix a ++ u "/" ++ id.

(** ** The ancestors of a resource *)

(** A resource of a schema: its identifier, its name and its parent's identifier. *)
Record resource_node := { m_schema : schema_node; m_id : jstr; m_name : option jstr; m_parent : option jstr }.

(** [getAncestors]: the resources fetched one after the other, the parent
    first; [None] when the callback is never called, for a resource without the
    identifier of its parent or a request that fails.  [fetch] is the server's
    answer to [new h({id})], the name and the identifier of the parent of the
    resource that has the identifier. *)
Fixpoint getAncestors (fetch : schema_node -> jstr -> option (option jstr * option jstr)) (fuel : nat)
    (m : resource_node) (g : list resource_node) : res (option (list resource_node)) :=
  match fuel with
  | O => Err OutOfFuel
  | S fuel =>
      if negb (hasParent (m_schema m)) then Ok (Some g)
      else match m_parent m with
           | None => Ok None
           | Some id =>
               match parent (m_schema m) with
               | None => Err TypeError
               | Some p =>
                   match fetch p id with
                   | None => Ok None
                   | Some r =>
                       let i := {| m_schema := p; m_id := id; m_name := r.1; m_parent := r.2 |} in
                       getAncestors fetch fuel i (g ++ [i])
                   end
               end
           end
  end.

(** An entry of the bread crumb. *)
Record crumb := { c_title : option jstr; c_url : jstr }.

(** [`/${m.schema.get('plural')}/${m.get('id')}`]. *)
Definition segment (m : resource_node) : jstr := u "/" ++ n_plural (m_schema m) ++ u "/" ++ m_id m.

(** [e.reduceRight(...)] of [DetailView.render] for the index [j]: from the
    last index down to [j]. *)
Fixpoint crumb_url (n j len : nat) (e : list resource_node) : jstr :=
  match e with
  | [] => []
  | m :: e =>
      let l := crumb_url (S n) j len e in
      if Nat.ltb n j then l
      else (if Nat.eqb n (len - 1) then l ++ n_prefix (m_schema m) else l) ++ segment m
  end.

(** The entries of a resource and its ancestors, as [breadCrumb.update] gets them. *)
Definition breadcrumb (e : list resource_node) : list crumb :=
  rev (concat (imap (fun j h =>
    {| c_title := m_name h; c_url := crumb_url 0 j (length e) e |}
    :: (if Nat.eqb (length e) (j + 1)
        then [{| c_title := Some (n_title (m_schema h)); c_url := n_url (m_schema h) |}] else [])) e)).

(** * Properties *)

(** ** Routes *)

(** The parents of a schema are in the collection, and there are [rank] of them. *)
Definition ranked (rank : schema_node -> nat) : Prop :=
  forall a, a ∈ nodes -> hasParent a = true -> exists p, parent a = Some p /\ (rank p < rank a)%nat.

Lemma get_node_in id p : get_node id = Some p -> p ∈ nodes /\ n_id p = id.
Proof. intros [H1 H2]%find_some. split; [by apply list_elem_of_In | by apply streq_eq]. Qed.

Lemma parent_in a p : parent a = Some p -> p ∈ nodes /\ n_parent a = Some (n_id p).
Proof.
  unfold parent. destruct (n_parent a) as [id|]; [|done]. intros [H1 <-]%get_node_in. done.
Qed.

(** The chain of parents of a schema, from the root. *)
Inductive chain : schema_node -> list schema_node -> Prop :=
| chain_root a : hasParent a = false -> chain a [a]
| chain_child a p l : hasParent a = true -> parent a = Some p -> chain p l -> chain a (l ++ [a]).

(** The route of a chain: the root's URL, then for each schema the parent's
    parameter and its plural name. *)
Fixpoint route (p : schema_node) (l : list schema_node) : jstr :=
  match l with
  | [] => []
  | a :: l => u "/:" ++ n_singular p ++ u "/" ++ n_plural a ++ route a l
  end.

Definition chain_route (l : list schema_node) : jstr :=
  match l with [] => [] | r :: l => n_url r ++ route r l end.

Lemma last_cons {A} (l : list A) b p : List.last (b :: l) p = List.last l b.
Proof.
  revert b p. induction l as [|c l IH]; intros b p; [done|].
  change (List.last (b :: c :: l) p) with (List.last (c :: l) p). by rewrite !IH.
Qed.

Lemma route_app p l a :
  route p (l ++ [a]) = route p l ++ u "/:" ++ n_singular (List.last l p) ++ u "/" ++ n_plural a.
Proof.
  revert p. induction l as [|b l IH]; intros p; [cbn; by rewrite app_nil_r|].
  cbn [app route]. rewrite IH, last_cons. by rewrite <- !app_assoc.
Qed.

(** A chain ends with its schema and starts with a root. *)
Lemma chain_ends a l : chain a l -> exists r l', l = r :: l' /\ List.last l' r = a /\ hasParent r = false.
Proof.
  induction 1 as [a H | a p l H1 H2 _ (r & l' & -> & _ & Hr)]; [by exists a, []|].
  exists r, (l' ++ [a]). split; [done|]. split; [apply List.last_last | done].
Qed.

Lemma chain_in a l : a ∈ nodes -> chain a l -> Forall (fun b => b ∈ nodes) l.
Proof.
  intros Ha. induction 1 as [a H | a p l H1 H2 _ IH]; [by constructor|].
  apply Forall_app. split; [|by constructor]. apply IH. by apply parent_in in H2 as [].
Qed.

Lemma ranked_chain rank a : ranked rank -> a ∈ nodes -> exists l, chain a l /\ (length l <= S (rank a))%nat.
Proof.
  intros Hr. remember (rank a) as n eqn:E. revert a E.
  induction (lt_wf n) as [n _ IH]; intros a -> Ha.
  destruct (hasParent a) eqn:Hp; [|exists [a]; split; [by constructor | cbn; lia]].
  destruct (Hr a Ha Hp) as (p & Hpa & Hlt).
  destruct (IH (rank p) Hlt p eq_refl ltac:(by apply parent_in in Hpa as [])) as (l & Hl & Hn).
  exists (l ++ [a]). split; [by econstructor|]. rewrite length_app. cbn. lia.
Qed.

Lemma chain_url a l fuel : chain a l -> (length l <= fuel)%nat -> url fuel a = Ok (chain_route l).
Proof.
  intros H. revert fuel. induction H as [a H | a p l H1 H2 Hl IH]; intros fuel Hf.
  - destruct fuel as [|fuel]; [cbn in Hf; lia|]. cbn. by rewrite H, app_nil_r.
  - rewrite length_app in Hf. destruct fuel as [|fuel]; [cbn in Hf; lia|].
    cbn [url]. rewrite H1, H2, (IH fuel) by (cbn in Hf; lia). cbn [negb res_bind].
    destruct (chain_ends _ _ Hl) as (r & l' & -> & Hlast & _). cbn [app chain_route].
    by rewrite route_app, Hlast, <- !app_assoc.
Qed.

Lemma chain_fun a l k : chain a l -> chain a k -> l = k.
Proof.
  intros H. revert k. induction H as [a H | a p l H1 H2 Hl IH]; intros k Hk;
    inversion Hk; subst; simplify_eq; try congruence. f_equal; auto.
Qed.

(** Where parents never form a cycle and every parent is in the collection,
    [url] ends, and gives the URL of the root schema followed by a parameter
    and a plural name for each schema down the chain. *)
Theorem url_route rank a :
  ranked rank -> a ∈ nodes ->
  exists l, chain a l /\ forall fuel, (rank a < fuel)%nat -> url fuel a = Ok (chain_route l).
Proof.
  intros Hr Ha. destruct (ranked_chain _ _ Hr Ha) as (l & Hl & Hn).
  exists l. split; [done|]. intros fuel Hf. apply chain_url; [done | lia].
Qed.

(** ** Ancestors *)

(** The ancestors that [getAncestors] collects are one resource for each schema
    of the chain. *)
Lemma getAncestors_chain fetch fuel m g g' :
  getAncestors fetch fuel m g = Ok (Some g') ->
  exists t, g' = g ++ t /\ chain (m_schema m) (map m_schema (rev (m :: t))).
Proof.
  revert m g. induction fuel as [|fuel IH]; intros m g; cbn [getAncestors]; [done|].
  destruct (hasParent (m_schema m)) eqn:Hp; cbn [negb].
  2:{ intros [= <-]. exists []. split; [by rewrite app_nil_r | by constructor]. }
  destruct (m_parent m) as [id|]; [|done]. destruct (parent (m_schema m)) as [p|] eqn:Hpa; [|done].
  destruct (fetch p id) as [r|]; [|done]. intros (t & -> & Ht)%IH. rewrite <- app_assoc.
  eexists. split; [reflexivity|]. cbn [rev] in *. rewrite map_app. by econstructor.
Qed.

(** Without a cycle the requests end: the callback is called with the
    ancestors, or never. *)
Lemma getAncestors_ends rank fetch fuel m g :
  ranked rank -> m_schema m ∈ nodes -> (rank (m_schema m) < fuel)%nat ->
  exists o, getAncestors fetch fuel m g = Ok o.
Proof.
  intros Hr. revert m g. induction fuel as [|fuel IH]; intros m g Hm Hf; [lia|]. cbn [getAncestors].
  destruct (hasParent (m_schema m)) eqn:Hp; cbn [negb]; [|by eexists].
  destruct (m_parent m) as [id|]; [|by eexists]. destruct (Hr _ Hm Hp) as (p & Hpa & Hlt). rewrite Hpa.
  destruct (fetch p id) as [r|]; [|by eexists]. apply IH; cbn; [by apply parent_in in Hpa as [] | lia].
Qed.

(** ** The bread crumb *)

(** The URL of the entry [j]: the prefix of the root and a segment for each
    resource from the root down to this one. *)
Lemma crumb_url_from n j len e d :
  e <> [] -> (n + length e = len)%nat -> (j < len)%nat ->
  crumb_url n j len e =
    n_prefix (m_schema (List.last e d)) ++ concat (map segment (rev (drop (j - n) e))).
Proof.
  revert n. induction e as [|m e IH]; intros n He Hn Hj; [done|]. cbn [crumb_url length] in *.
  destruct e as [|m' e].
  - cbn in Hn. destruct (Nat.ltb_spec n j) as [H | H]; [lia|].
    replace (j - n)%nat with O by lia. replace (n =? len - 1)%nat with true by (symmetry; apply Nat.eqb_eq; lia).
    cbn. by rewrite app_nil_r.
  - rewrite IH by (done || lia). rewrite !last_cons.
    destruct (Nat.ltb_spec n j) as [H | H].
    + replace (j - n)%nat with (S (j - S n)) by lia. done.
    + replace (n =? len - 1)%nat with false by (symmetry; apply Nat.eqb_neq; cbn [length] in Hn; lia).
      replace (j - n)%nat with O by lia. replace (j - S n)%nat with O by lia. rewrite !drop_0.
      change (rev (m :: m' :: e)) with (rev (m' :: e) ++ [m]).
      rewrite map_app, concat_app. cbn [map concat]. by rewrite app_nil_r, <- app_assoc.
Qed.

(** An entry for each element and one more for the last. *)
Lemma concat_imap_last {A B} (f : nat -> A -> B) (z : A -> B) k d :
  k <> [] ->
  concat (imap (fun j h => f j h :: (if Nat.eqb (length k) (j + 1) then [z h] else [])) k)
  = imap f k ++ [z (List.last k d)].
Proof.
  revert f d. induction k as [|h k IH]; intros f d Hk; [done|]. destruct k as [|h' k]; [done|].
  rewrite (imap_cons f h), (last_cons (h' :: k)). specialize (IH (f ∘ S) h ltac:(done)).
  exact (f_equal (cons (f O h)) IH).
Qed.

(** The entries: the list of the root's schema, and then each resource from the
    root to the last. *)
Lemma breadcrumb_entries m g :
  breadcrumb (m :: g) =
    let e := m :: g in
    let r := List.last g m in
    {| c_title := Some (n_title (m_schema r)); c_url := n_url (m_schema r) |}
    :: rev (imap (fun j h => {| c_title := m_name h; c_url := crumb_url 0 j (length e) e |}) e).
Proof.
  unfold breadcrumb. cbv zeta.
  rewrite (concat_imap_last (fun j h => {| c_title := m_name h; c_url := crumb_url 0 j (length (m :: g)) (m :: g) |})
             (fun h => {| c_title := Some (n_title (m_schema h)); c_url := n_url (m_schema h) |}) (m :: g) m) by done.
  by rewrite rev_app_distr, last_cons.
Qed.
End Tree.

(** Networks, their ports, and the addresses of a port. *)
Definition demo_node (id plural : jstr) (p : option jstr) : schema_node :=
  {| n_id := id; n_parent := p; n_singular := id; n_plural := plural;
     n_url := u "/v1.0/" ++ plural; n_prefix := u "/v1.0"; n_title := id |}.

Definition demo_network : schema_node := demo_node (u "network") (u "networks") None.
Definition demo_port : schema_node := demo_node (u "port") (u "ports") (Some (u "network")).
Definition demo_address : schema_node := demo_node (u "address") (u "addresses") (Some (u "port")).
Definition demo_nodes : list schema_node := [demo_address; demo_network; demo_port].

Definition demo_rank (a : schema_node) : nat :=
  if streq (n_id a) (u "network") then 0 else if streq (n_id a) (u "port") then 1 else 2.

Lemma demo_ranked : ranked demo_nodes demo_rank.
Proof.
  intros a Ha Hp. unfold demo_nodes in Ha. rewrite !elem_of_cons, elem_of_nil in Ha.
  destruct Ha as [-> | [-> | [-> | []]]]; [exists demo_port | discriminate Hp | exists demo_network];
    (split; [reflexivity | vm_compute; lia]).
Qed.

Lemma url_route_witness :
  chain demo_nodes demo_address [demo_network; demo_port; demo_address] /\
  url demo_nodes 3 demo_address = Ok (u "/v1.0/networks/:network/ports/:port/addresses").
Proof.
  assert (Hc : chain demo_nodes demo_address [demo_network; demo_port; demo_address]).
  { apply (chain_child _ demo_address demo_port [demo_network; demo_port]); [done | done|].
    apply (chain_child _ demo_port demo_network [demo_network]); [done | done|]. by constructor. }
  destruct (url_route demo_nodes demo_rank demo_address demo_ranked ltac:(by left)) as (l & Hl & H).
  split; [exact Hc|]. rewrite (chain_fun _ _ _ _ Hl Hc) in H. exact (H 3%nat ltac:(vm_compute; lia)).
Defined.
