(* ===== verification/Router.v ===== *)
(** The routes of the page: how the router matches the fragment of the URL, the
    routes that the application registers for the schemas, the query parameters,
    and how the bread crumb leads back to the resources. *)

From Stdlib Require Import ZArith Lia List String Bool.
From stdpp Require Import base list sets list_numbers tactics.
From S2P Require Import Prelude JsNum Js SchemaTree.

(** ** Routes as patterns *)

(** A part of a route: a character to be found as it is, or a parameter. *)
Inductive token := Lit (c : Z) | Param.

#[export] Instance token_eq_dec : EqDecision token.
Proof. solve_decision. Defined.

(** [\w] *)
Definition is_word_char (c : Z) : bool :=
  ((48 <=? c) && (c <=? 57)) || ((65 <=? c) && (c <=? 90)) || (c =? 95) || ((97 <=? c) && (c <=? 122)).

(** [_routeToRegExp] for a route without an optional part or a splat: what
    [namedParam], [/(\(\?)?:\w+/g], replaces is a parameter, the other characters
    stand for themselves ([escapeRegExp] quotes the special ones).  [within] is set
    inside the name of a parameter. *)
Fixpoint tokens (within : bool) (r : jstr) : list token :=
  match r with
  | [] => []
  | c :: r' =>
      if within && is_word_char c then tokens true r'
      else if (c =? 58) && match r' with d :: _ => is_word_char d | [] => false end then Param :: tokens true r'
      else Lit c :: tokens false r'
  end.

Definition routeToRegExp (r : jstr) : res (list token) :=
  if existsb (fun c => (c =? 40) || (c =? 41) || (c =? 42)) r then Err Unsupported else Ok (tokens false r).

(** [[^/?]] *)
Definition in_segment (c : Z) : bool := negb (c =? 47) && negb (c =? 63).

Fixpoint span (s : jstr) : nat :=
  match s with [] => O | c :: s => if in_segment c then S (span s) else O end.

(** [route.exec(fragment)]: the parameters, the longest first, and the query
    after a question mark. *)
Fixpoint exec (t : list token) (s : jstr) : option (list jstr * option jstr) :=
  match t with
  | [] =>
      match s with
      | [] => Some ([], None)
      | c :: q => if c =? 63 then Some ([], Some q) else None
      end
  | Lit c :: t => match s with x :: s => if x =? c then exec t s else None | [] => None end
  | Param :: t =>
      (fix try (k : nat) : option (list jstr * option jstr) :=
         match k with
         | O => None
         | S k' =>
             match exec t (drop k s) with
             | Some (ps, q) => Some (take k s :: ps, q)
             | None => try k'
             end
         end) (span s)
  end.

(** [decodeURIComponent] of a text without an escape. *)
Definition decodeURIComponent (s : jstr) : res jstr :=
  if existsb (fun c => c =? 37) s then Err Unsupported else Ok s.

(** [_extractParameters]: the decoded parameters, and at the end the query, or
    [null]. *)
Definition extractParameters (m : list jstr * option jstr) : res (list (option jstr)) :=
  ps <-? res_map decodeURIComponent (fst m);
  Ok (map Some ps ++ [match snd m with Some (c :: q) => Some (c :: q) | _ => None end]).

(** ** The history *)

(** [\s] *)
Definition is_trailing (c : Z) : bool :=
  (c =? 32) || ((9 <=? c) && (c <=? 13)) || (c =? 160) || (c =? 5760) || ((8192 <=? c) && (c <=? 8202))
  || (c =? 8232) || (c =? 8233) || (c =? 8239) || (c =? 8287) || (c =? 12288) || (c =? 65279).

(** [getFragment]: [fragment.replace(/^[#\/]|\s+$/g, '')]. *)
Fixpoint drop_while {A} (f : A -> bool) (l : list A) : list A :=
  match l with [] => [] | x :: l' => if f x then drop_while f l' else l end.

Definition getFragment (s : jstr) : jstr :=
  let s := match s with c :: s' => if (c =? 35) || (c =? 47) then s' else s | [] => [] end in
  rev (drop_while is_trailing (rev s)).

(** A page: the list of the resources of a schema, or one resource. *)
Inductive page :=
| table_view (a : schema_node)
| detail_view (a : schema_node).

Record handler := { h_route : list token; h_page : page }.

(** [loadUrl]: the first handler whose route matches. *)
Fixpoint loadUrl (hs : list handler) (fragment : jstr) : option (page * (list jstr * option jstr)) :=
  match hs with
  | [] => None
  | h :: hs =>
      match exec (h_route h) fragment with
      | Some m => Some (h_page h, m)
      | None => loadUrl hs fragment
      end
  end.

(** [Backbone.history.route]: a later route comes before the others. *)
Definition add_route (hs : list handler) (r : jstr) (p : page) : res (list handler) :=
  t <-? routeToRegExp r; Ok ({| h_route := t; h_page := p |} :: hs).

(** [buildUi]: the two routes of each schema; [shown] tells whether the type in
    its metadata is the one that the page shows. *)
Fixpoint buildUi (nodes : list schema_node) (shown : schema_node -> bool) (fuel : nat) (l : list schema_node)
    (hs : list handler) : res (list handler) :=
  match l with
  | [] => Ok hs
  | b :: l =>
      if negb (shown b) then buildUi nodes shown fuel l hs
      else
        x <-? url nodes fuel b;
        let f := drop 1 x in
        hs <-? add_route hs f (table_view b);
        hs <-? add_route hs (f ++ u "/:id") (detail_view b);
        buildUi nodes shown fuel l hs
  end.

(** The identifier that the handler of [detail_view] takes from its arguments:
    [2 <= i.length ? i[i.length - 2] : '']. *)
Definition detail_id (args : list (option jstr)) : option jstr :=
  if Nat.leb 2 (length args) then default None (args !! (length args - 2)%nat) else Some [].

(** ** Query parameters *)

(** [setQueryParams]: the search part of the URL it leaves. *)
Definition setQueryParams (a : list (jstr * jstr)) : jstr :=
  fold_left (fun b c => b ++ (if bool_decide (b = []) then u "?" else u "&") ++ c.1 ++ u "=" ++ c.2) a [].

(** [getQueryParams]: [d[1].toString()] throws without an equals sign. *)
Fixpoint read_params (l : list jstr) (a : list (jstr * jstr)) : res (list (jstr * jstr)) :=
  match l with
  | [] => Ok a
  | c :: l =>
      match split_on 61 c with
      | d :: v :: _ => read_params l (obj_set d v a)
      | _ => Err TypeError
      end
  end.

Definition getQueryParams (search : jstr) : res (list (jstr * jstr)) :=
  let b := drop 1 search in
  if bool_decide (b = []) then Ok [] else read_params (split_on 38 b) [].

(** * Properties *)

(** ** Matching *)

Lemma exec_lits p t s : exec (map Lit p ++ t) (p ++ s) = exec t s.
Proof. induction p as [|c p IH]; [done|]. cbn. by rewrite Z.eqb_refl. Qed.

(** A text that a parameter takes whole. *)
Definition segment_text (s : jstr) : Prop := s <> [] /\ Forall (fun c => in_segment c = true) s.

Definition segment_ends (s : jstr) : Prop := match s with c :: _ => in_segment c = false | [] => True end.

Lemma span_segment i s : Forall (fun c => in_segment c = true) i -> segment_ends s -> span (i ++ s) = length i.
Proof.
  intros Hi Hs. induction Hi as [|c i Hc Hi IH]; cbn; [|by rewrite Hc, IH].
  destruct s as [|c s]; [done|]. cbn in *. by rewrite Hs.
Qed.

Lemma exec_param i t s ps q :
  segment_text i -> segment_ends s -> exec t s = Some (ps, q) -> exec (Param :: t) (i ++ s) = Some (i :: ps, q).
Proof.
  intros [Hne Hi] Hs H. cbn [exec]. rewrite (span_segment i s Hi Hs).
  destruct i as [|c i]; [done|]. cbn [length].
  replace (drop (S (length i)) ((c :: i) ++ s)) with s by (symmetry; exact (drop_app_length (c :: i) s)).
  rewrite H. f_equal. f_equal. f_equal. exact (take_app_length (c :: i) s).
Qed.

Lemma tokens_lits p s : Forall (fun c => c <> 58) p -> tokens false (p ++ s) = map Lit p ++ tokens false s.
Proof. induction 1 as [|c p Hc _ IH]; [done|]. cbn. apply Z.eqb_neq in Hc. by rewrite Hc, IH. Qed.

Definition word_ends (s : jstr) : Prop := match s with c :: _ => is_word_char c = false | [] => True end.

Lemma tokens_name w s :
  Forall (fun c => is_word_char c = true) w -> word_ends s -> tokens true (w ++ s) = tokens false s.
Proof.
  intros Hw Hs. induction Hw as [|c w Hc _ IH]; [|cbn; by rewrite Hc].
  destruct s as [|c s]; [done|]. cbn in *. by rewrite Hs.
Qed.

Lemma tokens_param w s :
  w <> [] -> Forall (fun c => is_word_char c = true) w -> word_ends s ->
  tokens false (u "/:" ++ w ++ s) = Lit 47 :: Param :: tokens false s.
Proof.
  intros Hne Hw Hs. destruct w as [|c w]; [done|]. apply Forall_cons_iff in Hw. destruct Hw as [Hc Hw].
  change (tokens false (u "/:" ++ (c :: w) ++ s))
    with (Lit 47 :: (if is_word_char c then Param :: tokens true ((c :: w) ++ s) else Lit 58 :: tokens false ((c :: w) ++ s))).
  rewrite Hc. do 2 f_equal. apply tokens_name; [by constructor | done].
Qed.

(** ** From the bread crumb back to the resource *)

(** A character that the router takes as it is. *)
Definition plain_char (c : Z) : Prop := c <> 40 /\ c <> 41 /\ c <> 42 /\ c <> 58.

(** The names that the server gives its schemas: the URL of a root is its
    prefix and its plural name, a singular name is a word, and no character of a
    route has a meaning of its own. *)
Record names_ok (a : schema_node) : Prop := {
  ok_url : hasParent a = false -> n_url a = n_prefix a ++ u "/" ++ n_plural a;
  ok_root : hasParent a = false -> exists x, n_url a = 47 :: x;
  ok_prefix : Forall plain_char (n_prefix a);
  ok_plural : Forall plain_char (n_plural a);
  ok_singular : n_singular a <> [] /\ Forall (fun c => is_word_char c = true) (n_singular a)
}.

(** An identifier that a URL holds as it is. *)
Definition id_ok (s : jstr) : Prop :=
  s <> [] /\ Forall (fun c => in_segment c = true /\ c <> 37 /\ is_trailing c = false) s.

Lemma id_segment s : id_ok s -> segment_text s.
Proof. intros [H1 H2]. split; [done|]. eapply Forall_impl; [|exact H2]. by intros c []. Qed.

Lemma plain_colon s : Forall plain_char s -> Forall (fun c => c <> 58) s.
Proof. intros H. eapply Forall_impl; [|exact H]. by intros c (? & ? & ? & ?). Qed.

(** The route of a chain takes the URL of its resources. *)
Lemma exec_route m l :
  Forall (fun i => names_ok (m_schema i) /\ id_ok (m_id i)) (m :: l) ->
  exec (tokens false (route (m_schema m) (map m_schema l) ++ u "/:id"))
    (u "/" ++ m_id m ++ concat (map segment l)) = Some (map m_id (m :: l), None).
Proof.
  revert m. induction l as [|i l IH]; intros m Hm; apply Forall_cons_iff in Hm as [[Hn Hid] Hl].
  - change (exec (Param :: []) (m_id m ++ []) = Some ([m_id m], None)).
    apply exec_param; [by apply id_segment | done | done].
  - pose proof Hl as Hl'. apply Forall_cons_iff in Hl' as [[Hn' _] _].
    cbn [map route concat]. rewrite <- !app_assoc.
    rewrite tokens_param; [|apply Hn | apply Hn | done].
    change (u "/" ++ ?x) with ([47] ++ x). rewrite (tokens_lits [47]) by (repeat constructor; lia).
    rewrite tokens_lits by (apply plain_colon, Hn').
    change (exec (Param :: map Lit [47] ++ map Lit (n_plural (m_schema i)) ++
              tokens false (route (m_schema i) (map m_schema l) ++ u "/:id"))
             (m_id m ++ segment i ++ concat (map segment l))
            = Some (m_id m :: map m_id (i :: l), None)).
    apply exec_param; [by apply id_segment | done|]. unfold segment. rewrite <- !app_assoc.
    change (u "/" ++ n_plural ?a ++ ?x) with ([47] ++ n_plural a ++ x). rewrite !exec_lits. by apply IH.
Qed.

Lemma drop_while_keep {A} (f : A -> bool) x l : f x = false -> drop_while f (x :: l) = x :: l.
Proof. intros H. cbn. by rewrite H. Qed.

(** [getFragment] only takes the slash off a path that ends with an identifier. *)
Lemma getFragment_path p i : id_ok i -> getFragment (47 :: p ++ i) = p ++ i.
Proof.
  intros [Hne Hi]. unfold getFragment. cbn.
  destruct (exists_last Hne) as (i' & c & ->). apply Forall_app in Hi as [_ Hc]. apply Forall_cons_iff in Hc as [(_ & _ & Hc) _].
  rewrite app_assoc, rev_app_distr. cbn [rev app]. rewrite drop_while_keep by done.
  change (c :: rev (p ++ i')) with ([c] ++ rev (p ++ i')). by rewrite rev_app_distr, rev_involutive.
Qed.

Lemma getFragment_slash s y i : id_ok i -> y <> [] -> 47 :: s = y ++ i -> getFragment (47 :: s) = s.
Proof.
  intros Hi Hy E. destruct y as [|c y]; [done|]. injection E as <- ->. by apply getFragment_path.
Qed.

Lemma extract_ids l :
  Forall id_ok l -> extractParameters (l, None) = Ok (map Some l ++ [None]).
Proof.
  intros Hl. unfold extractParameters. cbn [fst snd].
  enough (res_map decodeURIComponent l = Ok l) as -> by done.
  induction Hl as [|i l [_ Hi] _ IH]; [done|]. cbn [res_map].
  assert (decodeURIComponent i = Ok i) as ->.
  { unfold decodeURIComponent. replace (existsb (fun c => c =? 37) i) with false; [done|]. symmetry.
    clear IH. induction Hi as [|c i (_ & Hc & _) _ IH]; [done|]. cbn. rewrite IH. by apply Z.eqb_neq in Hc as ->. }
  cbn [res_bind]. by rewrite IH.
Qed.

Lemma detail_id_last l i : detail_id (map Some (l ++ [i]) ++ [None]) = Some i.
Proof.
  unfold detail_id. rewrite map_app, !length_app, length_map. cbn [length map].
  replace (2 <=? length l + 1 + 1)%nat with true by (symmetry; apply Nat.leb_le; lia).
  replace (length l + 1 + 1 - 2)%nat with (length l) by lia.
  rewrite <- app_assoc, lookup_app_r by (rewrite length_map; lia). by rewrite length_map, Nat.sub_diag.
Qed.

Section Pages.
Context (nodes : list schema_node) (rank : schema_node -> nat).
Context (Hrank : ranked nodes rank) (Hnames : forall a, a ∈ nodes -> names_ok a).

Definition unquoted (s : jstr) : Prop := Forall (fun c => (c =? 40) || (c =? 41) || (c =? 42) = false) s.

Lemma plain_unquoted s : Forall plain_char s -> unquoted s.
Proof. intros H. eapply Forall_impl; [|exact H]. intros c (? & ? & ? & ?). cbn. lia. Qed.

Lemma word_unquoted s : Forall (fun c => is_word_char c = true) s -> unquoted s.
Proof. intros H. eapply Forall_impl; [|exact H]. unfold is_word_char. intros c Hc. cbn in *. lia. Qed.

Lemma routeToRegExp_unquoted r : unquoted r -> routeToRegExp r = Ok (tokens false r).
Proof.
  intros H. unfold routeToRegExp. replace (existsb _ r) with false; [done|]. symmetry.
  induction H as [|c r Hc _ IH]; [done|]. cbn. by rewrite Hc, IH.
Qed.

Lemma route_unquoted p l : Forall (fun a => a ∈ nodes) (p :: l) -> unquoted (route p l).
Proof.
  revert p. induction l as [|a l IH]; intros p H; [constructor|].
  apply Forall_cons_iff in H as [Hp H]. pose proof H as H'. apply Forall_cons_iff in H' as [Ha _].
  cbn [route]. unfold unquoted. rewrite !Forall_app. repeat split; [by repeat constructor | | by repeat constructor | |].
  - apply word_unquoted, (Hnames p Hp).
  - apply plain_unquoted, (Hnames a Ha).
  - by apply IH.
Qed.

(** The two routes of a schema can be registered. *)
Lemma chain_route_shape a l :
  a ∈ nodes -> chain nodes a l ->
  exists r l' x, l = r :: l' /\ n_url r = 47 :: x /\ chain_route l = 47 :: x ++ route r l' /\
    unquoted (x ++ route r l').
Proof.
  intros Ha Hl. pose proof (chain_in _ _ _ Ha Hl) as Hin.
  destruct (chain_ends _ _ _ Hl) as (r & l' & -> & _ & Hr).
  pose proof Hin as Hin'. apply Forall_cons_iff in Hin' as [Hrn _].
  destruct (ok_root r (Hnames r Hrn) Hr) as (x & Hx). exists r, l', x. split; [done|]. split; [done|].
  split; [cbn [chain_route]; by rewrite Hx|].
  apply Forall_app. split; [|by apply route_unquoted].
  pose proof (ok_url r (Hnames r Hrn) Hr) as Hu. rewrite Hx in Hu.
  assert (unquoted (n_prefix r ++ u "/" ++ n_plural r)) as Hq.
  { unfold unquoted. rewrite !Forall_app. split; [|split]; [| by repeat constructor |];
      apply plain_unquoted, (Hnames r Hrn). }
  rewrite <- Hu in Hq. by inversion Hq.
Qed.

Definition detail_route (l : list schema_node) : jstr := drop 1 (chain_route l) ++ u "/:id".

Lemma buildUi_ok shown fuel l hs :
  (forall b, b ∈ l -> b ∈ nodes /\ (rank b < fuel)%nat) ->
  exists hs', buildUi nodes shown fuel l hs = Ok hs' /\
    (forall h, h ∈ hs -> h ∈ hs') /\
    (forall b k, b ∈ l -> shown b = true -> chain nodes b k ->
       {| h_route := tokens false (detail_route k); h_page := detail_view b |} ∈ hs').
Proof.
  revert hs. induction l as [|b l IH]; intros hs Hl; cbn [buildUi].
  { exists hs. split; [done|]. split; [done|]. intros b k Hb. by apply elem_of_nil in Hb. }
  assert (forall a, a ∈ l -> a ∈ nodes /\ (rank a < fuel)%nat) as Hl' by (intros a Ha; apply Hl; by right).
  destruct (Hl b ltac:(by left)) as [Hb Hf]. destruct (shown b) eqn:Hs; cbn [negb].
  2:{ destruct (IH hs Hl') as (hs' & E & Hmono & Hin). exists hs'. split; [done|]. split; [done|].
      intros a k Ha Hsa. apply elem_of_cons in Ha as [-> | Ha]; [congruence | by apply Hin]. }
  destruct (ranked_chain _ _ _ Hrank Hb) as (k & Hk & Hlen).
  rewrite (chain_url _ _ _ fuel Hk) by lia. cbn [res_bind].
  destruct (chain_route_shape _ _ Hb Hk) as (r & l' & x & -> & Hx & Hroute & Hq).
  assert (drop 1 (chain_route (r :: l')) = x ++ route r l') as Hdrop by (by rewrite Hroute).
  rewrite Hdrop. unfold add_route. rewrite (routeToRegExp_unquoted _ Hq). cbn [res_bind].
  rewrite routeToRegExp_unquoted by (apply Forall_app; split; [done | by repeat constructor]). cbn [res_bind].
  match goal with |- context [buildUi _ _ _ _ ?H] => destruct (IH H Hl') as (hs' & E & Hmono & Hin) end.
  exists hs'. split; [exact E|]. split; [intros h Hh; apply Hmono; by do 2 right|].
  intros a k Ha Hsa Hka. apply elem_of_cons in Ha as [-> | Ha]; [|by apply Hin].
  rewrite (chain_fun _ _ _ _ Hka Hk). apply Hmono.
  unfold detail_route. rewrite Hdrop. by left.
Qed.

(** The chain of each resource in a list of ancestors. *)
Lemma chain_drop e i j h :
  chain nodes (m_schema i) (map m_schema (rev (i :: e))) -> (i :: e) !! j = Some h ->
  chain nodes (m_schema h) (map m_schema (rev (drop j (i :: e)))).
Proof.
  revert i j. induction e as [|i' e IH]; intros i [|j] Hc Hj; cbn [lookup list_lookup] in Hj; simplify_eq; try done.
  change (drop (S j) (i :: i' :: e)) with (drop j (i' :: e)). apply (IH i'); [|done].
  change (rev (i :: i' :: e)) with (rev (i' :: e) ++ [i]) in Hc. rewrite map_app in Hc. cbn [map] in Hc.
  inversion Hc as [a Ha Hb E | a p l H1 H2 Hl Ha E].
  - apply (f_equal length) in E. cbn [rev] in E. rewrite length_app, length_map, length_app in E. cbn in E. lia.
  - apply app_inj_tail in E as [E _]. rewrite E in Hl.
    enough (m_schema i' = p) as -> by exact Hl.
    destruct (chain_ends _ _ _ Hl) as (r & l' & E' & <- & _). cbn [rev] in E'. rewrite map_app in E'. cbn [map] in E'.
    pose proof (f_equal (fun k => List.last k r) E') as Hlast. cbn beta in Hlast.
    rewrite List.last_last in Hlast. by rewrite last_cons in Hlast.
Qed.

Lemma chain_schemas a l : chain nodes a l -> a ∈ nodes -> Forall names_ok l.
Proof.
  intros Hl Ha. eapply Forall_impl; [|exact (chain_in _ _ _ Ha Hl)]. exact Hnames.
Qed.
End Pages.

(** The resource itself is the last on the way to it. *)
Lemma drop_last {A} (h : A) j e : e !! j = Some h -> exists k, rev (drop j e) = k ++ [h].
Proof. intros H. exists (rev (drop (S j) e)). by rewrite (drop_S _ _ _ H). Qed.

(** The root is the first. *)
Lemma drop_first {A} (d : A) j e : drop j e <> [] -> exists k, rev (drop j e) = List.last e d :: k.
Proof.
  intros H. destruct (exists_last H) as (k & r & E). exists (rev k). rewrite E, rev_app_distr. cbn.
  f_equal. rewrite <- (take_drop j e), E, app_assoc. by rewrite List.last_last.
Qed.

(** The detail route of a chain takes the URL of its resources. *)
Lemma detail_exec m l k h :
  hasParent (m_schema m) = false -> Forall (fun i => names_ok (m_schema i) /\ id_ok (m_id i)) (m :: l) ->
  m :: l = k ++ [h] ->
  exec (tokens false (detail_route (map m_schema (m :: l))))
    (getFragment (n_prefix (m_schema m) ++ concat (map segment (m :: l)))) = Some (map m_id (m :: l), None).
Proof.
  intros Hr Hl Hk. pose proof Hl as Hl'. apply Forall_cons_iff in Hl' as [[Hn Hid] _].
  destruct (ok_root _ Hn Hr) as (x & Hx). pose proof (ok_url _ Hn Hr) as Hu. rewrite Hx in Hu.
  assert (n_prefix (m_schema m) ++ concat (map segment (m :: l))
          = 47 :: x ++ u "/" ++ m_id m ++ concat (map segment l)) as ->.
  { rewrite app_comm_cons, Hu. cbn [map concat]. unfold segment at 1. by rewrite <- !app_assoc. }
  assert (detail_route (map m_schema (m :: l)) = x ++ route (m_schema m) (map m_schema l) ++ u "/:id") as ->.
  { unfold detail_route. cbn [map chain_route]. rewrite Hx.
    change (drop 1 ((47 :: x) ++ ?y)) with (x ++ y). by rewrite <- app_assoc. }
  assert (Forall (fun c => c <> 58) x) as Hcol.
  { assert (Forall (fun c => c <> 58) (47 :: x)) as H; [|by inversion H]. rewrite Hu, !Forall_app.
    split; [|split]; [apply plain_colon, Hn | apply (Forall_cons_2 _ 47 []); [discriminate | constructor] | apply plain_colon, Hn]. }
  rewrite tokens_lits by done.
  rewrite (getFragment_slash _ (n_prefix (m_schema m) ++ concat (map segment k) ++ u "/" ++ n_plural (m_schema h) ++ u "/") (m_id h)).
  - rewrite exec_lits. by apply exec_route.
  - rewrite Hk in Hl. apply Forall_app in Hl as [_ Hl]. by apply Forall_cons_iff in Hl as [[_ H] _].
  - intros H. apply app_eq_nil in H as [_ H]. by apply app_eq_nil in H as [_ H].
  - rewrite app_comm_cons, Hu.
    transitivity (n_prefix (m_schema m) ++ concat (map segment (m :: l))).
    + cbn [map concat]. unfold segment at 2. by rewrite <- !app_assoc.
    + rewrite Hk, map_app, concat_app. cbn [map concat]. unfold segment at 2. by rewrite app_nil_r, <- !app_assoc.
Qed.

(** C14. The bread crumb leads back: for schemas whose parents end at a root and
    whose names are plain, the routes of the pages can be registered; the URL
    that the bread crumb gives a resource or one of its ancestors is taken by the
    detail route of its schema, with one parameter for each resource on the way,
    and the identifier that the page then shows is that of the resource. *)
Theorem crumb_leads_back nodes rank shown fuel fetch m g :
  ranked nodes rank -> (forall a, a ∈ nodes -> names_ok a /\ (rank a < fuel)%nat) ->
  m_schema m ∈ nodes -> Forall id_ok (map m_id (m :: g)) ->
  getAncestors nodes fetch fuel m [] = Ok (Some g) ->
  exists hs, buildUi nodes shown fuel nodes [] = Ok hs /\
    forall j h, (m :: g) !! j = Some h -> shown (m_schema h) = true ->
      let ids := map m_id (rev (drop j (m :: g))) in
      exists t args, {| h_route := t; h_page := detail_view (m_schema h) |} ∈ hs /\
        exec t (getFragment (crumb_url 0 j (length (m :: g)) (m :: g))) = Some (ids, None) /\
        extractParameters (ids, None) = Ok args /\ detail_id args = Some (m_id h).
Proof.
  intros Hr Hok Hm Hids Hg. pose proof (fun a Ha => proj1 (Hok a Ha)) as Hnames.
  destruct (buildUi_ok _ _ Hr Hnames shown fuel nodes []) as (hs & Hui & _ & Hin).
  { intros b Hb. split; [done | by apply Hok]. }
  exists hs. split; [done|]. intros j h Hj Hs ids.
  apply getAncestors_chain in Hg as (t & -> & Hc). cbn [app] in *.
  pose proof (chain_drop _ _ _ _ _ Hc Hj) as Hch. set (d := drop j (m :: t)) in *.
  assert (Forall id_ok (map m_id (rev d))) as Hd.
  { rewrite map_rev. apply Forall_rev. unfold d.
    rewrite <- (take_drop j (m :: t)), map_app in Hids. by apply Forall_app in Hids as [_ Hids]. }
  assert (m_schema h ∈ nodes) as Hh.
  { apply (proj1 (Forall_elem _ _) (chain_in _ _ _ Hm Hc)), list_elem_of_In, in_map, in_rev, list_elem_of_In.
    rewrite rev_involutive. by eapply list_elem_of_lookup_2. }
  pose proof (Hin _ _ Hh Hs Hch) as Hhandler.
  destruct (drop_last _ _ _ Hj) as (k & Hk). fold d in Hk.
  destruct (drop_first m j (m :: t)) as (l & Hl).
  { intros E. apply (f_equal length) in E. rewrite length_drop in E. apply lookup_lt_Some in Hj. cbn in E, Hj. lia. }
  fold d in Hl. exists (tokens false (detail_route (map m_schema (rev d)))), (map Some ids ++ [None]).
  split; [exact Hhandler|]. split; [|split].
  - rewrite (crumb_url_from 0 j _ _ m) by (done || (apply lookup_lt_Some in Hj; lia)).
    rewrite Nat.sub_0_r. fold d. unfold ids. fold d. rewrite Hl in *. apply (detail_exec _ _ k h); [| | done].
    + destruct (chain_ends _ _ _ Hch) as (r & l' & E & _ & Hr0). cbn [map] in E. injection E as E1 _. rewrite <- E1 in Hr0. exact Hr0.
    + pose proof (chain_schemas _ Hnames _ _ Hch Hh) as Hns. clear -Hns Hd. revert Hns Hd.
      generalize (List.last (m :: t) m :: l). clear. induction l as [|i l IH]; intros H1 H2; [constructor|].
      cbn [map] in *. apply Forall_cons_iff in H1 as [? ?], H2 as [? ?]. constructor; auto.
  - by apply extract_ids.
  - unfold ids. fold d. rewrite Hk, map_app. apply detail_id_last.
Qed.

(** An address of a port of a network. *)
Definition demo_fetch (a : schema_node) (id : jstr) : option (option jstr * option jstr) :=
  if streq id (u "p3") then Some (Some (u "uplink"), Some (u "n1"))
  else if streq id (u "n1") then Some (Some (u "lan"), None) else None.

Definition demo_resource (a : schema_node) (id : jstr) (name parent : option jstr) : resource_node :=
  {| m_schema := a; m_id := id; m_name := name; m_parent := parent |}.

Definition demo_m : resource_node := demo_resource demo_address (u "a7") None (Some (u "p3")).
Definition demo_g : list resource_node :=
  [demo_resource demo_port (u "p3") (Some (u "uplink")) (Some (u "n1"));
   demo_resource demo_network (u "n1") (Some (u "lan")) None].

Lemma demo_names a : a ∈ demo_nodes -> names_ok a /\ (demo_rank a < 3)%nat.
Proof.
  assert (forall s, forallb (fun c => negb ((c =? 40) || (c =? 41) || (c =? 42) || (c =? 58))) s = true ->
    Forall plain_char s) as Hp.
  { induction s as [|c s IH]; intros H; [constructor|]. cbn in H. apply andb_prop in H as [H1 H2].
    constructor; [unfold plain_char; lia | auto]. }
  intros Ha. unfold demo_nodes in Ha. rewrite !elem_of_cons, elem_of_nil in Ha.
  destruct Ha as [-> | [-> | [-> | []]]]; (split; [|vm_compute; lia]);
    (split; [intros H | intros H | apply Hp | apply Hp | split]; try reflexivity; try discriminate;
     try (eexists; reflexivity); repeat (apply Forall_cons_2; [reflexivity|]); constructor).
Qed.

Lemma crumb_leads_back_witness :
  exists hs, buildUi demo_nodes (fun _ => true) 3 demo_nodes [] = Ok hs /\
    exists t args, {| h_route := t; h_page := detail_view demo_port |} ∈ hs /\
      exec t (u "v1.0/networks/n1/ports/p3") = Some ([u "n1"; u "p3"], None) /\
      extractParameters ([u "n1"; u "p3"], None) = Ok args /\ detail_id args = Some (u "p3").
Proof.
  destruct (crumb_leads_back demo_nodes demo_rank (fun _ => true) 3 demo_fetch demo_m demo_g) as (hs & Hhs & H).
  - exact demo_ranked.
  - exact demo_names.
  - by left.
  - repeat (apply Forall_cons_2; [split; [discriminate|] |]); [| | |constructor];
      repeat (apply Forall_cons_2; [split; [reflexivity | split; [discriminate | reflexivity]]|]); constructor.
  - reflexivity.
  - exists hs. split; [exact Hhs|]. destruct (H 1%nat _ eq_refl eq_refl) as (t & args & H1 & H2 & H3 & H4).
    exists t, args. split; [exact H1|]. split; [exact H2|]. split; [exact H3 | exact H4].
Defined.

(** ** Query parameters *)

(** Texts without the separators of a query. *)
Definition query_text (s : jstr) : Prop := 38 ∉ s /\ 61 ∉ s.

Definition query_part (c : jstr * jstr) : jstr := c.1 ++ u "=" ++ c.2.

Lemma setQueryParams_from a b :
  b <> [] ->
  fold_left (fun b c => b ++ (if bool_decide (b = []) then u "?" else u "&") ++ c.1 ++ u "=" ++ c.2) a b
  = b ++ concat (map (fun c => u "&" ++ query_part c) a).
Proof.
  revert b. induction a as [|c a IH]; intros b Hb; cbn [fold_left map concat]; [by rewrite app_nil_r|].
  rewrite IH by (intros H; by apply app_eq_nil in H as [-> _]).
  rewrite bool_decide_eq_false_2 by done. unfold query_part. by rewrite <- !app_assoc.
Qed.

Lemma setQueryParams_join c a : setQueryParams (c :: a) = u "?" ++ join [38] (map query_part (c :: a)).
Proof.
  unfold setQueryParams. cbn [fold_left]. rewrite setQueryParams_from by done.
  rewrite bool_decide_eq_true_2 by done. change ([] ++ u "?" ++ c.1 ++ u "=" ++ c.2) with (u "?" ++ query_part c).
  rewrite <- app_assoc. f_equal. revert c. induction a as [|d a IH]; intros c; [by rewrite app_nil_r|].
  change (join [38] (map query_part (c :: d :: a))) with (query_part c ++ [38] ++ join [38] (map query_part (d :: a))).
  rewrite <- (IH d). cbn [map concat]. by rewrite <- !app_assoc.
Qed.

Lemma read_params_new a acc :
  Forall (fun c => query_text c.1 /\ query_text c.2 /\ index_key c.1 = None) a ->
  NoDup (map fst (acc ++ a)) -> read_params (map query_part a) acc = Ok (acc ++ a).
Proof.
  intros Ha. revert acc. induction Ha as [|[k v] a (Hk & Hv & Hi) Ha IH]; intros acc Hnd; [by rewrite app_nil_r|].
  cbn [map read_params]. unfold query_part. cbn [fst snd] in *.
  change (u "=" ++ v) with (61 :: v). rewrite split_on_word, split_on_single by (apply Hk || apply Hv).
  rewrite obj_set_new; [|done|].
  - rewrite IH; [by rewrite <- app_assoc|]. by rewrite <- app_assoc.
  - rewrite map_app in Hnd. apply list.NoDup_app in Hnd as (_ & Hd & _). intros Hin. apply (Hd _ Hin). by left.
Qed.

Lemma split_on_twice c s : c ∈ s -> exists a b l, split_on c s = a :: b :: l.
Proof.
  induction s as [|x s IH]; intros H; [by apply elem_of_nil in H|]. cbn [split_on].
  destruct (Z.eqb_spec x c) as [-> | Hx].
  - pose proof (split_on_not_nil c s). destruct (split_on c s) as [|b l]; [done|]. by exists [], b, l.
  - apply elem_of_cons in H as [-> | H]; [done|]. destruct (IH H) as (a & b & l & ->). by exists (x :: a), b, l.
Qed.

Lemma read_params_error l acc :
  (Exists (fun c => 61 ∉ c) l -> read_params l acc = Err TypeError) /\
  (Forall (fun c => 61 ∈ c) l -> exists a, read_params l acc = Ok a).
Proof.
  revert acc. induction l as [|c l IH]; intros acc; cbn [read_params].
  - split; [intros H; by inversion H | by eexists].
  - destruct (decide (61 ∈ c)) as [Hc | Hc].
    + destruct (split_on_twice _ _ Hc) as (d & v & k & ->). destruct (IH (obj_set d v acc)) as [H1 H2]. split.
      * intros H. inversion H; subst; [done | by apply H1].
      * intros H. apply Forall_cons_iff in H as [_ H]. by apply H2.
    + rewrite split_on_single by done. split; [done|]. intros H. by apply Forall_cons_iff in H as [H _].
Qed.

(** [getQueryParams] reads back what [setQueryParams] wrote into the URL, for
    distinct names and texts without separators; it throws exactly when a part
    of the search has no equals sign, as in [?flag]. *)
Theorem query_params_roundtrip a :
  NoDup (map fst a) -> Forall (fun c => query_text c.1 /\ query_text c.2 /\ index_key c.1 = None) a ->
  getQueryParams (setQueryParams a) = Ok a /\
  forall s, s <> [] ->
    (getQueryParams (63 :: s) = Err TypeError <-> Exists (fun c => 61 ∉ c) (split_on 38 s)).
Proof.
  intros Hnd Ha. split.
  - destruct a as [|c a]; [done|]. rewrite setQueryParams_join. unfold getQueryParams.
    change (drop 1 (u "?" ++ ?x)) with x.
    rewrite bool_decide_eq_false_2.
    2:{ intros H. apply (f_equal length) in H. destruct c as [k v], a; cbn [map join] in H;
        unfold query_part in H; change (u "=") with [61] in H; rewrite ?length_app in H; cbn [length] in H; lia. }
    rewrite split_on_join; [by apply read_params_new | done|].
    clear Hnd. induction Ha as [|d k (Hk & Hv & _) _ IH]; [constructor|]. constructor; [|exact IH].
    unfold query_part. rewrite !elem_of_app. destruct Hk as [Hk _], Hv as [Hv _].
    intros [H | [H | H]]; [done | by apply list_elem_of_singleton in H | done].
  - intros s Hs. unfold getQueryParams. change (drop 1 (63 :: s)) with s. rewrite bool_decide_eq_false_2 by done.
    destruct (read_params_error (split_on 38 s) []) as [H1 H2]. split; [|exact H1].
    intros H. destruct (decide (Exists (fun c => 61 ∉ c) (split_on 38 s))) as [He | He]; [done|].
    apply not_Exists_Forall in He; [|intros c; apply _]. destruct H2 as (r & Hr); [|congruence].
    eapply Forall_impl; [|exact He]. intros c Hc. cbn in Hc. by apply dec_stable.
Qed.

Lemma query_params_roundtrip_witness :
  getQueryParams (setQueryParams [(u "type", u "admin"); (u "page", u "3")]) = Ok [(u "type", u "admin"); (u "page", u "3")] /\
  getQueryParams (u "?type=admin&flag") = Err TypeError.
Proof.
  destruct (query_params_roundtrip [(u "type", u "admin"); (u "page", u "3")]) as [H1 H2].
  - by apply (bool_decide_unpack _).
  - repeat (apply Forall_cons_2; [split; [by apply (bool_decide_unpack (_ /\ _)) | split; [by apply (bool_decide_unpack (_ /\ _)) | reflexivity]]|]).
    constructor.
  - split; [exact H1|]. apply (H2 (u "type=admin&flag")); [discriminate|].
    by apply (bool_decide_unpack _).
Defined.
