(* ===== verification/Underscore.v ===== *)
(** Underscore's functions on data (module 114) that Backbone relies on: deep
    equality, copies, and the comparison with given properties. *)

From Stdlib Require Import ZArith Lia List String Bool.
From stdpp Require Import base list sets list_numbers tactics.
From S2P Require Import Prelude JsNum Js.

(** ** Equality

    The values of the model are trees, which stand for different objects.  What
    the code does for two references to one object agrees with the comparison
    of two copies, but for an object in which there is an invalid date: such a
    date is equal to itself, and to no other one. *)

(** [x === y]; an object equals no other object. *)
Definition strict_eq (x y : value) : bool :=
  match x, y with
  | VUndef, VUndef | VNull, VNull => true
  | VBool x, VBool y => Bool.eqb x y
  | VNum (NFin _ 0%N), VNum (NFin _ 0%N) => true
  | VNum NNaN, _ => false
  | VNum x, VNum y => bool_decide (x = y)
  | VStr x, VStr y => streq x y
  | _, _ => false
  end.

(** [a.constructor !== b.constructor], when both are objects of the literal
    kind: an own property of that name hides the inherited function. *)
Definition other_constructor (a b : object) : bool :=
  match obj_lookup (u "constructor") a, obj_lookup (u "constructor") b with
  | None, None => false
  | Some x, Some y => negb (strict_eq x y)
  | _, _ => true
  end.

(** [eq]. *)
Fixpoint isEqual (a b : value) {struct a} : bool :=
  match a, b with
  | VUndef, VUndef | VNull, VNull => true
  | VBool x, VBool y => Bool.eqb x y
  | VNum x, VNum y => bool_decide (x = y)
  | VStr x, VStr y => streq x y
  | VDate (Some x), VDate (Some y) => x =? y
  | VBuf x, VBuf y => bool_decide (x = y)
  | VRegExp s f, VRegExp t g => streq ([47] ++ s ++ [47] ++ f) ([47] ++ t ++ [47] ++ g)
  | VArr l, VArr l' =>
      (zlen l =? zlen l')
      && (fix go l l' := match l, l' with x :: l, y :: l' => isEqual x y && go l l' | _, _ => true end) l l'
  | VObj o, VObj o' =>
      negb (other_constructor o o') && (zlen o =? zlen o')
      && forallb (fun kx => obj_has kx.1 o' && isEqual kx.2 (obj_get kx.1 o')) o
  | _, _ => false
  end.

Definition is_leaf (v : value) : bool := match v with VArr _ | VObj _ | VRegExp _ _ | VDate None => false | _ => true end.

(** The same data: objects have the same own properties, in any order.  An
    invalid date is the same as nothing. *)
Inductive same : value -> value -> Prop :=
| same_leaf v : is_leaf v = true -> same v v
| same_re s f t g : s ++ [47] ++ f = t ++ [47] ++ g -> same (VRegExp s f) (VRegExp t g)
| same_arr l l' : Forall2 same l l' -> same (VArr l) (VArr l')
| same_obj o o' :
    (forall k, obj_has k o = obj_has k o') -> (forall k x, obj_lookup k o = Some x -> same x (obj_get k o')) -> same (VObj o) (VObj o').

(** Objects have every property once, and none called [constructor]. *)
Fixpoint distinct_keys (v : value) : Prop :=
  match v with
  | VArr l => foldr (fun x P => distinct_keys x /\ P) True l
  | VObj o => (NoDup (obj_keys o) /\ u "constructor" ∉ obj_keys o) /\ foldr (fun kx P => distinct_keys kx.2 /\ P) True o
  | _ => True
  end.

Lemma distinct_arr l : distinct_keys (VArr l) <-> Forall distinct_keys l.
Proof. apply (foldr_Forall distinct_keys). Qed.

Lemma distinct_obj o :
  distinct_keys (VObj o) <-> (NoDup (obj_keys o) /\ u "constructor" ∉ obj_keys o) /\ Forall (fun kx => distinct_keys kx.2) o.
Proof. cbn [distinct_keys]. by rewrite (foldr_Forall (fun kx => distinct_keys kx.2)). Qed.

(** And there are no invalid dates: such data is the same as itself. *)
Fixpoint plain_objects (v : value) : Prop :=
  match v with
  | VDate None => False
  | VArr l => foldr (fun x P => plain_objects x /\ P) True l
  | VObj o => (NoDup (obj_keys o) /\ u "constructor" ∉ obj_keys o) /\ foldr (fun kx P => plain_objects kx.2 /\ P) True o
  | _ => True
  end.

Lemma plain_arr l : plain_objects (VArr l) <-> Forall plain_objects l.
Proof. apply (foldr_Forall plain_objects). Qed.

Lemma plain_obj o :
  plain_objects (VObj o) <-> (NoDup (obj_keys o) /\ u "constructor" ∉ obj_keys o) /\ Forall (fun kx => plain_objects kx.2) o.
Proof. cbn [plain_objects]. by rewrite (foldr_Forall (fun kx => plain_objects kx.2)). Qed.

Lemma plain_distinct v : plain_objects v -> distinct_keys v.
Proof.
  induction v as [| |x|n|x|l IH|o IH|t|x|s f] using value_ind'; try done.
  - rewrite plain_arr, distinct_arr. intros H. rewrite list.Forall_forall in IH, H |- *. auto.
  - rewrite plain_obj, distinct_obj. intros [H0 H]. split; [done|]. rewrite list.Forall_forall in H |- *. rewrite Forall_elem in IH. auto.
Qed.

Lemma same_refl v : plain_objects v -> same v v.
Proof.
  induction v as [| |x|n|x|l IH|o IH|t|x|s f] using value_ind'; intros Hp; try (by apply same_leaf); [| |by destruct t; [apply same_leaf|] |by apply same_re].
  - apply plain_arr in Hp. apply same_arr, Forall_Forall2_diag'. rewrite list.Forall_forall in IH, Hp |- *. auto.
  - apply plain_obj in Hp as [_ Hp]. apply same_obj; [done|]. intros k x Hx. unfold obj_get. rewrite Hx. cbn. apply obj_lookup_In in Hx.
    rewrite Forall_elem in IH, Hp. exact (IH _ Hx (Hp _ Hx)).
Qed.

Lemma isEqual_arr l l' : isEqual (VArr l) (VArr l') = true <-> Forall2 (fun x y => isEqual x y = true) l l'.
Proof.
  cbn [isEqual]. revert l'. induction l as [|x l IH]; intros [|y l'].
  - by split; [constructor|].
  - split; [|intros H; inversion H]. rewrite zlen_cons. pose proof (zlen_nonneg l'). intros [H1 _]%andb_prop. apply Z.eqb_eq in H1.
    change (zlen []) with 0 in H1. lia.
  - split; [|intros H; inversion H]. rewrite zlen_cons. pose proof (zlen_nonneg l). intros [H1 _]%andb_prop. apply Z.eqb_eq in H1.
    change (zlen []) with 0 in H1. lia.
  - rewrite !zlen_cons. specialize (IH l'). rewrite andb_true_iff, Z.eqb_eq in *. split.
    + intros [H1 [H2 H3]%andb_prop]. constructor; [done|]. apply IH. split; [lia | done].
    + intros H. inversion H as [|? ? ? ? H2 H3]; subst. apply IH in H3 as [H3 H4]. split; [lia|]. by rewrite H2.
Qed.

(** With as many keys and all of its own in the other, an object has the same
    keys. *)
Lemma same_keys {A B} (o : list (jstr * A)) (o' : list (jstr * B)) :
  NoDup (obj_keys o) -> zlen o = zlen o' -> (forall k, k ∈ obj_keys o -> k ∈ obj_keys o') -> forall k, k ∈ obj_keys o' -> k ∈ obj_keys o.
Proof.
  intros Hnd Hlen Hsub k Hk. apply list_elem_of_In. apply (NoDup_length_incl (l := obj_keys o) (l' := obj_keys o')).
  - by apply NoDup_ListNoDup.
  - unfold obj_keys, zlen in *. rewrite !length_map. lia.
  - intros x Hx. apply list_elem_of_In, Hsub, list_elem_of_In, Hx.
  - by apply list_elem_of_In.
Qed.

Lemma no_constructor (o o' : object) : u "constructor" ∉ obj_keys o -> u "constructor" ∉ obj_keys o' -> other_constructor o o' = false.
Proof. intros H H'. unfold other_constructor. by rewrite !(proj2 (obj_lookup_None _ _)). Qed.

Lemma isEqual_leaf a b : is_leaf a = true -> isEqual a b = true <-> a = b.
Proof.
  intros Ha. destruct a as [| | | | | | |[]| |]; try discriminate Ha; destruct b as [| | | | | | |[]| |]; cbn [isEqual]; try done;
    rewrite ?Z.eqb_eq, ?bool_decide_eq_true, ?eqb_true_iff, ?streq_eq; split; congruence.
Qed.

Lemma same_leaf_iff a b : is_leaf a = true -> same a b <-> a = b.
Proof. intros Ha. split; [intros H; inversion H; subst; done | intros <-; by constructor]. Qed.

Lemma isEqual_obj o o' :
  (NoDup (obj_keys o) /\ u "constructor" ∉ obj_keys o) -> (NoDup (obj_keys o') /\ u "constructor" ∉ obj_keys o') ->
  isEqual (VObj o) (VObj o') = true <->
  (forall k, obj_has k o = obj_has k o') /\ (forall k x, obj_lookup k o = Some x -> isEqual x (obj_get k o') = true).
Proof.
  intros [Hnd Hc] [Hnd' Hc']. cbn [isEqual]. rewrite no_constructor by done. cbn [negb andb]. rewrite andb_true_iff, Z.eqb_eq, forallb_forall. split.
  - intros [Hlen Hall].
    assert (Hsub : forall k, k ∈ obj_keys o -> k ∈ obj_keys o').
    { intros k ([k' x] & -> & Hx)%list_elem_of_fmap. apply list_elem_of_In, Hall, andb_prop in Hx as [H _]. by apply obj_has_keys. }
    split.
    + intros k. apply eq_true_iff_eq. rewrite !obj_has_keys. split; [apply Hsub | by apply same_keys].
    + intros k x Hx%obj_lookup_In%list_elem_of_In. apply Hall, andb_prop in Hx as [_ H]. done.
  - intros [Hhas Hall]. assert (Hin : forall k, k ∈ obj_keys o <-> k ∈ obj_keys o') by (intros k; by rewrite <- !obj_has_keys, Hhas).
    split.
    + assert (length (obj_keys o) = length (obj_keys o')) as H.
      { apply Nat.le_antisymm; (apply NoDup_incl_length; [by apply NoDup_ListNoDup|]); intros x Hx; apply list_elem_of_In in Hx;
          apply list_elem_of_In; by apply Hin. }
      unfold obj_keys in H. rewrite !length_map in H. unfold zlen. lia.
    + intros [k x] Hx%list_elem_of_In. cbn [fst snd]. pose proof (obj_lookup_NoDup k x o Hnd Hx) as Hl.
      rewrite <- Hhas. unfold obj_has at 1. rewrite Hl. cbn. by apply Hall.
Qed.

(** C39.  [_.isEqual] decides that two values are the same data, whatever the
    order of the properties of objects: same keys, and the same data under
    each; regular expressions are the same when they are written the same, and
    an invalid date is the same as no other value, not even another one. *)
Theorem isEqual_same a b : distinct_keys a -> distinct_keys b -> isEqual a b = true <-> same a b.
Proof.
  revert b. induction a as [| |x|n|x|l IH|o IH|t|x|s f] using value_ind'; intros b Ha Hb;
    try (rewrite isEqual_leaf, same_leaf_iff by done; done).
  - destruct b as [| | | | |l'| | | |]; try (split; intros H; [discriminate H | inversion H]).
    rewrite isEqual_arr. apply distinct_arr in Ha, Hb. transitivity (Forall2 same l l'); [|split; [by constructor | intros H; by inversion H]].
    clear -IH Ha Hb. revert l' Hb. induction l as [|x l IHl]; intros [|y l'] Hb; try (split; intros H; inversion H; fail); [by split; constructor|].
    apply Forall_cons_iff in Ha as [Hx Ha], Hb as [Hy Hb], IH as [IHx IH]. rewrite !Forall2_cons_iff, (IHx y) by done. by rewrite (IHl IH Ha).
  - destruct b as [| | | | | |o'| | |]; try (split; intros H; [discriminate H | inversion H]).
    apply distinct_obj in Ha as [Ha Hxs], Hb as [Hb Hys]. rewrite isEqual_obj by done.
    assert (Hiff : forall k x, obj_lookup k o = Some x -> isEqual x (obj_get k o') = true <-> same x (obj_get k o')).
    { intros k x Hx%obj_lookup_In. rewrite Forall_elem in IH, Hxs. apply (IH (k, x) Hx); [exact (Hxs _ Hx)|].
      by apply (obj_get_ind distinct_keys). }
    split.
    + intros [H1 H2]. constructor; [done|]. intros k x Hx. apply Hiff; auto.
    + intros H. inversion H as [? Hl| | |? ? H1 H2]; subst; [discriminate Hl|]. split; [done|]. intros k x Hx. apply Hiff; auto.
  - destruct t as [t|]; [by rewrite isEqual_leaf, same_leaf_iff | split; [by destruct b | intros H; inversion H; subst; discriminate]].
  - destruct b as [| | | | | | | | |t g]; try (split; intros H; [discriminate H | inversion H; discriminate]).
    cbn [isEqual]. rewrite streq_eq. split.
    + intros [= H]. by constructor.
    + intros H. inversion H; subst; [discriminate | cbn [app] in *; congruence].
Qed.

(** ** Properties of objects *)

(** [_.isMatch(object, attrs)], of an object; names are those of own
    properties. *)
Definition isMatch (object_ attrs : object) : bool :=
  forallb (fun kx => strict_eq kx.2 (obj_get kx.1 object_) && obj_has kx.1 object_) attrs.

(** [_.extend({}, a, b)]. *)
Definition extend2 (a b : object) : object := obj_assign (obj_assign [] a) b.

(** [_.defaults(obj, source)]. *)
Definition defaults (obj source : object) : object :=
  fold_left (fun o kx => match obj_get kx.1 o with VUndef => obj_set kx.1 kx.2 o | _ => o end) source obj.

Lemma obj_lookup_assign {A} k (src o : list (jstr * A)) :
  NoDup (obj_keys src) -> obj_lookup k (obj_assign o src) = match obj_lookup k src with Some x => Some x | None => obj_lookup k o end.
Proof.
  unfold obj_assign. revert o. induction src as [|[k' x] src IH]; intros o Hnd; cbn [fold_left obj_lookup fst snd]; [done|].
  unfold obj_keys in Hnd. cbn [map fst] in Hnd. apply list.NoDup_cons in Hnd as [Hk Hnd]. rewrite IH by done. rewrite obj_lookup_set.
  destruct (streq k k') eqn:E; [|done]. apply streq_eq in E as ->. by rewrite (proj2 (obj_lookup_None k' src)).
Qed.

(** Two objects with their properties in different orders. *)
Lemma isEqual_same_witness :
  let a := VObj [(u "a", VArr [VNull]); (u "b", VStr (u "x"))] in
  let b := VObj [(u "b", VStr (u "x")); (u "a", VArr [VNull])] in
  (distinct_keys a /\ distinct_keys b) /\ same a b.
Proof.
  assert (Hp : forall x y, x <> y -> u "constructor" <> x -> u "constructor" <> y -> NoDup [x; y] /\ u "constructor" ∉ [x; y]).
  { intros x y H1 H2 H3. split; [|set_solver]. apply list.NoDup_cons. split; [set_solver | apply list.NoDup_singleton]. }
  intros a b. assert (Ha : distinct_keys a) by (split; [apply Hp; discriminate | by repeat split]).
  assert (Hb : distinct_keys b) by (split; [apply Hp; discriminate | by repeat split]).
  split; [done|]. apply (isEqual_same a b Ha Hb). vm_compute. reflexivity.
Defined.
