(* ===== verification/BackboneEvents.v ===== *)
(** Backbone's events (module 113): handlers, objects that listen to each other,
    callbacks that are called once, and callbacks that change all of these while
    an event is being dispatched. *)

From Stdlib Require Import ZArith Lia List String Bool.
From stdpp Require Import base list sets gmap list_numbers tactics.
From S2P Require Import Prelude JsNum Js.

(** ** The store

    The arrays of handlers and the tables that hold them are shared: a dispatch
    that is going on keeps the ones it started with, [on] extends an array in
    place, [off] makes a new one.  They are cells, named by their index. *)

(** A function: one of the program, or a wrapper made by [once]. *)
Inductive func := User (f : nat) | Once (w : nat).

#[export] Instance func_eq_dec : EqDecision func.
Proof. solve_decision. Defined.

Record handler := Handler { callback : func; context : option nat; ctx : nat; h_listening : option nat }.

(** [{obj, objId, id, listeningTo, count}]; [l_owner] is the object whose
    [_listeningTo] the field [listeningTo] is. *)
Record listening := Listening { l_obj : nat; objId : jstr; l_id : jstr; l_owner : nat; count : Z }.

(** What a wrapper does after its call: [this.off] or [this.stopListening(obj)]. *)
Inductive offer := OfferOff (this : nat) | OfferStop (this obj : nat).

Record wrapper := Wrapper { _callback : nat; w_name : jstr; w_offer : offer; w_called : bool }.

(** An object with events; its fields are absent at first. *)
Record object := Object {
  _events : option nat;                     (* a table *)
  _listeners : list (jstr * nat);           (* a listening for each id *)
  _listeningTo : list (jstr * nat);
  _listenId : option jstr
}.

Abbreviation table := (list (jstr * nat)).

Record store := Store {
  objects : gmap nat object;
  tables : list table;
  arrays : list (list handler);
  listenings : list listening;
  wrappers : list wrapper;
  idCounter : nat
}.

Definition empty_store : store := Store ∅ [] [] [] [] 0.

Definition get (o : nat) (s : store) : object := default (Object None [] [] None) (objects s !! o).
Definition set (o : nat) (x : object) (s : store) : store :=
  Store (<[o := x]> (objects s)) (tables s) (arrays s) (listenings s) (wrappers s) (idCounter s).
Definition with_tables (t : list table) (s : store) : store :=
  Store (objects s) t (arrays s) (listenings s) (wrappers s) (idCounter s).
Definition with_arrays (a : list (list handler)) (s : store) : store :=
  Store (objects s) (tables s) a (listenings s) (wrappers s) (idCounter s).
Definition with_listenings (l : list listening) (s : store) : store :=
  Store (objects s) (tables s) (arrays s) l (wrappers s) (idCounter s).
Definition with_wrappers (w : list wrapper) (s : store) : store :=
  Store (objects s) (tables s) (arrays s) (listenings s) w (idCounter s).

Definition set_events (e : option nat) (x : object) : object := Object e (_listeners x) (_listeningTo x) (_listenId x).
Definition set_listeners (l : list (jstr * nat)) (x : object) : object := Object (_events x) l (_listeningTo x) (_listenId x).
Definition set_listeningTo (l : list (jstr * nat)) (x : object) : object := Object (_events x) (_listeners x) l (_listenId x).

Definition set_listenId (i : option jstr) (x : object) : object := Object (_events x) (_listeners x) (_listeningTo x) i.

Definition table_of (t : nat) (s : store) : table := default [] (tables s !! t).
Definition array_of (a : nat) (s : store) : list handler := default [] (arrays s !! a).

(** ** Names

    [name, callback] as the methods are given them: a string, which may hold
    several names, or an object of names and callbacks, with the context that is
    then in the place of the callback.  Names are not those of properties that
    every object inherits, such as [toString]. *)
Inductive names := Plain (name : option jstr) (cb : option func) | EventMap (l : list (jstr * option func)) (context : option nat).

(** [name.split(/\s+/)]. *)
Fixpoint split_spaces (word : jstr) (between : bool) (s : jstr) : list jstr :=
  match s with
  | [] => [rev word]
  | c :: s =>
      if is_js_space c then (if between then split_spaces word true s else rev word :: split_spaces [] true s)
      else split_spaces (c :: word) false s
  end.

Definition expand_name (n : jstr) (cb : option func) : list (option jstr * option func) :=
  if existsb is_js_space n then map (fun n => (Some n, cb)) (split_spaces [] false n) else [(Some n, cb)].

(** The single names that [eventsApi] goes through, each with its callback. *)
Definition expand (ns : names) : list (option jstr * option func) :=
  match ns with
  | Plain (Some n) cb => expand_name n cb
  | Plain None cb => [(None, cb)]
  | EventMap l _ => concat (map (fun '(n, cb) => expand_name n cb) l)
  end.

(** [opts.context]. *)
Definition opts_context (ns : names) (context : option nat) : option nat :=
  match ns, context with EventMap _ (Some c), None => Some c | _, _ => context end.

Definition eventsApi {E S} (iteratee : E -> option jstr -> option func -> S -> E * S) (events : E) (ns : names) (s : S) : E * S :=
  fold_left (fun '(events, s) '(n, cb) => iteratee events n cb s) (expand ns) (events, s).

(** The key of [events[name]]. *)
Definition event_key (n : option jstr) : jstr := default (u "undefined") n.

(** ** Binding *)

(** [events[name] || (events[name] = [])]. *)
Definition handlers_array (t : nat) (k : jstr) (s : store) : nat * store :=
  match obj_lookup k (table_of t s) with
  | Some a => (a, s)
  | None =>
      let a := length (arrays s) in
      (a, with_tables (<[t := obj_set k a (table_of t s)]> (tables s)) (with_arrays (arrays s ++ [[]]) s))
  end.

Definition add_count (d : Z) (r : nat) (s : store) : store :=
  with_listenings (alter (fun l => Listening (l_obj l) (objId l) (l_id l) (l_owner l) (count l + d)) r (listenings s)) s.

Definition onApi (this : nat) (context listening_ : option nat) (t : nat) (n : option jstr) (cb : option func) (s : store) : nat * store :=
  match cb with
  | None => (t, s)
  | Some f =>
      let '(a, s) := handlers_array t (event_key n) s in
      let s := match listening_ with Some r => add_count 1 r s | None => s end in
      let h := Handler f context (default this context) listening_ in
      (t, with_arrays (alter (fun l => l ++ [h]) a (arrays s)) s)
  end.

(** The table of an object, made when there is none. *)
Definition own_table (this : nat) (s : store) : nat * store :=
  match _events (get this s) with
  | Some t => (t, s)
  | None => (length (tables s), with_tables (tables s ++ [[]]) s)
  end.

Definition internalOn (obj : nat) (ns : names) (context listening_ : option nat) (s : store) : store :=
  let '(t, s) := own_table obj s in
  let '(t, s) := eventsApi (onApi obj (opts_context ns context) listening_) t ns s in
  let s := set obj (set_events (Some t) (get obj s)) s in
  match listening_ ≫= (fun r => (fun l => (r, l)) <$> listenings s !! r) with
  | Some (r, l) => set obj (set_listeners (obj_set (l_id l) r (_listeners (get obj s))) (get obj s)) s
  | None => s
  end.

Definition on (this : nat) (ns : names) (context : option nat) (s : store) : store := internalOn this ns context None s.

(** [_.uniqueId('l')]. *)
Definition uniqueId (s : store) : jstr * store :=
  let n := S (idCounter s) in
  (u "l" ++ to_radix 10 (Z.of_nat n), Store (objects s) (tables s) (arrays s) (listenings s) (wrappers s) n).

(** [obj._listenId || (obj._listenId = _.uniqueId('l'))]. *)
Definition listenId (obj : nat) (s : store) : jstr * store :=
  match _listenId (get obj s) with
  | Some i => (i, s)
  | None => let '(i, s) := uniqueId s in (i, set obj (set_listenId (Some i) (get obj s)) s)
  end.

(** The [listening] of [this] to [obj], made when there is none. *)
Definition own_listening (this obj : nat) (s : store) : nat * store :=
  let '(id, s) := listenId obj s in
  match obj_lookup id (_listeningTo (get this s)) with
  | Some r => (r, s)
  | None =>
      let '(thisId, s) := listenId this s in
      let r := length (listenings s) in
      (r, set this (set_listeningTo (obj_set id r (_listeningTo (get this s))) (get this s))
            (with_listenings (listenings s ++ [Listening obj id thisId this 0]) s))
  end.

Definition listenTo (this obj : nat) (ns : names) (s : store) : store :=
  let '(r, s) := own_listening this obj s in internalOn obj ns (Some this) (Some r) s.

(** ** Unbinding *)

(** [delete listeners[listening.id]; delete listening.listeningTo[listening.objId]],
    for the listeners of [this]. *)
Definition forget (this r : nat) (s : store) : store :=
  match listenings s !! r with
  | None => s
  | Some l =>
      let s := set this (set_listeners (obj_delete (l_id l) (_listeners (get this s))) (get this s)) s in
      set (l_owner l) (set_listeningTo (obj_delete (objId l) (_listeningTo (get (l_owner l) s))) (get (l_owner l) s)) s
  end.

(** The handlers that [off] removes. *)
Definition off_matches (cb : option func) (context_ : option nat) (s : store) (h : handler) : bool :=
  match cb with
  | Some f =>
      bool_decide (f = callback h)
      || match callback h with
         | Once w => bool_decide ((User ∘ _callback) <$> wrappers s !! w = Some f)
         | User _ => false
         end
  | None => true
  end
  && match context_ with Some c => bool_decide (context h = Some c) | None => true end.

(** [--listening.count === 0]. *)
Definition release (this : nat) (h : handler) (s : store) : store :=
  match h_listening h with
  | Some r =>
      let s := add_count (-1) r s in
      if bool_decide (count <$> listenings s !! r = Some 0) then forget this r s else s
  | None => s
  end.

(** The loop over the handlers of a name: those that remain. *)
Fixpoint off_handlers (this : nat) (cb : option func) (context_ : option nat) (hs remaining : list handler) (s : store) :
    list handler * store :=
  match hs with
  | [] => (remaining, s)
  | h :: hs =>
      if off_matches cb context_ s h then off_handlers this cb context_ hs remaining (release this h s)
      else off_handlers this cb context_ hs (remaining ++ [h]) s
  end.

(** The loop over the names; it stops at one that has no handlers. *)
Fixpoint off_names (this t : nat) (cb : option func) (context_ : option nat) (ks : list jstr) (s : store) : store :=
  match ks with
  | [] => s
  | k :: ks =>
      match obj_lookup k (table_of t s) with
      | None => s
      | Some a =>
          let '(remaining, s) := off_handlers this cb context_ (array_of a s) [] s in
          let s :=
            match remaining with
            | [] => with_tables (<[t := obj_delete k (table_of t s)]> (tables s)) s
            | _ =>
                let b := length (arrays s) in
                with_tables (<[t := obj_set k b (table_of t s)]> (tables s)) (with_arrays (arrays s ++ [remaining]) s)
            end in
          off_names this t cb context_ ks s
      end
  end.

Definition offApi (this : nat) (context_ : option nat) (events : option nat) (n : option jstr) (cb : option func) (s : store) :
    option nat * store :=
  match events with
  | None => (None, s)
  | Some t =>
      let named := match n with Some (_ :: _) => true | _ => false end in
      match named, cb, context_ with
      | false, None, None => (None, fold_left (fun s r => forget this r s) (map snd (_listeners (get this s))) s)
      | _, _, _ => (Some t, off_names this t cb context_ (if named then [default [] n] else obj_keys (table_of t s)) s)
      end
  end.

Definition off (this : nat) (ns : names) (context_ : option nat) (s : store) : store :=
  match _events (get this s) with
  | None => s
  | Some t =>
      let '(events, s) := eventsApi (offApi this (opts_context ns context_)) (Some t) ns s in
      set this (set_events events (get this s)) s
  end.

(** The loop over the ids; it stops at one that is not listened to. *)
Fixpoint stop_loop (this : nat) (ns : names) (ids : list jstr) (s : store) : store :=
  match ids with
  | [] => s
  | i :: ids =>
      match obj_lookup i (_listeningTo (get this s)) ≫= (fun r => listenings s !! r) with
      | None => s
      | Some l => stop_loop this ns ids (off (l_obj l) ns (Some this) s)
      end
  end.

(** [stopListening(obj, name, callback)]; an object without an id is looked up
    under the name [undefined]. *)
Definition stopListening (this : nat) (obj : option nat) (ns : names) (s : store) : store :=
  stop_loop this ns
    match obj with
    | Some o => [default (u "undefined") (_listenId (get o s))]
    | None => obj_keys (_listeningTo (get this s))
    end s.

(** ** Callbacks that are called once *)

(** [onceMap]; only functions of the program are given to it. *)
Definition onceMap (o : offer) (m : list (jstr * option func)) (n : option jstr) (cb : option func) (s : store) :
    list (jstr * option func) * store :=
  match cb with
  | Some (User f) =>
      (obj_set (event_key n) (Some (Once (length (wrappers s)))) m,
       with_wrappers (wrappers s ++ [Wrapper f (event_key n) o false]) s)
  | _ => (m, s)
  end.

Definition map_context (ns : names) : option nat := match ns with EventMap _ c => c | Plain _ _ => None end.

Definition once (this : nat) (ns : names) (context_ : option nat) (s : store) : store :=
  let '(events, s) := eventsApi (onceMap (OfferOff this)) [] ns s in
  on this (EventMap events (map_context ns)) context_ s.

Definition listenToOnce (this obj : nat) (ns : names) (s : store) : store :=
  let '(events, s) := eventsApi (onceMap (OfferStop this obj)) [] ns s in
  listenTo this obj (EventMap events None) s.

(** ** Dispatch

    A callback may use all of the methods while an event is dispatched: its body
    is a program of such calls, each of which may depend on what the store holds
    by then. *)

Inductive op :=
| On (this : nat) (ns : names) (context : option nat)
| Off (this : nat) (ns : names) (context : option nat)
| OnceOn (this : nat) (ns : names) (context : option nat)
| ListenTo (this obj : nat) (ns : names)
| ListenToOnce (this obj : nat) (ns : names)
| StopListening (this : nat) (obj : option nat) (ns : names)
| Trigger (this : nat) (name : option jstr) (args : list value).

Inductive prog := Ret | Do (o : op) (k : store -> prog).

(** The methods that call no callback. *)
Definition bind_op (o : op) (s : store) : store :=
  match o with
  | On this ns c => on this ns c s
  | Off this ns c => off this ns c s
  | OnceOn this ns c => once this ns c s
  | ListenTo this obj ns => listenTo this obj ns s
  | ListenToOnce this obj ns => listenToOnce this obj ns s
  | StopListening this obj ns => stopListening this obj ns s
  | Trigger _ _ _ => s
  end.

(** What is observed: a handler that an event of depth [d] calls, and a function
    of the program that runs, behind a wrapper or not. *)
Inductive entry := Dispatched (d : nat) (h : handler) (args : list value) | Ran (f : nat) (w : option nat).

Definition event_name (n : option jstr) : value := match n with Some n => VStr n | None => VUndef end.

(** A sequence of steps, with what is observed. *)
Definition andThen (m : res (store * list entry)) (f : store -> res (store * list entry)) : res (store * list entry) :=
  '(s, l) <-? m; '(s, l') <-? f s; Ok (s, l ++ l').

Section Dispatch.
(** What the functions of the program do, with [this] and their arguments. *)
Context (behave : nat -> nat -> list value -> prog).

Definition mark_called (w : nat) (s : store) : store :=
  with_wrappers (alter (fun x => Wrapper (_callback x) (w_name x) (w_offer x) true) w (wrappers s)) s.

Section Calls.
Variable exec : op -> store -> res (store * list entry).

Fixpoint run_prog (p : prog) (s : store) : res (store * list entry) :=
  match p with
  | Ret => Ok (s, [])
  | Do o k => andThen (exec o s) (fun s => run_prog (k s) s)
  end.

(** [offer(name, once)]. *)
Definition make_offer (o : offer) (name : jstr) (w : nat) (s : store) : store :=
  match o with
  | OfferOff this => off this (Plain (Some name) (Some (Once w))) None s
  | OfferStop this obj => stopListening this (Some obj) (Plain (Some name) (Some (Once w))) s
  end.

Definition call_function (f : nat) (w : option nat) (this : nat) (args : list value) (s : store) : res (store * list entry) :=
  andThen (Ok (s, [Ran f w])) (run_prog (behave f this args)).

Definition call_handler (h : handler) (args : list value) (s : store) : res (store * list entry) :=
  match callback h with
  | User f => call_function f None (ctx h) args s
  | Once w =>
      match wrappers s !! w with
      | Some x =>
          if w_called x then Ok (s, [])
          else call_function (_callback x) (Some w) (ctx h) args (make_offer (w_offer x) (w_name x) w (mark_called w s))
      | None => Ok (s, [])
      end
  end.

(** An array of handlers as [triggerEvents] is given it: one that is shared, or
    the copy that [slice] makes, which nothing else knows. *)
Inductive events_array := Shared (a : nat) | Copy (l : list handler).

Definition elements (a : events_array) (s : store) : list handler := match a with Shared a => array_of a s | Copy l => l end.

(** [triggerEvents]: the length [n] is read once, the handlers as they are
    reached. *)
Fixpoint trigger_loop (d : nat) (a : events_array) (n i : nat) (args : list value) (s : store) : res (store * list entry) :=
  match n with
  | O => Ok (s, [])
  | S n =>
      match elements a s !! i with
      | Some ev =>
          andThen (Ok (s, [Dispatched d ev args]))
            (fun s => andThen (call_handler ev args s) (fun s => trigger_loop d a n (S i) args s))
      | None => Err TypeError
      end
  end.

Definition triggerEvents (d : nat) (a : events_array) (args : list value) (s : store) : res (store * list entry) :=
  trigger_loop d a (length (elements a s)) 0 args s.

(** [triggerApi] on the table [t]. *)
Definition triggerApi (d t : nat) (n : option jstr) (args : list value) (s : store) : res (store * list entry) :=
  let events := Shared <$> obj_lookup (event_key n) (table_of t s) in
  let allEvents := Shared <$> obj_lookup (u "all") (table_of t s) in
  let allEvents := match events, allEvents with Some _, Some b => Some (Copy (elements b s)) | _, _ => allEvents end in
  andThen (match events with Some a => triggerEvents d a args s | None => Ok (s, []) end)
    (fun s => match allEvents with Some b => triggerEvents d b (event_name n :: args) s | None => Ok (s, []) end).

Fixpoint trigger_names (d t : nat) (ns : list (option jstr * option func)) (args : list value) (s : store) : res (store * list entry) :=
  match ns with
  | [] => Ok (s, [])
  | (n, _) :: ns => andThen (triggerApi d t n args s) (fun s => trigger_names d t ns args s)
  end.

Definition trigger (d this : nat) (n : option jstr) (args : list value) (s : store) : res (store * list entry) :=
  match _events (get this s) with
  | None => Ok (s, [])
  | Some t => trigger_names d t (expand (Plain n None)) args s
  end.
End Calls.

(** A method; the fuel bounds the depth of events that callbacks trigger. *)
Fixpoint exec (fuel d : nat) (o : op) (s : store) : res (store * list entry) :=
  match fuel, o with
  | O, _ => Err OutOfFuel
  | S fuel, Trigger this n args => trigger (exec fuel (S d)) d this n args s
  | S _, _ => Ok (bind_op o s, [])
  end.
End Dispatch.

(** Three callbacks for one event: the first unbinds the second and binds the
    third again, which happens for the next event only; a fourth one is called
    once, though it triggers the event of the others. *)
Definition demo_behave (f _ : nat) (_ : list value) : prog :=
  match f with
  | 1%nat => Do (Off 0 (Plain (Some (u "x")) (Some (User 2))) None) (fun _ => Do (On 0 (Plain (Some (u "x")) (Some (User 3))) None) (fun _ => Ret))
  | 4%nat => Do (Trigger 0 (Some (u "y")) []) (fun _ => Ret)
  | _ => Ret
  end.

Definition demo_store : store :=
  once 0 (Plain (Some (u "y")) (Some (User 4))) None
    (fold_left (fun s f => on 0 (Plain (Some (u "x")) (Some (User f))) None s) [1; 2; 3]%nat empty_store).

(** The functions that run. *)
Definition functions (l : list entry) : list nat := omap (fun e => match e with Ran f _ => Some f | Dispatched _ _ _ => None end) l.

Example dispatch_example :
  ('(s, l1) <-? exec demo_behave 2 0 (Trigger 0 (Some (u "x")) []) demo_store;
  '(s, l2) <-? exec demo_behave 2 0 (Trigger 0 (Some (u "x")) []) s;
  '(s, l3) <-? exec demo_behave 3 0 (Trigger 0 (Some (u "y")) []) s;
  Ok (functions l1, functions l2, functions l3)) = Ok ([1; 2; 3]%nat, [1; 3; 3]%nat, [4]%nat).
Proof. vm_compute. reflexivity. Qed.

(** ** What every step keeps

    Handlers stay at their place in the arrays, and a wrapper that was called
    stays called. *)

Definition called (w : nat) (s : store) : bool := match wrappers s !! w with Some x => w_called x | None => false end.

Definition arrays_grow (A B : list (list handler)) : Prop := forall a l, A !! a = Some l -> exists k, B !! a = Some (l ++ k).

(** Wrappers stay what they are, but for whether they were called. *)
Definition wrappers_kept (A B : list wrapper) : Prop :=
  forall w x, A !! w = Some x -> exists b, B !! w = Some (Wrapper (_callback x) (w_name x) (w_offer x) b).

(** A step that calls nothing. *)
Definition binds (s s' : store) : Prop :=
  arrays_grow (arrays s) (arrays s') /\ (forall w, called w s' = called w s) /\ wrappers_kept (wrappers s) (wrappers s').

#[export] Instance wrappers_kept_preorder : PreOrder wrappers_kept.
Proof.
  split; [intros A w [cb n o b] H; by exists b|]. intros A B C H1 H2 w x H. destruct (H1 w x H) as [b H'].
  destruct (H2 w _ H') as [b' H'']. by exists b'.
Qed.

#[export] Instance arrays_grow_preorder : PreOrder arrays_grow.
Proof.
  split; [intros A a l H; exists []; by rewrite app_nil_r|]. intros A B C H1 H2 a l H. destruct (H1 a l H) as [k H'].
  destruct (H2 a _ H') as [k' H'']. exists (k ++ k'). by rewrite app_assoc.
Qed.

#[export] Instance binds_preorder : PreOrder binds.
Proof.
  split; [done|]. intros s1 s2 s3 (H1 & H1' & H1'') (H2 & H2' & H2''). split; [by etransitivity|]. split; [|by etransitivity].
  intros w. by rewrite H2'.
Qed.

Lemma binds_same s s' : arrays s' = arrays s -> wrappers s' = wrappers s -> binds s s'.
Proof. intros Ha Hw. unfold binds, called. by rewrite Ha, Hw. Qed.

Lemma arrays_grow_snoc A l : arrays_grow A (A ++ [l]).
Proof. intros a l' H. exists []. rewrite app_nil_r. by apply lookup_app_l_Some. Qed.

Lemma arrays_grow_push A a (h : list handler) : arrays_grow A (alter (fun l => l ++ h) a A).
Proof.
  intros b l H. destruct (decide (a = b)) as [->|Hne].
  - exists h. by rewrite list_lookup_alter_eq, H.
  - exists []. by rewrite list_lookup_alter_ne, app_nil_r.
Qed.

Lemma eventsApi_rel {E S} (R : S -> S -> Prop) `{!PreOrder R} (iteratee : E -> option jstr -> option func -> S -> E * S) :
  (forall e n cb s, R s (iteratee e n cb s).2) -> forall e ns s, R s (eventsApi iteratee e ns s).2.
Proof.
  intros H e ns s. unfold eventsApi. revert e s. induction (expand ns) as [|[n cb] l IH]; intros e s; cbn [fold_left]; [done|].
  specialize (H e n cb s). destruct (iteratee e n cb s) as [e' s']. etransitivity; [exact H | apply IH].
Qed.

Ltac binds_step := first [done | apply binds_same; done].

Lemma handlers_array_binds t k s : binds s (handlers_array t k s).2.
Proof. unfold handlers_array. destruct (obj_lookup _ _); [done|]. split; [apply arrays_grow_snoc | done]. Qed.

Lemma onApi_binds this c r t n cb s : binds s (onApi this c r t n cb s).2.
Proof.
  unfold onApi. destruct cb as [f|]; [|done]. pose proof (handlers_array_binds t (event_key n) s) as H.
  destruct (handlers_array t (event_key n) s) as [a s1]. cbn [fst snd] in *. etransitivity; [exact H|].
  set (s2 := match r with Some r => add_count 1 r s1 | None => s1 end).
  assert (binds s1 s2) as H2 by (subst s2; destruct r; binds_step). etransitivity; [exact H2|].
  split; [apply arrays_grow_push | done].
Qed.

Lemma internalOn_binds obj ns c r s : binds s (internalOn obj ns c r s).
Proof.
  unfold internalOn. assert (H : binds s (own_table obj s).2) by (unfold own_table; destruct (_events _); binds_step).
  destruct (own_table obj s) as [t s1]. cbn [snd] in H.
  pose proof (eventsApi_rel binds (onApi obj (opts_context ns c) r) (onApi_binds _ _ _) t ns s1) as H2.
  destruct (eventsApi _ t ns s1) as [t2 s2]. cbn [snd] in H2. etransitivity; [exact H|]. etransitivity; [exact H2|].
  destruct (r ≫= _) as [[r' l]|]; binds_step.
Qed.

Lemma listenId_binds obj s : binds s (listenId obj s).2.
Proof. unfold listenId. destruct (_listenId _); binds_step. Qed.

Lemma own_listening_binds this obj s : binds s (own_listening this obj s).2.
Proof.
  unfold own_listening. pose proof (listenId_binds obj s) as H1. destruct (listenId obj s) as [i s1]. cbn [snd] in H1.
  destruct (obj_lookup i _); [exact H1|]. pose proof (listenId_binds this s1) as H2. destruct (listenId this s1) as [j s2].
  cbn [snd] in *. etransitivity; [exact H1|]. etransitivity; [exact H2 | binds_step].
Qed.

Lemma listenTo_binds this obj ns s : binds s (listenTo this obj ns s).
Proof.
  unfold listenTo. pose proof (own_listening_binds this obj s) as H. destruct (own_listening this obj s) as [r s1].
  etransitivity; [exact H | apply internalOn_binds].
Qed.

Lemma forget_binds this r s : binds s (forget this r s).
Proof. unfold forget. destruct (listenings s !! r); binds_step. Qed.

Lemma release_binds this h s : binds s (release this h s).
Proof.
  unfold release. destruct (h_listening h) as [r|]; [|done]. case_bool_decide; [|binds_step].
  etransitivity; [|apply forget_binds]. binds_step.
Qed.

Lemma off_handlers_binds this cb c hs : forall remaining s, binds s (off_handlers this cb c hs remaining s).2.
Proof.
  induction hs as [|h hs IH]; intros remaining s; cbn [off_handlers]; [done|]. case_match; [|apply IH].
  etransitivity; [apply release_binds | apply IH].
Qed.

Lemma off_names_binds this t cb c ks : forall s, binds s (off_names this t cb c ks s).
Proof.
  induction ks as [|k ks IH]; intros s; cbn [off_names]; [done|]. destruct (obj_lookup k _) as [a|]; [|done].
  pose proof (off_handlers_binds this cb c (array_of a s) [] s) as H. destruct (off_handlers _ _ _ _ _ _) as [rem s1]. cbn [snd] in H.
  etransitivity; [exact H|]. etransitivity; [|apply IH]. destruct rem; [binds_step|]. split; [apply arrays_grow_snoc | done].
Qed.

Lemma offApi_binds this c e n cb s : binds s (offApi this c e n cb s).2.
Proof.
  unfold offApi. destruct e as [t|]; [|done]. case_match; [apply off_names_binds|]. destruct cb; [apply off_names_binds|].
  destruct c; [apply off_names_binds|]. cbn [snd]. generalize (map snd (_listeners (get this s))). intros l. revert s.
  induction l as [|r l IH]; intros s; cbn [fold_left]; [done|]. etransitivity; [apply forget_binds | apply IH].
Qed.

Lemma off_binds this ns c s : binds s (off this ns c s).
Proof.
  unfold off. destruct (_events _) as [t|]; [|done].
  pose proof (eventsApi_rel binds (offApi this (opts_context ns c)) (offApi_binds _ _) (Some t) ns s) as H.
  destruct (eventsApi _ _ _ _) as [e s1]. etransitivity; [exact H | binds_step].
Qed.

Lemma stopListening_binds this obj ns s : binds s (stopListening this obj ns s).
Proof.
  unfold stopListening. generalize (match obj with Some o => [default (u "undefined") (_listenId (get o s))] | None => obj_keys (_listeningTo (get this s)) end).
  intros ids. revert s. induction ids as [|i ids IH]; intros s; cbn [stop_loop]; [done|].
  destruct (_ ≫= _) as [l|]; [|done]. etransitivity; [apply off_binds | apply IH].
Qed.

Lemma onceMap_binds o ns s : binds s (eventsApi (onceMap o) [] ns s).2.
Proof.
  apply (eventsApi_rel binds). intros m n cb s'. unfold onceMap. destruct cb as [[f|w]|]; [|done..]. split; [done|].
  split; [|intros w [cb' n' o' b] H; exists b; by apply lookup_app_l_Some]. intros w. unfold called. cbn [snd with_wrappers wrappers]. destruct (decide (w < length (wrappers s'))%nat).
  - by rewrite lookup_app_l.
  - rewrite lookup_app_r, (lookup_ge_None_2 (wrappers s')) by lia. by destruct (w - _)%nat as [|k].
Qed.

Lemma bind_op_binds o s : binds s (bind_op o s).
Proof.
  destruct o as [this ns c|this ns c|this ns c|this obj ns|this obj ns|this obj ns|this n args]; cbn [bind_op].
  - apply internalOn_binds.
  - apply off_binds.
  - unfold once. pose proof (onceMap_binds (OfferOff this) ns s) as H. destruct (eventsApi _ _ _ _) as [m s1].
    etransitivity; [exact H | apply internalOn_binds].
  - apply listenTo_binds.
  - unfold listenToOnce. pose proof (onceMap_binds (OfferStop this obj) ns s) as H. destruct (eventsApi _ _ _ _) as [m s1].
    etransitivity; [exact H | apply listenTo_binds].
  - apply stopListening_binds.
  - done.
Qed.

(** The tables and the arrays that are named are there. *)
Definition sound (s : store) : Prop :=
  (forall o t, _events (get o s) = Some t -> (t < length (tables s))%nat) /\
  (forall t k a, obj_lookup k (table_of t s) = Some a -> (a < length (arrays s))%nat).

Definition table_ok (e : option nat) (s : store) : Prop := match e with Some t => (t < length (tables s))%nat | None => True end.

Lemma sound_empty : sound empty_store.
Proof. split; [intros o t; unfold get; cbn; by rewrite lookup_empty|]. intros t k a. unfold table_of. cbn. by rewrite lookup_nil. Qed.

(** A step that names no new table or array. *)
Definition keeps_names (s s' : store) : Prop :=
  tables s' = tables s /\ length (arrays s') = length (arrays s) /\ forall o, _events (get o s') = _events (get o s).

#[export] Instance keeps_names_preorder : PreOrder keeps_names.
Proof. split; [done|]. intros s1 s2 s3 (H1 & H2 & H3) (H4 & H5 & H6). split; [congruence|]. split; [congruence|]. intros o. by rewrite H6. Qed.

Lemma keeps_sound s s' : keeps_names s s' -> sound s -> sound s'.
Proof. unfold sound, table_of. intros (H1 & H2 & H3) [H4 H5]. rewrite H1, H2. split; [|done]. intros o t. rewrite H3. apply H4. Qed.

Lemma get_set_eq o x s : get o (set o x s) = x.
Proof. unfold get, set. cbn. by rewrite lookup_insert_eq. Qed.

Lemma get_set_ne o o' x s : o <> o' -> get o' (set o x s) = get o' s.
Proof. intros H. unfold get, set. cbn. by rewrite lookup_insert_ne. Qed.

Lemma set_keeps o x s : _events x = _events (get o s) -> keeps_names s (set o x s).
Proof. intros H. split; [done|]. split; [done|]. intros o'. destruct (decide (o = o')) as [<-|]; [by rewrite get_set_eq | by rewrite get_set_ne]. Qed.

Lemma set_events_sound o e s : sound s -> table_ok e s -> sound (set o (set_events e (get o s)) s).
Proof.
  intros [H1 H2] He. split; [|done]. intros o' t. cbn [set tables]. destruct (decide (o = o')) as [<-|].
  - rewrite get_set_eq. cbn. by intros ->.
  - rewrite get_set_ne by done. apply H1.
Qed.

(** A key of a table is given an array, or loses it. *)
Lemma table_sound t x s s' :
  sound s -> objects s' = objects s -> tables s' = <[t := x]> (tables s) -> (length (arrays s) <= length (arrays s'))%nat ->
  (forall k a, obj_lookup k x = Some a -> (a < length (arrays s'))%nat) -> sound s'.
Proof.
  intros [H1 H2] Ho Ht Ha Hx. split.
  - intros o t'. unfold get. rewrite Ho, Ht, length_insert. apply H1.
  - intros t' k a. unfold table_of. rewrite Ht. destruct (decide (t = t' /\ (t < length (tables s))%nat)) as [[<- Hl] | Hn].
    + rewrite list_lookup_insert_eq by done. apply Hx.
    + replace (<[t := x]> (tables s) !! t') with (tables s !! t'); [intros H; specialize (H2 t' k a H); lia|].
      destruct (decide (t = t')) as [<-|]; [by rewrite list_insert_ge by lia | by rewrite list_lookup_insert_ne].
Qed.

(** A step that keeps them there. *)
Definition sound_step (s s' : store) : Prop := (sound s -> sound s') /\ (length (tables s) <= length (tables s'))%nat.

#[export] Instance sound_step_preorder : PreOrder sound_step.
Proof. split; [done|]. intros s1 s2 s3 [H1 H1'] [H2 H2']. split; [auto | lia]. Qed.

Lemma keeps_step s s' : keeps_names s s' -> sound_step s s'.
Proof. intros H. split; [by apply keeps_sound|]. destruct H as (-> & _). done. Qed.

Lemma handlers_array_sound t k s : sound_step s (handlers_array t k s).2.
Proof.
  unfold handlers_array. destruct (obj_lookup k _) as [a|]; [done|]. cbn [snd]. split; [|cbn; by rewrite length_insert].
  intros Hs. eapply (table_sound t); [exact Hs | done | done | cbn; rewrite length_app; lia|]. cbn.
  intros k' a. rewrite obj_lookup_set, length_app. destruct (streq k' k); [intros [= <-]; cbn; lia|]. intros H. destruct Hs as [_ Hs]. specialize (Hs t k' a H). lia.
Qed.

Lemma add_count_keeps d r s : keeps_names s (add_count d r s).
Proof. done. Qed.

Lemma onApi_sound this c r t n cb s : sound_step s (onApi this c r t n cb s).2.
Proof.
  unfold onApi. destruct cb as [f|]; [|done]. pose proof (handlers_array_sound t (event_key n) s) as H.
  destruct (handlers_array t (event_key n) s) as [a s1]. cbn [fst snd] in *. etransitivity; [exact H|]. apply keeps_step.
  split; [by destruct r|]. split; [cbn; rewrite length_alter; by destruct r | by destruct r].
Qed.

Lemma own_table_sound this s : sound_step s (own_table this s).2 /\ (sound s -> ((own_table this s).1 < length (tables (own_table this s).2))%nat).
Proof.
  unfold own_table. destruct (_events (get this s)) as [t|] eqn:E; cbn [fst snd].
  - split; [done|]. intros [H _]. by apply (H this).
  - cbn. rewrite length_app. cbn. split; [split; [|cbn; rewrite length_app; lia] | lia]. intros [H1 H2]. split.
    + intros o t Ho. cbn. rewrite length_app. specialize (H1 o t Ho). lia.
    + intros t k a. unfold table_of. cbn. destruct (decide (t < length (tables s))%nat); [rewrite lookup_app_l by done; apply H2|].
      rewrite lookup_app_r by lia. by destruct (t - _)%nat as [|[]].
Qed.

Lemma eventsApi_onApi_table this c r t ns s : (eventsApi (onApi this c r) t ns s).1 = t.
Proof.
  unfold eventsApi. revert t s. induction (expand ns) as [|[n cb] l IH]; intros t s; cbn [fold_left]; [done|].
  assert (E : (onApi this c r t n cb s).1 = t) by (unfold onApi; destruct cb; [|done]; by destruct (handlers_array _ _ _)).
  destruct (onApi this c r t n cb s) as [t' s']. cbn in E. by rewrite E.
Qed.

Lemma internalOn_sound obj ns c r s : sound_step s (internalOn obj ns c r s).
Proof.
  unfold internalOn. pose proof (own_table_sound obj s) as [H Ht]. destruct (own_table obj s) as [t s1]. cbn [fst snd] in *.
  pose proof (eventsApi_rel sound_step (onApi obj (opts_context ns c) r) (onApi_sound _ _ _) t ns s1) as H2.
  pose proof (eventsApi_onApi_table obj (opts_context ns c) r t ns s1) as E.
  destruct (eventsApi _ t ns s1) as [t2 s2]. cbn [fst snd] in *. subst t2.
  assert (H3 : sound_step s (set obj (set_events (Some t) (get obj s2)) s2)).
  { split; [|destruct H, H2; cbn; lia]. intros Hs. apply set_events_sound; [by apply H2, H|]. specialize (Ht Hs). destruct H2. cbn. lia. }
  destruct (r ≫= _) as [[r' l]|]; [|exact H3]. etransitivity; [exact H3|]. by apply keeps_step, set_keeps.
Qed.

Lemma listenId_keeps obj s : keeps_names s (listenId obj s).2.
Proof. unfold listenId. destruct (_listenId _); [done|]. cbn [snd uniqueId]. by eapply (transitivity (R := keeps_names)); [|by apply set_keeps]. Qed.

Lemma own_listening_keeps this obj s : keeps_names s (own_listening this obj s).2.
Proof.
  unfold own_listening. pose proof (listenId_keeps obj s) as H1. destruct (listenId obj s) as [i s1]. cbn [snd] in H1.
  destruct (obj_lookup i _); [exact H1|]. pose proof (listenId_keeps this s1) as H2. destruct (listenId this s1) as [j s2].
  cbn [snd] in *. etransitivity; [exact H1|]. etransitivity; [exact H2|]. by apply (set_keeps this _ (with_listenings _ s2)).
Qed.

Lemma listenTo_sound this obj ns s : sound_step s (listenTo this obj ns s).
Proof.
  unfold listenTo. pose proof (own_listening_keeps this obj s) as H. destruct (own_listening this obj s) as [r s1].
  etransitivity; [by apply keeps_step | apply internalOn_sound].
Qed.

Lemma forget_keeps this r s : keeps_names s (forget this r s).
Proof.
  unfold forget. destruct (listenings s !! r) as [l|]; [|done].
  transitivity (set this (set_listeners (obj_delete (l_id l) (_listeners (get this s))) (get this s)) s); by apply set_keeps.
Qed.

Lemma release_keeps this h s : keeps_names s (release this h s).
Proof.
  unfold release. destruct (h_listening h) as [r|]; [|done]. case_bool_decide; [|apply add_count_keeps].
  etransitivity; [apply (add_count_keeps (-1) r) | apply forget_keeps].
Qed.

Lemma off_handlers_keeps this cb c hs : forall remaining s, keeps_names s (off_handlers this cb c hs remaining s).2.
Proof.
  induction hs as [|h hs IH]; intros remaining s; cbn [off_handlers]; [done|]. case_match; [|apply IH].
  etransitivity; [apply release_keeps | apply IH].
Qed.

Lemma off_names_sound this t cb c ks : forall s, sound_step s (off_names this t cb c ks s).
Proof.
  induction ks as [|k ks IH]; intros s; cbn [off_names]; [done|]. destruct (obj_lookup k _) as [a|]; [|done].
  pose proof (off_handlers_keeps this cb c (array_of a s) [] s) as H. destruct (off_handlers _ _ _ _ _ _) as [rem s1]. cbn [snd] in H.
  etransitivity; [by apply keeps_step|]. etransitivity; [|apply IH]. split; [|destruct rem; cbn; rewrite length_insert; lia]. intros Hs.
  assert (Hx : forall k' a', obj_lookup k' (table_of t s1) = Some a' -> (a' < length (arrays s1))%nat) by (intros k'; apply Hs).
  destruct rem; (eapply (table_sound t _ s1); [exact Hs | done | done | cbn; rewrite ?length_app; lia|]); cbn.
  - intros k' a'. rewrite obj_lookup_delete. destruct (streq k' k); [done | apply Hx].
  - intros k' a'. rewrite obj_lookup_set, length_app. destruct (streq k' k); [intros [= <-]; cbn; lia|]. intros Hl%Hx. lia.
Qed.

Lemma offApi_sound this c e n cb s : sound_step s (offApi this c e n cb s).2 /\ ((offApi this c e n cb s).1 = e \/ (offApi this c e n cb s).1 = None).
Proof.
  unfold offApi. destruct e as [t|]; [|by split; [|left]]. case_match; [split; [apply off_names_sound | by left]|].
  destruct cb; [split; [apply off_names_sound | by left]|]. destruct c; [split; [apply off_names_sound | by left]|].
  split; [|by right]. cbn [snd]. apply keeps_step. generalize (map snd (_listeners (get this s))). intros l. revert s.
  induction l as [|r l IH]; intros s; cbn [fold_left]; [done|]. etransitivity; [apply forget_keeps | apply IH].
Qed.

Lemma off_sound this ns c s : sound_step s (off this ns c s).
Proof.
  unfold off. destruct (_events (get this s)) as [t|] eqn:E; [|done].
  assert (H : forall l e s, sound_step s (fold_left (fun '(e, s) '(n, cb) => offApi this (opts_context ns c) e n cb s) l (e, s)).2 /\
    ((fold_left (fun '(e, s) '(n, cb) => offApi this (opts_context ns c) e n cb s) l (e, s)).1 = e \/
     (fold_left (fun '(e, s) '(n, cb) => offApi this (opts_context ns c) e n cb s) l (e, s)).1 = None)).
  { clear. induction l as [|[n cb] l IH]; intros e s; cbn [fold_left]; [by split; [|left]|].
    pose proof (offApi_sound this (opts_context ns c) e n cb s) as [H1 H2]. destruct (offApi _ _ _ _ _ _) as [e1 s1]. cbn [fst snd] in *.
    destruct (IH e1 s1) as [H3 H4]. split; [by etransitivity|]. destruct H2 as [-> | ->]; [done|]. destruct H4 as [-> | ->]; by right. }
  unfold eventsApi. specialize (H (expand ns) (Some t) s). destruct (fold_left _ _ _) as [e1 s1]. cbn [fst snd] in H.
  destruct H as [[H1 H1'] H2]. split; [|cbn; lia]. intros Hs. apply set_events_sound; [by apply H1|].
  destruct H2 as [-> | ->]; [|done]. cbn. destruct Hs as [Hs _]. specialize (Hs this t E). lia.
Qed.

Lemma stopListening_sound this obj ns s : sound_step s (stopListening this obj ns s).
Proof.
  unfold stopListening. generalize (match obj with Some o => [default (u "undefined") (_listenId (get o s))] | None => obj_keys (_listeningTo (get this s)) end).
  intros ids. revert s. induction ids as [|i ids IH]; intros s; cbn [stop_loop]; [done|].
  destruct (_ ≫= _) as [l|]; [|done]. etransitivity; [apply off_sound | apply IH].
Qed.

Lemma onceMap_keeps o ns s : keeps_names s (eventsApi (onceMap o) [] ns s).2.
Proof. apply (eventsApi_rel keeps_names). intros m n cb s'. unfold onceMap. by destruct cb as [[f|w]|]. Qed.

Lemma bind_op_sound o s : sound_step s (bind_op o s).
Proof.
  destruct o as [this ns c|this ns c|this ns c|this obj ns|this obj ns|this obj ns|this n args]; cbn [bind_op].
  - apply internalOn_sound.
  - apply off_sound.
  - unfold once. pose proof (onceMap_keeps (OfferOff this) ns s) as H. destruct (eventsApi _ _ _ _) as [m s1].
    etransitivity; [by apply keeps_step | apply internalOn_sound].
  - apply listenTo_sound.
  - unfold listenToOnce. pose proof (onceMap_keeps (OfferStop this obj) ns s) as H. destruct (eventsApi _ _ _ _) as [m s1].
    etransitivity; [by apply keeps_step | apply listenTo_sound].
  - apply stopListening_sound.
  - done.
Qed.

(** The runs behind the wrapper [w], and the handlers called at depth [d]. *)
Definition ran (w : nat) (l : list entry) : nat :=
  length (List.filter (fun e => match e with Ran _ (Some w') => Nat.eqb w w' | _ => false end) l).

Definition dispatched (d : nat) (l : list entry) : list (handler * list value) :=
  omap (fun e => match e with Dispatched d' h args => if Nat.eqb d d' then Some (h, args) else None | Ran _ _ => None end) l.

Definition at_least (d : nat) (e : entry) : Prop := match e with Dispatched d' _ _ => (d <= d')%nat | Ran _ _ => True end.

(** A run from depth [d] on. *)
Record runs (d : nat) (s s' : store) (l : list entry) : Prop := {
  runs_arrays : arrays_grow (arrays s) (arrays s');
  runs_kept : wrappers_kept (wrappers s) (wrappers s');
  runs_once : forall w, (ran w l + Nat.b2n (called w s) = Nat.b2n (called w s'))%nat;
  runs_callback : forall f w x, Ran f (Some w) ∈ l -> wrappers s !! w = Some x -> f = _callback x;
  runs_called : forall d' h args w, Dispatched d' h args ∈ l -> callback h = Once w -> is_Some (wrappers s !! w) -> called w s' = true;
  runs_sound : sound s -> sound s';
  runs_depth : Forall (at_least d) l
}.

Lemma runs_binds d s s' : binds s s' -> (sound s -> sound s') -> runs d s s' [].
Proof. intros (H1 & H2 & H3) H4. split; try done. - intros w. by rewrite H2. - by intros ? ? ? ?%not_elem_of_nil. - by intros ? ? ? ? ?%not_elem_of_nil. Qed.

Lemma called_true d s s' l w : runs d s s' l -> called w s = true -> called w s' = true.
Proof. intros [_ _ H _ _ _ _] Hc. specialize (H w). rewrite Hc in H. destruct (called w s'); [done | cbn in H; lia]. Qed.

Lemma runs_app d s1 s2 s3 l1 l2 : runs d s1 s2 l1 -> runs d s2 s3 l2 -> runs d s1 s3 (l1 ++ l2).
Proof.
  intros H1 H2. split; [etransitivity; [apply H1 | apply H2] | etransitivity; [apply H1 | apply H2] | | | | | apply Forall_app; split; [apply H1 | apply H2]].
  - intros w. unfold ran in *. rewrite filter_app, length_app. pose proof (runs_once _ _ _ _ H1 w). pose proof (runs_once _ _ _ _ H2 w). unfold ran in *. lia.
  - intros f w x [Hin | Hin]%elem_of_app Hx; [by eapply H1|]. destruct (runs_kept _ _ _ _ H1 w x Hx) as [b Hb]. by apply (runs_callback _ _ _ _ H2 f w _ Hin Hb).
  - intros d' h args w [Hin | Hin]%elem_of_app Hc [x Hx].
    + eapply called_true; [exact H2|]. by eapply (runs_called _ _ _ _ H1).
    + destruct (runs_kept _ _ _ _ H1 w x Hx) as [b Hb]. eapply (runs_called _ _ _ _ H2); eauto.
  - intros Hs. by apply H2, H1.
Qed.

Lemma runs_deeper d s s' l : runs (S d) s s' l -> runs d s s' l.
Proof.
  intros [H1 H2 H3 H4 H5 H6 H7]. split; try done. eapply Forall_impl; [|exact H7]. intros [d' h a|f w]; cbn; [lia | done].
Qed.

Lemma andThen_ok m f s' l :
  andThen m f = Ok (s', l) <-> exists s1 l1 l2, m = Ok (s1, l1) /\ f s1 = Ok (s', l2) /\ l = l1 ++ l2.
Proof.
  unfold andThen. split.
  - intros ([s1 l1] & -> & ([s2 l2] & H & [= <- <-])%res_bind_ok)%res_bind_ok. by exists s1, l1, l2.
  - intros (s1 & l1 & l2 & -> & H & ->). cbn [res_bind]. by rewrite H.
Qed.

Lemma dispatched_app d l1 l2 : dispatched d (l1 ++ l2) = dispatched d l1 ++ dispatched d l2.
Proof. unfold dispatched. apply list.omap_app. Qed.

Lemma dispatched_deep d l : Forall (at_least (S d)) l -> dispatched d l = [].
Proof.
  unfold dispatched. induction 1 as [|e l He _ IH]; [done|]. cbn [omap list_omap]. destruct e as [d' h a|f w]; [|exact IH].
  cbn in He. rewrite (proj2 (Nat.eqb_neq d d')) by lia. exact IH.
Qed.

Section Runs.
Context (behave : nat -> nat -> list value -> prog) (exec : op -> store -> res (store * list entry)) (d : nat).
Context (Hexec : forall o s s' l, exec o s = Ok (s', l) -> runs (S d) s s' l).

Lemma run_prog_runs p : forall s s' l, run_prog exec p s = Ok (s', l) -> runs (S d) s s' l.
Proof.
  induction p as [|o k IH]; intros s s' l; cbn [run_prog].
  - intros [= <- <-]. by apply runs_binds.
  - intros (s1 & l1 & l2 & H1 & H2 & ->)%andThen_ok. eapply runs_app; [by eapply Hexec | by eapply IH].
Qed.

Lemma call_function_runs f w this args s s' l :
  call_function behave exec f w this args s = Ok (s', l) -> exists l', l = Ran f w :: l' /\ runs (S d) s s' l'.
Proof.
  unfold call_function. intros (s1 & l1 & l2 & [= <- <-] & H & ->)%andThen_ok. exists l2. split; [done|]. by eapply run_prog_runs.
Qed.

Lemma make_offer_binds o name w s : binds s (make_offer o name w s).
Proof. destruct o; [apply off_binds | apply stopListening_binds]. Qed.

Lemma called_marked w w' x s : wrappers s !! w = Some x -> called w' (mark_called w s) = if Nat.eqb w' w then true else called w' s.
Proof.
  intros Hx. unfold called, mark_called. cbn [with_wrappers wrappers]. destruct (Nat.eqb w' w) eqn:E.
  - apply Nat.eqb_eq in E as ->. by rewrite list_lookup_alter_eq, Hx.
  - apply Nat.eqb_neq in E. by rewrite list_lookup_alter_ne.
Qed.

Lemma make_offer_sound o name w s : sound_step s (make_offer o name w s).
Proof. destruct o; [apply off_sound | apply stopListening_sound]. Qed.

Lemma mark_called_kept w s : wrappers_kept (wrappers s) (wrappers (mark_called w s)).
Proof.
  intros w' [cb n o b] H. cbn. destruct (decide (w = w')) as [<-|]; [rewrite list_lookup_alter_eq, H | rewrite list_lookup_alter_ne by done]; by eexists.
Qed.

(** What a wrapper does before the callback that it has runs. *)
Lemma first_call_runs w x s : wrappers s !! w = Some x -> w_called x = false ->
  runs (S d) s (make_offer (w_offer x) (w_name x) w (mark_called w s)) [Ran (_callback x) (Some w)].
Proof.
  intros Hx Hc. set (s1 := mark_called w s). pose proof (make_offer_binds (w_offer x) (w_name x) w s1) as (Ha & Hb & Hk). split.
  - exact Ha.
  - etransitivity; [apply (mark_called_kept w) | exact Hk].
  - intros w'. rewrite Hb. unfold s1. rewrite (called_marked w w' x s Hx). unfold ran. cbn [List.filter].
    destruct (Nat.eqb w' w) eqn:E; [|done]. apply Nat.eqb_eq in E as ->. unfold called. by rewrite Hx, Hc.
  - intros f w' x' [= -> ->]%list_elem_of_singleton Hx'. congruence.
  - by intros ? ? ? ? ?%list_elem_of_singleton.
  - intros Hs. by apply make_offer_sound.
  - by repeat constructor.
Qed.

Lemma runs_plain f s : runs (S d) s s [Ran f None].
Proof. split; [done | done | by intros w | by intros ? ? ? ?%list_elem_of_singleton | by intros ? ? ? ? ?%list_elem_of_singleton | done | by repeat constructor]. Qed.

Lemma call_handler_runs h args s s' l : call_handler behave exec h args s = Ok (s', l) ->
  runs (S d) s s' l /\ forall w, callback h = Once w -> is_Some (wrappers s !! w) -> called w s' = true.
Proof.
  unfold call_handler. destruct (callback h) as [f|w].
  - intros (l' & -> & H)%call_function_runs. split; [|done]. change (Ran f None :: l') with ([Ran f None] ++ l').
    eapply runs_app; [apply runs_plain | exact H].
  - destruct (wrappers s !! w) as [x|] eqn:Hx; [|intros [= <- <-]; split; [by apply runs_binds | by intros w' [= <-] [? ?]; congruence]].
    destruct (w_called x) eqn:Hc.
    { intros [= <- <-]. split; [by apply runs_binds|]. intros w' [= <-] _. unfold called. by rewrite Hx. }
    intros (l' & -> & H)%call_function_runs. assert (Hr : runs (S d) s s' ([Ran (_callback x) (Some w)] ++ l'))
      by (eapply runs_app; [by apply first_call_runs | exact H]). split; [exact Hr|].
    intros w' [= <-] _. pose proof (runs_once _ _ _ _ Hr w) as Ho. unfold ran in Ho. cbn [app List.filter] in Ho.
    rewrite Nat.eqb_refl in Ho. cbn in Ho. destruct (called w s'); [done | cbn in Ho; lia].
Qed.

(** A handler that is reached is called. *)
Lemma dispatch_runs h args s s' l : call_handler behave exec h args s = Ok (s', l) -> runs d s s' (Dispatched d h args :: l).
Proof.
  intros [Hr Hc]%call_handler_runs. pose proof Hr as [H1 H2 H3 H4 H5 H6 H7]. split; try done.
  - intros f w x [Hin | Hin]%elem_of_cons Hx; [done | by apply (H4 f w x)].
  - intros d' h' args' w [[= -> -> ->] | Hin]%elem_of_cons Hw Hx; [by apply Hc | by eapply H5].
  - constructor; [cbn; lia|]. apply (runs_depth d s s'). by apply runs_deeper.
Qed.

(** The loop calls the handlers that the array held when it started. *)
Lemma trigger_loop_runs a args mid : forall pre post s s' l,
  (elements a s = pre ++ mid ++ post /\ (forall b, a = Shared b -> arrays s !! b = Some (pre ++ mid ++ post)) \/ mid = []) ->
  trigger_loop behave exec d a (length mid) (length pre) args s = Ok (s', l) ->
  runs d s s' l /\ dispatched d l = map (fun h => (h, args)) mid.
Proof.
  induction mid as [|h mid IH]; intros pre post s s' l Ha; cbn [trigger_loop length].
  { intros [= <- <-]. split; [by apply runs_binds | done]. }
  destruct Ha as [[He Ha] | ?]; [|done]. rewrite He. cbn [app]. rewrite list_lookup_middle by done.
  intros (s1 & l1 & l2 & [= <- <-] & (s2 & l3 & l4 & Hc & Hl & ->)%andThen_ok & ->)%andThen_ok.
  pose proof (proj1 (call_handler_runs _ _ _ _ _ Hc)) as Hc'. apply dispatch_runs in Hc as Hd'.
  replace (S (length pre)) with (length (pre ++ [h])) in Hl by (rewrite length_app; cbn; lia).
  assert (exists k, elements a s2 = (pre ++ [h]) ++ mid ++ k /\ (forall b, a = Shared b -> arrays s2 !! b = Some ((pre ++ [h]) ++ mid ++ k))) as (k & Hk).
  { destruct a as [b|hs].
    - destruct (runs_arrays _ _ _ _ Hc' b _ (Ha b eq_refl)) as [k Hk]. exists (post ++ k).
      rewrite <- !app_assoc in Hk. cbn [app] in Hk. rewrite <- !app_assoc. cbn [app]. split; [|by intros ? [= <-]].
      unfold elements, array_of. by rewrite Hk.
    - exists post. cbn in He |- *. rewrite <- app_assoc. by split. }
  destruct (IH (pre ++ [h]) k s2 s' l4) as [Hr Hd]; [by left | exact Hl |].
  split.
  - exact (runs_app d s s2 s' (Dispatched d h args :: l3) l4 Hd' Hr).
  - rewrite !dispatched_app, (dispatched_deep d l3) by apply Hc'. rewrite Hd. cbn. by rewrite Nat.eqb_refl.
Qed.

Lemma triggerEvents_runs a args s s' l :
  triggerEvents behave exec d a args s = Ok (s', l) ->
  runs d s s' l /\ dispatched d l = map (fun h => (h, args)) (elements a s).
Proof.
  intros H. apply (trigger_loop_runs a args (elements a s) [] [] s s' l); [|exact H]. rewrite app_nil_r. cbn [app].
  destruct a as [b|hs]; cbn [elements].
  - unfold array_of. destruct (arrays s !! b) as [hs|] eqn:E; [left|by right]. split; [done|]. by intros ? [= <-].
  - left. by split.
Qed.

(** The handlers of a name in a table. *)
Definition bound (t : nat) (k : jstr) (s : store) : list handler :=
  match obj_lookup k (table_of t s) with Some a => array_of a s | None => [] end.

Lemma triggerApi_runs t n args s s' l :
  triggerApi behave exec d t n args s = Ok (s', l) ->
  runs d s s' l /\ dispatched d l = map (fun h => (h, args)) (bound t (event_key n) s)
                                    ++ map (fun h => (h, event_name n :: args)) (bound t (u "all") s).
Proof.
  unfold triggerApi, bound. destruct (obj_lookup (event_key n) _) as [a|], (obj_lookup (u "all") _) as [b|]; cbn [fmap option_fmap option_map].
  - intros (s1 & l1 & l2 & H1 & H2 & ->)%andThen_ok. apply triggerEvents_runs in H1 as [Hr1 Hd1]. apply triggerEvents_runs in H2 as [Hr2 Hd2].
    split; [by eapply runs_app|]. by rewrite dispatched_app, Hd1, Hd2.
  - intros (s1 & l1 & l2 & H1 & [= <- <-] & ->)%andThen_ok. rewrite !app_nil_r. by apply triggerEvents_runs in H1.
  - intros (s1 & l1 & l2 & [= <- <-] & H1 & ->)%andThen_ok. by apply triggerEvents_runs in H1.
  - intros (s1 & l1 & l2 & [= <- <-] & [= <- <-] & ->)%andThen_ok. split; [by apply runs_binds | done].
Qed.

Lemma trigger_names_runs t ns args : forall s s' l, trigger_names behave exec d t ns args s = Ok (s', l) -> runs d s s' l.
Proof.
  induction ns as [|[n cb] ns IH]; intros s s' l; cbn [trigger_names].
  - intros [= <- <-]. by apply runs_binds.
  - intros (s1 & l1 & l2 & H1 & H2 & ->)%andThen_ok. apply triggerApi_runs in H1 as [H1 _]. eapply runs_app; [exact H1 | by eapply IH].
Qed.
End Runs.

Lemma exec_runs behave fuel : forall d o s s' l, exec behave fuel d o s = Ok (s', l) -> runs d s s' l.
Proof.
  induction fuel as [|fuel IH]; intros d o s s' l; [done|]. pose proof (bind_op_binds o s) as Hb.
  destruct o as [this ns c|this ns c|this ns c|this obj ns|this obj ns|this obj ns|this n args]; cbn [exec];
    try (intros [= <- <-]; apply (runs_binds _ _ _ Hb); exact (proj1 (bind_op_sound _ s))).
  unfold trigger. destruct (_events _) as [t|]; [|intros [= <- <-]; by apply runs_binds].
  apply trigger_names_runs. intros o s1 s2 l'. apply IH.
Qed.

(** ** Properties of the dispatch *)

(** The handlers of an object for a name. *)
Definition handlers (this : nat) (k : jstr) (s : store) : list handler :=
  match _events (get this s) with Some t => bound t k s | None => [] end.

(** A callback that triggers no event itself. *)
Fixpoint quiet (p : prog) : Prop :=
  match p with
  | Ret => True
  | Do o k => match o with Trigger _ _ _ => False | _ => True end /\ forall s, quiet (k s)
  end.

Section Quiet.
Context (behave : nat -> nat -> list value -> prog) (Hquiet : forall f this args, quiet (behave f this args)) (d : nat).

Definition returns (m : res (store * list entry)) : Prop := exists s l, m = Ok (s, l).

Lemma returns_andThen m f : returns m -> (forall s l, m = Ok (s, l) -> returns (f s)) -> returns (andThen m f).
Proof. intros (s & l & ->) H. destruct (H s l eq_refl) as (s' & l' & E). exists s', (l ++ l'). unfold andThen. cbn [res_bind]. by rewrite E. Qed.

Lemma returns_ok s l : returns (Ok (s, l)).
Proof. by exists s, l. Qed.

Abbreviation run := (exec behave 1 (S d)).

Lemma run_prog_returns p : quiet p -> forall s, returns (run_prog run p s).
Proof.
  induction p as [|o k IH]; intros Hp s; cbn [run_prog]; [apply returns_ok|]. destruct Hp as [Ho Hk].
  apply returns_andThen; [|by intros s1 l _; apply IH]. destruct o; try done; apply returns_ok.
Qed.

Lemma call_handler_returns h args s : returns (call_handler behave run h args s).
Proof.
  assert (Hf : forall f w s, returns (call_function behave run f w (ctx h) args s)).
  { intros f w s1. apply returns_andThen; [apply returns_ok|]. intros s2 l _. by apply run_prog_returns. }
  unfold call_handler. destruct (callback h) as [f|w]; [apply Hf|]. destruct (wrappers s !! w) as [x|]; [|apply returns_ok].
  destruct (w_called x); [apply returns_ok | apply Hf].
Qed.

Lemma trigger_loop_returns a args n : forall i s,
  (i + n <= length (elements a s))%nat -> returns (trigger_loop behave run d a n i args s).
Proof.
  induction n as [|n IH]; intros i s Hn; cbn [trigger_loop]; [apply returns_ok|].
  destruct (lookup_lt_is_Some_2 (elements a s) i ltac:(lia)) as [h Hh]. rewrite Hh.
  apply returns_andThen; [apply returns_ok|]. intros s1 l1 [= <- <-]. apply returns_andThen; [apply call_handler_returns|].
  intros s2 l2 Hc. apply IH. apply (call_handler_runs behave run d) in Hc as [Hr _]; [|intros o s3 s4 l3; apply exec_runs]. pose proof (runs_arrays _ _ _ _ Hr) as Hg.
  destruct a as [b|hs]; [|cbn in *; lia]. cbn [elements] in *. unfold array_of in *.
  destruct (arrays s !! b) as [l|] eqn:E; [|cbn in Hn; lia]. destruct (Hg b l E) as [k ->]. cbn in *. rewrite length_app. lia.
Qed.

Lemma trigger_returns this n args s : returns (exec behave 2 d (Trigger this n args) s).
Proof.
  change (exec behave 2 d (Trigger this n args) s) with (trigger behave run d this n args s).
  unfold trigger. destruct (_events _) as [t|]; [|apply returns_ok]. generalize (expand (Plain n None)). intros ns. revert s.
  induction ns as [|[m cb] ns IH]; intros s; cbn [trigger_names]; [apply returns_ok|].
  assert (He : forall a args s, returns (triggerEvents behave run d a args s)) by (intros; by apply trigger_loop_returns).
  apply returns_andThen; [|intros; apply IH]. unfold triggerApi. apply returns_andThen.
  - destruct (Shared <$> _); [apply He | apply returns_ok].
  - intros s1 l _. case_match; [apply He | apply returns_ok].
Qed.
End Quiet.

Lemma trigger_dispatched behave d this n args s fuel s' l :
  existsb is_js_space n = false -> exec behave fuel d (Trigger this (Some n) args) s = Ok (s', l) ->
  dispatched d l = map (fun h => (h, args)) (handlers this n s) ++ map (fun h => (h, VStr n :: args)) (handlers this (u "all") s).
Proof.
  intros Hn H. destruct fuel as [|fuel]; [done|]. cbn [exec] in H. unfold trigger, handlers in *.
  destruct (_events (get this s)) as [t|]; [|by injection H as <- <-]. unfold expand, expand_name in H. rewrite Hn in H.
  cbn [trigger_names] in H. apply andThen_ok in H as (s1 & l1 & l2 & H & [= <- <-] & ->).
  rewrite app_nil_r. eapply triggerApi_runs in H as [_ H]; [exact H|]. intros o s2 s3 l'. apply exec_runs.
Qed.

(** C34.  Dispatching an event calls exactly the handlers that were bound to it
    when it began, in the order in which they were bound, and then those bound
    to [all] at that time, with the name before the arguments: whatever the
    callbacks bind, unbind or trigger in the meantime, on the same object or
    others.  With callbacks that trigger no events it does return. *)
Theorem trigger_calls_snapshot behave d this n args s :
  existsb is_js_space n = false ->
  (forall fuel s' l, exec behave fuel d (Trigger this (Some n) args) s = Ok (s', l) ->
     dispatched d l = map (fun h => (h, args)) (handlers this n s) ++ map (fun h => (h, VStr n :: args)) (handlers this (u "all") s)) /\
  ((forall f this args, quiet (behave f this args)) -> exists s' l, exec behave 2 d (Trigger this (Some n) args) s = Ok (s', l)).
Proof.
  intros Hn. split; [|intros Hq; by apply trigger_returns]. intros fuel s' l. by apply trigger_dispatched.
Qed.

(** Several methods, one after the other. *)
Fixpoint exec_all (behave : nat -> nat -> list value -> prog) (fuel d : nat) (os : list op) (s : store) : res (store * list entry) :=
  match os with [] => Ok (s, []) | o :: os => andThen (exec behave fuel d o s) (exec_all behave fuel d os) end.

Lemma exec_all_runs behave fuel d os : forall s s' l, exec_all behave fuel d os s = Ok (s', l) -> runs d s s' l.
Proof.
  induction os as [|o os IH]; intros s s' l; cbn [exec_all]; [intros [= <- <-]; by apply runs_binds|].
  intros (s1 & l1 & l2 & H1 & H2 & ->)%andThen_ok. eapply runs_app; [by eapply exec_runs | by eapply IH].
Qed.

Lemma filter_none {A} (f : A -> bool) l : (forall x, x ∈ l -> f x = false) -> List.filter f l = [].
Proof. induction l as [|x l IH]; intros H; [done|]. cbn. rewrite H by by left. apply IH. intros y Hy. apply H. by right. Qed.

(** One name bound to one function: the handler stands after the others. *)
Lemma internalOn_handlers obj k f c0 c r s :
  sound s -> existsb is_js_space k = false ->
  handlers obj k (internalOn obj (EventMap [(k, Some f)] c0) c r s) =
  handlers obj k s ++ [Handler f (opts_context (EventMap [(k, Some f)] c0) c) (default obj (opts_context (EventMap [(k, Some f)] c0) c)) r].
Proof.
  intros Hs Hk. unfold internalOn. generalize (opts_context (EventMap [(k, Some f)] c0) c). intros c1.
  assert (Hh : handlers obj k s = bound (own_table obj s).1 k (own_table obj s).2).
  { unfold handlers, own_table. destruct (_events (get obj s)) as [t|]; [done|]. unfold bound, table_of. cbn. by rewrite list_lookup_middle by done. }
  destruct (own_table_sound obj s) as [[Hs1 _] Ht]. specialize (Hs1 Hs). specialize (Ht Hs). rewrite Hh. clear Hh.
  destruct (own_table obj s) as [t s1]. cbn [fst snd] in *. clear Hs s.
  unfold eventsApi, expand. cbn [map concat app]. unfold expand_name. rewrite Hk. cbn [app fold_left]. unfold onApi.
  assert (Ha : obj_lookup k (table_of t (handlers_array t k s1).2) = Some (handlers_array t k s1).1 /\
    arrays (handlers_array t k s1).2 !! (handlers_array t k s1).1 = Some (bound t k s1)).
  { unfold handlers_array, bound, array_of. destruct (obj_lookup k (table_of t s1)) as [a|] eqn:E; cbn [fst snd].
    - split; [done|]. destruct Hs1 as [_ Hs1]. specialize (Hs1 t k a E). destruct (lookup_lt_is_Some_2 _ _ Hs1) as [l Hl]. by rewrite Hl.
    - unfold table_of at 1. cbn. rewrite list_lookup_insert_eq by done. cbn. rewrite obj_lookup_set_eq. by rewrite list_lookup_middle by done. }
  change (event_key (Some k)) with k.
  destruct (handlers_array t k s1) as [a s2]. cbn [fst snd] in Ha. destruct Ha as [Hl Ha].
  set (s3 := match r with Some r0 => add_count 1 r0 s2 | None => s2 end).
  assert (E3 : tables s3 = tables s2 /\ arrays s3 = arrays s2) by (subst s3; by destruct r). destruct E3 as [Et3 Ea3].
  set (s4 := with_arrays (alter (fun l => l ++ [Handler f c1 (default obj c1) r]) a (arrays s3)) s3).
  assert (Hb : forall s5, tables s5 = tables s4 -> arrays s5 = arrays s4 -> _events (get obj s5) = Some t ->
            handlers obj k s5 = bound t k s1 ++ [Handler f c1 (default obj c1) r]).
  { intros s5 Ht5 Ha5 He5. unfold handlers. rewrite He5. unfold bound at 1, table_of, array_of. rewrite Ht5, Ha5. cbn [s4 with_arrays tables arrays].
    rewrite Et3, Ea3. unfold table_of in Hl. rewrite Hl. by rewrite list_lookup_alter_eq, Ha. }
  destruct (r ≫= _) as [[r' l]|]; apply Hb; try done; [rewrite get_set_eq; cbn [_events set_listeners]|]; by rewrite get_set_eq.
Qed.

Lemma keeps_handlers o k s s' : keeps_names s s' -> arrays s' = arrays s -> handlers o k s' = handlers o k s.
Proof. intros (Ht & _ & He) Ha. unfold handlers, bound, table_of, array_of. by rewrite He, Ht, Ha. Qed.

Lemma own_listening_arrays this obj s : arrays (own_listening this obj s).2 = arrays s /\ wrappers (own_listening this obj s).2 = wrappers s.
Proof.
  unfold own_listening, listenId. destruct (_listenId (get obj s)); cbn -[to_radix get set];
    repeat (case_match; cbn -[to_radix get set] in *; simplify_eq); done.
Qed.

Definition same_wrappers (s s' : store) : Prop := wrappers s' = wrappers s.

#[export] Instance same_wrappers_preorder : PreOrder same_wrappers.
Proof. split; [done|]. intros s1 s2 s3 H1 H2. unfold same_wrappers in *. congruence. Qed.

Lemma internalOn_wrappers obj ns c r s : wrappers (internalOn obj ns c r s) = wrappers s.
Proof.
  unfold internalOn. assert (H : wrappers (own_table obj s).2 = wrappers s) by (unfold own_table; by destruct (_events _)).
  destruct (own_table obj s) as [t s1]. cbn [snd] in H.
  pose proof (eventsApi_rel same_wrappers (onApi obj (opts_context ns c) r)) as Hr.
  specialize (Hr ltac:(intros e n cb s'; unfold onApi, handlers_array; destruct cb; [|done]; destruct (obj_lookup _ _), r; done) t ns s1).
  destruct (eventsApi _ t ns s1) as [t2 s2]. cbn [snd] in Hr. unfold same_wrappers in Hr. destruct (r ≫= _) as [[r' l]|]; cbn; congruence.
Qed.

(** What [once] and [listenToOnce] do for one name: they make a wrapper and bind it. *)
Definition binds_once (o : op) (this : nat) (n : jstr) (f : nat) : Prop :=
  (exists c, o = OnceOn this (Plain (Some n) (Some (User f))) c) \/
  (exists listener, o = ListenToOnce listener this (Plain (Some n) (Some (User f)))).

Lemma once_binds o this n f s :
  binds_once o this n f -> sound s -> existsb is_js_space n = false ->
  (exists h, handlers this n (bind_op o s) = handlers this n s ++ [h] /\ callback h = Once (length (wrappers s))) /\
  exists x, wrappers (bind_op o s) = wrappers s ++ [x] /\ _callback x = f /\ w_called x = false.
Proof.
  intros Ho Hs Hn.
  assert (He : forall p, eventsApi (onceMap p) [] (Plain (Some n) (Some (User f))) s =
            ([(n, Some (Once (length (wrappers s))))], with_wrappers (wrappers s ++ [Wrapper f n p false]) s)).
  { intros p. unfold eventsApi, expand, expand_name. by rewrite Hn. }
  destruct Ho as [[c ->] | [listener ->]]; cbn [bind_op]; [unfold once | unfold listenToOnce]; rewrite He.
  - set (s1 := with_wrappers _ s). split; [|eexists; unfold on; rewrite internalOn_wrappers; by split].
    unfold on. rewrite internalOn_handlers by done. eexists. by split.
  - set (s1 := with_wrappers _ s). unfold listenTo.
    pose proof (own_listening_keeps listener this s1) as Hk. pose proof (own_listening_arrays listener this s1) as [Ha Hw1].
    destruct (own_listening listener this s1) as [r s2]. cbn [snd] in *. split; [|eexists; rewrite internalOn_wrappers, Hw1; by split].
    rewrite internalOn_handlers by (try done; by eapply keeps_sound; [exact Hk|]). rewrite (keeps_handlers this n s1 s2) by done. eexists. by split.
Qed.

(** C35.  [once] and [listenToOnce] bind a callback that runs once.  In a store
    that any methods and callbacks have led to, they bind no more than a new
    wrapper, after the handlers of the name; behind this wrapper the callback,
    and no other function, runs at most once in all that happens afterwards, also
    when it triggers its event again; and when this event is what happens
    next, it runs exactly once. *)
Theorem once_runs_once behave fuel0 d0 os0 s l0 o this n f :
  exec_all behave fuel0 d0 os0 empty_store = Ok (s, l0) ->
  binds_once o this n f -> existsb is_js_space n = false ->
  let w := length (wrappers s) in
  let s1 := bind_op o s in
  (exists h, handlers this n s1 = handlers this n s ++ [h] /\ callback h = Once w) /\
  (forall fuel d os s2 l, exec_all behave fuel d os s1 = Ok (s2, l) -> (ran w l <= 1)%nat /\ forall g, Ran g (Some w) ∈ l -> g = f) /\
  (forall fuel d args s2 l, exec behave fuel d (Trigger this (Some n) args) s1 = Ok (s2, l) -> ran w l = 1%nat).
Proof.
  intros H0 Ho Hn w s1. assert (Hs : sound s) by (apply exec_all_runs in H0; apply H0, sound_empty).
  destruct (once_binds o this n f s Ho Hs Hn) as [(h & Hh & Hc) (x & Hw & Hx & Hxc)]. fold s1 w in Hh, Hc, Hw.
  assert (Hl : wrappers s1 !! w = Some x) by (rewrite Hw; by apply list_lookup_middle).
  assert (Hu : called w s1 = false) by (unfold called; by rewrite Hl).
  split; [by exists h|]. split.
  - intros fuel d os s2 l Hr%exec_all_runs. pose proof (runs_once _ _ _ _ Hr w) as Hb. rewrite Hu in Hb. cbn in Hb.
    split; [destruct (called w s2); cbn in *; lia|]. intros g Hg. rewrite (runs_callback _ _ _ _ Hr g w x Hg Hl). exact Hx.
  - intros fuel d args s2 l Hr. pose proof (trigger_dispatched behave d this n args s1 fuel s2 l Hn Hr) as Hd. apply exec_runs in Hr.
    assert (Hin : (h, args) ∈ dispatched d l).
    { rewrite Hd, Hh, map_app. apply elem_of_app. left. apply elem_of_app. right. by left. }
    apply list_elem_of_omap in Hin as (e & He & Hin). destruct e as [d' h' args'|]; [|done]. destruct (Nat.eqb d d'); [|done]. injection Hin as -> ->.
    pose proof (runs_called _ _ _ _ Hr _ _ _ w He Hc ltac:(by eexists)) as Hcalled.
    pose proof (runs_once _ _ _ _ Hr w) as Hb. rewrite Hu, Hcalled in Hb. cbn in Hb. lia.
Qed.

(** The example, of which the first callback unbinds the second. *)
Lemma trigger_calls_snapshot_witness :
  existsb is_js_space (u "x") = false /\
  exists s' l, exec demo_behave 2 0 (Trigger 0 (Some (u "x")) [VNull]) demo_store = Ok (s', l) /\
    map (fun x => (callback x.1, x.2)) (dispatched 0 l) = [(User 1, [VNull]); (User 2, [VNull]); (User 3, [VNull])].
Proof.
  assert (Hx : existsb is_js_space (u "x") = false) by reflexivity. split; [exact Hx|].
  destruct (exec demo_behave 2 0 (Trigger 0 (Some (u "x")) [VNull]) demo_store) as [[s' l]|e] eqn:E.
  - exists s', l. split; [reflexivity|].
    pose proof (proj1 (trigger_calls_snapshot demo_behave 0 0 (u "x") [VNull] demo_store Hx) 2%nat s' l E) as H.
    rewrite H. vm_compute. reflexivity.
  - exfalso. vm_compute in E. discriminate E.
Defined.

(** The fourth callback of the example triggers its own event, which is then triggered again. *)
Definition demo_ons : list op := map (fun f => On 0 (Plain (Some (u "x")) (Some (User f))) None) [1; 2; 3]%nat.

Lemma once_runs_once_witness :
  exists s l0 s2 l, exec_all demo_behave 1 0 demo_ons empty_store = Ok (s, l0) /\
    let s1 := once 0 (Plain (Some (u "y")) (Some (User 4))) None s in
    (exists h, handlers 0 (u "y") s1 = handlers 0 (u "y") s ++ [h] /\ callback h = Once 0) /\
    exec_all demo_behave 3 0 [Trigger 0 (Some (u "y")) []; Trigger 0 (Some (u "y")) []] s1 = Ok (s2, l) /\ functions l = [4]%nat /\ (ran 0 l <= 1)%nat /\
    exists s3 l', exec demo_behave 3 0 (Trigger 0 (Some (u "y")) []) s1 = Ok (s3, l') /\ ran 0 l' = 1%nat.
Proof.
  destruct (exec_all demo_behave 1 0 demo_ons empty_store) as [[s l0]|e] eqn:E; [|vm_compute in E; discriminate E].
  destruct (once_runs_once demo_behave 1 0 demo_ons s l0 (OnceOn 0 (Plain (Some (u "y")) (Some (User 4))) None) 0 (u "y") 4 E
    (or_introl (ex_intro _ None eq_refl)) eq_refl) as (H1 & H2 & H3).
  assert (Hw : length (wrappers s) = 0%nat) by (vm_compute in E; injection E as <- _; reflexivity). rewrite Hw in *. cbn [bind_op] in *.
  set (s1 := once 0 (Plain (Some (u "y")) (Some (User 4))) None s) in *.
  destruct (exec_all demo_behave 3 0 [Trigger 0 (Some (u "y")) []; Trigger 0 (Some (u "y")) []] s1) as [[s2 l]|e] eqn:E2;
    [|vm_compute in E; injection E as <- _; vm_compute in E2; discriminate E2].
  destruct (exec demo_behave 3 0 (Trigger 0 (Some (u "y")) []) s1) as [[s3 l']|e] eqn:E3;
    [|vm_compute in E; injection E as <- _; vm_compute in E3; discriminate E3].
  exists s, l0, s2, l. split; [reflexivity|]. split; [exact H1|]. split; [exact E2|].
  split; [vm_compute in E; injection E as <- _; vm_compute in E2; injection E2 as _ <-; reflexivity|].
  split; [by apply (H2 _ _ _ _ _ E2)|]. exists s3, l'. split; [exact E3|]. by apply (H3 _ _ _ _ _ E3).
Defined.
