(* ===== verification/BackboneModel.v ===== *)
(** Backbone's models (module 113): [set] and what is made of it, with listeners
    that change the model again while it announces its changes. *)

From Stdlib Require Import ZArith Lia List String Bool.
From stdpp Require Import base list sets list_numbers tactics.
From S2P Require Import Prelude JsNum Js Underscore.

(** ** Data *)

Record set_options := SetOptions { o_unset : bool; o_silent : bool; o_validate : bool }.

Definition no_options : set_options := SetOptions false false false.

Record model := Model {
  cid : jstr;
  attributes : object;
  changed : object;
  _previousAttributes : object;
  m_id : value;                          (* [id] *)
  _changing : bool;
  _pending : option set_options;
  validationError : value
}.

(** [change:attr] with the value, [change], and [invalid] with the error. *)
Inductive model_event := ChangeAttr (attr : jstr) (v : value) | Change | Invalid (error : value).

Definition with_attributes (a c : object) (m : model) : model :=
  Model (cid m) a c (_previousAttributes m) (m_id m) (_changing m) (_pending m) (validationError m).
Definition with_previous (p : object) (m : model) : model :=
  Model (cid m) (attributes m) (changed m) p (m_id m) (_changing m) (_pending m) (validationError m).
Definition with_id (i : value) (m : model) : model :=
  Model (cid m) (attributes m) (changed m) (_previousAttributes m) i (_changing m) (_pending m) (validationError m).
Definition with_changing (b : bool) (m : model) : model :=
  Model (cid m) (attributes m) (changed m) (_previousAttributes m) (m_id m) b (_pending m) (validationError m).
Definition with_pending (o : option set_options) (m : model) : model :=
  Model (cid m) (attributes m) (changed m) (_previousAttributes m) (m_id m) (_changing m) o (validationError m).
Definition with_error (e : value) (m : model) : model :=
  Model (cid m) (attributes m) (changed m) (_previousAttributes m) (m_id m) (_changing m) (_pending m) e.

Definition idAttribute : jstr := u "id".

Definition m_get (attr : jstr) (m : model) : value := obj_get attr (attributes m).

(** [has]: neither [null] nor [undefined]. *)
Definition m_has (attr : jstr) (m : model) : bool := match m_get attr m with VUndef | VNull => false | _ => true end.

Definition isNew (m : model) : bool := negb (m_has idAttribute m).

Definition hasChanged (attr : option jstr) (m : model) : bool :=
  match attr with Some a => obj_has a (changed m) | None => negb (bool_decide (changed m = [])) end.

(** The loop of [changedAttributes] over the attributes of [diff]. *)
Definition diff_against (old diff : object) : object :=
  fold_left (fun c kx => if isEqual (obj_get kx.1 old) kx.2 then c else obj_set kx.1 kx.2 c) diff [].

(** [changedAttributes]; [None] is [false]. *)
Definition changedAttributes (diff : option object) (m : model) : option object :=
  let c := match diff with
           | None => changed m
           | Some d => diff_against (if _changing m then _previousAttributes m else attributes m) d
           end in
  if bool_decide (c = []) then None else Some c.

Definition previous (attr : jstr) (m : model) : value := obj_get attr (_previousAttributes m).

(** ** [set] *)

(** The loop over the given attributes: the current ones, the changed ones, and
    the names that differ. *)
Definition set_attr (unset : bool) (prev : object) (st : object * object * list jstr) (kx : jstr * value) : object * object * list jstr :=
  let '(current, changed, changes) := st in
  let '(attr, val) := kx in
  (if unset then obj_delete attr current else obj_set attr val current,
   if isEqual (obj_get attr prev) val then obj_delete attr changed else obj_set attr val changed,
   if isEqual (obj_get attr current) val then changes else changes ++ [attr]).

(** What a listener does: calls of [set], which may depend on the model by then. *)
Inductive reaction := Rest | Set_ (attrs : object) (o : set_options) (k : model -> reaction).

Section Set_.
(** [this.validate], when the model has one, and the listeners. *)
Context (validate : option (object -> value)) (react : model_event -> model -> reaction).

Section Calls.
Variable set : object -> set_options -> model -> res (bool * model * list model_event).

Fixpoint run_reaction (r : reaction) (m : model) : res (model * list model_event) :=
  match r with
  | Rest => Ok (m, [])
  | Set_ attrs o k =>
      '(_, m, l) <-? set attrs o m; '(m, l') <-? run_reaction (k m) m; Ok (m, l ++ l')
  end.

(** [this.trigger(e, ...)]. *)
Definition fire (e : model_event) (m : model) : res (model * list model_event) :=
  '(m, l) <-? run_reaction (react e m) m; Ok (m, e :: l).

(** [_validate]. *)
Definition _validate (attrs : object) (o : set_options) (m : model) : res (bool * model * list model_event) :=
  match validate with
  | Some f =>
      if o_validate o then
        let error := f (extend2 (attributes m) attrs) in
        if truthy error then '(m, l) <-? fire (Invalid error) (with_error error m); Ok (false, m, l)
        else Ok (true, with_error VNull m, [])
      else Ok (true, m, [])
  | None => Ok (true, m, [])
  end.

Fixpoint fire_changes (changes : list jstr) (m : model) : res (model * list model_event) :=
  match changes with
  | [] => Ok (m, [])
  | c :: changes => '(m, l) <-? fire (ChangeAttr c (m_get c m)) m; '(m, l') <-? fire_changes changes m; Ok (m, l ++ l')
  end.

(** [while (this._pending)]. *)
Fixpoint pending_loop (n : nat) (m : model) : res (model * list model_event) :=
  match _pending m with
  | None => Ok (m, [])
  | Some _ =>
      match n with
      | O => Err OutOfFuel
      | S n => '(m, l) <-? fire Change (with_pending None m); '(m, l') <-? pending_loop n m; Ok (m, l ++ l')
      end
  end.

Definition set_body (n : nat) (attrs : object) (o : set_options) (m : model) : res (bool * model * list model_event) :=
  '(valid, m, l0) <-? _validate attrs o m;
  if negb valid then Ok (false, m, l0)
  else
    let changing := _changing m in
    let m := with_changing true m in
    let m := if changing then m else with_previous (attributes m) (with_attributes (attributes m) [] m) in
    let '(current, changed_, changes) := fold_left (set_attr (o_unset o) (_previousAttributes m)) attrs (attributes m, changed m, []) in
    let m := with_attributes current changed_ m in
    let m := if obj_has idAttribute attrs then with_id (m_get idAttribute m) m else m in
    '(m, l1) <-? (if o_silent o then Ok (m, [])
                  else fire_changes changes (if bool_decide (changes = []) then m else with_pending (Some o) m));
    if changing then Ok (true, m, l0 ++ l1)
    else
      '(m, l2) <-? (if o_silent o then Ok (m, []) else pending_loop n m);
      Ok (true, with_changing false (with_pending None m), l0 ++ l1 ++ l2).
End Calls.

Fixpoint set (fuel : nat) (attrs : object) (o : set_options) (m : model) : res (bool * model * list model_event) :=
  match fuel with
  | O => Err OutOfFuel
  | S n => set_body (set n) n attrs o m
  end.

Definition with_unset (o : set_options) : set_options := SetOptions true (o_silent o) (o_validate o).

Definition unset (fuel : nat) (attr : jstr) (o : set_options) (m : model) : res (bool * model * list model_event) :=
  set fuel [(attr, VUndef)] (with_unset o) m.

Definition clear (fuel : nat) (o : set_options) (m : model) : res (bool * model * list model_event) :=
  set fuel (map (fun kx => (kx.1, VUndef)) (attributes m)) (with_unset o) m.

(** [isValid]. *)
Definition isValid (fuel : nat) (m : model) : res (bool * model * list model_event) :=
  _validate (set fuel) [] (SetOptions false false true) m.
End Set_.

(** [new Model(attributes)], without listeners and defaults. *)
Definition new_model (cid_ : jstr) (attrs : object) : res model :=
  '(_, m, _) <-? set None (fun _ _ => Rest) 2 (obj_assign [] attrs) no_options (Model cid_ [] [] [] VUndef false None VNull);
  Ok (with_attributes (attributes m) [] m).

(** A listener keeps the total up to date, and undoes a price that is too high:
    one [change] in the end for each wave. *)
Definition number (n : Z) : value := VNum (num_of_Z n).

Definition keep_total (e : model_event) (m : model) : reaction :=
  match e with
  | ChangeAttr a v => if streq a (u "price") then Set_ [(u "total", v)] no_options (fun _ => Rest) else Rest
  | Change => if isEqual (m_get (u "price") m) (number 9) then Set_ [(u "price", number 1)] no_options (fun _ => Rest) else Rest
  | Invalid _ => Rest
  end.

Definition demo_model : model :=
  Model (u "c1") [(u "price", number 1); (u "total", number 1)] [] [] VUndef false None VNull.

Definition demo_attrs : object := [(u "price", number 9); (u "name", VStr (u "x"))].

Definition demo_result : res (bool * model * list model_event) :=
  Ok (true,
      Model (u "c1") [(u "price", number 1); (u "total", number 1); (u "name", VStr (u "x"))] [(u "name", VStr (u "x"))]
        [(u "price", number 1); (u "total", number 1)] VUndef false None VNull,
      [ChangeAttr (u "price") (number 9); ChangeAttr (u "total") (number 9); ChangeAttr (u "name") (VStr (u "x")); Change;
       ChangeAttr (u "price") (number 1); ChangeAttr (u "total") (number 1); Change]).

Example nested_example :
  new_model (u "c1") [(u "price", number 1); (u "total", number 1)] = Ok demo_model /\
  set None keep_total 5 demo_attrs no_options demo_model = demo_result.
Proof. by vm_compute. Qed.

(** ** What [set] keeps while listeners interfere *)

(** Attributes are data, without invalid dates: [_.isEqual] takes such a date for
    different from itself, so that [set] announces it again each time. *)
Definition plain_attrs (a : object) : Prop := Forall (fun kx => plain_objects kx.2) a.

(** Attributes as they are given to [set]: data, and [undefined] to unset. *)
Definition given (attrs : object) (o : set_options) : Prop :=
  plain_attrs attrs /\ (o_unset o = true -> Forall (fun kx => kx.2 = VUndef) attrs).

Fixpoint honest (r : reaction) : Prop :=
  match r with Rest => True | Set_ attrs o k => given attrs o /\ forall m, plain_attrs (attributes m) -> honest (k m) end.

Definition plain_event (e : model_event) : Prop := match e with ChangeAttr _ v => plain_objects v | _ => True end.

(** Listeners that set data, if they are told and see data. *)
Definition listens (react : model_event -> model -> reaction) : Prop :=
  forall e m, plain_event e -> plain_attrs (attributes m) -> honest (react e m).

(** What [changed] holds for an attribute. *)
Definition difference (old new : object) (k : jstr) : option value :=
  if isEqual (obj_get k old) (obj_get k new) then None else Some (obj_get k new).

Definition tracks (m : model) : Prop :=
  plain_attrs (attributes m) /\ forall k, obj_lookup k (changed m) = difference (_previousAttributes m) (attributes m) k.

(** An announced change of an attribute that no [change] has followed yet. *)
Definition unsettled (p : bool) (l : list model_event) : bool :=
  fold_left (fun p e => match e with ChangeAttr _ _ => true | Change => false | Invalid _ => p end) l p.

Lemma isEqual_refl v : plain_objects v -> isEqual v v = true.
Proof. intros H. apply isEqual_same; [by apply plain_distinct.. | by apply same_refl]. Qed.

Lemma plain_get k a : plain_attrs a -> plain_objects (obj_get k a).
Proof. intros H. by apply (obj_get_ind plain_objects). Qed.

Lemma plain_attrs_set k v a : plain_objects v -> plain_attrs a -> plain_attrs (obj_set k v a).
Proof.
  unfold plain_attrs, obj_set. intros Hv Ha. destruct (obj_has k a).
  - induction Ha as [|[k' x] a Hx Ha IH]; cbn [obj_update]; [constructor|]. destruct (streq k k'); by constructor.
  - induction Ha as [|[k' x] a Hx Ha IH]; cbn [obj_add]; [by repeat constructor|].
    destruct (index_key k), (index_key k'); repeat case_goal; repeat (constructor; try done).
Qed.

Lemma plain_attrs_delete k a : plain_attrs a -> plain_attrs (obj_delete k a).
Proof.
  unfold plain_attrs. rewrite !Forall_elem. intros H x Hx. apply H, list_elem_of_In. apply list_elem_of_In in Hx. by apply filter_In in Hx as [Hx _].
Qed.

Lemma obj_get_delete k k' (a : object) : obj_get k' (obj_delete k a) = if streq k' k then VUndef else obj_get k' a.
Proof. unfold obj_get. rewrite obj_lookup_delete. by destruct (streq k' k). Qed.

(** The loop of [set] keeps track. *)
Lemma set_attr_tracks unset prev attrs : forall current changed_ changes current' changed' changes',
  plain_attrs attrs -> (unset = true -> Forall (fun kx => kx.2 = VUndef) attrs) ->
  plain_attrs current /\ (forall k, obj_lookup k changed_ = difference prev current k) ->
  fold_left (set_attr unset prev) attrs (current, changed_, changes) = (current', changed', changes') ->
  plain_attrs current' /\ forall k, obj_lookup k changed' = difference prev current' k.
Proof.
  induction attrs as [|[a v] attrs IH]; intros cu ch cs cu' ch' cs' Hp Hu [Hc Ht]; cbn [fold_left]; [intros [= <- <- _]; by split|].
  apply Forall_cons_iff in Hp as [Hv Hp]. cbn [snd] in Hv. cbn [set_attr].
  assert (Hu' : unset = true -> Forall (fun kx : jstr * value => kx.2 = VUndef) attrs).
  { intros E. specialize (Hu E). by apply Forall_cons_iff in Hu as [_ Hu]. }
  apply IH; [exact Hp | exact Hu' |].
  assert (Hnew : forall k, obj_get k (if unset then obj_delete a cu else obj_set a v cu) = if streq k a then v else obj_get k cu).
  { intros k. destruct unset; [|by rewrite obj_get_set]. rewrite obj_get_delete.
    specialize (Hu eq_refl). apply Forall_cons_iff in Hu as [Hu _]. cbn in Hu. by subst v. }
  split; [destruct unset; [by apply plain_attrs_delete | by apply plain_attrs_set]|].
  intros k. unfold difference in *. rewrite Hnew. destruct (isEqual (obj_get a prev) v) eqn:E.
  - rewrite obj_lookup_delete, Ht. destruct (streq k a) eqn:Ek; [|done]. apply streq_eq in Ek as ->. by rewrite E.
  - rewrite obj_lookup_set, Ht. destruct (streq k a) eqn:Ek; [|done]. apply streq_eq in Ek as ->. by rewrite E.
Qed.

Lemma unsettled_app p l l' : unsettled p (l ++ l') = unsettled (unsettled p l) l'.
Proof. apply fold_left_app. Qed.

(** A model that is being changed since its attributes were [P]. *)
Record inside (P : object) (m : model) : Prop := {
  inside_changing : _changing m = true;
  inside_previous : _previousAttributes m = P;
  inside_tracks : tracks m
}.

(** From one such state to another: [_pending] is not reset, and without it no
    change was announced. *)
Definition kept (P : object) (m m' : model) (l : list model_event) : Prop :=
  inside P m' /\ (_pending m' = None -> _pending m = None /\ forall p, unsettled p l = p).

Lemma kept_refl P m : inside P m -> kept P m m [].
Proof. intros H. by split. Qed.

Lemma kept_app P m1 m2 m3 l l' : kept P m1 m2 l -> kept P m2 m3 l' -> kept P m1 m3 (l ++ l').
Proof.
  intros [_ H1] [Hi H2]. split; [done|]. intros Hp. destruct (H2 Hp) as [Hp2 Hl']. destruct (H1 Hp2) as [Hp1 Hl].
  split; [done|]. intros p. by rewrite unsettled_app, Hl, Hl'.
Qed.

Section Keeping.
Context (validate : option (object -> value)) (react : model_event -> model -> reaction).
Context (Hreact : listens react).

Section Nested.
Variable set_ : object -> set_options -> model -> res (bool * model * list model_event).
Context (P : object) (Hset : forall attrs o m b m' l, inside P m -> given attrs o -> set_ attrs o m = Ok (b, m', l) -> kept P m m' l).

Lemma run_reaction_kept r : honest r -> forall m m' l, inside P m -> run_reaction set_ r m = Ok (m', l) -> kept P m m' l.
Proof.
  induction r as [|attrs o k IH]; intros Hr m m' l Hm; cbn [run_reaction].
  - intros [= <- <-]. by apply kept_refl.
  - destruct Hr as [Hg Hk]. intros ([[b m1] l1] & H1 & ([m2 l2] & H2 & [= <- <-])%res_bind_ok)%res_bind_ok.
    apply Hset in H1; [|done..]. eapply kept_app; [exact H1|]. destruct H1 as [Hi _]. eapply IH; [apply Hk, (inside_tracks P m1 Hi) | exact Hi | exact H2].
Qed.

Lemma fire_ok e m m' l : inside P m -> plain_event e -> fire react set_ e m = Ok (m', l) -> exists l', l = e :: l' /\ kept P m m' l'.
Proof.
  intros Hm He ([m1 l1] & H & [= <- <-])%res_bind_ok. exists l1. split; [done|].
  eapply run_reaction_kept; [apply Hreact; [exact He | apply (inside_tracks P m Hm)] | exact Hm | exact H].
Qed.

Lemma fire_changes_kept cs : forall m m' l,
  inside P m -> (cs = [] \/ _pending m <> None) -> fire_changes react set_ cs m = Ok (m', l) -> kept P m m' l.
Proof.
  induction cs as [|c cs IH]; intros m m' l Hm Hp; cbn [fire_changes]; [intros [= <- <-]; by apply kept_refl|].
  destruct Hp as [? | Hp]; [done|]. intros ([m1 l1] & H1 & ([m2 l2] & H2 & [= <- <-])%res_bind_ok)%res_bind_ok.
  apply fire_ok in H1 as (l' & -> & Hi & H1); [|done | apply plain_get, (inside_tracks P m Hm)].
  assert (Hp1 : _pending m1 <> None) by (intros E; by destruct (H1 E)).
  eapply kept_app; [split; [exact Hi|]; intros E; by destruct (H1 E) | apply IH; [done | by right | done]].
Qed.

Lemma validate_kept attrs o m b m' l : inside P m -> _validate validate react set_ attrs o m = Ok (b, m', l) -> kept P m m' l.
Proof.
  intros Hm. unfold _validate. destruct validate as [f|]; [|intros [= <- <- <-]; by apply kept_refl].
  assert (Hi : forall e, inside P (with_error e m)) by (intros e; destruct Hm; by split).
  destruct (o_validate o); [|intros [= <- <- <-]; by apply kept_refl]. cbn zeta. destruct (truthy _).
  - intros ([m1 l1] & H & [= <- <- <-])%res_bind_ok. apply fire_ok in H as (l' & -> & Hk & H); [|apply Hi | done]. by split.
  - intros [= <- <- <-]. by split.
Qed.

(** The loop for [change]. *)
Lemma pending_loop_settles n : forall m m' l p,
  inside P m -> (_pending m <> None \/ p = false) -> pending_loop react set_ n m = Ok (m', l) -> inside P m' /\ unsettled p l = false.
Proof.
  induction n as [|n IH]; intros m m' l p Hm Hp; cbn [pending_loop]; destruct (_pending m) as [o|] eqn:E;
    try (intros [= <- <-]; split; [done|]; by destruct Hp as [? | ->]); [done|].
  intros ([m1 l1] & H1 & ([m2 l2] & H2 & [= <- <-])%res_bind_ok)%res_bind_ok.
  apply fire_ok in H1 as (l' & -> & Hi & H1); [|destruct Hm; by split | done]. rewrite unsettled_app. apply IH with (m := m1); [done | | done].
  destruct (_pending m1) as [o1|] eqn:E1; [by left | right]. cbn. by apply H1.
Qed.
End Nested.

(** The change of the attributes itself, and of the field [id]. *)
Lemma update_inside P attrs o m cu ch cs :
  inside P m -> given attrs o ->
  fold_left (set_attr (o_unset o) (_previousAttributes m)) attrs (attributes m, changed m, []) = (cu, ch, cs) ->
  forall i : bool, inside P (if i then with_id (m_get idAttribute (with_attributes cu ch m)) (with_attributes cu ch m) else with_attributes cu ch m).
Proof.
  intros [Hc Hp Ht] [Hg1 Hg2] Hf i. destruct Ht as [Ht1 Ht2].
  pose proof (set_attr_tracks _ _ _ _ _ _ _ _ _ Hg1 Hg2 (conj Ht1 Ht2) Hf) as H. by destruct i.
Qed.

(** A call of [set] by a listener. *)
Lemma set_nested P fuel : forall attrs o m b m' l,
  inside P m -> given attrs o -> set validate react fuel attrs o m = Ok (b, m', l) -> kept P m m' l.
Proof.
  induction fuel as [|fuel IH]; intros attrs o m b m' l Hm Hg; [done|]. cbn [set]. unfold set_body.
  intros ([[v m1] l0] & Hv & H)%res_bind_ok. apply (validate_kept _ P IH) in Hv; [|done]. destruct v; cbn [negb] in H; [|by injection H as <- <- <-].
  destruct Hv as [Hm1 Hv]. rewrite (inside_changing P m1 Hm1) in H. cbn zeta in H.
  destruct (fold_left _ attrs _) as [[cu ch] cs] eqn:Hf. cbn [with_changing attributes changed _previousAttributes] in Hf.
  assert (E : with_changing true m1 = m1) by (destruct m1, Hm1; cbn in *; by subst). rewrite E in H.
  pose proof (update_inside P attrs o m1 cu ch cs Hm1 Hg Hf (obj_has idAttribute attrs)) as Hi.
  set (m2 := if obj_has idAttribute attrs then _ else _) in *.
  assert (Hp2 : _pending m2 = _pending m1) by (unfold m2; by destruct (obj_has _ _)).
  apply res_bind_ok in H as ([m3 l1] & H & [= <- <- <-]). eapply kept_app; [split; [exact Hm1 | exact Hv]|].
  destruct (o_silent o); [injection H as <- <-; split; [done | by rewrite Hp2]|].
  case_bool_decide as Hcs.
  - subst cs. injection H as <- <-. split; [done | by rewrite Hp2].
  - apply (fire_changes_kept _ P IH) in H as [Hi3 H]; [|destruct Hi; by split | by right]. split; [done|]. intros Hn. by destruct (H Hn).
Qed.
End Keeping.

(** ** A change and what follows from it *)

(** A model between two changes. *)
Record resting (m : model) : Prop := {
  resting_changing : _changing m = false;
  resting_pending : _pending m = None;
  resting_attrs : plain_attrs (attributes m)
}.

Section Outermost.
Context (validate : option (object -> value)) (react : model_event -> model -> reaction).
Context (Hreact : listens react).

(** The body of [set], once the attributes are valid, on a model at rest. *)
Lemma set_valid fuel n attrs o m b m' l :
  resting m -> given attrs o -> set_body None react (set validate react fuel) n attrs o m = Ok (b, m', l) ->
  resting m' /\ unsettled false l = false /\ _previousAttributes m' = attributes m /\ tracks m'.
Proof.
  intros [Hc Hp Ha] Hg. unfold set_body. cbn [_validate res_bind negb]. rewrite Hc. cbn zeta.
  set (P := attributes m). set (m1 := with_previous (attributes (with_changing true m)) (with_attributes (attributes (with_changing true m)) [] (with_changing true m))).
  destruct (fold_left _ attrs _) as [[cu ch] cs] eqn:Hf.
  assert (Hi1 : inside P m1).
  { split; [done..|]. split; [done|]. intros k. cbn. unfold difference. by rewrite isEqual_refl by by apply plain_get. }
  assert (Hf' : fold_left (set_attr (o_unset o) (_previousAttributes m1)) attrs (attributes m1, changed m1, []) = (cu, ch, cs)) by exact Hf.
  pose proof (update_inside P attrs o m1 cu ch cs Hi1 Hg Hf' (obj_has idAttribute attrs)) as Hi.
  set (m2 := if obj_has idAttribute attrs then _ else _) in *.
  assert (Hp2 : _pending m2 = None) by (unfold m2; by destruct (obj_has _ _)).
  intros ([m3 l1] & H1 & ([m4 l2] & H2 & [= <- <- <-])%res_bind_ok)%res_bind_ok. cbn [app].
  assert (Hend : forall x, inside P x -> unsettled false (l1 ++ l2) = false ->
    resting (with_changing false (with_pending None x)) /\ unsettled false (l1 ++ l2) = false /\
    _previousAttributes (with_changing false (with_pending None x)) = P /\ tracks (with_changing false (with_pending None x))).
  { intros x [Hx1 Hx2 [Hx3 Hx4]] Hl. by repeat split. }
  destruct (o_silent o).
  - injection H1 as -> <-. injection H2 as <- <-. by apply Hend.
  - assert (H3 : kept P (if bool_decide (cs = []) then m2 else with_pending (Some o) m2) m3 l1).
    { apply (fire_changes_kept react Hreact _ P (set_nested validate react Hreact P fuel) cs); [| |exact H1].
      - destruct Hi; case_bool_decide; by split.
      - case_bool_decide; [by left | by right]. }
    destruct H3 as [Hi3 Hk].
    apply (pending_loop_settles react Hreact _ P (set_nested validate react Hreact P fuel) n _ _ _ (unsettled false l1)) in H2 as [Hi4 Hu]; [|done|].
    + apply Hend; [done|]. by rewrite unsettled_app.
    + destruct (_pending m3) as [o3|] eqn:E; [by left | right]. by apply Hk.
Qed.

Lemma validate_answer set_ attrs o m b m' l :
  _validate validate react set_ attrs o m = Ok (b, m', l) ->
  (b = true /\ l = [] /\ exists e, m' = with_error e m) \/
  (b = false /\ exists e l', l = Invalid e :: l' /\ run_reaction set_ (react (Invalid e) (with_error e m)) (with_error e m) = Ok (m', l')).
Proof.
  assert (Hm : m = with_error (validationError m) m) by by destruct m.
  unfold _validate. destruct validate as [f|]; [destruct (o_validate o)|]; [|intros [= <- <- <-]; left; eauto..].
  cbn zeta. destruct (truthy _); [|intros [= <- <- <-]; left; eauto].
  intros ([m1 l1] & ([m2 l2] & H & [= <- <-])%res_bind_ok & [= <- <- <-])%res_bind_ok. right. eauto.
Qed.

Lemma run_reaction_resting set_ :
  (forall attrs o m b m' l, resting m -> given attrs o -> set_ attrs o m = Ok (b, m', l) -> resting m' /\ unsettled false l = false) ->
  forall r, honest r -> forall m m' l, resting m -> run_reaction set_ r m = Ok (m', l) -> resting m' /\ unsettled false l = false.
Proof.
  intros Hset r. induction r as [|attrs o k IH]; intros Hr m m' l Hm; cbn [run_reaction]; [by intros [= <- <-]|].
  destruct Hr as [Hg Hk]. intros ([[b m1] l1] & H1 & ([m2 l2] & H2 & [= <- <-])%res_bind_ok)%res_bind_ok.
  apply Hset in H1 as [Hm1 H1]; [|done..]. apply IH in H2; [|apply Hk, Hm1 | done]. by rewrite unsettled_app, H1.
Qed.

Lemma set_outermost fuel : forall attrs o m b m' l,
  resting m -> given attrs o -> set validate react fuel attrs o m = Ok (b, m', l) ->
  (resting m' /\ unsettled false l = false) /\ (b = true -> _previousAttributes m' = attributes m /\ tracks m').
Proof.
  induction fuel as [|fuel IH]; intros attrs o m b m' l Hm Hg; [done|]. cbn [set]. intros H. unfold set_body in H.
  apply res_bind_ok in H as ([[v m1] l0] & Hv & H). apply validate_answer in Hv as [(-> & -> & e & ->) | (-> & e & l' & -> & Hr)].
  - assert (H' : set_body None react (set validate react fuel) fuel attrs o (with_error e m) = Ok (b, m', l)) by exact H.
    apply set_valid in H' as (H1 & H2 & H3 & H4); [by split | destruct Hm; by split | done].
  - cbn [negb] in H. injection H as <- <- <-. split; [|done].
    apply (run_reaction_resting _ (fun a o m b m' l Hm Hg H => proj1 (IH a o m b m' l Hm Hg H))) in Hr; [done | apply Hreact, Hm; done | destruct Hm; by split].
Qed.
End Outermost.

(** ** Properties *)

(** C32.  Whatever the listeners of a model [set] in turn when it announces a
    change: afterwards the model is at rest, every change of an attribute that
    was announced has been followed by a [change], and [changed] holds exactly
    the attributes that differ from those before, with their values.  (The
    attributes are [plain_attrs]: data without invalid dates.) *)
Theorem set_settles validate react fuel attrs o m b m' l :
  listens react -> resting m -> given attrs o ->
  set validate react fuel attrs o m = Ok (b, m', l) ->
  _changing m' = false /\ _pending m' = None /\ unsettled false l = false /\
  (b = true -> forall k, obj_lookup k (changed m') = difference (attributes m) (attributes m') k).
Proof.
  intros Hreact Hm Hg H. apply (set_outermost validate react Hreact) in H as [[Hr Hu] Hc]; [|done..]. destruct Hr. repeat split; try done.
  intros Hb. destruct (Hc Hb) as [<- [_ Ht]]. exact Ht.
Qed.

(** The wave of changes of the example. *)
Lemma set_settles_witness :
  set None keep_total 5 demo_attrs no_options demo_model = demo_result /\
  unsettled false [ChangeAttr (u "price") (number 9); ChangeAttr (u "total") (number 9); ChangeAttr (u "name") (VStr (u "x")); Change;
       ChangeAttr (u "price") (number 1); ChangeAttr (u "total") (number 1); Change] = false.
Proof.
  assert (E : set None keep_total 5 demo_attrs no_options demo_model = demo_result) by (vm_compute; reflexivity).
  split; [exact E|].
  refine (proj1 (proj2 (proj2 (set_settles None keep_total 5 demo_attrs no_options demo_model true _ _ _ _ _ E)))).
  - assert (Hr : forall a v, plain_objects v -> honest (Set_ [(a, v)] no_options (fun _ => Rest))).
    { intros a v Hv. cbn [honest]. split; [split; [by repeat constructor | done] | done]. }
    intros [a v| |e] m Hv _; cbn [keep_total]; [destruct (streq _ _); [by apply Hr | done] | destruct (isEqual _ _); [by apply Hr | done] | done].
  - split; [reflexivity | reflexivity | repeat constructor].
  - split; [repeat constructor | discriminate].
Defined.

(** The given attributes that differ from the model's. *)
Definition news (m : model) (attrs : object) : object :=
  List.filter (fun kx => negb (isEqual (obj_get kx.1 (attributes m)) kx.2)) attrs.

Lemma diff_against_filter old diff :
  diff_against old diff = obj_assign [] (List.filter (fun kx => negb (isEqual (obj_get kx.1 old) kx.2)) diff).
Proof.
  unfold diff_against, obj_assign. generalize (@nil (jstr * value)). induction diff as [|kx diff IH]; intros c; cbn; [done|].
  destruct (isEqual _ _); apply IH.
Qed.

Lemma set_attr_changes unset prev attrs : NoDup (obj_keys attrs) -> forall cu ch cs cu' ch' cs',
  fold_left (set_attr unset prev) attrs (cu, ch, cs) = (cu', ch', cs') ->
  cs' = cs ++ map fst (List.filter (fun kx => negb (isEqual (obj_get kx.1 cu) kx.2)) attrs) /\
  forall k, obj_get k cu' = match obj_lookup k attrs with Some v => if unset then VUndef else v | None => obj_get k cu end.
Proof.
  induction attrs as [|[a v] attrs IH]; intros Hnd cu ch cs cu' ch' cs'; cbn [fold_left].
  { intros [= <- <- <-]. by rewrite app_nil_r. }
  unfold obj_keys in Hnd. cbn [map fst] in Hnd. apply list.NoDup_cons in Hnd as [Ha Hnd]. cbn [set_attr]. intros H. apply IH in H as [-> H]; [|done].
  assert (Hnew : forall k, obj_get k (if unset then obj_delete a cu else obj_set a v cu) = if streq k a then if unset then VUndef else v else obj_get k cu).
  { intros k. destruct unset; [apply obj_get_delete | apply obj_get_set]. }
  assert (Hl : obj_lookup a attrs = None) by by apply obj_lookup_None.
  split.
  - cbn [List.filter fst snd]. assert (E : forall x, In x attrs -> streq x.1 a = false).
    { intros [k x] Hx. apply streq_neq. intros [= ->]. apply Ha, list_elem_of_fmap. exists (a, x). split; [done|]. by apply list_elem_of_In. }
    rewrite (filter_ext_in _ (fun kx => negb (isEqual (obj_get kx.1 cu) kx.2)) attrs).
    + destruct (isEqual _ v); cbn [negb map fst]; [done|]. by rewrite <- app_assoc.
    + intros x Hx. rewrite Hnew. by rewrite (E x Hx).
  - intros k. rewrite H, Hnew. cbn [obj_lookup]. destruct (streq k a) eqn:E; [|done]. apply streq_eq in E as ->. by rewrite Hl.
Qed.

Lemma fire_changes_quiet set_ cs : forall m,
  fire_changes (fun _ _ => Rest) set_ cs m = Ok (m, map (fun c => ChangeAttr c (m_get c m)) cs).
Proof. induction cs as [|c cs IH]; intros m; cbn; [done|]. by rewrite IH. Qed.

(** The field [id] follows the attribute, and attributes stay distinct. *)
Definition tidy (m : model) (attrs : object) (m' : model) : Prop :=
  m_id m' = (if obj_has idAttribute attrs then m_get idAttribute m' else m_id m) /\
  (NoDup (obj_keys (attributes m)) -> NoDup (obj_keys (attributes m'))).

Lemma obj_delete_NoDup {A} k (o : list (jstr * A)) : NoDup (obj_keys o) -> NoDup (obj_keys (obj_delete k o)).
Proof.
  unfold obj_keys, obj_delete. intros H. apply NoDup_ListNoDup. apply NoDup_ListNoDup in H. induction o as [|x o IH]; cbn in *; [done|].
  apply NoDup_cons_iff in H as [H1 H2]. destruct (negb _); cbn; [|by apply IH]. constructor; [|by apply IH].
  intros (y & E & [Hy _]%filter_In)%in_map_iff. apply H1, in_map_iff. by exists y.
Qed.

Lemma obj_assign_NoDup {A} (src o : list (jstr * A)) : NoDup (obj_keys o) -> NoDup (obj_keys (obj_assign o src)).
Proof. unfold obj_assign. revert o. induction src as [|x src IH]; intros o H; cbn [fold_left]; [done|]. by apply IH, obj_set_NoDup. Qed.

Lemma set_attr_NoDup unset prev attrs : forall st, NoDup (obj_keys st.1.1) -> NoDup (obj_keys (fold_left (set_attr unset prev) attrs st).1.1).
Proof.
  induction attrs as [|[a v] attrs IH]; intros [[cu ch] cs] H; cbn [fold_left]; [done|]. apply IH. cbn [set_attr fst].
  destruct unset; [by apply obj_delete_NoDup | by apply obj_set_NoDup].
Qed.

(** [set] with listeners that leave the model alone. *)
Lemma set_quiet n attrs o m :
  NoDup (obj_keys attrs) -> _changing m = false -> _pending m = None ->
  exists m',
    set None (fun _ _ => Rest) (S (S n)) attrs o m
    = Ok (true, m', if o_silent o || bool_decide (news m attrs = []) then []
                    else map (fun kx => ChangeAttr kx.1 (m_get kx.1 m')) (news m attrs) ++ [Change]) /\
    (forall k, m_get k m' = match obj_lookup k attrs with Some v => if o_unset o then VUndef else v | None => m_get k m end) /\
    (_changing m' = false /\ _pending m' = None /\ cid m' = cid m /\ _previousAttributes m' = attributes m) /\
    tidy m attrs m'.
Proof.
  intros Hnd Hc Hp. set (r := fold_left (set_attr (o_unset o) (attributes m)) attrs (attributes m, [], [])).
  destruct r as [[cu ch] cs] eqn:Hf. subst r. pose proof (set_attr_changes _ _ _ Hnd _ _ _ _ _ _ Hf) as [Hcs Hcu]. cbn [app] in Hcs.
  fold (news m attrs) in Hcs.
  set (m1 := with_attributes cu ch (with_previous (attributes (with_changing true m)) (with_attributes (attributes (with_changing true m)) [] (with_changing true m)))).
  set (m2 := if obj_has idAttribute attrs then with_id (m_get idAttribute m1) m1 else m1).
  assert (Ha : attributes m2 = cu) by (unfold m2; by destruct (obj_has _ _)).
  exists (with_changing false (with_pending None m2)). split; [|split; [|split]].
  - change (set None (fun _ _ => Rest) (S (S n)) attrs o m) with (set_body None (fun _ _ => Rest) (set None (fun _ _ => Rest) (S n)) (S n) attrs o m).
    unfold set_body. cbn [_validate res_bind negb]. rewrite Hc. cbn zeta.
    change (attributes (with_previous _ _), changed (with_previous _ _), []) with (attributes m, @nil (jstr * value), @nil jstr).
    change (_previousAttributes (with_previous _ _)) with (attributes m). rewrite Hf. fold m1. fold m2.
    assert (E : _pending m2 = None) by (unfold m2; by destruct (obj_has _ _)).
    destruct (o_silent o); cbn [res_bind orb app]; [done|]. rewrite fire_changes_quiet. cbn [res_bind]. subst cs.
    destruct (news m attrs) as [|x l]; cbn [map].
    + rewrite !bool_decide_true by done. cbn [pending_loop]. by rewrite E.
    + rewrite !bool_decide_false by done. cbn [pending_loop with_pending _pending fire run_reaction res_bind app].
      unfold m_get. cbn [attributes with_pending with_changing]. rewrite map_map. by destruct n.
  - intros k. change (m_get k (with_changing _ _)) with (obj_get k (attributes m2)). rewrite Ha. apply Hcu.
  - unfold m2. by destruct (obj_has _ _).
  - split; [unfold m2; by destruct (obj_has _ _)|]. intros Ho. change (attributes (with_changing _ _)) with (attributes m2). rewrite Ha.
    pose proof (set_attr_NoDup (o_unset o) (attributes m) attrs (attributes m, [], []) Ho) as H. by rewrite Hf in H.
Qed.

Lemma news_lookup m attrs k : NoDup (obj_keys attrs) -> obj_lookup k (obj_assign [] (news m attrs)) = obj_lookup k (news m attrs).
Proof.
  intros Hnd. rewrite obj_lookup_assign; [by destruct (obj_lookup k _)|]. unfold news, obj_keys. apply NoDup_ListNoDup.
  apply NoDup_ListNoDup in Hnd. revert Hnd. unfold obj_keys. clear. induction attrs as [|x l IH]; cbn; [done|].
  intros [H1 H2]%NoDup_cons_iff. destruct (negb _); cbn; [|by apply IH]. constructor; [|by apply IH].
  intros (y & E & [Hy _]%filter_In)%in_map_iff. apply H1, in_map_iff. by exists y.
Qed.

(** C33.  With listeners that leave the model alone, [set] returns; the model then
    has the given attributes and its others, and has announced, in the order they
    were given, those that differ, and then [change] if there were any: exactly
    those that [changedAttributes] tells in advance.  It is quiet if asked to.
    (The attributes are [plain_attrs]: data without invalid dates.) *)
Theorem set_announces n attrs o m :
  NoDup (obj_keys attrs) -> _changing m = false -> _pending m = None ->
  exists m',
    set None (fun _ _ => Rest) (S (S n)) attrs o m
    = Ok (true, m', if o_silent o || bool_decide (news m attrs = []) then []
                    else map (fun kx => ChangeAttr kx.1 (m_get kx.1 m')) (news m attrs) ++ [Change]) /\
    (forall k, m_get k m' = match obj_lookup k attrs with Some v => if o_unset o then VUndef else v | None => m_get k m end) /\
    changedAttributes (Some attrs) m = (if bool_decide (news m attrs = []) then None else Some (obj_assign [] (news m attrs))) /\
    (forall k, obj_lookup k (obj_assign [] (news m attrs)) = obj_lookup k (news m attrs)).
Proof.
  intros Hnd Hc Hp. destruct (set_quiet n attrs o m Hnd Hc Hp) as (m' & H1 & H2 & _).
  assert (Hl : forall k, obj_lookup k (obj_assign [] (news m attrs)) = obj_lookup k (news m attrs)) by (intros k; by apply news_lookup).
  exists m'. split; [exact H1|]. split; [exact H2|]. split; [|exact Hl].
  unfold changedAttributes. rewrite Hc, diff_against_filter. fold (news m attrs).
  assert (E : obj_assign [] (news m attrs) = [] <-> news m attrs = []).
  { split; [|by intros ->]. intros E. destruct (news m attrs) as [|[k v] l]; [done|]. specialize (Hl k). rewrite E in Hl. cbn in Hl. by rewrite streq_refl in Hl. }
  by rewrite (bool_decide_ext _ _ E).
Qed.

(** A price and a name are set on the model of the example. *)
Lemma set_announces_witness :
  (NoDup (obj_keys demo_attrs) /\ _changing demo_model = false /\ _pending demo_model = None) /\
  exists m',
    set None (fun _ _ => Rest) 2 demo_attrs no_options demo_model
    = Ok (true, m', [ChangeAttr (u "price") (m_get (u "price") m'); ChangeAttr (u "name") (m_get (u "name") m'); Change]) /\
    m_get (u "price") m' = number 9 /\ m_get (u "total") m' = number 1.
Proof.
  assert (Hnd : NoDup (obj_keys demo_attrs)).
  { apply NoDup_ListNoDup. repeat constructor; cbn; intuition discriminate. }
  split; [done|].
  destruct (set_announces 0 demo_attrs no_options demo_model Hnd eq_refl eq_refl) as (m' & H1 & H2 & _).
  exists m'. split; [exact H1 | split; [exact (H2 (u "price")) | exact (H2 (u "total"))]].
Defined.
