(* ===== verification/BackboneCollection.v ===== *)
(** Backbone's collections (module 113): a list of models with an index by their
    ids, kept in step with the answers of a server. *)

From Stdlib Require Import ZArith Lia List String Bool.
From stdpp Require Import base list sets list_numbers tactics.
From S2P Require Import Prelude JsNum Js Underscore BackboneModel.

(** ** Data

    Models are shared: they live in a heap and are named by their place in it.
    The collections are those of the client: without a comparator, of models
    without validation and defaults, whose constructor passes no options on.
    Listeners of models and collections only look. *)

Record collection := Coll {
  heap : list model;
  idCounter : Z;                     (* of [_.uniqueId] *)
  models : list nat;
  length_ : Z;
  _byId : list (jstr * nat);
  bound : list nat;                  (* the models whose events reach [_onModelEvent], once for each binding *)
  owned : list nat                   (* the models whose field [collection] is this one *)
}.

Definition with_heap (h : list model) (c : collection) : collection :=
  Coll h (idCounter c) (models c) (length_ c) (_byId c) (bound c) (owned c).
Definition with_models (l : list nat) (n : Z) (c : collection) : collection :=
  Coll (heap c) (idCounter c) l n (_byId c) (bound c) (owned c).
Definition with_byId (b : list (jstr * nat)) (c : collection) : collection :=
  Coll (heap c) (idCounter c) (models c) (length_ c) b (bound c) (owned c).
Definition with_bound (b : list nat) (c : collection) : collection :=
  Coll (heap c) (idCounter c) (models c) (length_ c) (_byId c) b (owned c).
Definition with_owned (o : list nat) (c : collection) : collection :=
  Coll (heap c) (idCounter c) (models c) (length_ c) (_byId c) (bound c) o.

(** What the collection triggers: events of its own, and those of its models. *)
Inductive coll_event :=
| Of (r : nat) (e : model_event)
| Added (r : nat) | Removed (r : nat) | Destroyed (r : nat)
| Sorted | Updated (added removed merged : list nat) | WasReset.

(** Plain attributes, or a model. *)
Inductive item := Raw (attrs : object) | Ref (r : nat).

Record coll_options := CollOptions {
  c_add : bool; c_merge : bool; c_remove : bool; c_silent : bool; c_parse : bool; c_at : option Z
}.

Definition setOptions : coll_options := CollOptions true true true false false None.

Definition deref (r : nat) (c : collection) : res model :=
  match heap c !! r with Some m => Ok m | None => Err TypeError end.

Definition put (r : nat) (m : model) (c : collection) : collection := with_heap (<[r := m]> (heap c)) c.

(** ** Ids

    [_byId] is an object used as a map; ids are not names that every object
    inherits, such as [constructor]. *)

Definition modelId (attrs : object) : value := obj_get idAttribute attrs.

Definition is_nullish (v : value) : bool := match v with VUndef | VNull => true | _ => false end.

Definition lookup_id (v : value) (c : collection) : res (option nat) := k <-? to_string v; Ok (obj_lookup k (_byId c)).

(** [a || b], of what [_byId] holds. *)
Definition or_find (a b : res (option nat)) : res (option nat) :=
  o <-? a; match o with Some r => Ok (Some r) | None => b end.

(** [get(obj)] with an object or a model. *)
Definition get (i : item) (c : collection) : res (option nat) :=
  match i with
  | Raw attrs =>
      let inner := if truthy (obj_get (u "attributes") attrs) then obj_get (u "attributes") attrs else VObj attrs in
      let cid_ := obj_get (u "cid") attrs in
      or_find (lookup_id (VObj attrs) c)
        (or_find (k <-? get_prop inner idAttribute; lookup_id k c) (if truthy cid_ then lookup_id cid_ c else Ok None))
  | Ref r =>
      m <-? deref r c;
      or_find (lookup_id (VObj []) c) (or_find (lookup_id (modelId (attributes m)) c) (lookup_id (VStr (cid m)) c))
  end.

(** [get(id)] with a text: the fields of a string are looked up too, so that an
    id that is not there is found under [undefined]. *)
Definition get_id (k : jstr) (c : collection) : res (option nat) :=
  or_find (lookup_id (VStr k) c) (lookup_id VUndef c).

(** [at]. *)
Definition at_ (i : Z) (c : collection) : option nat := zget (models c) (if i <? 0 then i + length_ c else i).

(** [where(attrs)] and [findWhere]. *)
Definition matches (attrs : object) (c : collection) (r : nat) : bool :=
  match heap c !! r with Some m => isMatch (attributes m) attrs | None => false end.

Definition where_ (attrs : object) (c : collection) : list nat := List.filter (matches attrs c) (models c).

Definition findWhere (attrs : object) (c : collection) : option nat := List.find (matches attrs c) (models c).

(** ** References *)

Definition index_id (v : value) (r : nat) (c : collection) : res collection :=
  if is_nullish v then Ok c else k <-? to_string v; Ok (with_byId (obj_set k r (_byId c)) c).

Definition unindex_id (v : value) (c : collection) : res collection :=
  if is_nullish v then Ok c else k <-? to_string v; Ok (with_byId (obj_delete k (_byId c)) c).

Definition _addReference (r : nat) (c : collection) : res collection :=
  m <-? deref r c;
  c <-? index_id (modelId (attributes m)) r (with_byId (obj_set (cid m) r (_byId c)) c);
  Ok (with_bound (bound c ++ [r]) c).

(** The two deletions that [_removeModels] and [_removeReference] start with. *)
Definition unindex (r : nat) (c : collection) : res collection :=
  m <-? deref r c; unindex_id (modelId (attributes m)) (with_byId (obj_delete (cid m) (_byId c)) c).

Definition others (r : nat) (l : list nat) : list nat := List.filter (fun x => negb (Nat.eqb x r)) l.

Definition _removeReference (r : nat) (c : collection) : res collection :=
  c <-? unindex r c; Ok (with_bound (others r (bound c)) (with_owned (others r (owned c)) c)).

(** ** Events of the models *)

(** [_onModelEvent], of a model's [change]: the index follows the id. *)
Definition reindex (r : nat) (c : collection) : res collection :=
  m <-? deref r c;
  let prevId := modelId (_previousAttributes m) in
  let id := modelId (attributes m) in
  if strict_eq prevId id then Ok c else c <-? unindex_id prevId c; index_id id r c.

Definition bindings (r : nat) (c : collection) : nat := length (List.filter (Nat.eqb r) (bound c)).

Fixpoint on_change (n : nat) (r : nat) (c : collection) : res (collection * list coll_event) :=
  match n with
  | O => Ok (c, [])
  | S n => c <-? reindex r c; '(c, l) <-? on_change n r c; Ok (c, Of r Change :: l)
  end.

(** The events of the model [r] as they reach the collection; a [change] is the
    last of those of a [set]. *)
Fixpoint deliver (r : nat) (es : list model_event) (c : collection) : res (collection * list coll_event) :=
  match es with
  | [] => Ok (c, [])
  | e :: es =>
      '(c, l) <-? match e with Change => on_change (bindings r c) r c | _ => Ok (c, replicate (bindings r c) (Of r e)) end;
      '(c, l') <-? deliver r es c; Ok (c, l ++ l')
  end.

(** [model.set(attrs, options)]. *)
Definition model_set (r : nat) (attrs : object) (o : set_options) (c : collection) : res (collection * list coll_event) :=
  m <-? deref r c;
  '(_, m, es) <-? BackboneModel.set None (fun _ _ => Rest) 2 attrs o m;
  deliver r es (put r m c).

(** [model.trigger('add', model, this, options)] and the like. *)
Definition forward (r : nat) (e : coll_event) (c : collection) : list coll_event := replicate (bindings r c) e.

(** ** Removal *)

(** [this.models.splice(index, 1)] at [indexOf(model)]: the last one when it is
    not there. *)
Fixpoint remove_first (r : nat) (l : list nat) : list nat :=
  match l with [] => [] | x :: l => if Nat.eqb x r then l else x :: remove_first r l end.

Definition splice_out (r : nat) (l : list nat) : list nat :=
  if existsb (Nat.eqb r) l then remove_first r l else removelast l.

Fixpoint _removeModels (l : list item) (silent : bool) (c : collection) : res (list nat * collection * list coll_event) :=
  match l with
  | [] => Ok ([], c, [])
  | i :: l =>
      o <-? get i c;
      match o with
      | None => _removeModels l silent c
      | Some r =>
          c <-? unindex r (with_models (splice_out r (models c)) (length_ c - 1) c);
          let es := if silent then [] else forward r (Removed r) c in
          c <-? _removeReference r c;
          '(removed, c, es') <-? _removeModels l silent c;
          Ok (r :: removed, c, es ++ es')
      end
  end.

Definition is_nil {A} (l : list A) : bool := match l with [] => true | _ => false end.

(** [remove]. *)
Definition remove (l : list item) (silent : bool) (c : collection) : res (list nat * collection * list coll_event) :=
  '(removed, c, es) <-? _removeModels l silent c;
  Ok (removed, c, es ++ (if silent || is_nil removed then [] else [Updated [] [] removed])).

(** [_onModelEvent], of a model's [destroy], and what it triggers. *)
Fixpoint on_destroy (n : nat) (r : nat) (c : collection) : res (collection * list coll_event) :=
  match n with
  | O => Ok (c, [])
  | S n => '(_, c, es) <-? remove [Ref r] false c; '(c, es') <-? on_destroy n r c; Ok (c, es ++ Destroyed r :: es')
  end.

Definition destroyed (r : nat) (c : collection) : res (collection * list coll_event) := on_destroy (bindings r c) r c.

(** ** [set] *)

(** [_prepareModel]: attributes become a model with a [cid] of its own. *)
Definition _prepareModel (i : item) (c : collection) : res (nat * collection) :=
  match i with
  | Ref r => Ok (r, if existsb (Nat.eqb r) (owned c) then c else with_owned (owned c ++ [r]) c)
  | Raw attrs =>
      let n := idCounter c + 1 in
      m <-? new_model (u "c" ++ to_radix 10 n) attrs;
      Ok (length (heap c), Coll (heap c ++ [m]) n (models c) (length_ c) (_byId c) (bound c) (owned c))
  end.

Record progress := Progress { p_set : list nat; p_add : list nat; p_merge : list nat; modelMap : list jstr }.

Definition p_seen (cid_ : jstr) (r : nat) (p : progress) : progress :=
  if existsb (streq cid_) (modelMap p) then p else Progress (p_set p ++ [r]) (p_add p) (p_merge p) (modelMap p ++ [cid_]).

Section Set_.
(** [parse] of the model, where the answer may wrap its attributes. *)
Context (parse : object -> res value).

(** [existing.set(attrs, options)] of what [parse] gives. *)
Definition merge_into (e : nat) (attrs : object) (o : coll_options) (c : collection) : res (collection * list coll_event) :=
  v <-? (if c_parse o then parse attrs else Ok (VObj attrs));
  match v with
  | VObj attrs => model_set e attrs (SetOptions false (c_silent o) false) c
  | VUndef | VNull => Ok (c, [])
  | _ => Err Unsupported
  end.

Definition is_ref (i : item) (r : nat) : bool := match i with Ref x => Nat.eqb x r | Raw _ => false end.

(** One turn of the loop over the given models. *)
Definition set_item (o : coll_options) (i : item) (p : progress) (c : collection) : res (item * progress * collection * list coll_event) :=
  existing <-? get i c;
  match existing with
  | Some e =>
      '(p, c, es) <-? (if c_merge o && negb (is_ref i e) then
                         attrs <-? match i with Raw a => Ok a | Ref r => m <-? deref r c; Ok (attributes m) end;
                         '(c, es) <-? merge_into e attrs o c;
                         Ok (Progress (p_set p) (p_add p) (p_merge p ++ [e]) (modelMap p), c, es)
                       else Ok (p, c, []));
      m <-? deref e c;
      Ok (Ref e, p_seen (cid m) e p, c, es)
  | None =>
      if c_add o then
        '(r, c) <-? _prepareModel i c;
        c <-? _addReference r c;
        m <-? deref r c;
        Ok (Ref r, Progress (p_set p ++ [r]) (p_add p ++ [r]) (p_merge p) (modelMap p ++ [cid m]), c, [])
      else Ok (i, p, c, [])
  end.

Fixpoint set_items (o : coll_options) (l : list item) (p : progress) (c : collection) : res (list item * progress * collection * list coll_event) :=
  match l with
  | [] => Ok ([], p, c, [])
  | i :: l =>
      '(i, p, c, es) <-? set_item o i p c;
      '(l, p, c, es') <-? set_items o l p c;
      Ok (i :: l, p, c, es ++ es')
  end.

(** The models that are not in [modelMap]. *)
Definition stale (p : progress) (c : collection) : res (list nat) :=
  l <-? res_map (fun r => m <-? deref r c; Ok (r, negb (existsb (streq (cid m)) (modelMap p)))) (models c);
  Ok (map fst (List.filter snd l)).

(** [splice(array, insert, at)]. *)
Definition splice (array insert : list nat) (at_ : Z) : list nat :=
  let at_ := Z.min (Z.max at_ 0) (zlen array) in zslice 0 at_ array ++ insert ++ zslice at_ (zlen array) array.

(** [options.at], as [set] corrects it. *)
Definition fix_at (a : option Z) (c : collection) : option Z :=
  match a with
  | Some a => let a := if a >? length_ c then length_ c else a in Some (if a <? 0 then a + length_ c + 1 else a)
  | None => None
  end.

(** [set] of a list of models; the list of those that are there afterwards is
    the result. *)
Definition set (l : list item) (o : coll_options) (c : collection) : res (list item * collection * list coll_event) :=
  let at_ := fix_at (c_at o) c in
  '(l, p, c, es) <-? set_items o l (Progress [] [] [] []) c;
  toRemove <-? (if c_remove o then stale p c else Ok []);
  '(_, c, es') <-? _removeModels (map Ref toRemove) (c_silent o) c;
  let '(c, orderChanged) :=
    if negb (is_nil (p_set p)) && (c_add o && c_remove o) then
      (with_models (p_set p) (zlen (p_set p)) c, negb (bool_decide (models c = p_set p)))
    else if negb (is_nil (p_add p)) then
      let ms := splice (models c) (p_add p) (default (length_ c) at_) in (with_models ms (zlen ms) c, false)
    else (c, false) in
  let final :=
    if c_silent o then []
    else concat (map (fun r => forward r (Added r) c) (p_add p))
         ++ (if orderChanged then [Sorted] else [])
         ++ (if is_nil (p_add p) && is_nil toRemove && is_nil (p_merge p) then [] else [Updated (p_add p) (p_merge p) toRemove]) in
  Ok (l, c, es ++ es' ++ final).

(** [add]. *)
Definition add (l : list item) (o : coll_options) (c : collection) : res (list item * collection * list coll_event) :=
  set l (CollOptions true (c_merge o) false (c_silent o) (c_parse o) (c_at o)) c.

Definition add_options : coll_options := CollOptions true false false false false None.

Fixpoint remove_references (l : list nat) (c : collection) : res collection :=
  match l with [] => Ok c | r :: l => c <-? _removeReference r c; remove_references l c end.

Definition _reset (c : collection) : collection := with_models [] 0 (with_byId [] c).

(** [reset]. *)
Definition reset (l : list item) (silent : bool) (c : collection) : res (list item * collection * list coll_event) :=
  c <-? remove_references (models c) c;
  '(l, c, es) <-? add l (CollOptions true false false true false None) (_reset c);
  Ok (l, c, es ++ (if silent then [] else [WasReset])).
End Set_.

(** [parse] of the client's models: an answer about one resource holds it under
    the name of its schema. *)
Definition resource_parse (singular : jstr) (attrs : object) : res value :=
  match obj_get idAttribute attrs with VUndef => Ok (obj_get singular attrs) | _ => Ok (VObj attrs) end.

(** The models of an answer, [resp[plural] || []]. *)
Definition answer_items (plural : jstr) (resp : value) : res (list item) :=
  v <-? get_prop resp plural;
  if truthy v then
    match v with
    | VArr l => res_map (fun x => match x with VObj a => Ok (Raw a) | _ => Err Unsupported end) l
    | VObj a => Ok [Raw a]
    | _ => Err Unsupported
    end
  else Ok [].

(** The [success] of [fetch]. *)
Definition fetched (singular plural : jstr) (resp : value) (c : collection) : res (collection * list coll_event) :=
  l <-? answer_items plural resp;
  '(_, c, es) <-? set (resource_parse singular) l (CollOptions true true true false true None) c; Ok (c, es).

Definition empty : collection := Coll [] 0 [] 0 [] [] [].

(** Two answers of a server: of the second, the first resource is new, the
    second has another name, the third is gone. *)
Definition res_ (id name : string) : value := VObj [(u "id", VStr (u id)); (u "name", VStr (u name))].
Definition demo_answer (l : list value) : value := VObj [(u "networks", VArr l)].

Example fetched_example :
  ('(c, l1) <-? fetched (u "network") (u "networks") (demo_answer [res_ "n1" "a"; res_ "n2" "b"]) empty;
   '(c, l2) <-? fetched (u "network") (u "networks") (demo_answer [res_ "n3" "c"; res_ "n1" "d"]) c;
   '(c, l3) <-? destroyed 2 c;
   Ok (map attributes (heap c), models c, _byId c, l1, l2, l3))
  = Ok ([[(u "id", VStr (u "n1")); (u "name", VStr (u "d"))];
         [(u "id", VStr (u "n2")); (u "name", VStr (u "b"))];
         [(u "id", VStr (u "n3")); (u "name", VStr (u "c"))]],
        [0%nat], [(u "c1", 0%nat); (u "n1", 0%nat)],
        [Added 0; Added 1; Sorted; Updated [0; 1] [] []]%nat,
        [Of 0 (ChangeAttr (u "name") (VStr (u "d"))); Of 0 Change; Removed 1; Added 2; Sorted; Updated [2] [0] [1]]%nat,
        [Removed 2; Updated [] [] [2]; Destroyed 2]%nat).
Proof. vm_compute. reflexivity. Qed.

(** The data of a resource may be taken for a model: one with a property [cid]
    is merged into the model of that name. *)
Example collection_key_example :
  ('(c, _) <-? fetched (u "network") (u "networks") (demo_answer [res_ "n1" "a"]) empty;
   '(c, _) <-? fetched (u "network") (u "networks")
                 (demo_answer [VObj [(u "id", VStr (u "n2")); (u "cid", VStr (u "c1"))]]) c;
   Ok (map attributes (heap c), models c))
  = Ok ([[(u "id", VStr (u "n2")); (u "name", VStr (u "a")); (u "cid", VStr (u "c1"))]], [0%nat]).
Proof. vm_compute. reflexivity. Qed.

(** ** The index

    Ids are texts that cannot be taken for anything else that [_byId] is asked
    for: a [cid], or the text of [undefined], [null] or an object. *)

Definition cid_of (n : Z) : jstr := u "c" ++ to_radix 10 n.

Definition proper_text (k : jstr) : Prop :=
  (forall n, k <> cid_of n) /\ k <> u "undefined" /\ k <> u "null" /\ k <> u "[object Object]".

Definition proper_id (v : value) : Prop :=
  match v with VUndef | VNull => True | VStr k => proper_text k | _ => False end.

Definition id_of (m : model) : value := modelId (attributes m).

Definition names (m : model) (k : jstr) : Prop := k = cid m \/ id_of m = VStr k.

(** Models at rest, with a [cid] each. *)
Record sound (c : collection) : Prop := {
  sound_counter : 0 <= idCounter c;
  sound_rest : forall r m, heap c !! r = Some m -> _changing m = false /\ _pending m = None;
  sound_cid : forall r m, heap c !! r = Some m -> exists n, 0 <= n <= idCounter c /\ cid m = cid_of n;
  sound_cids : forall r r' m m', heap c !! r = Some m -> heap c !! r' = Some m' -> cid m = cid m' -> r = r'
}.

(** The models [L] are indexed and bound, and no others. *)
Record indexed (L : list nat) (c : collection) : Prop := {
  indexed_sound : sound c;
  indexed_nodup : NoDup L;
  indexed_valid : forall r, r ∈ L -> exists m, heap c !! r = Some m /\ proper_id (id_of m);
  indexed_byId : forall k r, obj_lookup k (_byId c) = Some r <-> r ∈ L /\ exists m, heap c !! r = Some m /\ names m k;
  indexed_bound : forall r, bindings r c = if bool_decide (r ∈ L) then 1%nat else 0%nat
}.

Lemma cid_of_inj n n' : 0 <= n -> 0 <= n' -> cid_of n = cid_of n' -> n = n'.
Proof. intros Hn Hn' [= H]. rewrite <- (to_radix_val 10 n), <- (to_radix_val 10 n') by lia. by rewrite H. Qed.

Lemma deref_ok r c m : deref r c = Ok m <-> heap c !! r = Some m.
Proof. unfold deref. destruct (heap c !! r); naive_solver. Qed.

Lemma special_unindexed L c k : indexed L c -> (forall n, k <> cid_of n) -> ~ proper_text k -> obj_lookup k (_byId c) = None.
Proof.
  intros H Hc Hk. destruct (obj_lookup k (_byId c)) as [r|] eqn:E; [|done]. exfalso. apply (indexed_byId L c H) in E as [Hr (m & Hm & [Hn|Hn])].
  - destruct (sound_cid c (indexed_sound L c H) r m Hm) as (n & _ & E). apply (Hc n). by rewrite Hn.
  - destruct (indexed_valid L c H r Hr) as (m' & Hm' & Hp). simplify_eq. rewrite Hn in Hp. done.
Qed.

Lemma object_unindexed L c : indexed L c -> obj_lookup (u "[object Object]") (_byId c) = None.
Proof. intros H. apply (special_unindexed L c _ H); [intros n; discriminate | by intros (_ & _ & _ & ?)]. Qed.

Lemma nullish_unindexed L c v : indexed L c -> is_nullish v = true -> lookup_id v c = Ok None.
Proof.
  intros H Hv. destruct v; try discriminate Hv; unfold lookup_id; cbn [to_string res_bind]; f_equal; apply (special_unindexed L c _ H);
    try (intros n; discriminate); intros (_ & ? & ? & _); done.
Qed.

(** [get] of a model of the collection. *)
Lemma get_ref L c r : indexed L c -> r ∈ L -> get (Ref r) c = Ok (Some r).
Proof.
  intros H Hr. destruct (indexed_valid L c H r Hr) as (m & Hm & Hp). cbn [get]. rewrite (proj2 (deref_ok r c m) Hm). cbn [res_bind].
  unfold lookup_id at 1. cbn [to_string res_bind]. rewrite (object_unindexed L c H). cbn [or_find res_bind].
  assert (Hc : lookup_id (VStr (cid m)) c = Ok (Some r)).
  { unfold lookup_id. cbn. f_equal. apply (indexed_byId L c H). split; [done|]. exists m. split; [done | by left]. }
  fold (id_of m). destruct (is_nullish (id_of m)) eqn:E; [by rewrite (nullish_unindexed L c _ H E)|].
  destruct (id_of m) as [| | | |k| | | | |] eqn:Ei; try done. unfold lookup_id. cbn [to_string res_bind].
  rewrite (proj2 (indexed_byId L c H k r)); [done|]. split; [done|]. exists m. split; [done | by right].
Qed.

(** Attributes as the server gives them: with an id, and not with properties
    that [get] takes for those of a model. *)
Definition resource (a : object) (k : jstr) : Prop :=
  NoDup (obj_keys a) /\ obj_get idAttribute a = VStr k /\ proper_text k /\ obj_get (u "attributes") a = VUndef /\ obj_get (u "cid") a = VUndef.

Lemma get_raw L c a k : indexed L c -> resource a k -> get (Raw a) c = Ok (obj_lookup k (_byId c)).
Proof.
  intros H (_ & Hk & _ & Ha & Hc). cbn [get]. rewrite Ha, Hc. cbn [truthy get_prop res_bind]. rewrite Hk. unfold lookup_id. cbn [to_string res_bind].
  rewrite (object_unindexed L c H). cbn [or_find res_bind]. by destruct (obj_lookup k (_byId c)).
Qed.

Lemma found_id L c k r : indexed L c -> proper_text k -> obj_lookup k (_byId c) = Some r <-> r ∈ L /\ exists m, heap c !! r = Some m /\ id_of m = VStr k.
Proof.
  intros H [Hk _]. rewrite (indexed_byId L c H). split.
  - intros (Hr & m & Hm & [Hn | Hn]); [|split; [done | by exists m]].
    destruct (sound_cid c (indexed_sound L c H) r m Hm) as (n & _ & E). destruct (Hk n). by rewrite Hn.
  - intros (Hr & m & Hm & Hn). split; [done|]. exists m. split; [done | by right].
Qed.

#[export] Instance names_dec m k : Decision (names m k).
Proof. unfold names. apply _. Defined.

Lemma names_spec m k : bool_decide (names m k) = bool_decide (k = cid m) || bool_decide (id_of m = VStr k).
Proof. unfold names. repeat case_bool_decide; naive_solver. Qed.

Lemma index_id_spec v r c : proper_id v ->
  exists b, index_id v r c = Ok (with_byId b c) /\ forall k, obj_lookup k b = if bool_decide (v = VStr k) then Some r else obj_lookup k (_byId c).
Proof.
  intros Hv. unfold index_id. destruct v as [| | | |t| | | | |]; try done; cbn [is_nullish to_string res_bind];
    try (exists (_byId c); split; [by destruct c | intros k; by rewrite bool_decide_false]).
  eexists. split; [done|]. intros k. rewrite obj_lookup_set. unfold streq. repeat case_bool_decide; naive_solver.
Qed.

Lemma unindex_id_spec v c : proper_id v ->
  exists b, unindex_id v c = Ok (with_byId b c) /\ forall k, obj_lookup k b = if bool_decide (v = VStr k) then None else obj_lookup k (_byId c).
Proof.
  intros Hv. unfold unindex_id. destruct v as [| | | |t| | | | |]; try done; cbn [is_nullish to_string res_bind];
    try (exists (_byId c); split; [by destruct c | intros k; by rewrite bool_decide_false]).
  eexists. split; [done|]. intros k. rewrite obj_lookup_delete. unfold streq. repeat case_bool_decide; naive_solver.
Qed.

Lemma unindex_spec r c m : heap c !! r = Some m -> proper_id (id_of m) ->
  exists b, unindex r c = Ok (with_byId b c) /\ forall k, obj_lookup k b = if bool_decide (names m k) then None else obj_lookup k (_byId c).
Proof.
  intros Hm Hp. unfold unindex. rewrite (proj2 (deref_ok r c m) Hm). cbn [res_bind].
  destruct (unindex_id_spec (id_of m) (with_byId (obj_delete (cid m) (_byId c)) c) Hp) as (b & H1 & H2). exists b. split; [exact H1|].
  intros k. rewrite H2, names_spec. cbn [_byId with_byId]. rewrite obj_lookup_delete. unfold streq. by repeat case_bool_decide.
Qed.

(** What the index does not depend on. *)
Definition frame (c c' : collection) : Prop :=
  heap c' = heap c /\ models c' = models c /\ length_ c' = length_ c /\ idCounter c' = idCounter c.

#[export] Instance frame_preorder : PreOrder frame.
Proof. split; [by repeat split|]. intros c1 c2 c3 (?&?&?&?) (?&?&?&?). repeat split; congruence. Qed.

Lemma sound_frame c c' : frame c c' -> sound c -> sound c'.
Proof. intros (Hh & _ & _ & Hi) [H1 H2 H3 H4]. split; rewrite ?Hh, ?Hi; done. Qed.

Lemma indexed_with_models L c ms n : indexed L c -> indexed L (with_models ms n c).
Proof. intros [[H1 H2 H3 H4] H5 H6 H7 H8]. split; [by split | exact H5 | exact H6 | exact H7 | exact H8]. Qed.

Lemma bindings_snoc r r' b c : bound c = b ++ [r'] -> bindings r c = (length (List.filter (Nat.eqb r) b) + (if Nat.eqb r r' then 1 else 0))%nat.
Proof. intros E. unfold bindings. rewrite E, filter_app, length_app. cbn. by destruct (Nat.eqb r r'). Qed.

Lemma elem_of_snoc {A} (x y : A) l : x ∈ l ++ [y] <-> x ∈ l \/ x = y.
Proof. by rewrite elem_of_app, list_elem_of_singleton. Qed.

Lemma add_reference L c r m :
  indexed L c -> r ∉ L -> heap c !! r = Some m -> proper_id (id_of m) -> (forall k, id_of m = VStr k -> obj_lookup k (_byId c) = None) ->
  exists c', _addReference r c = Ok c' /\ indexed (L ++ [r]) c' /\ frame c c'.
Proof.
  intros H Hr Hm Hp Hid. unfold _addReference. rewrite (proj2 (deref_ok r c m) Hm). cbn [res_bind].
  destruct (index_id_spec (id_of m) r (with_byId (obj_set (cid m) r (_byId c)) c) Hp) as (b & H1 & H2). fold (id_of m). rewrite H1. cbn [res_bind].
  eexists. split; [done|]. split; [|by repeat split].
  assert (Hb : forall k, obj_lookup k b = if bool_decide (names m k) then Some r else obj_lookup k (_byId c)).
  { intros k. rewrite H2, names_spec. cbn [_byId with_byId]. rewrite obj_lookup_set. unfold streq. by repeat case_bool_decide. }
  assert (Hfree : forall k, names m k -> obj_lookup k (_byId c) = None).
  { intros k [-> | Hk]; [|by apply Hid]. destruct (obj_lookup (cid m) (_byId c)) as [r'|] eqn:E; [|done]. exfalso.
    apply (indexed_byId L c H) in E as (Hr' & m' & Hm' & Hn).
    destruct (sound_cid c (indexed_sound L c H) r m Hm) as (n & _ & E). destruct Hn as [Hn | Hn].
    - by rewrite (sound_cids c (indexed_sound L c H) r r' m m' Hm Hm' Hn) in Hr.
    - destruct (indexed_valid L c H r' Hr') as (m2 & Hm2 & Hp2). simplify_eq. rewrite Hn in Hp2. by destruct (proj1 Hp2 n). }
  split.
  - apply (sound_frame c); [by repeat split | apply H].
  - apply list.NoDup_app. split; [apply H|]. split; [|apply list.NoDup_singleton]. intros x Hx ->%list_elem_of_singleton. done.
  - intros r' [Hr' | ->]%elem_of_snoc; [by apply (indexed_valid L c H) | by exists m].
  - intros k r'. cbn [_byId with_bound with_byId heap]. rewrite Hb. case_bool_decide as Hk.
    + split.
      * intros [= <-]. split; [apply elem_of_snoc; by right | by exists m].
      * intros (Hr' & m' & Hm' & Hn). apply elem_of_snoc in Hr' as [Hr' | ->]; [|done]. exfalso.
        assert (obj_lookup k (_byId c) = Some r') as E by (apply (indexed_byId L c H); split; [done | by exists m']). by rewrite (Hfree k Hk) in E.
    + rewrite (indexed_byId L c H). split; [intros [? ?]; split; [apply elem_of_snoc; by left | done]|].
      intros (Hr' & m' & Hm' & Hn). apply elem_of_snoc in Hr' as [Hr' | ->]; [by split; [|exists m']|]. naive_solver.
  - intros r'. erewrite bindings_snoc; [|done]. cbn [bound with_byId]. fold (bindings r' c). rewrite (indexed_bound L c H).
    destruct (Nat.eqb_spec r' r) as [-> | Hne].
    + by rewrite (bool_decide_false (r ∈ L)), bool_decide_true by (done || apply elem_of_snoc; by right).
    + rewrite (bool_decide_ext (r' ∈ L ++ [r]) (r' ∈ L)) by (rewrite elem_of_snoc; naive_solver). by case_bool_decide.
Qed.

Lemma others_elem r r' l : r' ∈ others r l <-> r' ∈ l /\ r' <> r.
Proof. unfold others. rewrite !list_elem_of_In, filter_In, negb_true_iff, Nat.eqb_neq. done. Qed.

Lemma bindings_others r r' c c' : bound c' = others r (bound c) -> bindings r' c' = if Nat.eqb r' r then 0%nat else bindings r' c.
Proof.
  intros E. unfold bindings. rewrite E. unfold others. clear E. induction (bound c) as [|x l IH]; cbn; [by destruct (Nat.eqb r' r)|].
  destruct (Nat.eqb_spec x r) as [-> | Hx]; cbn.
  - rewrite IH. by destruct (Nat.eqb_spec r' r).
  - destruct (Nat.eqb_spec r' x) as [-> | Hne]; cbn; rewrite IH; [|done]. by destruct (Nat.eqb_spec x r).
Qed.

Lemma names_unique L c k r r' m m' :
  indexed L c -> r ∈ L -> r' ∈ L -> heap c !! r = Some m -> heap c !! r' = Some m' -> names m k -> names m' k -> r = r'.
Proof.
  intros H Hr Hr' Hm Hm' Hn Hn'.
  assert (obj_lookup k (_byId c) = Some r) as E by (apply (indexed_byId L c H); split; [done | by exists m]).
  assert (obj_lookup k (_byId c) = Some r') as E' by (apply (indexed_byId L c H); split; [done | by exists m']). congruence.
Qed.

(** The index without the names of [r], and the handlers without that of [r]. *)
Lemma indexed_unbind L c r m b :
  indexed L c -> r ∈ L -> heap c !! r = Some m ->
  (forall k, obj_lookup k b = if bool_decide (names m k) then None else obj_lookup k (_byId c)) ->
  indexed (others r L) (with_bound (others r (bound c)) (with_owned (others r (owned c)) (with_byId b c))).
Proof.
  intros H Hr Hm Hb. split.
  - apply (sound_frame c); [by repeat split | apply H].
  - unfold others. apply NoDup_ListNoDup, NoDup_filter, NoDup_ListNoDup, H.
  - intros r' [Hr' _]%others_elem. by apply (indexed_valid L c H).
  - intros k r'. cbn [_byId with_bound with_byId with_owned heap]. rewrite Hb, others_elem.
    destruct (bool_decide (names m k)) eqn:E; [apply bool_decide_eq_true in E | apply bool_decide_eq_false in E].
    + split; [done|]. intros ((Hr' & Hne) & m' & Hm' & Hn). destruct Hne. by apply (names_unique L c k r' r m' m).
    + rewrite (indexed_byId L c H). split; [|naive_solver]. intros (Hr' & m' & Hm' & Hn). split; [|by exists m']. split; [done|]. intros ->. naive_solver.
  - intros r'. rewrite (bindings_others r r' c) by done.
    rewrite (indexed_bound L c H). destruct (Nat.eqb_spec r' r) as [-> | Hne].
    + rewrite bool_decide_false; [done|]. rewrite others_elem. naive_solver.
    + by rewrite (bool_decide_ext (r' ∈ L) (r' ∈ others r L)) by (rewrite others_elem; naive_solver).
Qed.

Lemma remove_reference L c r : indexed L c -> r ∈ L -> exists c', _removeReference r c = Ok c' /\ indexed (others r L) c' /\ frame c c'.
Proof.
  intros H Hr. destruct (indexed_valid L c H r Hr) as (m & Hm & Hp). destruct (unindex_spec r c m Hm Hp) as (b & H1 & H2).
  unfold _removeReference. rewrite H1. cbn [res_bind]. eexists. split; [done|]. split; [by apply (indexed_unbind L c r m b) | by repeat split].
Qed.

(** A model taken out of the collection, as [_removeModels] does it. *)
Lemma drop_reference L c r :
  indexed L c -> r ∈ L ->
  exists c1 c2, unindex r c = Ok c1 /\ bindings r c1 = 1%nat /\ _removeReference r c1 = Ok c2 /\ indexed (others r L) c2 /\ frame c c2.
Proof.
  intros H Hr. destruct (indexed_valid L c H r Hr) as (m & Hm & Hp). destruct (unindex_spec r c m Hm Hp) as (b & H1 & H2).
  exists (with_byId b c). destruct (unindex_spec r (with_byId b c) m Hm Hp) as (b' & H3 & H4). cbn [_byId with_byId] in H4.
  unfold _removeReference. rewrite H3. cbn [res_bind]. eexists. split; [done|]. split.
  { change (bindings r (with_byId b c)) with (bindings r c). rewrite (indexed_bound L c H). by rewrite bool_decide_true. }
  split; [done|]. split; [|by repeat split]. apply (indexed_unbind L c r m b'); try done. intros k. rewrite H4, H2. by destruct (bool_decide _).
Qed.

(** ** A model that is changed *)

Lemma strict_eq_ids v w : proper_id v -> proper_id w -> strict_eq v w = true <-> v = w.
Proof. intros Hv Hw. destruct v, w; try done. cbn [strict_eq]. rewrite streq_eq. naive_solver. Qed.

Lemma put_heap r r' m c : heap (put r m c) !! r' = if Nat.eqb r' r then (if decide (r < length (heap c))%nat then Some m else None) else heap c !! r'.
Proof.
  cbn [heap put with_heap]. destruct (Nat.eqb_spec r' r) as [-> | Hne]; [|by apply list_lookup_insert_ne].
  destruct (decide _); [by apply list_lookup_insert_eq|]. apply lookup_ge_None. rewrite length_insert. lia.
Qed.

(** The heap with another state of the model [r]. *)
Lemma put_lookup r m m0 c r' : heap c !! r = Some m0 -> heap (put r m c) !! r' = if Nat.eqb r' r then Some m else heap c !! r'.
Proof. intros H. rewrite put_heap. apply lookup_lt_Some in H. by destruct (decide _). Qed.

Lemma sound_put r m m0 c :
  sound c -> heap c !! r = Some m0 -> cid m = cid m0 -> _changing m = false /\ _pending m = None -> sound (put r m c).
Proof.
  intros [H1 H2 H3 H4] Hr Hc Hm.
  assert (Hput : forall r' m', heap (put r m c) !! r' = Some m' ->
            exists m1, heap c !! r' = Some m1 /\ cid m' = cid m1 /\ _changing m' = false /\ _pending m' = None).
  { intros r' m'. rewrite (put_lookup r m m0) by done. destruct (Nat.eqb_spec r' r) as [-> | Hne].
    - intros [= <-]. by exists m0.
    - intros E. exists m'. destruct (H2 r' m' E). done. }
  split; [exact H1 | | |].
  - intros r' m' E. by destruct (Hput r' m' E) as (m1 & _ & _ & ?).
  - intros r' m' E. destruct (Hput r' m' E) as (m1 & E1 & -> & _). by apply (H3 r').
  - intros r1 r2 m1 m2 E1 E2 E. destruct (Hput r1 m1 E1) as (m1' & E1' & Ec1 & _), (Hput r2 m2 E2) as (m2' & E2' & Ec2 & _).
    apply (H4 r1 r2 m1' m2'); congruence.
Qed.

Lemma indexed_put L r m m0 b c :
  indexed L c -> r ∈ L -> heap c !! r = Some m0 -> cid m = cid m0 -> _changing m = false /\ _pending m = None -> proper_id (id_of m) ->
  (forall k, obj_lookup k b = if bool_decide (id_of m = VStr k) then Some r
             else if bool_decide (id_of m0 = VStr k) then None else obj_lookup k (_byId c)) ->
  (id_of m = id_of m0 \/ forall k, id_of m = VStr k -> obj_lookup k (_byId c) = None) ->
  indexed L (with_byId b (put r m c)).
Proof.
  intros H Hr Hm0 Hc Hrest Hp Hb Hfree.
  assert (Hput : forall r', heap (with_byId b (put r m c)) !! r' = if Nat.eqb r' r then Some m else heap c !! r') by (intros r'; by apply (put_lookup r m m0)).
  assert (Hcid : forall k, k = cid m0 -> id_of m <> VStr k /\ id_of m0 <> VStr k).
  { intros k ->. destruct (sound_cid c (indexed_sound L c H) r m0 Hm0) as (n & _ & E). destruct (indexed_valid L c H r Hr) as (m1 & Hm1 & Hp1).
    simplify_eq. split; intros Hi; [rewrite Hi in Hp; destruct Hp as [Hn _] | rewrite Hi in Hp1; destruct Hp1 as [Hn _]]; by apply (Hn n). }
  split.
  - apply (sound_frame (put r m c)); [by repeat split | by apply (sound_put r m m0); [apply H|..]].
  - apply H.
  - intros r' Hr'. rewrite Hput. destruct (Nat.eqb_spec r' r) as [-> | Hne]; [by exists m | by apply (indexed_valid L c H)].
  - intros k r'. cbn [_byId with_byId]. rewrite Hb, Hput. destruct (bool_decide (id_of m = VStr k)) eqn:E1; [apply bool_decide_eq_true in E1|apply bool_decide_eq_false in E1].
    + split.
      * intros [= <-]. split; [done|]. exists m. rewrite Nat.eqb_refl. split; [done | by right].
      * intros (Hr' & m' & Hm' & Hn). destruct (Nat.eqb_spec r' r) as [-> | Hne]; [done|]. exfalso.
        assert (obj_lookup k (_byId c) = Some r') as E by (apply (indexed_byId L c H); split; [done | by exists m']).
        destruct Hfree as [Hsame | Hfree]; [|by rewrite (Hfree k E1) in E].
        apply Hne, (names_unique L c k r' r m' m0); try done. right. by rewrite <- Hsame.
    + destruct (bool_decide (id_of m0 = VStr k)) eqn:E2; [apply bool_decide_eq_true in E2|apply bool_decide_eq_false in E2].
      * split; [done|]. intros (Hr' & m' & Hm' & Hn). destruct (Nat.eqb_spec r' r) as [-> | Hne].
        -- injection Hm' as <-. destruct Hn as [Hn | Hn]; [|done]. rewrite Hc in Hn. by destruct (Hcid k Hn).
        -- destruct Hne. apply (names_unique L c k r' r m' m0); try done. by right.
      * rewrite (indexed_byId L c H). destruct (Nat.eqb_spec r' r) as [-> | Hne]; [|done].
        split; intros (Hr' & m' & Hm' & Hn); (split; [done|]).
        -- simplify_eq. exists m. split; [done|]. destruct Hn as [Hn | Hn]; [left; by rewrite Hc | done].
        -- injection Hm' as <-. exists m0. split; [done|]. destruct Hn as [Hn | Hn]; [left; by rewrite <- Hc | done].
  - apply H.
Qed.

Lemma deliver_changes e (f : jstr * value -> model_event) l c c' es :
  (forall x, exists a v, f x = ChangeAttr a v) -> on_change (bindings e c) e c = Ok (c', es) ->
  exists es', deliver e (map f l ++ [Change]) c = Ok (c', es').
Proof.
  intros Hf Hc. induction l as [|x l IH]; cbn [map app deliver].
  - rewrite Hc. cbn [res_bind]. eauto.
  - destruct (Hf x) as (a & v & ->). cbn [res_bind]. destruct IH as (es' & ->). cbn [res_bind]. eauto.
Qed.

(** The id after a change. *)
Definition new_id (m : model) (attrs : object) : value :=
  match obj_lookup idAttribute attrs with Some v => v | None => id_of m end.

(** [undefined] is what is given to unset. *)
Definition unsets (attrs : object) (o : set_options) : Prop := o_unset o = true -> Forall (fun kx => kx.2 = VUndef) attrs.

Lemma unsets_value attrs o k v : unsets attrs o -> obj_lookup k attrs = Some v -> (if o_unset o then VUndef else v) = v.
Proof.
  unfold unsets. destruct (o_unset o); [|done]. intros H Hk%obj_lookup_In. specialize (H eq_refl). rewrite Forall_elem in H. by specialize (H _ Hk).
Qed.

Definition sets (m m' : model) (attrs : object) : Prop :=
  forall k, m_get k m' = match obj_lookup k attrs with Some v => v | None => m_get k m end.

(** What a change of one model leaves. *)
Definition changes (r : nat) (m' : model) (c c' : collection) : Prop :=
  heap c' = <[r := m']> (heap c) /\ models c' = models c /\ length_ c' = length_ c /\ idCounter c' = idCounter c.

(** A model of the collection that is changed stays in the index, under its new
    id when it has one that is free and is not changed in silence. *)
Lemma model_set_ok L c r m attrs o :
  indexed L c -> r ∈ L -> heap c !! r = Some m -> NoDup (obj_keys attrs) -> unsets attrs o -> proper_id (new_id m attrs) ->
  (new_id m attrs = id_of m \/ (o_silent o = false /\ forall k, new_id m attrs = VStr k -> obj_lookup k (_byId c) = None)) ->
  exists m' c' es, model_set r attrs o c = Ok (c', es) /\ indexed L c' /\ changes r m' c c' /\ sets m m' attrs /\ cid m' = cid m /\ tidy m attrs m'.
Proof.
  intros H Hr Hm Hnd Hun Hp Hid. unfold model_set. rewrite (proj2 (deref_ok r c m) Hm). cbn [res_bind].
  destruct (sound_rest c (indexed_sound L c H) r m Hm) as [Hc Hpe].
  destruct (set_quiet 0 attrs o m Hnd Hc Hpe) as (m' & H1 & H2' & (Hc' & Hp' & Hcid & Hprev) & Htidy). rewrite H1. cbn [res_bind].
  assert (H2 : sets m m' attrs) by (intros k; rewrite H2'; destruct (obj_lookup k attrs) as [v|] eqn:Ev; [by apply (unsets_value attrs o k) | done]). clear H2'.
  assert (Hnew : id_of m' = new_id m attrs) by (unfold new_id; exact (H2 idAttribute)).
  destruct (indexed_valid L c H r Hr) as (m0 & Hm0 & Hp0). simplify_eq.
  assert (Hre : exists b, reindex r (put r m' c) = Ok (with_byId b (put r m' c)) /\
            forall k, obj_lookup k b = if bool_decide (id_of m' = VStr k) then Some r
                                       else if bool_decide (id_of m = VStr k) then None else obj_lookup k (_byId c)).
  { unfold reindex. rewrite (proj2 (deref_ok r _ m')); [|rewrite (put_lookup r m' m) by done; by rewrite Nat.eqb_refl]. cbn [res_bind].
    rewrite Hprev. fold (id_of m) (id_of m'). destruct (strict_eq _ _) eqn:E.
    - apply strict_eq_ids in E; [|done | by rewrite Hnew]. exists (_byId c). split; [done|]. intros k. rewrite <- E.
      destruct (bool_decide (id_of m = VStr k)) eqn:Ek; [|done]. apply bool_decide_eq_true in Ek. apply (indexed_byId L c H).
      split; [done|]. exists m. split; [done | by right].
    - destruct (unindex_id_spec (id_of m) (put r m' c) Hp0) as (b & Hb1 & Hb2). rewrite Hb1. cbn [res_bind].
      destruct (index_id_spec (id_of m') r (with_byId b (put r m' c))) as (b' & Hb1' & Hb2'); [by rewrite Hnew|].
      exists b'. split; [exact Hb1'|]. intros k. rewrite Hb2'. cbn [_byId with_byId]. by rewrite Hb2. }
  destruct Hre as (b & Hre & Hb).
  assert (Hfree : id_of m' = id_of m \/ forall k, id_of m' = VStr k -> obj_lookup k (_byId c) = None) by (rewrite Hnew; naive_solver).
  destruct (o_silent o || bool_decide (news m attrs = [])) eqn:Es.
  - exists m', (put r m' c), []. split; [done|]. split; [|split; [by repeat split | done]].
    assert (Hsame : id_of m' = id_of m).
    { rewrite Hnew. destruct Hid as [? | [Hsil _]]; [done|]. rewrite Hsil in Es. cbn [orb] in Es. apply bool_decide_eq_true in Es.
      unfold new_id in *. destruct (obj_lookup idAttribute attrs) as [v|] eqn:Ev; [|done]. apply obj_lookup_In in Ev.
      assert (Hn : isEqual (id_of m) v = true).
      { destruct (isEqual (id_of m) v) eqn:E; [done|]. exfalso. apply (list.not_elem_of_nil (idAttribute, v)). rewrite <- Es. apply list_elem_of_In. unfold news.
        apply filter_In. split; [by apply list_elem_of_In|]. cbn [fst snd]. unfold id_of, modelId in E. by rewrite E. }
      apply isEqual_leaf in Hn; [done|]. by destruct (id_of m). }
    change (put r m' c) with (with_byId (_byId c) (put r m' c)). apply (indexed_put L r m' m); [done | done | done | done | done | by rewrite Hnew | | by left].
    intros k. rewrite Hsame. destruct (bool_decide (id_of m = VStr k)) eqn:Ek; [|done]. apply bool_decide_eq_true in Ek. apply (indexed_byId L c H).
    split; [done|]. exists m. split; [done | by right].
  - destruct (deliver_changes r (fun kx => ChangeAttr kx.1 (m_get kx.1 m')) (news m attrs) (put r m' c) (with_byId b (put r m' c)) [Of r Change]) as (es & He).
    + eauto.
    + change (bindings r (put r m' c)) with (bindings r c). rewrite (indexed_bound L c H), bool_decide_true by done. cbn [on_change]. by rewrite Hre.
    + exists m', (with_byId b (put r m' c)), es. split; [exact He|]. split; [|split; [by repeat split | done]].
      apply (indexed_put L r m' m); [done | done | done | done | done | by rewrite Hnew | exact Hb | exact Hfree].
Qed.

(** ** A list of resources that is set *)

Lemma existsb_streq k l : existsb (streq k) l = true <-> k ∈ l.
Proof. rewrite existsb_exists, list_elem_of_In. split; [intros (x & Hx & E%streq_eq); by subst | intros H; exists k; split; [done | apply streq_refl]]. Qed.

(** A new model that nothing refers to yet. *)
Lemma prepare_ok L c a :
  indexed L c -> NoDup (obj_keys a) ->
  exists m c', _prepareModel (Raw a) c = Ok (length (heap c), c') /\ indexed L c' /\
    heap c' = heap c ++ [m] /\ models c' = models c /\ length_ c' = length_ c /\ _byId c' = _byId c /\
    id_of m = modelId a /\ (forall key, m_get key m = obj_get key a) /\
    m_id m = modelId a /\ NoDup (obj_keys (attributes m)).
Proof.
  intros H Hnd. cbn [_prepareModel]. unfold new_model.
  assert (Ha : forall key, obj_lookup key (obj_assign [] a) = obj_lookup key a) by (intros key; rewrite obj_lookup_assign by done; by destruct (obj_lookup key a)).
  assert (Hnd' : NoDup (obj_keys (obj_assign [] a))) by (apply obj_assign_NoDup; constructor).
  set (cid_ := u "c" ++ to_radix 10 (idCounter c + 1)).
  destruct (set_quiet 0 (obj_assign [] a) no_options (Model cid_ [] [] [] VUndef false None VNull) Hnd' eq_refl eq_refl) as (m' & H1 & H2 & (Hc' & Hp' & Hcid & _) & [Hmid Hmnd]).
  rewrite H1. cbn [res_bind]. set (m := with_attributes (attributes m') [] m').
  eexists m, _. split; [done|].
  assert (Hget : forall key, m_get key m = obj_get key a).
  { intros key. change (m_get key m) with (m_get key m'). rewrite H2, Ha. unfold obj_get. cbn [o_unset no_options]. by destruct (obj_lookup key a). }
  assert (Hheap : forall r m1, (heap c ++ [m]) !! r = Some m1 -> heap c !! r = Some m1 \/ (r = length (heap c) /\ m1 = m)).
  { intros r m1 [E | [E1 E2]]%lookup_app_Some; [by left|]. right. destruct (r - length (heap c))%nat as [|n] eqn:En; [|by destruct n]. cbn in E2. split; [lia | congruence]. }
  assert (Hid : m_id m = modelId a).
  { change (m_id m) with (m_id m'). rewrite Hmid. unfold obj_has. rewrite Ha. change (m_get idAttribute m') with (m_get idAttribute m). rewrite Hget.
    unfold modelId, obj_get. by destruct (obj_lookup idAttribute a). }
  split; [|split; [done|]; split; [done|]; split; [done|]; split; [done|]; split; [exact (Hget idAttribute)|]; split; [exact Hget|]; split; [exact Hid|]; apply Hmnd; constructor].
  pose proof (indexed_sound L c H) as [S1 S2 S3 S4].
  assert (Hnew : forall r m1, heap c !! r = Some m1 -> cid m1 <> cid m).
  { intros r m1 E Ec. destruct (S3 r m1 E) as (n & Hn & En). change (cid m) with (cid m') in Ec. rewrite Hcid, En in Ec. cbn [cid] in Ec.
    apply cid_of_inj in Ec; lia. }
  split; [split| | | |].
  - cbn. lia.
  - cbn [heap]. intros r m1 [E | [-> ->]]%Hheap; [by apply (S2 r) | done].
  - cbn [heap idCounter]. intros r m1 [E | [-> ->]]%Hheap; [destruct (S3 r m1 E) as (n & Hn & En); exists n; split; [lia | done]|].
    exists (idCounter c + 1). split; [lia|]. change (cid m) with (cid m'). by rewrite Hcid.
  - cbn [heap]. intros r r' m1 m2 [E1 | [-> ->]]%Hheap [E2 | [-> ->]]%Hheap Ec; [by eapply S4 | by destruct (Hnew _ _ E1) | by destruct (Hnew _ _ E2) | done].
  - apply H.
  - intros r Hr. destruct (indexed_valid L c H r Hr) as (m1 & E & Hp1). exists m1. split; [|done]. cbn [heap]. by apply lookup_app_l_Some.
  - intros k' r. cbn [_byId heap]. rewrite (indexed_byId L c H). split; intros (Hr & m1 & E & Hn); (split; [done|]); exists m1; (split; [|done]).
    + by apply lookup_app_l_Some.
    + apply Hheap in E as [E | [-> ->]]; [done|]. destruct (indexed_valid L c H _ Hr) as (m2 & E & _). apply lookup_lt_Some in E. lia.
  - apply H.
Qed.

Definition key (a : object) : jstr := match obj_get idAttribute a with VStr k => k | _ => [] end.

(** The model [r] has the attributes of the resource [a]. *)
Definition holds (c : collection) (r : nat) (a : object) : Prop :=
  exists m, heap c !! r = Some m /\ id_of m = VStr (key a) /\ forall k v, obj_lookup k a = Some v -> m_get k m = v.

Lemma resource_id a k : resource a k -> key a = k /\ obj_lookup idAttribute a = Some (VStr k).
Proof.
  intros (_ & Hk & _). unfold key. rewrite Hk. split; [done|]. unfold obj_get in Hk. destruct (obj_lookup idAttribute a); [cbn in Hk; by subst | done].
Qed.

Section Setting.
Context (parse : object -> res value) (o : coll_options) (Hadd : c_add o = true).

(** The model that a resource is set on. *)
Record placed (L : list nat) (a : object) (c : collection) (r : nat) (new : list nat) (c' : collection) : Prop := {
  placed_indexed : indexed (L ++ new) c';
  placed_holds : holds c' r a;
  placed_others : forall r', r' <> r -> heap c' !! r' = heap c !! r';
  placed_models : models c' = models c /\ length_ c' = length_ c;
  placed_known : forall e, obj_lookup (key a) (_byId c) = Some e -> r = e /\ new = [] /\ (cid <$> heap c' !! r = cid <$> heap c !! r);
  placed_new : obj_lookup (key a) (_byId c) = None -> r = length (heap c) /\ new = [r]
}.

Lemma set_item_known p c L a r m :
  indexed L c -> resource a (key a) -> parse a = Ok (VObj a) -> c_merge o = true ->
  obj_lookup (key a) (_byId c) = Some r -> heap c !! r = Some m -> cid m ∉ modelMap p ->
  exists c' es,
    set_item parse o (Raw a) p c = Ok (Ref r, Progress (p_set p ++ [r]) (p_add p ++ []) (p_merge p ++ [r]) (modelMap p ++ [cid m]), c', es) /\
    placed L a c r [] c'.
Proof.
  intros H Ha Hparse Hmerge Hf Hm Hseen. destruct (resource_id a (key a) Ha) as [_ Hid]. pose proof Ha as (Hnd & Hk & Hp & _).
  pose proof Hf as Hf'. apply (found_id L c _ _ H Hp) in Hf' as (Hr & m0 & Hm0 & Hi0). simplify_eq.
  unfold set_item. rewrite (get_raw L c a (key a) H Ha), Hf. cbn [res_bind]. rewrite Hmerge. cbn [is_ref negb andb res_bind].
  unfold merge_into. rewrite Hparse. assert (Hv : (if c_parse o then Ok (VObj a) else Ok (VObj a)) = Ok (VObj a)) by by destruct (c_parse o).
  rewrite Hv. cbn [res_bind].
  assert (Hnew : new_id m a = id_of m) by (unfold new_id; by rewrite Hid).
  destruct (model_set_ok L c r m a (SetOptions false (c_silent o) false) H Hr Hm Hnd) as (m' & c' & es & Hset & Hix & (Hh & Hms & Hl & _) & Hsets & Hcid & _).
  { done. } { rewrite Hnew, Hi0. exact Hp. } { by left. }
  rewrite Hset. cbn [res_bind]. assert (Hm' : heap c' !! r = Some m') by (rewrite Hh; apply list_lookup_insert_eq; by eapply lookup_lt_Some).
  rewrite (proj2 (deref_ok r c' m') Hm'). cbn [res_bind]. unfold p_seen. rewrite Hcid. cbn [modelMap].
  destruct (existsb (streq (cid m)) (modelMap p)) eqn:E; [by apply existsb_streq in E|]. cbn [p_set p_add p_merge].
  exists c', es. split; [by rewrite app_nil_r|]. split.
  - by rewrite app_nil_r.
  - exists m'. split; [done|]. split.
    + unfold id_of, modelId. change (m_get idAttribute m' = VStr (key a)). by rewrite Hsets, Hid.
    + intros k v Hkv. by rewrite Hsets, Hkv.
  - intros r' Hne. rewrite Hh. by apply list_lookup_insert_ne.
  - done.
  - intros e He. split; [congruence|]. split; [done|]. rewrite Hm', Hm. cbn. by rewrite Hcid.
  - congruence.
Qed.

Lemma set_item_new p c L a :
  indexed L c -> resource a (key a) -> obj_lookup (key a) (_byId c) = None ->
  exists m c',
    set_item parse o (Raw a) p c
    = Ok (Ref (length (heap c)), Progress (p_set p ++ [length (heap c)]) (p_add p ++ [length (heap c)]) (p_merge p ++ []) (modelMap p ++ [cid m]), c', []) /\
    heap c' !! length (heap c) = Some m /\ placed L a c (length (heap c)) [length (heap c)] c'.
Proof.
  intros H Ha Hf. destruct (resource_id a (key a) Ha) as [_ Hid]. pose proof Ha as (_ & _ & Hp & _).
  unfold set_item. rewrite (get_raw L c a (key a) H Ha), Hf. cbn [res_bind]. rewrite Hadd.
  destruct (prepare_ok L c a H (proj1 Ha)) as (m & c1 & H1 & Hix & Hh & Hms & Hl & Hb & Hi & Hget & _). rewrite H1. cbn [res_bind].
  assert (Hi' : id_of m = VStr (key a)) by (rewrite Hi; apply Ha). clear Hi. rename Hi' into Hi.
  assert (Hm : heap c1 !! length (heap c) = Some m) by (rewrite Hh; by apply list_lookup_middle).
  assert (Hout : length (heap c) ∉ L).
  { intros Hin. destruct (indexed_valid L c H _ Hin) as (m' & E & _). apply lookup_lt_Some in E. lia. }
  destruct (add_reference L c1 (length (heap c)) m Hix Hout Hm) as (c' & H2 & Hix' & (Fh & Fm & Fl & _)).
  { by rewrite Hi. } { intros k E. rewrite Hi in E. injection E as <-. by rewrite Hb. }
  rewrite H2. cbn [res_bind]. rewrite (proj2 (deref_ok _ c' m)) by (by rewrite Fh). cbn [res_bind].
  exists m, c'. split; [by rewrite app_nil_r|]. split; [by rewrite Fh|]. split.
  - done.
  - exists m. split; [by rewrite Fh|]. split; [done|]. intros k v Hkv. rewrite Hget. unfold obj_get. by rewrite Hkv.
  - intros r' Hne. rewrite Fh, Hh. destruct (decide (r' < length (heap c))%nat); [by apply lookup_app_l|].
    rewrite lookup_app_r, (lookup_ge_None_2 (heap c)) by lia. by destruct (r' - length (heap c))%nat eqn:E; [lia|].
  - split; congruence.
  - congruence.
  - done.
Qed.

Definition unseen (ks : list jstr) (p : progress) (c : collection) : Prop :=
  forall k r m, k ∈ ks -> obj_lookup k (_byId c) = Some r -> heap c !! r = Some m -> cid m ∉ modelMap p.

Lemma set_item_ok p c L a :
  indexed L c -> resource a (key a) -> parse a = Ok (VObj a) -> (c_merge o = true \/ obj_lookup (key a) (_byId c) = None) -> unseen [key a] p c ->
  exists r new old m c' es,
    set_item parse o (Raw a) p c = Ok (Ref r, Progress (p_set p ++ [r]) (p_add p ++ new) (p_merge p ++ old) (modelMap p ++ [cid m]), c', es) /\
    heap c' !! r = Some m /\ placed L a c r new c'.
Proof.
  intros H Ha Hparse Hmerge Hseen. destruct (obj_lookup (key a) (_byId c)) as [r|] eqn:Hf.
  - destruct Hmerge as [Hmerge | ?]; [|done]. pose proof Ha as (_ & _ & Hp & _).
    pose proof Hf as Hf'. apply (found_id L c _ _ H Hp) in Hf' as (Hr & m & Hm & _).
    destruct (set_item_known p c L a r m H Ha Hparse Hmerge Hf Hm) as (c' & es & H1 & H2); [by apply (Hseen (key a) r m); [left|..]|].
    destruct (placed_known _ _ _ _ _ _ H2 r Hf) as (_ & _ & E). destruct (placed_holds _ _ _ _ _ _ H2) as (m' & Hm' & _).
    rewrite Hm', Hm in E. injection E as E. exists r, [], [r], m', c', es. rewrite E. done.
  - destruct (set_item_new p c L a H Ha Hf) as (m & c' & H1 & H2 & H3). exists (length (heap c)), [length (heap c)], [], m, c', []. done.
Qed.

(** The models of the collection that the resources [rs] are set on are [refs]. *)
Record set_on (L : list nat) (rs : list object) (c : collection) (refs new : list nat) (c' : collection) : Prop := {
  set_on_indexed : indexed (L ++ new) c';
  set_on_holds : Forall2 (holds c') refs rs;
  set_on_others : forall r, r ∉ refs -> heap c' !! r = heap c !! r;
  set_on_models : models c' = models c /\ length_ c' = length_ c;
  set_on_old : forall r m k, r ∈ L -> heap c !! r = Some m -> id_of m = VStr k -> (r ∈ refs <-> k ∈ map key rs);
  set_on_new : forall r, r ∈ refs -> r ∈ L \/ r ∈ new;
  set_on_sub : forall r, r ∈ new -> r ∈ refs;
  set_on_fresh : (forall k, k ∈ map key rs -> obj_lookup k (_byId c) = None) -> new = refs;
  set_on_cids : forall r m, heap c !! r = Some m -> exists m', heap c' !! r = Some m' /\ cid m' = cid m
}.

Lemma placed_old L a c r new c' k e :
  indexed L c -> resource a (key a) -> placed L a c r new c' -> proper_text k -> k <> key a ->
  obj_lookup k (_byId c') = Some e -> e <> r /\ obj_lookup k (_byId c) = Some e.
Proof.
  intros H Ha Hpl Hk Hne He. destruct (placed_holds _ _ _ _ _ _ Hpl) as (m & Hm & Hi & _).
  apply (found_id (L ++ new) c' k e (placed_indexed _ _ _ _ _ _ Hpl) Hk) in He as (Hr & m1 & Hm1 & Hi1).
  assert (Her : e <> r) by (intros ->; simplify_eq; congruence). split; [done|].
  apply (found_id L c k e H Hk). rewrite (placed_others _ _ _ _ _ _ Hpl e Her) in Hm1. split; [|by exists m1].
  apply elem_of_app in Hr as [Hr | Hr]; [done|]. destruct (obj_lookup (key a) (_byId c)) as [e'|] eqn:E.
  - destruct (placed_known _ _ _ _ _ _ Hpl e' E) as (_ & -> & _). by apply list.not_elem_of_nil in Hr.
  - destruct (placed_new _ _ _ _ _ _ Hpl E) as (_ & ->). by apply list_elem_of_singleton in Hr.
Qed.

Lemma placed_cids L a c r new c' : placed L a c r new c' -> forall r' m, heap c !! r' = Some m -> exists m', heap c' !! r' = Some m' /\ cid m' = cid m.
Proof.
  intros H r' m Hm. destruct (decide (r' = r)) as [-> | Hne]; [|exists m; by rewrite (placed_others _ _ _ _ _ _ H)].
  destruct (obj_lookup (key a) (_byId c)) as [e|] eqn:E.
  - destruct (placed_known _ _ _ _ _ _ H e E) as (_ & _ & Hc). rewrite Hm in Hc. destruct (heap c' !! r) as [m'|]; [|done]. injection Hc as Hc. by exists m'.
  - destruct (placed_new _ _ _ _ _ _ H E) as [-> _]. apply lookup_lt_Some in Hm. lia.
Qed.

(** One resource after another, with different ids. *)
Lemma set_on_cons L a rs c r new c1 refs new' c' :
  indexed L c -> resource a (key a) -> Forall (fun a => resource a (key a)) rs -> key a ∉ map key rs ->
  placed L a c r new c1 -> set_on (L ++ new) rs c1 refs new' c' -> set_on L (a :: rs) c (r :: refs) (new ++ new') c'.
Proof.
  intros H Ha Hrs Hne Hpl Hon. pose proof Hpl as [P1 P2 P3 P4 P5 P6]. pose proof Hon as [S1 S2 S3 S4 S5 S6 S6' S7 S8].
  assert (Hin : r ∈ L ++ new).
  { destruct (obj_lookup (key a) (_byId c)) as [e|] eqn:E; [|destruct (P6 eq_refl) as [-> ->]; apply elem_of_snoc; by right].
    destruct (P5 e eq_refl) as (-> & -> & _). rewrite app_nil_r. apply (indexed_byId L c H) in E as [E _]. done. }
  destruct P2 as (m & Hm & Hi & Hget).
  assert (Hout : r ∉ refs) by (intros Hr; apply (S5 r m (key a)) in Hr; done).
  split.
  - by rewrite app_assoc.
  - constructor; [|done]. exists m. by rewrite (S3 r Hout).
  - intros r' [Hr1 Hr2]%not_elem_of_cons. rewrite S3 by done. by apply P3.
  - destruct P4, S4. split; congruence.
  - intros r' m' k Hr' Hm' Hk. cbn [map]. rewrite !elem_of_cons. destruct (indexed_valid L c H r' Hr') as (m0 & Hm0 & Hpr). simplify_eq.
    rewrite Hk in Hpr. destruct (decide (r' = r)) as [-> | Hrr].
    + split; [|by left]. intros _. left. destruct (obj_lookup (key a) (_byId c)) as [e|] eqn:E.
      * destruct (P5 e eq_refl) as (<- & _ & _). pose proof Ha as (_ & _ & Hpa & _).
        apply (found_id L c _ _ H Hpa) in E as (_ & m1 & Hm1 & Hi1). simplify_eq. congruence.
      * destruct (P6 eq_refl) as [-> _]. apply lookup_lt_Some in Hm'. lia.
    + assert (Hk' : k <> key a).
      { intros ->. assert (E : obj_lookup (key a) (_byId c) = Some r') by (apply (found_id L c _ _ H Hpr); split; [done | by exists m']).
        by destruct (P5 r' E) as [? _]. }
      assert (Hm1 : heap c1 !! r' = Some m') by (by rewrite P3).
      pose proof (S5 r' m' k (proj2 (elem_of_app _ _ _) (or_introl Hr')) Hm1 Hk) as Hiff. tauto.
  - intros r' [-> | Hr']%elem_of_cons; rewrite elem_of_app in *; [tauto|]. destruct (S6 r' Hr') as [Hl | Hl]; [apply elem_of_app in Hl|]; tauto.
  - intros r' [Hr' | Hr']%elem_of_app; [|right; by apply S6']. destruct (obj_lookup (key a) (_byId c)) as [e|].
    + destruct (P5 e eq_refl) as (_ & -> & _). by apply list.not_elem_of_nil in Hr'.
    + destruct (P6 eq_refl) as [_ ->]. apply list_elem_of_singleton in Hr' as ->. left.
  - intros Hf. cbn [map] in Hf. destruct (P6 (Hf _ (list_elem_of_here _ _))) as [_ ->]. cbn [app]. f_equal. apply S7. intros k Hk.
    destruct (obj_lookup k (_byId c1)) as [e|] eqn:E; [|done]. exfalso. apply list_elem_of_fmap in Hk as (x & -> & Hx).
    rewrite Forall_elem in Hrs. destruct (Hrs x Hx) as (_ & _ & Hpx & _).
    destruct (placed_old L a c r [r] c1 (key x) e H Ha Hpl Hpx) as [_ E']; [|done|].
    + intros E'. apply Hne. rewrite <- E'. apply list_elem_of_fmap. by exists x.
    + rewrite Hf in E'; [done|]. apply list_elem_of_further, list_elem_of_fmap. by exists x.
  - intros r' m' Hm'. destruct (placed_cids _ _ _ _ _ _ Hpl r' m' Hm') as (m1 & Hm1 & E1). destruct (S8 r' m1 Hm1) as (m2 & Hm2 & E2).
    exists m2. split; [done | congruence].
Qed.

Lemma set_items_ok rs : forall p c L,
  indexed L c -> Forall (fun a => resource a (key a)) rs -> NoDup (map key rs) -> (forall a, a ∈ rs -> parse a = Ok (VObj a)) ->
  (c_merge o = true \/ forall k, k ∈ map key rs -> obj_lookup k (_byId c) = None) -> unseen (map key rs) p c ->
  exists refs new old cids c' es,
    set_items parse o (map Raw rs) p c = Ok (map Ref refs, Progress (p_set p ++ refs) (p_add p ++ new) (p_merge p ++ old) (modelMap p ++ cids), c', es) /\
    set_on L rs c refs new c' /\ Forall2 (fun r k => exists m, heap c' !! r = Some m /\ cid m = k) refs cids.
Proof.
  induction rs as [|a rs IH]; intros p c L H Hrs Hnd Hparse Hmerge Hseen; cbn [map set_items].
  - exists [], [], [], [], c, []. rewrite !app_nil_r. split; [by destruct p|]. split; [|constructor].
    split; try done; [by rewrite app_nil_r | intros r m k _ _ _; cbn; split; intros E; by apply list.not_elem_of_nil in E | intros r Hr; by apply list.not_elem_of_nil in Hr | eauto].
  - apply Forall_cons_iff in Hrs as [Ha Hrs]. cbn [map] in Hnd. apply list.NoDup_cons in Hnd as [Hne Hnd].
    assert (Hpa : parse a = Ok (VObj a)) by (apply Hparse; left).
    destruct (set_item_ok p c L a H Ha Hpa) as (r & new & old & m & c1 & es & H1 & Hm & Hpl).
    { destruct Hmerge as [?|Hm]; [by left | right; apply Hm; left]. }
    { intros k r m ->%list_elem_of_singleton. apply Hseen. left. }
    rewrite H1. cbn [res_bind].
    assert (Hprop : forall k, k ∈ map key rs -> proper_text k /\ k <> key a).
    { intros k Hk. split; [|by intros ->]. apply list_elem_of_fmap in Hk as (x & -> & Hx). rewrite Forall_elem in Hrs. by destruct (Hrs x Hx) as (_ & _ & ? & _). }
    destruct (IH (Progress (p_set p ++ [r]) (p_add p ++ new) (p_merge p ++ old) (modelMap p ++ [cid m])) c1 (L ++ new))
      as (refs & new' & old' & cids & c' & es' & H2 & Hon & Hc); [by eapply placed_indexed | done | done | | | |].
    { intros x Hx. apply Hparse. by right. }
    { destruct Hmerge as [?|Hf]; [by left | right]. intros k Hk. destruct (Hprop k Hk) as [Hp1 Hp2]. destruct (obj_lookup k (_byId c1)) as [e|] eqn:E; [|done].
      destruct (placed_old L a c r new c1 k e H Ha Hpl Hp1 Hp2 E) as [_ E']. rewrite Hf in E'; [done | by right]. }
    { intros k e m1 Hk He Hm1. destruct (Hprop k Hk) as [Hp1 Hp2]. destruct (placed_old L a c r new c1 k e H Ha Hpl Hp1 Hp2 He) as [Her He'].
      pose proof Hm1 as Hm1'. rewrite (placed_others _ _ _ _ _ _ Hpl e Her) in Hm1'. cbn [modelMap]. intros [Hin | Hin]%elem_of_snoc.
      - by apply (Hseen k e m1); [right|..].
      - apply Her. by apply (sound_cids c1 (indexed_sound _ _ (placed_indexed _ _ _ _ _ _ Hpl)) e r m1 m). }
    rewrite H2. cbn [res_bind p_set p_add p_merge modelMap]. exists (r :: refs), (new ++ new'), (old ++ old'), (cid m :: cids), c', (es ++ es').
    rewrite <- !app_assoc. split; [done|]. split; [by eapply set_on_cons|]. constructor; [|done].
    destruct (set_on_cids _ _ _ _ _ _ Hon r m Hm) as (m' & Hm' & E). by exists m'.
Qed.
End Setting.

(** ** The models that are not there any more *)

Definition without (R l : list nat) : list nat := List.filter (fun x => negb (existsb (Nat.eqb x) R)) l.

Lemma existsb_nat x l : existsb (Nat.eqb x) l = true <-> x ∈ l.
Proof. rewrite existsb_exists, list_elem_of_In. split; [intros (y & Hy & E%Nat.eqb_eq); by subst | intros H; exists x; split; [done | apply Nat.eqb_refl]]. Qed.

Lemma without_elem x R l : x ∈ without R l <-> x ∈ l /\ x ∉ R.
Proof. unfold without. rewrite !list_elem_of_In, filter_In, negb_true_iff, <- not_true_iff_false, existsb_nat, list_elem_of_In. done. Qed.

Lemma without_nil l : without [] l = l.
Proof. unfold without. induction l as [|x l IH]; cbn in *; [done | by rewrite IH]. Qed.

Lemma without_cons r R l : without (r :: R) l = without R (others r l).
Proof.
  unfold without, others. induction l as [|x l IH]; [done|]. cbn in IH |- *. destruct (Nat.eqb x r) eqn:E; cbn; [done|].
  destruct (existsb _ R); cbn; [done | by rewrite IH].
Qed.

Lemma without_NoDup R l : NoDup l -> NoDup (without R l).
Proof. intros H. by apply NoDup_ListNoDup, NoDup_filter, NoDup_ListNoDup. Qed.

Lemma others_absent r l : r ∉ l -> others r l = l.
Proof.
  induction l as [|x l IH]; [done|]. intros [Hne Hl]%not_elem_of_cons. unfold others in *. cbn. rewrite (proj2 (Nat.eqb_neq x r)) by done. cbn. by rewrite IH.
Qed.

Lemma splice_out_NoDup r l : NoDup l -> r ∈ l -> splice_out r l = others r l.
Proof.
  intros Hnd Hr. unfold splice_out. rewrite (proj2 (existsb_nat r l) Hr). induction Hnd as [|x l Hx Hnd IH]; [by apply list.not_elem_of_nil in Hr|].
  cbn [remove_first]. destruct (Nat.eqb_spec x r) as [-> | Hne].
  - unfold others. cbn. rewrite Nat.eqb_refl. cbn. symmetry. by apply others_absent.
  - apply elem_of_cons in Hr as [? | Hr]; [done|]. unfold others in *. cbn. rewrite (proj2 (Nat.eqb_neq x r)) by done. cbn. by rewrite IH.
Qed.

Lemma remove_models R silent : forall L c,
  indexed L c -> NoDup (models c) -> NoDup R -> (forall r, r ∈ R -> r ∈ L /\ r ∈ models c) ->
  exists c' es, _removeModels (map Ref R) silent c = Ok (R, c', es) /\ indexed (without R L) c' /\ heap c' = heap c /\
    models c' = without R (models c) /\ length_ c' = length_ c - zlen R.
Proof.
  induction R as [|r R IH]; intros L c H Hnd HR Hin; cbn [map _removeModels].
  - exists c, []. rewrite !without_nil.
    change (zlen []) with 0. by rewrite Z.sub_0_r.
  - apply list.NoDup_cons in HR as [Hr HR]. destruct (Hin r (list_elem_of_here _ _)) as [HrL Hrm].
    rewrite (get_ref L c r H HrL). cbn [res_bind]. rewrite splice_out_NoDup by done.
    destruct (drop_reference L _ r (indexed_with_models L c (others r (models c)) (length_ c - 1) H) HrL) as (c1 & c2 & H1 & _ & H2 & Hix & Fh & Fm & Fl & _).
    rewrite H1. cbn [res_bind]. rewrite H2. cbn [res_bind].
    destruct (IH (others r L) c2 Hix) as (c' & es & H3 & Hix' & Fh' & Fm' & Fl').
    + rewrite Fm. cbn [models with_models]. by apply NoDup_ListNoDup, NoDup_filter, NoDup_ListNoDup.
    + done.
    + intros r' Hr'. destruct (Hin r' (list_elem_of_further _ _ _ Hr')) as [? ?]. rewrite Fm. cbn [models with_models]. rewrite !others_elem.
      assert (r' <> r) by (intros ->; done). done.
    + rewrite H3. cbn [res_bind]. eexists _, _. split; [done|]. rewrite !without_cons. split; [done|].
      rewrite Fh', Fm', Fl', Fh, Fm, Fl. cbn [heap models length_ with_models]. rewrite zlen_cons. repeat split; try done. lia.
Qed.

Lemma indexed_ext L L' c : indexed L c -> NoDup L' -> (forall r, r ∈ L' <-> r ∈ L) -> indexed L' c.
Proof.
  intros [H1 H2 H3 H4 H5] Hnd Heq. split; [done | done | | |].
  - intros r Hr%Heq. by apply H3.
  - intros k r. by rewrite H4, Heq.
  - intros r. rewrite H5. by rewrite (bool_decide_ext (r ∈ L) (r ∈ L')).
Qed.

(** A collection between two operations. *)
Record wf (c : collection) : Prop := {
  wf_indexed : indexed (models c) c;
  wf_length : length_ c = zlen (models c)
}.

Lemma refs_NoDup c refs rs : Forall2 (holds c) refs rs -> NoDup (map key rs) -> NoDup refs.
Proof.
  induction 1 as [|r a refs rs Hr Hrs IH]; cbn [map]; [constructor|]. intros [Hn Hnd]%list.NoDup_cons. apply list.NoDup_cons. split; [|by apply IH].
  intros Hin. apply Hn. destruct Hr as (m & Hm & Hi & _). apply list_elem_of_lookup in Hin as [i Hi'].
  destruct (Forall2_lookup_l _ _ _ _ _ Hrs Hi') as (a' & Ha' & m' & Hm' & Hi2 & _). simplify_eq. rewrite Hi in Hi2. injection Hi2 as ->.
  apply list_elem_of_fmap. exists a'. split; [done|]. by eapply list_elem_of_lookup_2.
Qed.

Lemma stale_ok p c refs :
  (forall r, r ∈ models c -> exists m, heap c !! r = Some m /\ (cid m ∈ modelMap p <-> r ∈ refs)) -> stale p c = Ok (without refs (models c)).
Proof.
  intros H. unfold stale. rewrite (res_map_pure _ (fun r => (r, negb (existsb (Nat.eqb r) refs)))).
  - cbn [res_bind]. f_equal. clear H. unfold without. induction (models c) as [|r l IH]; cbn; [done|]. destruct (existsb _ refs); cbn; [done | by rewrite IH].
  - intros r Hr. destruct (H r Hr) as (m & Hm & Hiff). rewrite (proj2 (deref_ok r c m) Hm). cbn [res_bind]. do 3 f_equal.
    apply eq_true_iff_eq. by rewrite existsb_streq, existsb_nat.
Qed.

Definition resources (rs : list object) : Prop := Forall (fun a => resource a (key a)) rs /\ NoDup (map key rs).

(** The collection shows the resources [rs], in their order. *)
Definition shows (c : collection) (rs : list object) : Prop := wf c /\ Forall2 (holds c) (models c) rs.

Lemma Forall2_frame c c' refs rs : heap c' = heap c -> Forall2 (holds c) refs rs -> Forall2 (holds c') refs rs.
Proof. intros E. apply Forall2_impl. intros r a (m & Hm & Hi). exists m. by rewrite E. Qed.

(** [set] as [fetch] calls it. *)
Lemma set_reconciles parse o rs c :
  wf c -> resources rs -> (forall a, a ∈ rs -> parse a = Ok (VObj a)) -> c_add o = true -> c_merge o = true -> c_remove o = true ->
  exists l c' es, set parse (map Raw rs) o c = Ok (l, c', es) /\ shows c' rs /\
    (forall r m k, r ∈ models c -> heap c !! r = Some m -> id_of m = VStr k -> (r ∈ models c' <-> k ∈ map key rs)) /\
    (forall r m, heap c !! r = Some m -> exists m', heap c' !! r = Some m' /\ cid m' = cid m).
Proof.
  intros [H Hlen] [Hrs Hnd] Hparse Hadd Hmerge Hremove. unfold set.
  destruct (set_items_ok parse o Hadd rs (Progress [] [] [] []) c (models c) H Hrs Hnd Hparse (or_introl Hmerge))
    as (refs & new & old & cids & c1 & es & H1 & Hon & Hc).
  { intros k r m _ _ _ E. by apply list.not_elem_of_nil in E. }
  rewrite H1. cbn [res_bind p_set p_add p_merge modelMap app]. rewrite Hremove, Hadd. pose proof Hon as [S1 S2 S3 [S4 S4'] S5 S6 S6' S7 S8].
  pose proof (refs_NoDup _ _ _ S2 Hnd) as Hrefs. pose proof (indexed_sound _ _ S1) as Hs.
  rewrite (stale_ok _ c1 refs).
  2: { intros r Hr. rewrite S4 in Hr. destruct (indexed_valid _ _ S1 r (proj2 (elem_of_app _ _ _) (or_introl Hr))) as (m & Hm & _). exists m. split; [done|].
       cbn [modelMap]. rewrite list_elem_of_lookup. split.
       - intros (i & Hi). destruct (Forall2_lookup_r _ _ _ _ _ Hc Hi) as (r' & Hr' & m' & Hm' & E). rewrite (sound_cids c1 Hs r r' m m' Hm Hm' (eq_sym E)).
         by eapply list_elem_of_lookup_2.
       - intros [i Hi]%list_elem_of_lookup. destruct (Forall2_lookup_l _ _ _ _ _ Hc Hi) as (k & Hk & m' & Hm' & E). simplify_eq. eauto. }
  cbn [res_bind]. rewrite S4.
  assert (Hms : NoDup (models c)) by apply H.
  destruct (remove_models (without refs (models c)) (c_silent o) (models c ++ new) c1 S1) as (c2 & es2 & H2 & Hix & Fh & Fm & Fl);
    [by rewrite S4 | by apply without_NoDup | intros r [Hr _]%without_elem; rewrite S4, elem_of_app; tauto|].
  rewrite H2. cbn [res_bind].
  assert (Hel : forall r, r ∈ refs <-> r ∈ without (without refs (models c)) (models c ++ new)).
  { intros r. rewrite !without_elem, elem_of_app. specialize (S6 r). specialize (S6' r). destruct (decide (r ∈ refs)); [tauto|]. split; [tauto|].
    intros [[? | ?] Hn]; [|tauto]. destruct Hn. tauto. }
  assert (Hres : forall ms n, n = zlen ms -> ms = refs ->
    shows (with_models ms n c2) rs /\
    (forall r m k, r ∈ models c -> heap c !! r = Some m -> id_of m = VStr k -> (r ∈ ms <-> k ∈ map key rs)) /\
    (forall r m, heap c !! r = Some m -> exists m', heap c2 !! r = Some m' /\ cid m' = cid m)).
  { intros ms n -> ->. split; [split; [split; [|done]|]|].
    - apply indexed_with_models, (indexed_ext _ _ _ Hix Hrefs Hel).
    - cbn [models with_models]. apply (Forall2_frame c1); [exact Fh | exact S2].
    - split; [exact S5|]. intros r m Hm. rewrite Fh. by apply S8. }
  destruct refs as [|r0 refs'] eqn:Er; cbn [is_nil negb andb].
  - assert (Hn : new = []).
    { destruct new as [|x new']; [done|]. exfalso. apply (list.not_elem_of_nil x), S6'. left. }
    subst new. cbn [is_nil negb].
    assert (Hm0 : models c2 = []).
    { rewrite Fm, S4. apply elem_of_nil_inv. intros x [Hx Hx']%without_elem. apply Hx', without_elem. split; [done | apply list.not_elem_of_nil]. }
    eexists _, c2, _. split; [done|].
    assert (Hl0 : length_ c2 = 0).
    { rewrite Fl, S4', Hlen, without_nil. lia. }
    pose proof (Hres [] 0 eq_refl eq_refl) as Hr. rewrite Hm0.
    assert (E : with_models (models c2) (length_ c2) c2 = c2) by by destruct c2. rewrite Hm0, Hl0 in E. rewrite E in Hr. exact Hr.
  - eexists _, _, _. split; [done|]. exact (Hres _ _ eq_refl eq_refl).
Qed.

Lemma splice_end l l' : splice l l' (zlen l) = l ++ l'.
Proof.
  unfold splice. pose proof (zlen_nonneg l). replace (Z.min (Z.max (zlen l) 0) (zlen l)) with (zlen l) by lia.
  rewrite zslice_full, (zslice_empty l (zlen l) (zlen l)) by lia. by rewrite app_nil_r.
Qed.

(** [set] of new resources without a removal, at the end. *)
Lemma set_appends parse o rs c :
  wf c -> resources rs -> (forall a, a ∈ rs -> parse a = Ok (VObj a)) -> (forall k, k ∈ map key rs -> obj_lookup k (_byId c) = None) ->
  c_add o = true -> c_remove o = false -> c_at o = None ->
  exists l c' es refs, set parse (map Raw rs) o c = Ok (l, c', es) /\ wf c' /\ models c' = models c ++ refs /\ Forall2 (holds c') refs rs.
Proof.
  intros [H Hlen] [Hrs Hnd] Hparse Hfree Hadd Hremove Hat. unfold set. rewrite Hat.
  destruct (set_items_ok parse o Hadd rs (Progress [] [] [] []) c (models c) H Hrs Hnd Hparse (or_intror Hfree))
    as (refs & new & old & cids & c1 & es & H1 & Hon & Hc).
  { intros k r m _ _ _ E. by apply list.not_elem_of_nil in E. }
  rewrite H1. cbn [res_bind p_set p_add p_merge app fix_at]. rewrite Hremove, Hadd. cbn [res_bind map _removeModels andb]. rewrite andb_false_r.
  pose proof Hon as [S1 S2 S3 [S4 S4'] S5 S6 S6' S7 S8]. rewrite (S7 Hfree) in *. clear S7 new.
  destruct refs as [|r0 refs']; cbn [is_nil negb].
  - eexists _, c1, _, []. split; [done|]. rewrite app_nil_r in *. split; [split; [by rewrite S4 | congruence] | done].
  - eexists _, _, _, (r0 :: refs'). split; [done|]. cbn [default]. rewrite S4', Hlen, S4, splice_end. cbn [models with_models]. split; [split; [|done] | split; [done | exact S2]].
    cbn [models with_models]. by apply indexed_with_models.
Qed.

(** ** Every operation keeps the collection in order *)

Lemma or_find_some a b r : or_find a b = Ok (Some r) -> a = Ok (Some r) \/ b = Ok (Some r).
Proof. destruct a as [[x|]|e]; cbn; naive_solver. Qed.

Lemma lookup_id_sound L c v r : indexed L c -> lookup_id v c = Ok (Some r) -> r ∈ L.
Proof. unfold lookup_id. intros H (k & _ & [= E])%res_bind_ok. by apply (indexed_byId L c H) in E as [? _]. Qed.

Lemma get_sound L c i r : indexed L c -> get i c = Ok (Some r) -> r ∈ L.
Proof.
  intros H. pose proof (lookup_id_sound L c) as Hl. destruct i as [a|x]; cbn [get].
  - intros [E | [(k & _ & E)%res_bind_ok | E]%or_find_some]%or_find_some; [by eapply Hl | by eapply Hl|]. destruct (truthy _); [by eapply Hl | done].
  - intros (m & _ & E)%res_bind_ok. apply or_find_some in E as [E | [E | E]%or_find_some]; by eapply Hl.
Qed.

Lemma others_length r l : NoDup l -> r ∈ l -> zlen (others r l) = zlen l - 1.
Proof.
  induction 1 as [|x l Hx Hnd IH]; [by intros ?%list.not_elem_of_nil|]. intros Hr. unfold others. cbn [List.filter]. fold (others r l).
  destruct (Nat.eqb_spec x r) as [-> | Hne]; cbn [negb].
  - rewrite others_absent by done. rewrite zlen_cons. lia.
  - apply elem_of_cons in Hr as [? | Hr]; [done|]. rewrite !zlen_cons, IH by done. lia.
Qed.

Lemma removeModels_wf l silent : forall c removed c' es,
  wf c -> _removeModels l silent c = Ok (removed, c', es) ->
  wf c' /\ heap c' = heap c /\ forall r, r ∈ models c' <-> r ∈ models c /\ r ∉ removed.
Proof.
  induction l as [|i l IH]; intros c removed c' es Hwf; cbn [_removeModels].
  - intros [= <- <- <-]. split; [done|]. split; [done|]. intros r. pose proof (list.not_elem_of_nil r). tauto.
  - intros (o & Ho & H)%res_bind_ok. destruct o as [r|]; [|by apply IH in H]. destruct Hwf as [Hix Hlen].
    pose proof (get_sound _ _ _ _ Hix Ho) as Hr. rewrite splice_out_NoDup in H by (apply Hix || done).
    destruct (drop_reference _ _ r (indexed_with_models _ c (others r (models c)) (length_ c - 1) Hix) Hr) as (c1 & c2 & H1 & _ & H2 & Hix' & Fh & Fm & Fl & _).
    rewrite H1 in H. cbn [res_bind] in H. rewrite H2 in H. cbn [res_bind] in H. apply res_bind_ok in H as ([[rem c3] es'] & H & [= <- <- <-]).
    apply IH in H as (Hwf & Hh & Hel).
    + split; [done|]. split; [by rewrite Hh, Fh|]. intros r'. rewrite Hel, Fm. cbn [models with_models]. rewrite others_elem, elem_of_cons. tauto.
    + split; [by rewrite Fm|]. rewrite Fl, Fm. cbn [length_ models with_models]. rewrite others_length, Hlen by (apply Hix || done). done.
Qed.

Lemma remove_wf l silent c removed c' es :
  wf c -> remove l silent c = Ok (removed, c', es) -> wf c' /\ heap c' = heap c /\ forall r, r ∈ models c' <-> r ∈ models c /\ r ∉ removed.
Proof. intros H ([[rem c1] es1] & H1 & [= <- <- <-])%res_bind_ok. by apply removeModels_wf in H1. Qed.

Lemma on_destroy_wf n r : forall c c' es, wf c -> on_destroy n r c = Ok (c', es) -> wf c'.
Proof.
  induction n as [|n IH]; intros c c' es H; cbn [on_destroy]; [by intros [= <- <-]|].
  intros ([[rem c1] es1] & H1 & ([c2 es2] & H2 & [= <- <-])%res_bind_ok)%res_bind_ok. apply remove_wf in H1 as (H1 & _); [|done]. by eapply IH.
Qed.

Lemma remove_references_ok l : forall L c, indexed L c -> NoDup l -> (forall r, r ∈ l -> r ∈ L) ->
  exists c', remove_references l c = Ok c' /\ indexed (without l L) c' /\ frame c c'.
Proof.
  induction l as [|r l IH]; intros L c H Hnd Hin; cbn [remove_references].
  - exists c. rewrite without_nil. done.
  - apply list.NoDup_cons in Hnd as [Hr Hnd]. destruct (remove_reference L c r H) as (c1 & H1 & Hix & Hf); [apply Hin; left|].
    rewrite H1. cbn [res_bind]. destruct (IH (others r L) c1 Hix Hnd) as (c' & H2 & Hix' & Hf').
    + intros r' Hr'. apply others_elem. split; [apply Hin; by right | by intros ->].
    + exists c'. split; [done|]. rewrite without_cons. split; [done | by etransitivity].
Qed.

Lemma reset_ok parse rs silent c :
  wf c -> resources rs -> (forall a, a ∈ rs -> parse a = Ok (VObj a)) ->
  exists l c' es, reset parse (map Raw rs) silent c = Ok (l, c', es) /\ shows c' rs.
Proof.
  intros [H Hlen] Hrs Hparse. unfold reset.
  destruct (remove_references_ok (models c) (models c) c H (indexed_nodup _ _ H) (fun r Hr => Hr)) as (c1 & H1 & Hix & _). rewrite H1. cbn [res_bind].
  assert (E : without (models c) (models c) = []) by (apply elem_of_nil_inv; intros x [? ?]%without_elem; done). rewrite E in Hix.
  assert (Hwf : wf (_reset c1)).
  { split; [|done]. cbn [models _reset with_models]. apply indexed_with_models. destruct Hix as [I1 I2 I3 I4 I5]. split; [|done..| |done].
    - apply (sound_frame c1); [by repeat split | done].
    - intros k r. cbn [_byId with_byId]. pose proof (list.not_elem_of_nil r). cbn. split; [done | tauto]. }
  destruct (set_appends parse (CollOptions true false false true false None) rs (_reset c1) Hwf Hrs Hparse) as (l & c' & es & refs & H2 & Hwf' & Hm & Hh);
    try done. unfold add. cbn [c_merge c_silent c_parse c_at]. rewrite H2. cbn [res_bind].
  eexists _, _, _. split; [done|]. split; [done|]. rewrite Hm. exact Hh.
Qed.

(** A model that is not in the collection, and an answer for it. *)
Lemma get_ref_out L c r m :
  indexed L c -> r ∉ L -> heap c !! r = Some m -> proper_id (id_of m) ->
  get (Ref r) c = Ok (match id_of m with VStr k => obj_lookup k (_byId c) | _ => None end).
Proof.
  intros H Hr Hm Hp. cbn [get]. rewrite (proj2 (deref_ok r c m) Hm). cbn [res_bind].
  unfold lookup_id at 1. cbn [to_string res_bind]. rewrite (object_unindexed L c H). cbn [or_find res_bind].
  assert (Hc : lookup_id (VStr (cid m)) c = Ok None).
  { unfold lookup_id. cbn. f_equal. destruct (obj_lookup (cid m) (_byId c)) as [r'|] eqn:E; [|done]. exfalso. apply (indexed_byId L c H) in E as (Hr' & m' & Hm' & [Hn | Hn]).
    - apply Hr. by rewrite (sound_cids c (indexed_sound L c H) r r' m m' Hm Hm' Hn).
    - destruct (sound_cid c (indexed_sound L c H) r m Hm) as (n & _ & E). destruct (indexed_valid L c H r' Hr') as (m2 & Hm2 & Hp2). simplify_eq.
      rewrite Hn in Hp2. by destruct (proj1 Hp2 n). }
  rewrite Hc. fold (id_of m). destruct (is_nullish (id_of m)) eqn:E; [rewrite (nullish_unindexed L c _ H E); by destruct (id_of m)|].
  destruct (id_of m) as [| | | |k| | | | |]; try done. unfold lookup_id. cbn [to_string res_bind]. by destruct (obj_lookup k (_byId c)).
Qed.

(** [add(model)]: at the end, unless its id is there. *)
Lemma add_model_ok parse c r m :
  wf c -> heap c !! r = Some m -> proper_id (id_of m) ->
  exists i c' es, add parse [Ref r] add_options c = Ok ([Ref i], c', es) /\ wf c' /\ heap c' = heap c /\
    ((i ∈ models c /\ models c' = models c /\ id_of <$> heap c !! i = Some (id_of m) /\ (i = r \/ exists k, id_of m = VStr k)) \/ (i = r /\ r ∉ models c /\ models c' = models c ++ [r])).
Proof.
  intros [H Hlen] Hm Hp. unfold add, set, add_options. cbn [c_merge c_silent c_parse c_at c_add c_remove fix_at set_items andb].
  assert (Hget : (exists e me, get (Ref r) c = Ok (Some e) /\ e ∈ models c /\ heap c !! e = Some me /\ id_of me = id_of m /\ (e = r \/ exists k, id_of m = VStr k)) \/
                 (get (Ref r) c = Ok None /\ r ∉ models c /\ forall k, id_of m = VStr k -> obj_lookup k (_byId c) = None)).
  { destruct (decide (r ∈ models c)) as [Hr | Hr]; [left; exists r, m; split; [by apply (get_ref (models c)) | by repeat split; try left]|].
    rewrite (get_ref_out _ c r m H Hr Hm Hp). destruct (match id_of m with VStr k => _ | _ => _ end) as [e|] eqn:E; [left; exists e|right].
    - destruct (id_of m) as [| | | |k| | | | |]; try done. apply (found_id _ c k e H Hp) in E as (He & me & Hme & Hi). exists me. repeat split; try done. right. by exists k.
    - split; [done|]. split; [done|]. intros k Hk. by rewrite Hk in E. }
  destruct Hget as [(e & me & Hg & He & Hme & Hi & Hw) | (Hg & Hr & Hfree)]; unfold set_item; rewrite Hg; cbn [res_bind c_merge c_add andb].
  - rewrite (proj2 (deref_ok e c me) Hme). cbn [res_bind map _removeModels]. unfold p_seen. cbn [existsb modelMap p_set p_add p_merge app].
    rewrite andb_false_r. cbn [is_nil negb]. eexists e, c, _. split; [done|]. split; [by split|]. split; [done|]. left. rewrite Hme. cbn. by rewrite Hi.
  - cbn [_prepareModel res_bind]. set (c0 := if existsb (Nat.eqb r) (owned c) then c else _).
    assert (Hf0 : frame c c0) by (unfold c0; destruct (existsb _ _); [done | by repeat split]).
    assert (H0 : indexed (models c) c0) by (unfold c0; destruct (existsb _ _); [done | destruct H as [I1 I2 I3 I4 I5]; split; [by apply (sound_frame c)|done..]]).
    assert (Hb0 : _byId c0 = _byId c) by (unfold c0; by destruct (existsb _ _)). destruct Hf0 as (Fh0 & Fm0 & Fl0 & _).
    destruct (add_reference _ c0 r m H0 Hr) as (c1 & H1 & Hix & (Fh & Fm & Fl & _)); [by rewrite Fh0 | done | by rewrite Hb0|].
    rewrite H1. cbn [res_bind]. rewrite (proj2 (deref_ok r c1 m)) by (by rewrite Fh, Fh0). cbn [res_bind map _removeModels p_set p_add p_merge app is_nil negb andb].
    rewrite Fl, Fl0, Fm, Fm0, Hlen. cbn [default]. rewrite splice_end. eexists r, _, _. split; [done|]. split; [|split; [cbn; congruence | by right]].
    split; [|done]. cbn [models with_models]. by apply indexed_with_models.
Qed.

(** A model outside of the collection may be changed freely. *)
Lemma model_set_out c r m attrs o :
  wf c -> r ∉ models c -> heap c !! r = Some m -> NoDup (obj_keys attrs) -> unsets attrs o ->
  exists m' c', model_set r attrs o c = Ok (c', []) /\ wf c' /\ changes r m' c c' /\ sets m m' attrs /\ cid m' = cid m /\ tidy m attrs m'.
Proof.
  intros [H Hlen] Hr Hm Hnd Hun. unfold model_set. rewrite (proj2 (deref_ok r c m) Hm). cbn [res_bind].
  destruct (sound_rest c (indexed_sound _ c H) r m Hm) as [Hc Hpe].
  destruct (set_quiet 0 attrs o m Hnd Hc Hpe) as (m' & H1 & H2' & (Hc' & Hp' & Hcid & _) & Htidy). rewrite H1. cbn [res_bind].
  assert (H2 : sets m m' attrs) by (intros k; rewrite H2'; destruct (obj_lookup k attrs) as [v|] eqn:Ev; [by apply (unsets_value attrs o k) | done]). clear H2'.
  assert (Hd : forall es, deliver r es (put r m' c) = Ok (put r m' c, [])).
  { assert (Hb : bindings r (put r m' c) = 0%nat) by (change (bindings r (put r m' c)) with (bindings r c); rewrite (indexed_bound _ c H); by rewrite bool_decide_false).
    intros es. induction es as [|e es IH]; cbn [deliver]; [done|]. rewrite Hb. destruct e; cbn [on_change replicate res_bind]; by rewrite IH. }
  rewrite Hd. exists m', (put r m' c). split; [done|]. split; [|split; [by repeat split | split; [exact H2 | done]]]. split; [|done].
  assert (Hother : forall r' x, r' ∈ models c -> heap (put r m' c) !! r' = Some x <-> heap c !! r' = Some x).
  { intros r' x Hr'. rewrite (put_lookup r m' m) by done. destruct (Nat.eqb_spec r' r) as [-> | _]; done. }
  cbn [models put with_heap]. destruct H as [I1 I2 I3 I4 I5]. split; [by apply (sound_put r m' m) | done | | | done].
  - intros r' Hr'. destruct (I3 r' Hr') as (x & Hx & Hp). exists x. by rewrite Hother.
  - intros k r'. cbn [_byId put with_heap]. rewrite I4. split; intros (Hr' & x & Hx & Hn); (split; [done|]); exists x; (split; [|done]); by apply Hother.
Qed.

(** ** Properties *)

Section Client.
(** The names that the schema gives to one resource and to several. *)
Context (singular plural : jstr).

(** What happens to a collection: answers, removals, models that are created,
    destroyed and changed.  An id that changes is free and is not changed in
    silence. *)
Inductive step (c : collection) : collection -> Prop :=
| step_fetch resp rs c' es :
    get_prop resp plural = Ok (VArr (map VObj rs)) -> resources rs -> fetched singular plural resp c = Ok (c', es) -> step c c'
| step_reset rs silent l c' es :
    resources rs -> reset (resource_parse singular) (map Raw rs) silent c = Ok (l, c', es) -> step c c'
| step_remove l silent removed c' es : remove l silent c = Ok (removed, c', es) -> step c c'
| step_destroy r c' es : destroyed r c = Ok (c', es) -> step c c'
| step_new a r c' : NoDup (obj_keys a) -> _prepareModel (Raw a) c = Ok (r, c') -> step c c'
| step_add r m l c' es :
    heap c !! r = Some m -> proper_id (id_of m) -> add (resource_parse singular) [Ref r] add_options c = Ok (l, c', es) -> step c c'
| step_set r m attrs o c' es :
    heap c !! r = Some m -> NoDup (obj_keys attrs) -> unsets attrs o -> proper_id (new_id m attrs) ->
    (new_id m attrs = id_of m \/ (o_silent o = false /\ forall k, new_id m attrs = VStr k -> obj_lookup k (_byId c) = None)) ->
    model_set r attrs o c = Ok (c', es) -> step c c'.

Inductive reachable : collection -> Prop :=
| reachable_empty : reachable empty
| reachable_step c c' : reachable c -> step c c' -> reachable c'.

Lemma resource_parse_ok rs : resources rs -> forall a, a ∈ rs -> resource_parse singular a = Ok (VObj a).
Proof. intros [H _] a Ha. rewrite Forall_elem in H. destruct (H a Ha) as (_ & Hk & _). unfold resource_parse. by rewrite Hk. Qed.

Lemma fetched_ok resp rs c :
  wf c -> get_prop resp plural = Ok (VArr (map VObj rs)) -> resources rs ->
  exists c' es, fetched singular plural resp c = Ok (c', es) /\ shows c' rs /\
    (forall r m k, r ∈ models c -> heap c !! r = Some m -> id_of m = VStr k -> (r ∈ models c' <-> k ∈ map key rs)) /\
    (forall r m, heap c !! r = Some m -> exists m', heap c' !! r = Some m' /\ cid m' = cid m).
Proof.
  intros Hwf Hresp Hrs.
  destruct (set_reconciles (resource_parse singular) (CollOptions true true true false true None) rs c Hwf Hrs) as (l & c' & es & H1 & H2);
    [by apply resource_parse_ok | done..|].
  exists c', es. split; [|exact H2]. unfold fetched, answer_items. rewrite Hresp. cbn [res_bind truthy].
  rewrite (proj2 (res_map_ok _ (map VObj rs) (map Raw rs))); [cbn [res_bind]; by rewrite H1|].
  clear. induction rs; cbn; constructor; done.
Qed.

Lemma empty_wf : wf empty.
Proof.
  split; [|done]. split; [split; cbn; try done; try lia | constructor | | | done].
  - intros r Hr. by apply list.not_elem_of_nil in Hr.
  - intros k r. cbn. pose proof (list.not_elem_of_nil r). split; [done | tauto].
Qed.

(** One computation has one result. *)
Ltac results E E1 := rewrite E in E1; injection E1; intros; subst.

Lemma step_wf c c' : wf c -> step c c' -> wf c'.
Proof.
  intros H Hs. destruct Hs as [resp rs c' es Hr Hrs E | rs silent l c' es Hrs E | l silent removed c' es E | r c' es E | a r c' Ha E | r m l c' es Hm Hp E | r m attrs o c' es Hm Hnd Hun Hp Hid E].
  - destruct (fetched_ok resp rs c H Hr Hrs) as (c1 & es1 & E1 & [Hw _] & _). by results E E1.
  - destruct (reset_ok (resource_parse singular) rs silent c H Hrs) as (l1 & c1 & es1 & E1 & [Hw _]); [by apply resource_parse_ok|]. by results E E1.
  - by apply remove_wf in E as [? _].
  - by eapply on_destroy_wf.
  - destruct H as [H Hlen]. destruct (prepare_ok _ c a H Ha) as (m & c1 & E1 & Hix & _ & Hm & Hl & _). results E E1. split; [by rewrite Hm | congruence].
  - destruct (add_model_ok (resource_parse singular) c r m H Hm Hp) as (i & c1 & es1 & E1 & Hw & _). by results E E1.
  - destruct (decide (r ∈ models c)) as [Hr | Hr].
    + destruct H as [H Hlen]. destruct (model_set_ok _ c r m attrs o H Hr Hm Hnd Hun Hp Hid) as (m' & c1 & es1 & E1 & Hix & (_ & Hms & Hl & _) & _).
      results E E1. split; [by rewrite Hms | congruence].
    + destruct (model_set_out c r m attrs o H Hr Hm Hnd Hun) as (m' & c1 & E1 & Hw & _). by results E E1.
Qed.

Lemma reachable_wf c : reachable c -> wf c.
Proof. induction 1 as [|c c' _ IH Hs]; [apply empty_wf | by eapply step_wf]. Qed.

(** C28.  In any order of answers, removals, creations and changes, the list of a
    collection holds every model once, [length] is its length, every model of it
    is bound to the collection once and is found by itself, and an id leads to
    exactly the model of the list that has it: no two models share one. *)
Theorem collection_invariant c :
  reachable c ->
  NoDup (models c) /\ length_ c = zlen (models c) /\
  (forall r, r ∈ models c -> get (Ref r) c = Ok (Some r)) /\
  (forall r, bindings r c = if bool_decide (r ∈ models c) then 1%nat else 0%nat) /\
  (forall k r, proper_text k -> get_id k c = Ok (Some r) <-> r ∈ models c /\ exists m, heap c !! r = Some m /\ id_of m = VStr k).
Proof.
  intros [H Hlen]%reachable_wf. split; [apply H|]. split; [done|]. split; [intros r; by apply get_ref|]. split; [apply H|].
  intros k r Hk. rewrite <- (found_id _ c k r H Hk). unfold get_id. rewrite (nullish_unindexed _ c VUndef H) by done. unfold lookup_id. cbn [to_string res_bind or_find].
  destruct (obj_lookup k (_byId c)); naive_solver.
Qed.

(** C29.  An answer of the server is accepted, and afterwards the collection shows
    its resources in its order, each with the attributes of the answer; a model
    that was shown stays, as the same object, exactly when the answer still has
    its id. *)
Theorem fetch_reconciles c resp rs :
  reachable c -> get_prop resp plural = Ok (VArr (map VObj rs)) -> resources rs ->
  exists c' es, fetched singular plural resp c = Ok (c', es) /\
    Forall2 (holds c') (models c') rs /\
    (forall r m k, r ∈ models c -> heap c !! r = Some m -> id_of m = VStr k ->
       (r ∈ models c' <-> k ∈ map key rs) /\ exists m', heap c' !! r = Some m' /\ cid m' = cid m).
Proof.
  intros Hc%reachable_wf Hr Hrs. destruct (fetched_ok resp rs c Hc Hr Hrs) as (c' & es & H1 & [_ H2] & H3 & H4).
  exists c', es. split; [exact H1|]. split; [exact H2|]. intros r m k Hin Hm Hk. split; [by apply (H3 r m) | by apply H4].
Qed.
End Client.

(** ** The collection of the example *)

Definition demo_resource (id name : string) : object := [(u "id", VStr (u id)); (u "name", VStr (u name))].

Definition demo_first : list object := [demo_resource "n1" "a"; demo_resource "n2" "b"].

Definition demo_second : list object := [demo_resource "n3" "c"; demo_resource "n1" "d"].

Definition demo_resp (rs : list object) : value := VObj [(u "networks", VArr (map VObj rs))].

Definition demo_collection : collection :=
  match fetched (u "network") (u "networks") (demo_resp demo_first) empty with Ok (c, _) => c | Err _ => empty end.

Lemma demo_text k : (exists x l, k = 110 :: [x] ++ l /\ x <> 117) -> proper_text k.
Proof. intros (x & l & -> & Hx). split; [intros n; discriminate|]. split; [discriminate|]. split; [change (u "null") with [110; 117; 108; 108]; cbn [app]; congruence | discriminate]. Qed.

Lemma demo_resources id1 name1 id2 name2 :
  proper_text (u id1) -> proper_text (u id2) -> u id1 <> u id2 -> resources [demo_resource id1 name1; demo_resource id2 name2].
Proof.
  intros H1 H2 Hne.
  assert (Hr : forall id name, proper_text (u id) -> resource (demo_resource id name) (u id)).
  { intros id name H. split; [|done]. apply list.NoDup_cons. split; [|apply list.NoDup_singleton]. intros E%list_elem_of_singleton. discriminate E. }
  split; [constructor; [by apply Hr | constructor; [by apply Hr | constructor]]|].
  apply list.NoDup_cons. split; [|apply list.NoDup_singleton]. by intros E%list_elem_of_singleton.
Qed.

Lemma demo_first_ok : resources demo_first.
Proof. apply demo_resources; [| |discriminate]; apply demo_text; eexists _, _; (split; [reflexivity | discriminate]). Qed.

Lemma demo_second_ok : resources demo_second.
Proof. apply demo_resources; [| |discriminate]; apply demo_text; eexists _, _; (split; [reflexivity | discriminate]). Qed.

Lemma demo_reachable : reachable (u "network") (u "networks") demo_collection.
Proof.
  eapply reachable_step; [apply reachable_empty|].
  eapply (step_fetch _ _ _ (demo_resp demo_first) demo_first); [reflexivity | apply demo_first_ok | vm_compute; reflexivity].
Qed.

(** The collection after the first answer. *)
Lemma collection_invariant_witness :
  reachable (u "network") (u "networks") demo_collection /\ NoDup (models demo_collection) /\ length_ demo_collection = 2.
Proof.
  split; [exact demo_reachable|].
  destruct (collection_invariant (u "network") (u "networks") demo_collection demo_reachable) as (H1 & H2 & _).
  split; [exact H1|]. rewrite H2. vm_compute. reflexivity.
Defined.

(** The second answer. *)
Lemma fetch_reconciles_witness :
  exists c' es, fetched (u "network") (u "networks") (demo_resp demo_second) demo_collection = Ok (c', es) /\
    Forall2 (holds c') (models c') demo_second.
Proof.
  destruct (fetch_reconciles (u "network") (u "networks") demo_collection (demo_resp demo_second) demo_second demo_reachable eq_refl demo_second_ok)
    as (c' & es & H1 & H2 & _).
  exists c', es. split; [exact H1 | exact H2].
Defined.
