(* ===== verification/ResourceModel.v ===== *)
(** The resources of a schema (the class that [SchemaModel.makeModel] builds, 119)
    and Backbone's requests (113): saving, creating, destroying and fetching, as
    the synchronous part of each, the request that follows once the schema is
    filtered, and what its answer does. *)

From Stdlib Require Import ZArith Lia List String Bool.
From stdpp Require Import base list sets gmap list_numbers tactics.
From S2P Require Import Prelude JsNum Js Json SchemaModel SchemaForm Underscore BackboneModel BackboneCollection.

(** ** State

    The collection holds the heap of models; [urls] is the field [url] of a model
    once it was set, and [a_schema] the schema of the class, which filtering may
    change. *)

Record client := Client { coll : collection; urls : gmap nat jstr; a_schema : schema }.

Definition with_coll (c : collection) (s : client) : client := Client c (urls s) (a_schema s).

(** A request on its way to [Backbone.ajax]. *)
Record request := Request { r_type : jstr; r_url : jstr; r_data : option jstr }.

(** What [sync] has prepared when it calls [filterByAction]: its method, the
    attributes of its clone of the model, and the model. *)
Record sending := Sending { s_method : jstr; s_clone : object; s_model : nat }.

Definition isNew_key : jstr := u "isNew".

(** [isNew] of the client's models. *)
Definition isNew (m : model) : bool := truthy (m_get isNew_key m).

Section Client.
(** The related resources, as [toLocalSchema] fetches them; what the schema says:
    the URL of its resources, and its names. *)
Context (related : jstr -> promise (list value)) (baseUrl singular plural : jstr).

Definition url_of (r : nat) (s : client) : jstr := default baseUrl (urls s !! r).

(** [model.set], in the heap of the collection. *)
Definition set_ (r : nat) (attrs : object) (o : set_options) (s : client) : res client :=
  '(c, _) <-? model_set r attrs o (coll s); Ok (with_coll c s).

Definition get_model (r : nat) (s : client) : res model := deref r (coll s).

(** [this.attributes = attributes]. *)
Definition put_attributes (r : nat) (a : object) (s : client) : res client :=
  m <-? get_model r s; Ok (with_coll (put r (with_attributes a (changed m) m) (coll s)) s).

(** ** [sync] *)

(** [sync] up to its request, or to the call of [filterByAction]. *)
Definition sync (method : jstr) (r : nat) (s : client) : res (sending * client) :=
  m <-? get_model r s;
  s <-? (if isNew m then Ok s
         else i <-? to_string (m_id m); Ok (Client (coll s) (<[r := baseUrl ++ u "/" ++ i]> (urls s)) (a_schema s)));
  let method := if streq method (u "patch") then u "update" else method in
  s <-? set_ r [(isNew_key, VUndef)] (with_unset no_options) s;
  m <-? get_model r s;
  '(j, c) <-? _prepareModel (Raw (attributes m)) (coll s);
  clone <-? deref j c;
  Ok (Sending method (attributes clone) r, with_coll c s).

Definition methodMap (method : jstr) : jstr :=
  if streq method (u "create") then u "POST"
  else if streq method (u "update") then u "PUT"
  else if streq method (u "patch") then u "PATCH"
  else if streq method (u "delete") then u "DELETE" else u "GET".

(** [Backbone.sync], with the data it is given. *)
Definition backbone_sync (method : jstr) (r : nat) (data : option jstr) (s : client) : res request :=
  match url_of r s with
  | [] => Err (PlainError (u "A url property or function must be specified"))
  | url => Ok (Request (methodMap method) url data)
  end.

(** The body: the properties that the filtered schema has, of the clone. *)
Definition body (f : schema) (clone : object) : object :=
  fold_left (fun k kp => obj_set kp.1 (obj_get kp.1 clone) k) (default [] (s_properties f)) [].

(** What [sync] goes on with: a request to read at once, the others when
    [filterByAction] is fulfilled; [None] if it never is. *)
Definition send (x : sending) (s : client) : res (option request * client) :=
  if streq (s_method x) (u "read") then q <-? backbone_sync (s_method x) (s_model x) None s; Ok (Some q, s)
  else
    match filterByAction related (s_method x) None (a_schema s) with
    | Fulfilled (f, after) =>
        let s := Client (coll s) (urls s) after in
        data <-? stringify (VObj [(singular, VObj (body f (s_clone x)))]);
        q <-? backbone_sync (s_method x) (s_model x) data s;
        Ok (Some q, s)
    | _ => Ok (None, s)
    end.

(** ** [save] *)

(** [save(attrs, {wait})]; its options validate and parse. *)
Definition save (attrs : option object) (wait : bool) (r : nat) (s : client) : res (sending * client) :=
  let o := SetOptions false false true in
  s <-? match attrs, wait with Some a, false => set_ r a o s | _, _ => Ok s end;
  m <-? get_model r s;
  let original := attributes m in
  s <-? match attrs, wait with Some a, true => put_attributes r (extend2 original a) s | _, _ => Ok s end;
  m <-? get_model r s;
  '(x, s) <-? sync (if isNew m then u "create" else u "update") r s;
  m <-? get_model r s;
  s <-? put_attributes r match attrs, wait with Some _, true => original | _, _ => attributes m end s;
  Ok (x, s).

(** [parse] of an answer. *)
Definition parse_answer (resp : value) : res value :=
  i <-? get_prop resp idAttribute; match i with VUndef => get_prop resp singular | _ => Ok resp end.

(** [_.extend({}, attrs, serverAttrs)]. *)
Definition merge_answer (attrs : option object) (v : value) : res value :=
  let a := obj_assign [] (default [] attrs) in
  match v with
  | VObj b => Ok (VObj (obj_assign a b))
  | VUndef | VNull | VBool _ | VNum _ | VStr _ => Ok (VObj a)
  | _ => Err Unsupported
  end.

(** [serverAttrs && model.set(serverAttrs, options)]. *)
Definition set_answer (r : nat) (v : value) (s : client) : res client :=
  if truthy v then match v with VObj a => set_ r a (SetOptions false false true) s | _ => Err Unsupported end else Ok s.

(** The [success] of [save]. *)
Definition saved (attrs : option object) (wait : bool) (r : nat) (resp : value) (s : client) : res client :=
  v <-? parse_answer resp;
  v <-? (if wait then merge_answer attrs v else Ok v);
  set_answer r v s.

(** ** [fetch], [destroy], and [create] of the collection *)

Definition fetch (r : nat) (s : client) : res (sending * client) := sync (u "read") r s.

Definition fetched_model (r : nat) (resp : value) (s : client) : res client :=
  v <-? parse_answer resp;
  match v with VObj a => set_ r a (SetOptions false false false) s | VUndef | VNull => Ok s | _ => Err Unsupported end.

Definition destroy_event (r : nat) (s : client) : res client := '(c, _) <-? destroyed r (coll s); Ok (with_coll c s).

(** [destroy({wait})]: a new model is destroyed without a request. *)
Definition destroy (wait : bool) (r : nat) (s : client) : res (option sending * client) :=
  m <-? get_model r s;
  '(x, s) <-? (if isNew m then Ok (None, s) else '(x, s) <-? sync (u "delete") r s; Ok (Some x, s));
  s <-? (if wait then Ok s else destroy_event r s);
  Ok (x, s).

Definition destroy_done (wait : bool) (r : nat) (s : client) : res client := if wait then destroy_event r s else Ok s.

(** [collection.create(attrs, {wait})]. *)
Definition create (attrs : object) (wait : bool) (s : client) : res (nat * sending * client) :=
  '(r, c) <-? _prepareModel (Raw attrs) (coll s);
  c <-? (if wait then Ok c else '(_, c, _) <-? add (resource_parse singular) [Ref r] add_options c; Ok c);
  '(x, s) <-? save None wait r (with_coll c s);
  Ok (r, x, s).

Definition created (wait : bool) (r : nat) (resp : value) (s : client) : res client :=
  s <-? saved None wait r resp s;
  if wait then '(_, c, _) <-? add (resource_parse singular) [Ref r] add_options (coll s); Ok (with_coll c s) else Ok s.
End Client.

(** ** What the steps do to one model *)

(** A model in a collection in order, its field [id] that of its attributes. *)
Record steady (r : nat) (m : model) (s : client) : Prop := {
  steady_wf : wf (coll s);
  steady_heap : heap (coll s) !! r = Some m;
  steady_keys : NoDup (obj_keys (attributes m));
  steady_id : m_id m = id_of m;
  steady_proper : proper_id (id_of m)
}.

Lemma set_steady r m a o s :
  steady r m s -> NoDup (obj_keys a) -> unsets a o -> proper_id (new_id m a) -> (r ∈ models (coll s) -> new_id m a = id_of m) ->
  exists m' s', set_ r a o s = Ok s' /\ steady r m' s' /\ sets m m' a /\ urls s' = urls s /\
    models (coll s') = models (coll s) /\ a_schema s' = a_schema s /\ heap (coll s') = <[r := m']> (heap (coll s)).
Proof.
  intros [Hwf Hm Hnd Hid Hp] Ha Hun Hpn Hin. unfold set_.
  assert (H : exists m' c' es, model_set r a o (coll s) = Ok (c', es) /\ wf c' /\ changes r m' (coll s) c' /\ sets m m' a /\ tidy m a m').
  { destruct (decide (r ∈ models (coll s))) as [Hr | Hr].
    - destruct Hwf as [Hix Hlen]. destruct (model_set_ok _ (coll s) r m a o Hix Hr Hm Ha Hun Hpn) as (m' & c' & es & H1 & H2 & H3 & H4 & _ & H5); [left; by apply Hin|].
      exists m', c', es. split; [done|]. split; [|done]. destruct H3 as (_ & Hms & Hl & _). split; [by rewrite Hms | congruence].
    - destruct (model_set_out (coll s) r m a o Hwf Hr Hm Ha Hun) as (m' & c' & H1 & H2 & H3 & H4 & _ & H5). by exists m', c', []. }
  destruct H as (m' & c' & es & H1 & H2 & (Hh & Hms & _) & H4 & [H5 H6]). rewrite H1. cbn [res_bind].
  assert (Hi : id_of m' = new_id m a) by exact (H4 idAttribute).
  exists m', (with_coll c' s). split; [done|]. split; [|done]. split; cbn [coll with_coll]; [done | | by apply H6 | | by rewrite Hi].
  - rewrite Hh. apply list_lookup_insert_eq. by eapply lookup_lt_Some.
  - rewrite H5. unfold obj_has. destruct (obj_lookup idAttribute a) eqn:E; [done|]. rewrite Hid, Hi. unfold new_id. by rewrite E.
Qed.

Lemma put_steady r m a s :
  steady r m s -> NoDup (obj_keys a) -> modelId a = id_of m ->
  exists s', put_attributes r a s = Ok s' /\ steady r (with_attributes a (changed m) m) s' /\ urls s' = urls s /\
    models (coll s') = models (coll s) /\ a_schema s' = a_schema s /\ length (heap (coll s')) = length (heap (coll s)).
Proof.
  intros [Hwf Hm Hnd Hid Hp] Ha Hi. unfold put_attributes, get_model. rewrite (proj2 (deref_ok r (coll s) m) Hm). cbn [res_bind].
  eexists. split; [done|]. split; [|repeat split; cbn [heap coll with_coll put with_heap]; by rewrite ?length_insert].
  set (m' := with_attributes a (changed m) m). destruct Hwf as [Hix Hlen]. pose proof (indexed_sound _ _ Hix) as Hs.
  assert (Hi' : id_of m' = id_of m) by exact Hi.
  assert (Hput : forall r', heap (put r m' (coll s)) !! r' = if Nat.eqb r' r then Some m' else heap (coll s) !! r') by (intros r'; by apply (put_lookup r m' m)).
  split; cbn [coll with_coll]; [split; [|done] | by rewrite Hput, Nat.eqb_refl | done | by rewrite Hi' | by rewrite Hi'].
  cbn [models put with_heap]. destruct Hix as [I1 I2 I3 I4 I5]. split; [| done | | | done].
  - apply (sound_put r m' m); [done | done | done | exact (sound_rest _ Hs r m Hm)].
  - intros r' Hr'. rewrite Hput. destruct (Nat.eqb_spec r' r) as [-> | _]; [exists m'; by rewrite Hi' | by apply I3].
  - intros k r'. cbn [_byId put with_heap]. rewrite I4, Hput. destruct (Nat.eqb_spec r' r) as [-> | _]; [|done].
    assert (Hn : names m' k <-> names m k) by (unfold names; by rewrite Hi'). rewrite Hm.
    split; intros (Hr' & x & [= <-] & Hk); (split; [done|]); eexists; (split; [done|]); by apply Hn.
Qed.

Definition id_text (v : value) : jstr := match v with VStr k => k | VNull => u "null" | _ => u "undefined" end.

Lemma id_text_ok v : proper_id v -> to_string v = Ok (id_text v).
Proof. by destruct v. Qed.

Section Steps.
Context (baseUrl : jstr).

Lemma sync_steady method r m s :
  steady r m s -> streq method (u "patch") = false ->
  exists x s' m', sync baseUrl method r s = Ok (x, s') /\ steady r m' s' /\
    (forall p, m_get p m' = if streq p isNew_key then VUndef else m_get p m) /\
    (s_method x = method /\ s_model x = r /\ forall p, obj_get p (s_clone x) = m_get p m') /\
    urls s' = (if isNew m then urls s else <[r := baseUrl ++ u "/" ++ id_text (id_of m)]> (urls s)) /\
    models (coll s') = models (coll s) /\ a_schema s' = a_schema s /\ id_of m' = id_of m.
Proof.
  intros Hst Hpatch. unfold sync, get_model. pose proof Hst as [Hwf Hm Hnd Hid Hp].
  rewrite (proj2 (deref_ok r (coll s) m) Hm). cbn [res_bind].
  set (s1 := if isNew m then s else Client (coll s) (<[r := baseUrl ++ u "/" ++ id_text (id_of m)]> (urls s)) (a_schema s)).
  assert (E : (if isNew m then Ok s else i <-? to_string (m_id m); Ok (Client (coll s) (<[r := baseUrl ++ u "/" ++ i]> (urls s)) (a_schema s))) = Ok s1).
  { unfold s1. rewrite Hid, id_text_ok by done. by destruct (isNew m). }
  rewrite E. cbn [res_bind]. rewrite Hpatch.
  assert (Hst1 : steady r m s1) by (unfold s1; destruct (isNew m); [done | by split]).
  assert (Hni : new_id m [(isNew_key, VUndef)] = id_of m) by done.
  destruct (set_steady r m [(isNew_key, VUndef)] (with_unset no_options) s1 Hst1) as (m' & s2 & H1 & Hst2 & Hsets & Hu & Hms & Hsc & _);
    [apply list.NoDup_singleton | intros _; by repeat constructor | by rewrite Hni | done|].
  rewrite H1. cbn [res_bind]. pose proof Hst2 as [Hwf2 Hm2 Hnd2 Hid2 Hp2]. rewrite (proj2 (deref_ok r (coll s2) m') Hm2). cbn [res_bind].
  destruct Hwf2 as [Hix2 Hlen2].
  destruct (prepare_ok _ (coll s2) (attributes m') Hix2 Hnd2) as (j & c & H2 & Hix & Hh & Hmc & Hlc & _ & _ & Hget & _). rewrite H2. cbn [res_bind].
  rewrite (proj2 (deref_ok _ c j)) by (rewrite Hh; by apply list_lookup_middle). cbn [res_bind].
  eexists _, _, m'. split; [done|]. split; [split; cbn [coll with_coll]|].
  - split; [by rewrite Hmc | congruence].
  - rewrite Hh. by apply lookup_app_l_Some.
  - done.
  - done.
  - done.
  - split; [intros p; rewrite Hsets; cbn [obj_lookup]; by destruct (streq p isNew_key)|].
    split; [split; [done|]; split; [done | intros p; apply Hget]|]. cbn [urls a_schema coll with_coll]. rewrite Hu, Hsc, Hmc, Hms.
    split; [unfold s1; by destruct (isNew m)|]. split; [unfold s1; by destruct (isNew m)|]. split; [unfold s1; by destruct (isNew m)|].
    exact (Hsets idAttribute).
Qed.

(** [save] of new attributes that waits for the answer. *)
Lemma save_waits r m a s :
  steady r m s -> NoDup (obj_keys a) -> new_id m a = id_of m ->
  exists x s' m', save baseUrl (Some a) true r s = Ok (x, s') /\ steady r m' s' /\ attributes m' = attributes m /\
    let temp := with_attributes (extend2 (attributes m) a) (changed m) m in
    s_method x = (if isNew temp then u "create" else u "update") /\ s_model x = r /\
    (forall p, obj_get p (s_clone x) = if streq p isNew_key then VUndef else m_get p temp) /\
    urls s' = (if isNew temp then urls s else <[r := baseUrl ++ u "/" ++ id_text (id_of m)]> (urls s)) /\
    models (coll s') = models (coll s) /\ a_schema s' = a_schema s.
Proof.
  intros Hst Ha Hi. pose proof Hst as [Hwf Hm Hnd Hid Hp]. unfold save, get_model. cbn [res_bind]. rewrite (proj2 (deref_ok r (coll s) m) Hm). cbn [res_bind].
  assert (Hget : forall p, obj_get p (extend2 (attributes m) a) = match obj_lookup p a with Some v => v | None => m_get p m end).
  { intros p. unfold extend2, obj_get. rewrite obj_lookup_assign by done. destruct (obj_lookup p a); [done|]. rewrite obj_lookup_assign by done.
    unfold m_get, obj_get. by destruct (obj_lookup p (attributes m)). }
  destruct (put_steady r m (extend2 (attributes m) a) s Hst) as (s1 & H1 & Hst1 & Hu1 & Hms1 & Hsc1 & _).
  { unfold extend2. apply obj_assign_NoDup, obj_assign_NoDup. constructor. } { unfold modelId. by rewrite Hget. }
  rewrite H1. cbn [res_bind]. set (temp := with_attributes _ (changed m) m) in *.
  rewrite (proj2 (deref_ok r (coll s1) temp) (steady_heap _ _ _ Hst1)). cbn [res_bind].
  assert (Hit : id_of temp = id_of m) by (unfold id_of, modelId; change (attributes temp) with (extend2 (attributes m) a); by rewrite Hget).
  destruct (sync_steady (if isNew temp then u "create" else u "update") r temp s1 Hst1) as (x & s2 & m2 & H2 & Hst2 & Hg2 & (Hx1 & Hx2 & Hx3) & Hu2 & Hms2 & Hsc2 & Hi2);
    [by destruct (isNew temp)|].
  rewrite H2. cbn [res_bind]. rewrite (proj2 (deref_ok r (coll s2) m2) (steady_heap _ _ _ Hst2)). cbn [res_bind].
  destruct (put_steady r m2 (attributes m) s2 Hst2 Hnd) as (s3 & H3 & Hst3 & Hu3 & Hms3 & Hsc3 & _); [change (id_of m = id_of m2); congruence|].
  rewrite H3. cbn [res_bind]. eexists x, s3, _. split; [done|]. split; [exact Hst3|]. split; [done|]. cbn zeta.
  split; [done|]. split; [done|]. split; [intros p; by rewrite Hx3, Hg2|]. split; [by rewrite Hu3, Hu2, Hu1, Hit|]. split; congruence.
Qed.

(** [save] of a model as it is. *)
Lemma save_current r m wait s :
  steady r m s ->
  exists x s' m', save baseUrl None wait r s = Ok (x, s') /\ steady r m' s' /\
    (forall p, m_get p m' = if streq p isNew_key then VUndef else m_get p m) /\
    s_method x = (if isNew m then u "create" else u "update") /\ s_model x = r /\ (forall p, obj_get p (s_clone x) = m_get p m') /\
    urls s' = (if isNew m then urls s else <[r := baseUrl ++ u "/" ++ id_text (id_of m)]> (urls s)) /\
    models (coll s') = models (coll s) /\ a_schema s' = a_schema s /\ id_of m' = id_of m.
Proof.
  intros Hst. pose proof Hst as [Hwf Hm Hnd Hid Hp]. unfold save, get_model. cbn [res_bind].
  rewrite (proj2 (deref_ok r (coll s) m) Hm). cbn [res_bind].
  destruct (sync_steady (if isNew m then u "create" else u "update") r m s Hst) as (x & s2 & m2 & H2 & Hst2 & Hg2 & (Hx1 & Hx2 & Hx3) & Hu2 & Hms2 & Hsc2 & Hi2);
    [by destruct (isNew m)|].
  rewrite H2. cbn [res_bind]. rewrite (proj2 (deref_ok r (coll s2) m2) (steady_heap _ _ _ Hst2)). cbn [res_bind].
  destruct (put_steady r m2 (attributes m2) s2 Hst2 (steady_keys _ _ _ Hst2) eq_refl) as (s3 & H3 & Hst3 & Hu3 & Hms3 & Hsc3 & _).
  rewrite H3. cbn [res_bind]. assert (E : with_attributes (attributes m2) (changed m2) m2 = m2) by by destruct m2. rewrite E in Hst3.
  exists x, s3, m2. split; [done|]. split; [done|]. split; [done|]. split; [done|]. split; [done|]. split; [done|]. split; [congruence|]. split; [congruence|]. by split; [congruence|].
Qed.
End Steps.

Lemma body_get f clone p :
  obj_get p (body f clone) = if obj_has p (default [] (s_properties f)) then obj_get p clone else VUndef.
Proof.
  unfold body. set (g := fun (k : object) (kp : jstr * schema) => obj_set kp.1 (obj_get kp.1 clone) k).
  assert (H : forall l k, obj_get p (fold_left g l k) = if obj_has p l then obj_get p clone else obj_get p k).
  { induction l as [|x l IH]; intros k; cbn [fold_left]; [done|]. rewrite IH. unfold g, obj_has. rewrite obj_get_set. destruct x as [k' x]. cbn [obj_lookup fst].
    destruct (obj_lookup p l); [by destruct (streq p k')|]. destruct (streq p k') eqn:E; [|done]. apply streq_eq in E as ->. done. }
  by rewrite H.
Qed.

(** An answer that holds the attributes [b] under the name of the schema. *)
Definition answers (singular : jstr) (resp : value) (b : object) : Prop :=
  get_prop resp idAttribute = Ok VUndef /\ get_prop resp singular = Ok (VObj b) /\ NoDup (obj_keys b).

Definition merged (attrs : option object) (b : object) : object := obj_assign (obj_assign [] (default [] attrs)) b.

Lemma merged_lookup attrs b p :
  NoDup (obj_keys (default [] attrs)) -> NoDup (obj_keys b) ->
  obj_lookup p (merged attrs b) = match obj_lookup p b with Some v => Some v | None => obj_lookup p (default [] attrs) end.
Proof.
  intros Ha Hb. unfold merged. rewrite obj_lookup_assign by done. destruct (obj_lookup p b); [done|]. rewrite obj_lookup_assign by done.
  by destruct (obj_lookup p (default [] attrs)).
Qed.

Lemma saved_steady singular attrs r m resp b s :
  steady r m s -> NoDup (obj_keys (default [] attrs)) -> answers singular resp b ->
  proper_id (new_id m (merged attrs b)) -> (r ∈ models (coll s) -> new_id m (merged attrs b) = id_of m) ->
  exists m' s', saved singular attrs true r resp s = Ok s' /\ steady r m' s' /\ models (coll s') = models (coll s) /\ id_of m' = new_id m (merged attrs b) /\
    forall p, m_get p m' = match obj_lookup p b with Some v => v | None => match obj_lookup p (default [] attrs) with Some v => v | None => m_get p m end end.
Proof.
  intros Hst Ha (H1 & H2 & Hb) Hp Hin. unfold saved, parse_answer. rewrite H1. cbn [res_bind]. rewrite H2. cbn [res_bind merge_answer].
  fold (merged attrs b). unfold set_answer. cbn [truthy].
  destruct (set_steady r m (merged attrs b) (SetOptions false false true) s Hst) as (m' & s' & E & Hst' & Hsets & _ & Hms & _); try done.
  { unfold merged. apply obj_assign_NoDup, obj_assign_NoDup. constructor. }
  exists m', s'. split; [done|]. split; [done|]. split; [done|]. split; [exact (Hsets idAttribute)|]. intros p. rewrite Hsets, merged_lookup by done.
  by destruct (obj_lookup p b).
Qed.

Lemma send_ok related baseUrl singular x s f after data :
  streq (s_method x) (u "read") = false -> filterByAction related (s_method x) None (a_schema s) = Fulfilled (f, after) ->
  stringify (VObj [(singular, VObj (body f (s_clone x)))]) = Ok data -> url_of baseUrl (s_model x) s <> [] ->
  send related baseUrl singular x s
  = Ok (Some (Request (methodMap (s_method x)) (url_of baseUrl (s_model x) s) data), Client (coll s) (urls s) after).
Proof.
  intros Hr Hf Hd Hu. unfold send. rewrite Hr, Hf, Hd. cbn [res_bind]. unfold backbone_sync. change (url_of baseUrl (s_model x) (Client _ _ _)) with (url_of baseUrl (s_model x) s).
  by destruct (url_of baseUrl (s_model x) s).
Qed.

(** A model that is created, from attributes without an id. *)
Lemma new_steady a s :
  wf (coll s) -> NoDup (obj_keys a) -> modelId a = VUndef ->
  exists m c, _prepareModel (Raw a) (coll s) = Ok (length (heap (coll s)), c) /\ steady (length (heap (coll s))) m (with_coll c s) /\
    models c = models (coll s) /\ length (heap (coll s)) ∉ models c /\ id_of m = VUndef /\ forall p, m_get p m = obj_get p a.
Proof.
  intros [Hix Hlen] Ha Hi. destruct (prepare_ok _ (coll s) a Hix Ha) as (m & c & H1 & Hix1 & Hh & Hms & Hl & _ & Hid & Hget & Hmid & Hnd).
  exists m, c. split; [done|]. split; [split; cbn [coll with_coll]|].
  - split; [by rewrite Hms | congruence].
  - rewrite Hh. by apply list_lookup_middle.
  - done.
  - congruence.
  - by rewrite Hid, Hi.
  - split; [done|]. split; [|split; [by rewrite Hid | done]]. rewrite Hms. intros Hin. destruct (indexed_valid _ _ Hix _ Hin) as (m' & E & _).
    apply lookup_lt_Some in E. lia.
Qed.

(** ** Properties *)

Section Properties.
Context (related : jstr -> promise (list value)) (baseUrl singular : jstr).

(** C30.  Saving a resource that the server knows, as the forms do it, puts to its
    URL the properties that may be updated, with the new values over the old
    ones, and leaves the model as it is until the answer comes; then the model
    has the values of the answer, over the new ones, over the old ones. *)
Theorem update_cycle r m k a s f after :
  steady r m s -> id_of m = VStr k -> NoDup (obj_keys a) -> new_id m a = id_of m ->
  truthy (match obj_lookup isNew_key a with Some v => v | None => m_get isNew_key m end) = false ->
  filterByAction related (u "update") None (a_schema s) = Fulfilled (f, after) ->
  exists x s1 m1, save baseUrl (Some a) true r s = Ok (x, s1) /\
    (heap (coll s1) !! r = Some m1 /\ attributes m1 = attributes m) /\
    (forall p, p <> isNew_key ->
       obj_get p (body f (s_clone x)) = if obj_has p (default [] (s_properties f)) then match obj_lookup p a with Some v => v | None => m_get p m end else VUndef) /\
    (forall data, stringify (VObj [(singular, VObj (body f (s_clone x)))]) = Ok data ->
       exists s2, send related baseUrl singular x s1 = Ok (Some (Request (u "PUT") (baseUrl ++ u "/" ++ k) data), s2) /\ coll s2 = coll s1) /\
    (forall resp b, answers singular resp b -> new_id m (merged (Some a) b) = id_of m ->
       exists s3 m3, saved singular (Some a) true r resp s1 = Ok s3 /\ heap (coll s3) !! r = Some m3 /\
         forall p, m_get p m3 = match obj_lookup p b with Some v => v | None => match obj_lookup p a with Some v => v | None => m_get p m end end).
Proof.
  intros Hst Hk Ha Hi Hnew Hf. destruct (save_waits baseUrl r m a s Hst Ha Hi) as (x & s1 & m1 & H1 & Hst1 & Hm1 & Hx).
  set (temp := with_attributes (extend2 (attributes m) a) (changed m) m) in *. cbn zeta in Hx.
  assert (Hget : forall p, m_get p temp = match obj_lookup p a with Some v => v | None => m_get p m end).
  { intros p. unfold m_get, obj_get. change (attributes temp) with (extend2 (attributes m) a). unfold extend2. rewrite obj_lookup_assign by done.
    destruct (obj_lookup p a); [done|]. rewrite obj_lookup_assign by apply Hst. by destruct (obj_lookup p (attributes m)). }
  assert (E : isNew temp = false) by (unfold isNew; by rewrite Hget). rewrite E in Hx. destruct Hx as (Hx1 & Hx2 & Hx3 & Hu & Hms & Hsc).
  exists x, s1, m1. split; [done|]. split; [split; [apply Hst1 | done]|]. split; [|split].
  - intros p Hp. rewrite body_get, Hx3, Hget. apply streq_neq in Hp. by rewrite Hp.
  - intros data Hd.
    assert (Hurl : url_of baseUrl (s_model x) s1 = baseUrl ++ u "/" ++ k) by (unfold url_of; by rewrite Hu, Hx2, lookup_insert_eq, Hk).
    rewrite (send_ok related baseUrl singular x s1 f after data); [rewrite Hurl, Hx1; eexists; split; reflexivity | by rewrite Hx1 | by rewrite Hx1, Hsc | done|].
    rewrite Hurl. by destruct baseUrl.
  - intros resp b Hans Hib.
    assert (Hmb : new_id m1 (merged (Some a) b) = id_of m1) by (unfold new_id, id_of in *; by rewrite Hm1).
    destruct (saved_steady singular (Some a) r m1 resp b s1 Hst1 Ha Hans) as (m3 & s3 & H3 & Hst3 & _ & _ & Hg); [rewrite Hmb; apply Hst1 | done|].
    exists s3, m3. split; [done|]. split; [apply Hst3|]. intros p. rewrite Hg. cbn [default]. unfold m_get. by rewrite Hm1.
Qed.

(** C31.  Creating a resource, as the tables do it, posts the properties that may
    be created to the URL of the schema, and shows nothing until the answer
    comes; whatever happens to the collection in the meantime, the resource is
    then shown once: by the new model with the values of the answer, or, if a poll
    brought it before, by the model that it brought. *)
Theorem create_cycle a s f after :
  wf (coll s) -> NoDup (obj_keys a) -> modelId a = VUndef -> truthy (obj_get isNew_key a) = true -> urls s !! length (heap (coll s)) = None ->
  baseUrl <> [] -> filterByAction related (u "create") None (a_schema s) = Fulfilled (f, after) ->
  exists r x s1 m1, create baseUrl singular a true s = Ok (r, x, s1) /\
    (wf (coll s1) /\ heap (coll s1) !! r = Some m1 /\ r ∉ models (coll s1) /\ models (coll s1) = models (coll s)) /\
    (forall p, p <> isNew_key -> obj_get p (body f (s_clone x)) = if obj_has p (default [] (s_properties f)) then obj_get p a else VUndef) /\
    (forall data, stringify (VObj [(singular, VObj (body f (s_clone x)))]) = Ok data ->
       exists s2, send related baseUrl singular x s1 = Ok (Some (Request (u "POST") baseUrl data), s2) /\ coll s2 = coll s1) /\
    (forall resp b k s2, answers singular resp b -> obj_lookup idAttribute b = Some (VStr k) -> proper_text k ->
       wf (coll s2) -> heap (coll s2) !! r = Some m1 -> r ∉ models (coll s2) ->
       exists i s3 mi, created singular true r resp s2 = Ok s3 /\ wf (coll s3) /\ heap (coll s3) !! i = Some mi /\ id_of mi = VStr k /\ i ∈ models (coll s3) /\
         (models (coll s3) = models (coll s2) \/
          (i = r /\ models (coll s3) = models (coll s2) ++ [r] /\ forall p v, obj_lookup p b = Some v -> m_get p mi = v))).
Proof.
  intros Hwf Ha Hi Hnew Hurls Hbase Hf.
  destruct (new_steady a s Hwf Ha Hi) as (m & c & H1 & Hst & Hms & Hout & Hid & Hget). set (r := length (heap (coll s))) in *.
  assert (E : isNew m = true) by (unfold isNew; by rewrite Hget).
  destruct (save_current baseUrl r m true (with_coll c s) Hst) as (x & s1 & m1 & H2 & Hst1 & Hg1 & Hx1 & Hx2 & Hx3 & Hu & Hms1 & Hsc & Hid1).
  rewrite E in Hx1, Hu. cbn [coll with_coll urls a_schema] in Hms1, Hu, Hsc.
  exists r, x, s1, m1. split; [unfold create; rewrite H1; cbn [res_bind]; by rewrite H2|].
  split; [split; [apply Hst1 | split; [apply Hst1 | split; [by rewrite Hms1 | congruence]]]|]. split; [|split].
  - intros p Hp. rewrite body_get, Hx3, Hg1, Hget. apply streq_neq in Hp. by rewrite Hp.
  - intros data Hd. assert (Hurl : url_of baseUrl (s_model x) s1 = baseUrl) by (unfold url_of; by rewrite Hx2, Hu, Hurls).
    rewrite (send_ok related baseUrl singular x s1 f after data); [rewrite Hurl, Hx1; eexists; split; reflexivity | by rewrite Hx1 | by rewrite Hx1, Hsc | done | by rewrite Hurl].
  - intros resp b k s2 Hans Hk Hp Hwf2 Hm2 Hout2.
    assert (Hst2 : steady r m1 s2) by (split; [done | done | apply Hst1..]).
    assert (Hnd0 : NoDup (obj_keys (default [] (@None object)))) by constructor.
    assert (Hni : new_id m1 (merged None b) = VStr k) by (unfold new_id; rewrite merged_lookup by (done || apply Hans); by rewrite Hk).
    destruct (saved_steady singular None r m1 resp b s2 Hst2 Hnd0 Hans) as (m3 & s3 & H3 & Hst3 & Hms3 & Hi3 & Hg3); [by rewrite Hni | done|].
    rewrite Hni in Hi3. destruct (add_model_ok (resource_parse singular) (coll s3) r m3 (steady_wf _ _ _ Hst3) (steady_heap _ _ _ Hst3)) as (i & c' & es & H4 & Hwf4 & Hh4 & Hcase).
    { by rewrite Hi3. }
    assert (Hres : created singular true r resp s2 = Ok (with_coll c' s3)) by (unfold created; rewrite H3; cbn [res_bind]; by rewrite H4).
    destruct Hcase as [(Hin & Hm4 & Hi4 & _) | (-> & _ & Hm4)].
    + destruct (heap (coll s3) !! i) as [mi|] eqn:Emi; [|done]. injection Hi4 as Hi4. exists i, (with_coll c' s3), mi. cbn [coll with_coll].
      rewrite Hh4, Hm4. split; [done|]. split; [done|]. split; [done|]. split; [congruence|]. split; [done|]. by left.
    + exists r, (with_coll c' s3), m3. cbn [coll with_coll]. rewrite Hh4, Hm4. split; [done|]. split; [done|]. split; [apply Hst3|]. split; [done|].
      split; [apply elem_of_snoc; by right|]. right. split; [done|]. split; [by rewrite Hms3|]. intros p v Hv. by rewrite Hg3, Hv.
Qed.

(** A resource that is created without waiting is shown at once and no
    longer counts as new, whatever the server answers: if it refuses, the model
    stays, and saving it again puts to the URL of a resource [undefined]. *)
Theorem refused_create_stays a s a2 :
  wf (coll s) -> NoDup (obj_keys a) -> modelId a = VUndef -> truthy (obj_get isNew_key a) = true ->
  NoDup (obj_keys a2) -> obj_lookup idAttribute a2 = None -> obj_lookup isNew_key a2 = None ->
  exists r x s1 x2 s2, create baseUrl singular a false s = Ok (r, x, s1) /\ models (coll s1) = models (coll s) ++ [r] /\
    save baseUrl (Some a2) true r s1 = Ok (x2, s2) /\
    methodMap (s_method x2) = u "PUT" /\ url_of baseUrl r s2 = baseUrl ++ u "/undefined" /\ models (coll s2) = models (coll s) ++ [r].
Proof.
  intros Hwf Ha Hi Hnew Ha2 Hid2 Hnew2.
  destruct (new_steady a s Hwf Ha Hi) as (m & c & H1 & Hst & Hms & Hout & Hid & Hget). set (r := length (heap (coll s))) in *.
  pose proof Hst as [Hwf1 Hm1 Hnd1 Hmid1 Hp1]. cbn [coll with_coll] in Hwf1, Hm1.
  destruct (add_model_ok (resource_parse singular) c r m Hwf1 Hm1 Hp1) as (i & c1 & es & H2 & Hwf2 & Hh2 & Hcase).
  assert (Hc1 : i = r /\ models c1 = models c ++ [r]).
  { destruct Hcase as [(Hin & _ & _ & [-> | (k & Hk)]) | (-> & _ & ->)]; [done | congruence | done]. }
  destruct Hc1 as [-> Hms1].
  assert (Hst1 : steady r m (with_coll c1 s)) by (split; cbn [coll with_coll]; [done | by rewrite Hh2 | done..]).
  destruct (save_current baseUrl r m false (with_coll c1 s) Hst1) as (x & s1 & m1 & H3 & Hst2 & Hg2 & Hx1 & Hx2 & Hx3 & Hu & Hms2 & Hsc & Hid1).
  assert (Hni : new_id m1 a2 = id_of m1) by (unfold new_id; by rewrite Hid2).
  destruct (save_waits baseUrl r m1 a2 s1 Hst2 Ha2 Hni) as (x2 & s2 & m2 & H4 & Hst3 & Hm2 & Hy). cbn zeta in Hy.
  set (temp := with_attributes _ (changed m1) m1) in *.
  assert (E : isNew temp = false).
  { unfold isNew, m_get, obj_get. change (attributes temp) with (extend2 (attributes m1) a2). unfold extend2. rewrite obj_lookup_assign by done. rewrite Hnew2.
    rewrite obj_lookup_assign by apply Hst2. pose proof (Hg2 isNew_key) as Hg. rewrite streq_refl in Hg. unfold m_get, obj_get in Hg.
    destruct (obj_lookup isNew_key (attributes m1)); [cbn in Hg |- *; by subst | done]. }
  rewrite E in Hy. destruct Hy as (Hy1 & Hy2 & _ & Hyu & Hyms & _). cbn [coll with_coll] in Hms2.
  exists r, x, s1, x2, s2. split; [unfold create; rewrite H1; cbn [res_bind]; rewrite H2; cbn [res_bind]; by rewrite H3|].
  split; [congruence|]. split; [done|]. split; [by rewrite Hy1|]. split; [|congruence].
  unfold url_of. rewrite Hyu, lookup_insert_eq, Hid1, Hid. done.
Qed.
End Properties.

(** ** A network that is created, changed, and refused *)

Definition demo_related (relation : jstr) : promise (list value) := Pending.

Definition demo_schema : schema :=
  object_schema [(u "name", plain_schema (TyStr (u "string")) None); (u "mtu", plain_schema (TyStr (u "number")) None)].

Definition demo_filtered (action : jstr) : schema * schema :=
  match filterByAction demo_related action None demo_schema with Fulfilled p => p | _ => (demo_schema, demo_schema) end.

Definition demo_url : jstr := u "/v1/networks".

Definition demo_new : object := [(u "name", VStr (u "a")); (u "isNew", VBool true)].

Definition demo_known : object := [(u "id", VStr (u "n1")); (u "name", VStr (u "a")); (u "mtu", VNull)].

Definition demo_change : object := [(u "name", VStr (u "b"))].

Definition empty_client : client := Client empty ∅ demo_schema.

Definition known_client : client :=
  match _prepareModel (Raw demo_known) empty with Ok (_, c) => Client c ∅ demo_schema | Err _ => empty_client end.

Definition known_model : model := match heap (coll known_client) with m :: _ => m | [] => demo_model end.

(** A network is created; the server answers, and a change is put. *)
Example create_example :
  ('(r, x, s) <-? create demo_url (u "network") demo_new true empty_client;
   '(q, s) <-? send demo_related demo_url (u "network") x s;
   s <-? created (u "network") true r (VObj [(u "network", VObj [(u "id", VStr (u "n1")); (u "mtu", VNull)])]) s;
   '(x', s) <-? save demo_url (Some demo_change) true r s;
   '(q', s) <-? send demo_related demo_url (u "network") x' s;
   Ok (q, q', models (coll s), map attributes (heap (coll s)) !! r))
  = Ok (Some (Request (u "POST") demo_url (Some ([123; 34] ++ u "network" ++ [34; 58; 123; 34] ++ u "name" ++ [34; 58; 34] ++ u "a" ++ [34; 125; 125]))),
        Some (Request (u "PUT") (demo_url ++ u "/n1")
          (Some ([123; 34] ++ u "network" ++ [34; 58; 123; 34] ++ u "name" ++ [34; 58; 34] ++ u "b" ++ [34; 44; 34] ++ u "mtu" ++ [34; 58] ++ u "null" ++ [125; 125]))),
        [0%nat], Some [(u "name", VStr (u "a")); (u "id", VStr (u "n1")); (u "mtu", VNull)]).
Proof. vm_compute. reflexivity. Qed.

Lemma distinct_keys l : forallb (fun k => Nat.eqb (length (List.filter (streq k) l)) 1) l = true -> NoDup l.
Proof.
  induction l as [|k l IH]; [constructor|]. cbn [forallb List.filter]. rewrite streq_refl. cbn [length]. intros [H1 H2]%andb_prop.
  apply list.NoDup_cons. split.
  - intros Hk. apply Nat.eqb_eq in H1. injection H1 as H1. apply list_elem_of_In in Hk.
    assert (Hin : In k (List.filter (streq k) l)) by (apply filter_In; split; [done | apply streq_refl]). by destruct (List.filter (streq k) l).
  - apply IH, forallb_forall. intros x Hx. rewrite forallb_forall in H2. specialize (H2 x Hx). cbn in H2. destruct (streq x k) eqn:E; [|done].
    apply streq_eq in E as ->. apply Nat.eqb_eq in H1. injection H1 as H1. assert (Hin : In k (List.filter (streq k) l)) by (apply filter_In; split; [done | apply streq_refl]).
    by destruct (List.filter (streq k) l).
Qed.

Lemma known_steady : steady 0 known_model known_client.
Proof.
  assert (Hnd : NoDup (obj_keys demo_known)) by (apply distinct_keys; reflexivity).
  destruct (prepare_ok _ empty demo_known (wf_indexed _ empty_wf) Hnd) as (m & c & H1 & Hix & Hh & Hms & Hl & _ & Hid & _ & Hmid & Hk).
  assert (E : known_client = Client c ∅ demo_schema) by (unfold known_client; by rewrite H1).
  assert (Em : known_model = m) by (unfold known_model; rewrite E; cbn [coll]; by rewrite Hh).
  rewrite Em, E. split; cbn [coll]; [split; [by rewrite Hms | by rewrite Hms, Hl] | by rewrite Hh | done | congruence|].
  rewrite Hid. apply demo_text. eexists _, _. split; [reflexivity | discriminate].
Qed.

(** The change of the example. *)
Lemma update_cycle_witness :
  exists x s1 m1, save demo_url (Some demo_change) true 0 known_client = Ok (x, s1) /\ heap (coll s1) !! 0%nat = Some m1 /\
    attributes m1 = attributes known_model /\ obj_get (u "name") (body (demo_filtered (u "update")).1 (s_clone x)) = VStr (u "b").
Proof.
  assert (Hf : filterByAction demo_related (u "update") None (a_schema known_client) = Fulfilled ((demo_filtered (u "update")).1, (demo_filtered (u "update")).2))
    by (vm_compute; reflexivity).
  assert (Hnd : NoDup (obj_keys demo_change)) by (apply distinct_keys; reflexivity).
  destruct (update_cycle demo_related demo_url (u "network") 0 known_model (u "n1") demo_change known_client _ _ known_steady
              ltac:(vm_compute; reflexivity) Hnd ltac:(vm_compute; reflexivity) ltac:(vm_compute; reflexivity) Hf)
    as (x & s1 & m1 & H1 & [H2 H3] & H4 & _).
  exists x, s1, m1. split; [exact H1|]. split; [exact H2|]. split; [exact H3|]. rewrite (H4 (u "name") ltac:(discriminate)). vm_compute. reflexivity.
Defined.

(** A network that is created. *)
Lemma create_cycle_witness :
  exists r x s1, create demo_url (u "network") demo_new true empty_client = Ok (r, x, s1) /\ models (coll s1) = [] /\
    obj_get (u "name") (body (demo_filtered (u "create")).1 (s_clone x)) = VStr (u "a").
Proof.
  assert (Hf : filterByAction demo_related (u "create") None (a_schema empty_client) = Fulfilled ((demo_filtered (u "create")).1, (demo_filtered (u "create")).2))
    by (vm_compute; reflexivity).
  assert (Hnd : NoDup (obj_keys demo_new)) by (apply distinct_keys; reflexivity).
  destruct (create_cycle demo_related demo_url (u "network") demo_new empty_client _ _ empty_wf Hnd
              ltac:(vm_compute; reflexivity) ltac:(vm_compute; reflexivity) ltac:(vm_compute; reflexivity) ltac:(discriminate) Hf)
    as (r & x & s1 & m1 & H1 & (_ & _ & _ & H2) & H3 & _).
  exists r, x, s1. split; [exact H1|]. split; [exact H2|]. rewrite (H3 (u "name") ltac:(discriminate)). vm_compute. reflexivity.
Defined.

(** A network that is created without waiting and refused, and then changed. *)
Lemma refused_create_stays_witness :
  exists r x s1 x2 s2, create demo_url (u "network") demo_new false empty_client = Ok (r, x, s1) /\
    save demo_url (Some demo_change) true r s1 = Ok (x2, s2) /\ url_of demo_url r s2 = u "/v1/networks/undefined".
Proof.
  assert (Hnd : NoDup (obj_keys demo_new)) by (apply distinct_keys; reflexivity).
  assert (Hnd2 : NoDup (obj_keys demo_change)) by (apply distinct_keys; reflexivity).
  destruct (refused_create_stays demo_url (u "network") demo_new empty_client demo_change empty_wf Hnd
              ltac:(vm_compute; reflexivity) ltac:(vm_compute; reflexivity) Hnd2 ltac:(vm_compute; reflexivity) ltac:(vm_compute; reflexivity))
    as (r & x & s1 & x2 & s2 & H1 & _ & H2 & _ & H3 & _).
  exists r, x, s1, x2, s2. split; [exact H1|]. split; [exact H2|]. exact H3.
Defined.
