(* ===== verification/FormEditors.v ===== *)
(** The editors of backbone-forms (module 165) as the client configures them
    (168 to 171, 179, 180): what each shows for a value, and the value it gives
    back; forms, which make an editor for each of their fields. *)

From Stdlib Require Import ZArith Lia List String Bool.
From stdpp Require Import base list sets list_numbers tactics.
From S2P Require Import Prelude JsNum Js SchemaModel SchemaForm TableView.

(** ** Controls of the browser *)

(** An option of a select as markup: its attribute [value], if it has one, and
    its label. *)
Record choice := Choice { c_value : option jstr; c_label : jstr }.

Definition quoted (s : jstr) : jstr := [34] ++ s ++ [34].

Definition choice_html (c : choice) : jstr :=
  (match c_value c with
   | Some f => u "<option value=" ++ quoted f ++ u ">"
   | None => u "<option>"
   end) ++ escape_text (c_label c) ++ u "</option>".

(** Options that the markup carries as they are: no character of a value ends
    the attribute or begins a reference, and none is changed by the parser. *)
Definition clean_choice (c : choice) : Prop :=
  0 ∉ c_label c /\ 13 ∉ c_label c /\
  match c_value c with Some f => Forall (fun x => x ∉ f) [0; 13; 34; 38] | None => True end.

Definition finite (n : num) : Prop := match n with NInf _ | NNaN => False | _ => True end.

(** What the editors rely on of the browser: the value of an [input] of the
    types [text] and [number] after an assignment, the options of a [select]
    after its markup is set (attribute and text of each), and the order of
    texts in the user's language. *)
Class Browser := {
  text_value : jstr -> jstr;
  number_value : jstr -> jstr;
  parse_options : jstr -> list (option jstr * jstr);
  localeCompare : jstr -> jstr -> Z;
  text_value_line s : 10 ∉ s -> 13 ∉ s -> text_value s = s;
  number_value_blank : number_value [] = [];
  number_value_text n : finite n -> number_value (num_to_string n) = num_to_string n;
  parse_options_html l :
    Forall clean_choice l -> parse_options (concat (map choice_html l)) = map (fun c => (c_value c, c_label c)) l
}.

(** ** jQuery's [val] *)

(** The text that [val(v)] assigns to an input. *)
Definition val_text (v : value) : res jstr := match v with VUndef | VNull => Ok [] | _ => to_string v end.

(** [val()] of an input. *)
Definition strip_returns (s : jstr) : jstr := List.filter (fun c => negb (c =? 13)) s.

(** [jQuery.trim(s).replace(/[\x20\t\r\n\f]+/g, ' ')]. *)
Definition html_space (c : Z) : bool := (c =? 32) || (c =? 9) || (c =? 13) || (c =? 10) || (c =? 12).

Fixpoint collapse (inside : bool) (s : jstr) : jstr :=
  match s with
  | [] => []
  | c :: s => if html_space c then (if inside then [] else [32]) ++ collapse true s else c :: collapse false s
  end.

Definition js_trim (s : jstr) : jstr := rev (trim_start (rev (trim_start s))).

(** [valHooks.option.get]. *)
Definition option_value (o : option jstr * jstr) : jstr :=
  match o.1 with Some v => v | None => collapse false (js_trim o.2) end.

(** [valHooks.select.set], which [val(v)] calls for a select: the first option
    whose value is among those given, none otherwise. *)
Definition select_values (v : value) : res (list value) :=
  match v with
  | VUndef | VNull => Ok [VStr []]
  | VNum n => Ok [VStr (num_to_string n)]
  | VArr l => l <-? res_map val_text l; Ok (map VStr l)
  | VObj o => if obj_has (u "length") o then Err Unsupported else Ok [v]
  | VBuf _ => Err Unsupported
  | _ => Ok [v]
  end.

Fixpoint first_selected (values : list value) (options : list jstr) : option nat :=
  match options with
  | [] => None
  | o :: options =>
      if bool_decide (VStr o ∈ values) then Some O else S <$> first_selected values options
  end.

Definition select_set (options : list jstr) (v : value) : res (option nat) :=
  values <-? select_values v; Ok (first_selected values options).

(** [valHooks.select.get]. *)
Definition select_get (options : list jstr) (selected : option nat) : value :=
  match selected with
  | Some i => match options !! i with Some o => VStr o | None => VNull end
  | None => VNull
  end.

(** ** The document of ace *)

(** The first line break of a text, or a line feed. *)
Fixpoint detectNewLine (s : jstr) : jstr :=
  match s with
  | [] => [10]
  | c :: s => if c =? 10 then [10]
              else if c =? 13 then match s with d :: _ => if d =? 10 then [13; 10] else [13] | [] => [13] end
              else detectNewLine s
  end.

(** [text.split(/\r\n|\r|\n/)]; [after_cr] skips a line feed that ends the
    break begun before. *)
Fixpoint split_lines (after_cr : bool) (line : jstr) (s : jstr) : list jstr :=
  match s with
  | [] => [line]
  | c :: s =>
      if c =? 13 then line :: split_lines true [] s
      else if c =? 10 then (if after_cr then split_lines false [] s else line :: split_lines false [] s)
      else split_lines false (line ++ [c]) s
  end.

(** [getValue()] after [setValue(s)]. *)
Definition ace_text (s : jstr) : jstr := join (detectNewLine s) (split_lines false [] s).

(** ** Editors *)

(** An editor: its validators and what it shows.  A select holds the values of
    its options and the index of the one that is selected. *)
Inductive editor :=
| EText (validators : list jstr) (text : jstr)
| ENumber (validators : list jstr) (text : jstr)
| ECheckbox (validators : list jstr) (checked : bool)
| ESelect (validators : list jstr) (options : list jstr) (selected : option nat)
| ECode (validators : list jstr) (text : jstr)
| EList (validators : list jstr) (items : list editor)
| EObject (validators : list jstr) (fields : list (jstr * editor)).

(** Induction over an editor and those it contains. *)
Section editor_ind'.
Context (P : editor -> Prop).
Context (HText : forall vs s, P (EText vs s)) (HNumber : forall vs s, P (ENumber vs s)).
Context (HCheckbox : forall vs b, P (ECheckbox vs b)) (HSelect : forall vs o i, P (ESelect vs o i)).
Context (HCode : forall vs s, P (ECode vs s)) (HList : forall vs l, Forall P l -> P (EList vs l)).
Context (HObject : forall vs fs, Forall (fun kf => P kf.2) fs -> P (EObject vs fs)).

Fixpoint editor_ind' (e : editor) : P e :=
  match e with
  | EText vs s => HText vs s
  | ENumber vs s => HNumber vs s
  | ECheckbox vs b => HCheckbox vs b
  | ESelect vs o i => HSelect vs o i
  | ECode vs s => HCode vs s
  | EList vs l =>
      HList vs l ((fix go l : Forall P l :=
                     match l with [] => Forall_nil_2 _ | e :: l => Forall_cons_2 _ _ _ (editor_ind' e) (go l) end) l)
  | EObject vs fs =>
      HObject vs fs ((fix go fs : Forall (fun kf => P kf.2) fs :=
                        match fs with
                        | [] => Forall_nil_2 _
                        | kf :: fs => Forall_cons_2 _ _ _ (editor_ind' kf.2) (go fs)
                        end) fs)
  end.
End editor_ind'.

(** [_.without(b, undefined, '')]. *)
Definition kept (v : value) : bool := match v with VUndef | VStr [] => false | _ => true end.

(** [getValue] of the editors Text, Number and List. *)
Definition Text_getValue (s : jstr) : value := VStr (strip_returns s).

Definition Number_getValue (s : jstr) : value :=
  match strip_returns s with [] => VStr [] | s => VNum (parseFloat s) end.

Definition List_getValue (values : list value) : value := VArr (List.filter kept values).

(** The object that [Form.getValue] fills field by field. *)
Definition form_object (l : list (jstr * value)) : object := fold_left (fun o kv => obj_set kv.1 kv.2 o) l [].

(** [editor.getValue()]. *)
Fixpoint getValue (e : editor) : value :=
  match e with
  | EText _ s => Text_getValue s
  | ENumber _ s => Number_getValue s
  | ECheckbox _ b => VBool b
  | ESelect _ options selected => select_get options selected
  | ECode _ s => VStr s
  | EList _ items => List_getValue (map getValue items)
  | EObject _ fields => VObj (form_object (map (fun kf => (kf.1, getValue kf.2)) fields))
  end.

(** The value of an editor that is known. *)
Ltac open_value := cbn [getValue]; repeat unfold Text_getValue, Number_getValue, List_getValue.

(** A form: its fields in the order of the object that holds them. *)
Abbreviation form := (list (jstr * editor)).

(** [form.getValue()]. *)
Definition form_value (f : form) : value := VObj (form_object (map (fun kf => (kf.1, getValue kf.2)) f)).

Section WithBrowser.
Context `{Browser}.

(** ** What each editor shows for a value *)

(** [Text.setValue]: the text the input then shows. *)
Definition Text_setValue (v : value) : res jstr := s <-? val_text v; Ok (text_value s).

(** [Number.setValue]. *)
Definition number_text (v : value) : jstr :=
  let n := match v with
           | VNum n => Some n
           | VStr (c :: s) => Some (parseFloat (c :: s))
           | _ => None
           end in
  number_value (match n with None | Some NNaN => [] | Some n => num_to_string n end).

(** [CodeEditor.setValue]: nothing happens for an empty value; ace splits the
    text it is given. *)
Definition code_text (s : jstr) (v : value) : res jstr :=
  if truthy v then match v with VStr t => Ok (ace_text t) | _ => Err TypeError end else Ok s.

(** *** Select *)

(** [SelectEditor._arrayToHtml], one element; groups of options are not
    followed. *)
Definition is_zero (v : value) : bool := match v with VNum (NFin _ m) => (m =? 0)%N | _ => false end.

Definition option_choice (e : value) : res choice :=
  match e with
  | VObj o =>
      if truthy (obj_get (u "group") o) then Err Unsupported
      else
        let v := obj_get (u "val") o in
        f <-? (if truthy v || is_zero v then to_string v else Ok []);
        label <-? val_text (obj_get (u "label") o);
        Ok (Choice (Some f) label)
  | VDate _ | VBuf _ | VRegExp _ _ => Ok (Choice (Some []) [])
  | VNull => Ok (Choice (Some []) (u "Not selected"))
  | _ => label <-? val_text e; Ok (Choice None label)
  end.

(** The options of an array, or of an object: [_getOptionsHtml]. *)
Definition choices (options : value) : res (list choice) :=
  match options with
  | VArr l => res_map option_choice l
  | VObj o => res_map (fun kv => option_choice (VObj [(u "val", VStr kv.1); (u "label", kv.2)])) o
  | _ => Err Unsupported
  end.

Definition _getOptionsHtml (options : value) : res jstr :=
  l <-? choices options; Ok (concat (map choice_html l)).

(** [SelectEditor.setValue] of a select that shows [options]. *)
Definition select_value (options : list jstr) (selected : option nat) (v : value) : res (option nat) :=
  if truthy v then select_set options v else Ok selected.

(** [renderOptions]: with the new markup the browser selects the first option,
    then the value of the editor is set. *)
Definition renderOptions (options : value) (v : value) : res (list jstr * option nat) :=
  html <-? _getOptionsHtml options;
  let values := map option_value (parse_options html) in
  selected <-? select_value values (match values with [] => None | _ => Some O end) v;
  Ok (values, selected).

(** [Object.keys(options).sort(...)], with labels that are texts. *)
Definition label_of (o : object) (k : jstr) : res jstr :=
  match obj_get k o with VStr s => Ok s | _ => Err Unsupported end.

Fixpoint insert_sorted (x : jstr * jstr) (l : list (jstr * jstr)) : list (jstr * jstr) :=
  match l with
  | [] => [x]
  | y :: l => if localeCompare x.2 y.2 <=? 0 then x :: y :: l else y :: insert_sorted x l
  end.

Definition sorted_options (nullable : bool) (validators : list jstr) (o : object) : res object :=
  labels <-? res_map (fun k => l <-? label_of o k; Ok (k, l)) (obj_keys o);
  Ok (fold_left (fun g kl => obj_set kl.1 (obj_get kl.1 o) g) (foldr insert_sorted [] labels)
        (if nullable && negb (bool_decide (u "required" ∈ validators)) then [([], VStr (u "Not selected"))] else [])).

(** [SelectEditor.render], for [schema.options]. *)
Definition render_select (nullable : bool) (validators : list jstr) (options : option value) (v : value) :
    res (list jstr * option nat) :=
  match options with
  | Some (VArr l) => renderOptions (VArr l) v
  | Some (VObj o) => o <-? sorted_options nullable validators o; renderOptions (VObj o) v
  | Some _ => Err Unsupported
  | None => Err (PlainError (u "Missing required 'schema.options'"))
  end.

(** ** Making the editor of a field *)

(** [options.value], or the default of the editor when it is undefined. *)
Definition initial (d v : value) : value := match v with VUndef => d | _ => v end.

(** The editors that [toFormJSON] names, except lists and objects; the other
    editors of the library are not followed. *)
Definition simple_editor (fd : field) (ty : jstr) (v : value) : res editor :=
  let vs := f_validators fd in
  if streq ty (u "Text") then s <-? Text_setValue (initial (VStr []) v); Ok (EText vs s)
  else if streq ty (u "Number") then Ok (ENumber vs (number_text (initial (VStr []) v)))
  else if streq ty (u "Checkbox") then Ok (ECheckbox vs (truthy (initial (VBool false) v)))
  else if streq ty (u "Select") then
    os <-? render_select (f_nullable fd) vs (f_options fd) (initial VNull v); Ok (ESelect vs os.1 os.2)
  else if streq ty (u "CodeEditor") then s <-? code_text [] (initial VNull v); Ok (ECode vs s)
  else Err Unsupported.

(** The editor of a field without a schema: [createSchema(undefined)]. *)
Definition default_editor (v : value) : res editor := s <-? Text_setValue (initial (VStr []) v); Ok (EText [] s).

(** [Form.createField] for each of the selected fields: [builders] makes the
    editors of the fields that have a schema. *)
Fixpoint create_fields (builders : list (jstr * (value -> res editor))) (data : value) (selected : list jstr)
    (fields : form) : res form :=
  match selected with
  | [] => Ok fields
  | key :: selected =>
      v <-? (if truthy data then get_prop data key else Ok VNull);
      e <-? (match obj_lookup key builders with Some build => build v | None => default_editor v end);
      create_fields builders data selected (obj_set key e fields)
  end.

(** [Form.initialize] and [render]: [fields] or all keys of the schema. *)
Definition make_form (builders : list (jstr * (value -> res editor))) (fields : option (list jstr)) (data : value) :
    res form :=
  create_fields builders data (default (obj_keys builders) fields) [].

(** The values of a list that has been given [v]: [b.forEach] or one item with
    the default value. *)
Definition list_values (v d : value) : res (list value) :=
  match v with
  | VArr (x :: l) => Ok (x :: l)
  | VStr (_ :: _) => Err TypeError
  | VObj o => if truthy (obj_get (u "length") o) then Err TypeError else Ok [d]
  | VBuf (_ :: _) => Err Unsupported
  | _ => Ok [d]
  end.

(** The editor of a field that shows a value, made and rendered. *)
Fixpoint editor_of (fd : field) (ty : jstr) (v : value) {struct fd} : res editor :=
  let '(Field _ _ _ vs _ _ _ _ d itemType order sub) := fd in
  let nested v :=
    match sub with
    | Some sub =>
        fs <-? make_form (map (fun kf => (kf.1, fun v => editor_of kf.2 (f_type kf.2) v)) sub) order v;
        Ok (EObject vs fs)
    | None => Err (PlainError (u "Missing required 'schema.subSchema' option for Object editor"))
    end in
  if streq ty (u "Object") then nested (initial (VObj []) v)
  else if streq ty (u "List") then
    values <-? list_values v d;
    items <-? res_map (fun w =>
      match itemType with
      | Some t => if streq t (u "Object") then nested w else simple_editor fd t w
      | None => simple_editor fd (u "Text") w
      end) values;
    Ok (EList vs items)
  else simple_editor fd ty v.

(** [new Form({schema, fields, data})], rendered. *)
Definition new_form (schema : list (jstr * field)) (fields : option (list jstr)) (data : value) : res form :=
  make_form (map (fun kf => (kf.1, fun v => editor_of kf.2 (f_type kf.2) v)) schema) fields data.

(** ** Setting the value of an editor *)

(** [editor.setValue(v)].  A list renders the new items after those it has. *)
Definition setValue (fd : field) (v : value) (e : editor) : res editor :=
  match e with
  | EText vs _ => s <-? Text_setValue v; Ok (EText vs s)
  | ENumber vs _ => Ok (ENumber vs (number_text v))
  | ECheckbox vs _ => Ok (ECheckbox vs (truthy v))
  | ESelect vs options selected => i <-? select_value options selected v; Ok (ESelect vs options i)
  | ECode vs s => s <-? code_text s v; Ok (ECode vs s)
  | EList vs items =>
      e <-? editor_of fd (u "List") v;
      Ok (match e with EList _ items' => EList vs (items ++ items') | _ => e end)
  | EObject _ _ => editor_of fd (u "Object") v
  end.

(** [Form.setValue(data)]: a field of the schema that the form does not show is
    undefined. *)
Fixpoint form_setValue (schema : list (jstr * field)) (data : object) (f : form) : res form :=
  match schema with
  | [] => Ok f
  | (key, fd) :: schema =>
      match obj_get key data with
      | VUndef => form_setValue schema data f
      | v => match obj_lookup key f with
             | Some e => e <-? setValue fd v e; form_setValue schema data (obj_set key e f)
             | None => Err TypeError
             end
      end
  end.

(** ** The dialog *)

(** [DialogView.updateDialogSchema]: selects of relations offer to create a new
    resource, for the titles configured. *)
Definition relation_field (addingRelationDialog : list jstr) (fd : field) : field :=
  let '(Field ti ty h vs rel n fmt opts d it order sub) := fd in
  match rel, opts with
  | Some r, Some (VObj o) =>
      if streq ty (u "Select") && bool_decide (ti ∈ addingRelationDialog) then
        Field ti ty h vs rel n fmt (Some (VObj (obj_set (u "addNew" ++ r) (VStr (u " + New " ++ ti)) o))) d it order sub
      else fd
  | _, _ => fd
  end.

Definition updateDialogSchema (addingRelationDialog : list jstr) (schema : list (jstr * field)) : list (jstr * field) :=
  map (fun kf => (kf.1, relation_field addingRelationDialog kf.2)) schema.

(** [DialogView.render]: the form it shows, for [fields] and [data]. *)
Definition dialog_form (addingRelationDialog : list jstr) (schema : list (jstr * field)) (fields : option (list jstr))
    (data : value) : res form :=
  let schema := updateDialogSchema addingRelationDialog schema in
  match fields with
  | None => Err TypeError
  | Some fields => new_form schema (Some (List.filter (fun a => obj_has a schema) fields)) data
  end.
End WithBrowser.

(** ** Selects and lists *)

Section Lemmas.
Context `{Browser}.

(** The options of a select are those of its schema, when the markup carries
    them; without a value it shows the first of them. *)
Lemma renderOptions_clean options cs v :
  choices options = Ok cs -> Forall clean_choice cs -> truthy v = false ->
  renderOptions options v
  = Ok (map (fun c => option_value (c_value c, c_label c)) cs, match cs with [] => None | _ => Some O end).
Proof.
  intros Hc Hcs Hv. unfold renderOptions, _getOptionsHtml, select_value. rewrite Hc. cbn [res_bind]. rewrite parse_options_html by done.
  rewrite map_map, Hv. by destruct cs.
Qed.

(** Setting the value of a list keeps the items it has: it gives back the old
    values followed by the new ones. *)
Lemma list_setValue_appends fd vs items items' v e :
  editor_of fd (u "List") v = Ok (EList vs items') -> setValue fd v (EList vs items) = Ok e ->
  getValue e = VArr (List.filter kept (map getValue items) ++ List.filter kept (map getValue items')).
Proof. intros Hv. cbn [setValue]. rewrite Hv. intros [= <-]. cbn [getValue]. unfold List_getValue. by rewrite map_app, List.filter_app. Qed.
End Lemmas.

(** ** What the user enters

    The user changes what an editor shows, its items when it is a list, and the
    fields inside it when it is an object. *)
Inductive entered : editor -> editor -> Prop :=
| entered_text vs s s' : entered (EText vs s) (EText vs s')
| entered_number vs s s' : entered (ENumber vs s) (ENumber vs s')
| entered_checkbox vs b b' : entered (ECheckbox vs b) (ECheckbox vs b')
| entered_select vs options i i' : entered (ESelect vs options i) (ESelect vs options i')
| entered_code vs s s' : entered (ECode vs s) (ECode vs s')
| entered_list vs items items' : entered (EList vs items) (EList vs items')
| entered_object vs fields fields' :
    Forall2 (fun kf kf' => kf.1 = kf'.1 /\ entered kf.2 kf'.2) fields fields' ->
    entered (EObject vs fields) (EObject vs fields').

Definition entered_form (f f' : form) : Prop := Forall2 (fun kf kf' => kf.1 = kf'.1 /\ entered kf.2 kf'.2) f f'.

(** ** A browser

    A browser that shows numbers in text inputs, reads the options of a select
    from markup of the form that [choice_html] writes, and orders texts by
    their code units. *)

Fixpoint cut (c : Z) (s : jstr) : jstr * jstr :=
  match s with
  | [] => ([], [])
  | x :: s => if x =? c then ([], s) else let '(a, b) := cut c s in (x :: a, b)
  end.

Definition reference (name : jstr) : jstr :=
  default [] (obj_lookup name [(u "amp", [38]); (u "lt", [60]); (u "gt", [62]); (u "quot", [34]); (u "#x27", [39]); (u "#x60", [96])]).

Fixpoint unescape (fuel : nat) (s : jstr) : jstr :=
  match fuel, s with
  | S fuel, c :: s => if c =? 38 then let '(name, s) := cut 59 s in reference name ++ unescape fuel s else c :: unescape fuel s
  | _, _ => []
  end.

(** The options after ["<option"]: the attribute, the text, and the end tag. *)
Fixpoint read_options (fuel : nat) (s : jstr) : list (option jstr * jstr) :=
  match fuel with
  | O => []
  | S fuel =>
      if starts_with (u "<option") s then
        let s := drop 7 s in
        let '(attr, s) := if starts_with (u " value=" ++ [34]) s
                          then let '(v, s) := cut 34 (drop 8 s) in (Some v, s) else (None, s) in
        let '(text, s) := cut 60 (drop 1 s) in
        (attr, unescape (length text) text) :: read_options fuel (drop 8 s)
      else []
  end.

Lemma cut_app c a b : c ∉ a -> cut c (a ++ c :: b) = (a, b).
Proof.
  induction a as [|x a IH]; cbn [app cut]; [by rewrite Z.eqb_refl|]. intros [Hx Ha]%not_elem_of_cons.
  replace (x =? c) with false by lia. by rewrite IH.
Qed.

Lemma escape_char_cases c :
  (exists name, escape_char c = 38 :: name ++ [59] /\ 59 ∉ name /\ 60 ∉ name /\ reference name = [c]) \/
  (escape_char c = [c] /\ c <> 38 /\ c <> 60).
Proof.
  unfold escape_char.
  destruct (c =? 38) eqn:E1; [left; exists (u "amp")|destruct (c =? 60) eqn:E2; [left; exists (u "lt")|
    destruct (c =? 62) eqn:E3; [left; exists (u "gt")|destruct (c =? 34) eqn:E4; [left; exists (u "quot")|
    destruct (c =? 39) eqn:E5; [left; exists (u "#x27")|destruct (c =? 96) eqn:E6; [left; exists (u "#x60")|]]]]]]; breflect;
    [subst c; split; [|split; [|split]]; by apply (bool_decide_unpack _)..|]. by right.
Qed.

Lemma unescape_escape s n : (length (escape_text s) <= n)%nat -> unescape n (escape_text s) = s.
Proof.
  unfold escape_text. revert n. induction s as [|c s IH]; cbn [map concat]; intros n Hn; [by destruct n|].
  rewrite length_app in Hn. destruct (escape_char_cases c) as [(name & E & H59 & _ & Hr) | (E & Hc & _)]; rewrite E in *.
  - cbn [length] in Hn. rewrite length_app in Hn. cbn in Hn. destruct n as [|n]; [lia|].
    cbn [app unescape Z.eqb Pos.eqb]. rewrite <- app_assoc. cbn [app]. rewrite cut_app, Hr by done. cbn [app]. rewrite IH by lia. done.
  - cbn in Hn. destruct n as [|n]; [lia|]. cbn [app unescape]. replace (c =? 38) with false by lia. rewrite IH by lia. done.
Qed.

Lemma escape_text_no_tag s : 60 ∉ escape_text s.
Proof.
  unfold escape_text. induction s as [|c s IH]; cbn [map concat]; [apply not_elem_of_nil|]. rewrite elem_of_app. intros [H | H]; [|done].
  destruct (escape_char_cases c) as [(name & E & _ & Hn & _) | (E & _ & Hc)]; rewrite E in H; set_solver.
Qed.

Lemma read_step n (val : option jstr) label rest :
  match val with Some v => 34 ∉ v | None => True end ->
  read_options (S n) (u "<option" ++ match val with Some v => (u " value=" ++ [34]) ++ v ++ [34] | None => [] end
                      ++ 62 :: escape_text label ++ 60 :: u "/option>" ++ rest)
  = (val, label) :: read_options n rest.
Proof.
  intros Hv.
  assert (Htext : forall attr,
            (let '(text, s) := cut 60 (escape_text label ++ 60 :: u "/option>" ++ rest) in
             (attr, unescape (length text) text) :: read_options n (drop 8 s)) = (attr, label) :: read_options n rest).
  { intros attr. rewrite cut_app by apply escape_text_no_tag. by rewrite unescape_escape. }
  set (tail := escape_text label ++ 60 :: u "/option>" ++ rest) in *. destruct val as [v|].
  - transitivity (let '(attr, s) := (let '(v, s) := cut 34 (v ++ 34 :: 62 :: tail) in (Some v, s)) in
                  let '(text, s) := cut 60 (drop 1 s) in (attr, unescape (length text) text) :: read_options n (drop 8 s)).
    { rewrite <- !app_assoc. reflexivity. }
    rewrite cut_app by done. apply Htext.
  - apply Htext.
Qed.

Lemma read_options_html l n :
  Forall clean_choice l -> (length l <= n)%nat ->
  read_options n (concat (map choice_html l)) = map (fun c => (c_value c, c_label c)) l.
Proof.
  intros Hl. revert n. induction Hl as [|[val label] l (_ & _ & Hv) _ IH]; intros n Hn; [by destruct n|].
  destruct n as [|n]; [cbn in Hn; lia|]. cbn [length] in Hn. cbn [map concat c_value c_label]. rewrite <- (IH n) by lia.
  rewrite <- (read_step n val label).
  - f_equal. unfold choice_html, quoted. cbn [c_value c_label]. destruct val; rewrite <- !app_assoc; reflexivity.
  - destruct val as [v|]; [|done]. apply Forall_elem with (x := 34) in Hv; [done | by right; right; left].
Qed.

Fixpoint compare_text (s t : jstr) : Z :=
  match s, t with
  | [], [] => 0
  | [], _ => -1
  | _, [] => 1
  | a :: s, b :: t => if a <? b then -1 else if b <? a then 1 else compare_text s t
  end.

Lemma choice_html_length l : (length l <= length (concat (map choice_html l)))%nat.
Proof.
  induction l as [|c l IH]; cbn [map concat length]; [lia|]. rewrite length_app.
  assert (Hc : (1 <= length (choice_html c))%nat) by (unfold choice_html; rewrite !length_app; change (length (u "</option>")) with 9%nat; lia).
  lia.
Qed.

Definition plain_browser : Browser.
Proof.
  refine {| text_value := List.filter (fun c => negb ((c =? 10) || (c =? 13))); number_value := fun s => s;
            parse_options := fun s => read_options (length s) s; localeCompare := compare_text |}.
  - abstract (intros s; induction s as [|c s IH]; cbn [List.filter]; [done|]; intros [H1 H2]%not_elem_of_cons [H3 H4]%not_elem_of_cons;
      replace (c =? 10) with false by lia; replace (c =? 13) with false by lia; cbn; by rewrite IH).
  - reflexivity.
  - reflexivity.
  - abstract (intros l Hl; apply read_options_html; [done | apply choice_html_length]).
Defined.
