(* ===== verification/FormValidation.v ===== *)
(** The validation of forms: the validators of backbone-forms (module 165) and
    those of the client (178) by their names, and [validate] of editors, lists
    (168), objects and forms. *)

From Stdlib Require Import ZArith Lia List String Bool.
From stdpp Require Import base list sets list_numbers tactics.
From S2P Require Import Prelude JsNum Js Regex YamlSchema YamlLoader SchemaModel SchemaForm Validators FormEditors.

(** ** The validators of the library *)

(** [validators.required]. *)
Definition required (b : failure) (c : value) : verdict :=
  Ok (match c with VNull | VUndef | VBool false | VStr [] => Some b | _ => None end).

(** The validators of [validators.regexp]: empty values are not looked at. *)
Definition regexp (p : jstr -> bool) (b : failure) (c : value) : verdict :=
  match c with
  | VNull | VUndef | VStr [] => Ok None
  | _ => d <-? test p c; Ok (if d : bool then None else Some b)
  end.

(** [/^[0-9]*\.?[0-9]*?$/]. *)
Definition number_re : re := rcat [RStar digit; ropt (rc 46); RStar digit].

(** [[\w\-]]. *)
Definition word_dash : list (Z * Z) := [(45, 45); (48, 57); (65, 90); (95, 95); (97, 122)].

Definition email_re : re :=
  rcat [rplus (RSet word_dash);
        RStar (RCat (RSet ([(43, 43); (46, 46)] ++ word_dash)) (rplus (RSet word_dash)));
        rc 64; rplus (RSet word_dash); rbetween 1 3 (RCat (rc 46) (rplus (RSet word_dash)))].

(** A literal, whatever the case of its letters. *)
Definition rlit_i (s : jstr) : re := rcat (map (fun c => RSet [(lower_char c, lower_char c); (upper_char c, upper_char c)]) s).

(** A part of a host name in [validators.url]. *)
Definition url_label : re := RCat alnum (RStar (RSet word_dash)).

Definition url_re : re :=
  rcat [RAlt (rlit_i (u "http")) (rlit_i (u "https")); rlit (u "://"); url_label; rplus (RCat (rc 46) url_label);
        ropt (RCat (rc 58) (rplus digit)); ropt (rc 47)].

Definition number : failure -> value -> verdict := regexp (rmatch number_re).
Definition email : failure -> value -> verdict := regexp (rmatch email_re).
Definition url : failure -> value -> verdict := regexp (rprefix url_re).

(** ** Validators by their names *)

Section WithYaml.
(** The options of [jsYaml.load]. *)
Variable yaml_options : load_options.

Definition address_message : string := "The specified IP address has an invalid format.".

(** The validators that can be made without options, with their messages. *)
Definition validators : list (jstr * (value -> verdict)) :=
  map (fun v => let '(name, message, f) := v in (u name, f {| f_type := u name; f_message := u message |}))
  [ ("required", "Required", required); ("number", "Must be a number", number);
    ("email", "Invalid email address", email); ("url", "Invalid URL", url);
    ("ipv4", address_message, ipv4); ("ipv6", address_message, ipv6);
    ("ipv4mask", "The specified IP mask has an invalid format.", ipv4mask);
    ("cidr", "The specified CIDR has an invalid format.", cidr);
    ("mac", "The specified MAC address has an invalid format.", mac);
    ("uuid", "The specified UUID has an invalid format.", uuid);
    ("port", "The specified port has an invalid format.", port);
    ("hostname", "The specified hostname has an invalid format.", hostname);
    ("uri", "The specified uri has an invalid format.", uri);
    ("cidr-or-ipv4", "The specified CIDR or IP has an invalid format.", cidr_or_ipv4);
    ("yaml", "The specified yaml has an invalid format.", yaml yaml_options)]%string.

(** Other names [k] for which [validators[k]()] throws: two validators that
    need options, the messages, and what objects inherit. *)
Definition not_makeable : list jstr :=
  map u ["regexp"; "match"; "errMessages"; "constructor"; "toString"; "toLocaleString"; "valueOf"; "hasOwnProperty";
         "isPrototypeOf"; "propertyIsEnumerable"; "__proto__"; "__defineGetter__"; "__defineSetter__";
         "__lookupGetter__"; "__lookupSetter__"]%string.

(** [getValidator(name)]. *)
Definition getValidator (name : jstr) : res (value -> verdict) :=
  match obj_lookup name validators with
  | Some f => Ok f
  | None => if bool_decide (name ∈ not_makeable) then Err TypeError
            else Err (PlainError (u "Validator " ++ quoted name ++ u " not found"))
  end.

(** [_.every(validators, ...)]: the first error. *)
Fixpoint run_validators (names : list jstr) (v : value) : verdict :=
  match names with
  | [] => Ok None
  | name :: names =>
      f <-? getValidator name; e <-? f v;
      match e with Some e => Ok (Some e) | None => run_validators names v end
  end.

(** ** [validate] *)

(** The error of an editor: of a validator; of a list, with an entry for each
    item; of a nested form, by its fields. *)
Inductive form_error :=
| Failed (e : failure)
| ListFailed (errors : list (option failure))
| FormFailed (errors : list (jstr * form_error)).

(** [Form.validate] over fields whose editors [self] validates. *)
Fixpoint validate_fields (self : editor -> res (option form_error)) (f : form) (errors : list (jstr * form_error)) :
    res (option form_error) :=
  match f with
  | [] => Ok (match errors with [] => None | _ => Some (FormFailed errors) end)
  | (key, e) :: f =>
      x <-? self e;
      validate_fields self f (match x with Some x => obj_set key x errors | None => errors end)
  end.

(** [List.validate], given what the items report. *)
Definition list_errors (errors : list (option failure)) : option form_error :=
  if existsb is_some errors then Some (ListFailed errors) else None.

(** [editor.validate()]: a list runs its validators on the values of its
    items, an object validates its form. *)
Fixpoint validate (e : editor) : res (option form_error) :=
  match e with
  | EText vs _ | ENumber vs _ | ECheckbox vs _ | ESelect vs _ _ | ECode vs _ =>
      x <-? run_validators vs (getValue e); Ok (Failed <$> x)
  | EList vs items =>
      errors <-? res_map (fun i => run_validators vs (getValue i)) items;
      Ok (list_errors errors)
  | EObject _ fields => validate_fields validate fields []
  end.

(** [Form.validate], of a form without a model. *)
Definition validate_form (f : form) : res (option form_error) := validate_fields validate f [].

(** The button of the dialog: nothing is submitted when there are errors. *)
Definition submit (f : form) : res (form_error + value) :=
  errors <-? validate_form f;
  Ok (match errors with Some errors => inl errors | None => inr (form_value f) end).

(** ** What is accepted *)

(** Every validator named is known and accepts the value. *)
Definition asks (names : list jstr) (v : value) : Prop :=
  Forall (fun name => exists f, getValidator name = Ok f /\ f v = Ok None) names.

(** An editor that has nothing to report: lists ask their validators of their
    items, objects those of their fields. *)
Fixpoint accepted (e : editor) : Prop :=
  match e with
  | EText vs _ | ENumber vs _ | ECheckbox vs _ | ESelect vs _ _ | ECode vs _ => asks vs (getValue e)
  | EList vs items => Forall (fun i => asks vs (getValue i)) items
  | EObject _ fields => foldr (fun kf Q => accepted kf.2 /\ Q) True fields
  end.

Lemma run_validators_none names v : run_validators names v = Ok None <-> asks names v.
Proof.
  unfold asks. induction names as [|name names IH]; cbn [run_validators]; [by rewrite Forall_nil_iff|].
  rewrite Forall_cons_iff, <- IH. destruct (getValidator name) as [f|e]; cbn [res_bind]; [|by split; [|intros [(f & ? & _) _]]].
  assert (E : (exists g, Ok f = Ok g /\ g v = Ok None) <-> f v = Ok None) by (split; [by intros (g & [= <-] & H) | by exists f]).
  rewrite E. destruct (f v) as [[e|]|e]; cbn [res_bind]; intuition congruence.
Qed.

Lemma obj_set_not_nil {A} k (v : A) o : obj_set k v o <> [].
Proof. intros E. pose proof (obj_lookup_set_eq k v o) as H. by rewrite E in H. Qed.

Lemma validate_fields_none self f errors :
  validate_fields self f errors = Ok None <-> errors = [] /\ Forall (fun kf => self kf.2 = Ok None) f.
Proof.
  revert errors. induction f as [|[k e] f IH]; intros errors; cbn [validate_fields].
  - rewrite Forall_nil_iff. destruct errors; naive_solver.
  - rewrite Forall_cons_iff. cbn [snd]. destruct (self e) as [[x|]|]; cbn [res_bind]; [|rewrite IH; naive_solver | naive_solver].
    rewrite IH. split; [|naive_solver]. by intros [E%obj_set_not_nil _].
Qed.

Lemma list_none vs items :
  (errors <-? res_map (fun i => run_validators vs (getValue i)) items;
   Ok (list_errors errors)) = Ok None
  <-> Forall (fun i => asks vs (getValue i)) items.
Proof.
  unfold list_errors. rewrite res_bind_ok. setoid_rewrite <- run_validators_none. split.
  - intros (errors & H & Hn). apply res_map_ok in H. destruct (existsb is_some errors) eqn:E; [done|]. clear Hn.
    induction H as [|i x items errors Hx _ IH]; [constructor|]. cbn [existsb] in E. apply orb_false_iff in E as [E1 E2].
    destruct x; [done|]. constructor; [done | by apply IH].
  - intros H. exists (map (fun _ => None) items). split.
    + apply res_map_pure. intros i Hi. rewrite Forall_elem in H. by apply H.
    + replace (existsb is_some _) with false; [done|]. symmetry. induction items as [|i items IH]; [done|].
      cbn. apply IH. by inversion H.
Qed.

Lemma leaf_none vs v : (x <-? run_validators vs v; Ok (Failed <$> x)) = Ok None <-> asks vs v.
Proof.
  rewrite <- run_validators_none, res_bind_ok. split; [by intros ([x|] & H & E) | by exists None].
Qed.

Lemma validate_accepted e : validate e = Ok None <-> accepted e.
Proof.
  induction e as [vs s|vs s|vs b|vs o i|vs s|vs items _|vs fs IH] using editor_ind'; cbn [validate accepted];
    [apply leaf_none..|apply list_none|].
  rewrite validate_fields_none, (foldr_Forall (fun kf => accepted kf.2)). split; [intros [_ H] | intros H; split; [done|]];
    induction IH as [|kf fs H1 _ IHfs]; inversion H; subst; constructor; try (by apply H1); by apply IHfs.
Qed.

(** The errors that are collected: one for each field that has one. *)
Lemma validate_fields_errors self f errors r :
  NoDup (obj_keys f) -> validate_fields self f errors = Ok r ->
  let es := match r with Some (FormFailed es) => es | _ => [] end in
  (r = None \/ r = Some (FormFailed es) /\ es <> []) /\
  (forall k e, (k, e) ∈ f -> exists x, self e = Ok x /\
     obj_lookup k es = match x with Some x => Some x | None => obj_lookup k errors end) /\
  (forall k, k ∉ obj_keys f -> obj_lookup k es = obj_lookup k errors).
Proof.
  revert errors. unfold obj_keys. induction f as [|[k e] f IH]; intros errors; cbn [map fst validate_fields].
  - intros _ [= <-]. destruct errors as [|x errors]; (split; [auto|]; split; [by intros ? ? ?%not_elem_of_nil | done]).
  - intros [Hk Hn]%list.NoDup_cons (x & Hx & Hr)%res_bind_ok. destruct (IH _ Hn Hr) as (H1 & H2 & H3). split; [exact H1|]. split.
    + intros k' e' [[= -> ->] | Hin]%elem_of_cons.
      * exists x. split; [done|]. rewrite H3 by done. destruct x; [by rewrite obj_lookup_set_eq | done].
      * destruct (H2 k' e' Hin) as (y & Hy & E). exists y. split; [done|]. rewrite E. destruct y; [done|].
        destruct x; [|done]. apply obj_lookup_set_ne. intros ->. apply Hk. apply list_elem_of_fmap. by exists (k, e').
    + intros k' [Hne Hk']%not_elem_of_cons. rewrite H3 by done. destruct x; [by apply obj_lookup_set_ne | done].
Qed.

Lemma submit_accepts f r : submit f = Ok (inr r) <-> r = form_value f /\ Forall (fun kf => accepted kf.2) f.
Proof.
  unfold submit, validate_form. rewrite res_bind_ok. setoid_rewrite <- validate_accepted. split.
  - intros ([es|] & Hv & E); [done|]. injection E as <-. split; [done|]. by apply validate_fields_none in Hv as [_ Hv].
  - intros [-> Hf]. exists None. split; [by apply validate_fields_none | done].
Qed.

(** C3.  The dialog submits a form exactly when every validator of its fields
    is known and accepts the value of the field; it then sends the value of
    the form.  Otherwise it shows, for each field that has one, the error of
    this field, and nothing else. *)
Theorem submit_answer f r :
  NoDup (obj_keys f) ->
  (submit f = Ok (inr r) <-> r = form_value f /\ Forall (fun kf => accepted kf.2) f) /\
  (forall es, submit f = Ok (inl es) ->
     exists errors, es = FormFailed errors /\ errors <> [] /\
       (forall k e, (k, e) ∈ f -> validate e = Ok (obj_lookup k errors)) /\
       (forall k, k ∉ obj_keys f -> obj_lookup k errors = None)).
Proof.
  intros Hn. split; [apply submit_accepts|]. unfold submit, validate_form. setoid_rewrite res_bind_ok.
  - intros es ([x|] & Hv & E); [|done]. injection E as <-.
    destruct (validate_fields_errors validate f [] _ Hn Hv) as ([? | [E Hne]] & Hin & Hout); [done|].
    injection E as E. eexists. split; [exact E|]. split; [done|]. split; [|done].
    intros k e Hk. destruct (Hin k e Hk) as (y & Hy & Hl). rewrite Hy, Hl. by destruct y.
Qed.

(** *** What the validators miss, and what they cannot accept *)

(** The fields of the items of a list of objects are not validated: a list
    without a format accepts them all, required or not. *)
Lemma list_of_objects_unvalidated (needed : bool) forms :
  validate (EList (if needed then [u "required"] else []) (map (EObject []) forms)) = Ok None.
Proof.
  apply validate_accepted. cbn [accepted]. apply Forall_map, Forall_elem. intros f _. destruct needed; [|constructor].
  constructor; [|constructor]. by eexists.
Qed.

(** A switch that is required can only be sent switched on. *)
Lemma required_switch vs b : u "required" ∈ vs -> accepted (ECheckbox vs b) -> b = true.
Proof.
  cbn [accepted getValue]. unfold asks. rewrite Forall_elem. intros Hin H. destruct (H _ Hin) as (f & [= <-] & Hf). by destruct b.
Qed.
End WithYaml.

(** The options of the safe schema. *)
Definition demo_options : load_options := LoadOptions DEFAULT_SAFE_SCHEMA false.

Lemma submit_answer_witness :
  exists es, submit demo_options [(u "name", EText [u "required"] []); (u "mac", EText [u "mac"] (u "x"))] = Ok (inl es) /\
    exists errors, es = FormFailed errors /\ obj_lookup (u "name") errors <> None /\ obj_lookup (u "mac") errors <> None.
Proof.
  destruct (submit_answer demo_options [(u "name", EText [u "required"] []); (u "mac", EText [u "mac"] (u "x"))] VNull) as [_ H].
  { by apply (bool_decide_unpack _). }
  eexists. split; [vm_compute; reflexivity|]. destruct (H _ ltac:(vm_compute; reflexivity)) as (errors & E & _ & Hf & _).
  exists errors. split; [exact E|]. split; intros Hn.
  - specialize (Hf _ _ ltac:(by left)). rewrite Hn in Hf. vm_compute in Hf. discriminate Hf.
  - specialize (Hf _ _ ltac:(by right; left)). rewrite Hn in Hf. vm_compute in Hf. discriminate Hf.
Defined.
