(* ===== verification/FormRoundTrip.v ===== *)
(** A form that nobody touches: what its editors show, and what they give back,
    for the schemas of resources and data in the format of the form. *)

From Stdlib Require Import ZArith Lia List String Bool.
From stdpp Require Import base list sets list_numbers tactics.
From S2P Require Import Prelude JsNum Js Json SchemaModel ClientYaml SchemaForm TableView FormEditors FormValidation.

(** ** Texts in editors *)

Lemma strip_returns_line s : 13 ∉ s -> strip_returns s = s.
Proof.
  unfold strip_returns. induction s as [|c s IH]; cbn [List.filter]; [done|]. intros [Hc Hs]%not_elem_of_cons.
  replace (c =? 13) with false by lia. cbn [negb]. by rewrite IH.
Qed.

(** ace gives back every text without carriage returns. *)
Lemma detectNewLine_lf s : 13 ∉ s -> detectNewLine s = [10].
Proof.
  induction s as [|c s IH]; cbn [detectNewLine]; [done|]. intros [Hc Hs]%not_elem_of_cons.
  destruct (c =? 10); [done|]. replace (c =? 13) with false by lia. auto.
Qed.

Lemma join_cons_nonempty sep (x : jstr) l : l <> [] -> join sep (x :: l) = x ++ sep ++ join sep l.
Proof. by destruct l. Qed.

Lemma split_lines_join s line : 13 ∉ s -> join [10] (split_lines false line s) = line ++ s.
Proof.
  revert line. induction s as [|c s IH]; cbn [split_lines]; intros line; [by rewrite app_nil_r|].
  intros [Hc Hs]%not_elem_of_cons. replace (c =? 13) with false by lia. destruct (c =? 10) eqn:E; breflect.
  - rewrite join_cons_nonempty; [by rewrite IH, E|]. clear. generalize (@nil Z) as line, false as b.
    induction s as [|c s IH]; intros line b; cbn; repeat case_goal; auto.
  - rewrite IH by done. by rewrite <- app_assoc.
Qed.

Lemma ace_text_lf s : 13 ∉ s -> ace_text s = s.
Proof. intros Hs. unfold ace_text. rewrite detectNewLine_lf by done. by rewrite split_lines_join. Qed.

(** ** Objects that are filled property by property *)

Lemma obj_lookup_map {A B} (g : A -> B) k (l : list (jstr * A)) :
  obj_lookup k (map (fun kv => (kv.1, g kv.2)) l) = g <$> obj_lookup k l.
Proof. induction l as [|[k1 v] l IH]; cbn; [done|]. by destruct (streq k k1). Qed.

Lemma obj_lookup_fold {A} k (l acc : list (jstr * A)) :
  NoDup (obj_keys l) ->
  obj_lookup k (fold_left (fun o kv => obj_set kv.1 kv.2 o) l acc)
  = match obj_lookup k l with Some v => Some v | None => obj_lookup k acc end.
Proof.
  revert acc. induction l as [|[k1 v] l IH]; intros acc; cbn [fold_left obj_lookup]; [done|].
  unfold obj_keys. cbn [map fst]. intros [Hk Hl]%list.NoDup_cons. rewrite IH by done. cbn [fst snd].
  rewrite obj_lookup_set. destruct (streq k k1) eqn:E; [|done]. apply streq_eq in E as ->.
  by rewrite (proj2 (obj_lookup_None k1 l)).
Qed.

Lemma form_object_keys (l : list (jstr * value)) k : k ∈ obj_keys (form_object l) -> k ∈ obj_keys l.
Proof.
  unfold form_object. enough (H : forall acc, k ∈ obj_keys (fold_left (fun o kv => obj_set kv.1 kv.2 o) l acc) -> k ∈ obj_keys l \/ k ∈ obj_keys acc)
    by (intros [Hk | Hk]%H; [done | by apply not_elem_of_nil in Hk]).
  unfold obj_keys at 2. induction l as [|[k1 v] l IH]; intros acc; cbn [fold_left map fst]; [by right|].
  intros [Hk | [-> | Hk]%obj_keys_set]%IH; [left; by right | left; by left | by right].
Qed.

Lemma form_object_lookup k (l : list (jstr * value)) : NoDup (obj_keys l) -> obj_get k (form_object l) = obj_get k l.
Proof. intros H. unfold obj_get, form_object. rewrite obj_lookup_fold by done. by destruct (obj_lookup k l). Qed.

Lemma form_value_get k (f : form) :
  NoDup (obj_keys f) ->
  obj_get k (form_object (map (fun kf => (kf.1, getValue kf.2)) f)) = from_option getValue VUndef (obj_lookup k f).
Proof.
  intros H. rewrite form_object_lookup by (unfold obj_keys in *; by rewrite map_map).
  unfold obj_get. rewrite obj_lookup_map. by destruct (obj_lookup k f).
Qed.

Lemma server_props_ext f b b' ps e :
  (forall c p, (c, p) ∈ ps -> exists x x', get_prop b c = Ok x /\ get_prop b' c = Ok x' /\ f p x = f p x') ->
  server_props f b ps e = server_props f b' ps e.
Proof.
  revert e. induction ps as [|[c p] ps IH]; intros e H; cbn [server_props]; [done|].
  destruct (H c p ltac:(by left)) as (x & x' & -> & -> & E). cbn [res_bind]. rewrite E.
  destruct (f p x') as [v|]; [|done]. cbn [res_bind]. apply IH. intros c' p' Hin. apply H. by right.
Qed.

(** What [server_props] has converted, property by property. *)
Lemma server_props_inv f b ps e w :
  NoDup (map fst ps) -> server_props f b ps e = Ok w ->
  exists o, w = VObj o /\
    (forall c p, (c, p) ∈ ps -> exists x, get_prop b c = Ok x /\ f p x = Ok (obj_get c o)) /\
    (forall c, c ∉ map fst ps -> obj_get c o = obj_get c e).
Proof.
  revert e. induction ps as [|[c p] ps IH]; intros e; cbn [map fst server_props].
  - intros _ [= <-]. exists e. split; [done|]. split; [by intros ? ? ?%not_elem_of_nil | done].
  - intros [Hc Hn]%list.NoDup_cons (x & Hx & (v & Hv & Hs)%res_bind_ok)%res_bind_ok.
    destruct (IH _ Hn Hs) as (o & -> & Hin & Hout). exists o. split; [done|]. split.
    + intros c' p' [[= -> ->] | Hp]%elem_of_cons; [|by apply Hin]. exists x. split; [done|].
      rewrite Hout by done. by rewrite obj_get_set, streq_refl.
    + intros k [Hne Hk]%not_elem_of_cons. rewrite Hout by done. rewrite obj_get_set. apply streq_neq in Hne. by rewrite Hne.
Qed.

Section WithYaml.
Context `{YamlCodec}.
Context `{Browser}.

(** ** The fields of a form *)

(** The editors of the selected fields, each with the property [P] of its
    value. *)
Lemma create_fields_spec (P : jstr -> editor -> Prop) builders o selected fields :
  (forall key, key ∈ selected ->
     exists build e, obj_lookup key builders = Some build /\ build (obj_get key o) = Ok e /\ P key e) ->
  (forall key e, obj_lookup key fields = Some e -> P key e) -> NoDup (obj_keys fields) ->
  exists f, create_fields builders (VObj o) selected fields = Ok f /\ NoDup (obj_keys f) /\
    (forall key e, obj_lookup key f = Some e -> P key e) /\
    (forall key, key ∈ selected \/ obj_lookup key fields <> None <-> obj_lookup key f <> None).
Proof.
  revert fields. induction selected as [|key selected IH]; intros fields Hs Hf Hn; cbn [create_fields truthy get_prop res_bind].
  - exists fields. repeat split; try done; [intros [Hk | Hk]; [by apply not_elem_of_nil in Hk | done] | by right].
  - destruct (Hs key ltac:(by left)) as (build & e & -> & -> & He). cbn [res_bind].
    destruct (IH (obj_set key e fields)) as (f & Ef & Hnf & Hpf & Hkf).
    + intros k Hk. apply Hs. by right.
    + intros k e'. rewrite obj_lookup_set. destruct (streq k key) eqn:E; [|apply Hf]. apply streq_eq in E as ->. by intros [= <-].
    + by apply obj_set_NoDup.
    + exists f. split; [done|]. split; [done|]. split; [done|]. intros k. rewrite <- Hkf, obj_lookup_set, elem_of_cons.
      destruct (streq k key) eqn:E; [apply streq_eq in E as ->; naive_solver | apply streq_neq in E; naive_solver].
Qed.

(** The field of a property, for what does not matter to its editor. *)
Definition field_of (a : schema) (required : bool) (fd : field) : Prop :=
  exists ti h rel,
    typed_field toFormJSON a
      (fun ty fmt opt d it order sub => Field ti ty h (field_validators required a) rel (s_nullable a) fmt opt d it order sub)
    = Ok fd.

Lemma form_fields_ordered a ps fs :
  form_fields toFormJSON a ps = Ok fs -> Forall (fun kp => ordered a kp.1 = true) ps ->
  Forall2 (fun kp kf => kp.1 = kf.1 /\ field_of kp.2 (is_required a kp.1) kf.2) ps fs.
Proof.
  revert fs. induction ps as [|[c p] ps IH]; cbn [form_fields]; intros fs; [intros [= <-] _; constructor|].
  intros Hf [Ho Hps]%Forall_cons_iff. cbn [fst] in Ho. rewrite Ho in Hf.
  apply res_bind_ok in Hf as (fd & Hfd & (fs' & Hfs & [= <-])%res_bind_ok).
  constructor; [|by apply IH]. split; [done|]. by do 3 eexists.
Qed.

Lemma fields_lookup {a : schema} {ps : list (jstr * schema)} {fs : list (jstr * field)} c p :
  Forall2 (fun kp kf => kp.1 = kf.1 /\ field_of kp.2 (is_required a kp.1) kf.2) ps fs ->
  NoDup (map fst ps) -> (c, p) ∈ ps -> exists fd, obj_lookup c fs = Some fd /\ field_of p (is_required a c) fd.
Proof.
  induction 1 as [|[c1 p1] [c2 fd] ps fs [E Hfd] _ IH]; cbn [map fst snd] in *; [by intros _ ?%not_elem_of_nil|].
  intros [Hc Hn]%list.NoDup_cons [[= -> ->] | Hin]%elem_of_cons; cbn [obj_lookup].
  - rewrite E, streq_refl. rewrite <- E. by exists fd.
  - destruct (streq c c2) eqn:Ec; [|by apply IH]. apply streq_eq in Ec. subst. exfalso. apply Hc.
    apply list_elem_of_fmap. by exists (c2, p).
Qed.

(** ** Values that editors carry *)

(** A value that shows as an empty text, and is sent as one. *)
Definition blank (a : schema) (v : value) : Prop :=
  match v with VUndef => s_nullable a = false | VNull | VStr [] => True | _ => False end.

(** A text that the editor [ty] gives back: one line in an input, the value of
    an option, that of the first one for the empty text, in a select. *)
Definition shown_by (ty : jstr) (nullable : bool) (vs : list jstr) (opts : option value) (s : jstr) : Prop :=
  if streq ty (u "Select") then
    exists values selected, render_select nullable vs opts VNull = Ok (values, selected) /\
      match s with [] => head values = Some [] | _ => s ∈ values end
  else if streq ty (u "CodeEditor") then 13 ∉ s
  else 10 ∉ s /\ 13 ∉ s.

(** A number that is read back from its text. *)
Definition text_number (n : num) : Prop := finite n /\ getValue (ENumber [] (num_to_string n)) = VNum n.

(** An item of a list, whose format is [fmt], with the validators [vs]. *)
Definition plain_item (it : schema) (fmt : option jstr) (nullable : bool) (vs : list jstr) (w : value) : Prop :=
  if type_is (u "boolean") it then exists b, w = VBool b
  else if type_is (u "number") it || type_is (u "integer") it then exists n, w = VNum n /\ text_number n
  else if type_is (u "string") it then
    let '(ty, _, opt) := string_editor it fmt in exists s, w = VStr s /\ s <> [] /\ shown_by ty nullable vs opt s
  else False.

(** The editor that an empty list shows is left out of its value. *)
Definition empty_item (it : schema) (fmt : option jstr) (nullable : bool) (vs : list jstr) : Prop :=
  defaultValue it = Ok VUndef /\
  (if type_is (u "number") it || type_is (u "integer") it then True
   else if type_is (u "string") it then let '(ty, _, opt) := string_editor it fmt in shown_by ty nullable vs opt []
   else False).

(** Data, in the format of the form, that the form of a schema carries. *)
Fixpoint editable (a : schema) (required : bool) (v : value) : Prop :=
  let '(Schema _ _ _ _ _ _ _ _ _ _ _ _ _ _ _ props its) := a in
  let vs := field_validators required a in
  if type_is (u "string") a then
    let '(ty, _, opt) := string_editor a (s_format a) in
    exists s, shown_by ty (s_nullable a) vs opt s /\ (v = VStr s \/ s = [] /\ blank a v)
  else if type_is (u "integer") a || type_is (u "number") a then
    blank a v \/ exists n, v = VNum n /\ text_number n
  else if type_is (u "array") a then
    match its with
    | None => False
    | Some it =>
        exists l, v = VArr l /\
          if type_is (u "object") it then l <> [] /\ is_some (s_properties it) = true /\ Forall (editable it false) l
          else match l with
               | [] => empty_item it (s_format a) (s_nullable a) vs
               | _ => Forall (plain_item it (s_format a) (s_nullable a) vs) l
               end
    end
  else if type_is (u "object") a then
    match props with
    | Some ps =>
        exists o, v = VObj o /\ NoDup (map fst ps) /\ Forall (fun kp => ordered a kp.1 = true) ps /\
          each_schema (fun c p => editable p (is_required a c) (obj_get c o)) ps
    | None => exists s, 13 ∉ s /\ (v = VStr s \/ s = [] /\ blank a v)
    end
  else if type_is (u "boolean") a then exists b, v = VBool b
  else False.

(** A value that stands for nothing. *)
Definition blank_value (v : value) : bool := match v with VUndef | VNull | VStr [] => true | _ => false end.

(** An object has no other properties than those its schema lists, at any
    depth. *)
Fixpoint listed (p : schema) (v : value) : Prop :=
  let '(Schema _ _ _ _ _ _ _ _ _ _ _ _ _ _ _ props its) := p in
  if type_is (u "array") p then match its, v with Some it, VArr l => Forall (listed it) l | _, _ => True end
  else if type_is (u "object") p then
    match props, v with
    | Some ps, VObj o => (forall k, k ∈ obj_keys o -> k ∈ map fst ps) /\ each_schema (fun c p => listed p (obj_get c o)) ps
    | Some _, _ => blank_value v = true
    | None, _ => True
    end
  else True.

Definition carries (p : schema) (v : value) (e : editor) : Prop :=
  toServerData p (getValue e) = toServerData p v /\ listed p (getValue e).

(** A schema that is not that of an object with properties. *)
Definition no_props (p : schema) : Prop := type_is (u "object") p = false \/ s_properties p = None.

(** Texts, numbers and switches have no properties. *)
Lemma listed_leaf p v : no_props p -> match v with VArr _ | VObj _ => False | _ => True end -> listed p v.
Proof.
  intros Hn Hv. open_schema p. unfold no_props in Hn. cbn [listed s_properties] in *. destruct (type_is (u "array") _); [by destruct items, v|].
  destruct Hn as [-> | ->]; [done|]. by destruct (type_is _ _).
Qed.

Lemma listed_object a ps o :
  type_is (u "object") a = true -> s_properties a = Some ps ->
  listed a (VObj o) <-> (forall k, k ∈ obj_keys o -> k ∈ map fst ps) /\ Forall (fun kp => listed kp.2 (obj_get kp.1 o)) ps.
Proof.
  intros Ht Hp. open_schema a. unfold type_is in *. cbn [s_type s_properties] in *. subst. destruct ty as [|t|]; try done.
  apply streq_eq in Ht as <-. cbn [listed]. rewrite <- (each_schema_elem (fun c p => listed p (obj_get c o))). done.
Qed.

Lemma listed_array a it l : type_is (u "array") a = true -> s_items a = Some it -> listed a (VArr l) <-> Forall (listed it) l.
Proof.
  intros Ht Hi. open_schema a. unfold type_is in *. cbn [s_type s_items] in *. subst. destruct ty as [|t|]; try done.
  by apply streq_eq in Ht as <-.
Qed.

Lemma blank_sent a v : blank a v -> toServerData a (VStr []) = toServerData a v.
Proof.
  open_schema a. destruct v as [| | | |[|c s]| | | | |]; cbn; try done. intros ->. done.
Qed.

(** *** Texts *)

Lemma first_selected_in s options :
  s ∈ options -> exists i, first_selected [VStr s] options = Some i /\ select_get options (Some i) = VStr s.
Proof.
  induction options as [|o options IH]; [by intros ?%not_elem_of_nil|]. intros Hin. cbn [first_selected].
  destruct (bool_decide (VStr o ∈ [VStr s])) eqn:E; breflect.
  - apply list_elem_of_singleton in E. injection E as ->. by exists O.
  - assert (s ∈ options) as (i & -> & Hi)%IH by (apply elem_of_cons in Hin as [-> | ?]; [exfalso; apply E; by left | done]).
    by exists (S i).
Qed.

Lemma render_select_shows nullable vs opts values selected s v :
  render_select nullable vs opts VNull = Ok (values, selected) ->
  match s with [] => head values = Some [] | _ => s ∈ values end -> v = VStr s \/ s = [] /\ (v = VUndef \/ v = VNull) ->
  exists i, render_select nullable vs opts (initial VNull v) = Ok (values, i) /\ select_get values i = VStr s.
Proof.
  intros Hr Hs Hv.
  assert (Hopt : forall options, renderOptions options VNull = Ok (values, selected) ->
    exists i, renderOptions options (initial VNull v) = Ok (values, i) /\ select_get values i = VStr s).
  { intros options Ho. unfold renderOptions in *. destruct (_getOptionsHtml options) as [html|]; [|done].
    cbn [res_bind] in *. injection Ho as <- <-. set (values := map option_value (parse_options html)) in *.
    destruct s as [|c s].
    - assert (E : truthy (initial VNull v) = false) by (destruct Hv as [-> | (_ & [-> | ->])]; done).
      unfold select_value. rewrite E. eexists. split; [done|]. by destruct values; [|injection Hs as ->].
    - destruct Hv as [-> | [? _]]; [|done]. destruct (first_selected_in _ _ Hs) as (i & Hi & Hg).
      exists (Some i). split; [|done]. cbn [select_value truthy initial select_set select_values res_bind]. by rewrite Hi. }
  unfold render_select in *. destruct opts as [[]|]; try done; [by apply Hopt|].
  destruct (sorted_options _ _ _); [|done]. by apply Hopt.
Qed.

Lemma shown_by_editor fd ty s v :
  ty = u "Select" \/ ty = u "CodeEditor" \/ ty = u "Text" ->
  shown_by ty (f_nullable fd) (f_validators fd) (f_options fd) s -> v = VStr s \/ s = [] /\ (v = VUndef \/ v = VNull) ->
  exists e, simple_editor fd ty v = Ok e /\ getValue e = VStr s.
Proof.
  intros [-> | [-> | ->]] Hs Hv; unfold simple_editor, shown_by in *; cbn [streq bool_decide] in *.
  - destruct Hs as (values & selected & Hr & Hs). destruct (render_select_shows _ _ _ _ _ _ _ Hr Hs Hv) as (i & E & Hi).
    exists (ESelect (f_validators fd) values i). split; [|exact Hi]. cbn -[render_select initial]. by rewrite E.
  - change (13 ∉ s) in Hs. destruct s as [|c s].
    + exists (ECode (f_validators fd) []). split; [|done]. by destruct Hv as [-> | (_ & [-> | ->])].
    + destruct Hv as [-> | [? _]]; [|done]. exists (ECode (f_validators fd) (c :: s)). split; [|done].
      cbn -[ace_text]. by rewrite ace_text_lf.
  - change (10 ∉ s /\ 13 ∉ s) in Hs. destruct Hs as [H10 H13]. exists (EText (f_validators fd) s). split.
    + assert (E : val_text (initial (VStr []) v) = Ok s) by (destruct Hv as [-> | (-> & [-> | ->])]; done).
      cbn -[Text_setValue initial]. unfold Text_setValue. rewrite E. cbn. by rewrite text_value_line.
    + open_value. by rewrite strip_returns_line.
Qed.

Lemma blank_cases a v : blank a v -> v = VStr [] \/ @nil Z = [] /\ (v = VUndef \/ v = VNull).
Proof. destruct v as [| | | |[|]| | | | |]; cbn; naive_solver. Qed.

Lemma string_editor_kinds e fmt : let '(ty, _, _) := string_editor e fmt in ty = u "Select" \/ ty = u "CodeEditor" \/ ty = u "Text".
Proof. unfold string_editor. destruct (s_enum e); [by left|]. destruct fmt; [|by right; right]. case_goal; auto. Qed.

(** The editor of a text, and of a value that shows as an empty one. *)
Lemma text_carried a fd ty s v :
  ty = u "Select" \/ ty = u "CodeEditor" \/ ty = u "Text" ->
  shown_by ty (f_nullable fd) (f_validators fd) (f_options fd) s -> v = VStr s \/ s = [] /\ blank a v -> no_props a ->
  exists e, simple_editor fd ty v = Ok e /\ carries a v e.
Proof.
  intros Hty Hs Hv Hnp. destruct (shown_by_editor fd ty s v Hty Hs) as (e & He & Hg).
  - destruct Hv as [-> | (-> & Hb)]; [by left | by apply blank_cases in Hb].
  - exists e. split; [done|]. unfold carries. rewrite Hg. split; [|by apply listed_leaf]. destruct Hv as [-> | (-> & Hb)]; [done | by apply blank_sent].
Qed.

(** *** Numbers *)

Lemma number_shown fd n :
  text_number n -> exists e, simple_editor fd (u "Number") (VNum n) = Ok e /\ getValue e = VNum n.
Proof.
  intros [Hf Hg]. eexists. split; [reflexivity|]. unfold number_text, initial.
  assert (E : number_value (match Some n with None | Some NNaN => [] | Some n => num_to_string n end) = num_to_string n)
    by (destruct n; try done; by rewrite number_value_text).
  rewrite E. exact Hg.
Qed.

Lemma number_blank fd v :
  v = VStr [] \/ v = VUndef \/ v = VNull -> exists e, simple_editor fd (u "Number") v = Ok e /\ getValue e = VStr [].
Proof.
  intros Hv. eexists. split; [reflexivity|]. unfold number_text.
  assert (E : match initial (VStr []) v with VNum n => Some n | VStr (c :: s) => Some (parseFloat (c :: s)) | _ => None end = None)
    by (destruct Hv as [-> | [-> | ->]]; done).
  rewrite E. open_value. by rewrite number_value_blank.
Qed.

Lemma number_carried a fd v :
  blank a v \/ (exists n, v = VNum n /\ text_number n) -> no_props a ->
  exists e, simple_editor fd (u "Number") v = Ok e /\ carries a v e.
Proof.
  intros [Hb | (n & -> & Hn)] Hnp.
  - destruct (number_blank fd v) as (e & He & Hg); [apply blank_cases in Hb; tauto|]. exists e. split; [done|].
    unfold carries. rewrite Hg. split; [by apply blank_sent | by apply listed_leaf].
  - destruct (number_shown fd n Hn) as (e & He & Hg). exists e. split; [done|]. unfold carries. rewrite Hg. split; [done | by apply listed_leaf].
Qed.

(** Integers that numbers represent exactly. *)
Lemma integer_text_number z : Z.abs z <= max_safe -> text_number (num_of_Z z).
Proof.
  intros Hz. pose proof (num_text z Hz) as Ht. unfold text_number. rewrite (num_of_Z_safe z Hz) in *. split; [done|].
  cbn [json_num] in Ht. rewrite Ht. open_value. set (ds := to_radix 10 (Z.abs z)).
  assert (Hd : Forall (fun c => 48 <= c <= 57) ds).
  { eapply Forall_impl; [|apply (to_radix_digits 10 (Z.abs z)); lia]. intros c Hc. by apply digit_range. }
  assert (Hs : strip_returns ((if z <? 0 then [45] else []) ++ ds) = (if z <? 0 then [45] else []) ++ ds).
  { apply strip_returns_line. rewrite elem_of_app. intros [Hc | Hc].
    - destruct (z <? 0); [apply list_elem_of_singleton in Hc; done | by apply not_elem_of_nil in Hc].
    - rewrite Forall_elem in Hd. apply Hd in Hc. lia. }
  rewrite Hs. destruct ((if z <? 0 then [45] else []) ++ ds) as [|c s] eqn:E.
  { apply app_nil in E as [_ E]. by apply to_radix_not_nil in E. }
  rewrite <- E. unfold ds. rewrite parseFloat_digits by lia. f_equal.
  change (num_make (z <? 0) (Z.abs z)) with (num_of_Z z). by apply num_of_Z_safe.
Qed.

(** ** Objects *)

Definition builders_of (fs : list (jstr * field)) : list (jstr * (value -> res editor)) :=
  map (fun kf => (kf.1, fun v => editor_of kf.2 (f_type kf.2) v)) fs.

(** The order of a form names exactly the properties. *)
Definition order_ok (order : option (list jstr)) (ps : list (jstr * schema)) : Prop :=
  match order with Some l => forall k, k ∈ l <-> k ∈ map fst ps | None => True end.

Definition field_carries (a : schema) : Prop :=
  forall required fd v, field_of a required fd -> editable a required v ->
    exists e, editor_of fd (f_type fd) v = Ok e /\ carries a v e.

Lemma toServerData_object a ps o :
  type_is (u "object") a = true -> s_properties a = Some ps -> toServerData a (VObj o) = server_props toServerData (VObj o) ps [].
Proof.
  open_schema a. unfold type_is. cbn [s_type s_properties]. intros Ht ->. cbn [toServerData].
  rewrite andb_false_r. destruct ty as [|t|]; try done. apply streq_eq in Ht as <-. done.
Qed.

(** The form of an object carries it, when the forms of its properties do. *)
Lemma object_carried a ps fs o order :
  type_is (u "object") a = true -> s_properties a = Some ps -> form_fields toFormJSON a ps = Ok fs ->
  NoDup (map fst ps) -> Forall (fun kp => ordered a kp.1 = true) ps ->
  Forall (fun kp => field_carries kp.2 /\ editable kp.2 (is_required a kp.1) (obj_get kp.1 o)) ps -> order_ok order ps ->
  exists f, make_form (builders_of fs) order (VObj o) = Ok f /\ NoDup (obj_keys f) /\
    (forall c p, (c, p) ∈ ps -> exists e, obj_lookup c f = Some e /\ carries p (obj_get c o) e) /\
    (forall k, k ∈ obj_keys f -> k ∈ map fst ps).
Proof.
  intros Ht Hp Hfs Hn Ho Hc Hord. pose proof (form_fields_ordered a ps fs Hfs Ho) as Hf2.
  assert (Hkeys : obj_keys (builders_of fs) = map fst ps).
  { unfold obj_keys, builders_of. rewrite map_map. clear -Hf2. induction Hf2 as [|[] [] ? ? [E _] _ IH]; cbn in *; congruence. }
  destruct (create_fields_spec (fun c e => forall p, (c, p) ∈ ps -> carries p (obj_get c o) e)
              (builders_of fs) o (default (obj_keys (builders_of fs)) order) []) as (f & Ef & Hnf & Hpf & Hkf).
  - intros key Hkey.
    assert (Hin : key ∈ map fst ps) by (destruct order; cbn in *; [by apply Hord | by rewrite <- Hkeys]).
    apply list_elem_of_fmap in Hin as ([c p] & -> & Hin). cbn [fst].
    destruct (fields_lookup c p Hf2 Hn Hin) as (fd & Hl & Hfd). rewrite Forall_elem in Hc.
    destruct (Hc _ Hin) as [Hcar Hed]. destruct (Hcar _ fd _ Hfd Hed) as (e & He & Hce).
    exists (fun v => editor_of fd (f_type fd) v), e. split; [|split; [done|]].
    + unfold builders_of. rewrite (obj_lookup_map (fun fd v => editor_of fd (f_type fd) v)). by rewrite Hl.
    + intros p' Hp'. assert (p' = p) as ->; [|done].
      pose proof (obj_lookup_NoDup c p ps Hn Hin) as H1. pose proof (obj_lookup_NoDup c p' ps Hn Hp') as H2. congruence.
  - done.
  - constructor.
  - assert (Hks : forall k, obj_lookup k f <> None <-> k ∈ map fst ps).
    { intros k. rewrite <- Hkf. destruct order as [l|]; cbn in *; [rewrite (Hord k) | rewrite Hkeys]; naive_solver. }
    exists f. split; [exact Ef|]. split; [done|]. split.
    + intros c p Hin. assert (Hk : obj_lookup c f <> None) by (apply Hks, list_elem_of_fmap; by exists (c, p)).
      destruct (obj_lookup c f) as [e|] eqn:E; [|done]. exists e. split; [done|]. by apply Hpf.
    + intros k Hk. apply Hks. intros E. by apply obj_lookup_None in E.
Qed.

(** What such a form gives back is sent as the object is. *)
Lemma form_sent a ps f o :
  type_is (u "object") a = true -> s_properties a = Some ps -> NoDup (obj_keys f) ->
  (forall c p, (c, p) ∈ ps -> exists e, obj_lookup c f = Some e /\ carries p (obj_get c o) e) ->
  (forall k, k ∈ obj_keys f -> k ∈ map fst ps) ->
  toServerData a (form_value f) = toServerData a (VObj o) /\ listed a (form_value f).
Proof.
  intros Ht Hp Hn Hf Hk. unfold form_value. split.
  - rewrite !(toServerData_object a ps) by done. apply server_props_ext.
    intros c p Hin. do 2 eexists. split; [reflexivity|]. split; [reflexivity|]. destruct (Hf c p Hin) as (e & He & Hc & _).
    rewrite form_value_get by done. rewrite He. exact Hc.
  - apply (listed_object a ps); try done. split.
    + intros k Hin. apply Hk. apply form_object_keys in Hin. unfold obj_keys in *. by rewrite map_map in Hin.
    + apply Forall_elem. intros [c p] Hin. cbn [fst snd]. destruct (Hf c p Hin) as (e & He & _ & Hc).
      rewrite form_value_get by done. by rewrite He.
Qed.

Lemma field_order_ok a ps order :
  s_properties a = Some ps -> Forall (fun kp => ordered a kp.1 = true) ps -> field_order a = Ok order -> order_ok order ps.
Proof.
  unfold field_order, ordered. intros ->. destruct (s_propertiesOrder a) as [po|]; intros Ho [= <-]; [|done].
  intros k. rewrite list_elem_of_In, filter_In, <- list_elem_of_In. rewrite bool_decide_eq_true. split; [by intros [_ ?]|].
  intros Hk. split; [|done]. apply list_elem_of_fmap in Hk as (kp & -> & Hin). rewrite Forall_elem in Ho.
  apply Ho in Hin. by apply bool_decide_eq_true in Hin.
Qed.

(** The nested form of an object. *)
Lemma nested_carried a ps fs o order required :
  type_is (u "object") a = true -> s_properties a = Some ps -> toFormJSON a = Ok fs -> field_order a = Ok order ->
  Forall (fun kp => field_carries kp.2) ps -> editable a required (VObj o) ->
  exists f, make_form (builders_of fs) order (VObj o) = Ok f /\
    toServerData a (form_value f) = toServerData a (VObj o) /\ listed a (form_value f).
Proof.
  intros Ht Hp Hfs Ho Hc He.
  assert (H' : form_fields toFormJSON a ps = Ok fs /\ NoDup (map fst ps) /\ Forall (fun kp => ordered a kp.1 = true) ps /\
               each_schema (fun c p => editable p (is_required a c) (obj_get c o)) ps).
  { open_schema a. unfold type_is in *. cbn [s_type s_properties] in *. subst props. destruct ty as [|t|]; try done.
    apply streq_eq in Ht as <-. cbn in He. destruct He as (o' & [= <-] & Hn & Hord & He). cbn in Hfs. done. }
  destruct H' as (Hff & Hn & Hord & He'). rewrite each_schema_elem in He'.
  destruct (object_carried a ps fs o order Ht Hp Hff Hn Hord) as (f & Ef & Hnf & Hf & Hk).
  - rewrite Forall_elem in *. intros kp Hin. split; auto.
  - by apply (field_order_ok a).
  - exists f. split; [done|]. by apply (form_sent a ps).
Qed.

(** ** Lists *)

Lemma res_map_exists {A B} (g : A -> res B) (P : A -> B -> Prop) l :
  Forall (fun w => exists e, g w = Ok e /\ P w e) l -> exists es, res_map g l = Ok es /\ Forall2 P l es.
Proof.
  induction 1 as [|w l (e & He & Hp) _ (es & Hes & Hps)]; cbn [res_map]; [by exists []|].
  exists (e :: es). rewrite He. cbn [res_bind]. rewrite Hes. split; [done | by constructor].
Qed.

Lemma list_carried a it vs l items :
  type_is (u "array") a = true -> s_items a = Some it -> l <> [] ->
  Forall2 (fun w e => kept (getValue e) = true /\ carries it w e) l items ->
  carries a (VArr l) (EList vs items).
Proof.
  intros Ht Hi Hne Hl. unfold carries. open_value.
  assert (E : List.filter kept (map getValue items) = map getValue items).
  { clear -Hl. induction Hl as [|w e l items [Hk _] _ IH]; cbn; [done|]. rewrite Hk. by rewrite IH. }
  rewrite E. assert (E2 : res_map (toServerData it) (map getValue items) = res_map (toServerData it) l).
  { clear -Hl. induction Hl as [|w e l items [_ [Hs _]] _ IH]; cbn; [done|]. rewrite Hs. destruct (toServerData it w); cbn; [by rewrite IH | done]. }
  assert (Hall : Forall (listed it) (map getValue items)).
  { clear -Hl. induction Hl as [|w e l items [_ [_ Hs]] _ IH]; cbn; [done | by constructor]. }
  split; [|by apply (listed_array a it)]. clear Hall.
  open_schema a. unfold type_is in Ht. cbn [s_type s_items] in *. subst items0. destruct ty as [|t|]; try done.
  apply streq_eq in Ht as <-. destruct Hl as [|w e l items _ _]; [done|]. cbn [map] in *.
  cbn [toServerData s_nullable]. rewrite !andb_false_r. unfold type_is. cbn [s_type]. rewrite streq_refl. by rewrite E2.
Qed.

(** ** Every schema *)

Lemma editor_of_simple fd ty v :
  streq ty (u "Object") = false -> streq ty (u "List") = false -> editor_of fd ty v = simple_editor fd ty v.
Proof. destruct fd. cbn [editor_of]. by intros -> ->. Qed.

Lemma text_kind_simple ty :
  ty = u "Select" \/ ty = u "CodeEditor" \/ ty = u "Text" -> streq ty (u "Object") = false /\ streq ty (u "List") = false.
Proof. by intros [-> | [-> | ->]]. Qed.

(** The items of a list that are no objects. *)
Lemma plain_carried fd it fmt w :
  plain_item it fmt (f_nullable fd) (f_validators fd) w ->
  (if type_is (u "string") it then f_options fd = (string_editor it fmt).2 else True) ->
  exists e, simple_editor fd
    (if type_is (u "boolean") it then u "Checkbox"
     else if type_is (u "number") it || type_is (u "integer") it then u "Number"
     else (string_editor it fmt).1.1) w = Ok e /\
    kept (getValue e) = true /\ carries it w e.
Proof.
  intros Hpl. assert (Hnp : no_props it).
  { left. revert Hpl. unfold plain_item, type_is. destruct (s_type it) as [|t|]; try done.
    destruct (streq (u "object") t) eqn:E; [|done]. by apply streq_eq in E as <-. }
  revert Hpl. unfold plain_item. destruct (type_is (u "boolean") it); [|destruct (_ || _)].
  - intros (b & ->) _. exists (ECheckbox (f_validators fd) b). split; [by destruct b|]. split; [done|]. split; [done | by apply listed_leaf].
  - intros (n & -> & Hn) _. destruct (number_shown fd n Hn) as (e & He & Hg). exists e. unfold carries. rewrite Hg.
    split; [done|]. split; [done|]. split; [done | by apply listed_leaf].
  - destruct (type_is (u "string") it); [|done]. pose proof (string_editor_kinds it fmt) as Hk.
    destruct (string_editor it fmt) as [[ty x] opt]. intros (s & -> & Hs & Hsh) Hopt. cbn [fst snd] in *.
    destruct (shown_by_editor fd ty s (VStr s) Hk) as (e & He & Hg); [by rewrite Hopt | by left|].
    exists e. unfold carries. rewrite Hg. split; [done|]. split; [by destruct s|]. split; [done | by apply listed_leaf].
Qed.

Lemma empty_carried fd it fmt :
  empty_item it fmt (f_nullable fd) (f_validators fd) -> type_is (u "boolean") it = false ->
  (if type_is (u "string") it then f_options fd = (string_editor it fmt).2 else True) ->
  exists e, simple_editor fd
    (if type_is (u "number") it || type_is (u "integer") it then u "Number" else (string_editor it fmt).1.1) VUndef = Ok e /\
    getValue e = VStr [].
Proof.
  unfold empty_item. intros (_ & H1) _. destruct (_ || _).
  - intros _. apply number_blank. by right; left.
  - destruct (type_is (u "string") it); [|done]. pose proof (string_editor_kinds it fmt) as Hk.
    destruct (string_editor it fmt) as [[ty x] opt]. cbn [fst snd] in *. intros Hopt.
    apply (shown_by_editor fd ty [] VUndef Hk); [by rewrite Hopt | by right; split; [|left]].
Qed.

(** A schema has one type. *)
Lemma array_only a : type_is (u "array") a = true ->
  type_is (u "string") a = false /\ type_is (u "integer") a || type_is (u "number") a = false.
Proof. unfold type_is. destruct (s_type a) as [|t|]; try done. by intros <-%streq_eq. Qed.

Lemma object_only a : type_is (u "object") a = true ->
  type_is (u "string") a = false /\ type_is (u "integer") a || type_is (u "number") a = false /\
  type_is (u "array") a = false.
Proof. unfold type_is. destruct (s_type a) as [|t|]; try done. by intros <-%streq_eq. Qed.

(** The field of a list, by what its items are. *)
Lemma list_field self e it mk fd :
  type_is (u "string") e = false -> type_is (u "integer") e || type_is (u "number") e = false ->
  type_is (u "array") e = true -> s_items e = Some it -> typed_field self e mk = Ok fd ->
  exists d, defaultValue it = Ok d /\
    if type_is (u "object") it then
      exists order sub, field_order it = Ok order /\ self it = Ok sub /\
        fd = mk (u "List") None None d (Some (u "Object")) order (Some sub)
    else if type_is (u "boolean") it then fd = mk (u "List") None None d (Some (u "Checkbox")) None None
    else if type_is (u "number") it || type_is (u "integer") it
    then fd = mk (u "List") None None d (Some (u "Number")) None None
    else if type_is (u "string") it then
      let '(ty, fmt, opt) := string_editor it (s_format e) in fd = mk (u "List") fmt opt d (Some ty) None None
    else fd = mk (u "List") None None d None None None.
Proof.
  unfold typed_field. intros -> -> ->. open_schema e. cbn [s_items s_format]. intros ->.
  intros (d1 & Hd & Hf)%res_bind_ok. exists d1. split; [done|]. destruct (type_is (u "object") it).
  - apply res_bind_ok in Hf as (order & Ho & (sub & Hs & [= <-])%res_bind_ok). by exists order, sub.
  - repeat (case_goal; [by injection Hf as <-|]). destruct (type_is (u "string") it); [|by injection Hf as <-].
    destruct (string_editor it f) as [[ty' fmt] opt]. by injection Hf as <-.
Qed.

Lemma is_boolean_not it : type_is (u "boolean") it = true ->
  type_is (u "string") it = false /\ type_is (u "number") it || type_is (u "integer") it = false.
Proof. unfold type_is. destruct (s_type it) as [|t|]; try done. by intros <-%streq_eq. Qed.

Lemma number_not_string it : type_is (u "number") it || type_is (u "integer") it = true -> type_is (u "string") it = false.
Proof. unfold type_is. destruct (s_type it) as [|t|]; try done. by intros [<-%streq_eq | <-%streq_eq]%orb_true_iff. Qed.

(** The editor of the items of a list, when they are no objects. *)
Definition item_type (it : schema) (fmt : option jstr) : jstr :=
  if type_is (u "boolean") it then u "Checkbox"
  else if type_is (u "number") it || type_is (u "integer") it then u "Number"
  else (string_editor it fmt).1.1.

Lemma list_field_plain a it required fd :
  field_of a required fd -> type_is (u "array") a = true -> s_items a = Some it -> type_is (u "object") it = false ->
  type_is (u "boolean") it || (type_is (u "number") it || type_is (u "integer") it) || type_is (u "string") it = true ->
  defaultValue it = Ok (f_default fd) /\ f_type fd = u "List" /\ f_itemType fd = Some (item_type it (s_format a)) /\
  f_nullable fd = s_nullable a /\ f_validators fd = field_validators required a /\
  streq (item_type it (s_format a)) (u "Object") = false /\
  (if type_is (u "string") it then f_options fd = (string_editor it (s_format a)).2 else True).
Proof.
  intros (ti & h & rel & Hfd) Ht Hi Hno Hkind.
  pose proof (array_only a Ht) as Hts.
  destruct Hts as [Hs1 Hs2]. destruct (list_field _ _ it _ _ Hs1 Hs2 Ht Hi Hfd) as (d & Hd & Hf). rewrite Hno in Hf. clear Hfd.
  unfold item_type. pose proof (is_boolean_not it) as Hb. pose proof (number_not_string it) as Hn.
  pose proof (string_editor_kinds it (s_format a)) as Hk.
  destruct (type_is (u "boolean") it); [destruct (Hb eq_refl) as [E _]; rewrite E, Hf; done|].
  destruct (type_is (u "number") it || type_is (u "integer") it); [rewrite (Hn eq_refl), Hf; done|].
  destruct (type_is (u "string") it); [|done]. destruct (string_editor it (s_format a)) as [[ty x] opt]. rewrite Hf.
  cbn. destruct (text_kind_simple ty Hk) as [-> _]. done.
Qed.

Lemma list_editor_plain fd ity v w ws :
  f_type fd = u "List" -> f_itemType fd = Some ity -> streq ity (u "Object") = false ->
  list_values v (f_default fd) = Ok (w :: ws) ->
  editor_of fd (f_type fd) v
  = (items <-? res_map (simple_editor fd ity) (w :: ws); Ok (EList (f_validators fd) items)).
Proof. destruct fd. cbn. intros -> -> Ho Hv. cbn. rewrite Hv. cbn [res_bind]. by rewrite Ho. Qed.

(** The list editor, when its items are no objects. *)
Lemma list_of_plain a it required fd l :
  field_of a required fd -> type_is (u "array") a = true -> s_items a = Some it -> type_is (u "object") it = false ->
  match l with
  | [] => empty_item it (s_format a) (s_nullable a) (field_validators required a)
  | _ => Forall (plain_item it (s_format a) (s_nullable a) (field_validators required a)) l
  end ->
  exists e, editor_of fd (f_type fd) (VArr l) = Ok e /\ carries a (VArr l) e.
Proof.
  intros Hfd Ht Hi Hno Hl.
  assert (Hkind : type_is (u "boolean") it || (type_is (u "number") it || type_is (u "integer") it) || type_is (u "string") it = true).
  { destruct l as [|w l]; [destruct Hl as [_ Hl] | apply Forall_inv in Hl; unfold plain_item in Hl];
      destruct (type_is (u "boolean") it), (type_is (u "number") it || type_is (u "integer") it), (type_is (u "string") it); done. }
  destruct (list_field_plain a it required fd Hfd Ht Hi Hno Hkind) as (Hd & E1 & E2 & E4 & E5 & E6 & E7).
  rewrite <- E4, <- E5 in Hl. destruct l as [|w l].
  - pose proof Hl as (Hd' & Hl'). rewrite Hd in Hd'. injection Hd' as Hd'.
    assert (Hb : type_is (u "boolean") it = false).
    { destruct (type_is (u "boolean") it) eqn:E; [|done]. destruct (is_boolean_not it E) as [H1 H2]. by rewrite H1, H2 in Hl'. }
    destruct (empty_carried fd it (s_format a) Hl Hb E7) as (e & He & Hg).
    exists (EList (f_validators fd) [e]). erewrite list_editor_plain by (try done; cbn; by rewrite Hd').
    unfold item_type. rewrite Hb, Hd'. cbn [res_map]. rewrite He.
    split; [done|]. unfold carries. open_value; cbn [map List.filter]. rewrite Hg. split; [done | by apply (listed_array a it)].
  - destruct (res_map_exists (simple_editor fd (item_type it (s_format a)))
                (fun w e => kept (getValue e) = true /\ carries it w e) (w :: l)) as (items & Hit & Hf2).
    { eapply Forall_impl; [|exact Hl]. intros w' Hw. by apply (plain_carried fd it (s_format a)). }
    exists (EList (f_validators fd) items). erewrite list_editor_plain by done. rewrite Hit. split; [done|]. by apply (list_carried a it).
Qed.

(** The list editor, when its items are objects. *)
Lemma list_of_objects a it required fd l :
  field_of a required fd -> type_is (u "array") a = true -> s_items a = Some it -> type_is (u "object") it = true ->
  l <> [] -> is_some (s_properties it) = true -> Forall (editable it false) l ->
  (forall ps, s_properties it = Some ps -> Forall (fun kp => field_carries kp.2) ps) ->
  exists e, editor_of fd (f_type fd) (VArr l) = Ok e /\ carries a (VArr l) e.
Proof.
  intros (ti & h & rel & Hfd) Ht Hi Hob Hne Hp Hl Hps.
  pose proof (array_only a Ht) as Hts.
  destruct Hts as [Hs1 Hs2]. destruct (list_field _ _ it _ _ Hs1 Hs2 Ht Hi Hfd) as (d & Hd & Hf). rewrite Hob in Hf. clear Hfd.
  destruct Hf as (order & sub & Ho & Hsub & ->). destruct (s_properties it) as [ps|] eqn:Eps; [|done].
  destruct (res_map_exists (fun w => fs <-? make_form (builders_of sub) order w; Ok (EObject (field_validators required a) fs))
              (fun w e => kept (getValue e) = true /\ carries it w e) l) as (items & Hit & Hf2).
  { eapply Forall_impl; [|exact Hl]. intros w Hw.
    assert (exists o, w = VObj o) as (o & ->).
    { destruct it. unfold type_is in Hob. cbn in Hob, Eps. subst. destruct s_type as [|t|]; try done.
      apply streq_eq in Hob as <-. cbn in Hw. destruct Hw as (o & -> & _). by exists o. }
    destruct (nested_carried it ps sub o order false) as (f & Ef & Hf); [done..|by apply Hps|done|].
    exists (EObject (field_validators required a) f). rewrite Ef. done. }
  exists (EList (field_validators required a) items). split; [|by apply (list_carried a it)].
  destruct l as [|w l]; [done|]. cbn [editor_of f_type list_values res_bind].
  change (streq (u "List") (u "Object")) with false. change (streq (u "List") (u "List")) with true.
  change (streq (u "Object") (u "Object")) with true. fold (builders_of sub). cbn iota. by rewrite Hit.
Qed.

(** Every schema carries its data, and so do those of its properties. *)
Definition schema_carries (a : schema) : Prop :=
  field_carries a /\ forall ps, s_properties a = Some ps -> Forall (fun kp => field_carries kp.2) ps.

Lemma array_carried a : type_is (u "array") a = true ->
  (forall it, s_items a = Some it -> schema_carries it) -> field_carries a.
Proof.
  intros Ht Hi required fd v Hfd Hed. pose proof (list_of_objects a) as Hlo. pose proof (list_of_plain a) as Hlp.
  open_schema a. unfold type_is in *. cbn [s_type s_items s_format s_nullable] in *. destruct ty as [|t|]; try done.
  apply streq_eq in Ht as <-. destruct items as [it|]; [|done]. destruct Hed as (l & -> & Hl).
  change (if type_is (u "object") it
          then l <> [] /\ is_some (s_properties it) = true /\ Forall (editable it false) l
          else match l with
               | [] => empty_item it f n (field_validators required (Schema (TyStr (u "array")) ti d f n og rel df en op rc pm vw rq po props (Some it)))
               | _ => Forall (plain_item it f n (field_validators required (Schema (TyStr (u "array")) ti d f n og rel df en op rc pm vw rq po props (Some it)))) l
               end) in Hl.
  destruct (type_is (u "object") it) eqn:E.
  - destruct Hl as (Hne & Hp & Hl). apply (Hlo it required); try done. intros ps Hps. by apply (proj2 (Hi it eq_refl)).
  - by apply (Hlp it required).
Qed.

Lemma object_field_carried a ps : type_is (u "object") a = true -> s_properties a = Some ps ->
  Forall (fun kp => field_carries kp.2) ps -> field_carries a.
Proof.
  intros Ht Hp Hc required fd v (ti & h & rel & Hfd) Hed. pose proof (nested_carried a ps) as Hn.
  assert (exists o, v = VObj o) as (o & ->).
  { open_schema a. unfold type_is in *. cbn [s_type s_properties] in *. subst. destruct ty as [|t|]; try done.
    apply streq_eq in Ht as <-. destruct Hed as (o & -> & _). by exists o. }
  unfold typed_field in Hfd.
  pose proof (object_only a Ht) as Hts.
  destruct Hts as (E1 & E2 & E3). rewrite E1, E2, E3, Ht, Hp in Hfd.
  apply res_bind_ok in Hfd as (sub & Hs & (order & Ho & [= <-])%res_bind_ok).
  destruct (Hn sub o order required) as (f & Ef & Hf); [done..|]. exists (EObject (field_validators required a) f).
  split; [|exact Hf]. cbn [editor_of f_type]. change (streq (u "Object") (u "Object")) with true. fold (builders_of sub).
  cbn [initial]. by rewrite Ef.
Qed.

Lemma code_field_carried a : type_is (u "object") a = true -> s_properties a = None -> field_carries a.
Proof.
  intros Ht Hp required fd v (ti & h & rel & Hfd) Hed. unfold typed_field in Hfd.
  pose proof (object_only a Ht) as Hts.
  destruct Hts as (E1 & E2 & E3). rewrite E1, E2, E3, Ht, Hp in Hfd. injection Hfd as <-.
  assert (exists s, 13 ∉ s /\ (v = VStr s \/ s = [] /\ blank a v)) as (s & Hs & Hv).
  { clear E1 E2 E3. open_schema a. unfold type_is in *. cbn [s_type s_properties] in *. subst. destruct ty as [|t|]; try done.
    apply streq_eq in Ht as <-. exact Hed. }
  rewrite editor_of_simple by done. apply (text_carried a _ _ s); [by right; left | done | done | by right].
Qed.

Lemma simple_field_carried a :
  type_is (u "array") a = false -> type_is (u "object") a = false -> field_carries a.
Proof.
  intros Ha Ho required fd v (ti & h & rel & Hfd) Hed. unfold typed_field in Hfd. rewrite Ha, Ho in Hfd.
  pose proof (string_editor_kinds a (s_format a)) as Hk.
  destruct a as [ty ti' de fm nu og re df en op rc pm vw rq po props its]. cbn [editable] in Hed.
  rewrite Ha, Ho in Hed. cbn [s_format] in *. destruct (type_is (u "string") _).
  { destruct (string_editor _ fm) as [[ty' fmt] opt]. injection Hfd as <-.
    destruct Hed as (s & Hs & Hv), (text_kind_simple ty' Hk). rewrite editor_of_simple by done. apply (text_carried _ _ ty' s); try done. by left. }
  destruct (_ || _).
  { injection Hfd as <-. rewrite editor_of_simple by done. apply number_carried; [done | by left]. }
  destruct (type_is (u "boolean") _); [|done]. injection Hfd as <-. destruct Hed as (b & ->).
  exists (ECheckbox (field_validators required (Schema ty ti' de fm nu og re df en op rc pm vw rq po props its)) b).
  split; [by destruct b|]. split; [done | apply listed_leaf; [by left | done]].
Qed.

Lemma schema_carries_all a : schema_carries a.
Proof.
  induction a as [a IHp IHi] using schema_ind'.
  assert (Hps : forall ps, s_properties a = Some ps -> Forall (fun kp => field_carries kp.2) ps).
  { intros ps Hp. eapply Forall_impl; [|by apply IHp]. by intros kp [H1 _]. }
  split; [|exact Hps]. destruct (type_is (u "array") a) eqn:Ea; [by apply array_carried|].
  destruct (type_is (u "object") a) eqn:Eo; [|by apply simple_field_carried].
  destruct (s_properties a) as [ps|] eqn:Ep; [apply (object_field_carried a ps); auto | by apply code_field_carried].
Qed.

(** ** The dialog *)

Lemma updateDialogSchema_nil fs : updateDialogSchema [] fs = fs.
Proof.
  unfold updateDialogSchema. induction fs as [|[k fd] fs IH]; cbn [map fst snd]; [done|]. rewrite IH. do 2 f_equal.
  destruct fd as [? ? ? ? [r|] ? ? [[]|] ? ? ? ?]; try done. unfold relation_field. by rewrite andb_false_r.
Qed.

Lemma editable_object a ps required l :
  type_is (u "object") a = true -> s_properties a = Some ps -> editable a required l ->
  exists o, l = VObj o /\ NoDup (map fst ps) /\ Forall (fun kp => ordered a kp.1 = true) ps /\
    Forall (fun kp => editable kp.2 (is_required a kp.1) (obj_get kp.1 o)) ps.
Proof.
  intros Ht Hp He. open_schema a. unfold type_is in *. cbn [s_type s_properties] in *. subst. destruct ty as [|t|]; try done.
  apply streq_eq in Ht as <-. destruct He as (o & -> & Hn & Ho & He). exists o. by rewrite each_schema_elem in He.
Qed.

Lemma dialog_carried a ps order fs l :
  type_is (u "object") a = true -> s_properties a = Some ps -> s_propertiesOrder a = Some order ->
  toFormJSON a = Ok fs -> editable a false l ->
  exists f, dialog_form [] fs (Some order) l = Ok f /\ NoDup (map fst ps) /\ NoDup (obj_keys f) /\
    toServerData a (form_value f) = toServerData a l /\ listed a (form_value f).
Proof.
  intros Ht Hp Hpo Hfs He. destruct (editable_object a ps false l Ht Hp He) as (o & -> & Hn & Ho & Hed).
  assert (Hff : form_fields toFormJSON a ps = Ok fs) by (destruct a; cbn in *; by subst).
  pose proof (form_fields_ordered a ps fs Hff Ho) as Hf2.
  assert (Hkeys : obj_keys fs = map fst ps).
  { clear -Hf2. unfold obj_keys. induction Hf2 as [|[] [] ? ? [E _] _ IH]; cbn in *; congruence. }
  destruct (object_carried a ps fs o (Some (List.filter (fun k => obj_has k fs) order))) as (f & Ef & Hnf & Hf & Hk); try done.
  - rewrite Forall_elem in *. intros kp Hin. split; [|by apply Hed]. apply schema_carries_all.
  - intros k. rewrite list_elem_of_In, filter_In, <- list_elem_of_In, obj_has_keys, Hkeys. split; [by intros [_ ?]|].
    intros Hk. split; [|done]. apply list_elem_of_fmap in Hk as (kp & -> & Hin). rewrite Forall_elem in Ho.
    apply Ho in Hin. unfold ordered in Hin. rewrite Hpo in Hin. by apply bool_decide_eq_true in Hin.
  - exists f. unfold dialog_form. rewrite updateDialogSchema_nil. split; [done|]. split; [done|]. split; [done|]. by apply (form_sent a ps).
Qed.

(** Changing one field changes its property. *)
Lemma edit_sent a ps f k p e y m w :
  type_is (u "object") a = true -> s_properties a = Some ps -> NoDup (map fst ps) -> NoDup (obj_keys f) ->
  (k, p) ∈ ps -> toServerData p (getValue e) = Ok y ->
  toServerData a (form_value f) = Ok w -> w ≈ VObj m ->
  exists w', toServerData a (form_value (obj_set k e f)) = Ok w' /\ w' ≈ VObj (obj_set k y m).
Proof.
  intros Ht Hp Hn Hnf Hk Hy Hw Hwm. unfold form_value in *. rewrite (toServerData_object a ps) in Hw by done.
  destruct (server_props_inv _ _ _ _ _ Hn Hw) as (ow & -> & Hin & Hout).
  inversion Hwm as [| | | | | | | | |? ? Hm]; subst. rewrite (toServerData_object a ps) by done.
  destruct (server_props_spec toServerData (fun c v => v = if streq c k then y else obj_get c ow)
              (VObj (form_object (map (fun kf => (kf.1, getValue kf.2)) (obj_set k e f)))) ps) with (e := @nil (jstr * value))
    as (o' & Eo & Hin' & Hout').
  - apply Forall_elem. intros [c q] Hc. cbn [fst snd get_prop]. eexists _, (if streq c k then y else obj_get c ow).
    split; [reflexivity|]. rewrite form_value_get by by apply obj_set_NoDup. rewrite obj_lookup_set. destruct (streq c k) eqn:E.
    + apply streq_eq in E as ->. pose proof (obj_lookup_NoDup k p ps Hn Hk) as H1. pose proof (obj_lookup_NoDup k q ps Hn Hc) as H2.
      assert (q = p) as -> by congruence. by split.
    + destruct (Hin c q Hc) as (x & Hx & Hv). cbn [get_prop] in Hx. injection Hx as <-.
      rewrite form_value_get in Hv by done. by split.
  - exists (VObj o'). split; [done|]. constructor. intros c. rewrite obj_get_set.
    destruct (decide (c ∈ map fst ps)) as [Hc | Hc].
    + rewrite (Hin' c Hc). destruct (streq c k); [done | apply Hm].
    + rewrite Hout' by done. specialize (Hm c). rewrite Hout in Hm by done. destruct (streq c k) eqn:E; [|done].
      apply streq_eq in E as ->. exfalso. apply Hc. apply list_elem_of_fmap. by exists (k, p).
Qed.

End WithYaml.

(** A network with an enumeration, a number, a switch, free-form data, a list
    of texts and one of objects. *)
Definition text_schema : schema := plain_schema (TyStr (u "string")) None.

Definition choice_schema : schema :=
  Schema (TyStr (u "string")) None None None false None None VUndef (Some [VStr (u "vlan"); VStr (u "vx lan")]) None None
    None None None None None None.

Definition list_schema (it : schema) : schema := set_items it (plain_schema (TyStr (u "array")) None).

Definition ordered_schema (ps : list (jstr * schema)) : schema :=
  Schema (TyStr (u "object")) None None None false None None VUndef None None None None None (Some [u "name"])
    (Some (map fst ps)) (Some ps) None.

Definition subnet_schema : schema := ordered_schema [(u "name", text_schema); (u "cidr", text_schema)].

Definition network_props : list (jstr * schema) :=
  [(u "name", text_schema); (u "kind", choice_schema); (u "mtu", plain_schema (TyStr (u "integer")) None);
   (u "shared", plain_schema (TyStr (u "boolean")) None); (u "extra", plain_schema (TyStr (u "object")) None);
   (u "tags", list_schema text_schema); (u "subnets", list_schema subnet_schema)].

Definition network_data : object :=
  [(u "name", VStr (u "net")); (u "kind", VStr (u "vx lan")); (u "mtu", VNum (num_of_Z 1500)); (u "shared", VBool false);
   (u "extra", VBool true); (u "tags", VArr [VStr (u "a"); VStr (u "b")]);
   (u "subnets", VArr [VObj [(u "name", VStr (u "s")); (u "cidr", VStr (u "10.0.0.0/24"))]])].

Definition network_fields : list (jstr * field) :=
  match toFormJSON (ordered_schema network_props) with Ok fs => fs | Err _ => [] end.
