(* ===== verification/FormPipeline.v ===== *)
(** From the resource that the server gave to what an edit sends: the data in
    the format of the form, the schema that the action may see, the form of
    the dialog, its validators, and the data in the format of the server, by
    the schema that the model holds by then. *)

From Stdlib Require Import ZArith Lia List String Bool.
From stdpp Require Import base list sets list_numbers tactics.
From S2P Require Import Prelude JsNum Js YamlSchema YamlLoader SchemaModel ClientYaml SchemaForm FormEditors FormValidation FormRoundTrip.

(** ** Schemas of resources *)

(** The types of the schemas that have neither properties nor items. *)
Definition leaf_types : list jstr := [u "string"; u "integer"; u "number"; u "boolean"].

(** A schema whose objects and arrays have a single type and are no relations:
    an object lists its properties or is free-form data (it is no dictionary).
    A text, a number or a switch may be nullable and a relation. *)
Fixpoint regular (a : schema) : Prop :=
  let '(Schema _ _ _ _ _ _ rel _ _ _ _ _ _ _ _ props its) := a in
  if type_is (u "object") a then
    rel = None /\
    match props with
    | Some ps => NoDup (map fst ps) /\ each_schema (fun _ p => regular p) ps
    | None => its = None
    end
  else if type_is (u "array") a then
    rel = None /\ props = None /\ match its with Some it => regular it | None => False end
  else props = None /\ Exists (fun t => type_is t (normalise_type a) = true) leaf_types.

(** The data that remains when only what a schema lists is kept: at every
    depth, of objects the properties that the schema lists. *)
Fixpoint project (p : schema) (w : value) : value :=
  let '(Schema _ _ _ _ _ _ _ _ _ _ _ _ _ _ _ props its) := p in
  if type_is (u "array") p then
    match its, w with Some it, VArr l => VArr (map (project it) l) | _, _ => w end
  else if type_is (u "object") p then
    match props, w with Some ps, VObj o => VObj (map (fun kp => (kp.1, project kp.2 (obj_get kp.1 o))) ps) | _, _ => w end
  else w.

(** The schema [q] hides properties of [p], in it, in the objects below and in
    the items of lists. *)
Fixpoint hides (q p : schema) : Prop :=
  q = p \/
  s_type q = s_type p /\ s_nullable q = s_nullable p /\
  let '(Schema _ _ _ _ _ _ _ _ _ _ _ _ _ _ _ props its) := q in
  (type_is (u "array") q = true /\ exists it', s_items p = Some it' /\ match its with Some it => hides it it' | None => False end) \/
  (type_is (u "object") q = true /\ exists ps', s_properties p = Some ps' /\ NoDup (map fst ps') /\
     match props with
     | Some ps => NoDup (map fst ps) /\ each_schema (fun k q => exists p, (k, p) ∈ ps' /\ hides q p) ps
     | None => False
     end).

Lemma hides_refl p : hides p p.
Proof. destruct p. by left. Qed.

Lemma hides_array q p it it' :
  s_type q = s_type p -> s_nullable q = s_nullable p -> type_is (u "array") q = true ->
  s_items q = Some it -> s_items p = Some it' -> hides it it' -> hides q p.
Proof. open_schema q. cbn [s_items]. intros Ht Hn Ha -> Hp Hh. right. split; [done|]. split; [done|]. left. split; [done|]. by exists it'. Qed.

Lemma hides_object q p ps ps' :
  s_type q = s_type p -> s_nullable q = s_nullable p -> type_is (u "object") q = true ->
  s_properties q = Some ps -> s_properties p = Some ps' -> NoDup (map fst ps) -> NoDup (map fst ps') ->
  Forall (fun kq => exists p, (kq.1, p) ∈ ps' /\ hides kq.2 p) ps -> hides q p.
Proof.
  intros Ht Hn Ho Hq Hp Hnd Hnd' Hf. open_schema q. cbn [s_properties] in Hq. subst.
  right. split; [done|]. split; [done|]. right. split; [done|]. exists ps'. split; [done|]. split; [done|]. split; [done|].
  by apply (each_schema_elem (fun k q => exists p, (k, p) ∈ ps' /\ hides q p)).
Qed.

(** The cases of [hides]. *)
Lemma hides_cases q p :
  hides q p ->
  q = p \/
  (s_type q = s_type p /\ s_nullable q = s_nullable p /\ type_is (u "array") q = true /\
     exists it it', s_items q = Some it /\ s_items p = Some it' /\ hides it it') \/
  (s_type q = s_type p /\ s_nullable q = s_nullable p /\ type_is (u "object") q = true /\
     exists ps ps', s_properties q = Some ps /\ s_properties p = Some ps' /\ NoDup (map fst ps) /\ NoDup (map fst ps') /\
       Forall (fun kq => exists p, (kq.1, p) ∈ ps' /\ hides kq.2 p) ps).
Proof.
  open_schema q. intros [H | (Ht & Hn & [(Ha & it' & Hi & Hh) | (Ho & ps' & Hp & Hnd' & Hh)])]; [by left | right; left | right; right].
  - destruct items as [it|]; [|done]. do 3 (split; [done|]). by exists it, it'.
  - destruct props as [ps|]; [|done]. destruct Hh as [Hnd Hh]. do 3 (split; [done|]). exists ps, ps'. do 4 (split; [done|]).
    by apply (each_schema_elem (fun k q => exists p, (k, p) ∈ ps' /\ hides q p)).
Qed.

Lemma hides_distinct q p ps ps' :
  hides q p -> type_is (u "object") q = true -> s_properties q = Some ps -> s_properties p = Some ps' ->
  NoDup (map fst ps) -> NoDup (map fst ps').
Proof.
  intros Hh Ho Hq Hp Hn. destruct (hides_cases q p Hh) as [-> | [(_ & _ & Ha & _) | (_ & _ & _ & ? & ps1 & _ & Hps1 & _ & Hn1 & _)]].
  - by assert (ps = ps') as <- by congruence.
  - pose proof (type_is_excl _ (u "object") q Ha ltac:(done)). congruence.
  - by assert (ps1 = ps') as <- by congruence.
Qed.

Lemma type_is_ext t a b : s_type a = s_type b -> type_is t a = type_is t b.
Proof. unfold type_is. by intros ->. Qed.

(** ** The equations *)

(** What [project] does, by the shape of the schema. *)
Inductive project_shape (p : schema) : Prop :=
| project_list it :
    type_is (u "array") p = true -> s_items p = Some it ->
    (forall w, project p w = match w with VArr l => VArr (map (project it) l) | _ => w end) -> project_shape p
| project_props ps :
    type_is (u "object") p = true -> s_properties p = Some ps ->
    (forall w, project p w =
       match w with VObj o => VObj (map (fun kp => (kp.1, project kp.2 (obj_get kp.1 o))) ps) | _ => w end) -> project_shape p
| project_whole : (forall w, project p w = w) -> project_shape p.

Lemma project_cases p : project_shape p.
Proof.
  destruct (type_is (u "array") p) eqn:Ea.
  - destruct (s_items p) as [it|] eqn:Ei; [apply (project_list p it) | apply project_whole]; try done;
      intros w; open_schema p; cbn [project s_items] in *; subst; by rewrite Ea.
  - destruct (type_is (u "object") p) eqn:Eo; [|apply project_whole; intros w; open_schema p; cbn [project]; by rewrite Ea, Eo].
    destruct (s_properties p) as [ps|] eqn:Ep; [apply (project_props p ps) | apply project_whole]; try done;
      intros w; open_schema p; cbn [project s_properties] in *; subst; by rewrite Ea, Eo.
Qed.

Lemma project_array p it l :
  type_is (u "array") p = true -> s_items p = Some it -> project p (VArr l) = VArr (map (project it) l).
Proof. open_schema p. cbn [s_items project]. by intros -> ->. Qed.

Lemma project_object p ps o :
  type_is (u "object") p = true -> s_properties p = Some ps ->
  project p (VObj o) = VObj (map (fun kp => (kp.1, project kp.2 (obj_get kp.1 o))) ps).
Proof. intros Ht Hp. destruct (object_only p Ht) as (_ & _ & Ha). open_schema p. cbn [s_properties project] in *. subst. by rewrite Ht, Ha. Qed.

(** Values that are no objects and no lists are kept. *)
Lemma project_leaf p w : match w with VArr _ | VObj _ => False | _ => True end -> project p w = w.
Proof. intros Hw. destruct (project_cases p) as [it _ _ E|ps _ _ E|E]; rewrite E; by destruct w. Qed.

Lemma project_props_get k p ps o :
  NoDup (map fst ps) -> (k, p) ∈ ps ->
  obj_get k (map (fun kp => (kp.1, project kp.2 (obj_get kp.1 o))) ps) = project p (obj_get k o).
Proof.
  intros Hn Hin. unfold obj_get at 1.
  rewrite (obj_lookup_NoDup k (project p (obj_get k o))); [done | unfold obj_keys; by rewrite map_map|].
  apply list_elem_of_fmap. by exists (k, p).
Qed.

Lemma project_props_other k ps o :
  k ∉ map fst ps -> obj_get k (map (fun kp => (kp.1, project kp.2 (obj_get kp.1 o))) ps) = VUndef.
Proof. intros Hk. apply obj_get_not_key. unfold obj_keys. by rewrite map_map. Qed.

(** ** What remains of what is sent *)

(** Data that is the same remains the same. *)
Lemma project_proper p w w' : w ≈ w' -> project p w ≈ project p w'.
Proof.
  revert w w'. induction p as [p IHp IHi] using schema_ind'. intros w w' Hw.
  destruct (project_cases p) as [it Ht Hi E|ps Ht Hp E|E]; rewrite !E; [| |done].
  - destruct Hw as [| | | | |l l' Hl| | | |o o' Ho]; try by constructor. constructor. specialize (IHi it Hi).
    induction Hl; cbn [map]; constructor; auto.
  - destruct Hw as [| | | | |l l' Hl| | | |o o' Ho]; try by constructor. constructor. specialize (IHp ps Hp). clear -IHp Ho.
    intros k. induction IHp as [|[c q] ps Hq _ IH]; [done|]. unfold obj_get in *. cbn [map obj_lookup fst snd] in *.
    destruct (streq k c); [|done]. apply Hq. apply Ho.
Qed.

(** The shapes of a regular schema. *)
Definition is_leaf (a : schema) : Prop := s_properties a = None /\ Exists (fun t => type_is t (normalise_type a) = true) leaf_types.

Inductive regular_shape (a : schema) : Prop :=
| regular_object ps :
    type_is (u "object") a = true -> s_relation a = None -> s_properties a = Some ps -> NoDup (map fst ps) ->
    Forall (fun kp => regular kp.2) ps -> regular_shape a
| regular_freeform :
    type_is (u "object") a = true -> s_relation a = None -> s_properties a = None -> s_items a = None -> regular_shape a
| regular_array it :
    type_is (u "array") a = true -> s_relation a = None -> s_properties a = None -> s_items a = Some it -> regular it ->
    regular_shape a
| regular_leaf :
    type_is (u "object") a = false -> type_is (u "array") a = false -> is_leaf a -> regular_shape a.

Lemma regular_cases a : regular a <-> regular_shape a.
Proof.
  split.
  - intros Hr. destruct (type_is (u "object") a) eqn:Eo; [|destruct (type_is (u "array") a) eqn:Ea].
    + open_schema a. cbn [regular] in Hr. rewrite Eo in Hr. destruct Hr as [-> Hr]. destruct props as [ps|]; [|by apply regular_freeform].
      destruct Hr as [Hn Hr]. apply (each_schema_elem (fun _ p => regular p)) in Hr. by eapply regular_object.
    + open_schema a. cbn [regular] in Hr. rewrite Eo, Ea in Hr. destruct Hr as (-> & -> & Hr). destruct items as [it|]; [|done].
      by eapply regular_array.
    + open_schema a. cbn [regular] in Hr. rewrite Eo, Ea in Hr. by apply regular_leaf.
  - intros [ps Eo Hrel Hp Hn Hr|Eo Hrel Hp Hi|it Ea Hrel Hp Hi Hr|Eo Ea Hl].
    + open_schema a. cbn [regular s_relation s_properties] in *. rewrite Eo. subst. split; [done|]. split; [done|].
      by apply (each_schema_elem (fun _ p => regular p)).
    + open_schema a. cbn [regular s_relation s_properties s_items] in *. rewrite Eo. by subst.
    + pose proof (type_is_excl _ (u "object") a Ea ltac:(done)) as Eo. open_schema a.
      cbn [regular s_relation s_properties s_items] in *. rewrite Eo, Ea. by subst.
    + open_schema a. cbn [regular]. by rewrite Eo, Ea.
Qed.

Lemma regular_items p it : regular p -> type_is (u "array") p = true -> s_items p = Some it -> regular it.
Proof.
  intros Hr%regular_cases Ha Hi. pose proof (type_is_excl _ (u "object") p Ha ltac:(done)) as Ho. destruct Hr; congruence.
Qed.

Lemma regular_props p ps :
  regular p -> type_is (u "object") p = true -> s_properties p = Some ps -> NoDup (map fst ps) /\ Forall (fun kp => regular kp.2) ps.
Proof.
  intros Hr%regular_cases Ho Hp. pose proof (type_is_excl _ (u "array") p Ho ltac:(done)) as Ha.
  destruct Hr as [ps' ? ? Hp'| | |]; try congruence. by assert (ps' = ps) as -> by congruence.
Qed.

Lemma leaf_type t a : is_leaf a -> t ∉ leaf_types -> type_is t (normalise_type a) = false.
Proof.
  intros [_ Hl] Ht. destruct (type_is t (normalise_type a)) eqn:E; [|done]. exfalso. apply Ht. apply Exists_exists in Hl as (t' & Hin & E').
  destruct (decide (t = t')) as [-> | Hne]; [by apply list_elem_of_In|]. by rewrite (type_is_excl _ _ _ E Hne) in E'.
Qed.

Lemma normalise_single a : (forall l, s_type a <> TyList l) -> normalise_type a = a.
Proof. unfold normalise_type. destruct (s_type a); [done..|]. naive_solver. Qed.

Lemma type_is_single t a : type_is t a = true -> normalise_type a = a.
Proof. unfold type_is. intros Ht. apply normalise_single. intros l E. by rewrite E in Ht. Qed.

Lemma normalise_twice a : normalise_type (normalise_type a) = normalise_type a.
Proof. apply normalise_single. intros l E. pose proof (normalise_type_single a) as Hs. by rewrite E in Hs. Qed.

Section WithYaml.
Context `{YamlCodec}.

(** Blank values are sent as [null] when the schema allows it. *)
Lemma toServerData_blank p v :
  blank_value v = true ->
  toServerData p v = Ok (match v with VUndef => VUndef | _ => if s_nullable p then VNull else VUndef end).
Proof. destruct p, s_nullable; destruct v as [| | | |[|]| | | | |]; done. Qed.

Lemma toServerData_array p it v :
  type_is (u "array") p = true -> s_items p = Some it -> blank_value v = false ->
  toServerData p v = match v with VArr l => l <-? res_map (toServerData it) l; Ok (VArr l) | _ => Err TypeError end.
Proof.
  open_schema p. cbn [s_items toServerData]. intros -> ->. destruct n, v as [| | | |[|]|[|]| | | |]; done.
Qed.

Lemma toServerData_properties p ps v :
  type_is (u "object") p = true -> s_properties p = Some ps -> blank_value v = false ->
  toServerData p v = server_props toServerData v ps [].
Proof.
  intros Ht Hp. destruct (object_only p Ht) as (_ & _ & Ha). open_schema p. cbn [s_properties toServerData] in *. subst.
  rewrite Ha, Ht. destruct n, v as [| | | |[|]|[|]| | | |]; done.
Qed.

(** What a schema sends has no other properties than those it lists. *)
Lemma project_sent p v w : regular p -> toServerData p v = Ok w -> project p w ≈ w.
Proof.
  revert v w. induction p as [p IHp IHi] using schema_ind'. intros v w Hr Hw.
  destruct (blank_value v) eqn:Eb.
  { rewrite toServerData_blank in Hw by done. injection Hw as <-. rewrite project_leaf; [done|]. by destruct v, (s_nullable p). }
  destruct (project_cases p) as [it Ht Hi E|ps Ht Hp E|E]; rewrite !E; [| |done].
  - rewrite (toServerData_array p it) in Hw by done. destruct v as [| | | | |l| | | |]; try done.
    apply res_bind_ok in Hw as (l' & Hl & [= <-]). apply res_map_ok in Hl. constructor.
    pose proof (regular_items p it Hr Ht Hi) as Hri. specialize (IHi it Hi).
    induction Hl; cbn [map]; constructor; eauto.
  - rewrite (toServerData_properties p ps) in Hw by done. destruct (regular_props p ps Hr Ht Hp) as [Hn Hrp].
    destruct (server_props_inv _ _ _ _ _ Hn Hw) as (o & -> & Hin & Hout). constructor. intros k. specialize (IHp ps Hp).
    destruct (decide (k ∈ map fst ps)) as [Hk | Hk].
    + apply list_elem_of_fmap in Hk as ([c q] & -> & Hc). cbn [fst]. rewrite (project_props_get c q) by done.
      destruct (Hin c q Hc) as (x & _ & Hx). rewrite Forall_elem in IHp, Hrp. exact (IHp _ Hc x _ (Hrp _ Hc) Hx).
    + rewrite project_props_other, Hout by done. done.
Qed.

Lemma res_map_forall2 {A B} (g : A -> res B) (P : B -> B -> Prop) (h : A -> res B) l l' :
  res_map g l = Ok l' -> (forall x y, x ∈ l -> g x = Ok y -> exists z, h x = Ok z /\ P z y) ->
  exists l'', res_map h l = Ok l'' /\ Forall2 P l'' l'.
Proof.
  intros Hl%res_map_ok. induction Hl as [|x y l l' Hx _ IH]; intros Hh; cbn [res_map]; [by exists []|].
  destruct (Hh x y ltac:(by left) Hx) as (z & -> & Hz). destruct IH as (l'' & -> & Hl''); [intros x' y' Hin; apply Hh; by right|].
  cbn [res_bind]. exists (z :: l''). split; [done | by constructor].
Qed.

(** A schema that hides properties sends the rest of what the other sends. *)
Lemma sent_by_hiding q p v w :
  regular p -> hides q p -> toServerData p v = Ok w -> exists w', toServerData q v = Ok w' /\ w' ≈ project q w.
Proof.
  revert p v w. induction q as [q IHp IHi] using schema_ind'. intros p v w Hr Hh Hw.
  destruct (hides_cases q p Hh) as [-> | Hc].
  { exists w. split; [done|]. symmetry. by apply (project_sent p v). }
  destruct (blank_value v) eqn:Eb.
  { exists w. rewrite toServerData_blank in Hw |- * by done. injection Hw as <-.
    assert (s_nullable q = s_nullable p) as -> by tauto. split; [done|]. rewrite project_leaf; [done|]. by destruct v, (s_nullable p). }
  destruct Hc as [(Ht & _ & Ha & it & it' & Hi & Hi' & Hit) | (Ht & _ & Ho & ps & ps' & Hp & Hp' & Hn & Hn' & Hps)].
  - rewrite (toServerData_array q it) by done. pose proof Ha as Ha'. rewrite (type_is_ext _ q p Ht) in Ha'.
    rewrite (toServerData_array p it') in Hw by done. destruct v as [| | | | |l| | | |]; try done.
    apply res_bind_ok in Hw as (l' & Hl & [= <-]). pose proof (regular_items p it' Hr Ha' Hi') as Hri. specialize (IHi it Hi).
    destruct (res_map_forall2 _ (fun z y => z ≈ project it y) (toServerData it) _ _ Hl) as (l'' & Hl'' & Hf); [by eauto|].
    eexists. split; [by rewrite Hl''|]. rewrite (project_array q it) by done. constructor. clear -Hf. induction Hf; cbn [map]; by constructor.
  - rewrite (toServerData_properties q ps) by done. pose proof Ho as Ho'. rewrite (type_is_ext _ q p Ht) in Ho'.
    rewrite (toServerData_properties p ps') in Hw by done. destruct (server_props_inv _ _ _ _ _ Hn' Hw) as (o & -> & Hin & _).
    destruct (regular_props p ps' Hr Ho' Hp') as [_ Hrp]. specialize (IHp ps Hp). rewrite Forall_elem in IHp, Hps, Hrp.
    destruct (server_props_spec toServerData
                (fun k z => z ≈ obj_get k (map (fun kp => (kp.1, project kp.2 (obj_get kp.1 o))) ps)) v ps) with (e := @nil (jstr * value))
      as (e & -> & He & Hout).
    { apply Forall_elem. intros [c q1] Hc. destruct (Hps _ Hc) as (p1 & Hp1 & Hh1). cbn [fst snd] in *.
      destruct (Hin c p1 Hp1) as (x & Hx & Hy). destruct (IHp _ Hc p1 x _ (Hrp _ Hp1) Hh1 Hy) as (z & Hz & Hzy).
      exists x, z. split; [done|]. split; [done|]. by rewrite (project_props_get c q1). }
    exists (VObj e). split; [done|]. rewrite (project_object q ps) by done. constructor. intros k.
    destruct (decide (k ∈ map fst ps)) as [Hk | Hk]; [by apply He|]. rewrite Hout, project_props_other by done. done.
Qed.

(** What a schema that hides properties sends of data without them, the other
    sends too. *)
Lemma sent_by_hidden q p v w :
  hides q p -> listed q v -> toServerData q v = Ok w -> exists w', toServerData p v = Ok w' /\ w' ≈ w.
Proof.
  revert p v w. induction q as [q IHp IHi] using schema_ind'. intros p v w Hh Hls Hw.
  destruct (hides_cases q p Hh) as [-> | Hc]; [by exists w|].
  destruct (blank_value v) eqn:Eb.
  { exists w. rewrite toServerData_blank in Hw |- * by done. by assert (s_nullable q = s_nullable p) as <- by tauto. }
  destruct Hc as [(Ht & _ & Ha & it & it' & Hi & Hi' & Hit) | (Ht & _ & Ho & ps & ps' & Hp & Hp' & Hn & Hn' & Hps)].
  - pose proof Ha as Ha'. rewrite (type_is_ext _ q p Ht) in Ha'. rewrite (toServerData_array p it') by done.
    rewrite (toServerData_array q it) in Hw by done. destruct v as [| | | | |l| | | |]; try done.
    apply res_bind_ok in Hw as (l' & Hl & [= <-]). apply (listed_array q it) in Hls; [|done..]. specialize (IHi it Hi).
    rewrite Forall_elem in Hls.
    destruct (res_map_forall2 _ (fun z y => z ≈ y) (toServerData it') _ _ Hl) as (l'' & -> & Hf); [by eauto|].
    eexists. split; [reflexivity | by constructor].
  - pose proof Ho as Ho'. rewrite (type_is_ext _ q p Ht) in Ho'. rewrite (toServerData_properties p ps') by done.
    rewrite (toServerData_properties q ps) in Hw by done. destruct (server_props_inv _ _ _ _ _ Hn Hw) as (o & -> & Hin & Hout).
    assert (exists b, v = VObj b) as (b & ->).
    { destruct (object_only q Ho) as (_ & _ & Ha). open_schema q. cbn [s_properties listed] in *. subst. rewrite Ha, Ho in Hls.
      destruct v; try by (cbn in Hls, Eb; congruence). by eexists. }
    apply (listed_object q ps) in Hls; [|done..]. destruct Hls as [Hk Hls]. specialize (IHp ps Hp). rewrite Forall_elem in IHp, Hps, Hls.
    destruct (server_props_spec toServerData (fun k z => z ≈ obj_get k o) (VObj b) ps') with (e := @nil (jstr * value))
      as (e & -> & He & Hout').
    { apply Forall_elem. intros [c p1] Hc. cbn [fst snd get_prop]. destruct (decide (c ∈ map fst ps)) as [Hcq | Hcq].
      - apply list_elem_of_fmap in Hcq as ([c' q1] & -> & Hq). destruct (Hps _ Hq) as (p2 & Hp2 & Hh2). cbn [fst snd] in *.
        assert (p2 = p1) as ->.
        { pose proof (obj_lookup_NoDup _ _ _ Hn' Hc) as E1. pose proof (obj_lookup_NoDup _ _ _ Hn' Hp2) as E2. congruence. }
        destruct (Hin _ _ Hq) as (x & [= <-] & Hx). destruct (IHp _ Hq p1 _ _ Hh2 (Hls _ Hq) Hx) as (z & Hz & Hzx). by eexists _, z.
      - exists VUndef, VUndef. rewrite obj_get_not_key by auto. split; [done|]. split; [by rewrite toServerData_blank|].
        by rewrite Hout. }
    exists (VObj e). split; [done|]. constructor. intros k. destruct (decide (k ∈ map fst ps')) as [Hk' | Hk']; [by apply He|].
    rewrite Hout' by done. rewrite Hout; [done|]. intros Hkq. apply Hk'. apply list_elem_of_fmap in Hkq as ([c q1] & -> & Hq).
    destruct (Hps _ Hq) as (p2 & Hp2 & _). apply list_elem_of_fmap. by exists (c, p2).
Qed.
End WithYaml.

(** ** The schema for the form *)

Section WithYaml.
Context `{YamlCodec}.
Variable related : jstr -> promise (list value).

(** A schema without properties whose type is that of a text, a number or a
    switch: data is shown as it is. *)
Lemma leaf_regular a g :
  is_leaf a -> s_properties g = s_properties (normalise_type a) -> s_type g = s_type (normalise_type a) ->
  regular g /\ forall v, toLocalData g v = Ok v.
Proof.
  intros Hl Hp Ht. pose proof (leaf_type (u "object") a Hl ltac:(by apply (bool_decide_unpack _))) as Eo.
  pose proof (leaf_type (u "array") a Hl ltac:(by apply (bool_decide_unpack _))) as Ea.
  rewrite <- (type_is_ext (u "object") g _ Ht) in Eo. rewrite <- (type_is_ext (u "array") g _ Ht) in Ea. split.
  - apply regular_cases, regular_leaf; [done..|]. destruct Hl as [Hp' Hl]. destruct (normalise_type_keeps a) as (_ & Hk & _).
    split; [congruence|]. eapply List.Exists_impl; [|exact Hl]. intros t E. cbn beta in *.
    rewrite <- (type_is_ext t g _ Ht) in E. by rewrite (type_is_single t g).
  - intros v. open_schema g. cbn [toLocalData]. by rewrite Eo.
Qed.

Lemma toLocalData_props a ps v :
  type_is (u "object") a = true -> s_properties a = Some ps ->
  toLocalData a v =
    match v with
    | VUndef => Ok VUndef
    | _ => if format_is (u "jsonschema") a then s <-? safeDump v; Ok (VStr s)
           else if truthy v then local_props toLocalData ps v else Ok v
    end.
Proof. open_schema a. cbn [s_properties toLocalData]. intros -> ->. by destruct v. Qed.

Lemma toLocalData_freeform a v :
  type_is (u "object") a = true -> s_properties a = None -> s_items a = None ->
  toLocalData a v = match v with VUndef => Ok VUndef | _ => s <-? safeDump v; Ok (VStr s) end.
Proof. open_schema a. cbn [s_properties s_items toLocalData]. intros -> -> ->. destruct v; cbn [negb]; try done; by destruct (format_is _ _). Qed.

(** [toLocalSchema] does not change what the conversion shows. *)
Lemma local_regular a g a' :
  regular a -> toLocalSchema related a = Fulfilled (g, a') ->
  regular g /\ (forall v, toLocalData a v = toLocalData g v) /\
  (type_is (u "object") a = true -> forall ps, s_properties a = Some ps ->
     a' = g /\ exists ps', s_properties g = Some ps' /\ g = set_properties ps' a).
Proof.
  revert g a'. induction a as [a IHp IHi] using schema_ind'. intros g a' Hr Hg. apply regular_cases in Hr.
  destruct Hr as [ps Eo Hrel Hp Hn Hr|Eo Hrel Hp Hi|it Ea Hrel Hp Hi Hr|Eo Ea Hl].
  - pose proof (type_is_single _ a Eo) as En. pose proof (type_is_excl _ (u "array") a Eo ltac:(done)) as Ea.
    destruct (toLocalSchema_shape related a) as [| | |ps0 Hrel' Ea' Eo' Hp'| |]; rewrite ?En in *; try congruence.
    apply promise_bind_fulfilled in Hg as (ps' & Hps & [= <- <-]). apply props_promises_fulfilled in Hps.
    assert (ps0 = ps) as -> by congruence. clear Hp'. specialize (IHp ps Hp).
    assert (H2 : map fst ps' = map fst ps /\ Forall (fun kp => regular kp.2) ps' /\
                 forall b, local_props toLocalData ps b = local_props toLocalData ps' b).
    { clear -IHp Hps Hr. induction Hps as [|[c p] [c' p'] ps ps' (p'' & Hp & Hc) _ IH]; [done|]. cbn [fst snd] in *. subst c'.
      apply Forall_cons_iff in IHp as [IHp1 IHp], Hr as [Hr1 Hr]. destruct (IHp1 _ _ Hr1 Hp) as (Hr' & E & _).
      destruct (IH IHp Hr) as (IH1 & IH2 & IH3). cbn [map fst]. split; [by rewrite IH1|]. split; [by constructor|].
      intros b. cbn [local_props]. destruct (get_prop b c) as [x|]; [|done]. cbn [res_bind]. rewrite E.
      destruct (toLocalData p' x) as [v|]; [|done]. cbn [res_bind]. destruct (set_prop b c v) as [b'|]; [|done]. apply IH3. }
    destruct H2 as (Hk & Hr' & E). split; [|split].
    + apply regular_cases, (regular_object _ ps'); try (by open_schema a). by rewrite Hk.
    + intros v. rewrite (toLocalData_props a ps), (toLocalData_props _ ps') by (done || by open_schema a).
      replace (format_is _ (set_properties ps' a)) with (format_is (u "jsonschema") a) by (by open_schema a). by rewrite E.
    + intros _ ps0 Hp0. split; [done|]. exists ps'. split; [by open_schema a | done].
  - pose proof (type_is_single _ a Eo) as En. pose proof (type_is_excl _ (u "array") a Eo ltac:(done)) as Ea.
    destruct (toLocalSchema_shape related a) as [| | | | |]; rewrite ?En in *; try congruence. injection Hg as <- <-. split; [|split].
    + apply regular_cases, regular_freeform; by open_schema a.
    + intros v. by rewrite !toLocalData_freeform by (done || by open_schema a).
    + congruence.
  - pose proof (type_is_single _ a Ea) as En. pose proof (type_is_excl _ (u "object") a Ea ltac:(done)) as Eo.
    destruct (toLocalSchema_shape related a) as [| | | | |]; rewrite ?En in *; try congruence. rewrite Hi in Hg.
    destruct (toLocalSchema related it) as [[h it']| |] eqn:Eh; try done. injection Hg as <- <-.
    destruct (IHi it Hi _ _ Hr Eh) as (Hrh & _). split; [|split].
    + apply regular_cases, (regular_array _ h); by open_schema a.
    + intros v. open_schema a. cbn [toLocalData set_items] in *. unfold type_is in *. cbn [s_type] in *. by rewrite Eo.
    + congruence.
  - pose proof (leaf_type (u "object") a Hl ltac:(by apply (bool_decide_unpack _))) as Eo'.
    pose proof (leaf_type (u "array") a Hl ltac:(by apply (bool_decide_unpack _))) as Ea'.
    assert (Hg' : s_properties g = s_properties (normalise_type a) /\ s_type g = s_type (normalise_type a)).
    { destruct (toLocalSchema_shape related a) as [r Hrel| | | | |]; try congruence.
      - apply promise_bind_fulfilled in Hg as (recs & _ & Hg). destruct (relation_choices recs) as [[en opt]|]; [|done].
        injection Hg as <- _. by destruct (normalise_type a).
      - by injection Hg as <- _. }
    destruct (leaf_regular a g Hl) as [Hrg Hv]; [tauto..|]. split; [done|]. split; [|congruence].
    intros v. rewrite Hv. open_schema a. cbn [toLocalData]. by rewrite Eo.
Qed.
End WithYaml.

(** ** What the schema for the form hides *)

Lemma form_ready_props a ps :
  form_ready a -> type_is (u "object") a = true -> s_relation a = None -> s_properties a = Some ps ->
  Forall (fun kp => form_ready kp.2) ps.
Proof.
  intros Hf Ht Hrel Hp. pose proof (type_is_excl _ (u "array") a Ht ltac:(done)) as Ha. open_schema a.
  cbn [form_ready s_relation s_properties is_some] in *. subst. destruct Hf as [_ Hf]. cbn [is_some] in Hf. rewrite Ha, Ht in Hf.
  by apply (each_schema_elem (fun _ p => form_ready p)).
Qed.

Lemma form_ready_items a it :
  form_ready a -> type_is (u "array") a = true -> s_relation a = None -> s_items a = Some it -> form_ready it.
Proof.
  intros Hf Ha Hrel Hi. open_schema a. cbn [form_ready s_relation s_items is_some] in *. subst. destruct Hf as [_ Hf].
  cbn [is_some] in Hf. by rewrite Ha in Hf.
Qed.

(** The type of a schema without list types. *)
Lemma ready_type t a : form_ready a -> type_is t a = true -> s_type a = TyStr t.
Proof. intros _. unfold type_is. destruct (s_type a); try done. by intros ->%streq_eq. Qed.

Lemma ready_leaf a : form_ready a -> is_leaf a -> exists t, s_type a = TyStr t /\ t ∈ leaf_types.
Proof.
  intros Hf [_ Hl]. assert (Hs : match s_type a with TyList _ => False | _ => True end) by (destruct a; by destruct Hf).
  apply Exists_exists in Hl as (t & Hin & Ht). rewrite normalise_single in Ht by (intros l E; by rewrite E in Hs).
  exists t. split; [by apply ready_type | by apply list_elem_of_In].
Qed.

Lemma type_index t h t' : s_type h = TyStr t' -> type_indexOf t h = Ok (str_includes t t').
Proof. unfold type_indexOf. by intros ->. Qed.

(** A schema that [filterSchema] leaves. *)
Lemma filterSchema_stops b c a f a' : s_properties a = None -> filterSchema b c a = Ok (f, a') -> f = a /\ a' = a.
Proof.
  intros Hp. assert (Hs : filter_stops a = true) by (unfold filter_stops; rewrite Hp; cbn; apply orb_true_r).
  open_schema a. cbn [filterSchema]. rewrite Hs. by intros [= <- <-].
Qed.

(** The properties [r.1] hide properties of [ps], and of those left behind. *)
Definition emitted (ps : list (jstr * schema)) (r : list (jstr * schema) * list (jstr * schema)) : Prop :=
  Forall (fun kq => (exists p, (kq.1, p) ∈ ps /\ hides kq.2 p) /\ (exists p, (kq.1, p) ∈ r.2 /\ hides kq.2 p)) r.1 /\
  NoDup (map fst r.1) /\ map fst r.2 = map fst ps /\ forall k, k ∈ map fst r.1 -> k ∈ map fst ps.

Lemma filter_props_hides b c ps r :
  filter_props (filterSchema b c) b c ps = Ok r -> NoDup (map fst ps) ->
  Forall (fun gh => regular gh.2 /\ form_ready gh.2 /\
    (forall f h', filterSchema b c gh.2 = Ok (f, h') -> hides f gh.2 /\ hides f h') /\
    (forall it f it', s_items gh.2 = Some it -> filterSchema b c it = Ok (f, it') -> regular it -> form_ready it -> hides f it)) ps ->
  emitted ps r.
Proof.
  intros Hr Hn Hps. revert r Hr Hn. induction Hps as [|[g h] ps (Hreg & Hrdy & Hself & Hit) _ IH]; intros r Hr Hn.
  { injection Hr as <-. split; [constructor|]. split; [constructor|]. by split. }
  cbn [fst snd map] in *. apply list.NoDup_cons in Hn as [Hg Hn].
  (* a property that is emitted as [q], and left as [h'] *)
  assert (Hkeep : forall q h' r', filter_props (filterSchema b c) b c ps = Ok r' -> r = ((g, q) :: r'.1, (g, h') :: r'.2) ->
    hides q h -> hides q h' -> emitted ((g, h) :: ps) r).
  { intros q h' r' Hr' -> Hq Hq'. destruct (IH r' Hr' Hn) as (H1 & H2 & H3 & H4). unfold emitted. cbn [fst snd map]. split; [|split; [|split]].
    - constructor; [split; [exists h | exists h']; (split; [left | done])|]. eapply list.Forall_impl; [exact H1|].
      intros [k p] [(p1 & ? & ?) (p2 & ? & ?)]. split; [exists p1 | exists p2]; (split; [by right | done]).
    - constructor; [|done]. intros Hin. by apply Hg, H4.
    - by rewrite H3.
    - intros k [-> | Hk]%elem_of_cons; [left | right; by apply H4]. }
  cbn [filter_props] in Hr. destruct (property_kept b c g h).
  2: { apply res_bind_ok in Hr as (r' & Hr' & [= <-]). destruct (IH r' Hr' Hn) as (H1 & H2 & H3 & H4). unfold emitted. cbn [fst snd map].
       split; [|split; [done|split; [by rewrite H3 | intros k Hk; right; by apply H4]]]. eapply list.Forall_impl; [exact H1|].
       intros [k p] [(p1 & ? & ?) (p2 & ? & ?)]. split; [exists p1 | exists p2]; (split; [by right | done]). }
  assert (Hobj : type_is (u "object") h = true -> emitted ((g, h) :: ps) r).
  { intros Eo. pose proof (ready_type _ _ Hrdy Eo) as Et. rewrite !(type_index _ _ _ Et) in Hr.
    change (str_includes (u "array") (u "object")) with false in Hr. change (str_includes (u "object") (u "object")) with true in Hr.
    cbn [res_bind] in Hr. apply res_bind_ok in Hr as ([f h'] & Hf & (r' & Hr' & [= <-])%res_bind_ok).
    destruct (Hself f h' Hf) as [H1 H2]. by apply (Hkeep f h' r'). }
  apply regular_cases in Hreg as [hps Eo Hrel Hp _ _|Eo Hrel Hp Hi|it Ea Hrel Hp Hi Hri|Eo Ea Hl].
  - by apply Hobj.
  - by apply Hobj.
  - rewrite (type_index _ _ _ (ready_type _ _ Hrdy Ea)) in Hr. change (str_includes (u "array") (u "array")) with true in Hr.
    assert (Hr' : (fi <-? filterSchema b c it; r0 <-? filter_props (filterSchema b c) b c ps;
                   Ok ((g, set_items fi.1 h) :: r0.1, (g, set_items fi.1 h) :: r0.2)) = Ok r)
      by (destruct h; cbn in Hi; by subst).
    apply res_bind_ok in Hr' as ([f it'] & Hf & (r' & Hr' & [= <-])%res_bind_ok).
    apply (Hkeep (set_items f h) (set_items f h) r'); try done; [|apply hides_refl].
    apply (hides_array _ _ f it); try (by open_schema h). apply (Hit it f it'); try done. by apply (form_ready_items h).
  - destruct (ready_leaf h Hrdy Hl) as (t & Et & Hin). rewrite !(type_index _ _ _ Et) in Hr.
    assert (E : str_includes (u "array") t = false /\ str_includes (u "object") t = false).
    { assert (Forall (fun t => str_includes (u "array") t = false /\ str_includes (u "object") t = false) leaf_types) as Hall
        by (repeat constructor). rewrite Forall_elem in Hall. by apply Hall. }
    destruct E as [E1 E2]. rewrite E1, E2 in Hr. cbn [res_bind] in Hr. apply res_bind_ok in Hr as (r' & Hr' & [= <-]).
    apply (Hkeep h h r'); try done; apply hides_refl.
Qed.

(** The schema for the form hides properties of the schema it was made from,
    and of the one that the model is left with. *)
Lemma filterSchema_hides b c a f a' :
  regular a -> form_ready a -> filterSchema b c a = Ok (f, a') -> hides f a /\ hides f a'.
Proof.
  revert f a'. induction a as [a IH] using filter_ind. intros f a' Hr Hrdy Hf.
  destruct (filter_stops a) eqn:Es.
  { assert (f = a /\ a' = a) as [-> ->] by (open_schema a; cbn [filterSchema] in Hf; rewrite Es in Hf; by injection Hf as <- <-).
    split; apply hides_refl. }
  destruct (s_properties a) as [ps|] eqn:Ep; [|unfold filter_stops in Es; by rewrite Ep, !orb_true_r in Es].
  destruct (filterSchema_result _ _ _ _ _ _ Es Ep Hf) as (r & Hps & -> & ->).
  apply regular_cases in Hr as [ps0 Eo Hrel Hp Hn Hr|? ? ?|? ? ? ?|? ? [? ?]]; try congruence.
  assert (ps0 = ps) as -> by congruence. clear Hp. pose proof (form_ready_props a ps Hrdy Eo Hrel Ep) as Hrp. specialize (IH ps eq_refl).
  destruct (filter_props_hides b c ps r Hps Hn) as (H1 & H2 & H3 & _).
  { rewrite Forall_elem in *. intros gh Hin. destruct (IH gh Hin) as [IHh IHit]. specialize (Hr gh Hin). specialize (Hrp gh Hin).
    split; [done|]. split; [done|]. split; [by auto|]. intros it f it' Hi Hfi Hri Hrdi. by apply (IHit it Hi f it'). }
  pose proof (ready_type _ _ Hrdy Eo) as Et.
  apply List.Forall_and_inv in H1 as [H1 H1'].
  split; [apply (hides_object _ _ r.1 ps) | apply (hides_object _ _ r.1 r.2)]; try done; try (by open_schema a); by rewrite H3.
Qed.

(** ** The edit *)

Section Edit.
Context `{YamlCodec}.
Context `{Browser}.
(** The options of the loader that the validators of YAML use. *)
Variable yaml_options : load_options.
Variable related : jstr -> promise (list value).

(** The form can be submitted exactly when its validators accept what it
    shows, and the model then sends [w], by the schema [a]. *)
Definition sends (a : schema) (f : form) (w : value) : Prop :=
  (forall v, submit yaml_options f = Ok (inr v) <-> v = form_value f /\ Forall (fun kf => accepted yaml_options kf.2) f) /\
  exists w', toServer a (form_value f) = Ok w' /\ w' ≈ w.

(** The schemas of an edit: [g] is what [toLocalSchema] makes, [f] what the
    action may see, and the model keeps [a'']. *)
Lemma filterByAction_schemas action parent a f a'' :
  regular a -> type_is (u "object") a = true -> is_some (s_properties a) = true ->
  filterByAction related action parent a = Fulfilled (f, a'') ->
  exists g ps ps'', toLocalSchema related a = Fulfilled (g, g) /\ regular g /\ (forall v, toLocalData a v = toLocalData g v) /\
    hides f g /\ hides f a'' /\
    type_is (u "object") f = true /\ s_properties f = Some ps /\ type_is (u "object") a'' = true /\ s_properties a'' = Some ps''.
Proof.
  intros Hr Ho Hp Hf. apply promise_bind_fulfilled in Hf as ([g a'] & Hg & Hf). cbn iota in Hf.
  destruct (s_properties a) as [ps0|] eqn:Ep; [|done].
  destruct (local_regular related a g a' Hr Hg) as (Hrg & Hloc & Hobj). destruct (Hobj Ho ps0 Ep) as (-> & ps' & Epg & Eg).
  apply promise_bind_fulfilled in Hf as ([f' g'] & Hfg & Hf). cbn iota in Hf.
  assert (Hfs : filterSchema action parent g = Ok (f', g')) by (by destruct (filterSchema action parent g) as [fg|]; [injection Hfg as ->|]).
  assert (Hog : type_is (u "object") g = true) by (rewrite Eg; by open_schema a).
  assert (Hrel : s_relation a = None).
  { apply regular_cases in Hr as [| | |]; try done; congruence. }
  rewrite (type_is_single _ a Ho), Ho, Hrel in Hf. cbn [andb negb is_some] in Hf.
  pose proof (toLocalSchema_form_ready related a g g Hg) as Hrdy.
  destruct (filterSchema_hides action parent g f' g' Hrg Hrdy Hfs) as [H1 H2].
  assert (E : exists ps ps'', s_properties f' = Some ps /\ type_is (u "object") f' = true /\ s_properties g' = Some ps'' /\ g' = set_properties ps'' g).
  { destruct (filter_stops g) eqn:Es.
    - assert (f' = g /\ g' = g) as [-> ->] by (clear -Hfs Es; open_schema g; cbn [filterSchema] in Hfs; rewrite Es in Hfs; by injection Hfs as <- <-).
      exists ps', ps'. do 3 (split; [done|]). clear -Epg. open_schema g. cbn in *. by subst.
    - destruct (filterSchema_result _ _ _ _ _ _ Es Epg Hfs) as (r & _ & -> & ->). exists r.1, r.2. clear. by open_schema g. }
  destruct E as (ps & ps'' & Epf & Hof & Epg' & Eg'). rewrite Epg', <- Eg' in Hf. injection Hf as <- <-.
  exists g, ps, ps''. do 7 (split; [done|]). split; [|done]. rewrite Eg'. by open_schema g.
Qed.

(** What the user changes: fields, each with the editor as it is afterwards,
    and what the editor is then sent as. *)
Definition change : Type := jstr * (editor * value).

Definition change_fields (f : form) (cs : list change) : form := fold_left (fun f c => obj_set c.1 c.2.1 f) cs f.

Definition change_props (o : object) (cs : list change) : object := fold_left (fun o c => obj_set c.1 c.2.2 o) cs o.

Definition changes_of (a : schema) (c : change) : Prop :=
  exists p, (c.1, p) ∈ default [] (s_properties a) /\ toServerData p (getValue c.2.1) = Ok c.2.2.

Lemma edits_sent a ps cs :
  type_is (u "object") a = true -> s_properties a = Some ps -> NoDup (map fst ps) -> Forall (changes_of a) cs ->
  forall f m w, NoDup (obj_keys f) -> toServerData a (form_value f) = Ok w -> w ≈ VObj m ->
  exists w', toServerData a (form_value (change_fields f cs)) = Ok w' /\ w' ≈ VObj (change_props m cs).
Proof.
  intros Ht Hp Hn Hcs. induction Hcs as [|[k [e y]] cs (p & Hk & Hy) _ IH]; intros f m w Hnf Hw Hwm; [by exists w|].
  rewrite Hp in Hk. cbn [fst snd default from_option id] in *.
  destruct (edit_sent a ps f k p e y m w) as (w1 & Hw1 & Hwm1); try done. unfold change_fields, change_props. cbn [fold_left fst snd].
  apply (IH (obj_set k e f) (obj_set k y m) w1); try done. by apply obj_set_NoDup.
Qed.

(** C2.  An edit loses nothing.  The model converts a resource [o] (with the
    defaults of its schema: [m]) to the format of the form, makes the schema
    [f] of the action, which hides what the action may not see, and shows the
    dialog.  The dialog can be submitted exactly when its validators accept it;
    the model then sends, by the schema [a''] it holds by then, the data of the
    resource that the form shows, at every depth, and nothing else.  When the
    user has changed fields, however many, it sends this data with the
    properties of these fields changed.  The conditions: the schema is
    [regular] (no dictionaries, which [filterByAction_breaks_dict] is about,
    and no objects and arrays that are nullable or relations); the data fits
    its schema; the form orders every property that it shows, and its editors
    carry their values ([editable]: objects, lists and switches have values,
    texts and numbers are such that their editors can show them, and no list of
    objects is empty, which [empty_list_gains_item] is about); and the dialog does
    not offer to create related resources. *)
Theorem edit_sends action parent a g a' f a'' d o l order fs :
  regular a -> type_is (u "object") a = true -> is_some (s_properties a) = true ->
  toLocalSchema related a = Fulfilled (g, a') ->
  defaultValue a = Ok (VObj d) -> let m := VObj (obj_assign (obj_assign [] d) o) in fits g m ->
  toLocal a (VObj o) = Ok l ->
  filterByAction related action parent a = Fulfilled (f, a'') ->
  toFormJSON f = Ok fs -> s_propertiesOrder f = Some order -> editable f false l ->
  exists form shown, dialog_form [] fs (Some order) l = Ok form /\ project f m = VObj shown /\
    forall cs, Forall (changes_of a'') cs -> sends a'' (change_fields form cs) (VObj (change_props shown cs)).
Proof.
  intros Hr Ho Hp Hg Hd m Hfit Hl Hf Hfs Hord Hed.
  destruct (filterByAction_schemas action parent a f a'' Hr Ho Hp Hf)
    as (g0 & ps & ps'' & Hg0 & Hrg & Hloc & Hfg & Hfa & Hof & Epf & Hoa & Epa).
  rewrite Hg in Hg0. injection Hg0 as <- ->.
  destruct (edit_roundtrip g m Hfit) as (l' & w & Hl' & Hw & Hwm).
  assert (l' = l) as ->.
  { unfold toLocal in Hl. rewrite Hd in Hl. cbn [res_bind own_props] in Hl. fold m in Hl. rewrite Hloc in Hl. congruence. }
  destruct (dialog_carried f ps order fs l Hof Epf Hord Hfs Hed) as (form & Ef & Hn & Hnf & Hsent & Hls).
  destruct (sent_by_hiding f g l w Hrg Hfg Hw) as (w1 & Hw1 & Hww1). rewrite <- Hsent in Hw1.
  destruct (sent_by_hidden f a'' (form_value form) w1 Hfa Hls Hw1) as (w2 & Hw2 & Hww2).
  assert (Hm : w2 ≈ project f m) by (rewrite Hww2, Hww1; by apply project_proper).
  pose proof (hides_distinct f a'' ps ps'' Hfa Hof Epf Epa Hn) as Hn''.
  eexists form, _. split; [done|]. split; [by apply project_object|]. unfold m in Hm. rewrite (project_object f ps) in Hm by done.
  intros cs Hcs. split; [apply submit_accepts|]. by apply (edits_sent a'' ps'' cs Hoa Epa Hn'' Hcs form _ w2).
Qed.
End Edit.

(** ** An edit of a network

    Its identifier, and those of its subnets, are not shown; the description
    may be [null]; there are an enumeration, a number, a switch, free-form data,
    a list of texts and one of objects. *)
Definition id_schema : schema :=
  Schema (TyStr (u "string")) None None (Some (u "uuid")) false None None VUndef None None None None None None None None None.

Definition edited_props : list (jstr * schema) :=
  [(u "id", id_schema); (u "description", plain_schema (TyList [u "string"; u "null"]) None)]
  ++ List.filter (fun kp => negb (streq kp.1 (u "subnets"))) network_props
  ++ [(u "subnets", list_schema (ordered_schema [(u "id", id_schema); (u "name", text_schema); (u "cidr", text_schema)]))].

Definition edited_data : object :=
  [(u "id", VStr (u "n1")); (u "description", VNull)]
  ++ List.filter (fun kv => negb (streq kv.1 (u "subnets"))) (obj_set (u "extra") (VObj [(u "dhcp", VStr (u "on "))]) network_data)
  ++ [(u "subnets", VArr [VObj [(u "id", VStr (u "s1")); (u "name", VStr (u "s")); (u "cidr", VStr (u "10.0.0.0/24"))]])].

Definition edited_schema : schema := ordered_schema edited_props.

Definition edited_default : object := match defaultValue edited_schema with Ok (VObj d) => d | _ => [] end.

(** With the defaults of its schema. *)
Definition edited_whole : object := Eval vm_compute in obj_assign (obj_assign [] edited_default) edited_data.

Definition edited_local : value := Eval vm_compute in match @toLocal js_yaml edited_schema (VObj edited_data) with Ok l => l | Err _ => VUndef end.

Definition edited_made : schema :=
  Eval vm_compute in match toLocalSchema (fun _ => Pending) edited_schema with Fulfilled (g, _) => g | _ => edited_schema end.

Definition edited_filtered : schema * schema :=
  Eval vm_compute in match filterByAction (fun _ => Pending) (u "update") None edited_schema with Fulfilled r => r | _ => (edited_schema, edited_schema) end.

Definition edited_fields : list (jstr * field) :=
  Eval vm_compute in match toFormJSON edited_filtered.1 with Ok fs => fs | Err _ => [] end.

#[local] Ltac decided := by apply (bool_decide_unpack _).

Lemma lists_keys_forall o ps :
  NoDup (map fst ps) -> Forall (fun k => k ∈ map fst ps) (obj_keys o) -> lists_keys o ps.
Proof. intros Hn Ho. split; [done|]. by rewrite Forall_elem in Ho. Qed.

Lemma edited_regular : regular edited_schema.
Proof.
  split; [done|]. split; [decided|]. repeat split; try (by repeat constructor); decided.
Qed.

Lemma edited_fits : @fits js_yaml edited_made (VObj edited_whole).
Proof.
  split; [apply lists_keys_forall; decided|]. do 6 (split; [exact I || reflexivity|]).
  split; [exists (u "dhcp: 'on '" ++ [10]); vm_compute; by repeat split|]. split; [repeat constructor|]. split; [|exact I].
  constructor; [|constructor]. split; [apply lists_keys_forall; decided | repeat split].
Qed.

Lemma edited_editable : @editable plain_browser edited_filtered.1 false edited_local.
Proof.
  eexists. split; [reflexivity|]. split; [decided|]. split; [by repeat constructor|]. repeat split.
  - exists []. split; [split; decided | by right].
  - exists (u "net"). split; [split; decided | by left].
  - exists (u "vx lan"). split; [|by left]. do 2 eexists. split; [vm_compute; reflexivity | decided].
  - right. exists (num_of_Z 1500). split; [done|]. by apply integer_text_number.
  - by exists false.
  - exists (u "dhcp: 'on '" ++ [10]). split; [decided | by left].
  - eexists. split; [reflexivity|]. repeat constructor; eexists; (split; [reflexivity|]; split; [done|]; split; decided).
  - eexists. split; [reflexivity|]. split; [done|]. split; [done|]. constructor; [|constructor].
    eexists. split; [reflexivity|]. split; [decided|]. split; [by repeat constructor|]. split; [|split; [|done]].
    + exists (u "s"). split; [split; decided | by left].
    + exists (u "10.0.0.0/24"). split; [split; decided | by left].
Qed.

Definition edited_order : list jstr := default [] (s_propertiesOrder edited_filtered.1).

Definition edited_form : form :=
  Eval vm_compute in match @dialog_form plain_browser [] edited_fields (Some edited_order) edited_local with Ok f => f | Err _ => [] end.

(** The network gets another name. *)
Definition renamed : list change := [(u "name", (EText [u "required"] (u "lan"), VStr (u "lan")))].

Lemma edit_sends_witness :
  exists shown w, project edited_filtered.1 (VObj edited_whole) = VObj shown /\
    obj_get (u "subnets") shown = VArr [VObj [(u "name", VStr (u "s")); (u "cidr", VStr (u "10.0.0.0/24"))]] /\
    submit demo_options (change_fields edited_form renamed) = Ok (inr (form_value (change_fields edited_form renamed))) /\
    @toServer js_yaml edited_filtered.2 (form_value (change_fields edited_form renamed)) = Ok w /\
    w ≈ VObj (change_props shown renamed).
Proof.
  destruct (@edit_sends js_yaml plain_browser demo_options (fun _ => Pending) (u "update") None edited_schema edited_made edited_made
              edited_filtered.1 edited_filtered.2 edited_default edited_data edited_local edited_order edited_fields)
    as (form & shown & Hform & Hshown & Hsends);
    [exact edited_regular | reflexivity | reflexivity | vm_compute; reflexivity | vm_compute; reflexivity | exact edited_fits
    | vm_compute; reflexivity | vm_compute; reflexivity | vm_compute; reflexivity | vm_compute; reflexivity | exact edited_editable |].
  replace (obj_assign (obj_assign [] edited_default) edited_data) with edited_whole in Hshown by (vm_compute; reflexivity).
  assert (E : Ok form = Ok edited_form) by (etransitivity; [symmetry; exact Hform | vm_compute; reflexivity]).
  injection E as ->. destruct (Hsends renamed) as (_ & w & Hw & Hwm).
  { constructor; [|constructor]. exists text_schema. split; [right; right; left | vm_compute; reflexivity]. }
  exists shown, w. split; [exact Hshown|]. split; [|split; [vm_compute; reflexivity | split; [exact Hw | exact Hwm]]].
  assert (E : VObj shown = project edited_filtered.1 (VObj edited_whole)) by (symmetry; exact Hshown).
  vm_compute in E. injection E as ->. vm_compute. reflexivity.
Defined.
