(* ===== verification/FormErrors.v ===== *)
(** Forms that do not do what they mean to: a field that can never be
    submitted, and a list that gains an item. *)

From Stdlib Require Import ZArith Lia List String Bool.
From stdpp Require Import base list sets list_numbers tactics.
From S2P Require Import Prelude JsNum Js YamlSchema YamlLoader SchemaModel ClientYaml SchemaForm FormEditors FormValidation FormRoundTrip.

(** ** The fields of any form *)

Lemma typed_field_validators a required fd : field_of a required fd -> f_validators fd = field_validators required a.
Proof. intros (ti & h & rel & Hf). by apply typed_field_mk in Hf as (? & ? & ? & ? & ? & ? & ? & ->). Qed.

Lemma simple_field_type a required fd :
  field_of a required fd -> type_is (u "array") a = false -> type_is (u "object") a = false ->
  streq (f_type fd) (u "Object") = false /\ streq (f_type fd) (u "List") = false.
Proof.
  intros (ti & h & rel & Hf) Ha Ho. unfold typed_field in Hf. rewrite Ha, Ho in Hf.
  pose proof (string_editor_kinds a (s_format a)) as Hk. destruct (type_is (u "string") a).
  { destruct (string_editor a (s_format a)) as [[ty x] opt]. injection Hf as <-. by apply text_kind_simple. }
  repeat (case_hyp Hf; [by injection Hf as <-|]). by injection Hf as <-.
Qed.

(** What [updateDialogSchema] leaves as it is. *)
Lemma relation_field_keeps titles fd :
  f_type (relation_field titles fd) = f_type fd /\ f_validators (relation_field titles fd) = f_validators fd /\
  (streq (f_type fd) (u "Select") = false -> relation_field titles fd = fd).
Proof.
  destruct fd as [? ty ? ? [r|] ? ? [[]|] ? ? ? ?]; try done. unfold relation_field. cbn [f_type].
  by destruct (streq ty (u "Select") && _) eqn:E; [apply andb_true_iff in E as [-> _]|].
Qed.

Section WithBrowser.
Context `{Browser}.

(** An editor that [create_fields] makes of the data. *)
Definition made_by (builders : list (jstr * (value -> res editor))) (data : value) (k : jstr) (e : editor) : Prop :=
  exists v, (if truthy data then get_prop data k else Ok VNull) = Ok v /\
    match obj_lookup k builders with Some build => build v | None => default_editor v end = Ok e.

Lemma create_fields_inv builders data selected fields f :
  create_fields builders data selected fields = Ok f -> NoDup (obj_keys fields) ->
  (forall k e, obj_lookup k fields = Some e -> made_by builders data k e) ->
  NoDup (obj_keys f) /\ (forall k, k ∈ selected \/ obj_lookup k fields <> None -> obj_lookup k f <> None) /\
  (forall k e, obj_lookup k f = Some e -> made_by builders data k e).
Proof.
  revert fields. induction selected as [|key selected IH]; intros fields; cbn [create_fields].
  - intros [= <-] Hn Hm. split; [done|]. split; [|done]. intros k [Hk | Hk]; [by apply not_elem_of_nil in Hk | done].
  - intros (v & Hv & (e & He & Hf)%res_bind_ok)%res_bind_ok Hn Hm. apply IH in Hf as (H1 & H2 & H3).
    + split; [done|]. split; [|done]. intros k Hk. apply H2. rewrite obj_lookup_set. destruct (streq k key) eqn:E; [by right|].
      apply streq_neq in E. destruct Hk as [[? | Hk]%elem_of_cons | Hk]; [done | by left | by right].
    + by apply obj_set_NoDup.
    + intros k e'. rewrite obj_lookup_set. destruct (streq k key) eqn:E; [|apply Hm]. apply streq_eq in E as ->.
      intros [= <-]. by exists v.
Qed.

(** A form of the dialog has an editor for each field it is asked for, made
    from the field of the schema and the property of the data. *)
Lemma dialog_form_inv titles fs fields l f :
  dialog_form titles fs (Some fields) l = Ok f ->
  NoDup (obj_keys f) /\
  forall k fd, obj_lookup k fs = Some fd -> k ∈ fields ->
    exists v e, obj_lookup k f = Some e /\ (if truthy l then get_prop l k else Ok VNull) = Ok v /\
      editor_of (relation_field titles fd) (f_type fd) v = Ok e.
Proof.
  intros Hf. unfold dialog_form, new_form, make_form in Hf. cbn [default] in Hf.
  apply create_fields_inv in Hf as (Hn & Hk & Hm); [|constructor|done]. split; [done|]. intros k fd Hl Hin.
  assert (Hl' : obj_lookup k (updateDialogSchema titles fs) = Some (relation_field titles fd)).
  { unfold updateDialogSchema. by rewrite (obj_lookup_map (relation_field titles)), Hl. }
  destruct (obj_lookup k f) as [e|] eqn:E.
  - destruct (Hm k e E) as (v & Hv & He). rewrite (obj_lookup_map (fun fd v => editor_of fd (f_type fd) v)), Hl' in He.
    cbn in He. rewrite (proj1 (relation_field_keeps titles fd)) in He. by exists v, e.
  - exfalso. apply (Hk k); [|done]. left. apply list_elem_of_In, filter_In. split; [by apply list_elem_of_In|].
    unfold obj_has. by rewrite Hl'.
Qed.

(** ** Formats without a validator *)

(** The validators of an editor of a single value. *)
Definition leaf_validators (e : editor) : option (list jstr) :=
  match e with
  | EText vs _ | ENumber vs _ | ECheckbox vs _ | ESelect vs _ _ | ECode vs _ => Some vs
  | EList _ _ | EObject _ _ => None
  end.

Lemma leaf_validate o e vs :
  leaf_validators e = Some vs -> validate o e = (x <-? run_validators o vs (getValue e); Ok (Failed <$> x)).
Proof. by destruct e; intros [= <-]. Qed.

Lemma simple_editor_leaf fd ty v e : simple_editor fd ty v = Ok e -> leaf_validators e = Some (f_validators fd).
Proof.
  unfold simple_editor. intros He.
  repeat match type of He with (if ?b then _ else _) = _ => destruct b end; try discriminate He;
    repeat match type of He with res_bind _ _ = Ok _ => apply res_bind_ok in He as (? & _ & He) end; by injection He as <-.
Qed.

Lemma entered_leaf e e' : entered e e' -> leaf_validators e' = leaf_validators e.
Proof. by destruct 1. Qed.

Lemma validate_fields_throws self f errors k e err :
  (k, e) ∈ f -> self e = Err err -> exists err', validate_fields self f errors = Err err'.
Proof.
  intros Hin He. revert errors. induction f as [|[k' e'] f IH]; [by apply not_elem_of_nil in Hin|]. intros errors. cbn [validate_fields].
  apply elem_of_cons in Hin as [[= <- <-] | Hin]; [rewrite He; by eexists|].
  destruct (self e') as [x|err']; cbn [res_bind]; [by apply IH | by eexists].
Qed.

Lemma entered_form_lookup f f' k e :
  entered_form f f' -> obj_lookup k f = Some e -> exists e', (k, e') ∈ f' /\ entered e e'.
Proof.
  induction 1 as [|[k1 e1] [k2 e2] f f' [Hk He] _ IH]; cbn [obj_lookup]; [done|]. cbn [fst snd] in *. subst k2.
  destruct (streq k k1) eqn:E.
  - apply streq_eq in E as ->. intros [= <-]. exists e2. split; [by left | done].
  - intros (e' & Hin & Hent)%IH. exists e'. split; [by right | done].
Qed.

Lemma unknown_throws o names name v :
  obj_lookup name (validators o) = None -> exists err, run_validators o (name :: names) v = Err err.
Proof. intros Hn. cbn [run_validators]. unfold getValidator. rewrite Hn. case_goal; by eexists. Qed.

(** C4.  A property with a format for which the client has no validator makes
    its form impossible to submit: whatever the user enters, the button of the
    dialog throws and nothing is sent.  [etc/schema/gohan.json] gives the
    property [code] of an extension the format [javascript]. *)
Theorem unknown_format_blocks yaml_options a ps c p fmt fs fields titles l f f' :
  s_properties a = Some ps -> toFormJSON a = Ok fs -> NoDup (map fst ps) -> Forall (fun kp => ordered a kp.1 = true) ps ->
  (c, p) ∈ ps -> c ∈ fields -> type_is (u "array") p = false -> type_is (u "object") p = false ->
  s_format p = Some fmt -> fmt <> u "text" -> obj_lookup fmt (validators yaml_options) = None ->
  dialog_form titles fs (Some fields) l = Ok f -> entered_form f f' ->
  exists err, submit yaml_options f' = Err err.
Proof.
  intros Hp Hfs Hn Ho Hin Hc Ha Hob Hf Ht Hv Hd He.
  assert (Hff : form_fields toFormJSON a ps = Ok fs) by (destruct a; cbn in *; by subst).
  destruct (fields_lookup c p (form_fields_ordered a ps fs Hff Ho) Hn Hin) as (fd & Hl & Hfd).
  destruct (dialog_form_inv titles fs fields l f Hd) as [_ Hinv]. destruct (Hinv c fd Hl Hc) as (v & e & Hle & _ & Hed).
  destruct (simple_field_type p _ fd Hfd Ha Hob) as [H1 H2]. rewrite editor_of_simple in Hed by done.
  destruct (entered_form_lookup f f' c e He Hle) as (e' & Hin' & Hent).
  apply simple_editor_leaf in Hed. rewrite <- (entered_leaf e e' Hent), (proj1 (proj2 (relation_field_keeps titles fd))), (typed_field_validators p _ fd Hfd) in Hed.
  unfold field_validators in Hed. rewrite Hf in Hed. apply streq_neq in Ht. rewrite Ht in Hed.
  assert (exists err, validate yaml_options e' = Err err) as (err & Herr).
  { rewrite (leaf_validate _ _ _ Hed). cbn [app].
    destruct (unknown_throws yaml_options (if is_required a c then [u "required"] else []) fmt (getValue e') Hv) as (err & Er).
    rewrite Er. by exists err. }
  destruct (validate_fields_throws (validate yaml_options) f' [] c e' err Hin' Herr) as (err' & E).
  unfold submit, validate_form. rewrite E. by exists err'.
Qed.

(** ** Lists that gain an item *)

Lemma empty_list_editor a it required fd e :
  field_of a required fd -> type_is (u "array") a = true -> s_items a = Some it -> type_is (u "object") it = true ->
  f_type fd = u "List" /\ (editor_of fd (f_type fd) (VArr []) = Ok e -> exists o, getValue e = VArr [VObj o]).
Proof.
  intros (ti & h & rel & Hfd) Ht Hi Ho. destruct (array_only a Ht) as [Hs1 Hs2].
  destruct (list_field _ _ it _ _ Hs1 Hs2 Ht Hi Hfd) as (d & _ & Hf). rewrite Ho in Hf. destruct Hf as (order & sub & _ & _ & ->).
  split; [done|]. intros He. cbn [editor_of f_type list_values res_bind] in He.
  change (streq (u "List") (u "Object")) with false in He. change (streq (u "List") (u "List")) with true in He.
  change (streq (u "Object") (u "Object")) with true in He. cbn iota in He. cbn [res_map] in He.
  apply res_bind_ok in He as (items & (y & Hy & (ys & [= <-] & [= <-])%res_bind_ok)%res_bind_ok & [= <-]).
  apply res_bind_ok in Hy as (fs & _ & [= <-]). cbn. by eexists.
Qed.

(** C5.  A resource whose list of objects is empty does not stay so: its form
    shows one item of default values, and submitted as it is, it sends a list
    of one object. *)
Theorem empty_list_gains_item `{YamlCodec} a ps c p it fs fields titles o f w :
  type_is (u "object") a = true -> s_properties a = Some ps -> toFormJSON a = Ok fs -> NoDup (map fst ps) ->
  Forall (fun kp => ordered a kp.1 = true) ps -> (c, p) ∈ ps -> c ∈ fields ->
  type_is (u "array") p = true -> s_items p = Some it -> type_is (u "object") it = true ->
  obj_get c o = VArr [] -> dialog_form titles fs (Some fields) (VObj o) = Ok f -> toServer a (form_value f) = Ok w ->
  exists x, get_prop w c = Ok (VArr [x]).
Proof.
  intros Ht Hp Hfs Hn Ho Hin Hc Ha Hi Hob Hget Hd Hw.
  assert (Hff : form_fields toFormJSON a ps = Ok fs) by (destruct a; cbn in *; by subst).
  destruct (fields_lookup c p (form_fields_ordered a ps fs Hff Ho) Hn Hin) as (fd & Hl & Hfd).
  destruct (dialog_form_inv titles fs fields (VObj o) f Hd) as [Hnf Hinv]. destruct (Hinv c fd Hl Hc) as (v & e & Hle & Hv & He).
  cbn [truthy get_prop] in Hv. injection Hv as <-. rewrite Hget in He.
  destruct (empty_list_editor p it _ fd e Hfd Ha Hi Hob) as [Hty Hval].
  rewrite (proj2 (proj2 (relation_field_keeps titles fd))) in He by by rewrite Hty. destruct (Hval He) as (x & Hx).
  unfold toServer, form_value in Hw. rewrite (toServerData_object a ps) in Hw by done.
  destruct (server_props_inv _ _ _ _ _ Hn Hw) as (ow & -> & Hprops & _). destruct (Hprops c p Hin) as (y & Hy & Hs).
  cbn [get_prop] in Hy. injection Hy as <-. rewrite form_value_get, Hle in Hs by done. cbn [from_option] in Hs. rewrite Hx in Hs.
  open_schema p. unfold type_is in Ha. cbn [s_type s_items] in *. subst. destruct ty as [|t|]; try done. apply streq_eq in Ha as <-.
  cbn [toServerData s_nullable] in Hs. rewrite andb_false_r in Hs. unfold type_is in Hs. cbn [s_type] in Hs. rewrite streq_refl in Hs.
  apply res_bind_ok in Hs as (l & (y & Hy & [= <-])%res_bind_ok & Hs). exists y. cbn [get_prop]. congruence.
Qed.
End WithBrowser.

(** ** Examples *)

(** The schema of extensions in [etc/schema/gohan.json]. *)
Definition extension_props : list (jstr * schema) :=
  let text title format default :=
    Schema (TyStr (u "string")) (Some (u title)) None format false None None default None None None None None None None None None in
  [(u "code", text "Code" (Some (u "javascript")) (VStr [])); (u "code_type", text "Code Type" None (VStr (u "javascript")));
   (u "id", text "ID" None VUndef); (u "path", text "Path" None VUndef); (u "url", text "URL" (Some (u "url")) (VStr []))]%string.

Definition extension_schema : schema :=
  Schema (TyStr (u "object")) None None None false None None VUndef None None None None None None
    (Some (map u ["id"; "code_type"; "url"; "path"; "code"]%string)) (Some extension_props) None.

Definition form_fields_of (a : schema) : list (jstr * field) := match toFormJSON a with Ok fs => fs | Err _ => [] end.

(** A new extension, after [toLocal] of an empty object. *)
Definition new_extension : value := VObj [(u "code", VStr []); (u "code_type", VStr (u "javascript")); (u "url", VStr [])].

Definition extension_form : form :=
  match @dialog_form plain_browser [] (form_fields_of extension_schema) (s_propertiesOrder extension_schema) new_extension with
  | Ok f => f
  | Err _ => []
  end.

(** The user writes some code. *)
Definition entered_extension : form :=
  map (fun kf => (kf.1, match kf.2 with ECode vs _ => ECode vs (u "1") | e => e end)) extension_form.

Lemma unknown_format_blocks_witness :
  obj_lookup (u "code") entered_extension = Some (ECode [u "javascript"] (u "1")) /\
  exists err, submit (LoadOptions DEFAULT_SAFE_SCHEMA false) entered_extension = Err err.
Proof.
  split; [vm_compute; reflexivity|].
  apply (@unknown_format_blocks plain_browser (LoadOptions DEFAULT_SAFE_SCHEMA false) extension_schema extension_props (u "code")
           (Schema (TyStr (u "string")) (Some (u "Code")) None (Some (u "javascript")) false None None (VStr []) None None None None
              None None None None None)
           (u "javascript") (form_fields_of extension_schema) (map u ["id"; "code_type"; "url"; "path"; "code"]%string) []
           new_extension extension_form entered_extension);
    try reflexivity; try (vm_compute; reflexivity).
  - by apply (bool_decide_unpack _).
  - by repeat constructor.
  - by left.
  - by apply (bool_decide_unpack _).
  - done.
  - vm_compute. repeat constructor.
Defined.

(** A network without subnets. *)
Definition network_without_subnets : object :=
  obj_set (u "subnets") (VArr []) (obj_set (u "extra") (VStr (u "true" ++ [10])) network_data).

Definition network_form : form :=
  match @dialog_form plain_browser [] network_fields (Some (map fst network_props)) (VObj network_without_subnets) with
  | Ok f => f
  | Err _ => []
  end.

Definition network_sent : value :=
  match toServer (ordered_schema network_props) (form_value network_form) with Ok w => w | Err _ => VUndef end.

Lemma empty_list_gains_item_witness : exists x, get_prop network_sent (u "subnets") = Ok (VArr [x]).
Proof.
  apply (@empty_list_gains_item plain_browser js_yaml (ordered_schema network_props) network_props (u "subnets")
           (list_schema subnet_schema) subnet_schema network_fields (map fst network_props) []
           network_without_subnets network_form network_sent); try reflexivity; try (vm_compute; reflexivity).
  - by apply (bool_decide_unpack _).
  - by repeat constructor.
  - do 6 right. by left.
  - by apply (bool_decide_unpack _).
Defined.
