(* ===== verification/TokenTimers.v ===== *)
(** The life of a token in the client's [AppView]: the two timers that warn of
    its end and end the session, the error view they write to, and the events
    of the [UserModel] that set them again; in the tabs of a browser, which
    tell each other of sessions and logouts. *)

From Stdlib Require Import ZArith Lia List String Bool.
From stdpp Require Import base list sets list_numbers tactics.
From S2P Require Import Prelude JsNum Js Int32 Json YamlTimestamp UserModel SessionTabs Underscore.

(** ** Dates *)

(** The fraction of a second, three digits. *)
Definition millis (s : jstr) : option (Z * jstr) :=
  match expect 46 s with
  | Some s => match exactly 3 s with Some (d, s) => Some (digits_val 10 d, s) | None => None end
  | None => Some (0, s)
  end.

(** The time value of [YYYY-MM-DDTHH:mm:ss.sssZ]; other texts are left to the
    engine. *)
Definition iso_date (s : jstr) : option Z :=
  y <-! exactly 4 s; s <-! expect 45 y.2; m <-! exactly 2 s; s <-! expect 45 m.2; d <-! exactly 2 s;
  s <-! expect 84 d.2; h <-! exactly 2 s; s <-! expect 58 h.2; mi <-! exactly 2 s; s <-! expect 58 mi.2;
  sec <-! exactly 2 s; ms <-! millis sec.2; s <-! expect 90 ms.2;
  let v x := digits_val 10 (fst x) in
  let month_days := default 0 (zget (days_in_months (v y)) (v m - 1)) in
  match s with
  | [] =>
      if (1 <=? v d) && (v d <=? month_days) && (v h <? 24) && (v mi <? 60) && (v sec <? 60) then
        Some (MakeDay (v y) (v m - 1) (v d) * msPerDay + v h * 3600000 + v mi * 60000 + v sec * 1000 + ms.1)
      else None
  | _ => None
  end.

(** [new Date(v)] for the value of [expires]: [None] is the invalid date. *)
Definition new_Date (v : value) : res (option Z) :=
  match v with
  | VUndef => Ok None
  | VNull => Ok (Some 0)
  | VStr s => match iso_date s with Some t => Ok (Some t) | None => Err Unsupported end
  | VDate t => Ok t
  | _ => Err Unsupported
  end.

(** The delay of [setTimeout]: converted to a 32-bit integer ([NaN], [None]
    here, to zero), and a negative one is zero. *)
Definition timer_delay (delay : option Z) : Z := Z.max 0 (to_int32 (default 0 delay)).

(** ** The view of a tab *)

(** The two callbacks: the form that extends the token, the message that it
    is expired. *)
Inductive popup := Extend | Expire.

#[export] Instance popup_eq_dec : EqDecision popup.
Proof. solve_decision. Defined.

(** A timer: its identifier, when it is due, and its callback. *)
Record timer := Timer { t_id : Z; t_due : Z; t_call : popup }.

(** The handler of [change:authData] that is registered: none, the one of
    [listenToOnce], or the one that sets the timers again. *)
Inductive listening := Nothing | Once | Always.

Inductive shown := Blank | Login | Page.

Record view := View {
  timers : list timer;
  next_timer : Z;
  extendPopupTimeoutId : option Z;
  expirePopupTimeoutId : option Z;
  listens : listening;
  errorView : option popup;      (* what the error view shows *)
  page : shown;
  fetches : Z                    (* calls of [schemas.fetch] *)
}.

Definition with_listens (l : listening) (v : view) : view :=
  View (timers v) (next_timer v) (extendPopupTimeoutId v) (expirePopupTimeoutId v) l (errorView v) (page v) (fetches v).
Definition with_error (e : option popup) (v : view) : view :=
  View (timers v) (next_timer v) (extendPopupTimeoutId v) (expirePopupTimeoutId v) (listens v) e (page v) (fetches v).
Definition with_page (p : shown) (v : view) : view :=
  View (timers v) (next_timer v) (extendPopupTimeoutId v) (expirePopupTimeoutId v) (listens v) (errorView v) p (fetches v).
Definition with_timers (l : list timer) (v : view) : view :=
  View l (next_timer v) (extendPopupTimeoutId v) (expirePopupTimeoutId v) (listens v) (errorView v) (page v) (fetches v).
Definition fetch_schemas (v : view) : view :=
  View (timers v) (next_timer v) (extendPopupTimeoutId v) (expirePopupTimeoutId v) (listens v) (errorView v) (page v) (fetches v + 1).

(** [clearTimeout(id)]; nothing for [undefined]. *)
Definition without_timer (id : Z) (l : list timer) : list timer := List.filter (fun t => negb (t_id t =? id)) l.
Definition clearTimeout (id : option Z) (v : view) : view :=
  match id with Some id => with_timers (without_timer id (timers v)) v | None => v end.

(** [this.extendPopupTimeoutId = setTimeout(c, delay)] at the time [now]. *)
Definition set_extend (delay : option Z) (now : Z) (v : view) : view :=
  View (timers v ++ [Timer (next_timer v) (now + timer_delay delay) Extend]) (next_timer v + 1)
    (Some (next_timer v)) (expirePopupTimeoutId v) (listens v) (errorView v) (page v) (fetches v).
Definition set_expire (delay : option Z) (now : Z) (v : view) : view :=
  View (timers v ++ [Timer (next_timer v) (now + timer_delay delay) Expire]) (next_timer v + 1)
    (extendPopupTimeoutId v) (Some (next_timer v)) (listens v) (errorView v) (page v) (fetches v).

Definition empty_view : view := View [] 1 None None Nothing None Blank 0.

Section App.
Context (storagePrefix : jstr).
(** The setting [extendTokenTime], in milliseconds. *)
Context (config_extendTokenTime : option Z).

(** [this.config.get('extendTokenTime') || 3e5] *)
Definition extendTokenTime : Z :=
  match config_extendTokenTime with Some b => if b =? 0 then 300000 else b | None => 300000 end.

(** [this.userModel.expiresTokenDate() - new Date] *)
Definition remaining (t : tab) (now : Z) : res (option Z) :=
  x <-? expires storagePrefix t; e <-? new_Date x; Ok (option_map (fun e => e - now) e).

(** Both timers; [false] when an exception stops it. *)
Definition arm (t : tab) (now : Z) (v : view) : view * bool :=
  match remaining t now with
  | Ok r => (set_expire r now (set_extend (option_map (fun r => r - extendTokenTime) r) now v), true)
  | Err _ => (v, false)
  end.

Definition clear_popups (v : view) : view :=
  clearTimeout (expirePopupTimeoutId v) (clearTimeout (extendPopupTimeoutId v) v).

(** [render]: the login form, or the page with its parts. *)
Definition render (t : tab) (v : view) : view :=
  match authToken storagePrefix t with
  | Ok x => with_page (if truthy x then Page else Login) v
  | Err _ => v
  end.

(** The handlers of [change:authData]. *)
Definition on_authData (now : Z) (t : tab) (v : view) : view :=
  match listens v with
  | Nothing => v
  | Always => fst (arm t now (clear_popups v))
  | Once =>
      match arm t now (with_listens Nothing v) with
      | (v, true) => render t (fetch_schemas (with_page Blank (with_listens Always v)))
      | (v, false) => v
      end
  end.

(** The constructor, and the [render] that follows it when the page starts. *)
Definition construct (now : Z) (t : tab) : view :=
  match authToken storagePrefix t with
  | Ok x =>
      if truthy x then
        match arm t now (with_listens Always empty_view) with
        | (v, true) => render t (fetch_schemas v)
        | (v, false) => v
        end
      else render t (with_listens Once empty_view)
  | Err _ => empty_view
  end.

(** ** The browser *)

Record world := World { now : Z; br : browser; views : list view }.

(** [set('authData', x)] is announced when the value is another one. *)
Definition authData_changed (t t' : tab) : bool := negb (isEqual (authData t) (authData t')).

(** The views hear of the changes of their models. *)
Definition notice_view (n : Z) (b b' : browser) (i : nat) (v : view) : view :=
  match tabs b !! i, tabs b' !! i with
  | Some t, Some t' => if authData_changed t t' then on_authData n t' v else v
  | _, _ => v
  end.

Definition notice (n : Z) (b b' : browser) (vs : list view) : list view := imap (notice_view n b b') vs.

(** Answers of the server, and the choice of a tenant: what they do to the
    model.  Logging in saves the token and asks for the tenants. *)
Inductive answer :=
| LoginAnswer (g : value)
| TenantsAnswer (c : value)
| SelectTenant (n : value)
| TokenAnswer (a : value)
| ExtendAnswer (e : value).

Definition answer_step (a : answer) (t : tab) : res tab :=
  match a with
  | LoginAnswer g => saveUnscopedToken storagePrefix g t
  | TenantsAnswer c => r <-? tenants_success storagePrefix c t; Ok (fst r)
  | SelectTenant n => r <-? loginTenant storagePrefix n t; Ok (fst r)
  | TokenAnswer a => UserModel.parse storagePrefix a t
  | ExtendAnswer e => extend_success storagePrefix e t
  end.

(** The promise of [extendToken] closes the error view. *)
Definition after_answer (a : answer) (v : view) : view :=
  match a with ExtendAnswer _ => with_error None v | _ => v end.

(** The timer that fires first among those that are due: the least time, then
    the one set first. *)
Fixpoint first_due (n : Z) (l : list timer) : option timer :=
  match l with
  | [] => None
  | t :: l =>
      match first_due n l with
      | Some t' => Some (if (t_due t <=? n) && (t_due t <=? t_due t') then t else t')
      | None => if t_due t <=? n then Some t else None
      end
  end.

(** The callbacks. *)
Definition call (p : popup) (i : nat) (s : world) : world :=
  let show vs := alter (with_error (Some p)) i vs in
  match p with
  | Extend => World (now s) (br s) (show (views s))
  | Expire => World (now s) (logout storagePrefix i (br s)) (show (views s))
  end.

(** [window.location.reload()]: the tab keeps its session storage; its timers
    are gone and its model and view are new. *)
Definition reload (i : nat) (s : world) : world :=
  match tabs (br s) !! i with
  | None => s
  | Some t =>
      let t := {| session := session t; authData := VUndef |} in
      let b := Build_browser (<[i := t]> (tabs (br s))) (local (br s)) (events (br s))
                 (List.filter (fun p => negb (Nat.eqb (fst p) i)) (pending (br s))) in
      let b := match session t with
               | [] => remove_later i [get_key storagePrefix] (local_set i (get_key storagePrefix) (u "true") b)
               | _ => b
               end in
      World (now s) b (<[i := construct (now s) t]> (views s))
  end.

Inductive move :=
| Wait (d : Z)                        (* time passes *)
| Fire (i : nat)                      (* a timer of tab [i] fires *)
| Tabs (a : action)                   (* a tab is opened, logs out, hears of a change of the storage, ... *)
| Answer (i : nat) (a : answer)
| Reload (i : nat).

Definition move_step (m : move) (s : world) : option world :=
  match m with
  | Wait d => if 0 <=? d then Some (World (now s + d) (br s) (views s)) else None
  | Fire i =>
      v ← views s !! i;
      t ← first_due (now s) (timers v);
      Some (call (t_call t) i (World (now s) (br s) (<[i := with_timers (without_timer (t_id t) (timers v)) v]> (views s))))
  | Tabs a =>
      b ← step storagePrefix a (br s);
      let vs := notice (now s) (br s) b (views s) in
      Some (World (now s) b (match a with AOpen => vs ++ [construct (now s) new_tab] | _ => vs end))
  | Answer i a =>
      t ← tabs (br s) !! i;
      match answer_step a t with
      | Ok t' =>
          let b := with_tab i t' (br s) in
          Some (World (now s) b (alter (after_answer a) i (notice (now s) (br s) b (views s))))
      | Err _ => Some s
      end
  | Reload i => Some (reload i s)
  end.

Fixpoint moves (l : list move) (s : world) : option world :=
  match l with
  | [] => Some s
  | m :: l => s ← move_step m s; moves l s
  end.

(** A browser whose first tab is opened. *)
Definition start (n : Z) : world := World n (Build_browser [] [] [] []) [].

(** The timers of tab [i] that are due fire. *)
Fixpoint fire_all (fuel : nat) (i : nat) (s : world) : world :=
  match fuel with
  | O => s
  | S fuel => match move_step (Fire i) s with Some s => fire_all fuel i s | None => s end
  end.

Definition reachable (s : world) : Prop := exists n l, moves l (start n) = Some s.

(** * Properties *)

(** ** The timers of a view *)

(** The identifier that the view keeps for a kind of popup. *)
Definition kept (p : popup) (v : view) : option Z :=
  match p with Extend => extendPopupTimeoutId v | Expire => expirePopupTimeoutId v end.

(** The pending timers are those whose identifiers the view keeps. *)
Record view_ok (v : view) : Prop := {
  vo_new : Forall (fun t => t_id t < next_timer v) (timers v);
  vo_nodup : NoDup (map t_id (timers v));
  vo_own : Forall (fun t => kept (t_call t) v = Some (t_id t)) (timers v);
  vo_once : listens v = Once -> timers v = []
}.

Lemma without_timer_elem id l t : t ∈ without_timer id l <-> t ∈ l /\ t_id t <> id.
Proof.
  unfold without_timer. rewrite !list_elem_of_In, filter_In, negb_true_iff, Z.eqb_neq. done.
Qed.

Lemma without_timer_NoDup id l : NoDup (map t_id l) -> NoDup (map t_id (without_timer id l)).
Proof.
  induction l as [|t l IH]; cbn; [done|]. intros [Hn Hl]%list.NoDup_cons.
  destruct (t_id t =? id); cbn; [by apply IH|]. apply list.NoDup_cons. split; [|by apply IH].
  intros (x & Hx & Hin)%list_elem_of_fmap. apply Hn, list_elem_of_fmap. exists x. split; [done|].
  by apply without_timer_elem in Hin as [? _].
Qed.

Lemma without_timer_ok id v : view_ok v -> view_ok (with_timers (without_timer id (timers v)) v).
Proof.
  intros [H1 H2 H3 H4]. split; cbn.
  - apply list.Forall_forall. intros t [Ht _]%without_timer_elem. by eapply list.Forall_forall in H1.
  - by apply without_timer_NoDup.
  - apply list.Forall_forall. intros t [Ht _]%without_timer_elem. by eapply list.Forall_forall in H3.
  - intros E. by rewrite (H4 E).
Qed.

Lemma clearTimeout_ok id v : view_ok v -> view_ok (clearTimeout id v).
Proof. destruct id; [apply without_timer_ok | done]. Qed.

Lemma clear_popups_ok v : view_ok v -> view_ok (clear_popups v).
Proof. intros H. unfold clear_popups. by do 2 apply clearTimeout_ok. Qed.

(** Clearing both leaves nothing pending. *)
Lemma clear_popups_timers v : view_ok v -> timers (clear_popups v) = [].
Proof.
  intros [_ _ Hown _]. apply elem_of_nil_inv. intros t Ht.
  assert (E : forall id v' x, x ∈ timers (clearTimeout id v') -> x ∈ timers v' /\ Some (t_id x) <> id).
  { intros [id|] v' x; cbn; [|by intros Hx]. intros [Hx Hn]%without_timer_elem. split; [done|]. intros [= ?]. done. }
  unfold clear_popups in Ht. apply E in Ht as [Ht Hx]. apply E in Ht as [Ht He].
  eapply list.Forall_forall in Hown; [|exact Ht]. unfold kept in Hown. destruct (t_call t); congruence.
Qed.

(** The timers that [arm] sets for a token that lasts [r]. *)
Definition armed (n k : Z) (r : option Z) : list timer :=
  [Timer k (n + timer_delay (option_map (fun r => r - extendTokenTime) r)) Extend;
   Timer (k + 1) (n + timer_delay r) Expire].

Lemma arm_timers t n v r :
  remaining t n = Ok r ->
  arm t n v = (View (timers v ++ armed n (next_timer v) r) (next_timer v + 1 + 1) (Some (next_timer v))
                 (Some (next_timer v + 1)) (listens v) (errorView v) (page v) (fetches v), true).
Proof. unfold arm. intros ->. unfold set_expire, set_extend. cbn. by rewrite <- app_assoc. Qed.

Lemma arm_ok t n v : view_ok v -> timers v = [] -> listens v <> Once -> view_ok (fst (arm t n v)).
Proof.
  intros [H1 H2 H3 H4] Hv Hl. destruct (remaining t n) as [r|e] eqn:E.
  - rewrite (arm_timers _ _ _ _ E), Hv. cbn. split; cbn; [| | |done].
    + repeat apply Forall_cons_2; cbn; [lia | lia | apply Forall_nil_2].
    + apply list.NoDup_cons. split; [|apply NoDup_singleton]. intros ?%list_elem_of_singleton. lia.
    + by repeat apply Forall_cons_2.
  - unfold arm. rewrite E. by split.
Qed.

(** Parts that do not concern the timers. *)
Lemma same_timers_ok v v' :
  view_ok v -> timers v' = timers v -> next_timer v' = next_timer v ->
  extendPopupTimeoutId v' = extendPopupTimeoutId v -> expirePopupTimeoutId v' = expirePopupTimeoutId v ->
  (listens v' = Once -> timers v = []) -> view_ok v'.
Proof.
  intros [H1 H2 H3 H4] E1 E2 E3 E4 E5. split; rewrite ?E1, ?E2; [done | done | | done].
  eapply Forall_impl; [|exact H3]. intros t. unfold kept. destruct (t_call t); congruence.
Qed.

Lemma render_ok t v : view_ok v -> view_ok (render t v).
Proof.
  intros H. unfold render. destruct (authToken _ t); [|done]. eapply same_timers_ok; try done. apply H.
Qed.

Lemma empty_view_ok l : view_ok (with_listens l empty_view).
Proof. split; cbn; [apply Forall_nil_2 | apply NoDup_nil_2 | apply Forall_nil_2 | done]. Qed.

Lemma clear_popups_listens v : listens (clear_popups v) = listens v.
Proof.
  unfold clear_popups. destruct (extendPopupTimeoutId v), (expirePopupTimeoutId v); done.
Qed.

Lemma on_authData_ok n t v : view_ok v -> view_ok (on_authData n t v).
Proof.
  intros H. unfold on_authData. destruct (listens v) eqn:El; [done| |].
  - assert (H0 : view_ok (fst (arm t n (with_listens Nothing v)))).
    { apply arm_ok; [by eapply same_timers_ok | by apply H | done]. }
    destruct (arm _ _ _) as [v' [|]] eqn:E; [|exact H0]. cbn in H0. apply render_ok.
    eapply same_timers_ok; [exact H0 | done..].
  - apply arm_ok; [by apply clear_popups_ok | by apply clear_popups_timers|].
    by rewrite clear_popups_listens, El.
Qed.

Lemma construct_ok n t : view_ok (construct n t).
Proof.
  unfold construct. destruct (authToken _ t) as [x|]; [|apply (empty_view_ok Nothing)].
  destruct (truthy x); [|by apply render_ok, empty_view_ok].
  pose proof (arm_ok t n (with_listens Always empty_view) (empty_view_ok Always) eq_refl ltac:(done)) as H0.
  destruct (arm _ _ _) as [v' [|]] eqn:E; [|exact H0]. apply render_ok.
  eapply same_timers_ok; [exact H0 | done..|]. cbn. apply H0.
Qed.

Lemma with_error_ok e v : view_ok v -> view_ok (with_error e v).
Proof. intros H. eapply same_timers_ok; try done. apply H. Qed.

Lemma Forall_alter_ok {A} (P : A -> Prop) f i l : Forall P l -> (forall x, P x -> P (f x)) -> Forall P (alter f i l).
Proof. intros H Hf. apply Forall_alter; [done|]. intros x Hx Hp. by apply Hf. Qed.

Lemma Forall_imap_ok {A} (P : A -> Prop) (f : nat -> A -> A) l :
  Forall P l -> (forall i x, P x -> P (f i x)) -> Forall P (imap f l).
Proof.
  intros H Hf. apply Forall_lookup. intros i x. rewrite list_lookup_imap, fmap_Some.
  intros (y & Hy & ->). apply Hf. by eapply Forall_lookup in H.
Qed.

Lemma notice_ok n b b' vs : Forall view_ok vs -> Forall view_ok (notice n b b' vs).
Proof.
  intros H. apply Forall_imap_ok; [done|]. intros i v Hv. unfold notice_view.
  destruct (tabs b !! i), (tabs b' !! i); try done. destruct (authData_changed _ _); [by apply on_authData_ok | done].
Qed.

Lemma move_step_ok m s s' : Forall view_ok (views s) -> move_step m s = Some s' -> Forall view_ok (views s').
Proof.
  intros H. destruct m as [d|i|a|i a|i]; cbn [move_step].
  - destruct (0 <=? d); [by intros [= <-] | done].
  - destruct (views s !! i) as [v|] eqn:Ev; cbn [mbind option_bind]; [|done].
    destruct (first_due _ _) as [t|]; cbn [mbind option_bind]; [|done]. intros [= <-].
    assert (Forall view_ok (<[i := with_timers (without_timer (t_id t) (timers v)) v]> (views s))).
    { apply Forall_insert; [done|]. apply without_timer_ok. by eapply Forall_lookup in H. }
    destruct (t_call t); cbn; (apply Forall_alter_ok; [done | apply with_error_ok]).
  - destruct (step _ _ _) as [b|]; cbn [mbind option_bind]; [|done]. intros [= <-]. cbn [views].
    pose proof (notice_ok (now s) (br s) b _ H). destruct a; try done.
    apply Forall_app. split; [done|]. apply Forall_cons_2; [apply construct_ok | apply Forall_nil_2].
  - destruct (tabs (br s) !! i); cbn [mbind option_bind]; [|done].
    destruct (answer_step a t); [|by intros [= <-]]. intros [= <-]. cbn.
    apply Forall_alter_ok; [by apply notice_ok|]. intros v Hv. destruct a; try done. by apply with_error_ok.
  - intros [= <-]. unfold reload. destruct (tabs (br s) !! i); [|done]. cbn [views].
    apply Forall_insert; [done | apply construct_ok].
Qed.

Lemma moves_ok l : forall s s', Forall view_ok (views s) -> moves l s = Some s' -> Forall view_ok (views s').
Proof.
  induction l as [|m l IH]; intros s s' H; cbn; [by intros [= <-]|].
  destruct (move_step m s) as [s1|] eqn:E; cbn; [|done]. apply IH. by eapply move_step_ok.
Qed.

Lemma reachable_ok s i v : reachable s -> views s !! i = Some v -> view_ok v.
Proof.
  intros (n & l & Hs) Hv. eapply Forall_lookup; [|exact Hv]. eapply moves_ok; [|exact Hs]. apply Forall_nil_2.
Qed.

(** C19.  Whatever happens in the tabs of a browser, a view never has two
    pending warnings or two pending expirations, and the one that is pending is
    the one whose identifier the view keeps: the next change of the token can
    still cancel it. *)
Theorem timers_invariant s i v :
  reachable s -> views s !! i = Some v ->
  forall p, (length (List.filter (fun t => bool_decide (t_call t = p)) (timers v)) <= 1)%nat /\
    forall t, t ∈ timers v -> t_call t = p -> kept p v = Some (t_id t).
Proof.
  intros Hs Hv p. destruct (reachable_ok _ _ _ Hs Hv) as [_ H2 H3 _]. cbv beta in H3.
  assert (Ho : forall t, t ∈ timers v -> t_call t = p -> kept p v = Some (t_id t)).
  { intros t Ht <-. by eapply list.Forall_forall in H3. }
  split; [|done]. revert H2 Ho. generalize (kept p v). intros k. clear. induction (timers v) as [|t l IH]; [cbn; lia|].
  cbn [map List.filter]. intros [Hn Hl]%list.NoDup_cons Ho.
  assert (IH' := IH Hl (fun x Hx => Ho x ltac:(by right))). case_bool_decide as Ep; [|done]. cbn [length].
  destruct (List.filter _ l) as [|x l'] eqn:El; [cbn; lia|]. exfalso.
  assert (Hx : x ∈ l /\ t_call x = p).
  { assert (Hin : In x (List.filter (fun t => bool_decide (t_call t = p)) l)) by (rewrite El; by left).
    apply filter_In in Hin as [? Hd]. split; [by apply list_elem_of_In | by apply bool_decide_eq_true in Hd]. }
  destruct Hx as [Hx Hp]. pose proof (Ho t ltac:(left) Ep) as E1. pose proof (Ho x ltac:(by right) Hp) as E2.
  apply Hn, list_elem_of_fmap. exists x. split; [congruence | done].
Qed.

(** ** The schedule of a token *)

Lemma first_due_armed n k r N :
  timer_delay (option_map (fun r => r - extendTokenTime) r) <= timer_delay r ->
  first_due N (armed n k r)
  = if n + timer_delay (option_map (fun r => r - extendTokenTime) r) <=? N
    then Some (Timer k (n + timer_delay (option_map (fun r => r - extendTokenTime) r)) Extend)
    else None.
Proof.
  intros Hle. unfold armed. set (x := timer_delay (option_map _ r)) in *. set (y := timer_delay r) in *.
  cbn [first_due t_due]. destruct (Z.leb_spec (n + y) N), (Z.leb_spec (n + x) N); try done; [|lia].
  cbn [andb t_due]. by rewrite (proj2 (Z.leb_le (n + x) (n + y))) by lia.
Qed.

(** A change of the token, by an answer, sets both timers anew. *)
Lemma answer_arms s i t v a t' r :
  view_ok v -> tabs (br s) !! i = Some t -> views s !! i = Some v -> listens v <> Nothing ->
  answer_step a t = Ok t' -> authData_changed t t' = true -> remaining t' (now s) = Ok r ->
  exists s1 v1 k, move_step (Answer i a) s = Some s1 /\ now s1 = now s /\ tabs (br s1) !! i = Some t' /\
    views s1 !! i = Some v1 /\ timers v1 = armed (now s) k r /\
    errorView v1 = match a with ExtendAnswer _ => None | _ => errorView v end.
Proof.
  intros Hok Ht Hv Hl Ha Hc Hr. cbn [move_step]. rewrite Ht. cbn [mbind option_bind]. rewrite Ha.
  assert (Hon : exists k, timers (on_authData (now s) t' v) = armed (now s) k r /\ errorView (on_authData (now s) t' v) = errorView v).
  { unfold on_authData. destruct (listens v) eqn:El; [done| |].
    - rewrite (arm_timers _ _ _ _ Hr). exists (next_timer v). cbn [with_listens timers next_timer].
      rewrite (vo_once _ Hok El). unfold render. by destruct (authToken _ t').
    - rewrite (arm_timers _ _ _ _ Hr). cbn [fst timers errorView]. rewrite (clear_popups_timers _ Hok). eexists. split; [done|].
      unfold clear_popups. by destruct (extendPopupTimeoutId v), (expirePopupTimeoutId v). }
  destruct Hon as (k & Hk & He).
  assert (Hi : tabs (with_tab i t' (br s)) !! i = Some t').
  { cbn. apply list_lookup_insert_eq. by eapply lookup_lt_Some. }
  assert (Hn : notice (now s) (br s) (with_tab i t' (br s)) (views s) !! i = Some (on_authData (now s) t' v)).
  { unfold notice. rewrite list_lookup_imap, Hv. cbn [fmap option_fmap option_map]. unfold notice_view. by rewrite Ht, Hi, Hc. }
  eexists _, (after_answer a (on_authData (now s) t' v)), k. split; [done|]. split; [done|]. split; [exact Hi|].
  cbn [views]. rewrite list_lookup_alter_eq, Hn. cbn [fmap option_fmap option_map]. split; [done|].
  destruct a; cbn [after_answer with_error timers errorView]; done.
Qed.

(** What a timer does when it fires. *)
Lemma fire_effect s i v t tb :
  views s !! i = Some v -> tabs (br s) !! i = Some tb -> first_due (now s) (timers v) = Some t ->
  exists s', move_step (Fire i) s = Some s' /\ now s' = now s /\
    views s' !! i = Some (with_error (Some (t_call t)) (with_timers (without_timer (t_id t) (timers v)) v)) /\
    tabs (br s') !! i = Some (match t_call t with Extend => tb | Expire => unsetAuthData storagePrefix tb end) /\
    br s' = match t_call t with Extend => br s | Expire => logout storagePrefix i (br s) end.
Proof.
  intros Hv Ht Hf. cbn [move_step]. rewrite Hv. cbn [mbind option_bind]. rewrite Hf. cbn [mbind option_bind].
  eexists. split; [done|]. pose proof (lookup_lt_Some _ _ _ Hv) as Hlt.
  assert (Hw : forall vs p, vs = <[i := with_timers (without_timer (t_id t) (timers v)) v]> (views s) ->
             alter (with_error (Some p)) i vs !! i = Some (with_error (Some p) (with_timers (without_timer (t_id t) (timers v)) v))).
  { intros vs p ->. rewrite list_lookup_alter_eq, list_lookup_insert_eq by done. done. }
  destruct (t_call t); cbn [call now views br]; (split; [done|]); (split; [by apply Hw|]); (split; [|done]); [done|].
  unfold logout. rewrite Ht. cbn [with_tab tabs remove_later]. unfold local_set.
  apply lookup_lt_Some in Ht. case_bool_decide; cbn [tabs]; by apply list_lookup_insert_eq.
Qed.

Lemma no_fire s i v : views s !! i = Some v -> first_due (now s) (timers v) = None -> move_step (Fire i) s = None.
Proof. intros Hv Hf. cbn [move_step]. rewrite Hv. cbn [mbind option_bind]. by rewrite Hf. Qed.

Lemma fire_all_done n i s : move_step (Fire i) s = None -> fire_all n i s = s.
Proof. destruct n; [done|]. cbn [fire_all]. by intros ->. Qed.

Lemma timer_delay_small r : r < 2 ^ 31 -> - 2 ^ 31 <= r -> timer_delay (Some r) = Z.max 0 r.
Proof. intros H1 H2. unfold timer_delay. cbn [default]. by rewrite to_int32_small. Qed.

(** Both timers of a view fire, the warning first. *)
Lemma fire_both s i v tb n k r :
  views s !! i = Some v -> tabs (br s) !! i = Some tb -> timers v = armed n k r ->
  timer_delay (option_map (fun r => r - extendTokenTime) r) <= timer_delay r -> n + timer_delay r <= now s ->
  exists s1 s2, move_step (Fire i) s = Some s1 /\ move_step (Fire i) s1 = Some s2 /\ move_step (Fire i) s2 = None /\
    now s2 = now s /\ tabs (br s2) !! i = Some (unsetAuthData storagePrefix tb) /\
    (exists v2, views s2 !! i = Some v2 /\ errorView v2 = Some Expire) /\ br s2 = logout storagePrefix i (br s).
Proof.
  intros Hv Ht Htm Hle Hn. assert (Hk : k =? k + 1 = false) by (apply Z.eqb_neq; lia).
  destruct (fire_effect s i v (Timer k (n + timer_delay (option_map (fun r => r - extendTokenTime) r)) Extend) tb)
    as (s1 & H1 & N1 & V1 & T1 & B1); [done | done | |].
  { rewrite Htm, first_due_armed by done. by rewrite (proj2 (Z.leb_le _ _)) by lia. }
  cbn [t_call t_id] in *. rewrite Htm in V1. unfold armed in V1. cbn [without_timer List.filter t_id] in V1.
  rewrite Z.eqb_refl, (Z.eqb_sym (k + 1) k), Hk in V1. cbn [negb] in V1.
  destruct (fire_effect s1 i _ (Timer (k + 1) (n + timer_delay r) Expire) tb V1 T1) as (s2 & H2 & N2 & V2 & T2 & B2).
  { cbn [with_error with_timers timers first_due t_due]. rewrite N1. by rewrite (proj2 (Z.leb_le _ _)) by lia. }
  cbn [t_call t_id] in *. exists s1, s2. split; [done|]. split; [done|]. split; [|split; [congruence|]].
  - eapply no_fire; [exact V2|]. cbn [with_error with_timers timers without_timer List.filter t_id].
    by rewrite Z.eqb_refl.
  - split; [done|]. split; [by eexists|]. by rewrite B2, B1.
Qed.

(** C20.  The schedule of a token.  When an answer gives the model of a tab a
    token that lasts [r] milliseconds more, less than [2 ^ 31], then after [d] milliseconds the
    tab has warned exactly if the token has at most the configured time left,
    and has ended the session exactly if the token is expired; timers of an
    earlier token have no part in it. *)
Theorem expiry_schedule s i t v a t' r d :
  reachable s -> tabs (br s) !! i = Some t -> views s !! i = Some v -> listens v <> Nothing ->
  answer_step a t = Ok t' -> authData_changed t t' = true -> remaining t' (now s) = Ok (Some r) ->
  0 <= r < 2 ^ 31 -> 0 <= extendTokenTime <= 2 ^ 31 -> 0 <= d ->
  exists s1 v2, moves [Answer i a; Wait d] s = Some s1 /\
    let s2 := fire_all 3 i s1 in
    move_step (Fire i) s2 = None /\ views s2 !! i = Some v2 /\
    errorView v2 = (if r <=? d then Some Expire
                    else if r - d <=? extendTokenTime then Some Extend
                    else match a with ExtendAnswer _ => None | _ => errorView v end) /\
    tabs (br s2) !! i = Some (if r <=? d then unsetAuthData storagePrefix t' else t').
Proof.
  intros Hs Ht Hv Hl Ha Hc Hr Hb He Hd. pose proof (reachable_ok _ _ _ Hs Hv) as Hok.
  destruct (answer_arms s i t v a t' (Some r) Hok Ht Hv Hl Ha Hc Hr) as (s0 & v0 & k & H0 & N0 & T0 & V0 & Tm & E0).
  cbn [moves]. rewrite H0. cbn [mbind option_bind move_step]. rewrite (proj2 (Z.leb_le 0 d)) by lia. cbn [mbind option_bind].
  set (s1 := World (now s0 + d) (br s0) (views s0)).
  assert (D1 : timer_delay (Some r) = r) by (rewrite timer_delay_small by lia; lia).
  assert (D2 : timer_delay (option_map (fun r => r - extendTokenTime) (Some r)) = Z.max 0 (r - extendTokenTime)).
  { cbn [option_map]. by rewrite timer_delay_small by lia. }
  destruct (Z.leb_spec r d) as [Hrd|Hrd].
  - destruct (fire_both s1 i v0 t' (now s) k (Some r)) as (s2 & s3 & F1 & F2 & F3 & _ & T3 & (v3 & V3 & E3) & _);
      [done | done | done | lia | cbn [s1 now]; lia |].
    exists s1, v3. split; [done|]. cbn zeta. cbn [fire_all]. rewrite F1, F2, F3. done.
  - destruct (Z.leb_spec (r - d) extendTokenTime) as [Hx|Hx].
    + destruct (fire_effect s1 i v0 (Timer k (now s + Z.max 0 (r - extendTokenTime)) Extend) t') as (s2 & F1 & N1 & V1 & T1 & _);
        [done | done | |].
      { rewrite Tm, first_due_armed, D2 by lia. by rewrite (proj2 (Z.leb_le _ _)) by (cbn [s1 now]; lia). }
      eexists s1, _. split; [done|]. cbn zeta.
      assert (F2 : move_step (Fire i) s2 = None).
      { eapply no_fire; [exact V1|]. rewrite Tm. unfold armed.
        cbn [with_error with_timers timers without_timer List.filter t_id]. rewrite Z.eqb_refl.
        assert (Hk : k + 1 =? k = false) by (apply Z.eqb_neq; lia). rewrite Hk. cbn [negb first_due t_due].
        rewrite D1, N1. cbn [s1 now]. by rewrite (proj2 (Z.leb_gt _ _)) by lia. }
      cbn [fire_all]. rewrite F1, F2. split; [done|]. split; [exact V1|]. done.
    + assert (F1 : move_step (Fire i) s1 = None).
      { eapply no_fire; [exact V0|]. rewrite Tm, first_due_armed, D2 by lia. by rewrite (proj2 (Z.leb_gt _ _)) by (cbn [s1 now]; lia). }
      exists s1, v0. split; [done|]. cbn zeta. rewrite (fire_all_done _ _ _ F1). done.
Qed.

(** ** Tokens that last long *)

Lemma signed_out_unset t : signed_out storagePrefix (unsetAuthData storagePrefix t).
Proof. intros k Hk. by apply obj_lookup_own. Qed.

Lemma timer_delay_wraps r : 2 ^ 31 <= r < 2 ^ 32 -> timer_delay (Some r) = 0.
Proof.
  intros Hr. unfold timer_delay, to_int32. cbn [default]. cbv zeta. rewrite (Z.mod_small r) by lia.
  destruct (Z.ltb_spec r (2 ^ 31)); lia.
Qed.

(** A token that lasts longer than a timer can wait.  When the rest of
    its life is between 2^31 and 2^32 milliseconds (25 to 49 days), the delays
    are negative as 32-bit integers, so both timers fire at once and the
    session ends at the very moment it begins. *)
Theorem long_token_ends_at_once s i t v a t' r :
  reachable s -> tabs (br s) !! i = Some t -> views s !! i = Some v -> listens v <> Nothing ->
  answer_step a t = Ok t' -> authData_changed t t' = true -> remaining t' (now s) = Ok (Some r) ->
  2 ^ 31 + extendTokenTime <= r < 2 ^ 32 -> 0 <= extendTokenTime ->
  exists s' v', moves [Answer i a; Fire i; Fire i] s = Some s' /\ now s' = now s /\
    views s' !! i = Some v' /\ errorView v' = Some Expire /\
    tabs (br s') !! i = Some (unsetAuthData storagePrefix t') /\
    authToken storagePrefix (unsetAuthData storagePrefix t') = Ok VUndef.
Proof.
  intros Hs Ht Hv Hl Ha Hc Hr Hb He. pose proof (reachable_ok _ _ _ Hs Hv) as Hok.
  destruct (answer_arms s i t v a t' (Some r) Hok Ht Hv Hl Ha Hc Hr) as (s0 & v0 & k & H0 & N0 & T0 & V0 & Tm & _).
  assert (D1 : timer_delay (Some r) = 0) by (apply timer_delay_wraps; lia).
  assert (D2 : timer_delay (option_map (fun r => r - extendTokenTime) (Some r)) = 0).
  { cbn [option_map]. apply timer_delay_wraps. lia. }
  destruct (fire_both s0 i v0 t' (now s) k (Some r)) as (s1 & s2 & F1 & F2 & _ & N2 & T2 & (v2 & V2 & E2) & _);
    [done | done | done | lia | lia |].
  exists s2, v2. cbn [moves]. rewrite H0. cbn [mbind option_bind]. rewrite F1. cbn [mbind option_bind]. rewrite F2.
  repeat (split; [done || congruence|]). unfold authToken.
  assert (Hh : holds storagePrefix (unsetAuthData storagePrefix t') logged_out) by (apply holds_logged_out, signed_out_unset).
  by rewrite (scoped_read_spec _ _ _ _ Hh).
Qed.

(** ** Timers and the other tabs *)

Lemma moves_app l1 l2 s : moves (l1 ++ l2) s = (s' ← moves l1 s; moves l2 s').
Proof. revert s. induction l1 as [|m l1 IH]; intros s; cbn; [done|]. destruct (move_step m s); cbn; [apply IH | done]. Qed.

(** A tab that ends its session ends that of the other tab. *)
Lemma expire_reaches s t0 t1 :
  tabs (br s) = [t0; t1] -> events (br s) = [] -> obj_lookup (clear_key storagePrefix) (local (br s)) = None ->
  exists b, step storagePrefix (ADeliver 0) (logout storagePrefix 1 (br s)) = Some b /\
    tabs b = [unsetAuthData storagePrefix t0; unsetAuthData storagePrefix t1].
Proof.
  intros Ht He Hl. unfold logout. rewrite Ht. cbn [lookup list_lookup]. unfold local_set. rewrite Hl, He, Ht.
  rewrite bool_decide_eq_false_2 by done. cbn [with_tab remove_later tabs local events pending].
  replace (notify 1 (clear_key storagePrefix) (Some (u "true")) (br s)) with [clear_event storagePrefix 0]
    by (unfold notify; by rewrite Ht).
  cbn [app with_tab remove_later tabs local events pending step take_event e_tab clear_event Nat.eqb]; fold (clear_event storagePrefix 0).
  rewrite transfer_clear. unfold logout. cbn [tabs lookup list_lookup insert list_insert]. eexists. split; [done|].
  unfold local_set. by case_goal.
Qed.

Lemma remaining_later t n m e :
  remaining t n = Ok (Some e) -> remaining t m = Ok (Some (e + n - m)).
Proof.
  unfold remaining. destruct (expires storagePrefix t) as [x|]; cbn [res_bind]; [|done].
  destruct (new_Date x) as [[d|]|]; cbn [res_bind option_map]; try done. intros [= <-]. do 2 f_equal. lia.
Qed.

(** The timer of an earlier session outlives it.  Logging out does not
    clear the timers of the other tabs; when such a timer fires in tab 1, the
    session of tab 0 ends too, however long its own token still lasts. *)
Theorem stale_timer_ends_session s t0 t1 v1 tm r :
  tabs (br s) = [t0; t1] -> events (br s) = [] -> obj_lookup (clear_key storagePrefix) (local (br s)) = None ->
  views s !! 1%nat = Some v1 -> first_due (t_due tm) (timers v1) = Some tm -> t_call tm = Expire -> now s <= t_due tm ->
  remaining t0 (now s) = Ok (Some r) -> t_due tm - now s < r ->
  exists s' left, moves [Wait (t_due tm - now s); Fire 1; Tabs (ADeliver 0)] s = Some s' /\
    now s' = t_due tm /\ remaining t0 (now s') = Ok (Some left) /\ 0 < left /\
    tabs (br s') = [unsetAuthData storagePrefix t0; unsetAuthData storagePrefix t1] /\
    Forall (signed_out storagePrefix) (tabs (br s')).
Proof.
  intros Ht He Hl Hv Hf Hc Hn Hr Hlt. cbn [moves].
  assert (H1 : move_step (Wait (t_due tm - now s)) s = Some (World (t_due tm) (br s) (views s))).
  { cbn [move_step]. rewrite (proj2 (Z.leb_le _ _)) by lia. do 2 f_equal. lia. }
  rewrite H1. cbn [mbind option_bind].
  destruct (fire_effect (World (t_due tm) (br s) (views s)) 1 v1 tm t1) as (s2 & F & N2 & V2 & T2 & B2);
    [done | cbn [br]; by rewrite Ht | done |].
  rewrite F. cbn [mbind option_bind]. rewrite Hc in B2. cbn [br] in B2.
  destruct (expire_reaches s t0 t1) as (b & Hb & Htb); [done..|].
  cbn [move_step]. rewrite B2, Hb. cbn [mbind option_bind]. eexists _, (r + now s - t_due tm). split; [done|].
  cbn [now br]. rewrite N2. cbn [now]. split; [done|]. split; [by apply remaining_later|]. split; [lia|].
  split; [done|]. rewrite Htb. repeat (apply Forall_cons_2; [apply signed_out_unset|]). apply Forall_nil_2.
Qed.

(** A new tab that takes over a session announces its token. *)
Lemma obj_lookup_strings k (s : storage) :
  obj_lookup k (map (fun kv : jstr * jstr => (kv.1, VStr kv.2)) s) = VStr <$> obj_lookup k s.
Proof. induction s as [|[k' x] s IH]; cbn; [done|]. by destruct (streq k k'). Qed.

Lemma take_session_auth s c x g :
  session_text s = Ok (c :: x) -> parse_json (c :: x) = Ok (VObj (map (fun kv => (kv.1, VStr kv.2)) s)) -> session_ok s ->
  getItem storagePrefix (u "unscopedToken") {| session := s; authData := VUndef |} = Ok g -> truthy g = true ->
  take_session storagePrefix (c :: x) new_tab = {| session := s; authData := g |}.
Proof.
  intros _ Hp Hs Hg Ht. unfold take_session. rewrite Hp. cbn [res_bind new_tab session].
  rewrite copy_session_ok by done. cbn [res_bind get_prop]. unfold obj_get. rewrite obj_lookup_strings.
  unfold getItem in Hg. cbn [session] in Hg. destruct (obj_lookup _ s) as [[|b0 b]|]; cbn [fmap option_fmap option_map default].
  - injection Hg as <-. done.
  - unfold id. cbn [truthy to_string res_bind]. by rewrite Hg.
  - injection Hg as <-. done.
Qed.

Lemma notice_view_error n b b' i v : errorView (notice_view n b b' i v) = errorView v.
Proof.
  assert (Ha : forall t v, errorView (fst (arm t n v)) = errorView v) by (intros t v'; unfold arm; by destruct (remaining t n)).
  unfold notice_view, on_authData. repeat case_match; try done; rewrite ?Ha; try done.
  - unfold render. match goal with E : arm _ _ _ = (?w, _) |- _ => pose proof (f_equal (fun p => errorView (fst p)) E) as He end.
    cbn [fst] in He. rewrite Ha in He. by destruct (authToken _ _).
  - match goal with E : arm _ _ _ = (?w, _) |- _ => pose proof (f_equal (fun p => errorView (fst p)) E) as He end.
    cbn [fst] in He. rewrite Ha in He. done.
  - unfold clear_popups. by destruct (extendPopupTimeoutId v), (expirePopupTimeoutId v).
Qed.

Lemma notice_two n b b' v w : notice n b b' [v; w] = [notice_view n b b' 0 v; notice_view n b b' 1 w].
Proof. done. Qed.

(** The new tab takes the session over, and sets its timers for a token that is
    not there. *)
Lemma half_login_taken n t0 v0 acc :
  holds storagePrefix t0 acc -> a_scoped acc = [] -> truthy (a_unscoped acc) = true -> session_ok (session t0) ->
  exists b t1 z w, moves [Tabs AOpen; Tabs (ADeliver 0); Tabs (ADeliver 1)] (World n (quiet [t0]) [v0]) = Some (World n b [z; w]) /\
    tabs b = [t0; t1] /\ events b = [] /\ obj_lookup (clear_key storagePrefix) (local b) = None /\ timers w = armed n 1 None.
Proof.
  intros Hh Ha Hg Hs.
  assert (Hne : session t0 <> []).
  { intros E. pose proof (h_unscoped _ _ _ Hh) as H. unfold getItem in H. rewrite E in H. injection H as H. by rewrite <- H in Hg. }
  destruct (session_text_ok _ Hne Hs) as (c & x & Hx & Hp).
  set (t1 := {| session := session t0; authData := a_unscoped acc |}).
  assert (Ht1 : take_session storagePrefix (c :: x) new_tab = t1).
  { eapply take_session_auth; [exact Hx | exact Hp | exact Hs | | exact Hg]. exact (h_unscoped _ _ _ Hh). }
  assert (Hgs : streq (session_key storagePrefix) (get_key storagePrefix) = false).
  { apply streq_neq. intros E%key_inj. vm_compute in E. congruence. }
  set (v1 := with_page Login (with_listens Once empty_view)).
  set (w0 := notice_view n (quiet [t0]) (open_tab storagePrefix new_tab (quiet [t0])) 0 v0).
  set (b1 := Build_browser [t0; new_tab] [(get_key storagePrefix, u "true")]
               [Build_storage_event 0 (get_key storagePrefix) (Some (u "true"))] [(1%nat, [get_key storagePrefix])]).
  assert (H1 : move_step (Tabs AOpen) (World n (quiet [t0]) [v0]) = Some (World n b1 [w0; v1])) by done.
  set (b2 := Build_browser [t0; new_tab] (obj_set (session_key storagePrefix) (c :: x) [(get_key storagePrefix, u "true")])
               [Build_storage_event 1 (session_key storagePrefix) (Some (c :: x))]
               [(1%nat, [get_key storagePrefix]); (0%nat, [session_key storagePrefix; get_key storagePrefix])]).
  assert (S2 : step storagePrefix (ADeliver 0) b1 = Some b2).
  { unfold b1. cbn [step events take_event e_tab Nat.eqb]. unfold sessionStorageTransfer.
    cbn [e_tab e_value e_key tabs lookup list_lookup]. change (u "true") with (116 :: u "rue"). cbn iota.
    rewrite streq_refl, Hx. unfold local_set. cbn [local obj_lookup]. rewrite Hgs. by rewrite bool_decide_eq_false_2 by done. }
  set (b3 := Build_browser [t0; t1] (local b2) [] (pending b2)).
  assert (S3 : step storagePrefix (ADeliver 1) b2 = Some b3).
  { unfold b2. cbn [step events take_event e_tab Nat.eqb]. unfold sessionStorageTransfer.
    cbn [e_tab e_value e_key tabs lookup list_lookup]. rewrite Hgs, streq_refl. cbn [new_tab session andb].
    rewrite bool_decide_eq_true_2 by done. fold new_tab. by rewrite Ht1. }
  assert (Hr : remaining t1 n = Ok None).
  { unfold remaining, expires. assert (Hh1 : holds storagePrefix t1 acc) by (eapply holds_frame; [exact Hh | done]).
    rewrite (scoped_read_spec _ _ _ _ Hh1). unfold spec_read. by rewrite Ha. }
  set (w2 := on_authData n t1 v1).
  assert (Tm : timers w2 = armed n 1 None).
  { unfold w2, v1, on_authData. cbn [with_page with_listens listens]. rewrite (arm_timers _ _ _ _ Hr).
    unfold render. by destruct (authToken storagePrefix t1). }
  set (z0 := notice_view n b1 b2 0 w0). set (z1 := notice_view n b2 b3 0 z0).
  assert (Hch : authData_changed new_tab t1 = true) by (unfold authData_changed; cbn; by destruct (a_unscoped acc)).
  assert (H3 : moves [Tabs AOpen; Tabs (ADeliver 0); Tabs (ADeliver 1)] (World n (quiet [t0]) [v0]) = Some (World n b3 [z1; w2])).
  { cbn [moves]. rewrite H1. cbn [mbind option_bind move_step br]. rewrite S2. cbn [mbind option_bind br].
    rewrite S3. cbn [mbind option_bind now views]. rewrite !notice_two.
    replace (notice_view n b1 b2 1 v1) with v1 by done. do 3 f_equal.
    unfold notice_view. cbn [b2 b3 tabs lookup list_lookup]. by rewrite Hch. }
  exists b3, t1, z1, w2. repeat split; [exact H3| |exact Tm].
  cbn [b3 b2 local]. rewrite obj_lookup_set_ne by own_key. cbn [obj_lookup].
  by rewrite (proj2 (streq_neq _ _)) by own_key.
Qed.

(** C21.  Half a login ends the session.  While a user who has logged in in one
    tab has not chosen a tenant yet, a new tab takes over the session with the
    token of the login, which is announced as if it were that of a tenant.  The
    tab then reads the expiration of a token that is not there; both of its
    timers are due at once, and the second logs the user out, in both tabs. *)
Theorem half_login_ends_session n t0 v0 acc :
  holds storagePrefix t0 acc -> a_scoped acc = [] -> truthy (a_unscoped acc) = true -> session_ok (session t0) ->
  exists s' v1, moves [Tabs AOpen; Tabs (ADeliver 0); Tabs (ADeliver 1); Fire 1; Fire 1; Tabs (ADeliver 0)]
                  (World n (quiet [t0]) [v0]) = Some s' /\
    now s' = n /\ views s' !! 1%nat = Some v1 /\ errorView v1 = Some Expire /\
    length (tabs (br s')) = 2%nat /\ Forall (signed_out storagePrefix) (tabs (br s')).
Proof.
  intros Hh Ha Hg Hs. destruct (half_login_taken n t0 v0 acc Hh Ha Hg Hs) as (b3 & t1 & z1 & w2 & H3 & Hts & Hev & Hlc & Tm).
  destruct (fire_both (World n b3 [z1; w2]) 1 w2 t1 n 1 None) as (s4 & s5 & F1 & F2 & _ & N & _ & (v2 & V2 & E2) & B);
    [done | cbn [br]; by rewrite Hts | done | done | change (timer_delay None) with 0; cbn; lia |].
  cbn [br] in B.
  destruct (expire_reaches (World n b3 [z1; w2]) t0 t1) as (b & Hb & Htb); [exact Hts | exact Hev | exact Hlc |].
  cbn [br] in Hb. change (moves ?l ?s) with (moves ([Tabs AOpen; Tabs (ADeliver 0); Tabs (ADeliver 1)] ++ drop 3 l) s).
  rewrite moves_app, H3. cbn [drop mbind option_bind moves]. rewrite F1. cbn [mbind option_bind]. rewrite F2.
  cbn [mbind option_bind move_step]. rewrite B, Hb. cbn [mbind option_bind].
  eexists _, (notice_view (now s5) (br s5) b 1 v2). split; [done|]. cbn [now br views]. rewrite Htb. split; [done|].
  split; [rewrite B; unfold notice; by rewrite list_lookup_imap, V2|]. split; [by rewrite notice_view_error|]. split; [done|].
  repeat (apply Forall_cons_2; [apply signed_out_unset|]). apply Forall_nil_2.
Qed.
End App.

(** ** Examples *)

Definition demo_token (id expires : string) : value :=
  VObj [(u "access", VObj [(u "token", VObj [(u "id", VStr (u id)); (u "expires", VStr (u expires))]);
                           (u "user", VObj [(u "name", VStr (u "ann"))])])].

(** A user logs in in tab [i] and chooses a tenant. *)
Definition demo_login (i : nat) (expires : string) : list move :=
  [Answer i (LoginAnswer (demo_token "login" expires));
   Answer i (TenantsAnswer (VObj [(u "tenants", VArr [VObj [(u "name", VStr (u "red"))]])]));
   Answer i (SelectTenant (VStr (u "red")))].

(** An hour before [2014-01-31T15:30:58Z]. *)
Definition demo_now : Z := 1391182258000 - 3600000.

Definition after (l : list move) : world := default (start 0) (moves (u "g_") None l (start demo_now)).

Lemma after_reachable l : moves (u "g_") None l (start demo_now) <> None -> reachable (u "g_") None (after l).
Proof. intros H. exists demo_now, l. unfold after. by destruct (moves _ _ l _). Qed.

Definition demo_tab (n : nat) (s : world) : tab := default new_tab (tabs (br s) !! n).
Definition demo_view (n : nat) (s : world) : view := default empty_view (views s !! n).

(** A tab in which a tenant is chosen and its token is awaited. *)
Definition chosen : world := after ([Tabs AOpen; Tabs (ATimer 0)] ++ demo_login 0 "2014-01-31T15:30:58Z").
Definition token_answer (expires : string) : answer := TokenAnswer (demo_token "scoped" expires).

Definition signed_in : world :=
  after ([Tabs AOpen; Tabs (ATimer 0)] ++ demo_login 0 "2014-01-31T15:30:58Z" ++ [Answer 0 (token_answer "2014-01-31T15:30:58Z")]).

Lemma timers_invariant_witness :
  length (timers (demo_view 0 signed_in)) = 2%nat /\
  forall t, t ∈ timers (demo_view 0 signed_in) -> t_call t = Expire -> kept Expire (demo_view 0 signed_in) = Some (t_id t).
Proof.
  split; [vm_compute; reflexivity|].
  apply (timers_invariant (u "g_") None signed_in 0 (demo_view 0 signed_in)); [|vm_compute; reflexivity].
  apply after_reachable. vm_compute. discriminate.
Defined.

Lemma expiry_schedule_witness :
  exists s1 v2, moves (u "g_") None [Answer 0 (token_answer "2014-01-31T15:30:58Z"); Wait 3400000] chosen = Some s1 /\
    views (fire_all (u "g_") None 3 0 s1) !! 0%nat = Some v2 /\ errorView v2 = Some Extend.
Proof.
  destruct (expiry_schedule (u "g_") None chosen 0 (demo_tab 0 chosen) (demo_view 0 chosen) (token_answer "2014-01-31T15:30:58Z")
              (default new_tab (match answer_step (u "g_") (token_answer "2014-01-31T15:30:58Z") (demo_tab 0 chosen) with Ok t => Some t | Err _ => None end))
              3600000 3400000) as (s1 & v2 & H1 & _ & H2 & H3 & _);
    [apply after_reachable; vm_compute; discriminate | vm_compute; reflexivity | vm_compute; reflexivity
    | vm_compute; discriminate | vm_compute; reflexivity | vm_compute; reflexivity | vm_compute; reflexivity
    | vm_compute; split; congruence | vm_compute; (split; congruence) || congruence | vm_compute; congruence |].
  exists s1, v2. split; [exact H1|]. split; [exact H2 | exact H3].
Defined.

Lemma long_token_ends_at_once_witness :
  exists s' v', moves (u "g_") None [Answer 0 (token_answer "2014-03-02T15:30:58Z"); Fire 0; Fire 0] chosen = Some s' /\
    now s' = demo_now /\ views s' !! 0%nat = Some v' /\ errorView v' = Some Expire.
Proof.
  destruct (long_token_ends_at_once (u "g_") None chosen 0 (demo_tab 0 chosen) (demo_view 0 chosen) (token_answer "2014-03-02T15:30:58Z")
              (default new_tab (match answer_step (u "g_") (token_answer "2014-03-02T15:30:58Z") (demo_tab 0 chosen) with Ok t => Some t | Err _ => None end))
              (3600000 + 30 * 86400000)) as (s' & v' & H1 & H2 & H3 & H4 & _);
    [apply after_reachable; vm_compute; discriminate | vm_compute; reflexivity | vm_compute; reflexivity
    | vm_compute; discriminate | vm_compute; reflexivity | vm_compute; reflexivity | vm_compute; reflexivity
    | vm_compute; split; congruence | vm_compute; congruence |].
  exists s', v'. split; [exact H1|]. split; [exact H2|]. split; [exact H3 | exact H4].
Defined.

(** Two tabs share a session until 15:30:58; in the first the user logs out and
    in again, for a session until 18:30:58.  Each tab handles its events. *)
Definition two_tabs : list move :=
  [Tabs AOpen; Tabs (ATimer 0)] ++ demo_login 0 "2014-01-31T15:30:58Z" ++ [Answer 0 (token_answer "2014-01-31T15:30:58Z")]
  ++ [Tabs AOpen; Tabs (ADeliver 0); Tabs (ADeliver 1); Tabs (ATimer 0); Tabs (ADeliver 0); Tabs (ATimer 0); Tabs (ADeliver 1)].

Definition log_out_and_in : list move :=
  [Tabs (ALogout 0); Reload 0; Tabs (ADeliver 1); Tabs (ADeliver 1); Tabs (ATimer 0); Tabs (ADeliver 1);
   Tabs (ATimer 0); Tabs (ADeliver 0); Tabs (ATimer 0); Tabs (ADeliver 0); Tabs (ADeliver 0)]
  ++ demo_login 0 "2014-01-31T18:30:58Z" ++ [Answer 0 (token_answer "2014-01-31T18:30:58Z"); Wait 3300000; Fire 1].

Definition stale_world : world := after (two_tabs ++ log_out_and_in).

Definition stale_timer : timer := default (Timer 0 0 Extend) (first_due (demo_now + 3600000) (timers (demo_view 1 stale_world))).

Lemma stale_timer_ends_session_witness :
  reachable (u "g_") None stale_world /\
  exists s' left, moves (u "g_") None [Wait 300000; Fire 1; Tabs (ADeliver 0)] stale_world = Some s' /\
    remaining (u "g_") (demo_tab 0 stale_world) (now s') = Ok (Some left) /\ 0 < left /\
    Forall (signed_out (u "g_")) (tabs (br s')).
Proof.
  split; [apply after_reachable; vm_compute; discriminate|].
  destruct (stale_timer_ends_session (u "g_") None stale_world (demo_tab 0 stale_world) (demo_tab 1 stale_world)
              (demo_view 1 stale_world) stale_timer 11100000) as (s' & left & H1 & _ & H2 & H3 & _ & H4);
    [vm_compute; reflexivity | vm_compute; reflexivity | vm_compute; reflexivity | vm_compute; reflexivity
    | vm_compute; reflexivity | vm_compute; reflexivity | vm_compute; congruence | vm_compute; reflexivity
    | vm_compute; reflexivity |].
  exists s', left. split; [exact H1|]. split; [exact H2|]. split; [exact H3 | exact H4].
Defined.

(** A tab in which a user has logged in and not chosen a tenant. *)
Definition half_tab : tab :=
  default new_tab (match saveUnscopedToken (u "g_") (demo_token "login" "2014-01-31T15:30:58Z") new_tab with Ok t => Some t | Err _ => None end).

Lemma half_tab_ok : session_ok (session half_tab).
Proof. split; [vm_compute; reflexivity | repeat (apply Forall_cons_2; [split; by apply units_ok|]); apply Forall_nil_2]. Qed.

Lemma half_login_ends_session_witness :
  exists s' v1, moves (u "g_") None [Tabs AOpen; Tabs (ADeliver 0); Tabs (ADeliver 1); Fire 1; Fire 1; Tabs (ADeliver 0)]
                  (World demo_now (quiet [half_tab]) [with_listens Once empty_view]) = Some s' /\
    now s' = demo_now /\ views s' !! 1%nat = Some v1 /\ errorView v1 = Some Expire /\
    Forall (signed_out (u "g_")) (tabs (br s')).
Proof.
  destruct (half_login_ends_session (u "g_") None demo_now half_tab (with_listens Once empty_view)
              (Build_account (demo_token "login" "2014-01-31T15:30:58Z") VUndef None [])) as (s' & v1 & H1 & H2 & H3 & H4 & _ & H5).
  - split; [vm_compute; reflexivity | vm_compute; reflexivity | vm_compute; reflexivity | vm_compute; reflexivity
           | split; [apply NoDup_nil_2 | apply Forall_nil_2] | exact I].
  - reflexivity.
  - reflexivity.
  - exact half_tab_ok.
  - exists s', v1. split; [exact H1|]. split; [exact H2|]. split; [exact H3|]. split; [exact H4 | exact H5].
Defined.
