(* ===== verification/Buffers.v ===== *)
(** The Buffer of the browser (module 143): objects that see a part of the
    memory of an ArrayBuffer, which slices share.  Creation, copies, slices,
    comparison, concatenation, filling and searching, over a store of memories.
    The implementation over typed arrays is modelled
    ([Buffer.TYPED_ARRAY_SUPPORT]), which the browsers of the client use. *)

From Stdlib Require Import ZArith Lia List Bool.
From stdpp Require Import base list list_numbers tactics.
From S2P Require Import Prelude Int32.

(** ** Memory *)

(** A Buffer: the identity of the object, its ArrayBuffer, where it begins
    there, and its length. *)
Record buffer := Buf { b_id : Z; b_mem : nat; b_off : Z; b_len : Z }.

(** The contents of the ArrayBuffers, and the next identity. *)
Record store := Store { mems : list (list Z); next_id : Z }.

Definition memory (m : nat) (st : store) : list Z := default [] (mems st !! m).

(** [b[i]]; [None] is [undefined]. *)
Definition get (st : store) (b : buffer) (i : Z) : option Z :=
  if (0 <=? i) && (i <? b_len b) then zget (memory (b_mem b) st) (b_off b + i) else None.

(** [b[i] = x]: the value is converted to eight bits; outside nothing happens. *)
Definition put (b : buffer) (i x : Z) (st : store) : store :=
  if (0 <=? i) && (i <? b_len b)
  then Store (alter (<[Z.to_nat (b_off b + i) := x mod 256]>) (b_mem b) (mems st)) (next_id st)
  else st.

(** [b[i] = undefined] writes a zero. *)
Definition put_opt (b : buffer) (i : Z) (x : option Z) : store -> store := put b i (default 0 x).

(** The bytes of a buffer. *)
Definition contents (st : store) (b : buffer) : list Z := zslice (b_off b) (b_off b + b_len b) (memory (b_mem b) st).

(** [for (i = a; i < a + n; ++i) f(i)], and downwards. *)
Fixpoint loop_up {A} (n : nat) (a : Z) (f : Z -> A -> A) (x : A) : A :=
  match n with O => x | S n => loop_up n (a + 1) f (f a x) end.
Fixpoint loop_down {A} (n : nat) (f : Z -> A -> A) (x : A) : A :=
  match n with O => x | S n => loop_down n f (f (Z.of_nat n) x) end.

(** ** Creation *)

Definition kMaxLength : Z := 2147483647.

(** [createBuffer]: a new object over a new ArrayBuffer of zeros. *)
Definition createBuffer (length : Z) (st : store) : res (buffer * store) :=
  if (kMaxLength <? length) || (length <? 0) then Err RangeError
  else Ok (Buf (next_id st) (List.length (mems st)) 0 length,
           Store (mems st ++ [repeat 0 (Z.to_nat length)]) (next_id st + 1)).

Definition checked (length : Z) : res Z :=
  if kMaxLength <=? length then Err RangeError else Ok (to_int32 length).

Definition assertSize (size : Z) : res unit := if size <? 0 then Err RangeError else Ok tt.

Definition allocUnsafe (size : Z) (st : store) : res (buffer * store) :=
  _ <-? assertSize size;
  n <-? (if size <? 0 then Ok 0 else checked size);
  createBuffer n st.

(** [fromArrayLike]: the elements are numbers. *)
Definition fromArrayLike (array : list Z) (st : store) : res (buffer * store) :=
  length <-? checked (zlen array);
  ' (that, st) <-? createBuffer length st;
  Ok (that, loop_up (Z.to_nat length) 0 (fun i => put that i (band (default 0 (zget array i)) 255)) st).

(** ** Copies and slices *)

(** [Buffer.prototype.copy] from [this] to [target]; [None] is [undefined]. *)
Definition copy (this target : buffer) (targetStart start end_ : option Z) (st : store) : res (Z * store) :=
  let start := default 0 start in
  let end_ := default (b_len this) end_ in
  let targetStart := default 0 targetStart in
  let targetStart := if b_len target <=? targetStart then b_len target else targetStart in
  let end_ := if (0 <? end_) && (end_ <? start) then start else end_ in
  if end_ =? start then Ok (0, st)
  else if (b_len target =? 0) || (b_len this =? 0) then Ok (0, st)
  else if targetStart <? 0 then Err RangeError
  else if (start <? 0) || (b_len this <=? start) then Err RangeError
  else if end_ <? 0 then Err RangeError
  else
    let end_ := if b_len this <? end_ then b_len this else end_ in
    let end_ := if b_len target - targetStart <? end_ - start then b_len target - targetStart + start else end_ in
    let len := end_ - start in
    let move i st := put_opt target (i + targetStart) (get st this (i + start)) st in
    Ok (len,
        if (b_id this =? b_id target) && (start <? targetStart) && (targetStart <? end_) then
          loop_down (Z.to_nat len) move st
        else if len <? 1000 then loop_up (Z.to_nat len) 0 move st
        else
          (* Uint8Array.prototype.set: the source is read before it is written *)
          loop_up (Z.to_nat len) 0 (fun i st' => put_opt target (i + targetStart) (get st this (i + start)) st') st).

(** [fromObject] of a Buffer. *)
Definition fromBuffer (obj : buffer) (st : store) : res (buffer * store) :=
  len <-? checked (b_len obj);
  ' (that, st) <-? createBuffer len st;
  if b_len that =? 0 then Ok (that, st)
  else ' (_, st) <-? copy obj that (Some 0) (Some 0) (Some len) st; Ok (that, st).

(** [Buffer.prototype.slice]: a new object over the same memory. *)
Definition clamp_index (len i : Z) : Z :=
  let i := to_int32 i in
  if i <? 0 then (if i + len <? 0 then 0 else i + len) else if len <? i then len else i.

Definition slice (this : buffer) (start : Z) (end_ : option Z) (st : store) : buffer * store :=
  let len := b_len this in
  let start := clamp_index len start in
  let end_ := match end_ with None => len | Some e => clamp_index len e end in
  let end_ := if end_ <? start then start else end_ in
  (Buf (next_id st) (b_mem this) (b_off this + start) (end_ - start), Store (mems st) (next_id st + 1)).

(** [Buffer.concat]; without a length it is the sum of the lengths. *)
Fixpoint concat_loop (list : list buffer) (buffer : buffer) (pos : Z) (st : store) : res store :=
  match list with
  | [] => Ok st
  | buf :: list =>
      ' (_, st) <-? copy buf buffer (Some pos) None None st;
      concat_loop list buffer (pos + b_len buf) st
  end.

Definition concat (list : list buffer) (length : option Z) (st : store) : res (buffer * store) :=
  match list with
  | [] => createBuffer 0 st
  | _ =>
      let length := match length with Some n => n | None => foldr (fun b n => b_len b + n) 0 list end in
      ' (buffer, st) <-? allocUnsafe length st;
      st <-? concat_loop list buffer 0 st;
      Ok (buffer, st)
  end.

(** ** Comparison *)

(** The first position where the two differ, and what is there. *)
Fixpoint first_difference (n : nat) (i : Z) (st : store) (a b : buffer) : option (option Z * option Z) :=
  match n with
  | O => None
  | S n =>
      if bool_decide (get st a i = get st b i) then first_difference n (i + 1) st a b
      else Some (get st a i, get st b i)
  end.

(** [x < y ? -1 : y < x ? 1 : 0] of numbers; [undefined] is not less. *)
Definition three_way (x y : option Z) : Z :=
  match x, y with
  | Some x, Some y => if x <? y then -1 else if y <? x then 1 else 0
  | _, _ => 0
  end.

Definition compare (a b : buffer) (st : store) : Z :=
  if b_id a =? b_id b then 0
  else
    let len := Z.min (b_len a) (b_len b) in
    match first_difference (Z.to_nat len) 0 st a b with
    | Some (x, y) => three_way x y
    | None => three_way (Some (b_len a)) (Some (b_len b))
    end.

Definition equals (this b : buffer) (st : store) : bool :=
  if b_id this =? b_id b then true else compare this b st =? 0.

(** [Buffer.prototype.compare] of ranges. *)
Definition compare_ranges (this target : buffer) (start end_ thisStart thisEnd : option Z) (st : store) : res Z :=
  let start := default 0 start in
  let end_ := default (b_len target) end_ in
  let thisStart := default 0 thisStart in
  let thisEnd := default (b_len this) thisEnd in
  if (start <? 0) || (b_len target <? end_) || (thisStart <? 0) || (b_len this <? thisEnd) then Err RangeError
  else if (thisEnd <=? thisStart) && (end_ <=? start) then Ok 0
  else if thisEnd <=? thisStart then Ok (-1)
  else if end_ <=? start then Ok 1
  else
    let start := to_uint32 start in let end_ := to_uint32 end_ in
    let thisStart := to_uint32 thisStart in let thisEnd := to_uint32 thisEnd in
    if b_id this =? b_id target then Ok 0
    else
      let x := thisEnd - thisStart in
      let y := end_ - start in
      let '(thisCopy, st) := slice this thisStart (Some thisEnd) st in
      let '(targetCopy, st) := slice target start (Some end_) st in
      Ok match first_difference (Z.to_nat (Z.min x y)) 0 st thisCopy targetCopy with
         | Some (x, y) => three_way x y
         | None => three_way (Some x) (Some y)
         end.

(** ** Filling *)

(** What [fill] is given: a number, a Buffer, or the bytes of a string. *)
Inductive fill_value := FillNumber (n : Z) | FillBuffer (b : buffer) | FillBytes (l : list Z).

Definition fill (this : buffer) (val : fill_value) (start end_ : option Z) (st : store) : res store :=
  let below a x := match x with Some x => a <? x | None => false end in
  if match start with Some s => s <? 0 | None => false end || below (b_len this) start || below (b_len this) end_ then Err RangeError
  else if match start, end_ with Some s, Some e => e <=? s | _, _ => false end then Ok st
  else
    let start := to_uint32 (default 0 start) in
    let end_ := match end_ with None => b_len this | Some e => to_uint32 e end in
    let n := Z.to_nat (end_ - start) in
    Ok match val with
       | FillNumber v => loop_up n start (fun i => put this i (band v 255)) st
       | FillBuffer b => loop_up n 0 (fun i st => put_opt this (i + start) (if b_len b =? 0 then None else get st b (i mod b_len b)) st) st
       | FillBytes l => loop_up n 0 (fun i => put_opt this (i + start) (if zlen l =? 0 then None else zget l (i mod zlen l))) st
       end.

(** [Buffer.alloc(size, fill)]. *)
Definition alloc (size : Z) (val : option fill_value) (st : store) : res (buffer * store) :=
  _ <-? assertSize size;
  ' (b, st) <-? createBuffer size st;
  match val with
  | Some v => if size <=? 0 then Ok (b, st) else st <-? fill b v None None st; Ok (b, st)
  | None => Ok (b, st)
  end.

(** ** Searching

    [arrayIndexOf] without a two-byte encoding. *)

Fixpoint search_up (fuel : nat) (arr : Z -> option Z) (arrLength : Z) (val : Z -> option Z) (valLength i foundIndex : Z) : res Z :=
  match fuel with
  | O => Err OutOfFuel
  | S fuel =>
      if i <? arrLength then
        if bool_decide (arr i = val (if foundIndex =? -1 then 0 else i - foundIndex)) then
          let foundIndex := if foundIndex =? -1 then i else foundIndex in
          if i - foundIndex + 1 =? valLength then Ok foundIndex
          else search_up fuel arr arrLength val valLength (i + 1) foundIndex
        else
          let i := if foundIndex =? -1 then i else i - (i - foundIndex) in
          search_up fuel arr arrLength val valLength (i + 1) (-1)
      else Ok (-1)
  end.

(** [for (j = 0; j < valLength; j++)]: everything equal. *)
Fixpoint matches_at (n : nat) (j : Z) (arr val : Z -> option Z) (i : Z) : bool :=
  match n with
  | O => true
  | S n => if bool_decide (arr (i + j) = val j) then matches_at n (j + 1) arr val i else false
  end.

(** [for (i = byteOffset; i >= 0; i--)], [n] being [byteOffset + 1]. *)
Fixpoint search_down (n : nat) (arr val : Z -> option Z) (valLength : Z) : Z :=
  match n with
  | O => -1
  | S n => if matches_at (Z.to_nat valLength) 0 arr val (Z.of_nat n) then Z.of_nat n else search_down n arr val valLength
  end.

Definition arrayIndexOf (arr : Z -> option Z) (arrLength : Z) (val : Z -> option Z) (valLength byteOffset : Z) (dir : bool) : res Z :=
  if dir then search_up (Z.to_nat ((arrLength - byteOffset) * valLength + 1)) arr arrLength val valLength byteOffset (-1)
  else
    let byteOffset := if arrLength <? byteOffset + valLength then arrLength - valLength else byteOffset in
    Ok (search_down (Z.to_nat (byteOffset + 1)) arr val valLength).

(** The value that is searched: a number or a Buffer. *)
Inductive needle := NeedleNumber (n : Z) | NeedleBuffer (b : buffer).

(** [bidirectionalIndexOf]; a number is searched as the one byte it is, which
    is also what [Uint8Array.prototype.indexOf] and [lastIndexOf] do. *)
Definition bidirectionalIndexOf (buffer_ : buffer) (val : needle) (byteOffset : option Z) (dir : bool) (st : store) : res Z :=
  let len := b_len buffer_ in
  if len =? 0 then Ok (-1)
  else
    let byteOffset := match byteOffset with
                      | Some o => if 2147483647 <? o then 2147483647 else if o <? -2147483648 then -2147483648 else o
                      | None => if dir then 0 else len - 1
                      end in
    let byteOffset := if byteOffset <? 0 then len + byteOffset else byteOffset in
    if (len <=? byteOffset) && dir then Ok (-1)
    else if (byteOffset <? 0) && negb dir then Ok (-1)
    else
      let byteOffset := if len <=? byteOffset then len - 1 else if byteOffset <? 0 then 0 else byteOffset in
      match val with
      | NeedleBuffer v =>
          if b_len v =? 0 then Ok (-1)
          else arrayIndexOf (get st buffer_) len (get st v) (b_len v) byteOffset dir
      | NeedleNumber n =>
          arrayIndexOf (get st buffer_) len (fun j => if j =? 0 then Some (band n 255) else None) 1 byteOffset dir
      end.

Definition indexOf (this : buffer) (val : needle) (byteOffset : option Z) : store -> res Z := bidirectionalIndexOf this val byteOffset true.
Definition lastIndexOf (this : buffer) (val : needle) (byteOffset : option Z) : store -> res Z := bidirectionalIndexOf this val byteOffset false.
Definition includes (this : buffer) (val : needle) (byteOffset : option Z) (st : store) : res bool :=
  i <-? indexOf this val byteOffset st; Ok (negb (i =? -1)).

(** ** Swapping bytes *)

Definition swap (b : buffer) (n m : Z) (st : store) : store :=
  let i := get st b n in put_opt b m i (put_opt b n (get st b m) st).

Definition swaps (b : buffer) (l : list (Z * Z)) (i : Z) (st : store) : store :=
  fold_left (fun st nm => swap b (i + nm.1) (i + nm.2) st) l st.

Definition swap_groups (b : buffer) (w : Z) (l : list (Z * Z)) (st : store) : res store :=
  if b_len b mod w =? 0 then Ok (loop_up (Z.to_nat (b_len b / w)) 0 (fun g => swaps b l (g * w)) st) else Err RangeError.

Definition swap16 (b : buffer) : store -> res store := swap_groups b 2 [(0, 1)].
Definition swap32 (b : buffer) : store -> res store := swap_groups b 4 [(0, 3); (1, 2)].
Definition swap64 (b : buffer) : store -> res store := swap_groups b 8 [(0, 7); (1, 6); (2, 5); (3, 4)].

(** * Properties *)

(** ** Cells of the memory *)

(** The byte at position [p] of ArrayBuffer [m]. *)
Definition cell (st : store) (m : nat) (p : Z) : option Z := zget (memory m st) p.

(** A buffer lies inside its ArrayBuffer. *)
Record inside (st : store) (b : buffer) : Prop := {
  in_mem : (b_mem b < length (mems st))%nat;
  in_off : 0 <= b_off b;
  in_len : 0 <= b_len b;
  in_end : b_off b + b_len b <= zlen (memory (b_mem b) st)
}.

(** All cells hold bytes. *)
Definition byte_store (st : store) : Prop := Forall (Forall is_byte) (mems st).

(** The two stores have the same ArrayBuffers, of the same sizes. *)
Definition same_shape (st st' : store) : Prop := map (@length Z) (mems st') = map (@length Z) (mems st) /\ next_id st' = next_id st.

Lemma get_cell st b i : 0 <= i < b_len b -> get st b i = cell st (b_mem b) (b_off b + i).
Proof. intros Hi. unfold get. by rewrite (proj2 (andb_true_iff _ _)) by (rewrite Z.leb_le, Z.ltb_lt; lia). Qed.

Lemma get_outside st b i : ~ (0 <= i < b_len b) -> get st b i = None.
Proof.
  intros Hi. unfold get. destruct (0 <=? i) eqn:E1; [|done]. destruct (i <? b_len b) eqn:E2; [|done]. breflect. lia.
Qed.

Lemma memory_alter f m m' st n :
  memory m' (Store (alter f m (mems st)) n)
  = if decide (m = m') then (if decide (m < length (mems st))%nat then f (memory m st) else memory m st) else memory m' st.
Proof.
  unfold memory. cbn [mems]. destruct (decide (m = m')) as [<-|Hne]; [|by rewrite list_lookup_alter_ne].
  rewrite list_lookup_alter_eq. destruct (decide _) as [Hl|Hl].
  - apply lookup_lt_is_Some_2 in Hl as [l ->]. done.
  - by rewrite lookup_ge_None_2 by lia.
Qed.

Lemma zget_insert (l : list Z) a x p :
  0 <= a < zlen l -> zget (<[Z.to_nat a := x]> l) p = if decide (p = a) then Some x else zget l p.
Proof.
  unfold zget, zlen. intros Ha. destruct (decide (p = a)) as [->|Hne].
  - rewrite (proj2 (Z.ltb_ge _ _)) by lia. apply list_lookup_insert_eq. lia.
  - destruct (Z.ltb_spec p 0); [done|]. apply list_lookup_insert_ne. lia.
Qed.

(** A write changes one cell. *)
Lemma cell_put st b i x m p :
  inside st b ->
  cell (put b i x st) m p
  = if decide ((0 <= i < b_len b) /\ m = b_mem b /\ p = b_off b + i) then Some (x mod 256) else cell st m p.
Proof.
  intros [H1 H2 H3 H4]. unfold put, cell. destruct (Z.leb_spec 0 i), (Z.ltb_spec i (b_len b)); cbn [andb];
    try (rewrite decide_False by lia; done).
  rewrite memory_alter. destruct (decide (b_mem b = m)) as [<-|Hne]; [|by rewrite decide_False by naive_solver].
  rewrite decide_True by done. rewrite zget_insert by lia.
  destruct (decide (p = b_off b + i)) as [->|Hp]; [by rewrite decide_True | by rewrite decide_False by naive_solver].
Qed.

Lemma same_shape_refl st : same_shape st st.
Proof. done. Qed.

Lemma same_shape_trans st1 st2 st3 : same_shape st1 st2 -> same_shape st2 st3 -> same_shape st1 st3.
Proof. intros [H1 H2] [H3 H4]. split; congruence. Qed.

Lemma put_shape b i x st : same_shape st (put b i x st).
Proof.
  unfold put. destruct (_ && _); [|done]. split; [|done]. cbn [mems].
  apply list_eq. intros j. rewrite !list_lookup_fmap. destruct (decide (b_mem b = j)) as [<-|Hne].
  - rewrite list_lookup_alter_eq. destruct (mems st !! b_mem b); cbn; [|done]. by rewrite length_insert.
  - by rewrite list_lookup_alter_ne.
Qed.

Lemma shape_memory st st' m : same_shape st st' -> zlen (memory m st') = zlen (memory m st).
Proof.
  intros [H _]. apply (f_equal (fun l => l !! m)) in H. rewrite !list_lookup_fmap in H. unfold memory, zlen.
  destruct (mems st' !! m), (mems st !! m); cbn in *; congruence.
Qed.

Lemma shape_inside st st' b : same_shape st st' -> inside st b -> inside st' b.
Proof.
  intros Hs [H1 H2 H3 H4]. split; try done; [|by rewrite (shape_memory _ _ _ Hs)].
  destruct Hs as [Hs _]. apply (f_equal length) in Hs. rewrite !length_map in Hs. lia.
Qed.

Lemma is_byte_mod x : is_byte (x mod 256).
Proof. apply Z.mod_pos_bound. lia. Qed.

Lemma put_bytes b i x st : byte_store st -> byte_store (put b i x st).
Proof.
  unfold put, byte_store. intros H. destruct (_ && _); [|done]. cbn [mems].
  apply Forall_alter; [done|]. intros l _ Hl. apply Forall_insert; [done | apply is_byte_mod].
Qed.

Lemma cell_byte st m p x : byte_store st -> cell st m p = Some x -> is_byte x.
Proof.
  unfold byte_store, cell, memory. intros H Hx%zget_elem. destruct (mems st !! m) as [l|] eqn:E; cbn in Hx; [|by apply not_elem_of_nil in Hx].
  apply list_elem_of_lookup_2 in E. rewrite list.Forall_forall in H. specialize (H _ E). rewrite list.Forall_forall in H. by apply H.
Qed.

Lemma cell_inside st b i : inside st b -> 0 <= i < b_len b -> exists x, cell st (b_mem b) (b_off b + i) = Some x.
Proof. intros [H1 H2 H3 H4] Hi. apply zget_lt. lia. Qed.

(** Writing a byte that is there. *)
Lemma put_opt_cell st b i m q m' p :
  byte_store st -> inside st b -> (exists y, cell st m q = Some y) ->
  cell (put_opt b i (cell st m q) st) m' p
  = if decide ((0 <= i < b_len b) /\ m' = b_mem b /\ p = b_off b + i) then cell st m q else cell st m' p.
Proof.
  intros Hb Hi (y & Hy). unfold put_opt. rewrite cell_put by done. rewrite Hy. cbn [default]. unfold id.
  apply cell_byte in Hy; [|done]. by rewrite Z.mod_small by (unfold is_byte in Hy; lia).
Qed.

(** Loops keep what each step keeps. *)
Lemma loop_up_ind {A} (P : A -> Prop) (f : Z -> A -> A) : (forall i x, P x -> P (f i x)) -> forall n a x, P x -> P (loop_up n a f x).
Proof. intros Hf. induction n as [|n IH]; intros a x Hx; cbn; [done|]. by apply IH, Hf. Qed.

Lemma loop_down_ind {A} (P : A -> Prop) (f : Z -> A -> A) : (forall i x, P x -> P (f i x)) -> forall n x, P x -> P (loop_down n f x).
Proof. intros Hf. induction n as [|n IH]; intros x Hx; cbn; [done|]. by apply IH, Hf. Qed.

Lemma loop_up_snoc {A} (f : Z -> A -> A) n : forall a x, loop_up (S n) a f x = f (a + Z.of_nat n) (loop_up n a f x).
Proof.
  induction n as [|n IH]; intros a x; [cbn; by rewrite Z.add_0_r|].
  change (loop_up (S (S n)) a f x) with (loop_up (S n) (a + 1) f (f a x)). rewrite IH. cbn [loop_up]. f_equal. lia.
Qed.

(** A buffer that the operations may be given: in the store, and byte cells. *)
Definition stable (st st' : store) : Prop := same_shape st st' /\ (byte_store st -> byte_store st').

Lemma stable_refl st : stable st st.
Proof. done. Qed.

Lemma stable_trans st1 st2 st3 : stable st1 st2 -> stable st2 st3 -> stable st1 st3.
Proof. intros [H1 H2] [H3 H4]. split; [by eapply same_shape_trans | auto]. Qed.

Lemma put_stable b i x st : stable st (put b i x st).
Proof. split; [apply put_shape | apply put_bytes]. Qed.

Lemma loop_up_stable f n a st : (forall i x, stable x (f i x)) -> stable st (loop_up n a f st).
Proof. intros Hf. apply (loop_up_ind (stable st)); [|done]. intros i x Hx. eapply stable_trans; [exact Hx | apply Hf]. Qed.

Lemma loop_down_stable f n st : (forall i x, stable x (f i x)) -> stable st (loop_down n f st).
Proof. intros Hf. apply (loop_down_ind (stable st)); [|done]. intros i x Hx. eapply stable_trans; [exact Hx | apply Hf]. Qed.

(** ** Moving bytes *)

Section Move.
Context (src tgt : buffer) (s ts : Z).

(** One step of the loops of [copy]. *)
Definition move (i : Z) (st : store) : store := put_opt tgt (i + ts) (get st src (i + s)) st.

(** The positions of the two ranges in their memories. *)
Definition from_pos : Z := b_off src + s.
Definition to_pos : Z := b_off tgt + ts.

(** Step [i] is within both buffers. *)
Definition in_range (i : Z) : Prop := 0 <= i + s < b_len src /\ 0 <= i + ts < b_len tgt.

(** The cell that step [i] reads is not one that step [j] writes. *)
Definition apart (i j : Z) : Prop := b_mem src <> b_mem tgt \/ from_pos + i <> to_pos + j.

(** The memory after the bytes [a] to [b] are moved. *)
Definition moved (a b : Z) (st st' : store) : Prop :=
  forall m p, cell st' m p = if decide (m = b_mem tgt /\ to_pos + a <= p < to_pos + b)
                             then cell st (b_mem src) (p - to_pos + from_pos) else cell st m p.

Lemma move_cell st i m p :
  byte_store st -> inside st src -> inside st tgt -> in_range i ->
  cell (move i st) m p
  = if decide (m = b_mem tgt /\ p = to_pos + i) then cell st (b_mem src) (from_pos + i) else cell st m p.
Proof.
  intros Hb Hs Ht [H1 H2]. unfold move. rewrite get_cell by done.
  rewrite put_opt_cell by (done || by apply cell_inside). unfold to_pos, from_pos.
  replace (b_off src + (i + s)) with (b_off src + s + i) by lia.
  repeat case_decide; naive_solver lia.
Qed.

Lemma move_stable i st : stable st (move i st).
Proof. apply put_stable. Qed.

Lemma move_up n : forall a st,
  byte_store st -> inside st src -> inside st tgt -> (forall i, a <= i < a + Z.of_nat n -> in_range i) ->
  (forall i j, a <= j < i -> i < a + Z.of_nat n -> apart i j) ->
  moved a (a + Z.of_nat n) st (loop_up n a move st).
Proof.
  induction n as [|n IH]; intros a st Hb Hs Ht Hr Ha m p; cbn [loop_up].
  - by rewrite decide_False by lia.
  - destruct (move_stable a st) as [Hsh Hby]. assert (Hra : in_range a) by (apply Hr; lia).
    rewrite IH; [|by apply Hby|by eapply shape_inside|by eapply shape_inside|intros i Hi; apply Hr; lia|intros i j Hi Hj; apply Ha; lia].
    rewrite !move_cell by done. unfold moved.
    destruct (decide (m = b_mem tgt /\ to_pos + (a + 1) <= p < to_pos + (a + 1 + Z.of_nat n))) as [[-> Hp]|Hn].
    + rewrite (decide_True (P := b_mem tgt = b_mem tgt /\ _)) by lia. rewrite decide_False; [done|].
      intros [He Hq]. destruct (Ha (p - to_pos) a ltac:(lia) ltac:(lia)) as [|Hc]; [done | lia].
    + destruct (decide (m = b_mem tgt /\ p = to_pos + a)) as [[-> ->]|Hn2].
      * rewrite decide_True by lia. f_equal. lia.
      * rewrite decide_False; [done|]. intros [-> Hp]. apply Hn. split; [done|]. destruct (decide (p = to_pos + a)); [naive_solver | lia].
Qed.

Lemma move_down n : forall st,
  byte_store st -> inside st src -> inside st tgt -> (forall i, 0 <= i < Z.of_nat n -> in_range i) ->
  (forall i j, 0 <= i < j -> j < Z.of_nat n -> apart i j) ->
  moved 0 (Z.of_nat n) st (loop_down n move st).
Proof.
  induction n as [|n IH]; intros st Hb Hs Ht Hr Ha m p; cbn [loop_down].
  - by rewrite decide_False by lia.
  - destruct (move_stable (Z.of_nat n) st) as [Hsh Hby]. assert (Hra : in_range (Z.of_nat n)) by (apply Hr; lia).
    rewrite IH; [|by apply Hby|by eapply shape_inside|by eapply shape_inside|intros i Hi; apply Hr; lia|intros i j Hi Hj; apply Ha; lia].
    rewrite !move_cell by done.
    destruct (decide (m = b_mem tgt /\ to_pos + 0 <= p < to_pos + Z.of_nat n)) as [[-> Hp]|Hn].
    + rewrite (decide_True (P := b_mem tgt = b_mem tgt /\ to_pos + 0 <= p < to_pos + Z.of_nat (S n))) by lia.
      rewrite decide_False; [done|]. intros [He Hq].
      destruct (Ha (p - to_pos) (Z.of_nat n) ltac:(lia) ltac:(lia)) as [|Hc]; [done | lia].
    + destruct (decide (m = b_mem tgt /\ p = to_pos + Z.of_nat n)) as [[-> ->]|Hn2].
      * rewrite decide_True by lia. f_equal. lia.
      * rewrite decide_False; [done|]. intros [-> Hp]. apply Hn. split; [done|].
        destruct (decide (p = to_pos + Z.of_nat n)); [naive_solver | lia].
Qed.

(** Reading everything from the memory before the loop. *)
Definition move_from (st0 : store) (i : Z) (st : store) : store := put_opt tgt (i + ts) (get st0 src (i + s)) st.

Lemma move_set st0 n : forall a st,
  byte_store st0 -> inside st0 src -> inside st tgt -> (forall i, a <= i < a + Z.of_nat n -> in_range i) ->
  forall m p, cell (loop_up n a (move_from st0) st) m p
    = if decide (m = b_mem tgt /\ to_pos + a <= p < to_pos + (a + Z.of_nat n))
      then cell st0 (b_mem src) (p - to_pos + from_pos) else cell st m p.
Proof.
  induction n as [|n IH]; intros a st Hb Hs Ht Hr m p; cbn [loop_up].
  - by rewrite decide_False by lia.
  - destruct (Hr a ltac:(lia)) as [H1 H2]. destruct (cell_inside _ _ _ Hs H1) as (y & Hy).
    pose proof (cell_byte _ _ _ _ Hb Hy) as Hyb.
    rewrite IH; [|done|done|by eapply shape_inside; [apply put_shape|]|intros i Hi; apply Hr; lia].
    unfold move_from, put_opt. rewrite get_cell, Hy by done. cbn [default]. rewrite cell_put by done.
    unfold id. rewrite Z.mod_small by (unfold is_byte in Hyb; lia). unfold to_pos, from_pos in *.
    destruct (decide (m = b_mem tgt /\ b_off tgt + ts + (a + 1) <= p < _)) as [[-> Hp]|Hn].
    + by rewrite (decide_True (P := b_mem tgt = b_mem tgt /\ _)) by lia.
    + destruct (decide (_ /\ m = b_mem tgt /\ _)) as [(_ & -> & ->)|Hn2].
      * rewrite decide_True by lia. rewrite <- Hy. f_equal. lia.
      * rewrite decide_False; [done|]. intros [-> Hp]. apply Hn. split; [done|].
        destruct (decide (p = b_off tgt + (a + ts))) as [E|E]; [exfalso; apply Hn2; split; [done|]; split; [done|exact E] | lia].
Qed.

(** Bytes moved upwards over themselves: the first [g] are repeated. *)
Lemma move_smear n st :
  byte_store st -> inside st src -> inside st tgt -> (forall i, 0 <= i < Z.of_nat n -> in_range i) ->
  b_mem src = b_mem tgt -> from_pos < to_pos ->
  forall m p, cell (loop_up n 0 move st) m p
    = if decide (m = b_mem tgt /\ to_pos <= p < to_pos + Z.of_nat n)
      then cell st (b_mem src) (from_pos + (p - to_pos) mod (to_pos - from_pos)) else cell st m p.
Proof.
  intros Hb Hs Ht Hr Hm Hlt. set (g := to_pos - from_pos). induction n as [|n IH]; intros m p.
  - cbn [loop_up]. by rewrite decide_False by lia.
  - rewrite loop_up_snoc, Z.add_0_l. specialize (IH ltac:(intros i Hi; apply Hr; lia)).
    assert (Hst : stable st (loop_up n 0 move st)) by (apply loop_up_stable; intros; apply move_stable).
    destruct Hst as [Hsh Hby]. assert (Hrn : in_range (Z.of_nat n)) by (apply Hr; lia).
    rewrite move_cell; [|by apply Hby|by eapply shape_inside|by eapply shape_inside|done].
    destruct (decide (m = b_mem tgt /\ p = to_pos + Z.of_nat n)) as [[-> ->]|Hn].
    + rewrite IH, (decide_True (P := b_mem tgt = b_mem tgt /\ _)) by lia.
      replace (to_pos + Z.of_nat n - to_pos) with (Z.of_nat n) by lia.
      destruct (Z_lt_le_dec (Z.of_nat n) g).
      * rewrite decide_False by (unfold g in *; lia). by rewrite Z.mod_small by (unfold g in *; lia).
      * rewrite decide_True by (unfold g in *; lia). f_equal. f_equal.
        replace (from_pos + Z.of_nat n - to_pos) with (Z.of_nat n - 1 * g) by (unfold g; lia).
        rewrite <- (Z_mod_plus_full (Z.of_nat n - 1 * g) 1 g). f_equal. lia.
    + rewrite IH. destruct (decide (m = b_mem tgt /\ to_pos <= p < to_pos + Z.of_nat n)) as [[-> Hp]|Hn2].
      * by rewrite decide_True by lia.
      * rewrite decide_False; [done|]. intros [-> Hp]. apply Hn2. split; [done|].
        destruct (decide (p = to_pos + Z.of_nat n)); [naive_solver | lia].
Qed.
End Move.

(** The number of bytes that [copy] moves. *)
Definition copy_len (this target : buffer) (ts s e : Z) : Z :=
  Z.max 0 (Z.min (Z.min e (b_len this) - s) (b_len target - ts)).

(** What [copy] does when its arguments are in range. *)
Lemma copy_runs this target ts s e st :
  0 <= ts -> 0 <= s <= e -> s < b_len this -> 0 <= b_len target ->
  let len := copy_len this target ts s e in
  copy this target (Some ts) (Some s) (Some e) st
  = Ok (len, if (b_id this =? b_id target) && (s <? ts) && (ts <? s + len) then loop_down (Z.to_nat len) (move this target s ts) st
             else if len <? 1000 then loop_up (Z.to_nat len) 0 (move this target s ts) st
             else loop_up (Z.to_nat len) 0 (move_from this target s ts st) st).
Proof.
  intros Hts Hs Hl Ht k. assert (Hk : k = Z.max 0 (Z.min (Z.min e (b_len this) - s) (b_len target - ts))) by done.
  clearbody k. unfold copy. cbn [default]. unfold id.
  rewrite (proj2 (Z.ltb_ge e s)) by lia. rewrite andb_false_r.
  assert (H0 : k = 0 -> Ok (0, st) = Ok (k, if (b_id this =? b_id target) && (s <? ts) && (ts <? s + k) then loop_down (Z.to_nat k) (move this target s ts) st
             else if k <? 1000 then loop_up (Z.to_nat k) 0 (move this target s ts) st
             else loop_up (Z.to_nat k) 0 (move_from this target s ts st) st)).
  { intros ->. by destruct (_ && _). }
  destruct (Z.eqb_spec e s) as [->|Hes]; [apply H0; lia|].
  destruct (Z.eqb_spec (b_len target) 0) as [Ht0|Ht0]; [apply H0; lia|].
  destruct (Z.eqb_spec (b_len this) 0); [lia|]. cbn [orb].
  destruct (Z.leb_spec (b_len target) ts) as [Hge|Hlt].
  - rewrite (proj2 (Z.ltb_ge (b_len target) 0)) by lia. rewrite (proj2 (Z.ltb_ge s 0)) by lia.
    rewrite (proj2 (Z.leb_gt (b_len this) s)) by lia. cbn [orb]. rewrite (proj2 (Z.ltb_ge e 0)) by lia.
    assert (E : forall x, s < x -> (if b_len target - b_len target <? x - s then b_len target - b_len target + s else x) = s).
    { intros x Hx. rewrite (proj2 (Z.ltb_lt _ _)) by lia. lia. }
    rewrite E by (destruct (Z.ltb_spec (b_len this) e); lia). rewrite Z.sub_diag. cbn [Z.to_nat loop_down loop_up].
    rewrite <- (H0 ltac:(lia)). change (Z.to_nat 0) with O. cbn [loop_down loop_up]. f_equal. f_equal. repeat case_match; done.
  - rewrite (proj2 (Z.ltb_ge ts 0)) by lia. rewrite (proj2 (Z.ltb_ge s 0)) by lia.
    rewrite (proj2 (Z.leb_gt (b_len this) s)) by lia. cbn [orb]. rewrite (proj2 (Z.ltb_ge e 0)) by lia.
    set (e' := if _ <? _ - _ then _ else _).
    assert (He : e' = s + k) by (unfold e'; destruct (Z.ltb_spec (b_len this) e);
      match goal with |- context [?a <? ?b] => destruct (Z.ltb_spec a b) end; lia).
    rewrite He. replace (s + k - s) with k by lia. done.
Qed.

(** The bytes of the source, read before the copy, are in the target after it. *)
Definition copied (this target : buffer) (ts s len : Z) (st st' : store) : Prop :=
  (forall i, 0 <= i < len -> get st' target (ts + i) = get st this (s + i)) /\
  forall m p, ~ (m = b_mem target /\ b_off target + ts <= p < b_off target + ts + len) -> cell st' m p = cell st m p.

Lemma moved_copied this target ts s len st st' :
  0 <= s -> 0 <= ts -> s + len <= b_len this -> ts + len <= b_len target ->
  moved this target s ts 0 len st st' -> copied this target ts s len st st'.
Proof.
  intros Hs Hts H1 H2 Hm. unfold moved, to_pos, from_pos in Hm. split.
  - intros i Hi. rewrite !get_cell by lia. rewrite Hm, decide_True by lia. f_equal. lia.
  - intros m p Hn. rewrite Hm, decide_False; [done|]. intros [-> Hp]. apply Hn. split; [done | lia].
Qed.

Lemma copy_copied this target ts s e st :
  byte_store st -> inside st this -> inside st target -> (b_id this = b_id target -> this = target) ->
  0 <= ts -> 0 <= s <= e -> s < b_len this ->
  let len := copy_len this target ts s e in
  (b_id this = b_id target \/ b_mem this <> b_mem target \/ b_off target + ts <= b_off this + s
   \/ b_off this + s + len <= b_off target + ts \/ 1000 <= len) ->
  exists st', copy this target (Some ts) (Some s) (Some e) st = Ok (len, st') /\ copied this target ts s len st st'.
Proof.
  intros Hb Hi Ht Hid Hts Hs Hl len Hcase. rewrite copy_runs by (done || apply Ht). fold len.
  pose proof (in_len _ _ Ht) as Hlt. eexists. split; [done|].
  destruct (decide (len = 0)) as [E0|E0].
  { rewrite E0. split; [lia|]. intros m p _. by destruct (_ && _). }
  assert (Hk : len = Z.max 0 (Z.min (Z.min e (b_len this) - s) (b_len target - ts))) by done.
  assert (Hn : Z.of_nat (Z.to_nat len) = len) by lia.
  assert (Hr : forall i, 0 <= i < len -> in_range this target s ts i) by (intros i Hr; split; lia).
  apply moved_copied; [lia..|].
  destruct ((b_id this =? b_id target) && (s <? ts) && (ts <? s + len)) eqn:Eo.
  - apply andb_true_iff in Eo as [[Eo1 Eo2]%andb_true_iff Eo3]. breflect. specialize (Hid ltac:(lia)) as <-.
    rewrite <- Hn at 1. apply move_down; rewrite ?Hn; try done. intros i j Hij Hj. right. unfold from_pos, to_pos. lia.
  - destruct (Z.ltb_spec len 1000).
    + replace len with (0 + Z.of_nat (Z.to_nat len)) at 1 by lia. apply move_up; try done; [intros i Hir; apply Hr; lia|].
      intros i j Hij Hj. unfold apart, from_pos, to_pos. destruct (decide (b_mem this = b_mem target)); [right | by left].
      destruct Hcase as [Hc|[Hc|[Hc|[Hc|Hc]]]]; try done; try lia. specialize (Hid Hc) as <-.
      rewrite (proj2 (Z.eqb_eq _ _)) in Eo by done. cbn [andb] in Eo.
      destruct (Z.ltb_spec s ts), (Z.ltb_spec ts (s + len)); cbn in Eo; try done; lia.
    + intros m p. rewrite move_set; [|done..|intros i Hir; apply Hr; lia]. by rewrite Hn.
Qed.

(** C38.  [copy] moves the bytes as they were before it, and changes nothing
    else, whenever source and target are the same object or do not overlap, or
    the target begins first, or 1000 bytes and more are moved. *)
Theorem copy_moves this target ts s e st :
  byte_store st -> inside st this -> inside st target -> (b_id this = b_id target -> this = target) ->
  0 <= ts -> 0 <= s <= e -> s < b_len this ->
  let len := copy_len this target ts s e in
  (b_id this = b_id target \/ b_mem this <> b_mem target \/ b_off target + ts <= b_off this + s
   \/ b_off this + s + len <= b_off target + ts \/ 1000 <= len) ->
  exists st', copy this target (Some ts) (Some s) (Some e) st = Ok (len, st') /\ copied this target ts s len st st'.
Proof. apply copy_copied. Qed.

(** Two Buffers over the same memory are different objects, and then
    [copy] goes upwards even when the target begins inside the source: it
    repeats the bytes before the beginning of the target. *)
Theorem copy_smears this target ts s e st :
  byte_store st -> inside st this -> inside st target -> b_id this <> b_id target -> b_mem this = b_mem target ->
  0 <= ts -> 0 <= s <= e -> s < b_len this ->
  let len := copy_len this target ts s e in
  let gap := (b_off target + ts) - (b_off this + s) in
  0 < gap < len -> len < 1000 ->
  exists st', copy this target (Some ts) (Some s) (Some e) st = Ok (len, st') /\
    forall i, 0 <= i < len -> get st' target (ts + i) = get st this (s + i mod gap).
Proof.
  intros Hb Hi Ht Hid Hm Hts Hs Hl len gap Hg Hlen. rewrite copy_runs by (done || apply Ht). fold len.
  rewrite (proj2 (Z.eqb_neq _ _)) by done. cbn [andb]. rewrite (proj2 (Z.ltb_lt _ _)) by done. eexists. split; [done|].
  assert (Hk : len = Z.max 0 (Z.min (Z.min e (b_len this) - s) (b_len target - ts))) by done.
  intros i Hir. pose proof (Z.mod_pos_bound i gap ltac:(lia)). rewrite !get_cell by lia.
  rewrite move_smear; [|done..|intros j Hj; split; lia|done|unfold from_pos, to_pos; lia].
  unfold from_pos, to_pos. rewrite decide_True by lia.
  replace (b_off target + (ts + i) - (b_off target + ts)) with i by lia. fold gap. f_equal. lia.
Qed.

(** ** Contents *)

Lemma zget_zslice {A} (l : list A) a b j :
  0 <= a -> b <= zlen l -> zget (zslice a b l) j = if decide (0 <= j < b - a) then zget l (a + j) else None.
Proof.
  intros Ha Hb. unfold zget, zslice, zlen in *. destruct (Z.ltb_spec j 0); [by rewrite decide_False by lia|].
  rewrite (proj2 (Z.ltb_ge (a + j) 0)) by lia. destruct (decide _) as [Hj|Hj].
  - rewrite lookup_take_lt, lookup_drop by lia. f_equal. lia.
  - apply lookup_ge_None. rewrite length_take. lia.
Qed.

Lemma get_contents st b j : inside st b -> zget (contents st b) j = get st b j.
Proof.
  intros [H1 H2 H3 H4]. unfold contents. rewrite zget_zslice by lia.
  replace (b_off b + b_len b - b_off b) with (b_len b) by lia. destruct (decide _).
  - by rewrite get_cell.
  - by rewrite get_outside.
Qed.

Lemma zlen_contents st b : inside st b -> zlen (contents st b) = b_len b.
Proof. intros [H1 H2 H3 H4]. unfold contents. rewrite zlen_zslice by lia. lia. Qed.

Lemma zget_ext {A} (l k : list A) : (forall j, 0 <= j -> zget l j = zget k j) -> l = k.
Proof.
  intros H. apply list_eq. intros i. specialize (H (Z.of_nat i) ltac:(lia)). unfold zget in H.
  rewrite (proj2 (Z.ltb_ge _ _)), Nat2Z.id in H by lia. done.
Qed.

(** ** Slices *)

Lemma clamp_index_range len i : 0 <= len -> 0 <= clamp_index len i <= len.
Proof.
  intros Hl. unfold clamp_index. destruct (Z.ltb_spec (to_int32 i) 0).
  - destruct (Z.ltb_spec (to_int32 i + len) 0); lia.
  - destruct (Z.ltb_spec len (to_int32 i)); lia.
Qed.

Lemma clamp_index_in len i : 0 <= i <= len -> i < 2 ^ 31 -> clamp_index len i = i.
Proof.
  intros Hi Hb. unfold clamp_index. rewrite to_int32_small by lia.
  rewrite (proj2 (Z.ltb_ge i 0)) by lia. by rewrite (proj2 (Z.ltb_ge len i)) by lia.
Qed.

(** A slice is a window on the memory of its Buffer, wherever it is cut:
    it shows the bytes of the range, and a byte that is written through one of
    the two is read through the other. *)
Theorem slice_shares this start end_ st :
  inside st this -> next_id st > b_id this ->
  let '(s, st') := slice this start end_ st in
  let from := clamp_index (b_len this) start in
  inside st' s /\ b_id s <> b_id this /\
  b_len s = Z.max 0 (match end_ with None => b_len this | Some e => clamp_index (b_len this) e end - from) /\
  contents st' s = zslice from (from + b_len s) (contents st' this) /\
  forall i x, 0 <= i < b_len s ->
    get (put s i x st') this (from + i) = Some (x mod 256) /\ get (put this (from + i) x st') s i = Some (x mod 256).
Proof.
  intros Hin Hid. unfold slice. pose proof (clamp_index_range (b_len this) start (in_len _ _ Hin)) as Hs.
  set (from := clamp_index (b_len this) start) in *.
  assert (He : 0 <= match end_ with None => b_len this | Some e => clamp_index (b_len this) e end <= b_len this).
  { destruct end_; [apply clamp_index_range, Hin | pose proof (in_len _ _ Hin); lia]. }
  set (e := match end_ with None => _ | _ => _ end) in *. clearbody e.
  set (n := (if e <? from then from else e) - from).
  assert (Hn : n = Z.max 0 (e - from)) by (unfold n; destruct (Z.ltb_spec e from); lia). clearbody n.
  set (s := Buf _ _ _ n). set (st' := Store _ _). destruct Hin as [H1 H2 H3 H4].
  assert (Hs' : inside st' s) by (split; cbn; try lia; unfold memory in *; cbn; lia).
  assert (Ht' : inside st' this) by (split; done).
  split; [done|]. split; [cbn; lia|]. split; [done|]. split.
  - apply zget_ext. intros j Hj. rewrite get_contents by done. rewrite zget_zslice by (rewrite ?zlen_contents by done; cbn; lia).
    rewrite get_contents by done. cbn [b_len s]. destruct (decide _).
    + rewrite !get_cell by (cbn; lia). cbn. f_equal. lia.
    + apply get_outside. cbn. lia.
  - intros i x Hi. cbn [b_len s] in Hi. rewrite !get_cell by (cbn; lia). rewrite !cell_put by done.
    split; rewrite decide_True; try done; cbn; lia.
Qed.

(** ** Comparison *)

(** The order of lists of bytes. *)
Fixpoint lex (a b : list Z) : Z :=
  match a, b with
  | [], [] => 0
  | [], _ :: _ => -1
  | _ :: _, [] => 1
  | x :: a, y :: b => if x <? y then -1 else if y <? x then 1 else lex a b
  end.

Lemma lex_equal a : forall b, lex a b = 0 <-> a = b.
Proof.
  induction a as [|x a IH]; intros [|y b]; cbn [lex]; try done.
  destruct (Z.ltb_spec x y); [split; [done | intros [= -> ->]; lia]|].
  destruct (Z.ltb_spec y x); [split; [done | intros [= -> ->]; lia]|].
  rewrite IH. split; [intros ->; f_equal; lia | by intros [= ->]].
Qed.

Lemma three_way_succ x y : three_way (Some (x + 1)) (Some (y + 1)) = three_way (Some x) (Some y).
Proof.
  cbn. destruct (Z.ltb_spec (x + 1) (y + 1)), (Z.ltb_spec x y), (Z.ltb_spec (y + 1) (x + 1)), (Z.ltb_spec y x); lia || done.
Qed.

Lemma first_difference_lex st a b : forall la lb i,
  (forall j, 0 <= j -> get st a (i + j) = zget la j) -> (forall j, 0 <= j -> get st b (i + j) = zget lb j) ->
  match first_difference (Nat.min (length la) (length lb)) i st a b with
  | Some (x, y) => three_way x y
  | None => three_way (Some (zlen la)) (Some (zlen lb))
  end = lex la lb.
Proof.
  induction la as [|x la IH]; intros [|y lb] i Ha Hb; try done.
  - cbn [length Nat.min first_difference lex].
    pose proof (Ha 0 ltac:(lia)) as H1. pose proof (Hb 0 ltac:(lia)) as H2. rewrite Z.add_0_r in H1, H2.
    rewrite H1, H2, !zget_cons_0. case_bool_decide as E.
    + injection E as <-. rewrite Z.ltb_irrefl. rewrite !zlen_cons, three_way_succ. apply IH.
      * intros j Hj. rewrite <- Z.add_assoc, Ha, zget_cons by lia. f_equal. lia.
      * intros j Hj. rewrite <- Z.add_assoc, Hb, zget_cons by lia. f_equal. lia.
    + cbn [three_way]. destruct (Z.ltb_spec x y); [done|]. destruct (Z.ltb_spec y x); [done|].
      exfalso. apply E. f_equal. lia.
Qed.

(** [Buffer.compare] is the order of the bytes as lists, and [equals]
    holds exactly when the two have the same bytes. *)
Theorem compare_lexicographic a b st :
  inside st a -> inside st b -> (b_id a = b_id b -> a = b) ->
  compare a b st = lex (contents st a) (contents st b) /\
  (equals a b st = true <-> contents st a = contents st b).
Proof.
  intros Ha Hb Hid.
  assert (Hc : compare a b st = lex (contents st a) (contents st b)).
  { unfold compare. destruct (Z.eqb_spec (b_id a) (b_id b)) as [E|E].
    - rewrite <- (Hid E). symmetry. by apply lex_equal.
    - pose proof (first_difference_lex st a b (contents st a) (contents st b) 0) as H.
      rewrite !zlen_contents in H by done. rewrite <- H.
      + replace (Z.to_nat (Z.min (b_len a) (b_len b))) with (Nat.min (length (contents st a)) (length (contents st b))); [done|].
        pose proof (zlen_contents st a Ha). pose proof (zlen_contents st b Hb). unfold zlen in *. lia.
      + intros j Hj. by rewrite get_contents.
      + intros j Hj. by rewrite get_contents. }
  split; [done|]. unfold equals. rewrite Hc, <- lex_equal.
  destruct (Z.eqb_spec (b_id a) (b_id b)) as [E|E]; [|apply Z.eqb_eq].
  rewrite <- (Hid E). split; [|done]. intros _. by apply lex_equal.
Qed.

(** ** Searching *)

Section Search.
Context (arr val : Z -> option Z) (L V : Z).
Context (HV : 0 < V).

(** [val] stands in [arr] at position [p]. *)
Definition occurs (p : Z) : Prop := 0 <= p /\ p + V <= L /\ forall j, 0 <= j < V -> arr (p + j) = val j.

(** The first occurrence from [o] on, or [-1] when there is none. *)
Definition first_from (o r : Z) : Prop :=
  (r = -1 /\ forall p, o <= p -> ~ occurs p) \/ (o <= r /\ occurs r /\ forall p, o <= p < r -> ~ occurs p).

(** The search stands at [i], with the first [i - s] bytes found at [s]. *)
Lemma search_up_ok fuel : forall o i f,
  let s := if f =? -1 then i else f in
  0 <= o <= s -> i <= L -> (f = -1 \/ (0 <= f < i /\ i - f < V /\ forall j, 0 <= j < i - f -> arr (f + j) = val j)) ->
  (forall p, o <= p < s -> ~ occurs p) -> (L - s) * V - (i - s) < Z.of_nat fuel ->
  exists r, search_up fuel arr L val V i f = Ok r /\ first_from o r.
Proof.
  induction fuel as [|fuel IH]; intros o i f s Ho Hi Hf Hno Hfuel.
  { exfalso. assert (s <= i <= L) by (unfold s; destruct (Z.eqb_spec f (-1)); lia). nia. }
  assert (Hs : (f = -1 /\ s = i) \/ (f <> -1 /\ s = f)) by (unfold s; destruct (Z.eqb_spec f (-1)); lia).
  clearbody s. assert (Hsi : s <= i /\ i - s < V) by lia. cbn [search_up].
  destruct (Z.ltb_spec i L) as [HiL|HiL].
  - case_bool_decide as Em.
    + replace (if f =? -1 then i else f) with s by (destruct (Z.eqb_spec f (-1)); lia).
      replace (if f =? -1 then 0 else i - f) with (i - s) in Em by (destruct (Z.eqb_spec f (-1)); lia).
      assert (Hall : forall j, 0 <= j < i + 1 - s -> arr (s + j) = val j).
      { intros j Hj. destruct (decide (j = i - s)) as [->|]; [by replace (s + (i - s)) with i by lia|].
        destruct Hs as [[-> ->]|[Hf1 ->]]; [lia|]. destruct Hf as [|(_ & _ & Hf)]; [done | apply Hf; lia]. }
      destruct (Z.eqb_spec (i - s + 1) V) as [HV1|HV1].
      * exists s. split; [done|]. right. split; [lia|]. split; [|done]. split; [lia|]. split; [lia|]. intros j Hj. apply Hall. lia.
      * apply IH; rewrite ?(proj2 (Z.eqb_neq s (-1))) by lia; [lia | lia | | done | lia].
        right. split; [lia|]. split; [lia|]. intros j Hj. apply Hall. lia.
    + replace (if f =? -1 then i else i - (i - f)) with s by (destruct (Z.eqb_spec f (-1)); lia).
      replace (if f =? -1 then 0 else i - f) with (i - s) in Em by (destruct (Z.eqb_spec f (-1)); lia).
      assert (Hns : ~ occurs s).
      { intros (_ & _ & Hall). apply Em. specialize (Hall (i - s) ltac:(lia)). by replace (s + (i - s)) with i in Hall by lia. }
      apply IH; cbn [Z.eqb Pos.eqb]; [lia | lia | by left | | nia].
      intros p Hp. destruct (decide (p = s)) as [->|]; [done | apply Hno; lia].
  - exists (-1). split; [done|]. left. split; [done|]. intros p Hp (Hp0 & Hend & Hall).
    destruct (decide (p < s)) as [Hlt|Hge]; [by apply (Hno p) | lia].
Qed.

Lemma matches_at_ok i n : forall j, matches_at n j arr val i = true <-> forall k, j <= k < j + Z.of_nat n -> arr (i + k) = val k.
Proof.
  induction n as [|n IH]; intros j; cbn [matches_at]; [split; [intros _ k Hk; lia | done]|].
  case_bool_decide as E.
  - rewrite IH. split; intros H k Hk; [|apply H; lia]. destruct (decide (k = j)) as [->|]; [done | apply H; lia].
  - split; [done|]. intros H. exfalso. apply E, H. lia.
Qed.

(** The last occurrence up to [o]. *)
Definition last_until (o r : Z) : Prop :=
  (r = -1 /\ forall p, p <= o -> ~ occurs p) \/ (r <= o /\ occurs r /\ forall p, r < p <= o -> ~ occurs p).

Lemma search_down_ok n : Z.of_nat n - 1 + V <= L -> last_until (Z.of_nat n - 1) (search_down n arr val V).
Proof.
  induction n as [|n IH]; intros Hn; cbn [search_down].
  - left. split; [done|]. intros p Hp (? & _). lia.
  - replace (Z.of_nat (S n) - 1) with (Z.of_nat n) in * by lia.
    assert (Ho : matches_at (Z.to_nat V) 0 arr val (Z.of_nat n) = true <-> occurs (Z.of_nat n)).
    { rewrite matches_at_ok. unfold occurs. split.
      - intros H. split; [lia|]. split; [lia|]. intros j Hj. apply H. lia.
      - intros (_ & _ & H) k Hk. apply H. lia. }
    destruct (matches_at _ _ _ _ _).
    + right. split; [lia|]. split; [by apply Ho | intros p Hp; lia].
    + assert (Hno : ~ occurs (Z.of_nat n)) by (intros H; by apply Ho in H).
      destruct (IH ltac:(lia)) as [[-> H]|(H1 & H2 & H3)].
      * left. split; [done|]. intros p Hp. destruct (decide (p = Z.of_nat n)) as [->|]; [done | apply H; lia].
      * right. split; [lia|]. split; [done|]. intros p Hp. destruct (decide (p = Z.of_nat n)) as [->|]; [done | apply H3; lia].
Qed.
End Search.

(** [indexOf] and [lastIndexOf] of a Buffer with bytes: from an offset of
    the Buffer the first returns the first position where all the bytes
    stand, the second the last one, and both return -1 when there is none; the
    first does so although it goes back in the text after a partial match. *)
Theorem indexOf_first this v o st :
  0 < b_len v -> 0 <= o < b_len this -> o <= 2147483647 ->
  (exists r, indexOf this (NeedleBuffer v) (Some o) st = Ok r /\
     first_from (get st this) (get st v) (b_len this) (b_len v) o r) /\
  (exists r, lastIndexOf this (NeedleBuffer v) (Some o) st = Ok r /\
     last_until (get st this) (get st v) (b_len this) (b_len v) o r).
Proof.
  intros Hv Ho Hb. unfold indexOf, lastIndexOf, bidirectionalIndexOf.
  rewrite (proj2 (Z.eqb_neq (b_len this) 0)) by lia. rewrite (proj2 (Z.ltb_ge 2147483647 o)) by lia.
  rewrite (proj2 (Z.ltb_ge o (-2147483648))) by lia.
  rewrite !(proj2 (Z.ltb_ge o 0)) by lia. rewrite !(proj2 (Z.leb_gt (b_len this) o)) by lia. cbn [andb]. rewrite (proj2 (Z.eqb_neq (b_len v) 0)) by lia.
  unfold arrayIndexOf. split.
  - apply search_up_ok; [done|..]; cbn [Z.eqb Pos.eqb].
    + lia.
    + lia.
    + by left.
    + intros p Hp. lia.
    + nia.
  - set (o' := if b_len this <? o + b_len v then b_len this - b_len v else o).
    assert (Ho' : o' <= o /\ o' + b_len v <= b_len this /\ forall p, o' < p -> p <= o -> ~ occurs (get st this) (get st v) (b_len this) (b_len v) p).
    { unfold o'. destruct (Z.ltb_spec (b_len this) (o + b_len v)); (split; [lia|]; split; [lia|]); [|intros p Hp1 Hp2; lia].
      intros p Hp1 Hp2 (_ & ? & _). lia. }
    destruct Ho' as (Ho1 & Ho2 & Ho3). eexists. split; [done|]. destruct (decide (o' < 0)) as [Hneg|Hpos].
    + replace (Z.to_nat (o' + 1)) with O by lia. left. split; [done|]. intros p Hp Hocc.
      destruct (decide (p <= o')) as [|]; [destruct Hocc as (? & _); lia | apply (Ho3 p); [lia | done | done]].
    + pose proof (search_down_ok (get st this) (get st v) (b_len this) (b_len v) Hv (Z.to_nat (o' + 1)) ltac:(lia)) as H.
      replace (Z.of_nat (Z.to_nat (o' + 1)) - 1) with o' in H by lia.
      destruct H as [[-> H]|(H1 & H2 & H3)].
      * left. split; [done|]. intros p Hp. destruct (decide (p <= o')); [by apply H | apply Ho3; lia].
      * right. split; [lia|]. split; [done|]. intros p Hp. destruct (decide (p <= o')); [apply H3; lia | apply Ho3; lia].
Qed.

(** ** Loops that write given bytes *)

(** Bytes that do not depend on the memory are written one after the other. *)
Lemma loop_put b d f n : forall a st, inside st b -> (forall i, a <= i < a + Z.of_nat n -> 0 <= i + d < b_len b) ->
  forall m p, cell (loop_up n a (fun i => put_opt b (i + d) (f i)) st) m p
    = if decide (m = b_mem b /\ b_off b + d + a <= p < b_off b + d + (a + Z.of_nat n))
      then Some (default 0 (f (p - b_off b - d)) mod 256) else cell st m p.
Proof.
  induction n as [|n IH]; intros a st Hb Hr m p; cbn [loop_up]; [by rewrite decide_False by lia|].
  rewrite IH; [|by eapply shape_inside; [apply put_shape|]|intros i Hi; apply Hr; lia].
  unfold put_opt. rewrite cell_put by done. pose proof (Hr a ltac:(lia)).
  destruct (decide (m = b_mem b /\ b_off b + d + (a + 1) <= p < _)) as [[-> Hp]|Hn]; [by rewrite decide_True by lia|].
  destruct (decide (_ /\ m = b_mem b /\ _)) as [(_ & -> & ->)|Hn2].
  - rewrite decide_True by lia. do 4 f_equal. lia.
  - rewrite decide_False; [done|]. intros [-> Hp]. destruct (decide (p = b_off b + (a + d))) as [->|]; [by apply Hn2 | apply Hn; split; [done | lia]].
Qed.

(** ** Concatenation *)

Lemma copy_stable this target ts s e st n st' : copy this target ts s e st = Ok (n, st') -> stable st st'.
Proof.
  unfold copy. repeat case_goal; intros [= _ <-]; try apply stable_refl;
    first [apply loop_up_stable | apply loop_down_stable]; intros; apply put_stable.
Qed.

Lemma contents_same st st' b :
  same_shape st st' -> inside st b -> (forall p, cell st' (b_mem b) p = cell st (b_mem b) p) -> contents st' b = contents st b.
Proof.
  intros Hs Hb Hc. apply zget_ext. intros j Hj. rewrite !get_contents by (done || by eapply shape_inside).
  destruct (decide (0 <= j < b_len b)); [rewrite !get_cell by done; apply Hc | by rewrite !get_outside].
Qed.

(** The whole of a Buffer into another memory. *)
Lemma copy_whole this target ts st :
  byte_store st -> inside st this -> inside st target -> b_id this <> b_id target -> b_mem this <> b_mem target ->
  0 <= ts -> ts + b_len this <= b_len target ->
  exists st', copy this target (Some ts) None None st = Ok (b_len this, st') /\ copied this target ts 0 (b_len this) st st'.
Proof.
  intros Hb Hi Ht Hid Hm Hts Hl. pose proof (in_len _ _ Hi).
  change (copy this target (Some ts) None None st) with (copy this target (Some ts) (Some 0) (Some (b_len this)) st).
  destruct (decide (b_len this = 0)) as [E|E].
  - exists st. rewrite E. split; [done|]. split; [lia | done].
  - pose proof (copy_copied this target ts 0 (b_len this) st) as H1. cbv zeta in H1.
    assert (Hlen : copy_len this target ts 0 (b_len this) = b_len this) by (unfold copy_len; lia). rewrite Hlen in H1.
    apply H1; first [done | lia | tauto].
Qed.

Lemma concat_loop_ok buffer l : forall pos st,
  byte_store st -> inside st buffer -> Forall (fun b => inside st b /\ b_id b <> b_id buffer /\ b_mem b <> b_mem buffer) l ->
  0 <= pos -> pos + foldr (fun b n => b_len b + n) 0 l <= b_len buffer ->
  let bytes := List.concat (map (contents st) l) in
  exists st', concat_loop l buffer pos st = Ok st' /\ stable st st' /\
    forall m p, cell st' m p = if decide (m = b_mem buffer /\ b_off buffer + pos <= p < b_off buffer + pos + zlen bytes)
                               then zget bytes (p - b_off buffer - pos) else cell st m p.
Proof.
  induction l as [|b l IH]; intros pos st Hb Hi Hl Hpos Hsum; cbn [map List.concat concat_loop].
  - exists st. split; [done|]. split; [apply stable_refl|]. intros m p. by rewrite decide_False by (rewrite zlen_nil; lia).
  - apply Forall_cons_iff in Hl as [(Hib & Hid & Hm) Hl]. cbn [foldr] in Hsum.
    assert (Hge : 0 <= foldr (fun b n => b_len b + n) 0 l).
    { clear -Hl. induction Hl as [|x l [Hx _] _ IHl]; cbn; [lia|]. pose proof (in_len _ _ Hx). lia. }
    destruct (copy_whole b buffer pos st) as (st1 & H1 & Hin & Hout); try done; [lia|]. rewrite H1. cbn [res_bind].
    pose proof (copy_stable _ _ _ _ _ _ _ _ H1) as Hst1. destruct Hst1 as [Hsh Hby].
    assert (Hsame : forall c, c ∈ l -> contents st1 c = contents st c).
    { intros c Hc. rewrite list.Forall_forall in Hl. destruct (Hl _ Hc) as (Hic & _ & Hmc).
      apply contents_same; [done | done|]. intros p. apply Hout. naive_solver. }
    destruct (IH (pos + b_len b) st1) as (st2 & H2 & Hst2 & Hc2).
    { by apply Hby. } { by eapply shape_inside. }
    { eapply Forall_impl; [|exact Hl]. intros c (? & ? & ?). split; [by eapply shape_inside | done]. }
    { pose proof (in_len _ _ Hib). lia. } { lia. }
    exists st2. split; [done|]. split; [eapply stable_trans; [by split | done]|]. intros m p. rewrite Hc2.
    replace (map (contents st1) l) with (map (contents st) l) by (apply map_ext_in; intros c Hc; symmetry; by apply Hsame, list_elem_of_In).
    clear Hc2. generalize (List.concat (map (contents st) l)). intros rest.
    rewrite zlen_app. pose proof (zlen_contents st b Hib) as Hzb. pose proof (zlen_nonneg rest).
    pose proof (in_len _ _ Hib).
    destruct (decide (m = b_mem buffer /\ b_off buffer + (pos + b_len b) <= p < _)) as [[-> Hp]|Hn].
    + rewrite decide_True by lia. rewrite zget_app_r by lia. f_equal. lia.
    + destruct (decide (m = b_mem buffer /\ b_off buffer + pos <= p < b_off buffer + pos + b_len b)) as [[-> Hp]|Hn2].
      * rewrite decide_True by lia. rewrite zget_app_l by lia. rewrite get_contents by done.
        specialize (Hin (p - b_off buffer - pos) ltac:(lia)). rewrite Z.add_0_l in Hin. rewrite <- Hin, get_cell by lia. f_equal. lia.
      * rewrite decide_False; [by apply Hout|]. intros [-> Hp].
        destruct (decide (p < b_off buffer + pos + b_len b)); [apply Hn2; split; [done | lia] | apply Hn; split; [done | lia]].
Qed.

(** A new Buffer: in a memory of its own, the others as they were. *)
Record fresh (st : store) (b : buffer) (n : Z) (st' : store) : Prop := {
  fr_inside : inside st' b;
  fr_id : b_id b = next_id st /\ next_id st' = next_id st + 1;
  fr_mem : b_mem b = length (mems st) /\ b_len b = n /\ b_off b = 0;
  fr_bytes : byte_store st -> byte_store st';
  fr_old : forall m p, (m < length (mems st))%nat -> cell st' m p = cell st m p;
  fr_keeps : forall c, inside st c -> inside st' c
}.

Lemma createBuffer_fresh n st : 0 <= n <= kMaxLength -> exists b st', createBuffer n st = Ok (b, st') /\ fresh st b n st'.
Proof.
  intros Hn. unfold createBuffer. rewrite (proj2 (Z.ltb_ge kMaxLength n)) by lia. rewrite (proj2 (Z.ltb_ge n 0)) by lia.
  cbn [orb]. eexists _, _. split; [done|].
  assert (Hm : forall m, (m < length (mems st))%nat ->
             memory m (Store (mems st ++ [repeat 0 (Z.to_nat n)]) (next_id st + 1)) = memory m st).
  { intros m Hm. unfold memory. cbn [mems]. by rewrite lookup_app_l. }
  split; cbn [b_id b_mem b_off b_len next_id]; try done.
  - split; cbn [b_mem b_off b_len mems]; [rewrite length_app; cbn; lia | lia | lia|].
    unfold memory. cbn [mems]. rewrite lookup_app_r, Nat.sub_diag by done. cbn. unfold zlen. rewrite repeat_length. lia.
  - unfold byte_store. cbn [mems]. intros H. apply Forall_app. split; [done|]. apply Forall_cons_2; [|apply Forall_nil_2].
    apply list.Forall_forall. intros x Hx. apply list_elem_of_In, repeat_spec in Hx as ->. by unfold is_byte.
  - intros m p Hlt. unfold cell. by rewrite Hm.
  - intros c [H1 H2 H3 H4]. split; try done; [cbn [mems]; rewrite length_app; lia | by rewrite Hm].
Qed.

Lemma checked_ok n : 0 <= n < kMaxLength -> checked n = Ok n.
Proof.
  intros Hn. unfold checked. unfold kMaxLength in *. rewrite (proj2 (Z.leb_gt _ _)) by lia. by rewrite to_int32_small by lia.
Qed.

Lemma allocUnsafe_fresh n st : 0 <= n < kMaxLength -> exists b st', allocUnsafe n st = Ok (b, st') /\ fresh st b n st'.
Proof.
  intros Hn. unfold allocUnsafe, assertSize. rewrite !(proj2 (Z.ltb_ge n 0)) by lia. cbn [res_bind].
  rewrite checked_ok by done. cbn [res_bind]. apply createBuffer_fresh. lia.
Qed.

Lemma fresh_contents st b n st' c : fresh st b n st' -> inside st c -> contents st' c = contents st c.
Proof.
  intros [F1 F2 F3 F4 F5 F6] Hc. apply zget_ext. intros j Hj. rewrite !get_contents by auto.
  destruct (decide (0 <= j < b_len c)); [|by rewrite !get_outside]. rewrite !get_cell by done. apply F5, Hc.
Qed.

(** [concat] gives a new Buffer with the bytes of all of them, and leaves them as they are. *)
Theorem concat_bytes l st :
  byte_store st -> l <> [] -> Forall (fun b => inside st b /\ b_id b < next_id st) l ->
  foldr (fun b n => b_len b + n) 0 l < kMaxLength ->
  exists b st', concat l None st = Ok (b, st') /\ inside st' b /\ contents st' b = List.concat (map (contents st) l) /\
    forall c, inside st c -> contents st' c = contents st c.
Proof.
  intros Hb Hne Hl Hs. set (n := foldr _ 0 l) in *.
  assert (Hn : 0 <= n /\ zlen (List.concat (map (contents st) l)) = n).
  { unfold n. clear -Hl. induction Hl as [|c l [Hc _] _ [IH1 IH2]]; cbn [map List.concat foldr]; [done|].
    rewrite zlen_app, zlen_contents, IH2 by done. pose proof (in_len _ _ Hc). lia. }
  destruct (allocUnsafe_fresh n st) as (b & st1 & H1 & Hf); [lia|]. pose proof Hf as [F1 [F2 _] (F3 & F4 & F5) F6 F7 F8].
  assert (Hmap : map (contents st1) l = map (contents st) l).
  { apply map_ext_in. intros c Hc. apply list_elem_of_In in Hc. rewrite list.Forall_forall in Hl.
    eapply fresh_contents; [done | by apply Hl]. }
  destruct (concat_loop_ok b l 0 st1) as (st2 & H2 & [Hsh _] & Hc); [by apply F6 | done | | lia | lia |].
  { eapply Forall_impl; [|exact Hl]. intros c [Hc1 Hc2]. split; [by apply F8|]. split; [lia|].
    pose proof (in_mem _ _ Hc1). lia. }
  rewrite Hmap in Hc. assert (E : concat l None st = Ok (b, st2)).
  { unfold concat. destruct l; [done|]. fold n. rewrite H1. cbn [res_bind]. by rewrite H2. }
  exists b, st2. split; [done|]. split; [by eapply shape_inside|]. split.
  - apply zget_ext. intros j Hj. rewrite get_contents by (by eapply shape_inside). destruct Hn as [Hn0 Hn].
    destruct (decide (j < n)).
    + rewrite get_cell by lia. rewrite Hc, decide_True by lia. f_equal. lia.
    + rewrite get_outside by lia. symmetry. apply zget_None. lia.
  - intros c Hic. rewrite <- (fresh_contents _ _ _ _ _ Hf Hic). apply contents_same; [done | by apply F8|].
    intros p. rewrite Hc, decide_False; [done|]. pose proof (in_mem _ _ Hic). lia.
Qed.

(** ** Examples *)

Definition demo_store : store := Store [[0; 1; 2; 3; 4; 5; 6; 7; 8; 9]] 1.
Definition demo_buffer : buffer := Buf 0 0 0 10.

Lemma demo_inside : inside demo_store demo_buffer.
Proof. split; cbn; [lia | lia | lia | vm_compute; congruence]. Qed.

Lemma demo_bytes : byte_store demo_store.
Proof. apply (bool_decide_unpack _). vm_compute. exact I. Qed.

(** Ten bytes are moved by two inside the same Buffer. *)
Lemma copy_moves_witness :
  exists st', copy demo_buffer demo_buffer (Some 2) (Some 0) (Some 10) demo_store = Ok (8, st') /\
    copied demo_buffer demo_buffer 2 0 8 demo_store st' /\ contents st' demo_buffer = [0; 1; 0; 1; 2; 3; 4; 5; 6; 7].
Proof.
  destruct (copy_moves demo_buffer demo_buffer 2 0 10 demo_store) as (st' & H1 & H2);
    [exact demo_bytes | exact demo_inside | exact demo_inside | done | lia | lia | cbn; lia | left; done |].
  exists st'. split; [exact H1|]. split; [exact H2|].
  vm_compute in H1. injection H1 as <-. vm_compute. reflexivity.
Defined.
