(* ===== verification/BufferInts.v ===== *)
(** Integers in the bytes of a Buffer: the methods that read and write them,
    of one to six bytes, signed and unsigned, in both byte orders, and those of
    fixed width.  The methods for floating-point numbers, which use logarithms
    (module 145), are not modelled. *)

From Stdlib Require Import ZArith Lia List Bool.
From stdpp Require Import base list list_numbers tactics.
From S2P Require Import Prelude Int32 Buffers.

(** ** Arithmetic on what is read *)

(** [undefined] in the bit operations, and in sums and products ([NaN], [None]). *)
Definition bits (x : option Z) : Z := default 0 x.
Definition add_mul (val x : option Z) (mul : Z) : option Z :=
  match val, x with Some v, Some x => Some (v + x * mul) | _, _ => None end.
Definition plus (x y : option Z) : option Z := match x, y with Some x, Some y => Some (x + y) | _, _ => None end.

(** [a >>> n]. *)
Definition ushr (a n : Z) : Z := Z.shiftr (to_uint32 a) (n mod 32).

(** ** Reading *)

Definition checkOffset (offset ext length : Z) : res unit :=
  if offset <? 0 then Err RangeError else if length <? offset + ext then Err RangeError else Ok tt.

Definition asserted (noAssert : bool) (check : res unit) : res unit := if noAssert then Ok tt else check.

(** More than six bytes are beyond the integers that a double holds exactly. *)
Definition exact {A} (byteLength : Z) (k : res A) : res A := if 6 <? byteLength then Err Unsupported else k.

(** [while (++i < byteLength && (mul *= 0x100)) val += this[offset + i] * mul] *)
Fixpoint read_le (fuel : nat) (st : store) (this : buffer) (offset byteLength i mul : Z) (val : option Z) : option Z * Z :=
  match fuel with
  | O => (val, mul)
  | S fuel =>
      let i := i + 1 in
      if i <? byteLength then
        let mul := mul * 256 in
        read_le fuel st this offset byteLength i mul (add_mul val (get st this (offset + i)) mul)
      else (val, mul)
  end.

(** [while (i > 0 && (mul *= 0x100)) val += this[offset + --i] * mul] *)
Fixpoint read_be (fuel : nat) (st : store) (this : buffer) (offset i mul : Z) (val : option Z) : option Z * Z :=
  match fuel with
  | O => (val, mul)
  | S fuel =>
      if 0 <? i then
        let mul := mul * 256 in
        let i := i - 1 in
        read_be fuel st this offset i mul (add_mul val (get st this (offset + i)) mul)
      else (val, mul)
  end.

Definition readUIntLE (this : buffer) (offset byteLength : Z) (noAssert : bool) (st : store) : res (option Z) :=
  let offset := to_int32 offset in let byteLength := to_int32 byteLength in
  _ <-? asserted noAssert (checkOffset offset byteLength (b_len this));
  exact byteLength (Ok (fst (read_le (Z.to_nat byteLength) st this offset byteLength 0 1 (get st this offset)))).

Definition readUIntBE (this : buffer) (offset byteLength : Z) (noAssert : bool) (st : store) : res (option Z) :=
  let offset := to_int32 offset in let byteLength := to_int32 byteLength in
  _ <-? asserted noAssert (checkOffset offset byteLength (b_len this));
  let byteLength := byteLength - 1 in
  exact (byteLength + 1) (Ok (fst (read_be (Z.to_nat byteLength) st this offset byteLength 1 (get st this (offset + byteLength))))).

(** [if (val >= mul * 0x80) val -= Math.pow(2, 8 * byteLength)] *)
Definition to_signed (byteLength : Z) (vm : option Z * Z) : option Z :=
  option_map (fun val => if vm.2 * 128 <=? val then val - 2 ^ (8 * byteLength) else val) vm.1.

Definition readIntLE (this : buffer) (offset byteLength : Z) (noAssert : bool) (st : store) : res (option Z) :=
  let offset := to_int32 offset in let byteLength := to_int32 byteLength in
  _ <-? asserted noAssert (checkOffset offset byteLength (b_len this));
  exact byteLength (Ok (to_signed byteLength (read_le (Z.to_nat byteLength) st this offset byteLength 0 1 (get st this offset)))).

Definition readIntBE (this : buffer) (offset byteLength : Z) (noAssert : bool) (st : store) : res (option Z) :=
  let offset := to_int32 offset in let byteLength := to_int32 byteLength in
  _ <-? asserted noAssert (checkOffset offset byteLength (b_len this));
  let i := byteLength - 1 in
  exact byteLength (Ok (to_signed byteLength (read_be (Z.to_nat i) st this offset i 1 (get st this (offset + i))))).

Definition readUInt8 (this : buffer) (offset : Z) (noAssert : bool) (st : store) : res (option Z) :=
  _ <-? asserted noAssert (checkOffset offset 1 (b_len this)); Ok (get st this offset).

Definition readUInt16LE (this : buffer) (offset : Z) (noAssert : bool) (st : store) : res (option Z) :=
  let at_ i := bits (get st this (offset + i)) in
  _ <-? asserted noAssert (checkOffset offset 2 (b_len this)); Ok (Some (bor (at_ 0) (shl (at_ 1) 8))).

Definition readUInt16BE (this : buffer) (offset : Z) (noAssert : bool) (st : store) : res (option Z) :=
  let at_ i := bits (get st this (offset + i)) in
  _ <-? asserted noAssert (checkOffset offset 2 (b_len this)); Ok (Some (bor (shl (at_ 0) 8) (at_ 1))).

Definition readUInt32LE (this : buffer) (offset : Z) (noAssert : bool) (st : store) : res (option Z) :=
  let at_ i := bits (get st this (offset + i)) in
  _ <-? asserted noAssert (checkOffset offset 4 (b_len this));
  Ok (add_mul (Some (bor (bor (at_ 0) (shl (at_ 1) 8)) (shl (at_ 2) 16))) (get st this (offset + 3)) 16777216).

Definition readUInt32BE (this : buffer) (offset : Z) (noAssert : bool) (st : store) : res (option Z) :=
  let at_ i := bits (get st this (offset + i)) in
  _ <-? asserted noAssert (checkOffset offset 4 (b_len this));
  Ok (plus (add_mul (Some 0) (get st this offset) 16777216) (Some (bor (bor (shl (at_ 1) 16) (shl (at_ 2) 8)) (at_ 3)))).

Definition readInt8 (this : buffer) (offset : Z) (noAssert : bool) (st : store) : res (option Z) :=
  _ <-? asserted noAssert (checkOffset offset 1 (b_len this));
  let x := get st this offset in
  Ok (if band (bits x) 128 =? 0 then x else option_map (fun x => (255 - x + 1) * -1) x).

(** [(val & 0x8000) ? val | 0xFFFF0000 : val] *)
Definition sign16 (val : Z) : Z := if band val 32768 =? 0 then val else bor val 4294901760.

Definition readInt16LE (this : buffer) (offset : Z) (noAssert : bool) (st : store) : res (option Z) :=
  let at_ i := bits (get st this (offset + i)) in
  _ <-? asserted noAssert (checkOffset offset 2 (b_len this)); Ok (Some (sign16 (bor (at_ 0) (shl (at_ 1) 8)))).

Definition readInt16BE (this : buffer) (offset : Z) (noAssert : bool) (st : store) : res (option Z) :=
  let at_ i := bits (get st this (offset + i)) in
  _ <-? asserted noAssert (checkOffset offset 2 (b_len this)); Ok (Some (sign16 (bor (at_ 1) (shl (at_ 0) 8)))).

Definition readInt32LE (this : buffer) (offset : Z) (noAssert : bool) (st : store) : res (option Z) :=
  let at_ i := bits (get st this (offset + i)) in
  _ <-? asserted noAssert (checkOffset offset 4 (b_len this));
  Ok (Some (bor (bor (bor (at_ 0) (shl (at_ 1) 8)) (shl (at_ 2) 16)) (shl (at_ 3) 24))).

Definition readInt32BE (this : buffer) (offset : Z) (noAssert : bool) (st : store) : res (option Z) :=
  let at_ i := bits (get st this (offset + i)) in
  _ <-? asserted noAssert (checkOffset offset 4 (b_len this));
  Ok (Some (bor (bor (bor (shl (at_ 0) 24) (shl (at_ 1) 16)) (shl (at_ 2) 8)) (at_ 3))).

(** ** Writing *)

Definition checkInt (buf : buffer) (value offset ext max min : Z) : res unit :=
  if (max <? value) || (value <? min) then Err RangeError
  else if b_len buf <? offset + ext then Err RangeError else Ok tt.

(** Quotients of greater values would be rounded. *)
Definition exact_value {A} (value : Z) (k : res A) : res A := if 9007199254740992 <? Z.abs value then Err Unsupported else k.

(** [while (++i < byteLength && (mul *= 0x100)) this[offset + i] = (value / mul) & 0xFF] *)
Fixpoint write_le (fuel : nat) (this : buffer) (value offset byteLength i mul : Z) (st : store) : store :=
  match fuel with
  | O => st
  | S fuel =>
      let i := i + 1 in
      if i <? byteLength then
        let mul := mul * 256 in
        write_le fuel this value offset byteLength i mul (put this (offset + i) (band (Z.quot value mul) 255) st)
      else st
  end.

(** [while (--i >= 0 && (mul *= 0x100)) this[offset + i] = (value / mul) & 0xFF] *)
Fixpoint write_be (fuel : nat) (this : buffer) (value offset i mul : Z) (st : store) : store :=
  match fuel with
  | O => st
  | S fuel =>
      let i := i - 1 in
      if 0 <=? i then
        let mul := mul * 256 in
        write_be fuel this value offset i mul (put this (offset + i) (band (Z.quot value mul) 255) st)
      else st
  end.

Definition writeUIntLE (this : buffer) (value offset byteLength : Z) (noAssert : bool) (st : store) : res (Z * store) :=
  let offset := to_int32 offset in let byteLength := to_int32 byteLength in
  exact byteLength
    (_ <-? asserted noAssert (checkInt this value offset byteLength (2 ^ (8 * byteLength) - 1) 0);
     exact_value value
       (Ok (offset + byteLength,
            write_le (Z.to_nat byteLength) this value offset byteLength 0 1 (put this offset (band value 255) st)))).

Definition writeUIntBE (this : buffer) (value offset byteLength : Z) (noAssert : bool) (st : store) : res (Z * store) :=
  let offset := to_int32 offset in let byteLength := to_int32 byteLength in
  exact byteLength
    (_ <-? asserted noAssert (checkInt this value offset byteLength (2 ^ (8 * byteLength) - 1) 0);
     let i := byteLength - 1 in
     exact_value value
       (Ok (offset + byteLength,
            write_be (Z.to_nat byteLength) this value offset i 1 (put this (offset + i) (band value 255) st)))).

(** The signed ones subtract one from the quotient, which is rounded towards
    zero, as soon as a byte below is not zero. *)
Definition subtract (value sub : Z) (below : option Z) : Z :=
  if (value <? 0) && (sub =? 0) && negb (bool_decide (below = Some 0)) then 1 else sub.

Fixpoint write_int_le (fuel : nat) (this : buffer) (value offset byteLength i mul sub : Z) (st : store) : store :=
  match fuel with
  | O => st
  | S fuel =>
      let i := i + 1 in
      if i <? byteLength then
        let mul := mul * 256 in
        let sub := subtract value sub (get st this (offset + i - 1)) in
        write_int_le fuel this value offset byteLength i mul sub
          (put this (offset + i) (band (shr (Z.quot value mul) 0 - sub) 255) st)
      else st
  end.

Fixpoint write_int_be (fuel : nat) (this : buffer) (value offset i mul sub : Z) (st : store) : store :=
  match fuel with
  | O => st
  | S fuel =>
      let i := i - 1 in
      if 0 <=? i then
        let mul := mul * 256 in
        let sub := subtract value sub (get st this (offset + i + 1)) in
        write_int_be fuel this value offset i mul sub
          (put this (offset + i) (band (shr (Z.quot value mul) 0 - sub) 255) st)
      else st
  end.

Definition writeIntLE (this : buffer) (value offset byteLength : Z) (noAssert : bool) (st : store) : res (Z * store) :=
  let offset := to_int32 offset in let byteLength := to_int32 byteLength in
  exact byteLength
    (let limit := 2 ^ (8 * byteLength - 1) in
     _ <-? asserted noAssert (checkInt this value offset byteLength (limit - 1) (- limit));
     exact_value value
       (Ok (offset + byteLength,
            write_int_le (Z.to_nat byteLength) this value offset byteLength 0 1 0 (put this offset (band value 255) st)))).

Definition writeIntBE (this : buffer) (value offset byteLength : Z) (noAssert : bool) (st : store) : res (Z * store) :=
  let offset := to_int32 offset in let byteLength := to_int32 byteLength in
  exact byteLength
    (let limit := 2 ^ (8 * byteLength - 1) in
     _ <-? asserted noAssert (checkInt this value offset byteLength (limit - 1) (- limit));
     let i := byteLength - 1 in
     exact_value value
       (Ok (offset + byteLength,
            write_int_be (Z.to_nat byteLength) this value offset i 1 0 (put this (offset + i) (band value 255) st)))).

Definition writeUInt8 (this : buffer) (value offset : Z) (noAssert : bool) (st : store) : res (Z * store) :=
  let offset := to_int32 offset in
  _ <-? asserted noAssert (checkInt this value offset 1 255 0);
  Ok (offset + 1, put this offset (band value 255) st).

Definition writeUInt16LE (this : buffer) (value offset : Z) (noAssert : bool) (st : store) : res (Z * store) :=
  let offset := to_int32 offset in
  _ <-? asserted noAssert (checkInt this value offset 2 65535 0);
  Ok (offset + 2, put this (offset + 1) (ushr value 8) (put this offset (band value 255) st)).

Definition writeUInt16BE (this : buffer) (value offset : Z) (noAssert : bool) (st : store) : res (Z * store) :=
  let offset := to_int32 offset in
  _ <-? asserted noAssert (checkInt this value offset 2 65535 0);
  Ok (offset + 2, put this (offset + 1) (band value 255) (put this offset (ushr value 8) st)).

(** The four bytes of the 32-bit methods, in the order in which each method writes them. *)
Definition put_32le (this : buffer) (value offset : Z) (st : store) : store :=
  put this offset (band value 255) (put this (offset + 1) (ushr value 8)
    (put this (offset + 2) (ushr value 16) (put this (offset + 3) (ushr value 24) st))).
Definition put_32be (this : buffer) (value offset : Z) (st : store) : store :=
  put this (offset + 3) (band value 255) (put this (offset + 2) (ushr value 8)
    (put this (offset + 1) (ushr value 16) (put this offset (ushr value 24) st))).

Definition writeUInt32LE (this : buffer) (value offset : Z) (noAssert : bool) (st : store) : res (Z * store) :=
  let offset := to_int32 offset in
  _ <-? asserted noAssert (checkInt this value offset 4 4294967295 0);
  Ok (offset + 4, put_32le this value offset st).

Definition writeUInt32BE (this : buffer) (value offset : Z) (noAssert : bool) (st : store) : res (Z * store) :=
  let offset := to_int32 offset in
  _ <-? asserted noAssert (checkInt this value offset 4 4294967295 0);
  Ok (offset + 4, put_32be this value offset st).

Definition writeInt8 (this : buffer) (value offset : Z) (noAssert : bool) (st : store) : res (Z * store) :=
  let offset := to_int32 offset in
  _ <-? asserted noAssert (checkInt this value offset 1 127 (-128));
  let value := if value <? 0 then 255 + value + 1 else value in
  Ok (offset + 1, put this offset (band value 255) st).

Definition writeInt16LE (this : buffer) (value offset : Z) (noAssert : bool) (st : store) : res (Z * store) :=
  let offset := to_int32 offset in
  _ <-? asserted noAssert (checkInt this value offset 2 32767 (-32768));
  Ok (offset + 2, put this (offset + 1) (ushr value 8) (put this offset (band value 255) st)).

Definition writeInt16BE (this : buffer) (value offset : Z) (noAssert : bool) (st : store) : res (Z * store) :=
  let offset := to_int32 offset in
  _ <-? asserted noAssert (checkInt this value offset 2 32767 (-32768));
  Ok (offset + 2, put this (offset + 1) (band value 255) (put this offset (ushr value 8) st)).

Definition writeInt32LE (this : buffer) (value offset : Z) (noAssert : bool) (st : store) : res (Z * store) :=
  let offset := to_int32 offset in
  _ <-? asserted noAssert (checkInt this value offset 4 2147483647 (-2147483648));
  Ok (offset + 4, put this (offset + 3) (ushr value 24) (put this (offset + 2) (ushr value 16)
                    (put this (offset + 1) (ushr value 8) (put this offset (band value 255) st)))).

Definition writeInt32BE (this : buffer) (value offset : Z) (noAssert : bool) (st : store) : res (Z * store) :=
  let offset := to_int32 offset in
  _ <-? asserted noAssert (checkInt this value offset 4 2147483647 (-2147483648));
  let value := if value <? 0 then 4294967295 + value + 1 else value in
  Ok (offset + 4, put_32be this value offset st).

(** ** The format of integers *)

(** A format: the number of bytes, signed or not, little-endian or not. *)
Record format := Format { f_size : Z; f_signed : bool; f_little : bool }.

#[export] Instance format_eq_dec : EqDecision format.
Proof. solve_decision. Defined.

(** The number that bytes stand for, the least one first, and its bytes. *)
Fixpoint le (l : list Z) : Z := match l with [] => 0 | x :: l => x + 256 * le l end.
Fixpoint le_split (n : nat) (v : Z) : list Z := match n with O => [] | S n => v mod 256 :: le_split n (v / 256) end.

Definition signed (n v : Z) : Z := if 2 ^ (8 * n - 1) <=? v then v - 2 ^ (8 * n) else v.

Definition encode (f : format) (v : Z) : list Z :=
  let l := le_split (Z.to_nat (f_size f)) v in if f_little f then l else rev l.
Definition decode (f : format) (l : list Z) : Z :=
  let v := le (if f_little f then l else rev l) in if f_signed f then signed (f_size f) v else v.

(** The least and the greatest number of a format. *)
Definition lowest (f : format) : Z := if f_signed f then - 2 ^ (8 * f_size f - 1) else 0.
Definition greatest (f : format) : Z := if f_signed f then 2 ^ (8 * f_size f - 1) - 1 else 2 ^ (8 * f_size f) - 1.

(** A pair of methods for a format. *)
Record codec := Codec {
  c_format : format;
  c_read : buffer -> Z -> bool -> store -> res (option Z);
  c_write : buffer -> Z -> Z -> bool -> store -> res (Z * store)
}.

Definition generic (n : Z) : list codec :=
  [Codec (Format n false true) (fun b o => readUIntLE b o n) (fun b v o => writeUIntLE b v o n);
   Codec (Format n false false) (fun b o => readUIntBE b o n) (fun b v o => writeUIntBE b v o n);
   Codec (Format n true true) (fun b o => readIntLE b o n) (fun b v o => writeIntLE b v o n);
   Codec (Format n true false) (fun b o => readIntBE b o n) (fun b v o => writeIntBE b v o n)].

Definition fixed : list codec :=
  [Codec (Format 1 false true) readUInt8 writeUInt8; Codec (Format 1 false false) readUInt8 writeUInt8;
   Codec (Format 2 false true) readUInt16LE writeUInt16LE; Codec (Format 2 false false) readUInt16BE writeUInt16BE;
   Codec (Format 4 false true) readUInt32LE writeUInt32LE; Codec (Format 4 false false) readUInt32BE writeUInt32BE;
   Codec (Format 1 true true) readInt8 writeInt8; Codec (Format 1 true false) readInt8 writeInt8;
   Codec (Format 2 true true) readInt16LE writeInt16LE; Codec (Format 2 true false) readInt16BE writeInt16BE;
   Codec (Format 4 true true) readInt32LE writeInt32LE; Codec (Format 4 true false) readInt32BE writeInt32BE].

(** All methods, the general ones with one to six bytes. *)
Definition codecs : list codec :=
  generic 1 ++ generic 2 ++ generic 3 ++ generic 4 ++ generic 5 ++ generic 6 ++ fixed.

(** ** What the methods promise *)

(** [bytes] are written from [o] on, and nothing else. *)
Definition wrote (b : buffer) (o : Z) (bytes : list Z) (st st' : store) : Prop :=
  forall m p, cell st' m p = if decide (m = b_mem b /\ b_off b + o <= p < b_off b + o + zlen bytes)
                             then zget bytes (p - b_off b - o) else cell st m p.

(** A pair of methods reads and writes its format. *)
Class Lawful (c : codec) : Prop := {
  law_read st b o : inside st b -> byte_store st -> - 2 ^ 31 <= o < 2 ^ 31 ->
    c_read c b o false st
    = if (0 <=? o) && (o + f_size (c_format c) <=? b_len b)
      then Ok (Some (decode (c_format c) (zslice o (o + f_size (c_format c)) (contents st b)))) else Err RangeError;
  law_write st b o v : inside st b -> 0 <= o -> o + f_size (c_format c) <= b_len b -> o < 2 ^ 31 ->
    lowest (c_format c) <= v <= greatest (c_format c) ->
    exists st', c_write c b v o false st = Ok (o + f_size (c_format c), st') /\ stable st st' /\
      wrote b o (encode (c_format c) v) st st';
  law_refuse st b o v : - 2 ^ 31 <= o < 2 ^ 31 ->
    v < lowest (c_format c) \/ greatest (c_format c) < v \/ b_len b < o + f_size (c_format c) ->
    c_write c b v o false st = Err RangeError
}.

(** * Properties *)

(** ** Numbers and their bytes *)

Lemma le_app l k : le (l ++ k) = le l + 256 ^ zlen l * le k.
Proof.
  induction l as [|x l IH]; cbn [app le]; [change (zlen (@nil Z)) with 0; lia|].
  rewrite IH, zlen_cons, Z.pow_add_r by (lia || apply zlen_nonneg). lia.
Qed.

Lemma le_range l : Forall is_byte l -> 0 <= le l < 256 ^ zlen l.
Proof.
  induction l as [|x l IH]; cbn [le]; [change (zlen (@nil Z)) with 0; lia|]. intros [Hx Hl]%Forall_cons_iff.
  specialize (IH Hl). rewrite zlen_cons, Z.pow_add_r by (lia || apply zlen_nonneg). unfold is_byte in Hx. lia.
Qed.

Lemma length_le_split n : forall v, length (le_split n v) = n.
Proof. induction n as [|n IH]; intros v; cbn; [done | by rewrite IH]. Qed.

Lemma zlen_le_split n v : zlen (le_split n v) = Z.of_nat n.
Proof. unfold zlen. by rewrite length_le_split. Qed.

Lemma le_le_split n : forall v, le (le_split n v) = v mod 256 ^ Z.of_nat n.
Proof.
  induction n as [|n IH]; intros v; cbn [le_split le]; [by rewrite Z.mod_1_r|].
  rewrite IH, Nat2Z.inj_succ, Z.pow_succ_r, Z.rem_mul_r by lia. done.
Qed.

Lemma pow256 n : 0 <= n -> 256 ^ n = 2 ^ (8 * n).
Proof. intros Hn. rewrite Z.pow_mul_r by lia. done. Qed.

(** Writing and reading a number of a format gives the number. *)
Lemma decode_encode f v : 1 <= f_size f -> lowest f <= v <= greatest f -> decode f (encode f v) = v.
Proof.
  intros Hn Hv. unfold decode, encode. destruct f as [n sg lt]. cbn [f_size f_signed f_little] in *.
  assert (E : le (if lt then (if lt then le_split (Z.to_nat n) v else rev (le_split (Z.to_nat n) v))
                  else rev (if lt then le_split (Z.to_nat n) v else rev (le_split (Z.to_nat n) v))) = v mod 2 ^ (8 * n)).
  { transitivity (v mod 256 ^ Z.of_nat (Z.to_nat n)); [|by rewrite Z2Nat.id, pow256 by lia].
    rewrite <- le_le_split. destruct lt; [done | by rewrite rev_involutive]. }
  rewrite E. unfold lowest, greatest in Hv. cbn [f_signed f_size] in Hv. destruct sg; [|apply Z.mod_small; lia].
  assert (H2 : 2 ^ (8 * n) = 2 * 2 ^ (8 * n - 1)) by (rewrite <- Z.pow_succ_r by lia; f_equal; lia).
  unfold signed. destruct (decide (0 <= v)).
  - rewrite Z.mod_small by lia. destruct (Z.leb_spec (2 ^ (8 * n - 1)) v); lia.
  - replace (v mod 2 ^ (8 * n)) with (v + 2 ^ (8 * n)) by (apply Z.mod_unique with (-1); lia).
    destruct (Z.leb_spec (2 ^ (8 * n - 1)) (v + 2 ^ (8 * n))); lia.
Qed.

(** ** The general methods read *)

Section Read.
Context (st : store) (b : buffer) (Hin : inside st b) (Hby : byte_store st).
Let C := contents st b.

Lemma get_C i : get st b i = zget C i.
Proof. symmetry. by apply get_contents. Qed.

Lemma zlen_C : zlen C = b_len b.
Proof. by apply zlen_contents. Qed.

Lemma C_get i : 0 <= i < b_len b -> exists x, zget C i = Some x /\ is_byte x.
Proof.
  intros Hi. destruct (zget_lt C i) as (x & Hx); [by rewrite zlen_C|]. exists x. split; [done|].
  rewrite <- get_C, get_cell in Hx by done. by eapply cell_byte.
Qed.

Lemma slice_snoc o i x : 0 <= o -> 0 < i -> zget C (o + i - 1) = Some x -> zslice o (o + i) C = zslice o (o + i - 1) C ++ [x].
Proof.
  intros Ho Hi Hx. rewrite <- (zslice_app C o (o + i - 1) (o + i)) by lia. f_equal.
  rewrite (zslice_cons C (o + i - 1) (o + i) x) by (done || lia). f_equal. apply zslice_empty. lia.
Qed.

Lemma read_le_ok o n : 0 <= o -> o + n <= b_len b -> forall fuel i mul v, 0 <= i < n -> n - i <= Z.of_nat fuel ->
  read_le fuel st b o n i mul (Some v)
  = (Some (v + mul * 256 * le (zslice (o + i + 1) (o + n) C)), mul * 256 ^ (n - 1 - i)).
Proof.
  intros Ho Hn. induction fuel as [|fuel IH]; intros i mul v Hi Hf; [lia|]. cbn [read_le].
  destruct (Z.ltb_spec (i + 1) n).
  - destruct (C_get (o + (i + 1))) as (x & Hx & _); [lia|]. rewrite get_C, Hx. cbn [add_mul].
    rewrite IH by lia. replace (o + i + 1) with (o + (i + 1)) by lia. rewrite (zslice_cons C (o + (i + 1)) (o + n) x) by (done || lia). cbn [le].
    f_equal; [f_equal; lia|]. replace (n - 1 - i) with (1 + (n - 1 - (i + 1))) by lia. rewrite Z.pow_add_r by lia. lia.
  - replace (n - 1 - i) with 0 by lia. rewrite zslice_empty by lia. cbn [le]. f_equal; [f_equal|]; lia.
Qed.

Lemma read_be_ok o : 0 <= o -> forall fuel i mul v, 0 <= i -> o + i <= b_len b -> i <= Z.of_nat fuel ->
  read_be fuel st b o i mul (Some v) = (Some (v + mul * 256 * le (rev (zslice o (o + i) C))), mul * 256 ^ i).
Proof.
  intros Ho. induction fuel as [|fuel IH]; intros i mul v Hi Hl Hf; cbn [read_be].
  - replace i with 0 by lia. rewrite zslice_empty by lia. cbn [rev le]. f_equal; [f_equal|]; lia.
  - destruct (Z.ltb_spec 0 i).
    + destruct (C_get (o + (i - 1))) as (x & Hx & _); [lia|]. rewrite get_C, Hx. cbn [add_mul].
      rewrite IH by lia. rewrite (slice_snoc o i x) by (done || lia || (rewrite <- Hx; f_equal; lia)).
      rewrite rev_app_distr. cbn [rev app le]. replace (o + (i - 1)) with (o + i - 1) by lia.
      f_equal; [f_equal; lia|]. replace i with (1 + (i - 1)) at 2 by lia. rewrite Z.pow_add_r by lia. lia.
    + replace i with 0 by lia. rewrite zslice_empty by lia. cbn [rev le]. f_equal; [f_equal|]; lia.
Qed.

(** What the four loops return. *)
Lemma read_le_all o n : 0 <= o -> 1 <= n -> o + n <= b_len b ->
  read_le (Z.to_nat n) st b o n 0 1 (get st b o) = (Some (le (zslice o (o + n) C)), 256 ^ (n - 1)).
Proof.
  intros Ho Hn Hl. destruct (C_get o) as (x & Hx & _); [lia|]. rewrite get_C, Hx.
  rewrite read_le_ok by lia. rewrite (zslice_cons C o (o + n) x) by (done || lia). cbn [le].
  f_equal; [f_equal; replace (o + 0 + 1) with (o + 1) by lia; lia|]. rewrite Z.mul_1_l. f_equal. lia.
Qed.

Lemma read_be_all o n : 0 <= o -> 1 <= n -> o + n <= b_len b ->
  read_be (Z.to_nat (n - 1)) st b o (n - 1) 1 (get st b (o + (n - 1))) = (Some (le (rev (zslice o (o + n) C))), 256 ^ (n - 1)).
Proof.
  intros Ho Hn Hl. destruct (C_get (o + (n - 1))) as (x & Hx & _); [lia|]. rewrite get_C, Hx.
  rewrite read_be_ok by lia. rewrite (slice_snoc o n x) by (done || lia || (rewrite <- Hx; f_equal; lia)).
  rewrite rev_app_distr. cbn [rev app le]. replace (o + (n - 1)) with (o + n - 1) by lia.
  by rewrite !Z.mul_1_l.
Qed.

Lemma to_signed_ok n v : 1 <= n -> to_signed n (Some v, 256 ^ (n - 1)) = Some (signed n v).
Proof.
  intros Hn. unfold to_signed, signed. cbn [fst snd option_map].
  replace (256 ^ (n - 1) * 128) with (2 ^ (8 * n - 1)); [done|].
  rewrite pow256 by lia. change 128 with (2 ^ 7). rewrite <- Z.pow_add_r by lia. f_equal. lia.
Qed.

Lemma checkOffset_ok o n len : checkOffset o n len = if (0 <=? o) && (o + n <=? len) then Ok tt else Err RangeError.
Proof.
  unfold checkOffset. destruct (Z.ltb_spec o 0), (Z.leb_spec 0 o); try lia; [done|]. cbn [andb].
  destruct (Z.ltb_spec len (o + n)), (Z.leb_spec (o + n) len); (lia || done).
Qed.

(** The bytes of a short range. *)
Lemma slice_bytes o n : 0 <= o -> 1 <= n -> o + n <= b_len b ->
  exists x, get st b o = Some x /\ is_byte x /\ zslice o (o + n) C = x :: zslice (o + 1) (o + n) C.
Proof.
  intros Ho Hn Hl. destruct (C_get o) as (x & Hx & Hb); [lia|]. exists x. rewrite get_C. split; [done|]. split; [done|].
  apply zslice_cons; [lia | done].
Qed.
End Read.

(** ** The methods of fixed width read *)

(** Bits above others, with a sign. *)
Lemma bor_above x y n : 0 <= n -> 0 <= y < 2 ^ n -> - 2 ^ 31 <= x * 2 ^ n -> x * 2 ^ n + y < 2 ^ 31 -> bor (x * 2 ^ n) y = x * 2 ^ n + y.
Proof.
  intros Hn Hy Hl Hu. assert (y < 2 ^ 31) by (destruct (decide (0 <= x)); nia).
  unfold bor. rewrite !to_int32_small by nia. by apply lor_disjoint.
Qed.

Lemma shl_byte d n : is_byte d -> n = 8 \/ n = 16 -> shl d n = d * 2 ^ n.
Proof. intros Hd Hn. unfold is_byte in Hd. apply shl_small; destruct Hn as [-> | ->]; lia. Qed.

Lemma shl_byte_24 d : is_byte d -> shl d 24 = signed 1 d * 2 ^ 24.
Proof.
  intros Hd. unfold is_byte in Hd. unfold shl. rewrite (to_int32_small d) by lia. change (24 mod 32) with 24.
  rewrite Z.shiftl_mul_pow2 by lia. unfold signed. change (2 ^ (8 * 1 - 1)) with 128. change (2 ^ (8 * 1)) with 256.
  destruct (Z.leb_spec 128 d); [|by rewrite to_int32_small by lia].
  unfold to_int32. cbv zeta. rewrite Z.mod_small by lia. destruct (Z.ltb_spec (d * 2 ^ 24) (2 ^ 31)); lia.
Qed.

Lemma bor_low y x n : 0 <= n -> 0 <= y < 2 ^ n -> - 2 ^ 31 <= x * 2 ^ n -> x * 2 ^ n + y < 2 ^ 31 -> bor y (x * 2 ^ n) = y + x * 2 ^ n.
Proof. intros. rewrite bor_comm, bor_above by done. lia. Qed.

(** The bytes of two and of four positions as one number. *)
Lemma join2 a b : is_byte a -> is_byte b -> bor a (shl b 8) = a + 256 * b.
Proof. intros Ha Hb. rewrite shl_byte by tauto. unfold is_byte in *. rewrite bor_low by lia. lia. Qed.

Lemma join3 a b c : is_byte a -> is_byte b -> is_byte c -> bor (bor a (shl b 8)) (shl c 16) = a + 256 * (b + 256 * c).
Proof.
  intros Ha Hb Hc. rewrite join2 by done. rewrite shl_byte by tauto. unfold is_byte in *. rewrite bor_low by lia. lia.
Qed.

Lemma join3_be c b a : is_byte a -> is_byte b -> is_byte c ->
  bor (bor (shl c 16) (shl b 8)) a = a + 256 * (b + 256 * c).
Proof.
  intros Ha Hb Hc. rewrite !shl_byte by tauto. unfold is_byte in *. rewrite bor_above by lia.
  replace (c * 2 ^ 16 + b * 2 ^ 8) with ((c * 256 + b) * 2 ^ 8) by lia. rewrite bor_above by lia. lia.
Qed.

Lemma signed_top x d k : 0 <= x < 2 ^ (8 * k) -> 0 <= k -> is_byte d -> x + 2 ^ (8 * k) * signed 1 d = signed (k + 1) (x + 2 ^ (8 * k) * d).
Proof.
  intros Hx Hk Hd. unfold signed, is_byte in *. change (2 ^ (8 * 1 - 1)) with 128. change (2 ^ (8 * 1)) with 256.
  replace (8 * (k + 1) - 1) with (8 * k + 7) by lia. replace (8 * (k + 1)) with (8 * k + 8) by lia.
  rewrite !Z.pow_add_r by lia. change (2 ^ 7) with 128. change (2 ^ 8) with 256.
  destruct (Z.leb_spec 128 d), (Z.leb_spec (2 ^ (8 * k) * 128) (x + 2 ^ (8 * k) * d)); nia.
Qed.

Lemma join4 a b c d : is_byte a -> is_byte b -> is_byte c -> is_byte d ->
  bor (bor (bor a (shl b 8)) (shl c 16)) (shl d 24) = signed 4 (a + 256 * (b + 256 * (c + 256 * d))).
Proof.
  intros Ha Hb Hc Hd. rewrite join3, shl_byte_24 by done.
  assert (Hs : -128 <= signed 1 d < 128).
  { unfold signed, is_byte in *. change (2 ^ (8 * 1 - 1)) with 128. change (2 ^ (8 * 1)) with 256. destruct (Z.leb_spec 128 d); lia. }
  unfold is_byte in Ha, Hb, Hc. rewrite bor_low by lia. rewrite (Z.mul_comm (signed 1 d)).
  change (2 ^ 24) with (2 ^ (8 * 3)). rewrite signed_top by (done || lia). cbn [Z.add Pos.add]. f_equal. lia.
Qed.

Lemma join4_be d c b a : is_byte a -> is_byte b -> is_byte c -> is_byte d ->
  bor (bor (bor (shl d 24) (shl c 16)) (shl b 8)) a = signed 4 (a + 256 * (b + 256 * (c + 256 * d))).
Proof.
  intros Ha Hb Hc Hd. rewrite <- join4 by done. rewrite shl_byte_24 by done. rewrite !shl_byte by tauto.
  assert (Hs : -128 <= signed 1 d < 128).
  { unfold signed, is_byte in *. change (2 ^ (8 * 1 - 1)) with 128. change (2 ^ (8 * 1)) with 256. destruct (Z.leb_spec 128 d); lia. }
  unfold is_byte in Ha, Hb, Hc. rewrite (bor_above _ (c * 2 ^ 16)) by lia.
  replace (signed 1 d * 2 ^ 24 + c * 2 ^ 16) with ((signed 1 d * 256 + c) * 2 ^ 16) by lia. rewrite (bor_above _ (b * 2 ^ 8)) by lia.
  replace ((signed 1 d * 256 + c) * 2 ^ 16 + b * 2 ^ 8) with (((signed 1 d * 256 + c) * 256 + b) * 2 ^ 8) by lia.
  rewrite bor_above by lia. rewrite (bor_low a) by lia. rewrite (bor_low _ c) by lia. rewrite bor_low by lia. lia.
Qed.

(** The sign of two bytes, for each of their values. *)
Lemma sign16_ok v : 0 <= v < 65536 -> sign16 v = signed 2 v.
Proof.
  assert (H : forallb (fun h => forallb (fun l => sign16 (256 * h + l) =? signed 2 (256 * h + l)) (seqZ 0 256)) (seqZ 0 256) = true)
    by (vm_compute; reflexivity).
  intros Hv. rewrite forallb_forall in H. specialize (H (v / 256)). rewrite forallb_forall in H.
  specialize (H ltac:(apply list_elem_of_In, elem_of_seqZ; divmod) (v mod 256) ltac:(apply list_elem_of_In, elem_of_seqZ; divmod)).
  rewrite <- Z.div_mod in H by lia. by apply Z.eqb_eq.
Qed.

(** ** Writes *)

Lemma wrote_put b i x st : inside st b -> 0 <= i < b_len b -> wrote b i [x mod 256] st (put b i x st).
Proof.
  intros Hb Hi m p. rewrite cell_put by done. change (zlen [x mod 256]) with 1.
  destruct (decide (_ /\ m = b_mem b /\ _)) as [(_ & -> & ->)|Hn].
  - rewrite decide_True by lia. by replace (b_off b + i - b_off b - i) with 0 by lia.
  - rewrite decide_False; [done|]. intros [-> Hp]. apply Hn. split; [done|]. split; [done | lia].
Qed.

Lemma wrote_mod b i x st : inside st b -> 0 <= i < b_len b -> wrote b i [x mod 256] st (put b i (x mod 256) st).
Proof. intros Hb Hi. pose proof (wrote_put b i (x mod 256) st Hb Hi) as H. by rewrite Zmod_mod in H. Qed.

Lemma wrote_nil b o st : wrote b o [] st st.
Proof. intros m p. rewrite decide_False; [done|]. change (zlen (@nil Z)) with 0. lia. Qed.

(** The second write follows the first, or precedes it in the memory. *)
Lemma wrote_app b o l1 l2 st st1 st2 : wrote b o l1 st st1 -> wrote b (o + zlen l1) l2 st1 st2 -> wrote b o (l1 ++ l2) st st2.
Proof.
  intros H1 H2 m p. rewrite H2, H1, zlen_app. pose proof (zlen_nonneg l1). pose proof (zlen_nonneg l2).
  destruct (decide (m = b_mem b /\ b_off b + (o + zlen l1) <= p < _)) as [[-> Hp]|Hn].
  - rewrite decide_True by lia. rewrite zget_app_r by lia. f_equal. lia.
  - destruct (decide (m = b_mem b /\ b_off b + o <= p < b_off b + o + zlen l1)) as [[-> Hp]|Hn2].
    + rewrite decide_True by lia. by rewrite zget_app_l by lia.
    + rewrite decide_False; [done|]. intros [-> Hp].
      destruct (decide (p < b_off b + o + zlen l1)); [apply Hn2; split; [done | lia] | apply Hn; split; [done | lia]].
Qed.

Lemma wrote_before b o l1 l2 st st1 st2 : wrote b (o + zlen l1) l2 st st1 -> wrote b o l1 st1 st2 -> wrote b o (l1 ++ l2) st st2.
Proof.
  intros H1 H2 m p. rewrite H2, H1, zlen_app. pose proof (zlen_nonneg l1). pose proof (zlen_nonneg l2).
  destruct (decide (m = b_mem b /\ b_off b + o <= p < b_off b + o + zlen l1)) as [[-> Hp]|Hn].
  - rewrite decide_True by lia. by rewrite zget_app_l by lia.
  - destruct (decide (m = b_mem b /\ b_off b + (o + zlen l1) <= p < _)) as [[-> Hp]|Hn2].
    + rewrite decide_True by lia. rewrite zget_app_r by lia. f_equal. lia.
    + rewrite decide_False; [done|]. intros [-> Hp].
      destruct (decide (p < b_off b + o + zlen l1)); [apply Hn; split; [done | lia] | apply Hn2; split; [done | lia]].
Qed.

(** What is written is read, and a buffer that does not meet it is as before. *)
Lemma wrote_contents b o l st st' :
  same_shape st st' -> inside st b -> 0 <= o -> o + zlen l <= b_len b -> wrote b o l st st' ->
  zslice o (o + zlen l) (contents st' b) = l.
Proof.
  intros Hs Hb Ho Hl Hw. assert (Hb' : inside st' b) by (by eapply shape_inside). pose proof (zlen_nonneg l).
  apply zget_ext. intros j Hj. rewrite zget_zslice by (rewrite ?zlen_contents by done; lia).
  destruct (decide _).
  - rewrite get_contents, get_cell by (done || lia). rewrite Hw, decide_True by lia. f_equal. lia.
  - symmetry. apply zget_None. lia.
Qed.

Section Write.
Context (b : buffer) (v : Z).

Lemma quot_div m : 0 < m -> Z.quot v m = v / m + (if (v <? 0) && negb (v mod m =? 0) then 1 else 0).
Proof.
  intros Hm. pose proof (Z.mod_pos_bound v m Hm). pose proof (Z.div_mod v m ltac:(lia)).
  destruct (Z.ltb_spec v 0); cbn [andb]; [|rewrite Z.quot_div_nonneg by lia; lia].
  rewrite <- (Z.opp_involutive v) at 1. rewrite Z.quot_opp_l, Z.quot_div_nonneg by lia.
  destruct (Z.eqb_spec (v mod m) 0) as [E|E]; cbn [negb].
  - rewrite Z.div_opp_l_z by lia. lia.
  - rewrite Z.div_opp_l_nz by lia. lia.
Qed.

(** The state of a signed write: whether the bytes so far are not all zero. *)
Definition borrow (m : Z) : Z := if (v <? 0) && negb (v mod m =? 0) then 1 else 0.

Lemma borrow_step m x : 0 < m -> x = (v / m) mod 256 -> subtract v (borrow m) (Some x) = borrow (m * 256).
Proof.
  intros Hm ->. unfold subtract, borrow. destruct (v <? 0) eqn:Ev; cbn [andb]; [|done].
  rewrite Z.rem_mul_r by lia. pose proof (Z.mod_pos_bound v m Hm). pose proof (Z.mod_pos_bound (v / m) 256 ltac:(lia)).
  destruct (Z.eqb_spec (v mod m) 0) as [E|E]; cbn [negb Z.eqb].
  - case_bool_decide as E2; cbn [negb].
    + injection E2 as E2. by rewrite (proj2 (Z.eqb_eq _ 0)) by nia.
    + rewrite (proj2 (Z.eqb_neq _ 0)); [done|]. intros E3. apply E2. f_equal. nia.
  - rewrite (proj2 (Z.eqb_neq _ 0)) by nia. done.
Qed.

Lemma byte_of_quot m : 0 < m -> band (shr (Z.quot v m) 0 - borrow m) 255 = (v / m) mod 256.
Proof.
  intros Hm. rewrite band_255. unfold shr. change (0 mod 32) with 0. rewrite Z.shiftr_0_r.
  rewrite Zminus_mod. replace (to_int32 (Z.quot v m) mod 256) with (Z.quot v m mod 256).
  - rewrite <- Zminus_mod, quot_div by done. f_equal. unfold borrow. lia.
  - symmetry. apply (to_int32_mod _ 8). lia.
Qed.

Lemma byte_of_quot_unsigned m : 0 <= v -> 0 < m -> band (Z.quot v m) 255 = (v / m) mod 256.
Proof. intros Hv Hm. rewrite band_255. by rewrite Z.quot_div_nonneg by lia. Qed.

Lemma le_split_tail k m : 0 < m -> le_split (S k) (v / m) = (v / m) mod 256 :: le_split k (v / (m * 256)).
Proof. intros Hm. cbn [le_split]. by rewrite Z.div_div by lia. Qed.

Lemma write_le_ok o n : 0 <= v -> 0 <= o -> o + n <= b_len b -> forall fuel i m st, 0 <= i < n -> 0 < m -> n - i <= Z.of_nat fuel -> inside st b ->
  wrote b (o + (i + 1)) (le_split (Z.to_nat (n - 1 - i)) (v / (m * 256))) st (write_le fuel b v o n i m st).
Proof.
  intros Hv Ho Hn. induction fuel as [|fuel IH]; intros i m st Hi Hm Hf Hin; [lia|]. cbn [write_le].
  destruct (Z.ltb_spec (i + 1) n).
  - replace (Z.to_nat (n - 1 - i)) with (S (Z.to_nat (n - 1 - (i + 1)))) by lia. rewrite le_split_tail by lia.
    rewrite byte_of_quot_unsigned by lia. apply (wrote_app b _ [(v / (m * 256)) mod 256]) with (put b (o + (i + 1)) ((v / (m * 256)) mod 256) st).
    + apply wrote_mod; [done | lia].
    + change (zlen [_]) with 1. rewrite <- Z.add_assoc. apply IH; [lia | lia | lia |]. eapply shape_inside; [apply put_shape | done].
  - replace (Z.to_nat (n - 1 - i)) with O by lia. apply wrote_nil.
Qed.

Lemma write_be_ok o : 0 <= v -> 0 <= o -> forall fuel i m st, 0 <= i -> o + i <= b_len b -> 0 < m -> i < Z.of_nat fuel -> inside st b ->
  wrote b o (rev (le_split (Z.to_nat i) (v / (m * 256)))) st (write_be fuel b v o i m st).
Proof.
  intros Hv Ho. induction fuel as [|fuel IH]; intros i m st Hi Hl Hm Hf Hin; [lia|]. cbn [write_be].
  destruct (Z.leb_spec 0 (i - 1)).
  - replace (Z.to_nat i) with (S (Z.to_nat (i - 1))) by lia. rewrite le_split_tail by lia. cbn [rev].
    rewrite byte_of_quot_unsigned by lia. eapply wrote_before; [|apply IH; [lia | lia | lia | lia |]].
    + assert (Hz : zlen (rev (le_split (Z.to_nat (i - 1)) (v / (m * 256 * 256)))) = i - 1).
      { unfold zlen. rewrite length_rev, length_le_split. lia. }
      rewrite Hz. apply wrote_mod; [done | lia].
    + eapply shape_inside; [apply put_shape | done].
  - replace (Z.to_nat i) with O by lia. apply wrote_nil.
Qed.

(** The byte that the signed loops look at. *)
Lemma get_put_same st i x : inside st b -> 0 <= i < b_len b -> get (put b i x st) b i = Some (x mod 256).
Proof.
  intros Hb Hi. rewrite get_cell by done. rewrite cell_put by done. by rewrite decide_True.
Qed.

Lemma write_int_le_ok o n : 0 <= o -> o + n <= b_len b -> forall fuel i m st, 0 <= i < n -> 0 < m -> n - i <= Z.of_nat fuel -> inside st b ->
  get st b (o + i) = Some ((v / m) mod 256) ->
  wrote b (o + (i + 1)) (le_split (Z.to_nat (n - 1 - i)) (v / (m * 256))) st (write_int_le fuel b v o n i m (borrow m) st).
Proof.
  intros Ho Hn. induction fuel as [|fuel IH]; intros i m st Hi Hm Hf Hin Hg; [lia|]. cbn [write_int_le].
  destruct (Z.ltb_spec (i + 1) n).
  - replace (o + (i + 1) - 1) with (o + i) by lia. rewrite Hg, (borrow_step m) by done.
    replace (Z.to_nat (n - 1 - i)) with (S (Z.to_nat (n - 1 - (i + 1)))) by lia. rewrite le_split_tail by lia.
    rewrite byte_of_quot by lia. apply (wrote_app b _ [(v / (m * 256)) mod 256]) with (put b (o + (i + 1)) ((v / (m * 256)) mod 256) st).
    + apply wrote_mod; [done | lia].
    + change (zlen [_]) with 1. rewrite <- Z.add_assoc. apply IH; [lia | lia | lia | |].
      * eapply shape_inside; [apply put_shape | done].
      * rewrite get_put_same by (done || lia). by rewrite Zmod_mod.
  - replace (Z.to_nat (n - 1 - i)) with O by lia. apply wrote_nil.
Qed.

Lemma write_int_be_ok o : 0 <= o -> forall fuel i m st, 0 <= i -> o + i < b_len b -> 0 < m -> i < Z.of_nat fuel -> inside st b ->
  get st b (o + i) = Some ((v / m) mod 256) ->
  wrote b o (rev (le_split (Z.to_nat i) (v / (m * 256)))) st (write_int_be fuel b v o i m (borrow m) st).
Proof.
  intros Ho. induction fuel as [|fuel IH]; intros i m st Hi Hl Hm Hf Hin Hg; [lia|]. cbn [write_int_be].
  destruct (Z.leb_spec 0 (i - 1)).
  - replace (o + (i - 1) + 1) with (o + i) by lia. rewrite Hg, (borrow_step m) by done.
    replace (Z.to_nat i) with (S (Z.to_nat (i - 1))) by lia. rewrite le_split_tail by lia. cbn [rev].
    rewrite byte_of_quot by lia. eapply wrote_before; [|apply IH; [lia | lia | lia | lia | |]].
    + assert (Hz : zlen (rev (le_split (Z.to_nat (i - 1)) (v / (m * 256 * 256)))) = i - 1).
      { unfold zlen. rewrite length_rev, length_le_split. lia. }
      rewrite Hz. apply wrote_mod; [done | lia].
    + eapply shape_inside; [apply put_shape | done].
    + rewrite get_put_same by (done || lia). by rewrite Zmod_mod.
  - replace (Z.to_nat i) with O by lia. apply wrote_nil.
Qed.
End Write.

(** ** The methods follow their formats *)

Lemma write_le_stable fuel b v o n : forall i m st, stable st (write_le fuel b v o n i m st).
Proof.
  induction fuel as [|fuel IH]; intros i m st; cbn [write_le]; [apply stable_refl|].
  destruct (_ <? _); [|apply stable_refl]. eapply stable_trans; [apply put_stable | apply IH].
Qed.

Lemma write_be_stable fuel b v o : forall i m st, stable st (write_be fuel b v o i m st).
Proof.
  induction fuel as [|fuel IH]; intros i m st; cbn [write_be]; [apply stable_refl|].
  destruct (_ <=? _); [|apply stable_refl]. eapply stable_trans; [apply put_stable | apply IH].
Qed.

Lemma write_int_le_stable fuel b v o n : forall i m s st, stable st (write_int_le fuel b v o n i m s st).
Proof.
  induction fuel as [|fuel IH]; intros i m s st; cbn [write_int_le]; [apply stable_refl|].
  destruct (_ <? _); [|apply stable_refl]. eapply stable_trans; [apply put_stable | apply IH].
Qed.

Lemma write_int_be_stable fuel b v o : forall i m s st, stable st (write_int_be fuel b v o i m s st).
Proof.
  induction fuel as [|fuel IH]; intros i m s st; cbn [write_int_be]; [apply stable_refl|].
  destruct (_ <=? _); [|apply stable_refl]. eapply stable_trans; [apply put_stable | apply IH].
Qed.

Lemma checkInt_ok b v o n max min : min <= v <= max -> o + n <= b_len b -> checkInt b v o n max min = Ok tt.
Proof.
  intros Hv Hl. unfold checkInt. rewrite (proj2 (Z.ltb_ge max v)), (proj2 (Z.ltb_ge v min)) by lia. cbn [orb].
  by rewrite (proj2 (Z.ltb_ge (b_len b) (o + n))) by lia.
Qed.

Lemma checkInt_refuse b v o n max min : v < min \/ max < v \/ b_len b < o + n -> checkInt b v o n max min = Err RangeError.
Proof.
  intros H. unfold checkInt. destruct (Z.ltb_spec max v), (Z.ltb_spec v min); try done. cbn [orb].
  by rewrite (proj2 (Z.ltb_lt (b_len b) (o + n))) by lia.
Qed.

Lemma exact_ok {A} n (k : res A) : n <= 6 -> exact n k = k.
Proof. intros Hn. unfold exact. by rewrite (proj2 (Z.ltb_ge 6 n)) by lia. Qed.

Lemma exact_value_ok {A} v (k : res A) : - 2 ^ 48 <= v < 2 ^ 48 -> exact_value v k = k.
Proof. intros Hv. unfold exact_value. by rewrite (proj2 (Z.ltb_ge 9007199254740992 (Z.abs v))) by lia. Qed.

Lemma format_range f v : 1 <= f_size f <= 6 -> lowest f <= v <= greatest f -> - 2 ^ 48 <= v < 2 ^ 48.
Proof.
  intros Hn Hv. assert (2 ^ (8 * f_size f) <= 2 ^ 48) by (apply Z.pow_le_mono_r; lia).
  assert (2 ^ (8 * f_size f - 1) <= 2 ^ 48) by (apply Z.pow_le_mono_r; lia).
  unfold lowest, greatest in Hv. destruct (f_signed f); lia.
Qed.

(** The bytes of a number, the first one apart. *)
Lemma le_split_first n v : 1 <= n -> le_split (Z.to_nat n) v = [v mod 256] ++ le_split (Z.to_nat (n - 1 - 0)) (v / (1 * 256)).
Proof. intros Hn. replace (Z.to_nat n) with (S (Z.to_nat (n - 1 - 0))) by lia. done. Qed.

Lemma le_split_last n v : 1 <= n -> rev (le_split (Z.to_nat n) v) = rev (le_split (Z.to_nat (n - 1)) (v / (1 * 256))) ++ [v mod 256].
Proof. intros Hn. replace (Z.to_nat n) with (S (Z.to_nat (n - 1))) by lia. done. Qed.

Lemma zlen_rev_split n v : 1 <= n -> zlen (rev (le_split (Z.to_nat (n - 1)) v)) = n - 1.
Proof. intros Hn. unfold zlen. rewrite length_rev, length_le_split. lia. Qed.

Section Generic.
Context (n : Z) (Hn : 1 <= n <= 6).

Lemma small_n : to_int32 n = n.
Proof. apply to_int32_small. lia. Qed.

Ltac read_law lemma :=
  intros st b o Hin Hby Ho; cbn [c_read c_format f_size f_signed f_little decode];
  unfold readUIntLE, readUIntBE, readIntLE, readIntBE; rewrite small_n, (to_int32_small o) by lia;
  cbv zeta; cbn [asserted]; rewrite checkOffset_ok; destruct (_ && _) eqn:E; [|done]; cbn [res_bind];
  rewrite exact_ok by lia; apply andb_true_iff in E as [E1 E2]; breflect;
  unfold decode; cbn [f_size f_signed f_little]; by rewrite lemma, ?to_signed_ok by (done || lia).

Ltac refuse_law :=
  intros st b o v Ho Hv; cbn [c_write c_format f_size] in *; unfold writeUIntLE, writeUIntBE, writeIntLE, writeIntBE;
  rewrite small_n, (to_int32_small o) by lia; cbv zeta; rewrite exact_ok by lia; cbn [asserted];
  rewrite checkInt_refuse; [done|]; unfold lowest, greatest in Hv; cbn [f_signed f_size] in Hv; lia.

Ltac start_write :=
  intros st b o v Hin Ho Hl Hb Hv; cbn [c_write c_format] in *; pose proof (fun H => format_range _ v H Hv) as Hr; specialize (Hr Hn); cbn [f_size f_signed f_little] in *;
  unfold writeUIntLE, writeUIntBE, writeIntLE, writeIntBE, encode; cbn [f_size f_little];
  rewrite small_n, (to_int32_small o) by lia; cbv zeta; rewrite exact_ok by lia; cbn [asserted];
  unfold lowest, greatest in Hv; cbn [f_signed f_size] in Hv; rewrite checkInt_ok by lia; cbn [res_bind];
  rewrite exact_value_ok by done; eexists; split; [done|]; rewrite band_255.

Lemma get_first b o v st : inside st b -> 0 <= o < b_len b -> get (put b o (v mod 256) st) b o = Some ((v / 1) mod 256).
Proof. intros Hin Ho. rewrite get_put_same by done. by rewrite Zmod_mod, Z.div_1_r. Qed.

Lemma borrow_1 v : borrow v 1 = 0.
Proof. unfold borrow. rewrite Z.mod_1_r. by rewrite andb_false_r. Qed.

Lemma uint_le_lawful : Lawful (Codec (Format n false true) (fun b o => readUIntLE b o n) (fun b v o => writeUIntLE b v o n)).
Proof.
  split; [read_law read_le_all | | refuse_law].
  start_write. split; [eapply stable_trans; [apply put_stable | apply write_le_stable]|].
  rewrite le_split_first by lia. eapply wrote_app; [apply wrote_mod; [done | lia]|]. change (zlen [_]) with 1.
  apply (write_le_ok b v o n); [lia.. | eapply shape_inside; [apply put_shape | done]].
Qed.

Lemma uint_be_lawful : Lawful (Codec (Format n false false) (fun b o => readUIntBE b o n) (fun b v o => writeUIntBE b v o n)).
Proof.
  split; [| |refuse_law].
  - intros st b o Hin Hby Ho. cbn [c_read c_format f_size]. unfold readUIntBE. rewrite small_n, (to_int32_small o) by lia.
    cbv zeta. cbn [asserted]. rewrite checkOffset_ok. destruct (_ && _) eqn:E; [|done]. cbn [res_bind].
    rewrite exact_ok by lia. apply andb_true_iff in E as [E1 E2]. breflect. by rewrite read_be_all by (done || lia).
  - start_write. split; [eapply stable_trans; [apply put_stable | apply write_be_stable]|].
    rewrite le_split_last by lia. eapply wrote_before; [rewrite zlen_rev_split by lia; apply wrote_mod; [done | lia]|].
    apply (write_be_ok b v o); [lia.. | eapply shape_inside; [apply put_shape | done]].
Qed.

Lemma int_le_lawful : Lawful (Codec (Format n true true) (fun b o => readIntLE b o n) (fun b v o => writeIntLE b v o n)).
Proof.
  split; [read_law read_le_all | | refuse_law].
  start_write. split; [eapply stable_trans; [apply put_stable | apply write_int_le_stable]|].
  rewrite le_split_first by lia. eapply wrote_app; [apply wrote_mod; [done | lia]|]. change (zlen [_]) with 1.
  pose proof (write_int_le_ok b v o n Ho Hl (Z.to_nat n) 0 1 (put b o (v mod 256) st)) as H. rewrite borrow_1 in H.
  apply H; [lia.. | eapply shape_inside; [apply put_shape | done] |]. rewrite Z.add_0_r. apply get_first; [done | lia].
Qed.

Lemma int_be_lawful : Lawful (Codec (Format n true false) (fun b o => readIntBE b o n) (fun b v o => writeIntBE b v o n)).
Proof.
  split; [read_law read_be_all | | refuse_law].
  start_write. split; [eapply stable_trans; [apply put_stable | apply write_int_be_stable]|].
  rewrite le_split_last by lia. eapply wrote_before; [rewrite zlen_rev_split by lia; apply wrote_mod; [done | lia]|].
  pose proof (write_int_be_ok b v o Ho (Z.to_nat n) (n - 1) 1 (put b (o + (n - 1)) (v mod 256) st)) as H. rewrite borrow_1 in H.
  apply H; [lia.. | eapply shape_inside; [apply put_shape | done] |]. apply get_first; [done | lia].
Qed.

Lemma generic_lawful : Forall Lawful (generic n).
Proof.
  repeat apply Forall_cons_2; [apply uint_le_lawful | apply uint_be_lawful | apply int_le_lawful | apply int_be_lawful | apply Forall_nil_2].
Qed.
End Generic.

(** ** The methods of fixed width follow their formats *)

Section Fixed.
Context (b : buffer).

Lemma puts2 o x0 x1 st : inside st b -> 0 <= o -> o + 2 <= b_len b ->
  wrote b o [x0 mod 256; x1 mod 256] st (put b (o + 1) x1 (put b o x0 st)).
Proof.
  intros Hin Ho Hl. apply (wrote_app b o [x0 mod 256] [x1 mod 256]) with (put b o x0 st); apply wrote_put; try done; try lia.
  eapply shape_inside; [apply put_shape | done].
Qed.

Lemma puts4_up o x0 x1 x2 x3 st : inside st b -> 0 <= o -> o + 4 <= b_len b ->
  wrote b o [x0 mod 256; x1 mod 256; x2 mod 256; x3 mod 256] st
    (put b (o + 3) x3 (put b (o + 2) x2 (put b (o + 1) x1 (put b o x0 st)))).
Proof.
  intros Hin Ho Hl. apply (wrote_app b o [x0 mod 256; x1 mod 256] [x2 mod 256; x3 mod 256]) with (put b (o + 1) x1 (put b o x0 st)).
  - apply puts2; [done | lia | lia].
  - change (zlen [_; _]) with 2. replace (o + 3) with (o + 2 + 1) by lia. apply puts2; [|lia | lia].
    do 2 (eapply shape_inside; [apply put_shape|]). done.
Qed.

Lemma puts4_down o x0 x1 x2 x3 st : inside st b -> 0 <= o -> o + 4 <= b_len b ->
  wrote b o [x0 mod 256; x1 mod 256; x2 mod 256; x3 mod 256] st
    (put b o x0 (put b (o + 1) x1 (put b (o + 2) x2 (put b (o + 3) x3 st)))).
Proof.
  intros Hin Ho Hl. set (s3 := put b (o + 3) x3 st). set (s2 := put b (o + 2) x2 s3). set (s1 := put b (o + 1) x1 s2).
  assert (H3 : inside s3 b) by (eapply shape_inside; [apply put_shape | done]).
  assert (H2 : inside s2 b) by (eapply shape_inside; [apply put_shape | done]).
  assert (H1 : inside s1 b) by (eapply shape_inside; [apply put_shape | done]).
  apply (wrote_before b o [x0 mod 256]) with s1; [|apply wrote_put; [done | lia]]. change (zlen [_]) with 1.
  apply (wrote_before b (o + 1) [x1 mod 256]) with s2; [|apply wrote_put; [done | lia]]. change (zlen [_]) with 1.
  replace (o + 1 + 1) with (o + 2) by lia.
  apply (wrote_before b (o + 2) [x2 mod 256]) with s3; [|apply wrote_put; [done | lia]]. change (zlen [_]) with 1.
  replace (o + 2 + 1) with (o + 3) by lia. apply wrote_put; [done | lia].
Qed.

Lemma put_stable2 i j x y st : stable st (put b i x (put b j y st)).
Proof. eapply stable_trans; apply put_stable. Qed.

Lemma put_stable4 i j k l x y z w st : stable st (put b i x (put b j y (put b k z (put b l w st)))).
Proof. eapply stable_trans; apply put_stable2. Qed.

Lemma ushr_byte v k : k = 8 \/ k = 16 \/ k = 24 -> ushr v k mod 256 = (v / 2 ^ k) mod 256.
Proof.
  intros Hk. unfold ushr, to_uint32. rewrite (Z.mod_small k) by lia. rewrite Z.shiftr_div_pow2 by lia. change 256 with (2 ^ 8).
  symmetry. apply (bits_window v (v mod 2 ^ 32) 32); lia.
Qed.

Lemma band_255_mod v : band v 255 mod 256 = v mod 256.
Proof. by rewrite band_255, Zmod_mod. Qed.

Lemma split2 v : le_split 2 v = [v mod 256; (v / 2 ^ 8) mod 256].
Proof. done. Qed.

Lemma split4 v : le_split 4 v = [v mod 256; (v / 2 ^ 8) mod 256; (v / 2 ^ 16) mod 256; (v / 2 ^ 24) mod 256].
Proof. cbn [le_split]. by rewrite !Z.div_div by lia. Qed.

(** The bytes of one, two and four positions. *)
Lemma read1 st o : inside st b -> byte_store st -> 0 <= o -> o + 1 <= b_len b ->
  exists x, get st b o = Some x /\ is_byte x /\ zslice o (o + 1) (contents st b) = [x].
Proof.
  intros Hin Hby Ho Hl. destruct (slice_bytes st b Hin Hby o 1) as (x & H1 & H2 & H3); [lia.. |].
  exists x. rewrite H3, zslice_empty by lia. done.
Qed.

Lemma read2 st o : inside st b -> byte_store st -> 0 <= o -> o + 2 <= b_len b ->
  exists x y, get st b (o + 0) = Some x /\ get st b (o + 1) = Some y /\ is_byte x /\ is_byte y /\
    zslice o (o + 2) (contents st b) = [x; y].
Proof.
  intros Hin Hby Ho Hl. destruct (slice_bytes st b Hin Hby o 2) as (x & H1 & H2 & H3); [lia.. |].
  destruct (read1 st (o + 1)) as (y & G1 & G2 & G3); [done | done | lia | lia|].
  exists x, y. rewrite Z.add_0_r, H3. replace (o + 2) with (o + 1 + 1) by lia. by rewrite G3.
Qed.

Lemma read4 st o : inside st b -> byte_store st -> 0 <= o -> o + 4 <= b_len b ->
  exists x y z w, get st b (o + 0) = Some x /\ get st b (o + 1) = Some y /\ get st b (o + 2) = Some z /\ get st b (o + 3) = Some w /\
    is_byte x /\ is_byte y /\ is_byte z /\ is_byte w /\ zslice o (o + 4) (contents st b) = [x; y; z; w].
Proof.
  intros Hin Hby Ho Hl. destruct (read2 st o) as (x & y & H1 & H2 & H3 & H4 & H5); [done | done | lia | lia|].
  destruct (read2 st (o + 2)) as (z & w & G1 & G2 & G3 & G4 & G5); [done | done | lia | lia|].
  exists x, y, z, w. rewrite Z.add_0_r in G1. replace (o + 2 + 1) with (o + 3) in G2 by lia.
  rewrite <- (zslice_app _ o (o + 2) (o + 4)) by lia. replace (o + 4) with (o + 2 + 2) by lia. by rewrite H5, G5.
Qed.

Lemma int8_ok x : is_byte x -> (if band x 128 =? 0 then Some x else option_map (fun x => (255 - x + 1) * -1) (Some x)) = Some (signed 1 x).
Proof.
  assert (H : forallb (fun x => (if band x 128 =? 0 then x else (255 - x + 1) * -1) =? signed 1 x) (seqZ 0 256) = true) by reflexivity.
  intros Hx. rewrite forallb_forall in H. specialize (H x). rewrite Z.eqb_eq in H.
  rewrite <- H by (apply list_elem_of_In, elem_of_seqZ; unfold is_byte in Hx; lia). by destruct (band x 128 =? 0).
Qed.
End Fixed.

(** The laws of a method of fixed width: the bytes are read, the value is
    checked, and the bytes are written. *)
Ltac fixed_read lemma :=
  intros st b o Hin Hby Ho; cbn [c_read c_format f_size f_signed f_little];
  unfold readUInt8, readUInt16LE, readUInt16BE, readUInt32LE, readUInt32BE, readInt8, readInt16LE, readInt16BE, readInt32LE, readInt32BE;
  cbv zeta; cbn [asserted]; rewrite checkOffset_ok; destruct (_ && _) eqn:E; [|done]; cbn [res_bind];
  apply andb_true_iff in E as [E1 E2]; breflect; pose proof (lemma b st o Hin Hby E1 E2) as Hr.

Ltac fixed_refuse :=
  intros st b o v Ho Hv; cbn [c_write c_format f_size] in *;
  unfold writeUInt8, writeUInt16LE, writeUInt16BE, writeUInt32LE, writeUInt32BE, writeInt8, writeInt16LE, writeInt16BE, writeInt32LE, writeInt32BE;
  rewrite (to_int32_small o) by lia; cbv zeta; cbn [asserted]; rewrite checkInt_refuse; [done|];
  unfold lowest, greatest in Hv; cbn in Hv; lia.

Ltac fixed_write :=
  intros st b o v Hin Ho Hl Hb Hv; cbn [c_write c_format f_size f_signed f_little] in *;
  unfold lowest, greatest in Hv; cbn in Hv;
  unfold writeUInt8, writeUInt16LE, writeUInt16BE, writeUInt32LE, writeUInt32BE, writeInt8, writeInt16LE, writeInt16BE, writeInt32LE, writeInt32BE,
    encode, put_32le, put_32be; cbn [f_size f_little]; cbv zeta; rewrite (to_int32_small o) by lia; cbn [asserted]; rewrite checkInt_ok by lia;
  cbn [res_bind]; eexists; split; [done|]; split; [first [apply put_stable | apply put_stable2 | apply put_stable4]|].

(** The bytes of the list are those of the number. *)
Ltac fixed_bytes lemma :=
  let H := fresh in pose proof lemma as H; rewrite ?band_255_mod, ?ushr_byte in H by tauto; exact H.

Lemma adjust_byte v : 0 <= v < 256 \/ -128 <= v < 128 -> (if v <? 0 then 255 + v + 1 else v) mod 256 = v mod 256.
Proof.
  intros Hv. destruct (v <? 0); [|done]. replace (255 + v + 1) with (v + 1 * 256) by lia. apply Z_mod_plus_full.
Qed.

Lemma adjust_word v k : k = 8 \/ k = 16 \/ k = 24 ->
  ushr (if v <? 0 then 4294967295 + v + 1 else v) k = ushr v k.
Proof.
  intros Hk. destruct (v <? 0); [|done]. unfold ushr, to_uint32. f_equal.
  replace (4294967295 + v + 1) with (v + 1 * 2 ^ 32) by lia. apply Z_mod_plus_full.
Qed.

Lemma adjust_low v : band (if v <? 0 then 4294967295 + v + 1 else v) 255 = band v 255.
Proof.
  destruct (v <? 0); [|done]. rewrite !band_255. replace (4294967295 + v + 1) with (v + 16777216 * 256) by lia. apply Z_mod_plus_full.
Qed.

Lemma decode1 sg lt x : decode (Format 1 sg lt) [x] = if sg then signed 1 x else x.
Proof. unfold decode. cbn [f_signed f_size f_little]. destruct lt; cbn [rev app le]; by replace (x + 256 * 0) with x by lia. Qed.

Lemma uint8_lawful lt : Lawful (Codec (Format 1 false lt) readUInt8 writeUInt8).
Proof.
  split; [fixed_read read1 | fixed_write | fixed_refuse].
  - destruct Hr as (x & -> & _ & ->). by rewrite decode1.
  - replace (if lt then _ else _) with [v mod 256] by (by destruct lt). rewrite <- band_255_mod. apply wrote_put; [done | lia].
Qed.

Lemma int8_lawful lt : Lawful (Codec (Format 1 true lt) readInt8 writeInt8).
Proof.
  split; [fixed_read read1 | fixed_write | fixed_refuse].
  - destruct Hr as (x & -> & Hx & ->). cbn [bits default]. unfold id. by rewrite int8_ok, decode1.
  - replace (if lt then _ else _) with [v mod 256] by (by destruct lt). rewrite <- (adjust_byte v) by lia.
    rewrite <- band_255_mod. apply wrote_put; [done | lia].
Qed.

Lemma uint16_le_lawful : Lawful (Codec (Format 2 false true) readUInt16LE writeUInt16LE).
Proof.
  split; [fixed_read read2 | fixed_write | fixed_refuse].
  - destruct Hr as (x & y & -> & -> & Hx & Hy & ->). unfold bits. cbn [default]. unfold id. rewrite join2 by done.
    unfold decode. cbn [f_signed f_little le]. do 2 f_equal. lia.
  - fixed_bytes (puts2 b o (band v 255) (ushr v 8) st Hin Ho Hl).
Qed.

Lemma uint16_be_lawful : Lawful (Codec (Format 2 false false) readUInt16BE writeUInt16BE).
Proof.
  split; [fixed_read read2 | fixed_write | fixed_refuse].
  - destruct Hr as (x & y & -> & -> & Hx & Hy & ->). unfold bits. cbn [default]. unfold id. rewrite bor_comm, join2 by done.
    unfold decode. cbn [f_signed f_little le rev app]. do 2 f_equal. lia.
  - fixed_bytes (puts2 b o (ushr v 8) (band v 255) st Hin Ho Hl).
Qed.

Lemma int16_le_lawful : Lawful (Codec (Format 2 true true) readInt16LE writeInt16LE).
Proof.
  split; [fixed_read read2 | fixed_write | fixed_refuse].
  - destruct Hr as (x & y & -> & -> & Hx & Hy & ->). unfold bits. cbn [default]. unfold id. rewrite join2 by done.
    unfold is_byte in *. rewrite sign16_ok by lia. unfold decode. cbn [f_signed f_size f_little le]. do 3 f_equal. lia.
  - fixed_bytes (puts2 b o (band v 255) (ushr v 8) st Hin Ho Hl).
Qed.

Lemma int16_be_lawful : Lawful (Codec (Format 2 true false) readInt16BE writeInt16BE).
Proof.
  split; [fixed_read read2 | fixed_write | fixed_refuse].
  - destruct Hr as (x & y & -> & -> & Hx & Hy & ->). unfold bits. cbn [default]. unfold id. rewrite join2 by done.
    unfold is_byte in *. rewrite sign16_ok by lia. unfold decode. cbn [f_signed f_size f_little le rev app]. do 3 f_equal. lia.
  - fixed_bytes (puts2 b o (ushr v 8) (band v 255) st Hin Ho Hl).
Qed.

Lemma uint32_le_lawful : Lawful (Codec (Format 4 false true) readUInt32LE writeUInt32LE).
Proof.
  split; [fixed_read read4 | fixed_write | fixed_refuse].
  - destruct Hr as (x & y & z & w & -> & -> & -> & -> & Hx & Hy & Hz & Hw & ->). unfold bits. cbn [default add_mul]. unfold id.
    rewrite join3 by done. unfold decode. cbn [f_signed f_little le]. do 2 f_equal. lia.
  - change (Z.to_nat 4) with 4%nat. rewrite split4.
    fixed_bytes (puts4_down b o (band v 255) (ushr v 8) (ushr v 16) (ushr v 24) st Hin Ho Hl).
Qed.

Lemma uint32_be_lawful : Lawful (Codec (Format 4 false false) readUInt32BE writeUInt32BE).
Proof.
  split; [fixed_read read4 | fixed_write | fixed_refuse].
  - destruct Hr as (x & y & z & w & H0 & -> & -> & -> & Hx & Hy & Hz & Hw & ->). rewrite Z.add_0_r in H0. rewrite H0.
    unfold bits. cbn [default add_mul plus]. unfold id. rewrite join3_be by done. unfold decode. cbn [f_signed f_little le rev app]. do 2 f_equal. lia.
  - change (Z.to_nat 4) with 4%nat. rewrite split4. cbn [rev app].
    fixed_bytes (puts4_up b o (ushr v 24) (ushr v 16) (ushr v 8) (band v 255) st Hin Ho Hl).
Qed.

Lemma int32_le_lawful : Lawful (Codec (Format 4 true true) readInt32LE writeInt32LE).
Proof.
  split; [fixed_read read4 | fixed_write | fixed_refuse].
  - destruct Hr as (x & y & z & w & -> & -> & -> & -> & Hx & Hy & Hz & Hw & ->). unfold bits. cbn [default]. unfold id.
    rewrite join4 by done. unfold decode. cbn [f_signed f_size f_little le]. do 3 f_equal. lia.
  - change (Z.to_nat 4) with 4%nat. rewrite split4.
    fixed_bytes (puts4_up b o (band v 255) (ushr v 8) (ushr v 16) (ushr v 24) st Hin Ho Hl).
Qed.

Lemma int32_be_lawful : Lawful (Codec (Format 4 true false) readInt32BE writeInt32BE).
Proof.
  split; [fixed_read read4 | fixed_write | fixed_refuse].
  - destruct Hr as (x & y & z & w & -> & -> & -> & -> & Hx & Hy & Hz & Hw & ->). unfold bits. cbn [default]. unfold id.
    rewrite join4_be by done. unfold decode. cbn [f_signed f_size f_little le rev app]. do 3 f_equal. lia.
  - change (Z.to_nat 4) with 4%nat. rewrite split4. cbn [rev app]. rewrite !adjust_word, adjust_low by tauto.
    fixed_bytes (puts4_up b o (ushr v 24) (ushr v 16) (ushr v 8) (band v 255) st Hin Ho Hl).
Qed.

Lemma codecs_lawful : Forall Lawful codecs.
Proof.
  unfold codecs. rewrite !Forall_app. repeat split; try (apply generic_lawful; lia).
  repeat apply Forall_cons_2; [apply uint8_lawful | apply uint8_lawful | apply uint16_le_lawful | apply uint16_be_lawful
    | apply uint32_le_lawful | apply uint32_be_lawful | apply int8_lawful | apply int8_lawful | apply int16_le_lawful
    | apply int16_be_lawful | apply int32_le_lawful | apply int32_be_lawful | apply Forall_nil_2].
Qed.

(** ** Theorems *)

Lemma codec_size c : c ∈ codecs -> 1 <= f_size (c_format c) <= 6.
Proof.
  intros Hc. assert (H : Forall (fun c => 1 <= f_size (c_format c) <= 6) codecs) by (repeat (apply Forall_cons_2; [cbn; lia|]); apply Forall_nil_2).
  rewrite list.Forall_forall in H. by apply H.
Qed.

Lemma codec_lawful c : c ∈ codecs -> Lawful c.
Proof. intros Hc. pose proof codecs_lawful as H. rewrite list.Forall_forall in H. by apply H. Qed.

(** C37.  Every pair of methods for integers, in every width and byte order: a
    value out of the range of the format, or an offset from which it would go
    past the end of the Buffer, is refused; and what is written at an offset
    that is not negative has the bytes of the format, in its order, is read back,
    the method returns the offset after it, and no other byte changes, seen
    through whichever Buffer.  (A negative offset is not refused by the
    methods that write: [negative_offset_written].) *)
Theorem write_then_read c st b o v :
  c ∈ codecs -> inside st b -> byte_store st -> - 2 ^ 31 <= o < 2 ^ 31 ->
  (v < lowest (c_format c) \/ greatest (c_format c) < v \/ b_len b < o + f_size (c_format c) ->
   c_write c b v o false st = Err RangeError) /\
  (0 <= o -> o + f_size (c_format c) <= b_len b -> lowest (c_format c) <= v <= greatest (c_format c) ->
   exists st', c_write c b v o false st = Ok (o + f_size (c_format c), st') /\
     zslice o (o + f_size (c_format c)) (contents st' b) = encode (c_format c) v /\
     c_read c b o false st' = Ok (Some v) /\ byte_store st' /\
     forall b' i, ~ (b_mem b' = b_mem b /\ b_off b + o <= b_off b' + i < b_off b + o + f_size (c_format c)) ->
       get st' b' i = get st b' i).
Proof.
  intros Hc Hin Hby Ho32. pose proof (codec_lawful c Hc) as Hlaw. pose proof (codec_size c Hc) as Hn.
  split; [by apply law_refuse|]. intros Ho Hl Hv.
  destruct (law_write st b o v Hin Ho Hl ltac:(lia) Hv) as (st' & H1 & [Hsh Hby'] & Hw). exists st'.
  assert (Hz : zlen (encode (c_format c) v) = f_size (c_format c)).
  { unfold encode, zlen. destruct (f_little _); rewrite ?length_rev, length_le_split; lia. }
  assert (Hbytes : zslice o (o + f_size (c_format c)) (contents st' b) = encode (c_format c) v)
    by (rewrite <- Hz; apply (wrote_contents b o _ st st'); done || lia).
  split; [done|]. split; [done|]. split; [|split; [by apply Hby'|]].
  - rewrite law_read by (done || lia || (by eapply shape_inside) || by apply Hby').
    rewrite (proj2 (Z.leb_le 0 o)), (proj2 (Z.leb_le _ (b_len b))) by lia. cbn [andb]. do 2 f_equal.
    rewrite Hbytes. apply decode_encode; [lia | done].
  - intros b' i Hni. destruct (decide (0 <= i < b_len b')); [|by rewrite !get_outside].
    rewrite !get_cell by done. rewrite Hw, Hz, decide_False; done.
Qed.

(** Two methods of the same format are the same: those of fixed width and
    the general ones refuse the same offsets and values, read the same numbers
    and leave the same memory. *)
Theorem one_format c c' st b o v :
  c ∈ codecs -> c' ∈ codecs -> c_format c = c_format c' -> inside st b -> byte_store st -> - 2 ^ 31 <= o < 2 ^ 31 ->
  c_read c b o false st = c_read c' b o false st /\
  (0 <= o ->
   match c_write c b v o false st, c_write c' b v o false st with
   | Ok (n, s), Ok (n', s') => n = n' /\ forall m p, cell s m p = cell s' m p
   | Err e, Err e' => e = e'
   | _, _ => False
   end).
Proof.
  intros Hc Hc' Hf Hin Hby Ho. pose proof (codec_lawful c Hc) as L. pose proof (codec_lawful c' Hc') as L'. split.
  - rewrite (law_read (c := c)), (law_read (c := c')) by done. by rewrite Hf.
  - intros Ho0. destruct (decide (lowest (c_format c) <= v <= greatest (c_format c) /\ o + f_size (c_format c) <= b_len b)) as [[Hv Hl]|Hn].
    + destruct (law_write (c := c) st b o v) as (s & -> & _ & Hw); [done | done | done | lia | done |].
      rewrite Hf in Hv, Hl. destruct (law_write (c := c') st b o v) as (s' & -> & _ & Hw'); [done | done | done | lia | done |].
      split; [by rewrite Hf|]. intros m p. by rewrite Hw, Hw', Hf.
    + rewrite (law_refuse (c := c)) by lia. rewrite Hf in Hn. by rewrite (law_refuse (c := c')) by lia.
Qed.

(** The check of the writes forgets what the check of the reads has: a
    negative offset is refused by every method that reads and, when the end
    of the number is inside the Buffer, accepted by every method that writes,
    whose first bytes are then lost. *)
Theorem negative_offset_written c st b o v :
  c ∈ codecs -> inside st b -> byte_store st -> - 2 ^ 31 <= o < 0 -> o + f_size (c_format c) <= b_len b ->
  lowest (c_format c) <= v <= greatest (c_format c) ->
  c_read c b o false st = Err RangeError /\
  exists st', c_write c b v o false st = Ok (o + f_size (c_format c), st') /\ get st' b o = None.
Proof.
  intros Hc Hin Hby Ho Hl Hv. pose proof (codec_lawful c Hc) as L. split.
  - rewrite law_read by (done || lia). by rewrite (proj2 (Z.leb_gt 0 o)) by lia.
  - pose proof (format_range _ _ (codec_size c Hc) Hv) as Hr.
    assert (H : exists st', c_write c b v o false st = Ok (o + f_size (c_format c), st')).
    { clear L. unfold lowest, greatest in Hv. revert Hc. unfold codecs, generic, fixed. cbn [app].
      intros Hc. repeat (apply elem_of_cons in Hc as [-> | Hc]; [|revert Hc; intros Hc]); [.. | by apply not_elem_of_nil in Hc];
        cbn in Hv, Hl; cbn [c_write c_format f_size];
        unfold writeUIntLE, writeUIntBE, writeIntLE, writeIntBE, writeUInt8, writeUInt16LE, writeUInt16BE, writeUInt32LE, writeUInt32BE,
          writeInt8, writeInt16LE, writeInt16BE, writeInt32LE, writeInt32BE; rewrite (to_int32_small o) by lia; cbv zeta; cbn [asserted];
        rewrite ?(to_int32_small (Zpos _)) by lia; rewrite ?exact_ok by lia; (rewrite checkInt_ok by (cbn; lia)); cbn [res_bind];
        rewrite ?exact_value_ok by done; by eexists. }
    destruct H as (st' & H). exists st'. split; [done|]. apply get_outside. lia.
Qed.

(** ** Examples *)

Definition int24 : codec := Codec (Format 3 true true) (fun b o => readIntLE b o 3) (fun b v o => writeIntLE b v o 3).

Lemma int24_in : int24 ∈ codecs.
Proof. unfold codecs. do 2 (apply elem_of_app; right). apply elem_of_app. left. right. right. left. Qed.

Lemma write_then_read_witness :
  (exists st', writeIntLE demo_buffer (-70000) 4 3 false demo_store = Ok (7, st') /\
    zslice 4 7 (contents st' demo_buffer) = [144; 238; 254] /\
    readIntLE demo_buffer 4 3 false st' = Ok (Some (-70000))) /\
  writeIntLE demo_buffer 8388608 4 3 false demo_store = Err RangeError.
Proof.
  assert (Ho : - 2 ^ 31 <= 4 < 2 ^ 31) by lia. split.
  - destruct (proj2 (write_then_read int24 demo_store demo_buffer 4 (-70000) int24_in demo_inside demo_bytes Ho)) as (st' & H1 & H2 & H3 & _);
      [lia | vm_compute; congruence | vm_compute; split; congruence |].
    exists st'. split; [exact H1|]. split; [exact H2 | exact H3].
  - apply (proj1 (write_then_read int24 demo_store demo_buffer 4 8388608 int24_in demo_inside demo_bytes Ho)).
    right. left. vm_compute. reflexivity.
Defined.

Definition uint16 : codec := Codec (Format 2 false true) readUInt16LE writeUInt16LE.
Definition uint16_2 : codec := Codec (Format 2 false true) (fun b o => readUIntLE b o 2) (fun b v o => writeUIntLE b v o 2).

Lemma uint16_in : uint16 ∈ codecs /\ uint16_2 ∈ codecs.
Proof.
  split; unfold codecs.
  - do 6 (apply elem_of_app; right). right. right. left.
  - apply elem_of_app. right. apply elem_of_app. left. left.
Qed.

Lemma one_format_witness :
  readUInt16LE demo_buffer 3 false demo_store = readUIntLE demo_buffer 3 2 false demo_store.
Proof.
  apply (one_format uint16 uint16_2 demo_store demo_buffer 3 0 (proj1 uint16_in) (proj2 uint16_in) eq_refl demo_inside demo_bytes).
  lia.
Defined.

Lemma negative_offset_written_witness :
  readUInt16LE demo_buffer (-1) false demo_store = Err RangeError /\
  exists st', writeUInt16LE demo_buffer 515 (-1) false demo_store = Ok (1, st').
Proof.
  destruct (negative_offset_written uint16 demo_store demo_buffer (-1) 515 (proj1 uint16_in) demo_inside demo_bytes) as [H1 (st' & H2 & _)];
    [lia | vm_compute; congruence | vm_compute; split; congruence |].
  split; [exact H1|]. exists st'. exact H2.
Defined.
