(* ===== verification/Utf8.v ===== *)
(** UTF-8 in the Buffer of the browser (module 143): [utf8ToBytes], which
    encodes a string of UTF-16 code units, and the loop of [utf8Slice], which
    decodes bytes, related to the encodings of code points. *)

From Stdlib Require Import ZArith Lia List Bool.
From stdpp Require Import base list list_numbers tactics.
From S2P Require Import Prelude JsNum Int32 Buffers.

(** ** Encoding *)

(** The bytes of a code point. *)
Definition utf8_bytes (cp : Z) : list Z :=
  if cp <? 128 then [cp]
  else if cp <? 2048 then [bor (shr cp 6) 192; bor (band cp 63) 128]
  else if cp <? 65536 then [bor (shr cp 12) 224; bor (band (shr cp 6) 63) 128; bor (band cp 63) 128]
  else [bor (shr cp 18) 240; bor (band (shr cp 12) 63) 128; bor (band (shr cp 6) 63) 128; bor (band cp 63) 128].

(** [(units -= k) < 0], upon which the loop ends; [None] is [Infinity]. *)
Definition take_units (k : Z) (units : option Z) : option (option Z) :=
  match units with
  | None => Some None
  | Some n => if n - k <? 0 then None else Some (Some (n - k))
  end.

(** [if ((units -= 3) > -1) bytes.push(0xEF, 0xBF, 0xBD)] *)
Definition replacement (units : option Z) : list Z * option Z :=
  match units with
  | None => ([239; 191; 189], None)
  | Some n => (if -1 <? n - 3 then [239; 191; 189] else [], Some (n - 3))
  end.

Definition is_surrogate (c : Z) : bool := (55295 <? c) && (c <? 57344).

(** The loop over the code units; [lead] is [leadSurrogate]. *)
Fixpoint utf8_loop (s : jstr) (lead units : option Z) : list Z :=
  match s with
  | [] => []
  | c :: s' =>
      let encode cp units :=
        match take_units (zlen (utf8_bytes cp)) units with
        | Some units => utf8_bytes cp ++ utf8_loop s' None units
        | None => []
        end in
      let bad lead := let '(l, units) := replacement units in l ++ utf8_loop s' lead units in
      if is_surrogate c then
        match lead with
        | None =>
            if 56319 <? c then bad None
            else match s' with [] => bad None | _ :: _ => utf8_loop s' (Some c) units end
        | Some l =>
            if c <? 56320 then bad (Some c)
            else encode (bor (shl (l - 55296) 10) (c - 56320) + 65536) units
        end
      else
        match lead with
        | Some _ => let '(l, units) := replacement units in l ++ encode c units
        | None => encode c units
        end
  end.

(** [utf8ToBytes]: without units, or with none left, there is no limit. *)
Definition utf8ToBytes (string : jstr) (units : option Z) : list Z :=
  utf8_loop string None (match units with Some n => if n =? 0 then None else Some n | None => None end).

(** ** Decoding *)

(** One sequence at [i]: its code point, if it is a valid one, and the number
    of bytes that its first byte announces. *)
Definition utf8_sequence (buf : Z -> Z) (i e : Z) : option Z * Z :=
  let firstByte := buf i in
  let n := if 239 <? firstByte then 4 else if 223 <? firstByte then 3 else if 191 <? firstByte then 2 else 1 in
  let is_tail x := band x 192 =? 128 in
  (if i + n <=? e then
     if n =? 1 then if firstByte <? 128 then Some firstByte else None
     else if n =? 2 then
       let secondByte := buf (i + 1) in
       let temp := bor (shl (band firstByte 31) 6) (band secondByte 63) in
       if is_tail secondByte && (127 <? temp) then Some temp else None
     else if n =? 3 then
       let secondByte := buf (i + 1) in let thirdByte := buf (i + 2) in
       let temp := bor (bor (shl (band firstByte 15) 12) (shl (band secondByte 63) 6)) (band thirdByte 63) in
       if is_tail secondByte && is_tail thirdByte && ((2047 <? temp) && ((temp <? 55296) || (57343 <? temp))) then Some temp else None
     else
       let secondByte := buf (i + 1) in let thirdByte := buf (i + 2) in let fourthByte := buf (i + 3) in
       let temp := bor (bor (bor (shl (band firstByte 15) 18) (shl (band secondByte 63) 12)) (shl (band thirdByte 63) 6)) (band fourthByte 63) in
       if is_tail secondByte && is_tail thirdByte && is_tail fourthByte && ((65535 <? temp) && (temp <? 1114112)) then Some temp else None
   else None, n).

(** The code units of what was found, and the bytes it takes. *)
Definition utf8_units (found : option Z * Z) : list Z * Z :=
  match found with
  | (None, _) => ([65533], 1)
  | (Some codePoint, n) =>
      (if 65535 <? codePoint then
         let codePoint := codePoint - 65536 in
         [bor (band (shr codePoint 10) 1023) 55296; bor 56320 (band codePoint 1023)]
       else [codePoint], n)
  end.

Fixpoint utf8_slice_loop (fuel : nat) (buf : Z -> Z) (i e : Z) : list Z :=
  match fuel with
  | O => []
  | S fuel =>
      if i <? e then
        let '(units, n) := utf8_units (utf8_sequence buf i e) in
        units ++ utf8_slice_loop fuel buf (i + n) e
      else []
  end.

(** [decodeCodePointsArray]: the code units as a string, in chunks. *)
Definition MAX_ARGUMENTS_LENGTH : Z := 4096.

Fixpoint decode_chunks (fuel : nat) (codePoints : list Z) (i len : Z) : jstr :=
  match fuel with
  | O => []
  | S fuel =>
      if i <? len then
        map (fun c => c mod 65536) (zslice i (i + MAX_ARGUMENTS_LENGTH) codePoints)
        ++ decode_chunks fuel codePoints (i + MAX_ARGUMENTS_LENGTH) len
      else []
  end.

Definition decodeCodePointsArray (codePoints : list Z) : jstr :=
  let len := zlen codePoints in
  if len <=? MAX_ARGUMENTS_LENGTH then map (fun c => c mod 65536) codePoints
  else decode_chunks (Z.to_nat len) codePoints 0 len.

(** [utf8Slice] over the bytes of a buffer. *)
Definition utf8Slice (st : store) (buf : buffer) (start e : Z) : jstr :=
  let e := Z.min (b_len buf) e in
  decodeCodePointsArray (utf8_slice_loop (Z.to_nat (e - start)) (fun i => default 0 (get st buf i)) start e).

(** ** Code points *)

(** The encodings of a code point by RFC 3629 and by UTF-16. *)
Definition rfc3629 (cp : Z) : list Z :=
  if cp <? 128 then [cp]
  else if cp <? 2048 then [192 + cp / 64; 128 + cp mod 64]
  else if cp <? 65536 then [224 + cp / 4096; 128 + cp / 64 mod 64; 128 + cp mod 64]
  else [240 + cp / 262144; 128 + cp / 4096 mod 64; 128 + cp / 64 mod 64; 128 + cp mod 64].

Definition utf16 (cp : Z) : list Z :=
  if cp <? 65536 then [cp] else [55296 + (cp - 65536) / 1024; 56320 + (cp - 65536) mod 1024].

Definition is_lead (c : Z) : bool := (55295 <? c) && (c <? 56320).
Definition is_trail (c : Z) : bool := (56319 <? c) && (c <? 57344).

(** A code point that is not a surrogate. *)
Definition scalar (cp : Z) : Prop := 0 <= cp < 1114112 /\ is_surrogate cp = false.

(** The code points of a string; a surrogate without its other half stands for U+FFFD. *)
Fixpoint scalars (s : jstr) : list Z :=
  match s with
  | [] => []
  | c :: s' =>
      if is_lead c then
        match s' with
        | d :: s'' => if is_trail d then ((c - 55296) * 1024 + (d - 56320) + 65536) :: scalars s'' else 65533 :: scalars s'
        | [] => [65533]
        end
      else (if is_trail c then 65533 else c) :: scalars s'
  end.

(** A string that ends with two leading surrogates. *)
Fixpoint ends_two_leads (s : jstr) : bool :=
  match s with
  | [] => false
  | a :: s' => match s' with [b] => is_lead a && is_lead b | _ => ends_two_leads s' end
  end.

(** What the encoder sees of a string. *)
Definition seen (s : jstr) : jstr := if ends_two_leads s then removelast s else s.

(** The code points that fit in a number of bytes. *)
Fixpoint fit (units : option Z) (cps : list Z) : list Z :=
  match cps with
  | [] => []
  | cp :: cps =>
      match take_units (zlen (rfc3629 cp)) units with
      | Some units => cp :: fit units cps
      | None => []
      end
  end.

Definition encode_all (cps : list Z) : list Z := List.concat (map rfc3629 cps).
Definition utf16_all (cps : list Z) : list Z := List.concat (map utf16 cps).

(** No surrogate stands alone. *)
Fixpoint well_formed (s : jstr) : bool :=
  match s with
  | [] => true
  | c :: s' =>
      if is_surrogate c then match s' with d :: s'' => is_lead c && is_trail d && well_formed s'' | [] => false end
      else (0 <=? c) && (c <? 65536) && well_formed s'
  end.

(** * Properties *)

(** A code unit of a string. *)
Definition is_unit (c : Z) : Prop := 0 <= c < 65536.

(** ** Bits *)

Lemma bor_prefix x k n : 0 <= n -> 0 <= x < 2 ^ n -> 0 <= k -> k * 2 ^ n + x < 2 ^ 31 -> bor x (k * 2 ^ n) = k * 2 ^ n + x.
Proof. intros. rewrite bor_comm. by apply bor_disjoint. Qed.

Lemma band_mask a n : 0 <= n <= 31 -> band a (2 ^ n - 1) = a mod 2 ^ n.
Proof.
  intros Hn. assert (2 ^ n <= 2 ^ 31) by (apply Z.pow_le_mono_r; lia).
  unfold band. rewrite (to_int32_small (2 ^ n - 1)) by lia.
  replace (2 ^ n - 1) with (Z.ones n) by (rewrite Z.ones_equiv; lia).
  rewrite land_mask by lia. by rewrite to_int32_mod by lia.
Qed.

(** Bytes of the form [10xxxxxx]. *)
Lemma tail_byte y : 0 <= y < 64 -> band (128 + y) 192 = 128 /\ band (128 + y) 63 = y.
Proof.
  intros Hy. split; [|rewrite band_63; divmod].
  assert (Forall (fun y => band (128 + y) 192 = 128) (seqZ 0 64)) as H by (by apply (bool_decide_unpack _); vm_compute).
  eapply (proj1 (Forall_elem _ _)) in H; [exact H | apply elem_of_seqZ; lia].
Qed.

Lemma is_tail_byte y : 0 <= y < 64 -> (band (128 + y) 192 =? 128) = true.
Proof. intros Hy. by rewrite (proj1 (tail_byte y Hy)). Qed.

Lemma band_tail y : 0 <= y < 64 -> band (128 + y) 63 = y.
Proof. apply tail_byte. Qed.

Ltac pow2 := repeat match goal with |- context [2 ^ ?n] => is_ground n; let v := eval vm_compute in (2 ^ n) in change (2 ^ n) with v end.

(** The bytes that the encoder computes are those of the RFC. *)
Lemma utf8_bytes_rfc cp : 0 <= cp < 1114112 -> utf8_bytes cp = rfc3629 cp.
Proof.
  intros Hcp. unfold utf8_bytes, rfc3629.
  rewrite !band_63, !shr_small by lia. pow2.
  assert (forall x, 0 <= x < 64 -> bor x 128 = 128 + x) as Htail by (intros x Hx; apply (bor_prefix x 1 7); lia).
  destruct (cp <? 128) eqn:E1; [done|]. destruct (cp <? 2048) eqn:E2; [|destruct (cp <? 65536) eqn:E3]; breflect.
  - rewrite Htail by divmod. f_equal. apply (bor_prefix _ 3 6); divmod.
  - rewrite !Htail by divmod. f_equal. apply (bor_prefix _ 7 5); divmod.
  - rewrite !Htail by divmod. f_equal. apply (bor_prefix _ 15 4); divmod.
Qed.

Lemma zlen_rfc3629 cp : 1 <= zlen (rfc3629 cp) <= 4.
Proof. unfold rfc3629. repeat case_match; unfold zlen; cbn; lia. Qed.

(** ** Encoding *)

Lemma take_units_neg k n : n < 0 -> 0 <= k -> take_units k (Some n) = None.
Proof. intros. unfold take_units. by rewrite (proj2 (Z.ltb_lt _ _)) by lia. Qed.

(** Once a replacement did not fit nothing does. *)
Lemma utf8_loop_neg s : forall lead n, n < 0 -> utf8_loop s lead (Some n) = [].
Proof.
  induction s as [|c s IH]; intros lead n Hn; cbn [utf8_loop replacement]; [done|]; cbv zeta.
  rewrite (proj2 (Z.ltb_ge (-1) (n - 3))) by lia.
  assert (forall cp, 0 <= zlen (utf8_bytes cp)) by (intros; apply zlen_nonneg).
  destruct (is_surrogate c), lead as [l|]; rewrite ?take_units_neg by (done || lia); cbn [app].
  - destruct (c <? 56320); [apply IH; lia | done].
  - destruct (56319 <? c); [apply IH; lia|]. destruct s; [apply IH; lia | by apply IH].
  - done.
  - done.
Qed.

Lemma fit_neg n cps : n < 0 -> fit (Some n) cps = [].
Proof. intros. destruct cps as [|cp cps]; cbn [fit]; [done|]. pose proof (zlen_rfc3629 cp). by rewrite take_units_neg by lia. Qed.

(** A replacement is the code point U+FFFD, which is encoded when it fits. *)
Lemma replacement_step (rest : option Z -> list Z) cps units :
  (forall u, rest u = encode_all (fit u cps)) ->
  (let '(l, u) := replacement units in l ++ rest u) = encode_all (fit units (65533 :: cps)).
Proof.
  intros Hrest. destruct units as [n|]; cbn [replacement fit take_units]; [|by rewrite Hrest].
  change (zlen (rfc3629 65533)) with 3. rewrite Hrest.
  destruct (n - 3 <? 0) eqn:E, (-1 <? n - 3) eqn:E'; breflect; try lia; [|done].
  by rewrite fit_neg.
Qed.

Lemma encode_step (rest : option Z -> list Z) cp cps units :
  0 <= cp < 1114112 -> (forall u, rest u = encode_all (fit u cps)) ->
  match take_units (zlen (utf8_bytes cp)) units with Some u => utf8_bytes cp ++ rest u | None => [] end
  = encode_all (fit units (cp :: cps)).
Proof.
  intros Hcp Hrest. rewrite utf8_bytes_rfc by done. cbn [fit]. destruct (take_units _ _); [|done]. by rewrite Hrest.
Qed.

Lemma seen_one c : seen [c] = [c].
Proof. done. Qed.

Lemma seen_cons c s : (forall b, s = [b] -> is_lead c && is_lead b = false) -> seen (c :: s) = c :: seen s.
Proof.
  intros H. unfold seen. destruct s as [|b [|b' s]]; [done| |].
  - cbn [ends_two_leads]. by rewrite (H b).
  - change (ends_two_leads (c :: b :: b' :: s)) with (ends_two_leads (b :: b' :: s)). by destruct (ends_two_leads _).
Qed.

Lemma seen_head c s : s <> [] -> exists r, seen (c :: s) = c :: r.
Proof. intros Hs. unfold seen. destruct s; [done|]. destruct (ends_two_leads _); cbn; eauto. Qed.

Lemma surrogate_cases c : is_surrogate c = true ->
  (is_lead c = true /\ is_trail c = false /\ (56319 <? c) = false /\ (c <? 56320) = true /\ 55296 <= c < 56320)
  \/ (is_lead c = false /\ is_trail c = true /\ (56319 <? c) = true /\ (c <? 56320) = false /\ 56320 <= c < 57344).
Proof.
  unfold is_surrogate, is_lead, is_trail. lia.
Qed.

Lemma not_surrogate c : is_surrogate c = false -> is_lead c = false /\ is_trail c = false.
Proof.
  unfold is_surrogate, is_lead, is_trail. lia.
Qed.

Lemma pair_code l c : 55296 <= l < 56320 -> 56320 <= c < 57344 ->
  bor (shl (l - 55296) 10) (c - 56320) + 65536 = (l - 55296) * 1024 + (c - 56320) + 65536.
Proof. intros. rewrite shl_small by (pow2; lia). rewrite (bor_disjoint (l - 55296) (c - 56320) 10) by (pow2; lia). pow2. lia. Qed.

(** The loop, with no leading surrogate pending and with one. *)
Lemma utf8_loop_ok s : Forall is_unit s ->
  (forall units, utf8_loop s None units = encode_all (fit units (scalars (seen s))))
  /\ (forall l units, is_lead l = true -> s <> [] -> utf8_loop s (Some l) units = encode_all (fit units (scalars (seen (l :: s))))).
Proof.
  induction s as [|c s IH]; intros Hs; [by split|]. apply Forall_cons_iff in Hs as [Hc Hs]. destruct (IH Hs) as [IHa IHb].
  assert (Hseen : is_lead c = false -> seen (c :: s) = c :: seen s) by (intros E; apply seen_cons; intros; by rewrite E).
  assert (Hlead : forall l, is_lead l = true -> is_lead c = false -> seen (l :: c :: s) = l :: c :: seen s).
  { intros l El E. rewrite seen_cons by (intros b [= -> _]; by rewrite E, andb_false_r). by rewrite Hseen. }
  split; [intros units | intros l units El _]; cbn [utf8_loop]; cbv zeta; destruct (is_surrogate c) eqn:Esur.
  - destruct (surrogate_cases c Esur) as [(Ec & Et & E1 & E2 & Hr)|(Ec & Et & E1 & E2 & Hr)]; rewrite E1.
    + destruct s as [|d s'].
      * cbn [seen ends_two_leads]. change (seen [c]) with [c]. cbn [scalars]. rewrite Ec.
        by apply (replacement_step (fun u => utf8_loop [] None u)).
      * by apply IHb.
    + rewrite Hseen by done. cbn [scalars]. rewrite Ec, Et. apply (replacement_step (fun u => utf8_loop s None u)). exact IHa.
  - destruct (not_surrogate c Esur) as [Ec Et]. rewrite Hseen by done. cbn [scalars]. rewrite Ec, Et.
    apply (encode_step (fun u => utf8_loop s None u)); [unfold is_unit in Hc; lia | exact IHa].
  - destruct (surrogate_cases c Esur) as [(Ec & Et & E1 & E2 & Hr)|(Ec & Et & E1 & E2 & Hr)]; rewrite E2.
    + destruct s as [|d s'].
      * assert (seen [l; c] = [l]) as -> by (unfold seen; cbn [ends_two_leads]; by rewrite El, Ec).
        cbn [scalars]. rewrite El. by apply (replacement_step (fun u => utf8_loop [] (Some c) u)).
      * rewrite seen_cons by (intros b [= _ E]). destruct (seen_head c (d :: s')) as [r Er]; [done|].
        rewrite Er. change (scalars (l :: c :: r)) with (if is_lead l then if is_trail c then ((l - 55296) * 1024 + (c - 56320) + 65536) :: scalars r else 65533 :: scalars (c :: r) else (if is_trail l then 65533 else l) :: scalars (c :: r)).
        rewrite El, Et, <- Er. apply (replacement_step (fun u => utf8_loop (d :: s') (Some c) u)). intros u. by apply IHb.
    + rewrite Hlead by done. cbn [scalars]. rewrite El, Et.
      assert (55296 <= l < 56320) by (unfold is_lead in El; breflect; lia).
      rewrite pair_code by done. apply (encode_step (fun u => utf8_loop s None u)); [lia | exact IHa].
  - destruct (not_surrogate c Esur) as [Ec Et]. rewrite Hlead by done. cbn [scalars]. rewrite El, Et, Ec.
    apply (replacement_step (fun u => match take_units (zlen (utf8_bytes c)) u with Some u => utf8_bytes c ++ utf8_loop s None u | None => [] end)).
    intros u. apply (encode_step (fun u => utf8_loop s None u)); [unfold is_unit in Hc; lia | exact IHa].
Qed.

(** ** Decoding *)

(** The bytes [l] are read from position [i] on. *)
Definition reads (buf : Z -> Z) (i : Z) (l : list Z) : Prop := forall j x, zget l j = Some x -> buf (i + j) = x.

Lemma reads_cons buf i x l : reads buf i (x :: l) <-> buf i = x /\ reads buf (i + 1) l.
Proof.
  split.
  - intros H. split; [specialize (H 0 x eq_refl); by rewrite Z.add_0_r in H|].
    intros j y Hy. pose proof (zget_Some _ _ _ Hy). replace (i + 1 + j) with (i + (j + 1)) by lia.
    apply H. rewrite zget_cons by lia. by replace (j + 1 - 1) with j by lia.
  - intros [H1 H2] j y Hy. pose proof (zget_Some _ _ _ Hy). destruct (decide (j = 0)) as [->|].
    + replace (i + 0) with i by lia. rewrite zget_cons_0 in Hy. congruence.
    + rewrite zget_cons in Hy by lia. replace (i + j) with (i + 1 + (j - 1)) by lia. by apply H2.
Qed.

Lemma reads_app buf i l k : reads buf i (l ++ k) <-> reads buf i l /\ reads buf (i + zlen l) k.
Proof.
  revert i. induction l as [|x l IH]; intros i; cbn [app].
  - rewrite zlen_nil, Z.add_0_r. split; [intros H; split; [intros j x Hx; by destruct j | done] | by intros [_ H]].
  - rewrite !reads_cons, IH, zlen_cons. replace (i + 1 + zlen l) with (i + (zlen l + 1)) by lia. tauto.
Qed.

(** The number of bytes that a first byte announces. *)
Definition announced (firstByte : Z) : Z :=
  if 239 <? firstByte then 4 else if 223 <? firstByte then 3 else if 191 <? firstByte then 2 else 1.

(** The low bits of a first byte. *)
Lemma band_first k n x : 0 <= k -> 0 <= n <= 31 -> 0 <= x < 2 ^ n -> band (k * 2 ^ n + x) (2 ^ n - 1) = x.
Proof. intros Hk Hn Hx. rewrite band_mask by lia. rewrite Z.add_comm, Z_mod_plus_full. by apply Z.mod_small. Qed.

Lemma first_of_two a : 0 <= a < 32 -> band (192 + a) 31 = a.
Proof. apply (band_first 6 5 a); lia. Qed.

Lemma first_of_three a : 0 <= a < 16 -> band (224 + a) 15 = a.
Proof. apply (band_first 14 4 a); lia. Qed.

Lemma first_of_four a : 0 <= a < 16 -> band (240 + a) 15 = a.
Proof. apply (band_first 15 4 a); lia. Qed.

Lemma bor_two a b : 0 <= a < 2 ^ 20 -> 0 <= b < 64 -> bor (shl a 6) b = a * 64 + b.
Proof. intros. rewrite shl_small by (pow2; lia). apply (bor_disjoint a b 6); pow2; lia. Qed.

Lemma bor_three a b c : 0 <= a < 2 ^ 10 -> 0 <= b < 64 -> 0 <= c < 64 ->
  bor (bor (shl a 12) (shl b 6)) c = a * 4096 + b * 64 + c.
Proof.
  intros. rewrite !shl_small by (pow2; lia). rewrite (bor_disjoint a (b * 2 ^ 6) 12) by (pow2; lia).
  replace (a * 2 ^ 12 + b * 2 ^ 6) with ((a * 64 + b) * 2 ^ 6) by (pow2; lia).
  rewrite (bor_disjoint (a * 64 + b) c 6) by (pow2; lia). pow2. lia.
Qed.

Lemma bor_four a b c d : 0 <= a < 8 -> 0 <= b < 64 -> 0 <= c < 64 -> 0 <= d < 64 ->
  bor (bor (bor (shl a 18) (shl b 12)) (shl c 6)) d = a * 262144 + b * 4096 + c * 64 + d.
Proof.
  intros. rewrite !shl_small by (pow2; lia). rewrite (bor_disjoint a (b * 2 ^ 12) 18) by (pow2; lia).
  replace (a * 2 ^ 18 + b * 2 ^ 12) with ((a * 64 + b) * 2 ^ 12) by (pow2; lia).
  rewrite (bor_disjoint (a * 64 + b) (c * 2 ^ 6) 12) by (pow2; lia).
  replace ((a * 64 + b) * 2 ^ 12 + c * 2 ^ 6) with (((a * 64 + b) * 64 + c) * 2 ^ 6) by (pow2; lia).
  rewrite (bor_disjoint ((a * 64 + b) * 64 + c) d 6) by (pow2; lia). pow2. lia.
Qed.

Lemma utf8_sequence_1 buf i e x : buf i = x -> i + 1 <= e -> 0 <= x < 128 -> utf8_sequence buf i e = (Some x, 1).
Proof.
  intros H He Hx. unfold utf8_sequence. cbv zeta. rewrite H. fold (announced x).
  assert (announced x = 1) as -> by (unfold announced; repeat case_match; lia).
  rewrite (proj2 (Z.leb_le _ _) He), (proj2 (Z.ltb_lt x 128)) by lia. done.
Qed.

Lemma utf8_sequence_2 buf i e a b : buf i = 192 + a -> buf (i + 1) = 128 + b -> i + 2 <= e ->
  0 <= a < 32 -> 0 <= b < 64 -> 127 < a * 64 + b ->
  utf8_sequence buf i e = (Some (a * 64 + b), 2).
Proof.
  intros Ha Hb He Ra Rb Hlow. unfold utf8_sequence. cbv zeta. rewrite Ha, Hb. fold (announced (192 + a)).
  assert (announced (192 + a) = 2) as -> by (unfold announced; repeat case_match; lia).
  rewrite (proj2 (Z.leb_le _ _) He), is_tail_byte, band_tail, first_of_two, bor_two by (pow2; lia).
  rewrite (proj2 (Z.ltb_lt _ _) Hlow). done.
Qed.

Lemma utf8_sequence_3 buf i e a b c : buf i = 224 + a -> buf (i + 1) = 128 + b -> buf (i + 2) = 128 + c -> i + 3 <= e ->
  0 <= a < 16 -> 0 <= b < 64 -> 0 <= c < 64 -> 2047 < a * 4096 + b * 64 + c ->
  a * 4096 + b * 64 + c < 55296 \/ 57343 < a * 4096 + b * 64 + c ->
  utf8_sequence buf i e = (Some (a * 4096 + b * 64 + c), 3).
Proof.
  intros Ha Hb Hc He Ra Rb Rc Hlow Hsur. unfold utf8_sequence. cbv zeta. rewrite Ha, Hb, Hc. fold (announced (224 + a)).
  assert (announced (224 + a) = 3) as -> by (unfold announced; repeat case_match; lia).
  rewrite (proj2 (Z.leb_le _ _) He), !is_tail_byte, !band_tail, first_of_three, bor_three by (pow2; lia).
  rewrite (proj2 (Z.ltb_lt _ _) Hlow). cbn [Z.eqb Pos.eqb andb]. rewrite (proj2 (orb_true_iff _ _)) by lia. done.
Qed.

Lemma utf8_sequence_4 buf i e a b c d : buf i = 240 + a -> buf (i + 1) = 128 + b -> buf (i + 2) = 128 + c -> buf (i + 3) = 128 + d -> i + 4 <= e ->
  0 <= a < 8 -> 0 <= b < 64 -> 0 <= c < 64 -> 0 <= d < 64 -> 65535 < a * 262144 + b * 4096 + c * 64 + d < 1114112 ->
  utf8_sequence buf i e = (Some (a * 262144 + b * 4096 + c * 64 + d), 4).
Proof.
  intros Ha Hb Hc Hd He Ra Rb Rc Rd Hrange. unfold utf8_sequence. cbv zeta. rewrite Ha, Hb, Hc, Hd. fold (announced (240 + a)).
  assert (announced (240 + a) = 4) as -> by (unfold announced; repeat case_match; lia).
  rewrite (proj2 (Z.leb_le _ _) He), !is_tail_byte, !band_tail, first_of_four, bor_four by (pow2; lia).
  cbn [Z.eqb Pos.eqb andb]. rewrite (proj2 (andb_true_iff _ _)) by lia. done.
Qed.

(** One sequence is read back. *)
Lemma utf8_sequence_rfc buf i e cp :
  scalar cp -> i + zlen (rfc3629 cp) <= e -> reads buf i (rfc3629 cp) ->
  utf8_sequence buf i e = (Some cp, zlen (rfc3629 cp)).
Proof.
  intros [Hcp Hs] He Hr. assert (cp < 55296 \/ 57343 < cp) by (unfold is_surrogate in Hs; lia). clear Hs.
  revert He Hr. unfold rfc3629.
  destruct (cp <? 128) eqn:E1; [|destruct (cp <? 2048) eqn:E2; [|destruct (cp <? 65536) eqn:E3]]; breflect; intros He Hr;
    repeat (apply reads_cons in Hr as [? Hr]); rewrite <- ?Z.add_assoc in *; cbn [Z.add Pos.add Pos.succ] in *; clear Hr.
  - apply utf8_sequence_1; [done | exact He | lia].
  - assert (i + 2 <= e) by exact He.
    rewrite (utf8_sequence_2 buf i e (cp / 64) (cp mod 64)); [do 2 f_equal; divmod | (done || divmod)..].
  - assert (i + 3 <= e) by exact He.
    rewrite (utf8_sequence_3 buf i e (cp / 4096) (cp / 64 mod 64) (cp mod 64)); [do 2 f_equal; divmod | (done || divmod)..].
  - assert (i + 4 <= e) by exact He.
    rewrite (utf8_sequence_4 buf i e (cp / 262144) (cp / 4096 mod 64) (cp / 64 mod 64) (cp mod 64)); [do 2 f_equal; divmod | (done || divmod)..].
Qed.

Lemma utf8_units_utf16 cp n : scalar cp -> utf8_units (Some cp, n) = (utf16 cp, n).
Proof.
  intros [Hcp _]. unfold utf8_units, utf16.
  destruct (65535 <? cp) eqn:E, (cp <? 65536) eqn:E'; breflect; try lia; [|done]. cbv zeta. f_equal.
  change 1023 with (2 ^ 10 - 1). rewrite !band_mask, shr_small by lia. pow2. rewrite (Z.mod_small ((cp - 65536) / 1024)) by divmod.
  f_equal; [apply (bor_prefix _ 54 10); divmod|]. f_equal. apply (bor_disjoint 55 _ 10); divmod.
Qed.

Lemma utf8_slice_loop_ok buf cps : Forall scalar cps -> forall fuel i e,
  reads buf i (encode_all cps) -> e = i + zlen (encode_all cps) -> (Z.to_nat (e - i) <= fuel)%nat ->
  utf8_slice_loop fuel buf i e = utf16_all cps.
Proof.
  induction 1 as [|cp cps Hcp Hcps IH]; intros fuel i e Hr He Hf.
  - change (zlen (encode_all [])) with 0 in He. destruct fuel; cbn [utf8_slice_loop]; [done|]. by rewrite (proj2 (Z.ltb_ge _ _)) by lia.
  - unfold encode_all in Hr, He. cbn [map List.concat] in Hr, He. rewrite zlen_app in He. apply reads_app in Hr as [H1 H2].
    pose proof (zlen_rfc3629 cp). pose proof (zlen_nonneg (encode_all cps)) as Hn. unfold encode_all in Hn.
    destruct fuel; [lia|]. cbn [utf8_slice_loop]. rewrite (proj2 (Z.ltb_lt _ _)) by lia.
    rewrite (utf8_sequence_rfc buf i e cp), utf8_units_utf16 by (done || lia).
    unfold utf16_all. cbn [map List.concat]. f_equal. apply IH; [done | unfold encode_all; lia | lia].
Qed.

(** Code units become a string as they are, in chunks or at once. *)
Lemma map_units l : Forall is_unit l -> map (fun c => c mod 65536) l = l.
Proof. induction 1 as [|c l Hc Hl IH]; cbn; [done|]. rewrite IH. f_equal. by apply Z.mod_small. Qed.

Lemma decode_chunks_ok l : Forall is_unit l -> forall fuel i, 0 <= i ->
  (Z.to_nat (zlen l - i) <= fuel)%nat -> decode_chunks fuel l i (zlen l) = drop (Z.to_nat i) l.
Proof.
  intros Hl. induction fuel as [|fuel IH]; intros i Hi Hf; cbn [decode_chunks].
  - rewrite drop_ge by (unfold zlen in *; lia). done.
  - destruct (i <? zlen l) eqn:E; breflect; [|rewrite drop_ge by (unfold zlen in *; lia); done].
    unfold MAX_ARGUMENTS_LENGTH. rewrite IH by lia.
    rewrite map_units by (unfold zslice; by apply Forall_take, Forall_drop).
    unfold zslice. replace (Z.to_nat (i + 4096)) with (Z.to_nat i + Z.to_nat (i + 4096 - i))%nat by lia.
    rewrite <- drop_drop. apply take_drop.
Qed.

Lemma decodeCodePointsArray_units l : Forall is_unit l -> decodeCodePointsArray l = l.
Proof.
  intros Hl. unfold decodeCodePointsArray. cbv zeta. destruct (zlen l <=? MAX_ARGUMENTS_LENGTH); [by apply map_units|].
  by rewrite decode_chunks_ok by (done || lia).
Qed.

Lemma utf16_units cp : scalar cp -> Forall is_unit (utf16 cp).
Proof. intros [H _]. unfold utf16, is_unit. destruct (cp <? 65536) eqn:E; breflect; repeat constructor; divmod. Qed.

Lemma utf16_all_units cps : Forall scalar cps -> Forall is_unit (utf16_all cps).
Proof.
  induction 1 as [|cp cps Hcp _ IH]; [constructor|]. unfold utf16_all. cbn. apply Forall_app. split; [by apply utf16_units | exact IH].
Qed.

(** The bytes of code points are decoded to their code units. *)
Lemma utf8Slice_encoded st buf start e cps : Forall scalar cps -> 0 <= start -> e <= b_len buf ->
  zslice start e (contents st buf) = encode_all cps -> inside st buf -> start <= e ->
  utf8Slice st buf start e = utf16_all cps.
Proof.
  intros Hcps Hs He Hc Hin Hse. unfold utf8Slice. rewrite Z.min_r by lia. cbv zeta.
  assert (Hlen : zlen (encode_all cps) = e - start) by (rewrite <- Hc; rewrite zlen_zslice; [lia | lia | rewrite zlen_contents by done; lia]).
  rewrite (utf8_slice_loop_ok _ cps); [by apply decodeCodePointsArray_units, utf16_all_units | done | | lia | lia].
  intros j x Hx. pose proof (zget_Some _ _ _ Hx). rewrite <- Hc in Hx. rewrite zget_zslice, decide_True in Hx by (rewrite ?zlen_contents by done; lia).
  rewrite (get_contents st buf (start + j)) in Hx by done. by rewrite Hx.
Qed.

(** ** Strings and code points *)

Lemma scalars_scalar s : Forall is_unit s -> Forall scalar (scalars s).
Proof.
  intros Hs. remember (length s) as n eqn:Hn. assert (length s <= n)%nat as Hle by lia. clear Hn. revert s Hs Hle.
  induction n as [|n IH]; intros [|c s] Hs Hle; cbn [scalars]; try (by constructor); cbn in Hle; [lia|].
  apply Forall_cons_iff in Hs as [Hc Hs]. unfold is_unit in Hc.
  assert (scalar 65533) by (split; [lia | done]).
  assert (is_lead c = false -> scalar (if is_trail c then 65533 else c)) as Hone.
  { intros E. destruct (is_trail c) eqn:E'; [done|]. split; [lia|]. revert E E'. unfold is_lead, is_trail, is_surrogate. lia. }
  destruct (is_lead c) eqn:E; [|constructor; [by apply Hone | apply IH; [done | lia]]].
  destruct s as [|d s]; [by repeat constructor|].
  destruct (is_trail d) eqn:E'; constructor; try done; [| |by apply IH; [|lia]].
  - revert E E'. unfold is_lead, is_trail, scalar, is_surrogate. lia.
  - apply IH; [by apply Forall_cons_iff in Hs as [_ Hs] | cbn in Hle; lia].
Qed.

Lemma utf16_pair c d : is_lead c = true -> is_trail d = true -> utf16 ((c - 55296) * 1024 + (d - 56320) + 65536) = [c; d].
Proof.
  unfold is_lead, is_trail, utf16. intros Hc Hd. breflect. rewrite (proj2 (Z.ltb_ge _ _)) by lia. f_equal; [divmod|]. f_equal. divmod.
Qed.

Lemma well_formed_scalars s : well_formed s = true -> utf16_all (scalars s) = s.
Proof.
  remember (length s) as n eqn:Hn. assert (length s <= n)%nat as Hle by lia. clear Hn. revert s Hle.
  induction n as [|n IH]; intros [|c s] Hle H; cbn [well_formed] in H; try done; cbn in Hle; [lia|].
  cbn [scalars]. destruct (is_surrogate c) eqn:Es.
  - destruct s as [|d s]; [done|]. apply andb_true_iff in H as [[Hc Hd]%andb_true_iff H]. rewrite Hc, Hd.
    unfold utf16_all. cbn [map List.concat]. rewrite utf16_pair by done. cbn [app]. do 2 f_equal. apply IH; [cbn in Hle; lia | done].
  - destruct (not_surrogate c Es) as [-> ->]. apply andb_true_iff in H as [Hr H]. unfold utf16_all. cbn [map List.concat].
    unfold utf16 at 1. rewrite (proj2 (Z.ltb_lt _ _)) by lia. cbn [app]. f_equal. apply IH; [lia | done].
Qed.

Lemma well_formed_seen s : well_formed s = true -> seen s = s /\ Forall is_unit s.
Proof.
  intros H. enough (ends_two_leads s = false /\ Forall is_unit s) as [E Hu] by (unfold seen; by rewrite E). revert H.
  remember (length s) as n eqn:Hn. assert (length s <= n)%nat as Hle by lia. clear Hn. revert s Hle.
  induction n as [|n IH]; intros [|c s] Hle H; cbn [well_formed] in H; try (split; [done | constructor]); cbn in Hle; [lia|].
  destruct (is_surrogate c) eqn:Es.
  - destruct s as [|d s]; [done|]. apply andb_true_iff in H as [[Hc Hd]%andb_true_iff H].
    destruct (IH s) as [E Hu]; [cbn in Hle; lia | done|]. assert (is_unit c /\ is_unit d) as [? ?] by (revert Hc Hd; unfold is_lead, is_trail, is_unit; lia).
    split; [|by rewrite !Forall_cons_iff].
    destruct s as [|b s]; cbn [ends_two_leads]; [revert Hd; unfold is_trail, is_lead; lia|].
    destruct s; [revert H; cbn; unfold is_surrogate, is_lead; destruct (is_lead d) eqn:E1; unfold is_lead, is_trail in *; lia | exact E].
  - apply andb_true_iff in H as [Hr H]. destruct (IH s) as [E Hu]; [lia | done|]. split; [|constructor; [unfold is_unit; lia | done]].
    destruct (not_surrogate c Es) as [Ec _]. cbn [ends_two_leads]. destruct s as [|b [|b' s]]; [done | by rewrite Ec | exact E].
Qed.
