(* ===== verification/BufferText.v ===== *)
(** Strings in the Buffer of the browser (module 143): the encodings utf8, hex,
    ascii, latin1, base64 and utf16le, the creation of a Buffer from a string,
    [write], [toString] and [fill] with a string.  UTF-8 itself is in Utf8, the
    base64 codec in Base64. *)

From Stdlib Require Import ZArith Lia List Bool String.
From stdpp Require Import base list list_numbers tactics.
From S2P Require Import Prelude JsNum Int32 Base64 FormEditors Buffers Utf8.

(** ** Encodings *)

Inductive encoding := Hex | UTF8 | Ascii | Latin1 | Base64Text | UCS2.

(** The cases of the switches over a name. *)
Definition encoding_case (name : jstr) : option encoding :=
  if streq name (u "hex") then Some Hex
  else if streq name (u "utf8") || streq name (u "utf-8") then Some UTF8
  else if streq name (u "ascii") then Some Ascii
  else if streq name (u "latin1") || streq name (u "binary") then Some Latin1
  else if streq name (u "base64") then Some Base64Text
  else if streq name (u "ucs2") || streq name (u "ucs-2") || streq name (u "utf16le") || streq name (u "utf-16le") then Some UCS2
  else None.

(** The loop of a switch: the name as it is, and in lower case once. *)
Definition encoding_of (name : jstr) : option encoding :=
  match encoding_case name with
  | Some e => Some e
  | None => encoding_case (map lower_char name)
  end.

Definition isEncoding (name : jstr) : bool :=
  match encoding_case (map lower_char name) with Some _ => true | None => false end.

(** ** From strings to bytes *)

Definition asciiToBytes (str : jstr) : list Z := map (fun c => band c 255) str.

Fixpoint utf16leToBytes (str : jstr) (units : Z) : list Z :=
  match str with
  | [] => []
  | c :: str => if units - 2 <? 0 then [] else c mod 256 :: shr c 8 :: utf16leToBytes str (units - 2)
  end.

(** [INVALID_BASE64_RE] does not match. *)
Definition base64_valid (c : Z) : bool :=
  (c =? 43) || (c =? 47) || ((48 <=? c) && (c <=? 57)) || ((65 <=? c) && (c <=? 90)) || ((97 <=? c) && (c <=? 122)) || (c =? 45) || (c =? 95).

(** [while (str.length % 4 !== 0) str = str + '='] *)
Fixpoint pad4 (fuel : nat) (str : jstr) : jstr :=
  match fuel with
  | O => str
  | S fuel => if zlen str mod 4 =? 0 then str else pad4 fuel (str ++ u "=")
  end.

Definition base64clean (str : jstr) : jstr :=
  let str := List.filter base64_valid (js_trim str) in
  if zlen str <? 2 then [] else pad4 4 str.

Definition base64ToBytes (str : jstr) : res (list Z) := toByteArray (base64clean str).

(** [byteLength] of a string. *)
Definition text_length (string : jstr) (enc : encoding) : res Z :=
  let len := zlen string in
  if len =? 0 then Ok 0
  else match enc with
       | Ascii | Latin1 => Ok len
       | UTF8 => Ok (zlen (utf8ToBytes string None))
       | UCS2 => Ok (len * 2)
       | Hex => Ok (len / 2)
       | Base64Text => l <-? base64ToBytes string; Ok (zlen l)
       end.

(** An unknown encoding is taken for utf8. *)
Definition string_byteLength (string : jstr) (name : option jstr) : res Z :=
  text_length string (match name with Some name => default UTF8 (encoding_of name) | None => UTF8 end).

(** ** Writing *)

(** [blitBuffer]: the number of bytes, and the store. *)
Fixpoint blit (n : nat) (i : Z) (src : list Z) (dst : buffer) (offset : Z) (st : store) : Z * store :=
  match n with
  | O => (i, st)
  | S n =>
      if (b_len dst <=? i + offset) || (zlen src <=? i) then (i, st)
      else blit n (i + 1) src dst offset (put_opt dst (i + offset) (zget src i) st)
  end.

Definition blitBuffer (src : list Z) (dst : buffer) (offset length : Z) (st : store) : Z * store :=
  blit (Z.to_nat length) 0 src dst offset st.

(** [parseInt(string.substr(i * 2, 2), 16)]; [None] is [NaN]. *)
Definition hex_pair (string : jstr) (i : Z) : option Z := num_to_Z (parseInt (zslice (i * 2) (i * 2 + 2) string) 16).

Fixpoint hex_loop (n : nat) (i : Z) (string : jstr) (buf : buffer) (offset : Z) (st : store) : Z * store :=
  match n with
  | O => (i, st)
  | S n =>
      match hex_pair string i with
      | None => (i, st)
      | Some parsed => hex_loop n (i + 1) string buf offset (put buf (offset + i) parsed st)
      end
  end.

Definition hexWrite (buf : buffer) (string : jstr) (offset length : Z) (st : store) : res (Z * store) :=
  let remaining := b_len buf - offset in
  let length := if length =? 0 then remaining else if remaining <? length then remaining else length in
  let strLen := zlen string in
  if negb (strLen mod 2 =? 0) then Err TypeError
  else
    let length := if strLen <? length * 2 then strLen / 2 else length in
    Ok (hex_loop (Z.to_nat length) 0 string buf offset st).

Definition utf8Write (buf : buffer) (string : jstr) (offset length : Z) (st : store) : Z * store :=
  blitBuffer (utf8ToBytes string (Some (b_len buf - offset))) buf offset length st.

Definition asciiWrite (buf : buffer) (string : jstr) (offset length : Z) (st : store) : Z * store :=
  blitBuffer (asciiToBytes string) buf offset length st.

Definition latin1Write := asciiWrite.

Definition base64Write (buf : buffer) (string : jstr) (offset length : Z) (st : store) : res (Z * store) :=
  l <-? base64ToBytes string; Ok (blitBuffer l buf offset length st).

Definition ucs2Write (buf : buffer) (string : jstr) (offset length : Z) (st : store) : Z * store :=
  blitBuffer (utf16leToBytes string (b_len buf - offset)) buf offset length st.

(** The arguments of [write] after the string: none, an encoding, an offset
    with or without a length, and an encoding. *)
Inductive write_args :=
| WriteAll
| WriteEncoding (name : jstr)
| WriteAt (offset : Z) (length : option Z) (name : option jstr).

Definition write_as (this : buffer) (string : jstr) (offset length : Z) (name : option jstr) (st : store) : res (Z * store) :=
  match (match name with Some ((_ :: _) as name) => encoding_of name | _ => Some UTF8 end) with
  | Some Hex => hexWrite this string offset length st
  | Some UTF8 => Ok (utf8Write this string offset length st)
  | Some Ascii => Ok (asciiWrite this string offset length st)
  | Some Latin1 => Ok (latin1Write this string offset length st)
  | Some Base64Text => base64Write this string offset length st
  | Some UCS2 => Ok (ucs2Write this string offset length st)
  | None => Err TypeError
  end.

Definition write (this : buffer) (string : jstr) (args : write_args) (st : store) : res (Z * store) :=
  let '(offset, length, name) :=
    match args with
    | WriteAll => (0, Some (b_len this), None)
    | WriteEncoding name => (0, Some (b_len this), Some name)
    | WriteAt offset length name => (to_int32 offset, option_map to_int32 length, name)
    end in
  let remaining := b_len this - offset in
  let length := match length with Some n => if remaining <? n then remaining else n | None => remaining end in
  if ((0 <? zlen string) && ((length <? 0) || (offset <? 0))) || (b_len this <? offset) then Err RangeError
  else write_as this string offset length name st.

(** [fromString]: without an encoding, or with an empty one, utf8. *)
Definition fromString (string : jstr) (name : option jstr) (st : store) : res (buffer * store) :=
  let name := match name with Some ((_ :: _) as name) => name | _ => u "utf8" end in
  if negb (isEncoding name) then Err TypeError
  else
    n <-? string_byteLength string (Some name);
    let length := to_int32 n in
    ' (that, st) <-? createBuffer length st;
    ' (actual, st) <-? write that string (WriteEncoding name) st;
    Ok (if negb (actual =? length) then slice that 0 (Some actual) st else (that, st)).

(** ** From bytes to strings *)

(** [buf[i]] for [i] from [start] to [e]. *)
Definition read_range (st : store) (buf : buffer) (start e : Z) : list Z :=
  map (fun i => default 0 (get st buf i)) (seqZ start (e - start)).

Definition asciiSlice (st : store) (buf : buffer) (start e : Z) : jstr :=
  map (fun b => band b 127) (read_range st buf start (Z.min (b_len buf) e)).

Definition latin1Slice (st : store) (buf : buffer) (start e : Z) : jstr := read_range st buf start (Z.min (b_len buf) e).

Definition toHex (n : Z) : jstr := if n <? 16 then u "0" ++ to_radix 16 n else to_radix 16 n.

Definition hexSlice (st : store) (buf : buffer) (start e : Z) : jstr :=
  let len := b_len buf in
  let start := if start <? 0 then 0 else start in
  let e := if (e =? 0) || (e <? 0) || (len <? e) then len else e in
  List.concat (map toHex (read_range st buf start e)).

(** The elements of a Buffer, as an array. *)
Definition elements (st : store) (buf : buffer) : list Z := read_range st buf 0 (b_len buf).

Definition base64Slice (st : store) (buf : buffer) (start e : Z) : jstr :=
  if (start =? 0) && (e =? b_len buf) then fromByteArray (elements st buf)
  else let '(b, st) := slice buf start (Some e) st in fromByteArray (elements st b).

(** The character of [bytes[i] + bytes[i + 1] * 256]; behind the end the sum is
    [NaN], whose character is U+0000. *)
Definition unit_at (st : store) (bytes : buffer) (i : Z) : Z :=
  match get st bytes i, get st bytes (i + 1) with
  | Some lo, Some hi => (lo + hi * 256) mod 65536
  | _, _ => 0
  end.

Fixpoint units_from (fuel : nat) (st : store) (bytes : buffer) (i : Z) : jstr :=
  match fuel with
  | O => []
  | S fuel => if i <? b_len bytes then unit_at st bytes i :: units_from fuel st bytes (i + 2) else []
  end.

Definition utf16leSlice (st : store) (buf : buffer) (start e : Z) : jstr :=
  let '(bytes, st) := slice buf start (Some e) st in units_from (Z.to_nat (b_len bytes)) st bytes 0.

Definition slowToString (st : store) (this : buffer) (name : option jstr) (start end_ : option Z) : res jstr :=
  let start := match start with Some s => if s <? 0 then 0 else s | None => 0 end in
  if b_len this <? start then Ok []
  else
    let e := match end_ with Some e => if b_len this <? e then b_len this else e | None => b_len this end in
    if e <=? 0 then Ok []
    else
      let e := to_uint32 e in
      let start := to_uint32 start in
      if e <=? start then Ok []
      else match (match name with Some ((_ :: _) as name) => encoding_of name | _ => Some UTF8 end) with
           | Some Hex => Ok (hexSlice st this start e)
           | Some UTF8 => Ok (utf8Slice st this start e)
           | Some Ascii => Ok (asciiSlice st this start e)
           | Some Latin1 => Ok (latin1Slice st this start e)
           | Some Base64Text => Ok (base64Slice st this start e)
           | Some UCS2 => Ok (utf16leSlice st this start e)
           | None => Err TypeError
           end.

(** [toString], with arguments or without any. *)
Definition toString (st : store) (this : buffer) (args : option (option jstr * option Z * option Z)) : res jstr :=
  let length := to_int32 (b_len this) in
  if length =? 0 then Ok []
  else match args with
       | None => Ok (utf8Slice st this 0 length)
       | Some (name, start, end_) => slowToString st this name start end_
       end.

(** ** [fill] with a string

    One character below 256 is the byte it is; otherwise the string is encoded,
    decoded and encoded again. *)
Definition fill_string (this : buffer) (val : jstr) (start end_ : option Z) (name : option jstr) (st : store) : res store :=
  if match name with Some name => negb (isEncoding name) | None => false end then Err TypeError
  else
    let is_number := match val with [] => Some 0 | [code] => if code <? 256 then Some code else None | _ => None end in
    match is_number with
    | Some n => fill this (FillNumber n) start end_ st
    | None =>
        let out_of_range := match fill this (FillNumber 0) start end_ st with Err _ => true | Ok _ => false end in
        if out_of_range || match start, end_ with Some s, Some e => e <=? s | _, _ => false end
        then fill this (FillNumber 0) start end_ st
        else
          ' (b, st) <-? fromString val name st;
          s <-? toString st b None;
          fill this (FillBytes (utf8ToBytes s None)) start end_ st
    end.

(** * Properties *)

(** ** Bytes written to a Buffer *)

(** The bytes [l] are in the memory of [dst] from [offset] on, and the rest of
    the memory is as it was. *)
Definition written (dst : buffer) (offset : Z) (l : list Z) (st st' : store) : Prop :=
  forall m p, cell st' m p = if decide (m = b_mem dst /\ b_off dst + offset <= p < b_off dst + offset + zlen l)
                             then zget l (p - b_off dst - offset) else cell st m p.

Lemma read_range_contents st b start e :
  inside st b -> 0 <= start <= e -> e <= b_len b -> read_range st b start e = zslice start e (contents st b).
Proof.
  intros Hb Hs He. pose proof (zlen_contents st b Hb) as Hl. apply zget_ext. intros j Hj.
  rewrite zget_zslice by lia. unfold read_range, zget at 1. rewrite (proj2 (Z.ltb_ge j 0)) by lia. rewrite list_lookup_fmap.
  destruct (decide (j < e - start)).
  - rewrite decide_True by lia. rewrite lookup_seqZ_lt by lia. cbn. rewrite get_contents by done.
    rewrite Z2Nat.id by lia. rewrite get_cell by lia. destruct (cell_inside st b (start + j) Hb ltac:(lia)) as [x ->]. done.
  - rewrite decide_False by lia. rewrite lookup_seqZ_ge by lia. done.
Qed.

Lemma elements_contents st b : inside st b -> elements st b = contents st b.
Proof.
  intros Hb. pose proof (in_len _ _ Hb). unfold elements. rewrite read_range_contents by (done || lia).
  rewrite <- (zlen_contents st b Hb). apply zslice_full.
Qed.

(** [blitBuffer] is a loop that writes the first bytes. *)
Lemma blit_loop src dst offset : forall n i st, 0 <= i <= zlen src -> i + Z.of_nat n + offset <= b_len dst ->
  let k := Z.min (Z.of_nat n) (zlen src - i) in
  blit n i src dst offset st = (i + k, loop_up (Z.to_nat k) i (fun i => put_opt dst (i + offset) (zget src i)) st).
Proof.
  induction n as [|n IH]; intros i st Hi Hn k; cbn [blit].
  - assert (k = 0) as -> by lia. cbn. f_equal. lia.
  - rewrite (proj2 (Z.leb_gt (b_len dst) (i + offset))) by lia. cbn [orb]. destruct (Z.leb_spec (zlen src) i).
    + assert (k = 0) as -> by lia. cbn. f_equal. lia.
    + rewrite IH by lia. replace (Z.to_nat k) with (S (Z.to_nat (Z.min (Z.of_nat n) (zlen src - (i + 1))))) by lia.
      cbn [loop_up]. f_equal. lia.
Qed.

Lemma put_loop_stable dst (d : Z) (f : Z -> option Z) n a st : stable st (loop_up n a (fun i => put_opt dst (i + d) (f i)) st).
Proof. apply loop_up_stable. intros. apply put_stable. Qed.

(** Whatever is shorter limits the bytes that are written. *)
Lemma blit_written src dst offset n st : bytes src -> inside st dst -> 0 <= offset -> 0 <= n -> offset + n <= b_len dst ->
  let l := take (Z.to_nat n) src in
  exists st', blitBuffer src dst offset n st = (zlen l, st') /\ stable st st' /\ written dst offset l st st'.
Proof.
  intros Hs Hd Ho Hn Hlen l. pose proof (zlen_nonneg src). assert (Hl : zlen l = Z.min n (zlen src)) by (unfold l, zlen; rewrite length_take; lia).
  unfold blitBuffer. rewrite blit_loop by lia. cbv zeta. rewrite Z2Nat.id, Z.sub_0_r, Z.add_0_l, <- Hl by lia.
  eexists. split; [done|]. split; [apply put_loop_stable|]. intros m p. rewrite loop_put by (done || lia).
  rewrite Z.add_0_r, Z.add_0_l, Z2Nat.id by lia. destruct (decide _) as [[-> Hp]|]; [|done].
  destruct (zget_lt l (p - b_off dst - offset)) as [x Hx]; [lia|]. rewrite Hx.
  assert (Hx' : zget src (p - b_off dst - offset) = Some x).
  { revert Hx. unfold l, zget. case_match; [done|]. rewrite lookup_take_Some. tauto. }
  rewrite Hx'. cbn. f_equal. apply Z.mod_small. eapply (proj1 (Forall_elem _ _) Hs), zget_elem, Hx'.
Qed.

(** What was written is read back. *)
Lemma written_range dst offset l st st' : inside st' dst -> 0 <= offset -> offset + zlen l <= b_len dst ->
  written dst offset l st st' -> zslice offset (offset + zlen l) (contents st' dst) = l.
Proof.
  intros Hd Ho Hl Hw. pose proof (zlen_contents st' dst Hd). pose proof (zlen_nonneg l). apply zget_ext. intros j Hj. rewrite zget_zslice by lia.
  destruct (decide (0 <= j < offset + zlen l - offset)).
  - rewrite get_contents, get_cell by (done || lia). rewrite Hw, decide_True by lia. f_equal. lia.
  - symmetry. apply zget_None. lia.
Qed.

(** A Buffer with the bytes [bs] was made, and the others are as before. *)
Record made (st : store) (bs : list Z) (b : buffer) (st' : store) : Prop := {
  mk_inside : inside st' b;
  mk_contents : contents st' b = bs;
  mk_others : forall c, inside st c -> inside st' c /\ contents st' c = contents st c;
  mk_bytes : byte_store st -> byte_store st'
}.

Lemma contents_prefix st b n id : inside st b -> 0 <= n <= b_len b ->
  contents st (Buf id (b_mem b) (b_off b) n) = zslice 0 n (contents st b).
Proof.
  intros Hb Hn. pose proof (in_off _ _ Hb). pose proof (in_end _ _ Hb). apply zget_ext. intros j Hj. unfold contents at 1. cbn [b_off b_mem b_len].
  rewrite !zget_zslice by (rewrite ?zlen_contents by done; lia). rewrite Z.sub_0_r, Z.add_simpl_l, Z.add_0_l. destruct (decide _); [|done].
  rewrite get_contents, get_cell by (done || lia). done.
Qed.

(** How [fromString] goes when the string can be measured and written. *)
Lemma fromString_made string c name enc n bs st :
  encoding_of (c :: name) = Some enc -> isEncoding (c :: name) = true -> text_length string enc = Ok n -> 0 <= n <= kMaxLength -> zlen bs <= n ->
  (forall b st1, fresh st b n st1 -> exists st2, write_as b string 0 n (Some (c :: name)) st1 = Ok (zlen bs, st2) /\ stable st1 st2 /\ written b 0 bs st1 st2) ->
  exists b st', fromString string (Some (c :: name)) st = Ok (b, st') /\ made st bs b st'.
Proof.
  intros He Hi Hn Hr Hbs Hw. destruct (createBuffer_fresh n st Hr) as (b & st1 & Hc & Hf).
  destruct (Hw b st1 Hf) as (st2 & Hwr & [Hsh Hby] & Hwt). pose proof Hf as [F1 [F2 F2'] (F3 & F4 & F5) F6 F7 F8].
  assert (Hb2 : inside st2 b) by (by eapply shape_inside). pose proof (zlen_nonneg bs) as Hnn.
  assert (Hothers : forall c0, inside st c0 -> inside st2 c0 /\ contents st2 c0 = contents st c0).
  { intros c0 Hc0. split; [by eapply shape_inside; [|apply F8]|]. rewrite <- (fresh_contents _ _ _ _ _ Hf Hc0).
    apply contents_same; [done | by apply F8|]. intros p. rewrite Hwt, decide_False; [done|]. pose proof (in_mem _ _ Hc0). lia. }
  assert (Hcont : zslice 0 (zlen bs) (contents st2 b) = bs) by (apply (written_range b 0 bs st1 st2); [done | lia | lia | done]).
  unfold kMaxLength in Hr. unfold fromString. cbv beta iota zeta. rewrite Hi. cbn [negb]. unfold string_byteLength. rewrite He. cbn [default]. unfold id.
  rewrite Hn. cbn [res_bind]. rewrite to_int32_small by lia. rewrite Hc. cbn [res_bind]. unfold write. cbn [option_map].
  rewrite Z.sub_0_r, F4, Z.ltb_irrefl. rewrite (proj2 (Z.ltb_ge n 0)) by lia. cbn [orb Z.ltb Z.compare]. rewrite andb_false_r. cbn [orb].
  rewrite Hwr. cbn [res_bind]. destruct (Z.eqb_spec (zlen bs) n) as [E|E]; cbn [negb].
  - exists b, st2. split; [done|]. split; [done| |done|by intros H; apply Hby, F6].
    rewrite <- Hcont, E, <- F4, <- (zlen_contents st2 b Hb2). by rewrite zslice_full.
  - exists (Buf (next_id st2) (b_mem b) (b_off b) (zlen bs)), (Store (mems st2) (next_id st2 + 1)). split.
    { unfold slice. rewrite F4. rewrite !clamp_index_in by lia. rewrite (proj2 (Z.ltb_ge _ 0)) by lia. do 3 f_equal; lia. }
    assert (Hst : forall c0, inside st2 c0 -> inside (Store (mems st2) (next_id st2 + 1)) c0) by (intros c0 [H1 H2 H3 H4]; by split).
    split.
    + apply Hst. destruct Hb2 as [H1 H2 H3 H4]. split; cbn [b_mem b_off b_len]; lia || done.
    + rewrite <- Hcont at 2. apply (contents_prefix st2 b (zlen bs)); [done | lia].
    + intros c0 Hc0. destruct (Hothers c0 Hc0). split; [by apply Hst | done].
    + intros H. apply Hby, F6, H.
Qed.

(** ** Names *)

Lemma encoding_case_lower name e : encoding_case name = Some e -> encoding_case (map lower_char name) = Some e.
Proof.
  unfold encoding_case at 1. repeat case_goal; intros [= <-];
    repeat match goal with
    | H : (_ || _)%bool = true |- _ => apply orb_true_iff in H as [H|H]
    | H : streq name _ = true |- _ => apply streq_eq in H; subst name
    end; vm_compute; reflexivity.
Qed.

Lemma encoding_of_case name : encoding_of name = encoding_case (map lower_char name).
Proof. unfold encoding_of. destruct (encoding_case name) eqn:E; [|done]. symmetry. by apply encoding_case_lower. Qed.

Lemma encoding_of_is name e : encoding_of name = Some e -> isEncoding name = true.
Proof. rewrite encoding_of_case. unfold isEncoding. by intros ->. Qed.

Lemma encoding_of_cons name e : encoding_of name = Some e -> exists c name', name = c :: name'.
Proof. destruct name as [|c name]; [done|]. eauto. Qed.

Lemma write_as_enc name e this s offset n st : encoding_of name = Some e ->
  write_as this s offset n (Some name) st = match e with
    | Hex => hexWrite this s offset n st
    | UTF8 => Ok (utf8Write this s offset n st)
    | Ascii => Ok (asciiWrite this s offset n st)
    | Latin1 => Ok (latin1Write this s offset n st)
    | Base64Text => base64Write this s offset n st
    | UCS2 => Ok (ucs2Write this s offset n st)
    end.
Proof. intros H. destruct (encoding_of_cons _ _ H) as (c & name' & ->). unfold write_as. by rewrite H. Qed.

(** ** UTF-8 *)

Lemma rfc3629_bytes cp : 0 <= cp < 1114112 -> bytes (rfc3629 cp).
Proof. intros H. unfold rfc3629, bytes, is_byte. repeat case_match; breflect; repeat (apply Forall_cons_2; [divmod|]); apply Forall_nil_2. Qed.

Lemma encode_all_bytes cps : Forall scalar cps -> bytes (encode_all cps).
Proof.
  induction 1 as [|cp cps [Hcp _] _ IH]; [apply Forall_nil_2|]. unfold encode_all. cbn [map List.concat]. apply Forall_app.
  split; [by apply rfc3629_bytes | exact IH].
Qed.

Lemma zlen_encode_cons cp cps : zlen (encode_all (cp :: cps)) = zlen (rfc3629 cp) + zlen (encode_all cps).
Proof. unfold encode_all. cbn [map List.concat]. by rewrite zlen_app. Qed.

Lemma fit_none cps : fit None cps = cps.
Proof. induction cps as [|cp cps IH]; cbn [fit take_units]; [done | by rewrite IH]. Qed.

Lemma fit_scalar cps : Forall scalar cps -> forall u, Forall scalar (fit u cps).
Proof.
  induction 1 as [|cp cps Hcp _ IH]; intros u0; cbn [fit]; [apply Forall_nil_2|].
  destruct (take_units _ _); [by apply Forall_cons_2 | apply Forall_nil_2].
Qed.

Lemma fit_le cps : forall n, 0 <= n -> zlen (encode_all (fit (Some n) cps)) <= n.
Proof.
  induction cps as [|cp cps IH]; intros n Hn; cbn [fit take_units]; [done|].
  destruct (n - zlen (rfc3629 cp) <? 0) eqn:E; breflect; [done|]. rewrite zlen_encode_cons. specialize (IH _ E). lia.
Qed.

Lemma fit_all cps : forall n, zlen (encode_all cps) <= n -> fit (Some n) cps = cps.
Proof.
  induction cps as [|cp cps IH]; intros n Hn; cbn [fit take_units]; [done|]. rewrite zlen_encode_cons in Hn.
  pose proof (zlen_nonneg (encode_all cps)). rewrite (proj2 (Z.ltb_ge _ 0)) by lia. rewrite IH by lia. done.
Qed.

Lemma utf8ToBytes_none s : Forall is_unit s -> utf8ToBytes s None = encode_all (scalars (seen s)).
Proof. intros Hs. unfold utf8ToBytes. destruct (utf8_loop_ok s Hs) as [H _]. by rewrite H, fit_none. Qed.

Lemma seen_units s : Forall is_unit s -> Forall is_unit (seen s).
Proof.
  intros Hs. unfold seen. destruct (ends_two_leads s); [|done].
  induction Hs as [|c s Hc Hs IH]; [apply Forall_nil_2|]. cbn [removelast]. destruct s; [apply Forall_nil_2 | by apply Forall_cons_2].
Qed.

(** The code points of the part of a string that the encoder sees. *)
Definition seen_points (s : jstr) : list Z := scalars (seen s).

Lemma seen_points_scalar s : Forall is_unit s -> Forall scalar (seen_points s).
Proof. intros Hs. by apply scalars_scalar, seen_units. Qed.

(** [utf8Write] writes the code points that fit. *)
Lemma utf8Write_written this s offset st : Forall is_unit s -> inside st this -> 0 <= offset <= b_len this ->
  let l := encode_all (fit (Some (b_len this - offset)) (seen_points s)) in
  exists st', utf8Write this s offset (b_len this - offset) st = (zlen l, st') /\ stable st st' /\ written this offset l st st'.
Proof.
  intros Hs Hi Ho l. pose proof (seen_points_scalar s Hs) as Hsc. unfold utf8Write.
  set (src := utf8ToBytes _ _). assert (Hl : take (Z.to_nat (b_len this - offset)) src = l /\ bytes src).
  { unfold src, utf8ToBytes, l. destruct (utf8_loop_ok s Hs) as [H _]. rewrite H. fold (seen_points s).
    split; [|by apply encode_all_bytes, fit_scalar]. destruct (Z.eqb_spec (b_len this - offset) 0) as [E|E].
    - rewrite E. pose proof (fit_le (seen_points s) 0 ltac:(lia)) as Hz. destruct (encode_all (fit (Some 0) (seen_points s))); [done|].
      rewrite zlen_cons in Hz. pose proof (zlen_nonneg l0). lia.
    - apply take_ge. pose proof (fit_le (seen_points s) (b_len this - offset) ltac:(lia)) as Hz. unfold zlen in Hz. lia. }
  destruct Hl as [<- Hb]. apply blit_written; (done || lia).
Qed.

(** The text of a Buffer that was made of code points. *)
Lemma toString_points st b cps args : inside st b -> Forall scalar cps -> contents st b = encode_all cps -> b_len b < 2 ^ 31 ->
  args = None \/ args = Some (None, None, None) -> toString st b args = Ok (utf16_all cps).
Proof.
  intros Hb Hc He Hl Hargs. pose proof (in_len _ _ Hb). pose proof (zlen_contents _ _ Hb) as Hz. unfold toString. rewrite to_int32_small by lia.
  destruct (Z.eqb_spec (b_len b) 0) as [E|E].
  { destruct cps as [|cp cps]; [done|]. rewrite He, zlen_encode_cons in Hz.
    pose proof (zlen_rfc3629 cp). pose proof (zlen_nonneg (encode_all cps)). lia. }
  assert (Hs : utf8Slice st b 0 (b_len b) = utf16_all cps).
  { apply utf8Slice_encoded; try (done || lia). by rewrite <- Hz, zslice_full. }
  destruct Hargs as [->| ->]; [by rewrite Hs|]. unfold slowToString. rewrite (proj2 (Z.ltb_ge (b_len b) 0)) by lia.
  rewrite (proj2 (Z.leb_gt (b_len b) 0)) by lia. unfold to_uint32. rewrite !Z.mod_small by lia. rewrite (proj2 (Z.leb_gt (b_len b) 0)) by lia.
  by rewrite Hs.
Qed.

Lemma string_becomes_buffer s st :
  Forall is_unit s -> byte_store st -> zlen (encode_all (seen_points s)) < kMaxLength ->
  exists b st', fromString s None st = Ok (b, st') /\ made st (encode_all (seen_points s)) b st' /\
    toString st' b None = Ok (utf16_all (seen_points s)).
Proof.
  intros Hs Hb Hn. pose proof (seen_points_scalar s Hs) as Hsc. set (l := encode_all (seen_points s)) in *. pose proof (zlen_nonneg l). unfold kMaxLength in Hn.
  destruct (fromString_made s 117 (u "tf8") UTF8 (zlen l) l st) as (b & st' & Hf & Hm); try done.
  - unfold text_length. rewrite utf8ToBytes_none by done. fold (seen_points s). fold l.
    destruct (Z.eqb_spec (zlen s) 0) as [E|E]; [|done]. destruct s; [done|]. rewrite zlen_cons in E. pose proof (zlen_nonneg s). lia.
  - unfold kMaxLength. lia.
  - intros b st1 Hf. destruct (utf8Write_written b s 0 st1 Hs) as (st2 & H2 & Hst & Hw); [apply Hf | pose proof (in_len _ _ (fr_inside _ _ _ _ Hf)); lia|].
    destruct (fr_mem _ _ _ _ Hf) as (_ & El & _). rewrite Z.sub_0_r, El, fit_all in H2, Hw by done.
    exists st2. split; [|by split]. change (Ok (utf8Write b s 0 (zlen l) st1) = Ok (zlen l, st2)). by rewrite H2.
  - exists b, st'. split; [exact Hf|]. split; [done|]. destruct Hm as [M1 M2 M3 M4].
    apply toString_points; try done; [|by left]. rewrite <- (zlen_contents _ _ M1), M2. lia.
Qed.

(** C36.  A string that becomes a Buffer in UTF-8 holds the encodings of its
    code points by RFC 3629, U+FFFD for a surrogate that stands alone, and is
    read back as their UTF-16, which is the same string when there is no such
    surrogate.  Strings that end with two leading surrogates are left out:
    the program drops the second ([two_leads_lost]). *)
Theorem utf8_roundtrip s st :
  Forall is_unit s -> byte_store st -> ends_two_leads s = false -> zlen (encode_all (scalars s)) < kMaxLength ->
  exists b st', fromString s None st = Ok (b, st') /\ made st (encode_all (scalars s)) b st' /\
    toString st' b None = Ok (utf16_all (scalars s)) /\ (well_formed s = true -> toString st' b None = Ok s).
Proof.
  intros Hs Hb He Hn. assert (E : seen_points s = scalars s) by (unfold seen_points, seen; by rewrite He).
  destruct (string_becomes_buffer s st Hs Hb) as (b & st' & H1 & H2 & H3); [by rewrite E|]. rewrite E in *.
  exists b, st'. split; [done|]. split; [done|]. split; [done|]. intros Hwf. by rewrite H3, well_formed_scalars.
Qed.

(** Of two leading surrogates at the end of a string, the second is lost: there
    is one U+FFFD for both. *)
Theorem two_leads_lost s a c st :
  Forall is_unit (s ++ [a; c]) -> is_lead a = true -> is_lead c = true -> byte_store st ->
  zlen (encode_all (scalars (s ++ [a]))) < kMaxLength ->
  exists b st', fromString (s ++ [a; c]) None st = Ok (b, st') /\ made st (encode_all (scalars (s ++ [a]))) b st'.
Proof.
  intros Hs Ha Hc Hb Hn. assert (E : seen_points (s ++ [a; c]) = scalars (s ++ [a])).
  { unfold seen_points, seen. assert (ends_two_leads (s ++ [a; c]) = true) as ->.
    { clear -Ha Hc. induction s as [|x s IH]; [cbn; by rewrite Ha, Hc|]. cbn [app ends_two_leads]. by destruct s as [|y [|]]. }
    f_equal. replace (s ++ [a; c]) with ((s ++ [a]) ++ [c]) by (by rewrite <- app_assoc). by rewrite removelast_last. }
  destruct (string_becomes_buffer (s ++ [a; c]) st Hs Hb) as (b & st' & H1 & H2 & _); [by rewrite E|]. rewrite E in *. by exists b, st'.
Qed.

(** A text that is written into what is left of a Buffer stops before the
    first code point that does not fit: it fills whole code points, and tells
    how many bytes they take. *)
Theorem write_whole_points this s offset st :
  Forall is_unit s -> inside st this -> b_len this < 2 ^ 31 -> 0 <= offset <= b_len this ->
  let cps := fit (Some (b_len this - offset)) (seen_points s) in
  exists st', write this s (WriteAt offset None None) st = Ok (zlen (encode_all cps), st') /\
    stable st st' /\ written this offset (encode_all cps) st st' /\
    utf8Slice st' this offset (offset + zlen (encode_all cps)) = utf16_all cps.
Proof.
  intros Hs Hi Hl Ho cps. destruct (utf8Write_written this s offset st Hs Hi Ho) as (st' & H1 & Hst & Hw). fold cps in H1, Hw.
  exists st'. split; [|split; [done|split; [done|]]].
  - unfold write. cbn [option_map]. rewrite to_int32_small by lia.
    rewrite (proj2 (Z.ltb_ge _ 0)), (proj2 (Z.ltb_ge offset 0)), (proj2 (Z.ltb_ge (b_len this) offset)) by lia. cbn [orb]. rewrite andb_false_r.
    cbn [orb]. change (Ok (utf8Write this s offset (b_len this - offset) st) = Ok (zlen (encode_all cps), st')). by rewrite H1.
  - assert (Hi' : inside st' this) by (eapply shape_inside; [apply Hst | done]). pose proof (zlen_nonneg (encode_all cps)).
    assert (zlen (encode_all cps) <= b_len this - offset) by (apply fit_le; lia).
    apply utf8Slice_encoded; try (done || lia); [by apply fit_scalar, seen_points_scalar|]. apply (written_range _ _ _ st); (done || lia).
Qed.

(** ** Hexadecimal *)

(** The bytes of the pairs of digits up to the first that [parseInt] refuses. *)
Fixpoint hex_bytes (s : jstr) : list Z :=
  match s with
  | a :: b :: s => match num_to_Z (parseInt [a; b] 16) with Some v => v mod 256 :: hex_bytes s | None => [] end
  | _ => []
  end.

Lemma written_nil b offset st : written b offset [] st st.
Proof. intros m p. by rewrite decide_False by (rewrite zlen_nil; lia). Qed.

(** A byte, and then the others behind it. *)
Lemma written_cons b offset x l st st' : inside st b -> 0 <= offset < b_len b ->
  written b (offset + 1) l (put b offset x st) st' -> written b offset (x mod 256 :: l) st st'.
Proof.
  intros Hb Ho Hw m p. pose proof (zlen_nonneg l). rewrite Hw, cell_put by done. rewrite zlen_cons.
  destruct (decide (m = b_mem b /\ b_off b + (offset + 1) <= p < _)) as [[-> Hp]|Hn].
  - rewrite decide_True by lia. rewrite zget_cons by lia. f_equal. lia.
  - destruct (decide (m = b_mem b /\ b_off b + offset <= p < _)) as [[-> Hp]|Hn2].
    + assert (p = b_off b + offset) as -> by (destruct (decide (p = b_off b + offset)); [done | exfalso; apply Hn; split; [done | lia]]).
      rewrite decide_True by lia. replace (b_off b + offset - b_off b - offset) with 0 by lia. done.
    + rewrite decide_False; [done|]. intros (H1 & -> & ->). apply Hn2. split; [done | lia].
Qed.

Lemma zslice_pair (pre : jstr) a b rest i : zlen pre = i -> zslice i (i + 2) (pre ++ a :: b :: rest) = [a; b].
Proof. intros <-. unfold zslice, zlen. rewrite Nat2Z.id, drop_app_length. by replace (Z.to_nat _) with 2%nat by lia. Qed.

Lemma hex_loop_written buf offset : forall n i pre rest st,
  inside st buf -> zlen pre = i * 2 -> 2 * Z.of_nat n <= zlen rest -> 0 <= offset + i -> offset + i + Z.of_nat n <= b_len buf ->
  let l := take n (hex_bytes rest) in
  exists st', hex_loop n i (pre ++ rest) buf offset st = (i + zlen l, st') /\ stable st st' /\ written buf (offset + i) l st st'.
Proof.
  induction n as [|n IH]; intros i pre rest st Hb Hp Hn H0 Hl; cbn [hex_loop].
  - exists st. split; [by rewrite take_0, (@zlen_nil Z), Z.add_0_r|]. split; [apply stable_refl | apply written_nil].
  - destruct rest as [|a [|b rest]]; [rewrite zlen_nil in Hn; lia | change (zlen [a]) with 1 in Hn; lia|].
    unfold hex_pair. rewrite zslice_pair by done. cbn [hex_bytes]. destruct (num_to_Z (parseInt [a; b] 16)) as [v|]; cbn [take].
    + rewrite !zlen_cons in Hn.
      destruct (IH (i + 1) (pre ++ [a; b]) rest (put buf (offset + i) v st)) as (st' & H1 & Hst & Hw).
      { eapply shape_inside; [apply put_shape | done]. } { rewrite zlen_app, Hp. change (zlen [a; b]) with 2. lia. } { lia. } { lia. } { lia. }
      rewrite <- app_assoc in H1. exists st'. split; [rewrite zlen_cons; etrans; [exact H1 | f_equal; lia]|].
      split; [eapply stable_trans; [apply put_stable | done]|].
      apply written_cons; [done | lia|]. replace (offset + i + 1) with (offset + (i + 1)) by lia. done.
    + exists st. split; [by rewrite (@zlen_nil Z), Z.add_0_r|]. split; [apply stable_refl | apply written_nil].
Qed.

Lemma hex_bytes_length s : 2 * zlen (hex_bytes s) <= zlen s.
Proof.
  induction s as [|a|a b s IH] using list_ind2; [done..|]. cbn [hex_bytes]. pose proof (zlen_nonneg s).
  destruct (num_to_Z _); rewrite !zlen_cons, ?(@zlen_nil Z); lia.
Qed.

Lemma hex_bytes_bytes s : bytes (hex_bytes s).
Proof.
  induction s as [|a|a b s IH] using list_ind2; [apply Forall_nil_2..|]. cbn [hex_bytes].
  destruct (num_to_Z _); [|apply Forall_nil_2]. apply Forall_cons_2; [apply is_byte_mod | exact IH].
Qed.

(** A whole string of pairs into a Buffer that has room for it. *)
Lemma hexWrite_written b s st : inside st b -> zlen s mod 2 = 0 -> b_len b = zlen s / 2 ->
  exists st', hexWrite b s 0 (b_len b) st = Ok (zlen (hex_bytes s), st') /\ stable st st' /\ written b 0 (hex_bytes s) st st'.
Proof.
  intros Hb Hs Hl. assert (zlen s = 2 * b_len b) as Hz0 by divmod. pose proof (in_len _ _ Hb). unfold hexWrite. rewrite Z.sub_0_r, Hs. cbn [Z.eqb negb].
  rewrite Z.ltb_irrefl. assert ((if b_len b =? 0 then b_len b else b_len b) = b_len b) as -> by (by destruct (b_len b =? 0)).
  rewrite (proj2 (Z.ltb_ge (zlen s) (b_len b * 2))) by lia.
  destruct (hex_loop_written b 0 (Z.to_nat (b_len b)) 0 [] s st) as (st' & H1 & Hst & Hw); [done | done | lia..|].
  pose proof (hex_bytes_length s) as Hz. rewrite take_ge in H1, Hw by (unfold zlen in *; lia).
  exists st'. split; [|by split]. f_equal. exact H1.
Qed.

(** A string in hexadecimal of odd length is an error; of another, the
    pairs become bytes up to the first that is not a number to [parseInt]. *)
Theorem hex_decoding s name st :
  encoding_of name = Some Hex -> zlen s / 2 <= kMaxLength ->
  if zlen s mod 2 =? 0
  then exists b st', fromString s (Some name) st = Ok (b, st') /\ made st (hex_bytes s) b st'
  else fromString s (Some name) st = Err TypeError.
Proof.
  intros He Hn. destruct (encoding_of_cons _ _ He) as (c & name' & ->). pose proof (zlen_nonneg s).
  assert (Hlen : text_length s Hex = Ok (zlen s / 2)).
  { unfold text_length. destruct (Z.eqb_spec (zlen s) 0) as [E|E]; [by rewrite E | done]. }
  destruct (Z.eqb_spec (zlen s mod 2) 0) as [E|E].
  - apply (fromString_made s c name' Hex (zlen s / 2)); try done; [by eapply encoding_of_is | divmod | pose proof (hex_bytes_length s); divmod|].
    intros b st1 Hf. rewrite (write_as_enc _ _ _ _ _ _ _ He). destruct (fr_mem _ _ _ _ Hf) as (_ & El & _). rewrite <- El.
    by apply hexWrite_written; [apply Hf | |].
  - unfold kMaxLength in Hn. unfold fromString. cbv beta iota zeta. rewrite (encoding_of_is _ _ He). cbn [negb]. unfold string_byteLength. rewrite He. cbn [default]. unfold id.
    rewrite Hlen. cbn [res_bind]. rewrite to_int32_small by divmod.
    destruct (createBuffer_fresh (zlen s / 2) st) as (b & st1 & Hc & Hf); [unfold kMaxLength; divmod|]. rewrite Hc. cbn [res_bind].
    destruct (fr_mem _ _ _ _ Hf) as (_ & El & _). unfold write. rewrite Z.sub_0_r, Z.ltb_irrefl, El.
    rewrite (proj2 (Z.ltb_ge (zlen s / 2) 0)) by divmod. cbn [orb Z.ltb Z.compare]. rewrite andb_false_r. cbn [orb].
    rewrite (write_as_enc _ _ _ _ _ _ _ He). unfold hexWrite. rewrite (proj2 (Z.eqb_neq _ _) E). done.
Qed.

Lemma hex_digits b : is_byte b -> exists x y, toHex b = [x; y] /\ num_to_Z (parseInt [x; y] 16) = Some b.
Proof.
  intros Hb. set (ok b := match toHex b with [x; y] => bool_decide (num_to_Z (parseInt [x; y] 16) = Some b) | _ => false end).
  assert (Forall (fun b => ok b = true) (seqZ 0 256)) as H by (by apply (bool_decide_unpack _); vm_compute).
  eapply (proj1 (Forall_elem _ _)) in H; [|apply elem_of_seqZ; unfold is_byte in Hb; exact Hb].
  unfold ok in H. destruct (toHex b) as [|x [|y [|]]]; try done. exists x, y. split; [done|]. by case_bool_decide.
Qed.

(** Every byte is two digits, which are read as that byte. *)
Lemma hex_bytes_toHex cs : bytes cs -> hex_bytes (List.concat (map toHex cs)) = cs /\ zlen (List.concat (map toHex cs)) = 2 * zlen cs.
Proof.
  induction 1 as [|b cs Hb _ [IH1 IH2]]; [done|]. cbn [map List.concat]. destruct (hex_digits b Hb) as (x & y & -> & Hv).
  cbn [app hex_bytes]. rewrite Hv, IH1, !zlen_cons, IH2. split; [|lia]. f_equal. by apply Z.mod_small.
Qed.

(** ** base64 *)

Lemma trim_start_plain s : Forall (fun c => is_js_space c = false) s -> trim_start s = s.
Proof. intros H. destruct s as [|c s]; [done|]. apply Forall_cons_iff in H as [H _]. cbn [trim_start]. by rewrite H. Qed.

Lemma js_trim_plain s : Forall (fun c => is_js_space c = false) s -> js_trim s = s.
Proof. intros H. unfold js_trim. rewrite (trim_start_plain s) by done. rewrite trim_start_plain by (by apply Forall_rev). apply rev_involutive. Qed.

Lemma char64_plain i : 0 <= i < 64 -> is_js_space (char64 i) = false /\ base64_valid (char64 i) = true.
Proof.
  intros Hi. assert (Forall (fun i => is_js_space (char64 i) = false /\ base64_valid (char64 i) = true) (seqZ 0 64)) as H by (by apply (bool_decide_unpack _); vm_compute).
  eapply (proj1 (Forall_elem _ _)) in H; [exact H | by apply elem_of_seqZ].
Qed.

(** The padding of a text of [n] characters. *)
Definition padding (n : Z) : jstr := repeat 61 (Z.to_nat ((- n) mod 4)).

Lemma pad4_stop n s : zlen s mod 4 = 0 -> pad4 n s = s.
Proof. destruct n; [done|]. cbn [pad4]. by intros ->. Qed.

Lemma pad4_step n s k : zlen s mod 4 = k -> k <> 0 -> pad4 (S n) s = pad4 n (s ++ u "=") /\ zlen (s ++ u "=") mod 4 = (k + 1) mod 4.
Proof.
  intros <- Hk. cbn [pad4]. rewrite (proj2 (Z.eqb_neq _ _) Hk). split; [done|]. rewrite zlen_app. change (zlen (u "=")) with 1. divmod.
Qed.

Lemma pad4_padding s : pad4 4 s = s ++ padding (zlen s).
Proof.
  unfold padding. assert (Hc : zlen s mod 4 = 0 \/ zlen s mod 4 = 1 \/ zlen s mod 4 = 2 \/ zlen s mod 4 = 3) by divmod.
  assert (Hpad : (- zlen s) mod 4 = (4 - zlen s mod 4) mod 4) by divmod. rewrite Hpad. clear Hpad.
  destruct Hc as [E|[E|[E|E]]]; rewrite E.
  - rewrite pad4_stop by done. cbn. by rewrite app_nil_r.
  - destruct (pad4_step 3 _ _ E) as [-> E1]; [done|]. destruct (pad4_step 2 _ _ E1) as [-> E2]; [done|].
    destruct (pad4_step 1 _ _ E2) as [-> E3]; [done|]. rewrite pad4_stop by done. by rewrite <- !app_assoc.
  - destruct (pad4_step 3 _ _ E) as [-> E1]; [done|]. destruct (pad4_step 2 _ _ E1) as [-> E2]; [done|].
    rewrite pad4_stop by done. by rewrite <- !app_assoc.
  - destruct (pad4_step 3 _ _ E) as [-> E1]; [done|]. rewrite pad4_stop by done. done.
Qed.

(** The characters of an encoding are valid up to the padding, which is what
    the length asks for. *)
Lemma rfc4648_valid cs : bytes cs ->
  exists v, rfc4648 cs = v ++ padding (zlen v) /\ Forall (fun c => is_js_space c = false /\ base64_valid c = true) v /\ (cs <> [] -> 2 <= zlen v).
Proof.
  intros Hb. induction cs as [|a|a b|a b c cs IH] using list_ind3; cbn [rfc4648].
  - by exists [].
  - apply bytes_cons in Hb as [Ha _]. unfold is_byte in Ha. exists [char64 (a / 4); char64 (a * 16 mod 64)].
    split; [done|]. split; [repeat (apply Forall_cons_2; [apply char64_plain; divmod|]); apply Forall_nil_2 | done].
  - rewrite !bytes_cons in Hb. destruct Hb as (Ha & Hb & _). unfold is_byte in Ha, Hb. cbv zeta.
    exists [char64 ((a * 256 + b) / 1024); char64 ((a * 256 + b) / 16 mod 64); char64 ((a * 256 + b) * 4 mod 64)].
    split; [done|]. split; [repeat (apply Forall_cons_2; [apply char64_plain; divmod|]); apply Forall_nil_2 | done].
  - rewrite !bytes_cons in Hb. destruct Hb as (Ha & Hb & Hc & Hcs). unfold is_byte in Ha, Hb, Hc. cbv zeta.
    set (t := a * 65536 + b * 256 + c). assert (0 <= t < 16777216) as Ht by lia. clearbody t. destruct (IH Hcs) as (v & Hv & Hf & _).
    exists (char64 (t / 262144) :: char64 (t / 4096 mod 64) :: char64 (t / 64 mod 64) :: char64 (t mod 64) :: v).
    assert (Hz : zlen (char64 (t / 262144) :: char64 (t / 4096 mod 64) :: char64 (t / 64 mod 64) :: char64 (t mod 64) :: v) = zlen v + 4)
      by (rewrite !zlen_cons; lia).
    rewrite Hz. split; [|split; [repeat (apply Forall_cons_2; [apply char64_plain; divmod|]); done | pose proof (zlen_nonneg v); lia]].
    rewrite Hv. cbn [app]. do 5 f_equal. unfold padding. do 2 f_equal. divmod.
Qed.

(** What the encoder makes is cleaned to itself. *)
Lemma base64clean_rfc4648 cs : bytes cs -> base64clean (rfc4648 cs) = rfc4648 cs.
Proof.
  intros Hb. destruct (rfc4648_valid cs Hb) as (v & Hv & Hf & Hne). unfold base64clean.
  assert (Hsp : Forall (fun c => is_js_space c = false) (rfc4648 cs)).
  { rewrite Hv. apply Forall_app. split; [eapply Forall_impl; [|exact Hf]; by intros c [] |].
    apply list.Forall_forall. intros c Hc. apply list_elem_of_In, repeat_spec in Hc as ->. done. }
  rewrite js_trim_plain by done. assert (Hflt : List.filter base64_valid (rfc4648 cs) = v).
  { rewrite Hv, List.filter_app. assert (List.filter base64_valid (padding (zlen v)) = []) as ->.
    { unfold padding. induction (Z.to_nat _); [done | exact IHn]. }
    rewrite app_nil_r. clear Hv Hne Hsp. induction Hf as [|c v [_ Hc] _ IH]; cbn; [done|]. by rewrite Hc, IH. }
  rewrite Hflt. destruct cs as [|c cs].
  - destruct v as [|x v]; [done|]. cbn in Hv. done.
  - rewrite (proj2 (Z.ltb_ge (zlen v) 2)) by (by apply Hne). by rewrite pad4_padding.
Qed.

Lemma base64ToBytes_fromByteArray cs : bytes cs -> base64ToBytes (fromByteArray cs) = Ok cs.
Proof. intros Hb. unfold base64ToBytes. rewrite fromByteArray_spec, base64clean_rfc4648 by done. by apply toByteArray_rfc4648. Qed.

(** ** utf16le *)

(** The code units of pairs of bytes; an odd byte at the end becomes U+0000. *)
Fixpoint units_of (cs : list Z) : jstr :=
  match cs with
  | a :: b :: cs => (a + b * 256) :: units_of cs
  | [_] => [0]
  | [] => []
  end.

Lemma units_from_of st b : inside st b -> bytes (contents st b) -> forall fuel i, 0 <= i -> b_len b - i <= Z.of_nat fuel ->
  units_from fuel st b i = units_of (drop (Z.to_nat i) (contents st b)).
Proof.
  intros Hb Hbytes. pose proof (zlen_contents st b Hb) as Hl. induction fuel as [|fuel IH]; intros i Hi Hf; cbn [units_from].
  { rewrite drop_ge by (unfold zlen in *; lia). done. }
  destruct (Z.ltb_spec i (b_len b)) as [Hlt|Hge]; [|rewrite drop_ge by (unfold zlen in *; lia); done].
  rewrite IH by lia. unfold unit_at. rewrite <- !get_contents by done.
  destruct (zget_lt (contents st b) i) as [x Hx]; [lia|]. rewrite Hx.
  assert (Hd : forall j y, 0 <= j -> zget (contents st b) j = Some y -> drop (Z.to_nat j) (contents st b) = y :: drop (Z.to_nat (j + 1)) (contents st b)).
  { intros j y Hj Hy. unfold zget in Hy. rewrite (proj2 (Z.ltb_ge j 0)) in Hy by lia. erewrite drop_S by exact Hy. do 2 f_equal. lia. }
  assert (Hr : forall j y, zget (contents st b) j = Some y -> is_byte y) by (intros j y Hy; eapply (proj1 (Forall_elem _ _) Hbytes), zget_elem, Hy).
  rewrite (Hd i x) by done. destruct (zget (contents st b) (i + 1)) as [y|] eqn:Hy.
  - rewrite (Hd (i + 1) y) by (done || lia). cbn [units_of]. replace (i + 1 + 1) with (i + 2) by lia. f_equal.
    pose proof (Hr _ _ Hx). pose proof (Hr _ _ Hy). unfold is_byte in *. rewrite Z.mod_small; lia.
  - assert (b_len b <= i + 1). { destruct (Z.le_gt_cases (b_len b) (i + 1)); [done|]. destruct (zget_lt (contents st b) (i + 1)) as [z Hz]; [lia | congruence]. }
    rewrite !drop_ge by (unfold zlen in *; lia). done.
Qed.

Lemma utf16le_units cs : bytes cs -> zlen cs mod 2 = 0 -> utf16leToBytes (units_of cs) (zlen cs) = cs /\ 2 * zlen (units_of cs) = zlen cs.
Proof.
  intros Hb. induction cs as [|a|a b cs IH] using list_ind2; intros He; [done | done|].
  rewrite !bytes_cons in Hb. destruct Hb as (Ha & Hb & Hcs). unfold is_byte in Ha, Hb. rewrite !zlen_cons in *. cbn [units_of utf16leToBytes]. rewrite zlen_cons.
  pose proof (zlen_nonneg cs). destruct (IH Hcs) as [H1 H2]; [divmod|]. rewrite (proj2 (Z.ltb_ge _ 0)) by lia.
  replace (zlen cs + 1 + 1 - 2) with (zlen cs) by lia. rewrite H1, shr_small by (pow2; lia). pow2. split; [|lia]. f_equal; [divmod|]. f_equal. divmod.
Qed.

(** The slice of the whole. *)
Lemma slice_whole st b : inside st b -> b_len b < 2 ^ 31 ->
  exists b' st', slice b 0 (Some (b_len b)) st = (b', st') /\ inside st' b' /\ contents st' b' = contents st b /\ b_len b' = b_len b.
Proof.
  intros Hb Hl. pose proof (in_len _ _ Hb). unfold slice. rewrite !clamp_index_in by lia. rewrite (proj2 (Z.ltb_ge _ 0)) by lia.
  rewrite Z.add_0_r, Z.sub_0_r. eexists _, _. split; [done|]. split; [|split; [|done]]; [|done].
  destruct Hb as [H1 H2 H3 H4]. by split.
Qed.

(** ** Every byte in a text *)

Lemma contents_bytes st b : byte_store st -> inside st b -> bytes (contents st b).
Proof.
  intros Hbs Hb. pose proof (zlen_contents st b Hb). apply Forall_elem. intros x Hx. apply list_elem_of_lookup in Hx as [j Hx].
  assert (Hg : zget (contents st b) (Z.of_nat j) = Some x) by (unfold zget; by rewrite (proj2 (Z.ltb_ge _ 0)), Nat2Z.id by lia).
  pose proof (zget_Some _ _ _ Hg). rewrite get_contents, get_cell in Hg by (done || lia). by eapply cell_byte.
Qed.

(** What [toString] gives for bytes. *)
Definition text_of (enc : encoding) (cs : list Z) : jstr :=
  match enc with
  | Hex => List.concat (map toHex cs)
  | Ascii => map (fun b => band b 127) cs
  | Latin1 => cs
  | Base64Text => rfc4648 cs
  | UCS2 => units_of cs
  | UTF8 => []
  end.

Lemma toString_text st b name enc : encoding_of name = Some enc -> enc <> UTF8 -> byte_store st -> inside st b -> b_len b < 2 ^ 31 ->
  toString st b (Some (Some name, None, None)) = Ok (text_of enc (contents st b)).
Proof.
  intros He Hu Hbs Hb Hl. pose proof (in_len _ _ Hb). pose proof (zlen_contents st b Hb) as Hz.
  pose proof (contents_bytes st b Hbs Hb) as Hby.
  unfold toString. rewrite to_int32_small by lia. destruct (Z.eqb_spec (b_len b) 0) as [E|E].
  { rewrite E in Hz. destruct (contents st b); [by destruct enc | rewrite zlen_cons in Hz; pose proof (zlen_nonneg l); lia]. }
  unfold slowToString. rewrite (proj2 (Z.ltb_ge (b_len b) 0)), (proj2 (Z.leb_gt (b_len b) 0)) by lia.
  unfold to_uint32. rewrite !Z.mod_small by lia. rewrite (proj2 (Z.leb_gt (b_len b) 0)) by lia.
  destruct (encoding_of_cons _ _ He) as (c & name' & ->). rewrite He.
  assert (Hrr : read_range st b 0 (b_len b) = contents st b) by (by apply elements_contents). destruct enc; [|done|..]; f_equal.
  - unfold hexSlice. cbv zeta. rewrite (proj2 (Z.eqb_neq (b_len b) 0)) by done. rewrite (proj2 (Z.ltb_ge (b_len b) 0)) by lia. rewrite (Z.ltb_irrefl (b_len b)). cbn [orb].
    change (if 0 <? 0 then 0 else 0) with 0. by rewrite Hrr.
  - unfold asciiSlice. by rewrite Z.min_id, Hrr.
  - unfold latin1Slice. by rewrite Z.min_id, Hrr.
  - unfold base64Slice. rewrite (Z.eqb_refl (b_len b)). cbn [andb Z.eqb]. rewrite elements_contents by done. by apply fromByteArray_spec.
  - unfold utf16leSlice. destruct (slice_whole st b Hb Hl) as (b' & st' & -> & Hi' & Hc' & Hl'). rewrite (units_from_of st' b'); [|done|by rewrite Hc'|lia|lia].
    change (Z.to_nat 0) with O. by rewrite drop_0, Hc'.
Qed.

(** The encodings that keep all bytes. *)
Definition lossless (enc : encoding) (n : Z) : bool :=
  match enc with Hex | Latin1 | Base64Text => true | UCS2 => n mod 2 =? 0 | UTF8 | Ascii => false end.

Lemma map_band_255 cs : bytes cs -> map (fun c => band c 255) cs = cs.
Proof. induction 1 as [|b cs Hb _ IH]; cbn; [done|]. rewrite IH, band_255. f_equal. by apply Z.mod_small. Qed.

(** The text of bytes is measured and written as those bytes. *)
Lemma text_written enc cs : bytes cs -> lossless enc (zlen cs) = true ->
  text_length (text_of enc cs) enc = Ok (zlen cs) /\
  forall name b st, encoding_of name = Some enc -> inside st b -> b_len b = zlen cs ->
    exists st', write_as b (text_of enc cs) 0 (zlen cs) (Some name) st = Ok (zlen cs, st') /\ stable st st' /\ written b 0 cs st st'.
Proof.
  intros Hb He. pose proof (zlen_nonneg cs) as Hn.
  assert (Hblit : forall b st, inside st b -> b_len b = zlen cs -> exists st', blitBuffer cs b 0 (zlen cs) st = (zlen cs, st') /\ stable st st' /\ written b 0 cs st st').
  { intros b st Hi Hl. destruct (blit_written cs b 0 (zlen cs) st) as (st' & H1 & H2 & H3); try (done || lia).
    rewrite take_ge in H1, H3 by (unfold zlen; lia). by exists st'. }
  unfold text_length. assert (Hzero : zlen (text_of enc cs) = 0 -> zlen cs = 0).
  { destruct enc; try done; cbn [text_of].
    - destruct (hex_bytes_toHex cs Hb) as [_ ->]. lia.
    - destruct cs as [|x [|y [|z cs]]]; cbn [rfc4648]; rewrite ?zlen_cons; intros; try done; pose proof (zlen_nonneg (rfc4648 cs)); lia.
    - cbn in He. breflect. destruct (utf16le_units cs Hb He) as [_ H]. lia. }
  split.
  - destruct (Z.eqb_spec (zlen (text_of enc cs)) 0) as [E|E]; [by rewrite Hzero|]. destruct enc; try done; cbn [text_of] in *.
    + destruct (hex_bytes_toHex cs Hb) as [_ ->]. f_equal. divmod.
    + rewrite <- (fromByteArray_spec cs Hb), base64ToBytes_fromByteArray by done. done.
    + cbn in He. breflect. destruct (utf16le_units cs Hb He) as [_ H]. f_equal. lia.
  - intros name b st Hname Hi Hl. rewrite (write_as_enc _ _ _ _ _ _ _ Hname). destruct (Hblit b st Hi Hl) as (st' & H1 & H2).
    destruct enc; try done; cbn [text_of].
    + destruct (hex_bytes_toHex cs Hb) as [E1 E2]. 
      destruct (hexWrite_written b (List.concat (map toHex cs)) st Hi) as (st1 & W1 & W2 & W3); [rewrite E2; divmod | rewrite E2; divmod|].
      rewrite E1, Hl in W1. rewrite E1 in W3. exists st1. by split.
    + exists st'. unfold latin1Write, asciiWrite, asciiToBytes. rewrite map_band_255 by done. by rewrite H1.
    + exists st'. unfold base64Write. rewrite <- (fromByteArray_spec cs Hb), base64ToBytes_fromByteArray by done. cbn [res_bind]. by rewrite H1.
    + exists st'. cbn in He. breflect. destruct (utf16le_units cs Hb He) as [E1 _]. unfold ucs2Write. rewrite Z.sub_0_r, Hl, E1. by rewrite H1.
Qed.

(** In hexadecimal, latin1 and base64, and for whole code units in
    utf16le, the text of a Buffer becomes a Buffer with the same bytes. *)
Theorem text_roundtrip name enc st b :
  encoding_of name = Some enc -> lossless enc (b_len b) = true -> byte_store st -> inside st b -> b_len b < 2 ^ 31 ->
  exists s b' st', toString st b (Some (Some name, None, None)) = Ok s /\
    fromString s (Some name) st = Ok (b', st') /\ made st (contents st b) b' st'.
Proof.
  intros He Hll Hbs Hb Hl. assert (enc <> UTF8) as Hu by (by intros ->). pose proof (zlen_contents st b Hb) as Hz. rewrite <- Hz in Hll.
  pose proof (contents_bytes st b Hbs Hb) as Hby.
  destruct (text_written enc (contents st b) Hby Hll) as [H1 H2]. rewrite Hz in H1, H2.
  exists (text_of enc (contents st b)). destruct (encoding_of_cons _ _ He) as (c & name' & ->).
  destruct (fromString_made (text_of enc (contents st b)) c name' enc (b_len b) (contents st b) st) as (b' & st' & H3 & H4); try done.
  - by eapply encoding_of_is.
  - unfold kMaxLength. pose proof (in_len _ _ Hb). lia.
  - lia.
  - intros b1 st1 Hf. rewrite Hz. apply H2; [done | apply Hf | by destruct (fr_mem _ _ _ _ Hf) as (_ & ? & _)].
  - exists b', st'. split; [by apply toString_text|]. by split.
Qed.

(** [parseInt] takes a digit in front of something else, and a sign. *)
Example hex_partial : hex_bytes (u "1g-1zz07") = [1; 255].
Proof. vm_compute. reflexivity. Qed.

(** A length of zero is no limit for hexadecimal. *)
Example hex_zero_length :
  write demo_buffer (u "0b0c") (WriteAt 0 (Some 0) (Some (u "hex"))) demo_store
  = Ok (2, Store [[11; 12; 2; 3; 4; 5; 6; 7; 8; 9]] 1).
Proof. vm_compute. reflexivity. Qed.

(** A length cuts the bytes of a code point when the Buffer has room for all of them. *)
Example length_cuts_point :
  write demo_buffer [8364] (WriteAt 0 (Some 2) None) demo_store = Ok (2, Store [[226; 130; 2; 3; 4; 5; 6; 7; 8; 9]] 1).
Proof. vm_compute. reflexivity. Qed.

(** [fill] with bytes in hexadecimal writes the replacement of what is not text. *)
Example fill_hex_replaced :
  (st <-? fill_string demo_buffer (u "ff") None None (Some (u "hex")) demo_store; Ok (contents st demo_buffer))
  = Ok [239; 191; 189; 239; 191; 189; 239; 191; 189; 239].
Proof. vm_compute. reflexivity. Qed.

(** An odd byte at the end of utf16le is read as U+0000. *)
Example utf16le_odd : toString demo_store (Buf 0 0 1 3) (Some (Some (u "utf16le"), None, None)) = Ok [513; 0].
Proof. vm_compute. reflexivity. Qed.

(** ** Witnesses *)

(** An accent, the euro sign and a pair of surrogates. *)
Definition demo_text : jstr := [104; 233; 8364; 55357; 56832].

Lemma demo_units : Forall is_unit demo_text.
Proof. unfold demo_text, is_unit. repeat (apply Forall_cons_2; [lia|]). apply Forall_nil_2. Qed.

Lemma utf8_roundtrip_witness :
  exists b st', fromString demo_text None demo_store = Ok (b, st') /\
    contents st' b = [104; 195; 169; 226; 130; 172; 240; 159; 152; 128] /\ toString st' b None = Ok demo_text.
Proof.
  destruct (utf8_roundtrip demo_text demo_store) as (b & st' & H1 & H2 & _ & H4); [exact demo_units | exact demo_bytes | reflexivity | vm_compute; reflexivity |].
  exists b, st'. split; [exact H1|]. split; [rewrite (mk_contents _ _ _ _ H2); vm_compute; reflexivity | apply H4; vm_compute; reflexivity].
Defined.

(** Nine bytes are left, six are written: the last code point does not fit. *)
Lemma write_whole_points_witness :
  exists st', write demo_buffer demo_text (WriteAt 1 None None) demo_store = Ok (6, st') /\
    utf8Slice st' demo_buffer 1 7 = [104; 233; 8364].
Proof.
  destruct (write_whole_points demo_buffer demo_text 1 demo_store) as (st' & H1 & _ & _ & H4);
    [exact demo_units | exact demo_inside | cbn; lia | cbn; lia |].
  exists st'. split; [exact H1 | exact H4].
Defined.

Lemma hex_decoding_witness :
  (exists b st', fromString (u "00ff1g") (Some (u "HEX")) demo_store = Ok (b, st') /\ contents st' b = [0; 255; 1]) /\
  fromString (u "00f") (Some (u "HEX")) demo_store = Err TypeError.
Proof.
  split.
  - destruct (hex_decoding (u "00ff1g") (u "HEX") demo_store) as (b & st' & H1 & H2); [vm_compute; reflexivity | vm_compute; congruence|].
    exists b, st'. split; [exact H1 | exact (mk_contents _ _ _ _ H2)].
  - apply (hex_decoding (u "00f") (u "HEX") demo_store); [vm_compute; reflexivity | vm_compute; congruence].
Defined.

Lemma text_roundtrip_witness :
  exists s b' st', toString demo_store demo_buffer (Some (Some (u "Base64"), None, None)) = Ok s /\ s = u "AAECAwQFBgcICQ==" /\
    fromString s (Some (u "Base64")) demo_store = Ok (b', st') /\ contents st' b' = [0; 1; 2; 3; 4; 5; 6; 7; 8; 9].
Proof.
  destruct (text_roundtrip (u "Base64") Base64Text demo_store demo_buffer) as (s & b' & st' & H1 & H2 & H3);
    [vm_compute; reflexivity | reflexivity | exact demo_bytes | exact demo_inside | cbn; lia |].
  exists s, b', st'. split; [exact H1|]. split; [|split; [exact H2 | exact (mk_contents _ _ _ _ H3)]].
  vm_compute in H1. injection H1 as <-. vm_compute. reflexivity.
Defined.
