(* ===== verification/BufferSystem.v ===== *)
(** Programs that use Buffers (module 143): any sequence of the operations that
    make Buffers or write to them, on the Buffers made so far, an exception
    leaving things as they were.  Whatever the program, Buffers stay inside
    their memories, are told apart by their identities, and hold bytes. *)

From Stdlib Require Import ZArith Lia List Bool.
From stdpp Require Import base list list_numbers tactics.
From S2P Require Import Prelude JsNum Int32 Base64 Buffers BufferInts Utf8 BufferText.

(** ** Programs *)

(** A Buffer is named by its place among those made so far. *)
Inductive filler := WithNumber (n : Z) | WithBuffer (i : nat) | WithText (s : jstr) (name : option jstr).

Inductive op :=
| OAlloc (size : Z) (val : option Z)
| OAllocUnsafe (size : Z)
| OFromArray (array : list Z)
| OFromBuffer (i : nat)
| OFromString (s : jstr) (name : option jstr)
| OConcat (list : list nat) (length : option Z)
| OSlice (i : nat) (start : Z) (end_ : option Z)
| OCopy (i j : nat) (targetStart start end_ : option Z)
| OFill (i : nat) (val : filler) (start end_ : option Z)
| OWrite (i : nat) (s : jstr) (args : write_args)
| OSet (i : nat) (at_ x : Z)
| OSwap16 (i : nat)
| OSwap32 (i : nat)
| OSwap64 (i : nat)
| OWriteInt (i : nat) (method : nat) (v offset : Z) (noAssert : bool).

Record state := State { made_so_far : list buffer; memory_of : store }.

Definition start : state := State [] (Store [] 0).

Definition pick (s : state) (i : nat) : res buffer := match made_so_far s !! i with Some b => Ok b | None => Err TypeError end.

(** A new Buffer, or the same Buffers over a new store. *)
Definition adds (s : state) (r : res (buffer * store)) : res state :=
  ' (b, st) <-? r; Ok (State (made_so_far s ++ [b]) st).
Definition writes (s : state) (r : res store) : res state := st <-? r; Ok (State (made_so_far s) st).
Definition snd_of {A B} (r : res (A * B)) : res B := ' (_, st) <-? r; Ok st.

Definition exec (o : op) (s : state) : res state :=
  let st := memory_of s in
  match o with
  | OAlloc size val => adds s (alloc size (option_map FillNumber val) st)
  | OAllocUnsafe size => adds s (allocUnsafe size st)
  | OFromArray array => adds s (fromArrayLike array st)
  | OFromBuffer i => b <-? pick s i; adds s (fromBuffer b st)
  | OFromString t name => adds s (fromString t name st)
  | OConcat l length => bs <-? res_map (pick s) l; adds s (concat bs length st)
  | OSlice i a e => b <-? pick s i; adds s (Ok (slice b a e st))
  | OCopy i j ts a e => b <-? pick s i; t <-? pick s j; writes s (snd_of (copy b t ts a e st))
  | OFill i val a e =>
      b <-? pick s i;
      match val with
      | WithNumber n => writes s (fill b (FillNumber n) a e st)
      | WithBuffer j => v <-? pick s j; writes s (fill b (FillBuffer v) a e st)
      | WithText t name => writes s (fill_string b t a e name st)
      end
  | OWrite i t args => b <-? pick s i; writes s (snd_of (write b t args st))
  | OSet i p x => b <-? pick s i; writes s (Ok (put b p x st))
  | OSwap16 i => b <-? pick s i; writes s (swap16 b st)
  | OSwap32 i => b <-? pick s i; writes s (swap32 b st)
  | OSwap64 i => b <-? pick s i; writes s (swap64 b st)
  | OWriteInt i m v o na =>
      b <-? pick s i;
      match codecs !! m with Some c => writes s (snd_of (c_write c b v o na st)) | None => Err TypeError end
  end.

(** A program goes on after an exception with what there was before. *)
Definition perform (s : state) (o : op) : state := match exec o s with Ok s' => s' | Err _ => s end.
Definition run (ops : list op) : state := fold_left perform ops start.

(** * Properties *)

(** The type of a state. *)
Record typed (s : state) : Prop := {
  ty_inside : Forall (inside (memory_of s)) (made_so_far s);
  ty_ids : Forall (fun b => b_id b < next_id (memory_of s)) (made_so_far s);
  ty_distinct : NoDup (map b_id (made_so_far s));
  ty_bytes : byte_store (memory_of s)
}.

(** What an operation may do to a store: it keeps Buffers inside, identities
    are not given back, and bytes stay bytes. *)
Record grows (st st' : store) : Prop := {
  gr_inside : forall c, inside st c -> inside st' c;
  gr_next : next_id st <= next_id st';
  gr_bytes : byte_store st -> byte_store st'
}.

(** The same with a new Buffer. *)
Record news (st : store) (b : buffer) (st' : store) : Prop := {
  nw_grows : grows st st';
  nw_inside : inside st' b;
  nw_id : next_id st <= b_id b < next_id st'
}.

Lemma same_grows st : grows st st.
Proof. by split. Qed.

Lemma grows_after st1 st2 st3 : grows st1 st2 -> grows st2 st3 -> grows st1 st3.
Proof. intros [H1 H2 H3] [H4 H5 H6]. split; [auto | lia | auto]. Qed.

Lemma stable_grows st st' : stable st st' -> grows st st'.
Proof. intros [Hs Hb]. split; [intros c; by apply shape_inside | destruct Hs as [_ ->]; lia | done]. Qed.

Lemma news_grows st b st1 st2 : news st b st1 -> grows st1 st2 -> news st b st2.
Proof. intros [H1 H2 H3] H. split; [by eapply grows_after | by apply H | pose proof (gr_next _ _ H); lia]. Qed.
#[export] Hint Resolve same_grows stable_grows news_grows put_stable : js.

Lemma createBuffer_news n st b st' : createBuffer n st = Ok (b, st') -> news st b st'.
Proof.
  intros H. assert (0 <= n <= kMaxLength) as Hn.
  { revert H. unfold createBuffer. destruct (kMaxLength <? n) eqn:E, (n <? 0) eqn:E'; cbn; breflect; try done. }
  destruct (createBuffer_fresh n st Hn) as (b1 & st1 & H1 & [F1 [F2 F3] F4 F5 F6 F7]). rewrite H1 in H. injection H as <- <-.
  split; [split; [done | lia | done] | done | lia].
Qed.

Lemma allocUnsafe_news n st b st' : allocUnsafe n st = Ok (b, st') -> news st b st'.
Proof.
  unfold allocUnsafe. intros (_ & _ & H)%res_bind_ok. apply res_bind_ok in H as (k & _ & H). by eapply createBuffer_news.
Qed.

Lemma fill_stable b v s e st st' : fill b v s e st = Ok st' -> stable st st'.
Proof.
  unfold fill. repeat case_goal; intros [= <-]; try apply stable_refl; apply loop_up_stable; intros; apply put_stable.
Qed.

Lemma alloc_news n v st b st' : alloc n v st = Ok (b, st') -> news st b st'.
Proof.
  unfold alloc. intros (_ & _ & H)%res_bind_ok. apply res_bind_ok in H as ([b1 st1] & H1%createBuffer_news & H). revert H.
  destruct v as [v|]; [|by intros [= -> ->]]. destruct (n <=? 0); [by intros [= -> ->]|].
  intros (st2 & H2%fill_stable & [= -> ->])%res_bind_ok. eauto with js.
Qed.

Lemma fromArrayLike_news l st b st' : fromArrayLike l st = Ok (b, st') -> news st b st'.
Proof.
  unfold fromArrayLike. intros (n & _ & H)%res_bind_ok. apply res_bind_ok in H as ([b1 st1] & H1%createBuffer_news & H). injection H as <- <-.
  eapply news_grows; [done|]. apply stable_grows, loop_up_stable. intros. apply put_stable.
Qed.

Lemma fromBuffer_news o st b st' : fromBuffer o st = Ok (b, st') -> news st b st'.
Proof.
  unfold fromBuffer. intros (n & _ & H)%res_bind_ok. apply res_bind_ok in H as ([b1 st1] & H1%createBuffer_news & H). revert H.
  destruct (_ =? 0); [by intros [= -> ->]|]. intros ([k st2] & H2%copy_stable & [= -> ->])%res_bind_ok. eauto with js.
Qed.

Lemma slice_news this a e st : inside st this -> news st (slice this a e st).1 (slice this a e st).2.
Proof.
  intros [H1 H2 H3 H4]. unfold slice. pose proof (clamp_index_range (b_len this) a H3) as Ha. set (a' := clamp_index _ a) in *. clearbody a'.
  set (e' := match e with None => _ | Some e => _ end).
  assert (He : 0 <= e' <= b_len this) by (unfold e'; destruct e; [by apply clamp_index_range | lia]). clearbody e'.
  set (e'' := if e' <? a' then a' else e'). assert (a' <= e'' <= b_len this) by (unfold e''; destruct (Z.ltb_spec e' a'); lia). clearbody e''. cbn [fst snd].
  assert (Hkeep : forall c, inside st c -> inside (Store (mems st) (next_id st + 1)) c) by (by intros c []; split).
  split; [split; [done | cbn; lia | done]| |cbn; lia].
  split; cbn; try lia. unfold memory in *. cbn. lia.
Qed.

Lemma concat_loop_stable l b : forall pos st st', concat_loop l b pos st = Ok st' -> stable st st'.
Proof.
  induction l as [|c l IH]; intros pos st st'; cbn [concat_loop]; [intros [= ->]; apply stable_refl|].
  intros ([k st1] & H1%copy_stable & H2%IH)%res_bind_ok. by eapply stable_trans.
Qed.

Lemma concat_news l n st b st' : concat l n st = Ok (b, st') -> news st b st'.
Proof.
  unfold concat. destruct l as [|c l]; [apply createBuffer_news|].
  intros ([b1 st1] & H1%allocUnsafe_news & H)%res_bind_ok. apply res_bind_ok in H as (st2 & H2%concat_loop_stable & [= -> ->]). eauto with js.
Qed.

(** ** Text *)

Lemma blit_stable n : forall i src dst o st, stable st (blit n i src dst o st).2.
Proof.
  induction n as [|n IH]; intros i src dst o st; cbn [blit]; [apply stable_refl|]. destruct (_ || _); [apply stable_refl|].
  eapply stable_trans; [apply put_stable | apply IH].
Qed.

Lemma hex_loop_stable n : forall i s buf o st, stable st (hex_loop n i s buf o st).2.
Proof.
  induction n as [|n IH]; intros i s buf o st; cbn [hex_loop]; [apply stable_refl|]. destruct (hex_pair s i); [|apply stable_refl].
  eapply stable_trans; [apply put_stable | apply IH].
Qed.

Lemma write_as_stable b s o n name st k st' : write_as b s o n name st = Ok (k, st') -> stable st st'.
Proof.
  assert (Hblit : forall src n k st', Ok (blitBuffer src b o n st) = Ok (k, st') -> stable st st').
  { intros src m k0 st0 [= H]. pose proof (blit_stable (Z.to_nat m) 0 src b o st) as Hs. unfold blitBuffer in H. by rewrite H in Hs. }
  unfold write_as. destruct (match name with Some _ => _ | None => _ end) as [[]|]; try apply Hblit; [| |done].
  - unfold hexWrite. destruct (negb _); [done|]. intros [= H].
    match type of H with hex_loop ?n ?i ?s ?b ?o ?st = _ => pose proof (hex_loop_stable n i s b o st) as Hs end. by rewrite H in Hs.
  - unfold base64Write. intros (l & _ & H)%res_bind_ok. by apply Hblit in H.
Qed.

Lemma write_stable b s args st k st' : write b s args st = Ok (k, st') -> stable st st'.
Proof.
  unfold write. destruct (match args with WriteAll => _ | WriteEncoding _ => _ | WriteAt _ _ _ => _ end) as [[o n] name].
  destruct (_ || _); [done|]. apply write_as_stable.
Qed.

Lemma fromString_news s name st b st' : fromString s name st = Ok (b, st') -> news st b st'.
Proof.
  unfold fromString. destruct (negb _); [done|]. intros (n & _ & H)%res_bind_ok.
  apply res_bind_ok in H as ([b1 st1] & H1%createBuffer_news & H). apply res_bind_ok in H as ([k st2] & H2%write_stable & H).
  injection H as H. destruct (negb _); [|injection H as <- <-; eauto with js].
  assert (news st b1 st2) as [G1 G2 G3] by eauto with js. pose proof (slice_news b1 0 (Some k) st2 G2) as [S1 S2 S3]. rewrite H in S1, S2, S3. cbn [fst snd] in *.
  split; [by eapply grows_after | done | pose proof (gr_next _ _ G1); lia].
Qed.

Lemma fill_string_grows b s a e name st st' : fill_string b s a e name st = Ok st' -> grows st st'.
Proof.
  unfold fill_string. destruct (match name with Some _ => _ | None => _ end); [done|].
  destruct (match s with [] => _ | _ => _ end); [intros H%fill_stable; auto with js|].
  destruct (_ || _); [intros H%fill_stable; auto with js|].
  intros ([b1 st1] & H1%fromString_news & H)%res_bind_ok. apply res_bind_ok in H as (t & _ & H%fill_stable).
  eapply grows_after; [apply H1 | auto with js].
Qed.

(** ** Integers *)

Lemma guard_ok {A B} (r : res A) (f : A -> res B) b (P : Prop) : (forall a, f a = Ok b -> P) -> res_bind r f = Ok b -> P.
Proof. intros H (a & _ & Ha)%res_bind_ok. by apply (H a). Qed.

Lemma codec_stable : Forall (fun c => forall b v o na st k st', c_write c b v o na st = Ok (k, st') -> stable st st') codecs.
Proof.
  assert (Hle : forall n, Forall (fun c => forall b v o na st k st', c_write c b v o na st = Ok (k, st') -> stable st st') (generic n)).
  { intros n. unfold generic. repeat apply Forall_cons_2; [..|apply Forall_nil_2]; intros b v o na st k st'; cbn [c_write];
      unfold writeUIntLE, writeUIntBE, writeIntLE, writeIntBE, exact, exact_value; cbv zeta;
      (destruct (_ <? _); [done|]); apply guard_ok; intros _; (destruct (_ <? _); [done|]); intros [= _ <-];
      (eapply stable_trans; [apply put_stable|]); first [apply write_le_stable | apply write_be_stable | apply write_int_le_stable | apply write_int_be_stable]. }
  unfold codecs. repeat (apply Forall_app; split; [apply Hle|]).
  unfold fixed. repeat apply Forall_cons_2; [..|apply Forall_nil_2]; intros b v o na st k st'; cbn [c_write];
    unfold writeUInt8, writeUInt16LE, writeUInt16BE, writeUInt32LE, writeUInt32BE, writeInt8, writeInt16LE, writeInt16BE, writeInt32LE, writeInt32BE, put_32le, put_32be;
    cbv zeta; apply guard_ok; intros _ [= _ <-]; first [apply put_stable | apply put_stable4 | apply put_stable2].
Qed.

(** ** Programs *)

Lemma swap_groups_stable b w l st st' : swap_groups b w l st = Ok st' -> stable st st'.
Proof.
  unfold swap_groups. destruct (_ =? 0); [|done]. intros [= <-]. apply loop_up_stable. intros i st1. unfold swaps.
  generalize (i * w). intros d. revert st1. induction l as [|[n m] l IH]; intros st1; cbn [fold_left]; [apply stable_refl|].
  eapply stable_trans; [apply put_stable2 | apply IH].
Qed.

Lemma pick_elem s i b : pick s i = Ok b -> b ∈ made_so_far s.
Proof. unfold pick. destruct (made_so_far s !! i) eqn:E; [|done]. intros [= ->]. by eapply list_elem_of_lookup_2. Qed.

Lemma typed_adds s b st' : typed s -> news (memory_of s) b st' -> typed (State (made_so_far s ++ [b]) st').
Proof.
  intros [H1 H2 H3 H4] [[G1 G2 G3] G4 G5]. split; cbn [made_so_far memory_of].
  - apply Forall_app. split; [by eapply Forall_impl | by apply Forall_cons_2; [|apply Forall_nil_2]].
  - apply Forall_app. split; [eapply Forall_impl; [|exact H2]; cbn; lia | apply Forall_cons_2; [lia | apply Forall_nil_2]].
  - rewrite map_app. apply list.NoDup_app. split; [done|]. split; [|apply NoDup_singleton].
    intros i Hi Hj. apply list_elem_of_singleton in Hj as ->. apply list_elem_of_fmap in Hi as (c & Hc & Hin).
    rewrite list.Forall_forall in H2. specialize (H2 _ Hin). lia.
  - by apply G3.
Qed.

Lemma typed_grows s st' : typed s -> grows (memory_of s) st' -> typed (State (made_so_far s) st').
Proof.
  intros [H1 H2 H3 H4] [G1 G2 G3]. split; cbn [made_so_far memory_of]; [by eapply Forall_impl | | done | by apply G3].
  eapply Forall_impl; [|exact H2]. cbn. lia.
Qed.

Lemma typed_added s r s' : typed s -> (forall b st', r = Ok (b, st') -> news (memory_of s) b st') -> adds s r = Ok s' -> typed s'.
Proof. intros Hs Hr ([b st'] & H & [= <-])%res_bind_ok. by apply typed_adds; [|apply Hr]. Qed.

Lemma typed_wrote s r s' : typed s -> (forall st', r = Ok st' -> grows (memory_of s) st') -> writes s r = Ok s' -> typed s'.
Proof. intros Hs Hr (st' & H & [= <-])%res_bind_ok. by apply typed_grows; [|apply Hr]. Qed.

Lemma snd_ok {A B} (r : res (A * B)) st' : snd_of r = Ok st' -> exists a, r = Ok (a, st').
Proof. intros ([a b] & H & [= <-])%res_bind_ok. by exists a. Qed.

Lemma exec_typed o s s' : typed s -> exec o s = Ok s' -> typed s'.
Proof.
  intros Hs. destruct o as [n v|n|l|i|t name|l n|i a e|i j ts a e|i v a e|i t args|i p x|i|i|i|i m v o na]; cbn [exec]; cbv zeta.
  - apply typed_added; [done|]. intros b st'. apply alloc_news.
  - apply typed_added; [done|]. intros b st'. apply allocUnsafe_news.
  - apply typed_added; [done|]. intros b st'. apply fromArrayLike_news.
  - intros (o & _ & H)%res_bind_ok. revert H. apply typed_added; [done|]. intros b st'. apply fromBuffer_news.
  - apply typed_added; [done|]. intros b st'. apply fromString_news.
  - intros (bs & _ & H)%res_bind_ok. revert H. apply typed_added; [done|]. intros b st'. apply concat_news.
  - intros (o & Ho%pick_elem & H)%res_bind_ok. revert H. apply typed_added; [done|]. intros b st' [= <- <-].
    pose proof (ty_inside _ Hs) as Hi. rewrite list.Forall_forall in Hi. exact (slice_news o a e (memory_of s) (Hi _ Ho)).
  - intros (b & _ & H)%res_bind_ok. apply res_bind_ok in H as (t & _ & H). revert H. apply typed_wrote; [done|].
    intros st' (k & H%copy_stable)%snd_ok. auto with js.
  - intros (b & _ & H)%res_bind_ok. destruct v as [n|j|t name]; [|apply res_bind_ok in H as (v & _ & H)|]; revert H; apply typed_wrote; try done; intros st'.
    + intros H%fill_stable. auto with js.
    + intros H%fill_stable. auto with js.
    + apply fill_string_grows.
  - intros (b & _ & H)%res_bind_ok. revert H. apply typed_wrote; [done|]. intros st' (k & H%write_stable)%snd_ok. auto with js.
  - intros (b & _ & H)%res_bind_ok. revert H. apply typed_wrote; [done|]. intros st' [= <-]. auto with js.
  - intros (b & _ & H)%res_bind_ok. revert H. apply typed_wrote; [done|]. intros st' H%swap_groups_stable. auto with js.
  - intros (b & _ & H)%res_bind_ok. revert H. apply typed_wrote; [done|]. intros st' H%swap_groups_stable. auto with js.
  - intros (b & _ & H)%res_bind_ok. revert H. apply typed_wrote; [done|]. intros st' H%swap_groups_stable. auto with js.
  - intros (b & _ & H)%res_bind_ok. destruct (codecs !! m) as [c|] eqn:Ec; [|done]. revert H. apply typed_wrote; [done|].
    intros st' (k & H)%snd_ok. apply stable_grows. pose proof codec_stable as Hc. rewrite list.Forall_forall in Hc.
    eapply Hc; [by eapply list_elem_of_lookup_2 | exact H].
Qed.

(** Whatever a program does with Buffers, each of them lies inside its
    memory, no two have the same identity, and every cell holds a byte. *)
Theorem buffers_typed ops : typed (run ops).
Proof.
  unfold run. assert (typed start) as H by (split; [apply Forall_nil_2 | apply Forall_nil_2 | apply NoDup_nil_2 | apply Forall_nil_2]).
  revert H. generalize start. induction ops as [|o ops IH]; intros s Hs; cbn [fold_left]; [done|]. apply IH.
  unfold perform. destruct (exec o s) as [s'|] eqn:E; [by eapply exec_typed | done].
Qed.
