(* ===== verification/UnderscoreTime.v ===== *)
(** [_.throttle] and [_.debounce] of Underscore (module 114): functions that
    run another one at most once in a window of time, or once the calls have
    stopped.  The state is that of the closure, with the history of what was
    called and run; calls and timers come at given times.  The function that is
    run does not call the one it is wrapped in. *)

From Stdlib Require Import ZArith Lia List Bool Sorted.
From stdpp Require Import base list list_numbers tactics.
From S2P Require Import Prelude Int32.

(** ** Time *)

(** The delay of [setTimeout]. *)
Definition delay (d : Z) : Z := Z.max 0 (to_int32 d).

Section Time.
Context {A R : Type} (func : option A -> R) (wait : Z).

(** A call of the wrapped function, and a run of [func]; [None] are arguments
    that were set to [null]. *)
Inductive entry := Called (a : A) | Ran (a : option A).

(** What happens: a call, or the timer that is due. *)
Inductive happening := Call (a : A) | Fire.

(** ** [_.throttle] *)

Section Throttle.
(** [options.leading !== false] and [options.trailing !== false] *)
Context (leading trailing : bool).

(** The variables of the closure; a timer is the time at which it is due. *)
Record throttled := Throttled {
  th_previous : Z;
  th_timeout : option Z;
  th_args : option A;
  th_result : option R;
  th_log : list (Z * entry)     (* the latest first *)
}.

Definition throttle_start : throttled := Throttled 0 None None None [].

Definition throttle_later (now : Z) (s : throttled) : throttled :=
  Throttled (if leading then now else 0) None None (Some (func (th_args s))) ((now, Ran (th_args s)) :: th_log s).

Definition throttle_call (now : Z) (args : A) (s : throttled) : throttled :=
  let previous := if (th_previous s =? 0) && negb leading then now else th_previous s in
  let remaining := wait - (now - previous) in
  let log := (now, Called args) :: th_log s in
  if (remaining <=? 0) || (wait <? remaining) then
    Throttled now None None (Some (func (Some args))) ((now, Ran (Some args)) :: log)
  else
    Throttled previous
      (match th_timeout s with None => if trailing then Some (now + delay remaining) else None | Some d => Some d end)
      (Some args) (th_result s) log.

(** A timer does not fire before it is due. *)
Definition throttle_step (now : Z) (h : happening) (s : throttled) : option throttled :=
  match h with
  | Call a => Some (throttle_call now a s)
  | Fire => match th_timeout s with Some due => if due <=? now then Some (throttle_later now s) else None | None => None end
  end.
End Throttle.

(** ** [_.debounce] *)

Section Debounce.
Context (immediate : bool).

Record debounced := Debounced {
  de_timeout : option Z;
  de_args : option A;
  de_timestamp : Z;
  de_result : option R;
  de_log : list (Z * entry)
}.

Definition debounce_start : debounced := Debounced None None 0 None [].

Definition debounce_later (now : Z) (s : debounced) : debounced :=
  let last := now - de_timestamp s in
  if (last <? wait) && (0 <=? last) then
    Debounced (Some (now + delay (wait - last))) (de_args s) (de_timestamp s) (de_result s) (de_log s)
  else if immediate then Debounced None (de_args s) (de_timestamp s) (de_result s) (de_log s)
  else Debounced None None (de_timestamp s) (Some (func (de_args s))) ((now, Ran (de_args s)) :: de_log s).

Definition debounce_call (now : Z) (args : A) (s : debounced) : debounced :=
  let callNow := immediate && match de_timeout s with None => true | Some _ => false end in
  let timeout := match de_timeout s with None => Some (now + delay wait) | Some d => Some d end in
  let log := (now, Called args) :: de_log s in
  if callNow then Debounced timeout None now (Some (func (Some args))) ((now, Ran (Some args)) :: log)
  else Debounced timeout (Some args) now (de_result s) log.

Definition debounce_step (now : Z) (h : happening) (s : debounced) : option debounced :=
  match h with
  | Call a => Some (debounce_call now a s)
  | Fire => match de_timeout s with Some due => if due <=? now then Some (debounce_later now s) else None | None => None end
  end.
End Debounce.

(** Happenings one after the other, from the time [t] on. *)
Fixpoint happen {S} (step : Z -> happening -> S -> option S) (t : Z) (l : list (Z * happening)) (s : S) : option (Z * S) :=
  match l with
  | [] => Some (t, s)
  | (now, h) :: l => if t <=? now then s ← step now h s; happen step now l s else None
  end.

(** * Properties *)

(** ** Histories *)

(** The times of the runs, the latest first. *)
Definition runs (log : list (Z * entry)) : list Z :=
  omap (fun e => match e.2 with Ran _ => Some e.1 | Called _ => None end) log.

(** The runs are [wait] apart. *)
Definition spaced (log : list (Z * entry)) : Prop := StronglySorted (fun later earlier => earlier + wait <= later) (runs log).

(** The argument of the latest call. *)
Definition last_call (log : list (Z * entry)) : option (Z * A) :=
  head (omap (fun e => match e.2 with Called a => Some (e.1, a) | Ran _ => None end) log).

(** The arguments of the latest run. *)
Definition last_run (log : list (Z * entry)) : option (Z * option A) :=
  head (omap (fun e => match e.2 with Ran a => Some (e.1, a) | Called _ => None end) log).

(** After every run of [_.debounce]: it ran the arguments of the call just
    before it, [wait] after that call. *)
Fixpoint after_quiet (log : list (Z * entry)) : Prop :=
  match log with
  | [] => True
  | (_, Called _) :: log => after_quiet log
  | (now, Ran x) :: log =>
      after_quiet log /\ match log with (t, Called a) :: _ => x = Some a /\ t + wait <= now | _ => False end
  end.

(** The runs of an immediate one are the calls before which nothing was called for [wait]. *)
Fixpoint before_quiet (log : list (Z * entry)) : Prop :=
  match log with
  | [] => True
  | (_, Called _) :: log => before_quiet log
  | (now, Ran x) :: log =>
      before_quiet log /\
      match log with
      | (t, Called a) :: log => x = Some a /\ t = now /\ match log with (t', _) :: _ => t' + wait <= now | [] => True end
      | _ => False
      end
  end.

Context (Hwait : 0 < wait < 2 ^ 31).

Lemma delay_small d : 0 <= d < 2 ^ 31 -> delay d = d.
Proof. intros Hd. unfold delay. rewrite to_int32_small by lia. lia. Qed.

(** An invariant of the steps holds after all happenings. *)
Lemma happen_ind {S} (step : Z -> happening -> S -> option S) (I : Z -> S -> Prop) :
  (forall t now h s s', I t s -> t <= now -> step now h s = Some s' -> I now s') ->
  forall l t s t' s', I t s -> happen step t l s = Some (t', s') -> I t' s'.
Proof.
  intros Hstep. induction l as [|[now h] l IH]; intros t s t' s' Hi; cbn [happen]; [by intros [= <- <-]|].
  destruct (Z.leb_spec t now); [|done]. destruct (step now h s) as [s1|] eqn:E; [|done]. cbn [mbind option_bind].
  apply IH. by eapply Hstep.
Qed.

(** ** [_.throttle] *)

Section ThrottleProofs.
Context (leading trailing : bool).

Record throttle_ok (t : Z) (s : throttled) : Prop := {
  ok_spaced : spaced (th_log s);
  ok_previous : 0 <= th_previous s <= t;
  ok_runs : Forall (fun r => r <= t /\ (r <= th_previous s \/ (th_previous s = 0 /\ leading = false))) (runs (th_log s));
  ok_timeout : match th_timeout s with
               | Some due => due = th_previous s + wait /\ th_previous s <> 0 /\ trailing = true /\
                             exists tc a, th_args s = Some a /\ last_call (th_log s) = Some (tc, a) /\ th_previous s <= tc <= t
               | None => trailing = true -> forall tc a, last_call (th_log s) = Some (tc, a) ->
                         exists tr, last_run (th_log s) = Some (tr, Some a) /\ tc <= tr
               end
}.

Lemma throttle_start_ok t : 0 <= t -> throttle_ok t throttle_start.
Proof. intros Ht. split; cbn; try done; constructor. Qed.

Lemma spaced_run now x log : Forall (fun r => r + wait <= now) (runs log) -> spaced log -> spaced ((now, Ran x) :: log).
Proof. intros Hf Hs. unfold spaced, runs. cbn. by constructor. Qed.

Lemma runs_called now a log : runs ((now, Called a) :: log) = runs log.
Proof. done. Qed.

Lemma throttle_later_ok t now s : throttle_ok t s -> t <= now ->
  (exists due, th_timeout s = Some due /\ due <= now) -> throttle_ok now (throttle_later leading now s).
Proof.
  intros [H1 H2 H3 H5] Ht (due & Hdue & Hle). rewrite Hdue in H5. destruct H5 as (-> & Hne & Htr & tc & a & Ha & Hc & Htc).
  unfold throttle_later. rewrite Ha. split; cbn [th_log th_previous th_timeout th_args].
  - apply spaced_run; [|done]. eapply Forall_impl; [|exact H3]. cbn. intros r [_ [Hr|[Hr _]]]; lia.
  - destruct leading; lia.
  - unfold runs. cbn. constructor; [destruct leading; split; auto; lia|].
    eapply Forall_impl; [|exact H3]. cbn. intros r [Hr1 _]. split; [lia|]. destruct leading; [left; lia | by right].
  - intros _ tc' a' Hc'. unfold last_call in *. cbn in Hc'. rewrite Hc in Hc'. injection Hc' as <- <-. exists now. split; [done | lia].
Qed.

Lemma throttle_call_ok t now a s : wait <= t -> throttle_ok t s -> t <= now -> throttle_ok now (throttle_call leading trailing now a s).
Proof.
  intros Hw [H1 H2 H3 H5] Ht. unfold throttle_call. cbv zeta.
  set (previous := if (th_previous s =? 0) && negb leading then now else th_previous s).
  assert (Hp : previous = th_previous s /\ (previous <> 0 \/ leading = true) \/ previous = now /\ th_previous s = 0 /\ leading = false).
  { unfold previous. destruct (Z.eqb_spec (th_previous s) 0), leading; cbn; auto. }
  assert (Hle : previous <= now) by lia. clearbody previous.
  rewrite (proj2 (Z.ltb_ge wait _)) by lia. rewrite orb_false_r.
  destruct (Z.leb_spec (wait - (now - previous)) 0) as [Hrun|Hwait'].
  - destruct Hp as [[-> Hp]|(-> & _)]; [|lia]. split; cbn [th_log th_previous th_timeout th_args].
    + apply spaced_run; [|done]. rewrite runs_called. eapply Forall_impl; [|exact H3]. cbn. intros r [_ [Hr|[Hr Hl]]]; [lia|].
      destruct Hp; [lia | congruence].
    + lia.
    + unfold runs. cbn. constructor; [lia|]. eapply Forall_impl; [|exact H3]. cbn. intros r [Hr _]. lia.
    + intros _ tc a' [= <- <-]. by exists now.
  - assert (Hp0 : previous <> 0). { destruct Hp as [[-> Hp]|(-> & _)]; [|lia]. lia. }
    split; cbn [th_log th_previous th_timeout th_args]; [done | lia | |].
    + rewrite runs_called. eapply Forall_impl; [|exact H3]. cbn. intros r [Hr Hr2]. split; [lia|]. left. lia.
    + assert (Hlast : forall l, last_call ((now, Called a) :: l) = Some (now, a)) by done.
      destruct (th_timeout s) as [due|] eqn:Ed.
      * destruct H5 as (-> & Hne & Htr & _). destruct Hp as [[-> _]|(_ & Hp & _)]; [|lia].
        repeat split; try done. exists now, a. repeat split; lia.
      * destruct trailing eqn:Etr; [|done]. rewrite delay_small by lia. split; [lia|]. split; [done|]. split; [done|].
        exists now, a. repeat split; lia.
Qed.

Lemma throttle_reached l t t' s : wait <= t -> happen (throttle_step leading trailing) t l throttle_start = Some (t', s) -> throttle_ok t' s.
Proof.
  intros Hw H. assert (I : wait <= t' /\ throttle_ok t' s); [|apply I]. revert H.
  apply (happen_ind _ (fun t s => wait <= t /\ throttle_ok t s)); [|split; [done | apply throttle_start_ok; lia]].
  intros t0 now h s0 s1 [Hw0 Hs] Ht. split; [lia|]. destruct h as [a|]; cbn in H.
  - injection H as <-. by eapply throttle_call_ok.
  - destruct (th_timeout s0) as [due|] eqn:E; [|done]. destruct (Z.leb_spec due now); [|done]. injection H as <-.
    eapply throttle_later_ok; eauto.
Qed.
End ThrottleProofs.

(** A throttled function runs at most once in every window, and, unless
    [trailing] is false, no call is lost: the arguments of the latest call have
    run since, or the timer that will run them is due within the window. *)
Theorem throttle_window leading trailing l t t' s :
  wait <= t -> happen (throttle_step leading trailing) t l throttle_start = Some (t', s) ->
  spaced (th_log s) /\
  (trailing = true -> forall tc a, last_call (th_log s) = Some (tc, a) ->
     (exists tr, last_run (th_log s) = Some (tr, Some a) /\ tc <= tr) \/
     exists due, th_timeout s = Some due /\ due <= tc + wait /\ forall now, due <= now ->
       exists s', throttle_step leading trailing now Fire s = Some s' /\ last_run (th_log s') = Some (now, Some a)).
Proof.
  intros Hw H. destruct (throttle_reached _ _ _ _ _ _ Hw H) as [H1 H2 H3 H5]. split; [done|]. intros Htr tc a Hc.
  destruct (th_timeout s) as [due|] eqn:E; [right | left; by apply H5].
  destruct H5 as (-> & Hne & _ & tc' & a' & Ha & Hc' & Hle). rewrite Hc in Hc'. injection Hc' as <- <-.
  eexists. split; [done|]. split; [lia|]. intros now Hnow. cbn [throttle_step]. rewrite E, (proj2 (Z.leb_le _ _)) by done.
  eexists. split; [done|]. unfold throttle_later, last_run. cbn. by rewrite Ha.
Qed.

(** ** [_.debounce] *)

(** The timer fires until the calls have stopped for [wait]. *)
Lemma debounce_fires immediate s t due : de_timeout s = Some due -> due <= de_timestamp s + wait -> de_timestamp s <= t ->
  exists fires T, happen (debounce_step immediate) t (map (fun now => (now, Fire)) fires) s
    = Some (T, if immediate then Debounced None (de_args s) (de_timestamp s) (de_result s) (de_log s)
               else Debounced None None (de_timestamp s) (Some (func (de_args s))) ((T, Ran (de_args s)) :: de_log s)) /\
    de_timestamp s + wait <= T <= Z.max t (de_timestamp s + wait).
Proof.
  intros Hd Hle Ht.
  assert (Hend : forall s1 d now, de_timeout s1 = Some d -> d <= now -> de_timestamp s1 + wait <= now ->
    debounce_step immediate now Fire s1
    = Some (if immediate then Debounced None (de_args s1) (de_timestamp s1) (de_result s1) (de_log s1)
            else Debounced None None (de_timestamp s1) (Some (func (de_args s1))) ((now, Ran (de_args s1)) :: de_log s1))).
  { intros s1 d now E Hdn Hw. cbn [debounce_step]. rewrite E, (proj2 (Z.leb_le _ _)) by done. unfold debounce_later.
    rewrite (proj2 (Z.ltb_ge _ wait)) by lia. done. }
  assert (Hmore : forall now, due <= now -> de_timestamp s <= now -> now < de_timestamp s + wait ->
    debounce_step immediate now Fire s
    = Some (Debounced (Some (de_timestamp s + wait)) (de_args s) (de_timestamp s) (de_result s) (de_log s))).
  { intros now Hdn Hts Hw. cbn [debounce_step]. rewrite Hd, (proj2 (Z.leb_le _ _)) by done. unfold debounce_later.
    rewrite (proj2 (Z.ltb_lt _ wait)), (proj2 (Z.leb_le 0 _)) by lia. cbn [andb]. rewrite delay_small by lia. do 3 f_equal. lia. }
  set (first := Z.max t due). destruct (decide (de_timestamp s + wait <= first)) as [Hf|Hf].
  - exists [first], first. cbn [map happen]. rewrite (proj2 (Z.leb_le t first)) by lia. rewrite (Hend s due first) by (done || lia).
    split; [done | lia].
  - set (last := de_timestamp s + wait). exists [first; last], last. cbn [map happen]. rewrite (proj2 (Z.leb_le t first)) by lia.
    rewrite (Hmore first) by lia. cbn [mbind option_bind]. rewrite (proj2 (Z.leb_le first last)) by lia.
    rewrite (Hend _ last last) by (done || cbn; lia). split; [done | lia].
Qed.

Record debounce_ok (t : Z) (s : debounced) : Prop := {
  db_quiet : after_quiet (de_log s);
  db_timeout : match de_timeout s with
               | Some due => due <= de_timestamp s + wait /\ de_timestamp s <= t /\
                             exists a rest, de_log s = (de_timestamp s, Called a) :: rest /\ de_args s = Some a
               | None => de_log s = [] \/ exists tr tc a rest, de_log s = (tr, Ran (Some a)) :: (tc, Called a) :: rest /\ tc + wait <= tr
               end
}.

Lemma debounce_reached l t t' s : happen (debounce_step false) t l debounce_start = Some (t', s) -> debounce_ok t' s.
Proof.
  apply (happen_ind _ debounce_ok); [|split; [done | by left]].
  intros t0 now h s0 s1 [H1 H2] Ht H. destruct h as [a|]; cbn in H.
  - injection H as <-. unfold debounce_call. cbn [andb]. split; cbn [de_log de_timeout de_args de_timestamp]; [done|].
    destruct (de_timeout s0) as [due|]; [|rewrite delay_small by lia]; (split; [lia|]; split; [lia|]; by exists a, (de_log s0)).
  - destruct (de_timeout s0) as [due|] eqn:E; [|done]. destruct H2 as (Hd & Hts & a & rest & Hl & Ha).
    destruct (Z.leb_spec due now); [|done]. injection H as <-. unfold debounce_later. rewrite (proj2 (Z.leb_le 0 _)) by lia. rewrite andb_true_r.
    destruct (Z.ltb_spec (now - de_timestamp s0) wait); split; cbn [de_log de_timeout de_args de_timestamp]; try done.
    + rewrite delay_small by lia. split; [lia|]. split; [lia|]. by exists a, rest.
    + rewrite Hl in *. cbn. split; [done|]. split; [done | lia].
    + right. rewrite Hl, Ha. exists now, (de_timestamp s0), a, rest. split; [done | lia].
Qed.

(** A debounced function runs exactly the calls after which nothing was
    called for [wait], and the latest call is run, when the timers have fired,
    not later than [wait] after it. *)
Theorem debounce_window l t t' s :
  happen (debounce_step false) t l debounce_start = Some (t', s) ->
  after_quiet (de_log s) /\
  forall tc a, last_call (de_log s) = Some (tc, a) ->
    (exists tr, last_run (de_log s) = Some (tr, Some a) /\ tc + wait <= tr) \/
    exists fires T s', happen (debounce_step false) t' (map (fun now => (now, Fire)) fires) s = Some (T, s') /\
      last_run (de_log s') = Some (T, Some a) /\ tc + wait <= T <= Z.max t' (tc + wait).
Proof.
  intros H. destruct (debounce_reached _ _ _ _ H) as [H1 H2]. split; [done|]. intros tc a Hc.
  destruct (de_timeout s) as [due|] eqn:E.
  - right. destruct H2 as (Hd & Hts & a' & rest & Hl & Ha). rewrite Hl in Hc. injection Hc as <- <-.
    destruct (debounce_fires false s t' due) as (fires & T & Hf & HT); [done..|]. exists fires, T. eexists. split; [exact Hf|].
    split; [|done]. unfold last_run. cbn. by rewrite Ha.
  - left. destruct H2 as [Hl|(tr & tc' & a' & rest & Hl & Hle)]; rewrite Hl in Hc; [done|]. injection Hc as <- <-.
    exists tr. by rewrite Hl.
Qed.

Record immediate_ok (t : Z) (s : debounced) : Prop := {
  im_quiet : before_quiet (de_log s);
  im_head : match de_log s with (x, _) :: _ => x = de_timestamp s /\ de_timestamp s <= t | [] => de_timeout s = None end;
  im_timeout : match de_timeout s with Some due => due <= de_timestamp s + wait | None => de_log s = [] \/ de_timestamp s + wait <= t end
}.

Lemma immediate_reached l t t' s : happen (debounce_step true) t l debounce_start = Some (t', s) -> immediate_ok t' s.
Proof.
  apply (happen_ind _ immediate_ok); [|split; [done | done | by left]].
  intros t0 now h s0 s1 [H1 H2 H3] Ht H. destruct h as [a|]; cbn in H.
  - injection H as <-. unfold debounce_call. cbn [andb]. destruct (de_timeout s0) as [due|] eqn:E.
    + split; cbn [de_log de_timeout de_timestamp]; [done | lia|]. destruct (de_log s0) as [|[x e] log]; [done | lia].
    + split; cbn [de_log de_timeout de_timestamp before_quiet]; [|lia|rewrite delay_small by lia; lia].
      split; [done|]. split; [done|]. split; [done|]. destruct (de_log s0) as [|[x e] log]; [done|]. destruct H3 as [H3|H3]; [done | lia].
  - destruct (de_timeout s0) as [due|] eqn:E; [|done]. destruct (Z.leb_spec due now); [|done]. injection H as <-.
    destruct (de_log s0) as [|[x e] log] eqn:El; [done|]. unfold debounce_later. rewrite (proj2 (Z.leb_le 0 _)) by lia. rewrite andb_true_r.
    destruct (Z.ltb_spec (now - de_timestamp s0) wait); split; cbn [de_log de_timeout de_timestamp]; rewrite ?El; try done; try lia.
    rewrite delay_small by lia. lia.
Qed.

(** Debounced with [immediate], the function runs at the calls before
    which nothing was called for [wait]; the next call does, when the timers
    have fired, as soon as [wait] has passed. *)
Theorem debounce_immediate l t t' s :
  happen (debounce_step true) t l debounce_start = Some (t', s) ->
  before_quiet (de_log s) /\
  exists fires T s', happen (debounce_step true) t' (map (fun now => (now, Fire)) fires) s = Some (T, s') /\
    T <= Z.max t' (de_timestamp s + wait) /\ de_log s' = de_log s /\
    forall now a, last_run (de_log (debounce_call true now a s')) = Some (now, Some a).
Proof.
  intros H. destruct (immediate_reached _ _ _ _ H) as [H1 H2 H3]. split; [done|]. destruct (de_timeout s) as [due|] eqn:E.
  - destruct (de_log s) as [|[x e] log] eqn:El; [done|].
    destruct (debounce_fires true s t' due) as (fires & T & Hf & HT); [done | done | lia|].
    exists fires, T. eexists. split; [exact Hf|]. split; [lia|]. rewrite El. done.
  - exists [], t', s. split; [done|]. split; [lia|]. split; [done|]. intros now a. unfold debounce_call. by rewrite E.
Qed.
End Time.

(** ** Witnesses *)

(** Three calls in a window: the first and the last run. *)
Lemma throttle_window_witness :
  let func := fun a : option Z => default 0 a in
  exists s, happen (throttle_step func 100 true true) 1000 [(1000, Call 1); (1030, Call 2); (1060, Call 3); (1100, Fire)] throttle_start = Some (1100, s) /\
    runs (th_log s) = [1100; 1000] /\ last_run (th_log s) = Some (1100, Some 3) /\ spaced 100 (th_log s).
Proof.
  eexists. split; [vm_compute; reflexivity|]. split; [reflexivity|]. split; [reflexivity|].
  eapply (throttle_window (fun a : option Z => default 0 a) 100 ltac:(lia) true true [(1000, Call 1); (1030, Call 2); (1060, Call 3); (1100, Fire)] 1000 1100);
    [lia | vm_compute; reflexivity].
Defined.

(** Two calls: the timer is set again, and the second call is run. *)
Lemma debounce_window_witness :
  let func := fun a : option Z => default 0 a in
  exists s, happen (debounce_step func 100 false) 1000 [(1000, Call 1); (1030, Call 2); (1100, Fire); (1130, Fire)] debounce_start = Some (1130, s) /\
    de_log s = [(1130, Ran (Some 2)); (1030, Called 2); (1000, Called 1)] /\ after_quiet 100 (de_log s).
Proof.
  eexists. split; [vm_compute; reflexivity|]. split; [reflexivity|].
  eapply (debounce_window (fun a : option Z => default 0 a) 100 ltac:(lia) [(1000, Call 1); (1030, Call 2); (1100, Fire); (1130, Fire)] 1000 1130);
    vm_compute; reflexivity.
Defined.

Lemma debounce_immediate_witness :
  let func := fun a : option Z => default 0 a in
  exists s, happen (debounce_step func 100 true) 1000 [(1000, Call 1); (1030, Call 2); (1100, Fire); (1130, Fire); (1150, Call 3)] debounce_start = Some (1150, s) /\
    de_log s = [(1150, Ran (Some 3)); (1150, Called 3); (1030, Called 2); (1000, Ran (Some 1)); (1000, Called 1)] /\ before_quiet 100 (de_log s).
Proof.
  eexists. split; [vm_compute; reflexivity|]. split; [reflexivity|].
  eapply (debounce_immediate (fun a : option Z => default 0 a) 100 ltac:(lia)
    [(1000, Call 1); (1030, Call 2); (1100, Fire); (1130, Fire); (1150, Call 3)] 1000 1150); vm_compute; reflexivity.
Defined.
