(* ===== verification/UnderscoreArrays.v ===== *)
(** Functions of Underscore (module 114) on arrays: searching, sets, tables,
    sorting and shuffling.  The elements are of any type with the equality
    [===], in which some ([NaN]) differ from themselves. *)

From Stdlib Require Import ZArith Lia List Bool Sorted Permutation.
From stdpp Require Import base sets list list_numbers sorting tactics.
From S2P Require Import Prelude.

Section Arrays.
Context {A : Type} `{!EqDecision A} (nan : A -> bool) (undefined : A).
(** [a < b] *)
Context (less : A -> A -> bool).

(** [a === b] *)
Definition strict (a b : A) : bool := bool_decide (a = b) && negb (nan a).

(** [array[i]] *)
Definition at_index (array : list A) (i : Z) : A := default undefined (zget array i).

(** ** Searching *)

(** [_.findIndex] and [_.findLastIndex], over the indices [i] and those that
    follow in the direction. *)
Fixpoint find_up (n : nat) (p : A -> bool) (array : list A) (i : Z) : Z :=
  match n with O => -1 | S n => if p (at_index array i) then i else find_up n p array (i + 1) end.
Fixpoint find_down (n : nat) (p : A -> bool) (array : list A) : Z :=
  match n with O => -1 | S n => if p (at_index array (Z.of_nat n)) then Z.of_nat n else find_down n p array end.

Definition findIndex (array : list A) (p : A -> bool) : Z := find_up (length array) p array 0.
Definition findLastIndex (array : list A) (p : A -> bool) : Z := find_down (length array) p array.

(** [_.sortedIndex], with the iteratee and the order of its values. *)
Fixpoint sorted_loop {B} (fuel : nat) (lt : B -> B -> bool) (iteratee : A -> B) (array : list A) (value : B) (low high : Z) : res Z :=
  match fuel with
  | O => Err OutOfFuel
  | S fuel =>
      if low <? high then
        let mid := (low + high) / 2 in
        if lt (iteratee (at_index array mid)) value then sorted_loop fuel lt iteratee array value (mid + 1) high
        else sorted_loop fuel lt iteratee array value low mid
      else Ok low
  end.

Definition sortedIndex {B} (lt : B -> B -> bool) (iteratee : A -> B) (array : list A) (obj : A) : res Z :=
  sorted_loop (S (length array)) lt iteratee array (iteratee obj) 0 (zlen array).

(** [slice.call(array, 0, e)], where [e] may be negative. *)
Definition slice_to (i e : Z) (array : list A) : list A :=
  zslice i (if e <? 0 then Z.max (e + zlen array) 0 else Z.min e (zlen array)) array.

(** The last argument: none, a number, or [true]. *)
Inductive from_index := NoIndex | AtIndex (idx : Z) | IsSorted.

Definition indexOf (array : list A) (item : A) (idx : from_index) : res Z :=
  let length := zlen array in
  let search i :=
    if nan item then
      let k := findIndex (slice_to i length array) nan in Ok (if 0 <=? k then k + i else -1)
    else Ok (find_up (Z.to_nat (length - i)) (fun x => strict x item) array i) in
  match idx with
  | NoIndex => search 0
  | AtIndex k => search (if 0 <=? k then k else Z.max (k + length) 0)
  | IsSorted =>
      if length =? 0 then search 0
      else k <-? sortedIndex less id array item; Ok (if strict (at_index array k) item then k else -1)
  end.

Definition lastIndexOf (array : list A) (item : A) (idx : from_index) : Z :=
  let length := match idx with
                | AtIndex k => if 0 <=? k then Z.min (k + 1) (zlen array) else k + zlen array + 1
                | _ => zlen array
                end in
  if nan item then findLastIndex (slice_to 0 length array) nan
  else find_down (Z.to_nat length) (fun x => strict x item) array.

Definition contains (obj : list A) (item : A) : bool :=
  match indexOf obj item (AtIndex 0) with Ok i => 0 <=? i | Err _ => false end.

(** ** Sets *)

(** [_.uniq]: the values pushed so far are [result]; [seen] are the computed
    values, or the last one of a sorted array. *)
Fixpoint uniq_loop (array : list A) (i : Z) (iteratee : option (A -> Z -> A)) (result seen : list A) : list A :=
  match array with
  | [] => result
  | value :: array =>
      match iteratee with
      | Some f =>
          let computed := f value i in
          if contains seen computed then uniq_loop array (i + 1) iteratee result seen
          else uniq_loop array (i + 1) iteratee (result ++ [value]) (seen ++ [computed])
      | None =>
          if contains result value then uniq_loop array (i + 1) iteratee result seen
          else uniq_loop array (i + 1) iteratee (result ++ [value]) seen
      end
  end.

Fixpoint uniq_sorted (array : list A) (i : Z) (iteratee : option (A -> Z -> A)) (result : list A) (seen : option A) : list A :=
  match array with
  | [] => result
  | value :: array =>
      let computed := match iteratee with Some f => f value i | None => value end in
      let push := (i =? 0) || negb (match seen with Some x => strict x computed | None => false end) in
      uniq_sorted array (i + 1) iteratee (if push then result ++ [value] else result) (Some computed)
  end.

Definition uniq (array : list A) (isSorted : bool) (iteratee : option (A -> Z -> A)) : list A :=
  if isSorted then uniq_sorted array 0 iteratee [] None else uniq_loop array 0 iteratee [] [].

(** [flatten(input, true, true)]: what is not an array is left out. *)
Fixpoint flatten_arrays (input : list (A + list A)) : list A :=
  match input with
  | [] => []
  | inl _ :: input => flatten_arrays input
  | inr value :: input => value ++ flatten_arrays input
  end.

Definition union (arguments : list (A + list A)) : list A := uniq (flatten_arrays arguments) false None.

Fixpoint intersection_loop (array : list A) (others : list (list A)) (result : list A) : list A :=
  match array with
  | [] => result
  | item :: array =>
      if contains result item then intersection_loop array others result
      else if forallb (fun other => contains other item) others then intersection_loop array others (result ++ [item])
      else intersection_loop array others result
  end.

Definition intersection (array : list A) (others : list (list A)) : list A := intersection_loop array others [].

Definition difference (array : list A) (others : list (A + list A)) : list A :=
  let rest := flatten_arrays others in List.filter (fun value => negb (contains rest value)) array.

Definition without (array values : list A) : list A := difference array [inr values].

(** ** Tables *)

(** [_.max(array, getLength)] *)
Definition longest (array : list (list A)) : option (list A) :=
  fold_left (fun best row => match best with
                             | Some b => if zlen b <? zlen row then Some row else best
                             | None => Some row
                             end) array None.

Definition unzip (array : list (list A)) : list (list A) :=
  let length := match longest array with Some row => zlen row | None => 0 end in
  map (fun index => map (fun row => at_index row index) array) (seqZ 0 length).

Definition zip (arguments : list (list A)) : list (list A) := unzip arguments.

(** ** Shuffling *)

(** [Array(length)], and [shuffled[i] = x]. *)
Definition set_index (i : Z) (x : A) (l : list A) : list A := <[Z.to_nat i := x]> l.

(** The numbers of [_.random] are an argument. *)
Fixpoint shuffle_loop (set : list A) (index : Z) (rands : list Z) (shuffled : list A) : list A :=
  match set, rands with
  | x :: set, rand :: rands =>
      let shuffled := if rand =? index then shuffled else set_index index (at_index shuffled rand) shuffled in
      shuffle_loop set (index + 1) rands (set_index rand x shuffled)
  | _, _ => shuffled
  end.

Definition shuffle (set : list A) (rands : list Z) : list A := shuffle_loop set 0 rands (repeat undefined (length set)).

(** ** Sorting *)

Record sorted_entry := SortedEntry { e_value : A; e_index : Z; e_criteria : option Z }.

(** The comparison of [_.sortBy], for criteria that are integers or [undefined]. *)
Definition sort_compare (left right : sorted_entry) : Z :=
  let by_index := e_index left - e_index right in
  match e_criteria left, e_criteria right with
  | Some a, Some b => if a =? b then by_index else if b <? a then 1 else -1
  | None, Some _ => 1
  | Some _, None => -1
  | None, None => by_index
  end.

Definition sort_entries (obj : list A) (iteratee : A -> Z -> option Z) : list sorted_entry :=
  imap (fun i value => SortedEntry value (Z.of_nat i) (iteratee value (Z.of_nat i))) obj.

(** [Array.prototype.sort] of the engine, which need not be stable, is an argument. *)
Definition sortBy (sort : (sorted_entry -> sorted_entry -> Z) -> list sorted_entry -> list sorted_entry)
    (obj : list A) (iteratee : A -> Z -> option Z) : list A :=
  map e_value (sort sort_compare (sort_entries obj iteratee)).

(** [_.partition] *)
Definition partition (obj : list A) (predicate : A -> bool) : list A * list A :=
  fold_left (fun pf value => if predicate value then (pf.1 ++ [value], pf.2) else (pf.1, pf.2 ++ [value])) obj ([], []).

(** * Properties *)

(** Two values that the functions take for one. *)
Definition same (a b : A) : Prop := a = b \/ (nan a = true /\ nan b = true).

#[local] Instance same_dec a b : Decision (same a b).
Proof. unfold same. apply _. Defined.

(** ** Searching *)

Lemma at_index_get (l : list A) i x : zget l i = Some x -> at_index l i = x.
Proof. unfold at_index. by intros ->. Qed.

Lemma find_up_spec p l n : forall i, 0 <= i ->
  let r := find_up n p l i in
  (r = -1 /\ forall j, i <= j < i + Z.of_nat n -> p (at_index l j) = false)
  \/ (i <= r < i + Z.of_nat n /\ p (at_index l r) = true /\ forall j, i <= j < r -> p (at_index l j) = false).
Proof.
  induction n as [|n IH]; intros i Hi; cbn [find_up]; [left; split; [done | lia]|].
  destruct (p (at_index l i)) eqn:E; [right; split; [lia|]; split; [done | lia]|].
  destruct (IH (i + 1) ltac:(lia)) as [[-> H]|(H1 & H2 & H3)]; [left | right].
  - split; [done|]. intros j Hj. destruct (decide (j = i)) as [->|]; [done | apply H; lia].
  - split; [lia|]. split; [done|]. intros j Hj. destruct (decide (j = i)) as [->|]; [done | apply H3; lia].
Qed.

(** The first position of an element that is taken for [item], or [-1]. *)
Definition first_same (l : list A) (item : A) (r : Z) : Prop :=
  (r = -1 /\ forall x, x ∈ l -> ~ same x item)
  \/ exists x, zget l r = Some x /\ same x item /\ forall j y, j < r -> zget l j = Some y -> ~ same y item.

Lemma slice_to_all l : slice_to 0 (zlen l) l = l.
Proof. unfold slice_to. rewrite (proj2 (Z.ltb_ge _ 0)) by (apply zlen_nonneg). rewrite Z.min_id. apply zslice_full. Qed.

Lemma elem_zget (l : list A) x : x ∈ l -> exists j, zget l j = Some x.
Proof.
  intros [j Hj]%list_elem_of_lookup. exists (Z.of_nat j). unfold zget. by rewrite (proj2 (Z.ltb_ge _ 0)), Nat2Z.id by lia.
Qed.

Lemma find_up_same l item p : (forall x, p x = true <-> same x item) -> first_same l item (find_up (length l) p l 0).
Proof.
  intros Hp. assert (Hf : forall x, p x = false -> ~ same x item) by (intros x Hx Hs%Hp; congruence).
  destruct (find_up_spec p l (length l) 0 ltac:(lia)) as [[-> H]|(H1 & H2 & H3)].
  - left. split; [done|]. intros x [j Hj]%elem_zget. pose proof (zget_Some _ _ _ Hj). apply Hf.
    rewrite <- (at_index_get l j x Hj). apply H. unfold zlen in *. lia.
  - right. destruct (zget_lt l (find_up (length l) p l 0)) as [x Hx]; [unfold zlen; lia|].
    rewrite (at_index_get _ _ _ Hx) in H2. exists x. split; [done|]. split; [by apply Hp|]. intros j y Hj Hy.
    pose proof (zget_Some _ _ _ Hy). apply Hf. rewrite <- (at_index_get l j y Hy). apply H3. lia.
Qed.

Lemma strict_same x item : nan item = false -> strict x item = true <-> same x item.
Proof.
  intros Hn. unfold strict, same. rewrite andb_true_iff, bool_decide_eq_true, negb_true_iff. split; [tauto|].
  intros [->|[_ H]]; [done | congruence].
Qed.

Lemma nan_same x item : nan item = true -> nan x = true <-> same x item.
Proof. intros Hn. unfold same. split; [auto|]. intros [->|[? _]]; done. Qed.

Lemma indexOf_first_same l item idx : idx = NoIndex \/ idx = AtIndex 0 -> exists r, indexOf l item idx = Ok r /\ first_same l item r.
Proof.
  intros Hidx. destruct (nan item) eqn:En; (eexists; split; [unfold indexOf; rewrite En; destruct Hidx as [->| ->]; reflexivity|]).
  - rewrite slice_to_all. unfold findIndex. pose proof (find_up_same l item nan (fun x => nan_same x item En)) as H.
    destruct (Z.leb_spec 0 (find_up (length l) nan l 0)); [by rewrite Z.add_0_r|]. destruct H as [[_ H]|(x & Hx & _)]; [by left|].
    pose proof (zget_Some _ _ _ Hx). lia.
  - replace (Z.to_nat (zlen l - 0)) with (length l) by (unfold zlen; lia). apply find_up_same. intros x. by apply strict_same.
Qed.

Lemma contains_true l item : contains l item = true <-> exists x, x ∈ l /\ same x item.
Proof.
  unfold contains. destruct (indexOf_first_same l item (AtIndex 0)) as (r & -> & H); [auto|]. rewrite Z.leb_le.
  destruct H as [[-> H]|(x & Hx & Hs & _)].
  - split; [done|]. intros (x & Hx & Hs). by destruct (H x Hx).
  - pose proof (zget_Some _ _ _ Hx). split; [|lia]. intros _. exists x. split; [by eapply zget_elem | done].
Qed.

Lemma contains_false l item : contains l item = false <-> forall x, x ∈ l -> ~ same x item.
Proof.
  rewrite <- not_true_iff_false, contains_true. split; [intros H x Hx Hs; apply H; eauto | intros H (x & Hx & Hs); by eapply H].
Qed.

Lemma contains_nil item : contains [] item = false.
Proof. apply contains_false. intros x Hx. by apply not_elem_of_nil in Hx. Qed.

(** The last position of an element that is taken for [item], or [-1]. *)
Definition last_same (l : list A) (item : A) (r : Z) : Prop :=
  (r = -1 /\ forall x, x ∈ l -> ~ same x item)
  \/ exists x, zget l r = Some x /\ same x item /\ forall j y, r < j -> zget l j = Some y -> ~ same y item.

Lemma find_down_same l item p : (forall x, p x = true <-> same x item) -> last_same l item (find_down (length l) p l).
Proof.
  intros Hp. assert (Hf : forall x, p x = false -> ~ same x item) by (intros x Hx Hs%Hp; congruence).
  enough (H : forall n, (n <= length l)%nat -> let r := find_down n p l in
    (r = -1 /\ forall j, 0 <= j < Z.of_nat n -> p (at_index l j) = false)
    \/ (0 <= r < Z.of_nat n /\ p (at_index l r) = true /\ forall j, r < j < Z.of_nat n -> p (at_index l j) = false)).
  { destruct (H (length l) (le_n _)) as [[-> Hn]|(H1 & H2 & H3)].
    - left. split; [done|]. intros x [j Hj]%elem_zget. apply Hf. rewrite <- (at_index_get l j x Hj). apply Hn. exact (zget_Some _ _ _ Hj).
    - right. destruct (zget_lt l (find_down (length l) p l)) as [x Hx]; [done|]. rewrite (at_index_get _ _ _ Hx) in H2.
      exists x. split; [done|]. split; [by apply Hp|]. intros j y Hj Hy. apply Hf. rewrite <- (at_index_get l j y Hy). apply H3.
      pose proof (zget_Some _ _ _ Hy). unfold zlen in *. lia. }
  induction n as [|n IH]; intros Hn; cbn [find_down]; [left; split; [done | lia]|].
  destruct (p (at_index l (Z.of_nat n))) eqn:E; [right; split; [lia|]; split; [done | lia]|].
  destruct IH as [[-> H]|(H1 & H2 & H3)]; [lia | left | right].
  - split; [done|]. intros j Hj. destruct (decide (j = Z.of_nat n)) as [->|]; [done | apply H; lia].
  - split; [lia|]. split; [done|]. intros j Hj. destruct (decide (j = Z.of_nat n)) as [->|]; [done | apply H3; lia].
Qed.

(** [_.indexOf] finds the first place of an item and [_.lastIndexOf] the
    last one, [NaN] too. *)
Theorem indexOf_lastIndexOf l item :
  (exists r, indexOf l item NoIndex = Ok r /\ first_same l item r) /\ last_same l item (lastIndexOf l item NoIndex).
Proof.
  split; [apply indexOf_first_same; by left|]. unfold lastIndexOf. destruct (nan item) eqn:En.
  - rewrite slice_to_all. apply find_down_same. intros x. by apply nan_same.
  - replace (Z.to_nat (zlen l)) with (length l) by (unfold zlen; lia). apply find_down_same. intros x. by apply strict_same.
Qed.

(** ** Sets *)

Lemma same_value_refl a : same a a.
Proof. by left. Qed.

Lemma same_value_sym a b : same a b -> same b a.
Proof. intros [->|[? ?]]; [by left | by right]. Qed.

Lemma same_value_trans a b c : same a b -> same b c -> same a c.
Proof. intros [->|[? ?]] [->|[? ?]]; [by left | by right | by right | by right]. Qed.

(** No two values are the same one. *)
Definition distinct (l : list A) : Prop := forall i j x y, zget l i = Some x -> zget l j = Some y -> same x y -> i = j.

Lemma distinct_snoc l x : distinct l -> (forall y, y ∈ l -> ~ same y x) -> distinct (l ++ [x]).
Proof.
  intros Hl Hx i j a b Ha Hb Hs.
  assert (Hc : forall k z, zget (l ++ [x]) k = Some z -> (k < zlen l /\ zget l k = Some z) \/ (k = zlen l /\ z = x)).
  { intros k z Hk. pose proof (zget_Some _ _ _ Hk) as Hr. rewrite zlen_app in Hr. change (zlen [x]) with 1 in Hr.
    destruct (decide (k < zlen l)); [left; by rewrite zget_app_l in Hk | right].
    assert (k = zlen l) as -> by lia. rewrite zget_app_r, Z.sub_diag in Hk by lia. by injection Hk as <-. }
  destruct (Hc _ _ Ha) as [[? Ha']|[-> ->]], (Hc _ _ Hb) as [[? Hb']|[-> ->]]; [by eapply Hl | | | done].
  - destruct (Hx a); [by eapply zget_elem | done].
  - destruct (Hx b); [by eapply zget_elem | by apply same_value_sym].
Qed.

(** The values of [l] that are not yet in [seen], each at its first place. *)
Fixpoint firsts (seen l : list A) : list A :=
  match l with
  | [] => []
  | x :: l => if contains seen x then firsts seen l else x :: firsts (seen ++ [x]) l
  end.

Lemma uniq_firsts l : forall i result, uniq_loop l i None result [] = result ++ firsts result l.
Proof.
  induction l as [|x l IH]; intros i result; cbn [uniq_loop firsts]; [by rewrite app_nil_r|].
  destruct (contains result x); [apply IH|]. rewrite IH, <- app_assoc. done.
Qed.

Lemma firsts_ok l : forall seen, distinct seen ->
  distinct (seen ++ firsts seen l) /\ sublist (firsts seen l) l /\
  (forall x, x ∈ l -> exists y, y ∈ seen ++ firsts seen l /\ same y x) /\
  (forall y, y ∈ firsts seen l -> exists pre post, l = pre ++ y :: post /\ forall z, z ∈ seen ++ pre -> ~ same z y).
Proof.
  induction l as [|x l IH]; intros seen Hs; cbn [firsts].
  - rewrite app_nil_r. split; [done|]. split; [done|]. split; intros y Hy; by apply not_elem_of_nil in Hy.
  - destruct (contains seen x) eqn:E.
    + destruct (IH seen Hs) as (I1 & I2 & I3 & I4). split; [done|]. split; [by constructor|]. split.
      * intros y [->|Hy]%elem_of_cons; [|by apply I3]. apply contains_true in E as (z & Hz & Hzy). exists z. split; [set_solver | done].
      * intros y Hy. destruct (I4 y Hy) as (pre & post & -> & Hn). exists (x :: pre), post. split; [done|].
        intros z [Hz|[->|Hz]%elem_of_cons]%elem_of_app; [apply Hn; set_solver| |apply Hn; set_solver].
        intros Hxy. apply contains_true in E as (w & Hw & Hwx). destruct (Hn w); [set_solver | by eapply same_value_trans].
    + rewrite contains_false in E. destruct (IH (seen ++ [x])) as (I1 & I2 & I3 & I4); [by apply distinct_snoc|].
      rewrite <- app_assoc in I1, I3. cbn [app] in I1, I3. split; [done|]. split; [by constructor|]. split.
      * intros y [->|Hy]%elem_of_cons; [exists x; split; [set_solver | apply same_value_refl] | by apply I3].
      * intros y [->|Hy]%elem_of_cons; [exists [], l; split; [done|]; rewrite app_nil_r; exact E|].
        destruct (I4 y Hy) as (pre & post & -> & Hn). exists (x :: pre), post. split; [done|]. intros z Hz. apply Hn. set_solver.
Qed.

(** [_.uniq] keeps the first of the values that are the same, in their
    order, and nothing else; [NaN] is one value. *)
Theorem uniq_first l :
  let r := uniq l false None in
  sublist r l /\ distinct r /\ (forall x, x ∈ l -> exists y, y ∈ r /\ same y x) /\
  forall y, y ∈ r -> exists pre post, l = pre ++ y :: post /\ forall z, z ∈ pre -> ~ same z y.
Proof.
  unfold uniq. rewrite uniq_firsts. cbn [app]. destruct (firsts_ok l []) as (I1 & I2 & I3 & I4); [intros i j x y Hx; by destruct i|].
  by split.
Qed.

(** The faster algorithm: in a sorted array the latest value is the only one
    of the result that can come again. *)
Lemma uniq_sorted_firsts (R : A -> A -> Prop) `{!PartialOrder R} l : forall i result v, 0 < i ->
  StronglySorted R (v :: l) -> (forall x, x ∈ result -> R x v) -> v ∈ result -> (forall x, x ∈ v :: l -> nan x = false) ->
  uniq_sorted l i None result (Some v) = result ++ firsts result l.
Proof.
  induction l as [|x l IH]; intros i result v Hi Hs Hr Hv Hn; cbn [uniq_sorted firsts]; [by rewrite app_nil_r|].
  apply StronglySorted_inv in Hs as [Hs Hf]. apply Forall_cons_iff in Hf as [Hvx _].
  assert (Hnx : forall y, y ∈ x :: l -> nan y = false) by (intros y Hy; apply Hn; set_solver).
  assert (Hnv : nan v = false) by (apply Hn; set_solver).
  rewrite (proj2 (Z.eqb_neq i 0)) by lia. cbn [orb]. unfold strict at 1. rewrite Hnv, andb_true_r.
  case_bool_decide as E; cbn [negb].
  - subst x. rewrite (proj2 (contains_true result v)) by (exists v; split; [done | apply same_value_refl]).
    apply IH; [lia | done..].
  - replace (contains result x) with false.
    + rewrite (IH (i + 1) (result ++ [x]) x); [by rewrite <- app_assoc | lia | done | | set_solver | done].
      intros y [Hy| ->%list_elem_of_singleton]%elem_of_app; [|done]. etrans; [by apply Hr | done].
    + symmetry. apply contains_false. intros y Hy [->|[_ Hx]]; [|rewrite Hnx in Hx; [done | set_solver]].
      apply E. apply (anti_symm R); [done | by apply Hr].
Qed.

(** With [isSorted], the values of an array that is sorted in some order
    are those that the slow algorithm keeps. *)
Theorem uniq_is_sorted (R : A -> A -> Prop) `{!PartialOrder R} l :
  StronglySorted R l -> (forall x, x ∈ l -> nan x = false) -> uniq l true None = uniq l false None.
Proof.
  intros Hs Hn. unfold uniq. rewrite uniq_firsts. destruct l as [|v l]; [done|]. cbn [uniq_sorted firsts app Z.eqb orb].
  rewrite contains_nil. apply (uniq_sorted_firsts R l); [done | done | | set_solver | done].
  by intros x ->%list_elem_of_singleton.
Qed.

Lemma contains_firsts x l : contains (firsts [] l) x = contains l x.
Proof.
  destruct (firsts_ok l []) as (_ & Hs & Hk & _); [intros i j a y Ha; by destruct i|]. cbn [app] in Hk.
  apply eq_true_iff_eq. rewrite !contains_true. split.
  - intros (y & Hy & Hyx). exists y. split; [|done]. by eapply sublist_subseteq.
  - intros (y & Hy & Hyx). destruct (Hk y Hy) as (z & Hz & Hzy). exists z. split; [done | by eapply same_value_trans].
Qed.

Lemma contains_app l k x : contains (l ++ k) x = contains l x || contains k x.
Proof.
  apply eq_true_iff_eq. rewrite orb_true_iff, !contains_true. split.
  - intros (y & [Hy|Hy]%elem_of_app & Hyx); eauto.
  - intros [(y & Hy & Hyx)|(y & Hy & Hyx)]; exists y; (split; [set_solver | done]).
Qed.

Lemma intersection_firsts others l : forall result,
  intersection_loop l others result
  = result ++ firsts result (List.filter (fun item => forallb (fun other => contains other item) others) l).
Proof.
  induction l as [|x l IH]; intros result; cbn [intersection_loop List.filter firsts]; [by rewrite app_nil_r|].
  rewrite !IH. destruct (forallb _ others); cbn [firsts]; [|by destruct (contains result x)].
  destruct (contains result x); [done|]. by rewrite <- app_assoc.
Qed.

Lemma contains_same l x y : same x y -> contains l x = contains l y.
Proof.
  intros Hxy. apply eq_true_iff_eq. rewrite !contains_true.
  split; intros (z & Hz & Hs); exists z; (split; [done|]); [by eapply same_value_trans | eapply same_value_trans; [done | by apply same_value_sym]].
Qed.

Lemma contains_filter p l x : (forall a b, same a b -> p a = p b) -> contains (List.filter p l) x = contains l x && p x.
Proof.
  intros Hp. apply eq_true_iff_eq. rewrite andb_true_iff, !contains_true. split.
  - intros (y & [Hy Hpy]%list_elem_of_In%filter_In & Hs). split; [|by rewrite <- (Hp y x)]. exists y. split; [by apply list_elem_of_In | done].
  - intros ((y & Hy & Hs) & Hpx). exists y. split; [|done]. apply list_elem_of_In, filter_In. rewrite (Hp y x) by done. split; [by apply list_elem_of_In | done].
Qed.

(** The operations on sets: what the union, the intersection and the
    difference contain, and that the first two have no value twice. *)
Theorem set_operations l others values x :
  contains (union (map inr others)) x = existsb (fun o => contains o x) others /\ distinct (union (map inr others)) /\
  contains (intersection l others) x = contains l x && forallb (fun o => contains o x) others /\ distinct (intersection l others) /\
  contains (difference l (map inr others)) x = contains l x && negb (existsb (fun o => contains o x) others) /\
  contains (without l values) x = contains l x && negb (contains values x).
Proof.
  assert (Hflat : flatten_arrays (map inr others) = concat others) by (induction others as [|o os IH]; [done|]; cbn; by rewrite IH).
  assert (Hany : contains (concat others) x = existsb (fun o => contains o x) others).
  { clear. induction others as [|o os IH]; [|cbn [concat existsb]; by rewrite contains_app, IH].
    apply contains_nil. }
  assert (Hd : forall k, distinct (firsts [] k)) by (intros k; destruct (firsts_ok k []) as (I & _); [intros i j a y Ha; by destruct i | done]).
  assert (Hdiff : forall k, contains (List.filter (fun v => negb (contains k v)) l) x = contains l x && negb (contains k x)).
  { intros k. apply contains_filter. intros a b Hab. by rewrite (contains_same k a b). }
  unfold union, uniq, intersection, without, difference. rewrite uniq_firsts, intersection_firsts, Hflat. cbn [app flatten_arrays].
  rewrite !contains_firsts, Hany, app_nil_r, !Hdiff, Hany. split; [done|]. split; [apply Hd|]. split; [|split; [apply Hd | done]].
  apply contains_filter. intros a b Hab. clear - Hab EqDecision0. induction others as [|o os IH]; [done|]. cbn [forallb].
  by rewrite (contains_same o a b), IH.
Qed.
(** ** Binary search *)

Lemma sorted_loop_ok {B} (lt : B -> B -> bool) (f : A -> B) l v :
  (forall i j, 0 <= i < j -> j < zlen l -> lt (f (at_index l j)) v = true -> lt (f (at_index l i)) v = true) ->
  forall n low high, 0 <= low <= high -> high <= zlen l -> high - low < Z.of_nat n ->
  (forall i, 0 <= i < low -> lt (f (at_index l i)) v = true) ->
  (forall i, high <= i < zlen l -> lt (f (at_index l i)) v = false) ->
  exists r, sorted_loop n lt f l v low high = Ok r /\ 0 <= r <= zlen l /\
    forall i, 0 <= i < zlen l -> lt (f (at_index l i)) v = (i <? r).
Proof.
  intros Hmono. induction n as [|n IH]; intros low high Hl Hh Hn Hlow Hhigh; [lia|]. cbn [sorted_loop].
  destruct (Z.ltb_spec low high) as [Hlt|Hge].
  - assert (Hmid : low <= (low + high) / 2 < high) by (split; [apply Z.div_le_lower_bound | apply Z.div_lt_upper_bound]; lia).
    set (mid := (low + high) / 2) in *. cbv zeta. destruct (lt (f (at_index l mid)) v) eqn:E; apply IH; try done; try lia.
    + intros i Hi. destruct (decide (i = mid)) as [->|]; [done | apply (Hmono i mid); lia || done].
    + intros i Hi. apply not_true_iff_false. intros Hc. destruct (decide (i = mid)) as [->|]; [congruence|].
      enough (lt (f (at_index l mid)) v = true) by congruence. by apply (Hmono mid i); [lia..|].
  - exists low. split; [done|]. split; [lia|]. intros i Hi. destruct (Z.ltb_spec i low); [by apply Hlow; lia | apply Hhigh; lia].
Qed.

(** [_.sortedIndex] ends, and finds where the object belongs in an array
    that is sorted: the elements before the index are those that are less. *)
Theorem sortedIndex_spec {B} (lt : B -> B -> bool) (f : A -> B) l x :
  (forall i j, 0 <= i < j -> j < zlen l -> lt (f (at_index l j)) (f x) = true -> lt (f (at_index l i)) (f x) = true) ->
  exists r, sortedIndex lt f l x = Ok r /\ 0 <= r <= zlen l /\
    forall i, 0 <= i < zlen l -> lt (f (at_index l i)) (f x) = (i <? r).
Proof. intros H. apply sorted_loop_ok; [done | unfold zlen; intros; lia..]. Qed.

Lemma sorted_get {B} (R : B -> B -> Prop) (l : list B) i j x y : StronglySorted R l -> i < j ->
  zget l i = Some x -> zget l j = Some y -> R x y.
Proof.
  intros Hs. revert i j. induction Hs as [|a l _ IH Hf]; intros i j Hij Hx Hy.
  - apply zget_Some in Hx. change (zlen []) with 0 in Hx. lia.
  - pose proof (zget_Some _ _ _ Hx). rewrite (zget_cons _ _ j) in Hy by lia. destruct (decide (i = 0)) as [->|].
    + rewrite zget_cons_0 in Hx. injection Hx as <-. rewrite list.Forall_forall in Hf. apply Hf. by eapply zget_elem.
    + rewrite zget_cons in Hx by lia. by eapply (IH (i - 1) (j - 1)); [lia|..].
Qed.

(** The binary search of [_.indexOf] finds in a sorted array what the
    search from the front finds. *)
Theorem indexOf_sorted l item :
  (forall a, less a a = false) -> (forall a b c, less a b = true -> less b c = true -> less a c = true) ->
  StronglySorted (fun a b => less a b = true \/ a = b) l -> nan item = false -> item <> undefined ->
  indexOf l item IsSorted = indexOf l item NoIndex.
Proof.
  intros Hirr Htr Hs Hn Hu. destruct (indexOf_first_same l item NoIndex) as (r & Hr & Hf); [by left|]. rewrite Hr.
  unfold indexOf. destruct (Z.eqb_spec (zlen l) 0) as [H0|H0]; [rewrite <- Hr; unfold indexOf; done|].
  destruct (sortedIndex_spec less id l item) as (k & -> & Hk & Hless).
  { intros i j Hi Hj. destruct (zget_lt l i) as [a Ha]; [lia|]. destruct (zget_lt l j) as [b Hb]; [lia|].
    rewrite (at_index_get _ _ _ Ha), (at_index_get _ _ _ Hb). intros Hbx.
    destruct (sorted_get _ _ _ _ _ _ Hs (proj2 Hi) Ha Hb) as [Hab| ->]; [by eapply Htr | done]. }
  cbn [res_bind]. f_equal. unfold id in Hless. destruct Hf as [[-> Hno]|(x & Hx & Hsame & Hfirst)].
  - destruct (strict (at_index l k) item) eqn:E; [|done]. apply (strict_same _ _ Hn) in E.
    destruct (decide (k = zlen l)) as [->|]; [|destruct (zget_lt l k) as [y Hy]; [lia|]].
    + unfold at_index in E. rewrite zget_None in E by lia. destruct E as [E|[_ E]]; [by destruct Hu | congruence].
    + rewrite (at_index_get _ _ _ Hy) in E. destruct (Hno y); [by eapply zget_elem | done].
  - assert (x = item) as -> by (destruct Hsame as [|[]]; congruence). pose proof (zget_Some _ _ _ Hx).
    pose proof (Hless r ltac:(lia)) as Hkr. rewrite (at_index_get _ _ _ Hx), Hirr in Hkr. symmetry in Hkr. apply Z.ltb_ge in Hkr.
    destruct (decide (k = r)) as [->|]; [rewrite (at_index_get _ _ _ Hx), (proj2 (strict_same _ _ Hn) Hsame); done|].
    destruct (zget_lt l k) as [b Hb]; [lia|]. pose proof (Hless k ltac:(lia)) as Hkk. rewrite (at_index_get _ _ _ Hb), Z.ltb_irrefl in Hkk.
    destruct (sorted_get _ _ k r _ _ Hs ltac:(lia) Hb Hx) as [|Hbi]; [congruence|]. destruct (Hfirst k b ltac:(lia) Hb). by left.
Qed.

(** ** Tables *)

Lemma longest_same n (t : list (list A)) b : zlen b = n -> Forall (fun row => zlen row = n) t ->
  fold_left (fun best row => match best with Some b => if zlen b <? zlen row then Some row else best | None => Some row end) t (Some b) = Some b.
Proof.
  intros Hb. induction 1 as [|row t Hr _ IH]; [done|]. cbn [fold_left]. rewrite (proj2 (Z.ltb_ge _ _)) by lia. exact IH.
Qed.

Lemma unzip_rect n (t : list (list A)) : t <> [] -> Forall (fun row => zlen row = n) t ->
  unzip t = map (fun index => map (fun row => at_index row index) t) (seqZ 0 n).
Proof.
  intros Hne Ht. destruct t as [|b t]; [done|]. unfold unzip, longest. cbn [fold_left]. apply Forall_cons_iff in Ht as [Hb Ht].
  by rewrite (longest_same n), Hb.
Qed.

Lemma map_at_index (l : list A) : map (at_index l) (seqZ 0 (zlen l)) = l.
Proof.
  apply list_eq. intros k. rewrite list_lookup_fmap. destruct (decide (k < length l)%nat) as [Hk|Hk].
  - rewrite lookup_seqZ_lt by (unfold zlen; lia). cbn. unfold at_index, zget. rewrite (proj2 (Z.ltb_ge _ 0)) by lia.
    rewrite Z.add_0_l, Nat2Z.id. destruct (lookup_lt_is_Some_2 l k Hk) as [x ->]. done.
  - rewrite lookup_seqZ_ge by (unfold zlen; lia). symmetry. apply lookup_ge_None. lia.
Qed.

(** [_.unzip] is its own inverse on a table with rows of the same length. *)
Theorem unzip_unzip n (t : list (list A)) : t <> [] -> 0 < n -> Forall (fun row => zlen row = n) t -> unzip (zip t) = t.
Proof.
  intros Hne Hn Ht. unfold zip. rewrite (unzip_rect n t) by done. set (cols := map _ (seqZ 0 n)).
  assert (Hc : Forall (fun row => zlen row = zlen t) cols).
  { apply list.Forall_forall. intros c (i & -> & _)%list_elem_of_fmap. unfold zlen. by rewrite length_map. }
  rewrite (unzip_rect (zlen t)); [| |done].
  - apply list_eq. intros k. rewrite list_lookup_fmap. destruct (t !! k) as [row|] eqn:Ek.
    + pose proof (lookup_lt_Some _ _ _ Ek). rewrite lookup_seqZ_lt by (unfold zlen; lia). cbn. f_equal. rewrite Z.add_0_l.
      unfold cols. rewrite map_map. transitivity (map (at_index row) (seqZ 0 n)).
      * apply map_ext. intros i. unfold at_index at 1, zget. rewrite (proj2 (Z.ltb_ge _ 0)), Nat2Z.id by lia. rewrite list_lookup_fmap, Ek. done.
      * rewrite list.Forall_lookup in Ht. rewrite <- (Ht _ _ Ek). apply map_at_index.
    + apply lookup_ge_None in Ek. by rewrite lookup_seqZ_ge by (unfold zlen; lia).
  - unfold cols. destruct (seqZ 0 n) as [|] eqn:E; [|done]. apply (f_equal length) in E. rewrite length_seqZ in E. cbn in E. lia.
Qed.
(** ** Shuffling *)

(** The [k]-th number is between [0] and [i + k]. *)
Fixpoint rands_ok (i : Z) (rands : list Z) : Prop :=
  match rands with [] => True | r :: rands => 0 <= r <= i /\ rands_ok (i + 1) rands end.

(** One more element: it is put at [r], and what was there at the end. *)
Definition swap_in (p : list A) (r : Z) (x : A) : list A :=
  if r =? zlen p then p ++ [x] else set_index r x p ++ [at_index p r].

Fixpoint inside_out (set : list A) (rands : list Z) (p : list A) : list A :=
  match set, rands with x :: set, r :: rands => inside_out set rands (swap_in p r x) | _, _ => p end.

Lemma zlen_swap_in p r x : zlen (swap_in p r x) = zlen p + 1.
Proof. unfold swap_in, set_index. case_match; rewrite zlen_app; [done|]. unfold zlen at 1. by rewrite length_insert. Qed.

Lemma set_index_app r x p q : 0 <= r < zlen p -> set_index r x (p ++ q) = set_index r x p ++ q.
Proof. intros Hr. unfold set_index. apply insert_app_l. unfold zlen in Hr. lia. Qed.

Lemma set_index_end x y p q : set_index (zlen p) x (p ++ y :: q) = p ++ x :: q.
Proof. unfold set_index, zlen. rewrite Nat2Z.id. rewrite insert_app_r_alt, Nat.sub_diag by lia. done. Qed.

Lemma at_index_app p q r : r < zlen p -> at_index (p ++ q) r = at_index p r.
Proof. intros Hr. unfold at_index. by rewrite zget_app_l. Qed.

(** The loop fills the array from the front. *)
Lemma shuffle_inside_out set : forall rands p, rands_ok (zlen p) rands -> length rands = length set ->
  shuffle_loop set (zlen p) rands (p ++ repeat undefined (length set)) = inside_out set rands p.
Proof.
  induction set as [|x set IH]; intros [|r rands] p Hr Hl; cbn in Hl; try done; cbn [shuffle_loop inside_out length repeat]; [by rewrite app_nil_r|].
  destruct Hr as [Hr Hrs]. rewrite <- (zlen_swap_in p r x) in Hrs |- *. rewrite <- IH by (done || lia). f_equal.
  unfold swap_in. destruct (Z.eqb_spec r (zlen p)) as [->|Hne].
  - by rewrite set_index_end, <- app_assoc.
  - rewrite set_index_end, at_index_app by lia. by rewrite set_index_app, <- app_assoc by lia.
Qed.

Lemma swap_in_perm p r x : 0 <= r <= zlen p -> swap_in p r x ≡ₚ p ++ [x].
Proof.
  intros Hr. unfold swap_in. destruct (Z.eqb_spec r (zlen p)) as [|Hne]; [done|]. destruct (zget_lt p r) as [y Hy]; [lia|].
  rewrite (at_index_get _ _ _ Hy). unfold set_index. unfold zget in Hy. rewrite (proj2 (Z.ltb_ge _ 0)) in Hy by lia.
  rewrite <- (take_drop_middle p (Z.to_nat r) y) at 2 by done. rewrite insert_take_drop by (eapply lookup_lt_Some; done).
  rewrite <- !app_assoc. apply Permutation_app_head. cbn. rewrite (Permutation_app_comm _ [y]), (Permutation_app_comm _ [x]). cbn. constructor.
Qed.

Lemma inside_out_perm set : forall rands p, rands_ok (zlen p) rands -> length rands = length set -> inside_out set rands p ≡ₚ p ++ set.
Proof.
  induction set as [|x set IH]; intros [|r rands] p Hr Hl; cbn in Hl; try done; cbn [inside_out]; [by rewrite app_nil_r|].
  destruct Hr as [Hr Hrs]. rewrite <- (zlen_swap_in p r x) in Hrs. rewrite IH by (done || lia). rewrite swap_in_perm by done. by rewrite <- app_assoc.
Qed.

Lemma inside_out_snoc set x r : forall rands p, length rands = length set ->
  inside_out (set ++ [x]) (rands ++ [r]) p = swap_in (inside_out set rands p) r x.
Proof. induction set as [|y set IH]; intros [|q rands] p Hl; cbn in Hl; try done. cbn. apply IH. lia. Qed.

Lemma rands_ok_snoc r : forall rands i, rands_ok i rands -> 0 <= r <= i + zlen rands -> rands_ok i (rands ++ [r]).
Proof.
  induction rands as [|q rands IH]; intros i Hq Hr; [change (zlen []) with 0 in Hr; split; [lia | done]|].
  destruct Hq as [Hq Hqs]. split; [done|]. apply IH; [done|]. rewrite zlen_cons in Hr. lia.
Qed.

(** What was there before the element was put in. *)
Lemma swap_in_undo q x : x ∈ q -> exists p r, 0 <= r <= zlen p /\ swap_in p r x = q.
Proof.
  destruct q as [|y q _] using rev_ind; [by intros ?%not_elem_of_nil|]. intros Hx. destruct (decide (x = y)) as [->|Hne].
  - exists q, (zlen q). split; [unfold zlen; lia|]. unfold swap_in. by rewrite Z.eqb_refl.
  - apply elem_of_app in Hx as [[k Hk]%list_elem_of_lookup|Hx%list_elem_of_singleton]; [|done].
    pose proof (lookup_lt_Some _ _ _ Hk). exists (<[k := y]> q), (Z.of_nat k).
    assert (Hl : zlen (<[k := y]> q) = zlen q) by (unfold zlen; by rewrite length_insert).
    split; [rewrite Hl; unfold zlen; lia|]. unfold swap_in. rewrite (proj2 (Z.eqb_neq _ _)) by (rewrite Hl; unfold zlen; lia).
    unfold set_index, at_index, zget. rewrite (proj2 (Z.ltb_ge _ 0)), Nat2Z.id, list_lookup_insert_eq, list_insert_insert_eq by lia.
    by rewrite list_insert_id.
Qed.

(** [_.shuffle] gives a permutation for all the numbers it may draw, and
    every permutation for some of them: there are as many choices of the
    numbers as there are permutations. *)
Theorem shuffle_permutations set :
  (forall rands, rands_ok 0 rands -> length rands = length set -> shuffle set rands ≡ₚ set) /\
  (forall q, q ≡ₚ set -> exists rands, rands_ok 0 rands /\ length rands = length set /\ shuffle set rands = q).
Proof.
  assert (Hs : forall rands, rands_ok 0 rands -> length rands = length set -> shuffle set rands = inside_out set rands [])
    by (intros rands; apply (shuffle_inside_out set rands [])).
  split.
  - intros rands Hr Hl. rewrite Hs by done. by apply (inside_out_perm set rands []).
  - enough (Hq : forall q, q ≡ₚ set -> exists rands, rands_ok 0 rands /\ length rands = length set /\ inside_out set rands [] = q).
    { intros q (rands & Hr & Hl & Hi)%Hq. exists rands. split; [done|]. split; [done|]. by rewrite Hs. }
    clear Hs.
    induction set as [|x set IH] using rev_ind; intros q Hq; [apply Permutation_nil_r in Hq as ->; by exists []|].
    destruct (swap_in_undo q x) as (p & r & Hr & <-); [rewrite Hq; set_solver|]. rewrite swap_in_perm in Hq by done.
    apply (Permutation_app_inv_r [x]) in Hq. destruct (IH p Hq) as (rands & Hrs & Hl & <-). exists (rands ++ [r]).
    apply Permutation_length in Hq. split; [|split; [rewrite !length_app; cbn; lia | by apply inside_out_snoc]].
    apply rands_ok_snoc; [done|]. unfold zlen in *. lia.
Qed.
End Arrays.

(** ** Sorting *)

Section SortingProofs.
Context {A : Type}.
Implicit Types obj : list A.
#[local] Notation entry := (sorted_entry (A := A)).

(** What the engine asks of a comparison of the elements of an array. *)
Record consistent {B} (cmp : B -> B -> Z) (l : list B) : Prop := {
  cmp_sym : forall a b, a ∈ l -> b ∈ l -> Z.sgn (cmp b a) = - Z.sgn (cmp a b);
  cmp_trans : forall a b c, a ∈ l -> b ∈ l -> c ∈ l -> cmp a b <= 0 -> cmp b c <= 0 -> cmp a c <= 0
}.

(** What it promises then; nothing about elements that compare as equal. *)
Definition sorts (sort : (entry -> entry -> Z) -> list entry -> list entry) : Prop :=
  forall cmp l, consistent cmp l -> sort cmp l ≡ₚ l /\ StronglySorted (fun a b => cmp a b <= 0) (sort cmp l).

(** The order of the criteria, in which [undefined] is the last. *)
Definition criteria_lt (a b : option Z) : Prop :=
  match a, b with Some a, Some b => a < b | Some _, None => True | None, _ => False end.

(** The order of the result: equal criteria keep the order of the array. *)
Definition before (a b : entry) : Prop :=
  criteria_lt (e_criteria a) (e_criteria b) \/ (e_criteria a = e_criteria b /\ e_index a < e_index b).

Lemma sort_compare_sgn (a b : entry) :
  (sort_compare a b < 0 /\ before a b) \/ (sort_compare b a < 0 /\ before b a /\ 0 < sort_compare a b) \/
  (sort_compare a b = 0 /\ e_index a = e_index b).
Proof.
  unfold sort_compare, before, criteria_lt. destruct (e_criteria a) as [x|], (e_criteria b) as [y|];
    repeat case_match; rewrite ?Z.eqb_eq, ?Z.eqb_neq, ?Z.ltb_lt, ?Z.ltb_ge in *; subst; try lia;
    destruct (Z.lt_trichotomy (e_index a) (e_index b)) as [|[|]]; intuition lia.
Qed.

Lemma sort_compare_before (a b : entry) : sort_compare a b < 0 <-> before a b.
Proof.
  split; [destruct (sort_compare_sgn a b) as [[]|[(?&?&?)|[]]]; (done || lia)|].
  unfold sort_compare, before, criteria_lt. destruct (e_criteria a) as [x|], (e_criteria b) as [y|]; try naive_solver lia.
  intros [Hlt|[[= ->] Hi]]; [|rewrite Z.eqb_refl; lia]. rewrite (proj2 (Z.eqb_neq _ _)), (proj2 (Z.ltb_ge _ _)) by lia. lia.
Qed.

Lemma before_trans (a b c : entry) : before a b -> before b c -> before a c.
Proof.
  unfold before, criteria_lt. destruct (e_criteria a), (e_criteria b), (e_criteria c); naive_solver lia.
Qed.

Lemma sort_compare_opp (a b : entry) : Z.sgn (sort_compare b a) = - Z.sgn (sort_compare a b).
Proof.
  unfold sort_compare. destruct (e_criteria a) as [x|], (e_criteria b) as [y|]; try lia.
  rewrite (Z.eqb_sym y x). destruct (Z.eqb_spec x y); [lia|]. destruct (Z.ltb_spec x y), (Z.ltb_spec y x); lia.
Qed.

Lemma entries_index obj f k e : sort_entries obj f !! k = Some e -> e_index e = Z.of_nat k.
Proof. unfold sort_entries. rewrite list_lookup_imap. destruct (obj !! k); [|done]. by intros [= <-]. Qed.

Lemma entries_equal obj f a b : a ∈ sort_entries obj f -> b ∈ sort_entries obj f -> e_index a = e_index b -> a = b.
Proof.
  intros [i Hi]%list_elem_of_lookup [j Hj]%list_elem_of_lookup Hab. rewrite (entries_index _ _ _ _ Hi), (entries_index _ _ _ _ Hj) in Hab.
  apply Nat2Z.inj in Hab as ->. congruence.
Qed.

Lemma sort_compare_le obj f a b : a ∈ sort_entries obj f -> b ∈ sort_entries obj f ->
  sort_compare a b <= 0 <-> before a b \/ a = b.
Proof.
  intros Ha Hb. rewrite <- sort_compare_before. split.
  - intros Hle. destruct (sort_compare_sgn a b) as [[]|[(?&?&?)|[? Hi]]]; [by left | lia | right; by eapply entries_equal].
  - intros [?|<-]; [lia|]. pose proof (sort_compare_opp a a). lia.
Qed.

Lemma sort_compare_consistent obj f : consistent sort_compare (sort_entries obj f).
Proof.
  split; [intros; apply sort_compare_opp|]. intros a b c Ha Hb Hc. rewrite !(sort_compare_le obj f) by done.
  intros [Hab|<-] [Hbc|<-]; auto. left. by eapply before_trans.
Qed.

Lemma sort_entries_nodup obj f : NoDup (sort_entries obj f).
Proof.
  apply NoDup_alt. intros i j e Hi Hj. apply Nat2Z.inj. by rewrite <- (entries_index _ _ _ _ Hi), <- (entries_index _ _ _ _ Hj).
Qed.

Lemma StronglySorted_strict {B} (R S : B -> B -> Prop) l : NoDup l -> (forall a b, a ∈ l -> b ∈ l -> R a b -> S a b \/ a = b) ->
  StronglySorted R l -> StronglySorted S l.
Proof.
  intros Hn HS Hs. induction Hs as [|a l Hs IH Hf]; constructor.
  - apply list.NoDup_cons in Hn as [_ Hn]. apply IH; [done|]. intros; apply HS; set_solver.
  - apply list.NoDup_cons in Hn as [Hn _]. rewrite list.Forall_forall in Hf |- *. intros b Hb.
    destruct (HS a b) as [|<-]; [set_solver | set_solver | by apply Hf | done | done].
Qed.

(** Whatever the engine does with equal elements, [_.sortBy] is stable:
    it gives the values of the array in the order of their criteria,
    [undefined] last, and of their places where those are equal; so the result
    is the same for every engine. *)
Theorem sortBy_stable sort obj f : sorts sort ->
  (exists k, k ≡ₚ sort_entries obj f /\ StronglySorted before k /\ sortBy sort obj f = map e_value k) /\
  forall sort', sorts sort' -> sortBy sort' obj f = sortBy sort obj f.
Proof.
  assert (H : forall s, sorts s -> s sort_compare (sort_entries obj f) ≡ₚ sort_entries obj f /\ StronglySorted before (s sort_compare (sort_entries obj f))).
  { intros s Hs. destruct (Hs sort_compare (sort_entries obj f)) as [Hp Hl]; [apply sort_compare_consistent|]. split; [done|].
    revert Hl. apply StronglySorted_strict; [rewrite Hp; apply sort_entries_nodup|]. intros a b. rewrite Hp. intros Ha Hb. by apply (sort_compare_le obj f). }
  intros Hs. destruct (H sort Hs) as [Hp Hl]. split; [by eexists|]. intros sort' Hs'. destruct (H sort' Hs') as [Hp' Hl'].
  unfold sortBy. f_equal. apply (StronglySorted_unique_strong before); [|done..|by rewrite Hp, Hp'].
  intros a b _ _ Hab Hba. pose proof (before_trans _ _ _ Hab Hba) as Haa. apply sort_compare_before in Haa. pose proof (sort_compare_opp a a). lia.
Qed.
(** [_.partition] keeps the order on both sides. *)
Lemma partition_filter obj (p : A -> bool) : partition obj p = (List.filter p obj, List.filter (fun x => negb (p x)) obj).
Proof.
  enough (H : forall pf, fold_left (fun pf value => if p value then (pf.1 ++ [value], pf.2) else (pf.1, pf.2 ++ [value])) obj pf
    = (pf.1 ++ List.filter p obj, pf.2 ++ List.filter (fun x => negb (p x)) obj)) by apply (H ([], [])).
  induction obj as [|x obj IH]; intros [pass fail]; cbn; [by rewrite !app_nil_r|].
  rewrite IH. destruct (p x); cbn; by rewrite <- app_assoc.
Qed.
End SortingProofs.

(** [_.range]: [stop] and [step] may be left out. *)
Definition range (start : Z) (stop step : option Z) : list Z :=
  let '(start, stop) := match stop with Some e => (start, e) | None => (0, start) end in
  let step := match step with Some s => if s =? 0 then 1 else s | None => 1 end in
  let length := Z.max (- ((- (stop - start)) / step)) 0 in
  map (fun idx => start + idx * step) (seqZ 0 length).

(** * Properties of [_.range] *)

(** [_.range] gives the terms of the progression that come before [stop],
    in either direction. *)
Theorem range_spec start stop step k : step <> 0 ->
  zget (range start (Some stop) (Some step)) k =
  if (0 <=? k) && (if 0 <? step then start + k * step <? stop else stop <? start + k * step)
  then Some (start + k * step) else None.
Proof.
  intros Hs. unfold range. rewrite (proj2 (Z.eqb_neq step 0)) by done. set (q := - ((- (stop - start)) / step)).
  assert (Hq : 0 <= k -> k < q <-> (if 0 <? step then start + k * step < stop else stop < start + k * step)).
  { intros Hk. pose proof (Z.div_mod (- (stop - start)) step Hs) as Hd. fold q in Hd.
    destruct (Z.ltb_spec 0 step).
    - pose proof (Z.mod_pos_bound (- (stop - start)) step ltac:(lia)). nia.
    - pose proof (Z.mod_neg_bound (- (stop - start)) step ltac:(lia)). nia. }
  destruct (Z.leb_spec 0 k) as [Hk|Hk]; cbn [andb]; [|unfold zget; by rewrite (proj2 (Z.ltb_lt _ _)) by lia].
  specialize (Hq Hk). unfold zget. rewrite (proj2 (Z.ltb_ge _ _)) by lia. rewrite list_lookup_fmap.
  destruct (decide (k < q)) as [Hlt|Hge].
  - rewrite lookup_seqZ_lt by lia. cbn. rewrite Z.add_0_l, Z2Nat.id by lia. apply Hq in Hlt.
    destruct (0 <? step); by rewrite (proj2 (Z.ltb_lt _ _)).
  - rewrite lookup_seqZ_ge by lia. destruct (0 <? step); rewrite (proj2 (Z.ltb_ge _ _)); try done; lia.
Qed.

(** * Examples *)

(** With an index before the front of the array, [_.lastIndexOf] finds nothing
    but [NaN] (here 0): [slice] takes the negative length from the end. *)
Lemma lastIndexOf_before_front :
  lastIndexOf (Z.eqb 0) (-1) [0; 1] 0 (AtIndex (-4)) = 0 /\ forall item, item <> 0 -> lastIndexOf (Z.eqb 0) (-1) [item; 1] item (AtIndex (-4)) = -1.
Proof. split; [reflexivity|]. intros item Hi. unfold lastIndexOf. by rewrite (proj2 (Z.eqb_neq 0 item)). Qed.

(** A sort by insertion is one that an engine may have. *)
Fixpoint insert_by (cmp : sorted_entry (A := Z) -> sorted_entry -> Z) (x : sorted_entry) (l : list sorted_entry) : list sorted_entry :=
  match l with [] => [x] | y :: k => if cmp x y <=? 0 then x :: l else y :: insert_by cmp x k end.

Definition insertion_sort (cmp : sorted_entry (A := Z) -> sorted_entry -> Z) (l : list sorted_entry) : list sorted_entry :=
  fold_right (insert_by cmp) [] l.

Lemma insert_by_perm cmp x l : insert_by cmp x l ≡ₚ x :: l.
Proof. induction l as [|y l IH]; cbn; [done|]. case_match; [done|]. rewrite IH. constructor. Qed.

Lemma insertion_sort_perm cmp l : insertion_sort cmp l ≡ₚ l.
Proof. induction l as [|y l IH]; cbn; [done|]. by rewrite insert_by_perm, IH. Qed.

Lemma consistent_sub {B} (cmp : B -> B -> Z) k l : k ⊆ l -> consistent cmp l -> consistent cmp k.
Proof.
  intros Hk [H1 H2]. split; [intros a b Ha Hb; apply H1; by apply Hk|].
  intros a b c Ha Hb Hc. apply H2; by apply Hk.
Qed.

Lemma insert_by_sorted cmp x l : consistent cmp (x :: l) ->
  StronglySorted (fun a b => cmp a b <= 0) l -> StronglySorted (fun a b => cmp a b <= 0) (insert_by cmp x l).
Proof.
  intros Hc Hs. induction Hs as [|y l Hs IH Hf]; cbn; [repeat constructor|]. destruct (Z.leb_spec (cmp x y) 0) as [Hle|Hgt].
  - constructor; [by constructor|]. constructor; [done|]. rewrite list.Forall_forall in Hf |- *. intros z Hz.
    apply (cmp_trans _ _ Hc x y z); [set_solver..| |]; auto.
  - constructor; [apply IH; revert Hc; apply consistent_sub; set_solver|].
    rewrite insert_by_perm. constructor; [|done]. pose proof (cmp_sym _ _ Hc x y ltac:(set_solver) ltac:(set_solver)). lia.
Qed.

Lemma insertion_sort_sorts : sorts insertion_sort.
Proof.
  intros cmp l Hc. split; [apply insertion_sort_perm|]. induction l as [|x l IH]; [constructor|]. apply (insert_by_sorted cmp x (insertion_sort cmp l)).
  - revert Hc. apply consistent_sub. by rewrite insertion_sort_perm.
  - apply IH. revert Hc. apply consistent_sub. set_solver.
Qed.

Lemma sortBy_stable_witness :
  sortBy insertion_sort [31; 12; 99; 21; 11] (fun x _ => if x =? 99 then None else Some (x mod 10)) = [31; 21; 11; 12; 99] /\
  exists k, sortBy insertion_sort [31; 12; 99; 21; 11] (fun x _ => if x =? 99 then None else Some (x mod 10)) = map e_value k /\
    StronglySorted before k.
Proof.
  split; [vm_compute; reflexivity|].
  destruct (sortBy_stable insertion_sort [31; 12; 99; 21; 11] (fun x _ => if x =? 99 then None else Some (x mod 10)) insertion_sort_sorts)
    as [(k & _ & Hk & H) _].
  by exists k.
Defined.
