(* ===== verification/CustomActions.v ===== *)
(** Custom actions of a schema: [CustomActionModel] (module 156), the list that
    starts them (185) and what [SchemaModel] (119) keeps of them; and the
    configuration with the name of the host ([ConfigModel], 207). *)

From Stdlib Require Import ZArith Lia List String Bool.
From stdpp Require Import base list list_numbers tactics.
From S2P Require Import Prelude JsNum Js YamlLoader SchemaModel SchemaForm Json FormEditors FormValidation FormRoundTrip FormErrors.

(** ** [String.prototype.replace] *)

(** What a text stands for that replaces [matched] between [before] and [after]. *)
Fixpoint substitution (matched before after r : jstr) : jstr :=
  match r with
  | [] => []
  | c :: rest =>
      if c =? 36 then
        match rest with
        | [] => [36]
        | c :: r =>
            if c =? 36 then 36 :: substitution matched before after r
            else if c =? 38 then matched ++ substitution matched before after r
            else if c =? 96 then before ++ substitution matched before after r
            else if c =? 39 then after ++ substitution matched before after r
            else 36 :: substitution matched before after rest
        end
      else c :: substitution matched before after rest
  end.

(** [s.replace(p, r)]: the first place where [p] stands; [before] is what comes
    before [s]. *)
Fixpoint replace_in (p r before s : jstr) : jstr :=
  if starts_with p s then substitution p before (drop (length p) s) r ++ drop (length p) s
  else match s with [] => [] | c :: s => c :: replace_in p r (before ++ [c]) s end.

Definition replace (p r s : jstr) : jstr := replace_in p r [] s.

(** ** The actions of a schema *)

Record action := Action { a_title : option jstr; a_method : jstr; a_path : jstr; a_input : option schema }.

Definition hasDialog (c : action) : bool := match a_input c with Some _ => true | None => false end.
Definition getDialogSchema (c : action) : option schema := a_input c.

Definition hasActions (actions : list (jstr * action)) : bool := match actions with [] => false | _ => true end.
Definition getActions (actions : list (jstr * action)) : list (jstr * action) := actions.

(** [Object.keys], for the names that the template shows. *)
Definition actionsNames (actions : list (jstr * action)) : list jstr := map fst actions.

(** ** Requests *)

Record request := Request { r_method : jstr; r_url : jstr; r_body : option jstr; r_token : value }.

Definition callAction (token : value) (c : action) (endpoint id : jstr) (data : value) : res request :=
  body <-? stringify data;
  Ok (Request (a_method c) (replace (u ":id") id (endpoint ++ a_path c)) body token).

(** What [fetch] and [text] give: a response, whose text may not be readable, or none. *)
Inductive response := Response (ok : bool) (statusText : jstr) (text : option jstr) | NoResponse.

(** How the promise of [callAction] ends; [inr None] is with an [Error]. *)
Definition settle (i : response) : jstr + option jstr :=
  match i with
  | Response true _ (Some j) => inl j
  | Response true _ None => inr None
  | Response false statusText _ => inr (Some statusText)
  | NoResponse => inr None
  end.

(** ** The view *)

Inductive dialog_type := TYPE_DEFAULT | TYPE_SUCCESS | TYPE_DANGER.

(** A message that is shown; [None] is an [Error]. *)
Record notice := Notice { n_type : dialog_type; n_title : jstr; n_message : option jstr }.

(** The dialog of an action: its form, and whether it was submitted, when it
    can be neither closed nor submitted again. *)
Record dialog := Dialog { d_action : jstr; d_form : form; d_busy : bool }.

(** The dialog, the requests without an answer, each with its action and
    whether a dialog sent it, all that were sent, and the messages. *)
Record view := View { v_dialog : option dialog; v_waiting : list (jstr * bool); v_sent : list request; v_shown : list notice }.

Definition view_start : view := View None [] [] [].

Inductive happening :=
| Click (b : jstr)              (* a name of the list *)
| Submit (f : form)             (* the button, with what was entered *)
| Hide                          (* the user closes the dialog *)
| Answer (k : nat) (i : response).

Section View.
Context `{Browser} (yaml_options : load_options) (token : value) (endpoint id : jstr) (actions : list (jstr * action)).

(** [dialogForm]: the fields of the form. *)
Definition dialog_fields (a : schema) : res (list jstr) :=
  match s_propertiesOrder a with
  | Some order => Ok order
  | None => match s_properties a with Some ps => Ok (obj_keys ps) | None => Err TypeError end
  end.

Definition dialogForm (a : schema) : res form :=
  schema <-? toFormJSON a;
  fields <-? dialog_fields a;
  dialog_form [] schema (Some fields) VUndef.

(** [onActionClick]: a dialog, or the request at once. *)
Definition onActionClick (b : jstr) (s : view) : res view :=
  match obj_lookup b actions with
  | None => Err TypeError
  | Some c =>
      match getDialogSchema c with
      | Some d => f <-? dialogForm d; Ok (View (Some (Dialog b f false)) (v_waiting s) (v_sent s) (v_shown s))
      | None =>
          r <-? callAction token c endpoint id VUndef;
          Ok (View (v_dialog s) (v_waiting s ++ [(b, false)]) (v_sent s ++ [r]) (v_shown s))
      end
  end.

(** The button of the dialog, with the form as it was filled in. *)
Definition onsubmit (f : form) (s : view) : res view :=
  match v_dialog s with
  | Some (Dialog b form false) =>
      match obj_lookup b actions with
      | None => Err TypeError
      | Some c =>
          e <-? submit yaml_options f;
          match e with
          | inl _ => Ok s
          | inr e =>
              r <-? callAction token c endpoint id e;
              Ok (View (Some (Dialog b form true)) (v_waiting s ++ [(b, true)]) (v_sent s ++ [r]) (v_shown s))
          end
      end
  | _ => Ok s
  end.

(** What is shown in the end. *)
Definition message (from_dialog : bool) (d : jstr + option jstr) : notice :=
  match d, from_dialog with
  | inl f, true => Notice TYPE_DEFAULT (u "Success") (Some (json_quote f))
  | inr f, true => Notice TYPE_DEFAULT (u "Error") f
  | inl d, false => Notice TYPE_SUCCESS (u "Success") (Some d)
  | inr d, false => Notice TYPE_DANGER (u "Error") d
  end.

(** An answer closes the dialog that is there when a dialog sent the request. *)
Definition answered (from_dialog : bool) (k : nat) (i : response) (s : view) : view :=
  View (if from_dialog then None else v_dialog s) (delete k (v_waiting s)) (v_sent s) (v_shown s ++ [message from_dialog (settle i)]).

(** The list of actions is behind a dialog that is open. *)
Definition view_step (h : happening) (s : view) : res view :=
  match h with
  | Click b => match v_dialog s with None => onActionClick b s | Some _ => Ok s end
  | Submit f => onsubmit f s
  | Hide => Ok (match v_dialog s with Some (Dialog _ _ false) => View None (v_waiting s) (v_sent s) (v_shown s) | _ => s end)
  | Answer k i => Ok (match v_waiting s !! k with Some (_, from_dialog) => answered from_dialog k i s | None => s end)
  end.

(** A handler that throws changes nothing. *)
Definition caught (s : view) (r : res view) : res view :=
  match r with Err Unsupported | Err OutOfFuel | Ok _ => r | Err _ => Ok s end.

Fixpoint view_run (l : list happening) (s : view) : res view :=
  match l with [] => Ok s | h :: l => s <-? caught s (view_step h s); view_run l s end.
End View.

(** ** [ConfigModel] *)

Record config := Config { c_authUrl : jstr; c_gohan_url : jstr }.

(** [parse]: the name of the host, in the place of [__HOST__]. *)
Definition parse_url (hostname url : jstr) : jstr :=
  if str_includes (u "__HOST__") url then replace (u "__HOST__") hostname url else url.

Definition parse_config (hostname : jstr) (a : config) : config :=
  Config (parse_url hostname (c_authUrl a)) (parse_url hostname (c_gohan_url a)).

(** * Properties *)

(** ** The address *)

(** [p] stands nowhere in [s ++ p] but at its end. *)
Definition first_at (p s : jstr) : Prop := forall i, (i < length s)%nat -> starts_with p (drop i (s ++ p)) = false.

Lemma starts_with_app p s t : starts_with p s = true -> starts_with p (s ++ t) = true.
Proof.
  revert s. induction p as [|a p IH]; intros [|b s]; try done. cbn. rewrite !andb_true_iff. intros [Hab Hs]. split; [done | by apply IH].
Qed.

Lemma starts_with_self p s : starts_with p (p ++ s) = true.
Proof. induction p as [|a p IH]; [done|]. cbn. by rewrite Z.eqb_refl. Qed.

Lemma starts_with_long p s t : (length p <= length s)%nat -> starts_with p (s ++ t) = starts_with p s.
Proof.
  revert s. induction p as [|a p IH]; intros [|b s]; cbn; try done; [lia|]. intros Hl. by rewrite IH by lia.
Qed.

Lemma substitution_plain m b a r : 36 ∉ r -> substitution m b a r = r.
Proof.
  induction r as [|c r IH]; [done|]. intros [Hc Hr]%not_elem_of_cons. cbn [substitution].
  rewrite (proj2 (Z.eqb_neq c 36)) by congruence. by rewrite IH.
Qed.

Lemma replace_in_first p r s t : forall before, first_at p s -> 36 ∉ r -> p <> [] -> replace_in p r before (s ++ p ++ t) = s ++ r ++ t.
Proof.
  induction s as [|c s IH]; intros before Hf Hr Hp.
  - cbn [app]. destruct p as [|a p]; [done|]. cbn [replace_in app]. change (a :: p ++ t) with ((a :: p) ++ t).
    rewrite starts_with_self, substitution_plain by done. by rewrite drop_app_length.
  - assert (E : starts_with p (c :: s ++ p ++ t) = false).
    { replace (c :: s ++ p ++ t) with ((c :: s ++ p) ++ t) by (cbn; by rewrite <- app_assoc).
      rewrite starts_with_long by (cbn; rewrite length_app; lia). apply (Hf O). cbn. lia. }
    cbn [app replace_in]. rewrite E. f_equal. apply IH; [|done..]. intros i Hi. apply (Hf (S i)). cbn. lia.
Qed.

(** The request of an action goes to its path below the endpoint of the
    schema, with the identifier of the resource in the place of [:id], carries
    the token of the user, and as its body the data of the form, if any. *)
Theorem action_request token c endpoint id data pre post r :
  a_path c = pre ++ u ":id" ++ post -> first_at (u ":id") (endpoint ++ pre) -> 36 ∉ id ->
  callAction token c endpoint id data = Ok r ->
  r_url r = endpoint ++ pre ++ id ++ post /\ r_method r = a_method c /\ r_token r = token /\ stringify data = Ok (r_body r).
Proof.
  intros Hp Hf Hid H. unfold callAction in H. apply res_bind_ok in H as (body & Hb & [= <-]). cbn. split; [|done].
  unfold replace. rewrite Hp, app_assoc, replace_in_first by done. by rewrite <- app_assoc.
Qed.

(** ** The dialog and the requests *)

Section ViewProofs.
Context `{Browser} (yaml_options : load_options) (token : value) (endpoint id : jstr) (actions : list (jstr * action)).

(** The dialog that is busy waits for the only request that a dialog sent. *)
Record view_ok (s : view) : Prop := {
  ok_dialog : map fst (List.filter snd (v_waiting s)) = match v_dialog s with Some (Dialog b _ true) => [b] | _ => [] end;
  ok_answers : (length (v_sent s) = length (v_waiting s) + length (v_shown s))%nat
}.

Lemma filter_delete_false {A} (l : list (A * bool)) k a : l !! k = Some (a, false) -> List.filter snd (delete k l) = List.filter snd l.
Proof.
  revert k. induction l as [|[b x] l IH]; intros [|k]; cbn; try done; [by intros [= <- ->]|]. intros Hk. by rewrite IH.
Qed.

Lemma filter_delete_true {A} (l : list (A * bool)) k a b :
  l !! k = Some (a, true) -> map fst (List.filter snd l) = [b] -> a = b /\ map fst (List.filter snd (delete k l)) = [].
Proof.
  revert k. induction l as [|[c x] l IH]; intros [|k]; cbn; try done.
  - intros [= -> ->]. cbn. by intros [= -> ->].
  - intros Hk. destruct x; cbn; [|by apply IH]. intros [= -> Hn]. exfalso.
    apply (f_equal length) in Hn. rewrite length_map in Hn. cbn in Hn.
    assert (Hin : (a, true) ∈ List.filter snd l) by (apply list_elem_of_In, filter_In; split; [apply list_elem_of_In; by eapply list_elem_of_lookup_2 | done]).
    destruct (List.filter snd l); [by apply not_elem_of_nil in Hin | done].
Qed.

Lemma view_step_ok h s s' : view_ok s -> view_step yaml_options token endpoint id actions h s = Ok s' -> view_ok s'.
Proof.
  intros [H1 H2] Hs. destruct s as [d w sent shown]. destruct h as [b|f| |k i]; cbn [view_step v_dialog v_waiting v_sent v_shown] in *.
  - destruct d; [by injection Hs as <-|]. unfold onActionClick in Hs. destruct (obj_lookup b actions) as [c|]; [|done].
    destruct (getDialogSchema c) as [a|].
    + apply res_bind_ok in Hs as (f & _ & [= <-]). by split.
    + apply res_bind_ok in Hs as (r & _ & [= <-]). split; cbn; [by rewrite List.filter_app, app_nil_r | rewrite !length_app; cbn; lia].
  - unfold onsubmit in Hs. cbn [v_dialog v_waiting v_sent v_shown] in Hs. destruct d as [[b form []]|]; try by injection Hs as <-.
    destruct (obj_lookup b actions) as [c|]; [|done]. apply res_bind_ok in Hs as ([e|e] & _ & Hs); [by injection Hs as <-|].
    apply res_bind_ok in Hs as (r & _ & [= <-]). split; cbn; [|rewrite !length_app; cbn; lia].
    by rewrite List.filter_app, map_app, H1.
  - injection Hs as <-. destruct d as [[b form []]|]; by split.
  - injection Hs as <-. destruct (w !! k) as [[b x]|] eqn:E; [|by split]. unfold answered. cbn [v_dialog v_waiting v_sent v_shown].
    assert (Hl : length w = S (length (delete k w))) by (rewrite length_delete by eauto; apply lookup_lt_Some in E; lia).
    split; cbn [v_dialog v_waiting v_sent v_shown]; [|rewrite length_app; cbn; lia].
    destruct x; [|by rewrite (filter_delete_false _ _ b)].
    destruct d as [[b' form []]|]; [by eapply filter_delete_true|..]; exfalso;
      (assert (Hin : (b, true) ∈ List.filter snd w) by (apply list_elem_of_In, filter_In; split; [apply list_elem_of_In; by eapply list_elem_of_lookup_2 | done]);
       apply map_eq_nil in H1; rewrite H1 in Hin; by apply not_elem_of_nil in Hin).
Qed.

Lemma view_run_ok l : forall s s', view_ok s -> view_run yaml_options token endpoint id actions l s = Ok s' -> view_ok s'.
Proof.
  induction l as [|h l IH]; intros s s' Hs; cbn [view_run]; [by intros [= <-]|]. intros (s1 & H1 & Hl)%res_bind_ok.
  eapply IH; [|exact Hl]. unfold caught in H1. destruct (view_step _ _ _ _ _ h s) as [s2|[]] eqn:E; try done; injection H1 as <-; [|done..].
  by eapply view_step_ok.
Qed.

(** C7.  Whatever the user clicks while requests are on their way, the answer
    to a request that a dialog sent closes this very dialog, which is still
    there; no answer closes another one, and every request that was answered
    shows one message. *)
Theorem answer_closes_its_dialog l s k i :
  view_run yaml_options token endpoint id actions l view_start = Ok s ->
  (length (v_sent s) = length (v_waiting s) + length (v_shown s))%nat /\
  exists s', view_step yaml_options token endpoint id actions (Answer k i) s = Ok s' /\
    match v_waiting s !! k with
    | Some (b, true) => exists f, v_dialog s = Some (Dialog b f true) /\ v_dialog s' = None /\ v_shown s' = v_shown s ++ [message true (settle i)]
    | Some (_, false) => v_dialog s' = v_dialog s /\ v_shown s' = v_shown s ++ [message false (settle i)]
    | None => s' = s
    end.
Proof.
  intros Hr. apply view_run_ok in Hr as [H1 H2]; [|done]. split; [done|]. cbn [view_step]. eexists. split; [done|].
  destruct (v_waiting s !! k) as [[b []]|] eqn:E; [|done..].
  assert (Hin : b ∈ map fst (List.filter snd (v_waiting s))).
  { apply list_elem_of_fmap. exists (b, true). split; [done|]. apply list_elem_of_In, filter_In. split; [apply list_elem_of_In; by eapply list_elem_of_lookup_2 | done]. }
  rewrite H1 in Hin. destruct (v_dialog s) as [[b' f []]|]; try by apply not_elem_of_nil in Hin.
  apply list_elem_of_singleton in Hin as ->. by exists f.
Qed.

(** The editor of an object without properties. *)
Lemma freeform_editor p required fd v e :
  field_of p required fd -> type_is (u "object") p = true -> s_properties p = None ->
  editor_of (relation_field [] fd) (f_type fd) v = Ok e -> exists vs s, e = ECode vs s.
Proof.
  intros (ti & h & rel & Hf) Ht Hp He. unfold typed_field in Hf. open_schema p. unfold type_is in *. cbn [s_type s_properties] in *. subst.
  destruct ty as [|t|]; try done. apply streq_eq in Ht as <-. injection Hf as <-. rewrite (proj2 (proj2 (relation_field_keeps [] _))) in He by done.
  cbn [f_type] in He. rewrite editor_of_simple in He by done. apply res_bind_ok in He as (s & _ & [= <-]). by eexists _, _.
Qed.

End ViewProofs.

(** ** The host in the configuration *)

(** The name of the host, which has no dollar sign, is put at the first [__HOST__]. *)
Lemma parse_url_host hostname pre post :
  first_at (u "__HOST__") pre -> 36 ∉ hostname -> parse_url hostname (pre ++ u "__HOST__" ++ post) = pre ++ hostname ++ post.
Proof.
  intros Hf Hh. unfold parse_url. replace (str_includes (u "__HOST__") (pre ++ u "__HOST__" ++ post)) with true; [by apply replace_in_first|].
  symmetry. clear Hf. induction pre as [|c pre IH]; [done|]. cbn [app str_includes]. by rewrite IH, orb_true_r.
Qed.

(** * Examples *)

(** The action of the documentation (docs/schema.md). *)
Definition text_schema : schema :=
  Schema (TyStr (u "string")) None None None false None None VUndef None None None None None None None None None.

Definition reboot_input (delay : schema) : schema :=
  Schema (TyStr (u "object")) None None None false None None VUndef None None None None None None None
    (Some [(u "message", text_schema); (u "delay", delay)]) None.

Definition reboot (delay : schema) : action := Action None (u "POST") (u "/:id/reboot") (Some (reboot_input delay)).

Definition reboot_form : form := [(u "message", EText [] (u "Maintenance")); (u "delay", EText [] (u "1h"))].

Definition demo_endpoint : jstr := u "http://127.0.0.1:9091/v1.0/servers".

(** The path has the name of the action, and the body only its input; the
    documentation has [/v1.0/servers/:id/action] and the input below the name. *)
Lemma action_request_witness :
  exists r, callAction (VStr (u "token")) (reboot text_schema) demo_endpoint (u "s1") (form_value reboot_form) = Ok r /\
    r_url r = u "http://127.0.0.1:9091/v1.0/servers/s1/reboot" /\ r_body r = Some (dq "{'message':'Maintenance','delay':'1h'}").
Proof.
  eexists. split; [vm_compute; reflexivity|]. split; [|reflexivity].
  eapply (action_request (VStr (u "token")) (reboot text_schema) demo_endpoint (u "s1") (form_value reboot_form) (u "/") (u "/reboot"));
    [reflexivity | | by apply (bool_decide_unpack _) | vm_compute; reflexivity].
  intros i Hi. change (length (demo_endpoint ++ u "/")) with 35%nat in Hi. do 35 (destruct i as [|i]; [reflexivity|]). lia.
Defined.

(** An identifier with a dollar sign may be changed on the way into the address. *)
Lemma dollar_in_identifier data r : callAction VNull (reboot text_schema) demo_endpoint (u "a$&b") data = Ok r ->
  r_url r = demo_endpoint ++ u "/a:idb/reboot".
Proof. intros H. unfold callAction in H. apply res_bind_ok in H as (body & _ & [= <-]). reflexivity. Qed.

Definition free_schema : schema :=
  Schema (TyStr (u "object")) None None None false None None VUndef None None None None None None None None None.

(** The dialog of the action, as far as the answer of the server. *)
Lemma answer_closes_its_dialog_witness :
  let run := view_run (H := plain_browser) demo_options (VStr (u "token")) demo_endpoint (u "s1") [(u "reboot", reboot text_schema)] in
  exists s, run [Click (u "reboot"); Submit reboot_form; Hide; Click (u "reboot")] view_start = Ok s /\
    v_waiting s = [(u "reboot", true)] /\ exists f, v_dialog s = Some (Dialog (u "reboot") f true).
Proof.
  intros run. destruct (run [Click (u "reboot"); Submit reboot_form; Hide; Click (u "reboot")] view_start) as [s|e] eqn:E;
    [|vm_compute in E; discriminate E].
  assert (Hw : v_waiting s = [(u "reboot", true)]) by (revert E; vm_compute; by intros [= <-]).
  exists s. split; [done|]. split; [done|].
  destruct (answer_closes_its_dialog (H := plain_browser) demo_options (VStr (u "token")) demo_endpoint (u "s1") [(u "reboot", reboot text_schema)]
    _ s O NoResponse E) as (_ & s' & _ & Hm).
  rewrite Hw in Hm. destruct Hm as (f & Hf & _). by exists f.
Defined.

Definition demo_entered : form := [(u "message", EText [] (u "now")); (u "delay", ECode [] (u "hours: 1"))].

